(* ===== verification/_CoqProject ===== *)
-Q . S2P
Prelude.v
Bytes.v
Volume.v
Runlist.v
RunlistBuf.v
RunlistQuery.v
RunlistTruncate.v
RunlistPunch.v
RunlistMerge.v
MappingPairs.v
MappingPairsRead.v
RunlistIo.v
Mst.v
Unistr.v
Collate.v
Time.v
Boot.v
PageCache.v
AttrSet.v
Logfile.v
LogfileCheck.v
Bitmap.v
LcnFree.v
LcnAlloc.v
LcnScan.v
LcnZones.v
LcnAllocSpec.v
MftAlloc.v
MftRecord.v
AttrFind.v
AttrOrder.v
MftMap.v
AttrList.v
AttrListSpec.v
Secure.v
NewInode.v
IndexNode.v
IndexLookup.v
IndexTree.v
IndexModify.v
IndexUpdate.v
IndexEntry.v
IndexSplit.v
IndexBlock.v
IndexRoot.v
IndexAlloc.v
IndexGrow.v
IndexInsert.v
IndexPlan.v
IndexFull.v
IndexDelete.v
Compress.v
