(* ===== verification/Prelude.v ===== *)
(** * A verification development for the NTFS kernel extension

    The program is a file system driver ([src/kext]).  Its core is a set of pure
    transformations of on-disk and in-core data structures, on which the VFS entry
    points are built:

    - the RUNLIST of an attribute maps virtual clusters (VCN) of the attribute to logical
      clusters (LCN) of the volume.  It is searched, truncated, punched, merged, read and
      written through ([kext/ntfs_runlist.c]);
    - MAPPING PAIRS are the compressed on-disk form of a runlist ([kext/ntfs_runlist.c]);
    - MULTI SECTOR TRANSFER protection detects records of which only a part reached the
      disk ([kext/ntfs_mst.c]);
    - NAMES and keys of indexes are compared and collated ([kext/ntfs_unistr.c],
      [kext/ntfs_collate.c]);
    - the BOOT SECTOR defines the geometry of the volume and the zones of the cluster
      allocator ([kext/ntfs_vfsops.c]);
    - BITMAPS record which clusters and mft records are in use ([kext/ntfs_bitmap.c]);
    - the CLUSTER ALLOCATOR takes free clusters from the zones of the volume and describes
      them by a runlist, and returns the clusters of a runlist to the volume
      ([kext/ntfs_lcnalloc.c]);
    - MFT RECORDS hold the attributes of an inode, as a sorted sequence of attribute records
      ([kext/ntfs_attr.c], [kext/ntfs_mft.c], with the layouts of [kext/ntfs_layout.h]); the
      default security descriptors of new inodes come from [kext/ntfs_secure.c];
    - INDEXES are B+trees of sorted entries, with their root in an mft record and the other nodes
      in index blocks ([kext/ntfs_index.c]);
    - COMPRESSION BLOCKS hold the data of compressed files ([kext/ntfs_compress.c]);
    - the LOG FILE tells whether the volume was unmounted cleanly
      ([kext/ntfs_logfile.c]);
    - TIMES are converted between the NTFS and the UTC form ([kext/ntfs_time.h]).

    ** Files

    - [Prelude]: outcomes of C code, machine integers, memory as lists, errno values,
      tactics and the hint databases.  [Bytes]: little endian loads and stores in byte lists.
      [Volume]: the geometry fields of [ntfs_volume].  [PageCache]: the page cache.
    - [Runlist]: elements, the map [lcn_of] that a list of elements denotes, the
      invariant [wf_rl] and [runlist_ok].  [RunlistBuf]: the buffer of a runlist
      ([ntfs_rl_copy], [ntfs_rl_inc], [ntfs_rl_move], [ntfs_rl_ins], [ntfs_rl_shrink]).
    - [RunlistQuery]: [ntfs_rl_vcn_to_lcn], [ntfs_rl_find_vcn_nolock],
      [ntfs_rl_get_nr_real_clusters].  [RunlistTruncate]: [ntfs_rl_truncate_nolock].
      [RunlistPunch]: [ntfs_rl_punch_nolock].  [RunlistMerge]: [ntfs_rl_merge] and the
      functions that splice runs.
    - [MappingPairs]: [ntfs_get_size_for_mapping_pairs] and [ntfs_mapping_pairs_build].
      [MappingPairsRead]: [ntfs_mapping_pairs_decompress].
    - [RunlistIo]: [ntfs_rl_read], [ntfs_rl_write] and [ntfs_rl_set].
    - [Mst]: the three fixups.  [Unistr], [Collate], [Time], [Boot], [Bitmap],
      [Compress]: the functions of the source file of that name.
    - [AttrSet]: [ntfs_attr_set].  [Logfile]: the checks of restart pages and of the log
      client array, and the loading of a restart page.  [LogfileCheck]:
      [ntfs_logfile_check], [ntfs_logfile_is_clean] and [ntfs_logfile_empty].
    - [LcnFree]: [ntfs_cluster_free_from_rl]; its state [lcn_vol] is the part of the volume
      that the allocator changes.  [LcnAlloc]: [ntfs_cluster_alloc], one definition for
      every part of the function.  [LcnScan]: the search in the bitmap and the runlist it
      builds.  [LcnZones]: the order of the zones and passes.  [LcnAllocSpec]: the theorems
      on the whole function, with the allocator composed of [Bitmap], [LcnFree], the runlist
      queries and the zones that [Boot] sets up.
    - [MftRecord]: an mft record as bytes, and the operations on its attribute records
      ([ntfs_attr_record_delete_internal], [ntfs_attr_record_make_space],
      [ntfs_attr_record_resize], [ntfs_resident_attr_record_insert_internal],
      [ntfs_resident_attr_value_resize], [ntfs_mft_record_lay_out]).  The record [mft] splits
      the bytes into header, attribute records, end marker and free space, and [mft_ok] says
      that the header describes them.  [AttrFind]: [ntfs_attr_find_in_mft_record], with names
      compared by [Unistr].  [AttrOrder]: sorted mft records, and how the search, the insertion
      and the deletion work together.  [MftAlloc]: the search for a free record in the mft bitmap
      ([ntfs_mft_bitmap_find_and_alloc_free_rec_nolock]).
    - [MftMap]: mapping and unmapping mft records and the inodes of extents
      ([ntfs_mft_record_map_ext], [ntfs_mft_record_unmap], [ntfs_extent_mft_record_map_ext],
      [ntfs_extent_inode_get]); the state [mft_state] holds the mft, the inodes in the cache and the
      extents attached to the base inode, and [cache_ok] says which records are mapped.
      [AttrList]: [ntfs_attr_lookup] with an attribute list.  [AttrListSpec]: the search as one in
      the list of entries, and the theorem on sorted lists.
    - [Secure]: [ntfs_security_hash] and [ntfs_default_sds_entries_init].  [NewInode]: the parts
      of [ntfs_mft_record_alloc] that turn a free mft record into the base record of a new file
      or directory, composed of [MftRecord], [Secure] and [Time].
    - [IndexNode]: the entries of one node of an index, how they are gathered and searched
      ([ntfs_index_get_entries], [ntfs_index_lookup_in_node]).  [IndexLookup]: the index contexts,
      and the lookups and walks that follow the child pointers ([ntfs_index_lookup],
      [ntfs_index_lookup_by_position], [ntfs_index_lookup_next],
      [ntfs_index_lookup_predecessor]).  A path of contexts is a list, of which the head is the
      bottom node; the state [world] holds the mft record and the contents of the index
      allocation.  [IndexTree]: the tree [btree] that the record and the blocks store
      ([stored_index]), its entries in order ([inorder]), and the theorems on lookups and walks.
      [IndexModify]: the changes of one node ([ntfs_index_block_lay_out],
      [ntfs_index_node_make_space], [ntfs_index_entry_replace], the insertion of an entry that
      fits and the deletion of an entry of a leaf).  [IndexUpdate]: the tree after such a change.
    - [IndexSplit]: [ntfs_index_entry_add_or_node_split] and [ntfs_index_block_alloc], the insertion
      of an entry that does not fit into its leaf.  The path is an array of [split_context]; the
      state [index_state] adds the index bitmap to [world].  [plan_loop] chooses the entries to
      promote and allocates the blocks, [work_loop] splits the nodes from the top down.
      [IndexEntry]: the fields of index entries under the changes that splits make.  [IndexBlock]:
      the insertion into and the split of one index block.  [IndexRoot]: the insertion into the root
      in its mft record.  [IndexAlloc]: the allocation of an index block.  [IndexGrow]: the work on a
      whole path.  [IndexInsert]: the tree that the blocks store after it.  [IndexPlan]: the plan
      gives every half enough space and can be undone.  [IndexFull]: the invariant [full_index] of
      root, blocks and bitmap, and that the function keeps it.  [IndexDelete]: the deletion of an entry
      of a leaf keeps it too.

    ** Conventions

    A function that may call [panic] or reach outside of an object returns an
    [outcome]: [Ret a], [Panic] or [Oob].  Errors are errno values in the result.  An
    array is a list, and a load or store outside of it is [Oob]; a pointer into an array
    is an index.  In-core integers of 64 bits in the runlist code are unbounded (their
    overflow is undefined in C and excluded by the size of volumes), and 8, 16 and 32 bit
    values wrap with [u8], [u16], [u32], [s8] where the code can make them do so.  Locks,
    debug output and the NULL checks of pointers that the model passes as values are not
    modelled.  Code outside of the driver is a class that the operations are parametric
    in: [Allocator] (whether an allocation succeeds, and what fresh memory holds),
    [BufferCache] (whether reading or writing a sector succeeds), [PageCache] (the
    page size, and whether mapping a page succeeds) and [DataAllocator] (whether a buffer of
    bytes can be allocated) and [IndexEnv] (whether the requests of index lookups for memory,
    pages and mft records succeed), [BitmapInode] (whether the inode of an index bitmap can be
    got) and [MftEnv] (whether the requests for mapping mft records succeed).

    ** What is proved

    - Runlists ([RunlistQuery], [RunlistTruncate], [RunlistPunch], [RunlistMerge]): every
      operation keeps the invariant [runlist_ok] and is exactly the intended operation on
      the map [lcn_of], for every outcome of memory allocation; on errors the map is
      unchanged.  None of them panics, under the conditions the theorems name.
    - Mapping pairs: the computed size is exact, the encoder writes the longest prefix
      that fits, decoding inverts encoding, further extents are merged into the map, and
      decoding is safe on corrupt pairs in a record whose length and pairs offset stay in memory.
    - I/O through a runlist: reads and writes are those of the mapped sectors and
      invert each other.
    - Fixups: round trip, detection of torn writes, safety on any record.
    - Names and collation: the comparisons are the orders they stand for, and every
      collation rule is a total order on its valid keys ([valid_key]: file names have none of the
      characters that the comparison rejects).
    - Boot sector: what the parser accepts is, for sector sizes that are powers of two, a consistent
      geometry, from which the mft zone is set up inside the volume.
    - Bitmaps: exactly the requested bits change; the rollback on errors restores a run of
      bits that all had the opposite value, and never touches a bit outside of the run.
    - Cluster allocator: for every behaviour of the page cache and of memory allocation the
      search terminates, keeps the invariant [zones_ok] and allocates exactly the number of
      different free clusters asked for, or reports an error.  With memory, a
      readable bitmap and a start that covers the zone ([covers]) it succeeds if and only if
      there are enough free clusters.  On a working page cache a failed allocation from VCN 0 on is
      undone; the theorem also states that one from a later VCN is not after a lack of space.  Freeing a range of a runlist
      clears exactly the bits of its clusters.
    - Mft records: on a well-formed record every operation on its bytes is the intended one on
      the list of attribute records, keeps the record well formed and, without space, leaves
      it unchanged.  The search is a search in that list; in a sorted record it finds the
      attribute or the place to insert one, and inserting it there or deleting it is what a
      later search sees.  On corrupt records the search ends, and the theorem bounds how far it
      reads behind the record.  The record of a new inode can always be filled in, without
      reaching one of the panics, and has exactly the attributes and values it should have.  The
      search for a free record changes exactly one bit of the mft bitmap; the theorem states which
      free records it does not see.
    - Attribute lists: whatever the kernel does and whatever is cached, a lookup ends and finds the
      attribute record of the right entry in the mft record that the entry names, or reports that
      there is no such entry, or an error of the kernel.  No record is mapped twice, and no extent
      is left mapped unless the attribute found is in it.
    - Indexes: the walk over the entries of a node stays inside of it on arbitrary bytes, and the
      binary search is a linear one (not for the rules COLLATION_BINARY and COLLATION_NTOFS_SID, which
      [rule_ok] excludes and for which [binary_rule_misses] shows a failure).  On a stored tree of any height, for every behaviour of the
      kernel, a lookup ends, decides whether the key is in the index and finds its place, and the
      walks follow the order of the entries.  An insertion, with as many splits as it needs, or a
      deletion in a leaf, which keeps another entry or is the root, changes the sequence of the entries at exactly one place, keeps it sorted
      and keeps every other block of the tree, so that the later lookups are correct again.  The
      insertion is proved under bounds on the sizes of entries ([sizes_fit]), which directories
      with index blocks of 4096 bytes satisfy ([directory_sizes_fit]).
    - Journal: the search for restart pages is safe on every file, finds the newest valid
      restart page, and accepts a file that was emptied.
    - Decompression: correct on the encodings of the format, and safe on all data.

    Examples next to the theorems record inputs on which the code departs from its
    documentation.

    ** Loops and fuel

    Loops over arrays recurse on the list or on the number of elements left, so they
    need no fuel.  Where a loop has no such measure its definition takes fuel.  The
    callers pass an amount computed from the input, for instance one round for every
    byte of the compression block in [ntfs_decompress] and for every byte of the record
    in [ntfs_mapping_pairs_decompress], and to run out of it is [Oob]: the theorems that
    the result is [Ret] show that it is enough.  [ntfs_setup_allocators] is proved to
    finish for every fuel from 33 on, since the size of the zone has 32 bits.  The outer loop
    of [ntfs_cluster_alloc] gets two rounds for each of the three zones and one for every time
    that the mft zone can be halved ([alloc_fuel]), its search in the bitmap a round for every
    page of the range ([page_fuel]).  The search of [ntfs_logfile_check] doubles its
    position, so that 25 rounds are enough for the largest log file.  The search in an mft
    record gets a round for every allocated byte, since each round advances by the length of an
    attribute record, which is not zero.  The loops of [IndexLookup] that descend in a tree have
    no bound on a corrupt volume, which [lookup_never_ends] proves; their fuel is an argument, to
    run out of it is the result [None], and the height of the stored tree is enough.

    ** Not modelled

    The VFS entry points, inodes, the hash table, pages and directories
    ([ntfs_vnops.c], most of [ntfs_vfsops.c], [ntfs_inode.c], [ntfs_hash.c],
    [ntfs_page.c], [ntfs_dir.c]) are orchestration of these parts with
    the vnode, memory and I/O layers of the kernel, whose behaviour is not in the sources.
    Of [ntfs_attr.c] and [ntfs_mft.c] the functions on the contents of an attribute and on a
    single mft record and the lookup of attributes are modelled: the other ones change mft records
    together with the sizes and runlists of inodes, the attribute list ([ntfs_attr_list.c]) and the mft
    itself, which is also what [ntfs_cluster_free] of [ntfs_lcnalloc.c] needs to map the runlist of an inode.
    Writing mapped mft records back ([ntfs_mft_record_sync] and the dirty records of
    [ntfs_mft_record_unmap]) is not modelled; no operation of [MftMap] and [AttrList] changes one.
    Of the index code, the deletion of an entry of an inner node (but for the step
    [ntfs_index_entry_replace]), the merging of nodes after a deletion, moving the root into an index block,
    the extension of the index allocation and its bitmap, and freeing index blocks are not
    modelled, nor are the dirty flags of pages.
    The calls of [buf_invalblkno] after an allocation are modelled as the list of blocks they
    are made for, not the retries on errors.  The
    security_id of a new inode is an argument, since it comes from the indexes of $Secure.
    The conversions to UTF-8 call routines of the kernel.  [src/newfs] is an
    independent library, and [src/util] and [src/mount] are command line front ends. *)

From Stdlib Require Export ZArith Lia.
From stdpp Require Export base list numbers option tactics.

#[global] Open Scope Z_scope.

(** ** Outcomes of C code

    [Ret a] is a normal return, [Panic] a call of the kernel's [panic], and
    [Oob] a load or store outside of the object a pointer points into. *)

Inductive outcome (A : Type) : Type :=
| Ret (a : A)
| Panic
| Oob.
Arguments Ret {A} a.
Arguments Panic {A}.
Arguments Oob {A}.

#[global] Instance outcome_ret : MRet outcome := @Ret.
#[global] Instance outcome_bind : MBind outcome := λ A B f m,
  match m with Ret a => f a | Panic => Panic | Oob => Oob end.
#[global] Instance outcome_fmap : FMap outcome := λ A B f m,
  match m with Ret a => Ret (f a) | Panic => Panic | Oob => Oob end.

Lemma bind_Ret {A B} (a : A) (f : A → outcome B) : Ret a ≫= f = f a.
Proof. done. Qed.

Lemma bind_Ret_inv {A B} (m : outcome A) (f : A → outcome B) b :
  m ≫= f = Ret b → ∃ a, m = Ret a ∧ f a = Ret b.
Proof. destruct m; simpl; try done; eauto. Qed.

Lemma fmap_Ret_inv {A B} (m : outcome A) (f : A → B) b :
  f <$> m = Ret b → ∃ a, m = Ret a ∧ f a = b.
Proof. destruct m; simpl; try done. intros [= <-]; eauto. Qed.

(** [runs m P]: [m] neither panics nor leaves an array, and its result has [P]. *)
Definition runs {A} (m : outcome A) (P : A → Prop) : Prop := ∃ a, m = Ret a ∧ P a.

Lemma runs_Ret {A} (a : A) (P : A → Prop) : P a → runs (Ret a) P.
Proof. by exists a. Qed.

Lemma runs_bind {A B} (m : outcome A) (f : A → outcome B) (P : A → Prop) (Q : B → Prop) :
  runs m P → (∀ a, P a → runs (f a) Q) → runs (m ≫= f) Q.
Proof. intros (a & -> & Ha) H. by apply H. Qed.

Lemma runs_mono {A} (m : outcome A) (P Q : A → Prop) :
  runs m P → (∀ a, P a → Q a) → runs m Q.
Proof. intros (a & -> & Ha) H. exists a. auto. Qed.

(** ** Machine integers *)

Definition uwrap (n z : Z) : Z := z mod 2 ^ n.
Definition swrap (n z : Z) : Z := (z + 2 ^ (n - 1)) mod 2 ^ n - 2 ^ (n - 1).

Abbreviation u8 := (uwrap 8).
Abbreviation u16 := (uwrap 16).
Abbreviation u32 := (uwrap 32).
Abbreviation u64 := (uwrap 64).
Abbreviation s8 := (swrap 8).
Abbreviation s16 := (swrap 16).
Abbreviation s32 := (swrap 32).
Abbreviation s64 := (swrap 64).

Lemma uwrap_id n z : 0 ≤ z < 2 ^ n → uwrap n z = z.
Proof. apply Z.mod_small. Qed.

Lemma uwrap_range n z : 0 ≤ n → 0 ≤ uwrap n z < 2 ^ n.
Proof. intros ?. apply Z.mod_pos_bound. lia. Qed.

Lemma swrap_id n z : 0 < n → - 2 ^ (n - 1) ≤ z < 2 ^ (n - 1) → swrap n z = z.
Proof.
  intros Hn Hz. unfold swrap.
  assert (2 ^ n = 2 * 2 ^ (n - 1)) as E
    by (rewrite <- Z.pow_succ_r by lia; f_equal; lia).
  rewrite Z.mod_small; lia.
Qed.

Lemma swrap_range n z : 0 < n → - 2 ^ (n - 1) ≤ swrap n z < 2 ^ (n - 1).
Proof.
  intros Hn. unfold swrap.
  assert (2 ^ n = 2 * 2 ^ (n - 1)) as E
    by (rewrite <- Z.pow_succ_r by lia; f_equal; lia).
  pose proof (Z.mod_pos_bound (z + 2 ^ (n - 1)) (2 ^ n)). lia.
Qed.

(** ** errno values, as in the kernel's [sys/errno.h] *)

Definition ENOENT : Z := 2.
Definition EIO : Z := 5.
Definition ENOMEM : Z := 12.
Definition EINVAL : Z := 22.
Definition ENOSPC : Z := 28.
Definition ERANGE : Z := 34.
Definition ENOTSUP : Z := 45.
Definition EOVERFLOW : Z := 84.

(** ** Arrays

    A C array is a list; loads, stores and the [mem*] functions are checked
    against its length. *)

Section arrays.
Context {A : Type}.
Implicit Types (l s : list A) (i n : nat).

Definition rd l i : outcome A :=
  match l !! i with Some x => Ret x | None => Oob end.

Definition wr l i (x : A) : outcome (list A) :=
  if (i <? length l)%nat then Ret (<[i := x]> l) else Oob.

(** [memcpy (l + dst) (s + src) n], the two arrays being distinct objects. *)
Definition memcpy l (dst : nat) s (src n : nat) : outcome (list A) :=
  if (src + n <=? length s)%nat && (dst + n <=? length l)%nat
  then Ret (take dst l ++ take n (drop src s) ++ drop (dst + n) l) else Oob.

(** [memmove (l + dst) (l + src) n] inside one array. *)
Definition memmove l (dst src n : nat) : outcome (list A) :=
  memcpy l dst l src n.

(** [memset (l + dst) x n]; [bzero] is the case of a zero byte. *)
Definition memset l (dst : nat) (x : A) (n : nat) : outcome (list A) :=
  if (dst + n <=? length l)%nat
  then Ret (take dst l ++ replicate n x ++ drop (dst + n) l) else Oob.

Lemma rd_Ret l i x : l !! i = Some x → rd l i = Ret x.
Proof. unfold rd. by intros ->. Qed.

Lemma rd_inv l i x : rd l i = Ret x → l !! i = Some x.
Proof. unfold rd. case_match; congruence. Qed.

Lemma rd_app_r l s i : rd (l ++ s) (length l + i) = rd s i.
Proof.
  unfold rd. rewrite lookup_app_r by lia.
  by replace (length l + i - length l)%nat with i by lia.
Qed.

(** An access at a known distance from the end of a prefix. *)
Lemma rd_at (p s : list A) i n x :
  n = (length p + i)%nat → rd s i = Ret x → rd (p ++ s) n = Ret x.
Proof. intros ->. by rewrite rd_app_r. Qed.

Lemma rd_middle l x s : rd (l ++ x :: s) (length l) = Ret x.
Proof. apply rd_Ret. by apply list_lookup_middle. Qed.

Lemma wr_Ret l i x : (i < length l)%nat → wr l i x = Ret (<[i := x]> l).
Proof. unfold wr. intros. by destruct (Nat.ltb_spec i (length l)); [|lia]. Qed.

Lemma wr_inv l i x l' :
  wr l i x = Ret l' → (i < length l)%nat ∧ l' = <[i := x]> l.
Proof.
  unfold wr. destruct (Nat.ltb_spec i (length l)); [|done]. by intros [= <-].
Qed.

Lemma insert_middle l x y s : <[length l := y]> (l ++ x :: s) = l ++ y :: s.
Proof. rewrite insert_app_r_alt by lia. by rewrite Nat.sub_diag. Qed.

Lemma wr_middle l x y s : wr (l ++ x :: s) (length l) y = Ret (l ++ y :: s).
Proof.
  rewrite wr_Ret by (rewrite length_app; simpl; lia). by rewrite insert_middle.
Qed.

Lemma memcpy_Ret l dst s src n :
  (src + n ≤ length s)%nat → (dst + n ≤ length l)%nat →
  memcpy l dst s src n = Ret (take dst l ++ take n (drop src s) ++ drop (dst + n) l).
Proof.
  unfold memcpy. intros.
  by destruct (Nat.leb_spec (src + n) (length s)),
    (Nat.leb_spec (dst + n) (length l)); try lia.
Qed.

Lemma memcpy_inv l dst s src n l' :
  memcpy l dst s src n = Ret l' →
  (src + n ≤ length s)%nat ∧ (dst + n ≤ length l)%nat ∧
  l' = take dst l ++ take n (drop src s) ++ drop (dst + n) l.
Proof.
  unfold memcpy.
  destruct (Nat.leb_spec (src + n) (length s)),
    (Nat.leb_spec (dst + n) (length l)); simpl; try done. by intros [= <-].
Qed.

Lemma memcpy_length l dst s src n l' :
  memcpy l dst s src n = Ret l' → length l' = length l.
Proof.
  intros (?&?&->)%memcpy_inv.
  rewrite !length_app, !length_take, !length_drop. lia.
Qed.

(** The shape in which the buffers of this development meet [memcpy]. *)
Lemma memcpy_parts (p q r p' q' r' : list A) dst src n :
  dst = length p → src = length p' → n = length q → n = length q' →
  memcpy (p ++ q ++ r) dst (p' ++ q' ++ r') src n = Ret (p ++ q' ++ r).
Proof.
  intros -> -> -> E. rewrite memcpy_Ret by (rewrite !length_app; lia).
  rewrite take_app_length, drop_app_length.
  rewrite (take_app_length' q' r') by done.
  rewrite <- drop_drop, drop_app_length. by rewrite drop_app_length.
Qed.

Lemma memset_Ret l dst x n :
  (dst + n ≤ length l)%nat →
  memset l dst x n = Ret (take dst l ++ replicate n x ++ drop (dst + n) l).
Proof.
  unfold memset. intros. by destruct (Nat.leb_spec (dst + n) (length l)); [|lia].
Qed.

Lemma lookup_memset l dst x n (i : nat) :
  (dst + n ≤ length l)%nat →
  (take dst l ++ replicate n x ++ drop (dst + n) l) !! i =
    if bool_decide (dst ≤ i < dst + n)%nat then Some x else l !! i.
Proof.
  intros Hl. case_bool_decide.
  - rewrite lookup_app_r by (rewrite length_take; lia).
    rewrite length_take, lookup_app_l by (rewrite length_replicate; lia).
    apply lookup_replicate_2. lia.
  - destruct (decide (i < dst)%nat).
    + rewrite lookup_app_l by (rewrite length_take; lia).
      by apply lookup_take_lt.
    + rewrite lookup_app_r by (rewrite length_take; lia).
      rewrite length_take, lookup_app_r by (rewrite length_replicate; lia).
      rewrite length_replicate, lookup_drop. f_equal. lia.
Qed.
End arrays.

(** ** Automation *)

Create HintDb ntfs.
Create Rewrite HintDb ntfs_len.
#[export] Hint Rewrite @length_app @length_take @length_drop @length_replicate
  @length_insert @length_cons @length_nil : ntfs_len.

(** [len] decides goals about list lengths and machine-independent arithmetic. *)
Ltac len := autorewrite with ntfs_len in *; simpl in *; try lia.

(** The same without touching the hypotheses. *)
Ltac glen := autorewrite with ntfs_len; simpl; lia.

(** [norm_list] pushes [take] and [drop] through appends, and removes those that
    keep everything or nothing. *)
Ltac norm_list :=
  rewrite ?take_app, ?drop_app;
  repeat match goal with
  | |- context [take ?n ?l] => rewrite (take_ge l n) by glen
  | |- context [drop ?n ?l] => rewrite (drop_ge l n) by glen
  | |- context [take ?n ?l] => replace n with 0%nat by glen; rewrite (take_0 l)
  | |- context [drop ?n ?l] => replace n with 0%nat by glen; rewrite (drop_0 l)
  end; simpl; rewrite ?app_nil_r, <- ?(assoc_L (++)); simpl.

(** Append chains in right-associated form. *)
Ltac app_norm := repeat (rewrite <- (assoc_L (++)); cbn [app]).
Ltac app_norm_in H := repeat (rewrite <- (assoc_L (++)) in H; cbn [app] in H).

(** Linear arithmetic with division and remainder by constants. *)
Ltac zdiv := Z.to_euclidean_division_equations; lia.

(** Boolean tests of the C code as propositions. *)
Ltac zbool :=
  repeat match goal with
  | H : (_ && _)%bool = true |- _ => apply andb_prop in H as [? ?]
  | H : (_ || _)%bool = false |- _ => apply orb_false_elim in H as [? ?]
  | H : (_ || _)%bool = true |- _ => apply orb_prop in H as [?|?]
  | H : (_ && _)%bool = false |- _ => apply andb_false_iff in H as [?|?]
  | H : negb _ = true |- _ => apply negb_true_iff in H
  | H : negb _ = false |- _ => apply negb_false_iff in H
  | H : (_ <? _)%Z = true |- _ => apply Z.ltb_lt in H
  | H : (_ <? _)%Z = false |- _ => apply Z.ltb_ge in H
  | H : (_ <=? _)%Z = true |- _ => apply Z.leb_le in H
  | H : (_ <=? _)%Z = false |- _ => apply Z.leb_gt in H
  | H : (_ >? _)%Z = true |- _ => rewrite Z.gtb_ltb in H
  | H : (_ >? _)%Z = false |- _ => rewrite Z.gtb_ltb in H
  | H : (_ =? _)%Z = true |- _ => apply Z.eqb_eq in H
  | H : (_ =? _)%Z = false |- _ => apply Z.eqb_neq in H
  | H : (_ <? _)%nat = true |- _ => apply Nat.ltb_lt in H
  | H : (_ <? _)%nat = false |- _ => apply Nat.ltb_ge in H
  | H : (_ <=? _)%nat = true |- _ => apply Nat.leb_le in H
  | H : (_ <=? _)%nat = false |- _ => apply Nat.leb_gt in H
  | H : (_ =? _)%nat = true |- _ => apply Nat.eqb_eq in H
  | H : (_ =? _)%nat = false |- _ => apply Nat.eqb_neq in H
  end.

(** Case analysis on the first boolean integer test of the goal. *)
Ltac ztest :=
  match goal with
  | |- context [Z.ltb ?a ?b] => destruct (Z.ltb_spec a b)
  | |- context [Z.leb ?a ?b] => destruct (Z.leb_spec a b)
  | |- context [Z.eqb ?a ?b] => destruct (Z.eqb_spec a b)
  | |- context [Nat.ltb ?a ?b] => destruct (Nat.ltb_spec a b)
  | |- context [Nat.leb ?a ?b] => destruct (Nat.leb_spec a b)
  | |- context [Nat.eqb ?a ?b] => destruct (Nat.eqb_spec a b)
  end.
Ltac ztests := repeat (ztest; simpl; try lia).

(** Evaluate the boolean integer tests of the goal that linear arithmetic
    decides, without any case analysis. *)
Ltac zdec :=
  repeat (match goal with
  | |- context [Z.ltb ?a ?b] =>
      first [rewrite (proj2 (Z.ltb_lt a b)) by lia | rewrite (proj2 (Z.ltb_ge a b)) by lia]
  | |- context [Z.leb ?a ?b] =>
      first [rewrite (proj2 (Z.leb_le a b)) by lia | rewrite (proj2 (Z.leb_gt a b)) by lia]
  | |- context [Z.eqb ?a ?b] =>
      first [rewrite (proj2 (Z.eqb_eq a b)) by lia | rewrite (proj2 (Z.eqb_neq a b)) by lia]
  | |- context [Nat.ltb ?a ?b] =>
      first [rewrite (proj2 (Nat.ltb_lt a b)) by lia | rewrite (proj2 (Nat.ltb_ge a b)) by lia]
  | |- context [Nat.leb ?a ?b] =>
      first [rewrite (proj2 (Nat.leb_le a b)) by lia | rewrite (proj2 (Nat.leb_gt a b)) by lia]
  | |- context [Nat.eqb ?a ?b] =>
      first [rewrite (proj2 (Nat.eqb_eq a b)) by lia | rewrite (proj2 (Nat.eqb_neq a b)) by lia]
  end; cbn [andb orb negb]).

(** Inversion of a chain of binds that returned. *)
Ltac inv_ret :=
  repeat match goal with
  | H : _ ≫= _ = Ret _ |- _ =>
      apply bind_Ret_inv in H as (? & ? & H); simpl in H
  | H : _ <$> _ = Ret _ |- _ =>
      apply fmap_Ret_inv in H as (? & ? & ?)
  | H : Ret _ = Ret _ |- _ => injection H as H; simplify_eq
  | H : rd _ _ = Ret _ |- _ => apply rd_inv in H
  end.
