(* ===== verification/Bytes.v ===== *)
(** * Byte buffers

    The on-disk structures are arrays of bytes: little-endian accesses as in
    [kext/ntfs_endian.h], and what a store leaves alone. *)

From S2P Require Import Prelude.

(** ** Little-endian numbers *)

Definition bytes (l : list Z) : Prop := Forall (λ x, 0 ≤ x < 256) l.

(** [le16_to_cpu], [le32_to_cpu] and [le64_to_cpu] of a field at the offset [i]. *)
Definition le16_at (m : list Z) (i : nat) : outcome Z :=
  b0 ← rd m i; b1 ← rd m (i + 1); Ret (b0 + Z.shiftl b1 8).
Definition le32_at (m : list Z) (i : nat) : outcome Z :=
  w0 ← le16_at m i; w1 ← le16_at m (i + 2); Ret (w0 + Z.shiftl w1 16).
Definition le64_at (m : list Z) (i : nat) : outcome Z :=
  w0 ← le32_at m i; w1 ← le32_at m (i + 4); Ret (w0 + Z.shiftl w1 32).

Lemma rd_prefix {A} (p : list A) x q n : n = length p → rd (p ++ x :: q) n = Ret x.
Proof. intros ->. apply rd_middle. Qed.

Lemma le16_at_middle pm x y qm :
  le16_at (pm ++ x :: y :: qm) (length pm) = Ret (x + 256 * y).
Proof.
  unfold le16_at. rewrite rd_middle. cbn [mbind outcome_bind].
  rewrite (rd_at pm (x :: y :: qm) 1 _ y) by done. cbn [mbind outcome_bind].
  rewrite Z.shiftl_mul_pow2 by lia. do 2 f_equal. lia.
Qed.

Lemma le16_head h pm qm :
  0 ≤ h < 65536 → le16_at (pm ++ (h mod 256) :: (h / 256) :: qm) (length pm) = Ret h.
Proof. intros. rewrite le16_at_middle. f_equal. zdiv. Qed.

(** ** Stores *)

(** Only the first [n] bytes of [d] may have changed. *)
Definition kept (n : nat) (d d' : list Z) : Prop := length d' = length d ∧ drop n d' = drop n d.

#[global] Instance kept_preorder n : PreOrder (kept n).
Proof. split; [by split|]. intros d1 d2 d3 [? ?] [? ?]. split; congruence. Qed.

Lemma kept_splice n (d x : list Z) i :
  (i + length x ≤ n)%nat → (i + length x ≤ length d)%nat →
  kept n d (take i d ++ x ++ drop (i + length x) d).
Proof.
  intros Hn Hd. split; [rewrite !length_app, length_take, length_drop; lia|].
  rewrite (assoc_L (++)), drop_app_ge by (rewrite length_app, length_take; lia).
  rewrite drop_drop. f_equal. rewrite length_app, length_take. lia.
Qed.

Lemma wr_runs n (d : list Z) i x :
  (i < n)%nat → (n ≤ length d)%nat → runs (wr d i x) (kept n d).
Proof.
  intros Hi Hn. rewrite wr_Ret by lia. apply runs_Ret. split; [by rewrite length_insert|].
  apply drop_insert_lt. lia.
Qed.

Lemma memcpy_runs n (d s : list Z) dst src k :
  (dst + k ≤ n)%nat → (n ≤ length d)%nat → (src + k ≤ length s)%nat →
  runs (memcpy d dst s src k) (kept n d).
Proof.
  intros Hk Hn Hs. rewrite memcpy_Ret by lia. apply runs_Ret.
  assert (length (take k (drop src s)) = k) as E by (rewrite length_take, length_drop; lia).
  rewrite <- E at 2. apply kept_splice; lia.
Qed.

Lemma memset_runs n (d : list Z) dst x k :
  (dst + k ≤ n)%nat → (n ≤ length d)%nat → runs (memset d dst x k) (kept n d).
Proof.
  intros Hk Hn. rewrite memset_Ret by lia. apply runs_Ret.
  rewrite <- (length_replicate k x) at 2. apply kept_splice; rewrite length_replicate; lia.
Qed.

Lemma byte_runs m i : bytes m → (i < length m)%nat → runs (rd m i) (λ v, 0 ≤ v < 256).
Proof.
  intros Hm Hi. destruct (lookup_lt_is_Some_2 m i) as [x Hx]; [done|]. rewrite (rd_Ret _ _ _ Hx).
  apply runs_Ret. exact (Forall_lookup_1 _ _ _ _ Hm Hx).
Qed.

Lemma le16_runs m i : bytes m → (i + 1 < length m)%nat → runs (le16_at m i) (λ v, 0 ≤ v < 2 ^ 16).
Proof.
  intros Hm Hi. eapply runs_bind; [apply byte_runs; [done|lia]|]. intros x Hx.
  eapply runs_bind; [apply byte_runs; [done|lia]|]. intros y Hy. apply runs_Ret. cbv beta in *.
  rewrite Z.shiftl_mul_pow2 by lia. lia.
Qed.

Lemma le32_runs m i : bytes m → (i + 3 < length m)%nat → runs (le32_at m i) (λ v, 0 ≤ v < 2 ^ 32).
Proof.
  intros Hm Hi. eapply runs_bind; [apply le16_runs; [done|lia]|]. intros x Hx.
  eapply runs_bind; [apply le16_runs; [done|lia]|]. intros y Hy. apply runs_Ret. cbv beta in *.
  rewrite Z.shiftl_mul_pow2 by lia. lia.
Qed.

Lemma le64_runs m i : bytes m → (i + 7 < length m)%nat → runs (le64_at m i) (λ v, 0 ≤ v < 2 ^ 64).
Proof.
  intros Hm Hi. eapply runs_bind; [apply le32_runs; [done|lia]|]. intros x Hx.
  eapply runs_bind; [apply le32_runs; [done|lia]|]. intros y Hy. apply runs_Ret. cbv beta in *.
  rewrite Z.shiftl_mul_pow2 by lia. lia.
Qed.

(** ** Fields of structures *)

(** The [n] little-endian bytes of [x]: [cpu_to_le16], [cpu_to_le32] and [cpu_to_le64]. *)
Fixpoint le_bytes (n : nat) (x : Z) : list Z :=
  match n with
  | O => []
  | S n => x mod 256 :: le_bytes n (x / 256)
  end.

(** Store the bytes [bs] at the offset [i]. *)
Definition put (m : list Z) (i : nat) (bs : list Z) : outcome (list Z) := memcpy m i bs 0 (length bs).
Definition put8 (m : list Z) (i : nat) (x : Z) := put m i (le_bytes 1 x).
Definition put16 (m : list Z) (i : nat) (x : Z) := put m i (le_bytes 2 x).
Definition put32 (m : list Z) (i : nat) (x : Z) := put m i (le_bytes 4 x).
Definition put64 (m : list Z) (i : nat) (x : Z) := put m i (le_bytes 8 x).

(** The bytes of [m] with [bs] at [i]. *)
Definition splice (m : list Z) (i : nat) (bs : list Z) : list Z := take i m ++ bs ++ drop (i + length bs) m.

(** The value of a field, 0 outside of the array. *)
Definition get8 (m : list Z) (i : nat) : Z := nth i m 0.
Definition get16 (m : list Z) (i : nat) : Z := get8 m i + 256 * get8 m (i + 1).
Definition get32 (m : list Z) (i : nat) : Z := get16 m i + 65536 * get16 m (i + 2).
Definition get64 (m : list Z) (i : nat) : Z := get32 m i + 2 ^ 32 * get32 m (i + 4).

Lemma le_bytes_length n x : length (le_bytes n x) = n.
Proof. revert x. induction n as [|n IH]; intros x; cbn; [done|]. by rewrite IH. Qed.
#[export] Hint Rewrite le_bytes_length : ntfs_len.

Lemma bytes_le_bytes n x : bytes (le_bytes n x).
Proof. revert x. induction n as [|n IH]; intros x; cbn; constructor; [zdiv|apply IH]. Qed.

Lemma put_Ret m i bs : (i + length bs ≤ length m)%nat → put m i bs = Ret (splice m i bs).
Proof. intros H. unfold put, splice. rewrite memcpy_Ret by lia. by rewrite drop_0, (take_ge bs) by lia. Qed.

Lemma length_splice m i bs : (i + length bs ≤ length m)%nat → length (splice m i bs) = length m.
Proof. intros H. unfold splice. len. Qed.

Lemma bytes_splice m i bs : bytes m → bytes bs → bytes (splice m i bs).
Proof.
  intros Hm Hb. unfold bytes, splice. apply list.Forall_app. split; [by apply list.Forall_take|].
  apply list.Forall_app. split; [done|by apply list.Forall_drop].
Qed.

Lemma rd_get m i : (i < length m)%nat → rd m i = Ret (get8 m i).
Proof. intros H. apply rd_Ret. unfold get8. rewrite nth_lookup. by destruct (lookup_lt_is_Some_2 m i H) as [x ->]. Qed.

Lemma le16_get m i : (i + 2 ≤ length m)%nat → le16_at m i = Ret (get16 m i).
Proof.
  intros H. unfold le16_at. rewrite !rd_get by lia. cbn [mbind outcome_bind].
  rewrite Z.shiftl_mul_pow2 by lia. unfold get16. do 2 f_equal. lia.
Qed.

Lemma le32_get m i : (i + 4 ≤ length m)%nat → le32_at m i = Ret (get32 m i).
Proof.
  intros H. unfold le32_at. rewrite !le16_get by lia. cbn [mbind outcome_bind].
  rewrite Z.shiftl_mul_pow2 by lia. unfold get32. do 2 f_equal. lia.
Qed.

(** Reads and writes of a part. *)
Lemma get8_app_r p a i : get8 (p ++ a) (length p + i) = get8 a i.
Proof. unfold get8. by rewrite app_nth2_plus. Qed.

Lemma get8_app_l a q i : (i < length a)%nat → get8 (a ++ q) i = get8 a i.
Proof. intros H. unfold get8. by rewrite app_nth1. Qed.

Lemma get16_app_r p a i : get16 (p ++ a) (length p + i) = get16 a i.
Proof. unfold get16. by rewrite <- Nat.add_assoc, !get8_app_r. Qed.

Lemma get16_app_l a q i : (i + 2 ≤ length a)%nat → get16 (a ++ q) i = get16 a i.
Proof. intros H. unfold get16. by rewrite !get8_app_l by lia. Qed.

Lemma get32_app_r p a i : get32 (p ++ a) (length p + i) = get32 a i.
Proof. unfold get32. by rewrite <- Nat.add_assoc, !get16_app_r. Qed.

Lemma get32_app_l a q i : (i + 4 ≤ length a)%nat → get32 (a ++ q) i = get32 a i.
Proof. intros H. unfold get32. by rewrite !get16_app_l by lia. Qed.

Lemma splice_app_r p a i bs : splice (p ++ a) (length p + i) bs = p ++ splice a i bs.
Proof.
  unfold splice. rewrite take_app_ge, drop_app_ge by lia.
  replace (length p + i - length p)%nat with i by lia.
  replace (length p + i + length bs - length p)%nat with (i + length bs)%nat by lia. by rewrite <- (assoc_L (++)).
Qed.

Lemma splice_app_l a q i bs : (i + length bs ≤ length a)%nat → splice (a ++ q) i bs = splice a i bs ++ q.
Proof.
  intros H. unfold splice. rewrite take_app_le, drop_app_le by lia. by rewrite <- !(assoc_L (++)).
Qed.

(** A field after a store. *)
Lemma get8_splice m i bs j :
  (i + length bs ≤ length m)%nat →
  get8 (splice m i bs) j = if bool_decide (i ≤ j < i + length bs)%nat then get8 bs (j - i) else get8 m j.
Proof.
  intros H. unfold get8, splice. case_bool_decide as Hj.
  - rewrite app_nth2; rewrite length_take; [|lia]. rewrite app_nth1 by lia. f_equal. lia.
  - rewrite !nth_lookup. destruct (decide (j < i)%nat).
    + rewrite lookup_app_l by len. by rewrite lookup_take_lt by lia.
    + rewrite lookup_app_r by len. rewrite length_take, lookup_app_r by lia. rewrite lookup_drop. do 2 f_equal. lia.
Qed.

Lemma get16_splice_other m i bs j :
  (i + length bs ≤ length m)%nat → (j + 2 ≤ i ∨ i + length bs ≤ j)%nat → get16 (splice m i bs) j = get16 m j.
Proof. intros H Hj. unfold get16. rewrite !get8_splice by done. rewrite !bool_decide_eq_false_2 by lia. done. Qed.

Lemma get32_splice_other m i bs j :
  (i + length bs ≤ length m)%nat → (j + 4 ≤ i ∨ i + length bs ≤ j)%nat → get32 (splice m i bs) j = get32 m j.
Proof. intros H Hj. unfold get32. by rewrite !get16_splice_other by lia. Qed.

Lemma get16_splice m i x : (i + 2 ≤ length m)%nat → 0 ≤ x < 2 ^ 16 → get16 (splice m i (le_bytes 2 x)) i = x.
Proof.
  intros H Hx. unfold get16. rewrite !get8_splice by done. rewrite le_bytes_length, !bool_decide_eq_true_2 by lia.
  replace (i - i)%nat with 0%nat by lia. replace (i + 1 - i)%nat with 1%nat by lia. cbn. zdiv.
Qed.

Lemma get32_splice m i x : (i + 4 ≤ length m)%nat → 0 ≤ x < 2 ^ 32 → get32 (splice m i (le_bytes 4 x)) i = x.
Proof.
  intros H Hx. unfold get32, get16. rewrite !get8_splice by done. rewrite le_bytes_length, !bool_decide_eq_true_2 by lia.
  replace (i - i)%nat with 0%nat by lia. replace (i + 1 - i)%nat with 1%nat by lia.
  replace (i + 2 - i)%nat with 2%nat by lia. replace (i + 2 + 1 - i)%nat with 3%nat by lia. cbn. zdiv.
Qed.

(** Accesses to a part of an array. *)
Lemma le32_part p a q k : (k + 4 ≤ length a)%nat → le32_at (p ++ a ++ q) (length p + k) = Ret (get32 a k).
Proof. intros H. rewrite le32_get by len. by rewrite get32_app_r, get32_app_l. Qed.

Lemma le64_part p a q k : (k + 8 ≤ length a)%nat → le64_at (p ++ a ++ q) (length p + k) = Ret (get64 a k).
Proof.
  intros H. unfold le64_at. rewrite <- Nat.add_assoc, !le32_part by lia. cbn [mbind outcome_bind].
  rewrite Z.shiftl_mul_pow2 by lia. unfold get64. do 2 f_equal. lia.
Qed.

Lemma rd_part p a q k : (k < length a)%nat → rd (p ++ a ++ q) (length p + k) = Ret (get8 a k).
Proof. intros H. rewrite rd_get by len. by rewrite get8_app_r, get8_app_l. Qed.

Lemma le16_part p a q k : (k + 2 ≤ length a)%nat → le16_at (p ++ a ++ q) (length p + k) = Ret (get16 a k).
Proof. intros H. rewrite le16_get by len. by rewrite get16_app_r, get16_app_l. Qed.

Lemma put_part p a q k bs :
  (k + length bs ≤ length a)%nat → put (p ++ a ++ q) (length p + k) bs = Ret (p ++ splice a k bs ++ q).
Proof. intros H. rewrite put_Ret by len. by rewrite splice_app_r, splice_app_l. Qed.

Lemma le32_head h q k : (k + 4 ≤ length h)%nat → le32_at (h ++ q) k = Ret (get32 h k).
Proof. apply (le32_part [] h q k). Qed.

Lemma put_head h q k bs : (k + length bs ≤ length h)%nat → put (h ++ q) k bs = Ret (splice h k bs ++ q).
Proof. apply (put_part [] h q k bs). Qed.

(** The bytes of a concrete array. *)
Lemma bytes_decide l : bool_decide (Forall (λ x, 0 ≤ x < 256) l) = true → bytes l.
Proof. apply bool_decide_eq_true. Qed.
