(* ===== verification/Volume.v ===== *)
(** * The volume

    The geometry fields of [ntfs_volume] ([kext/ntfs_volume.h]) that the runlist
    and attribute code uses. *)

From S2P Require Import Prelude.

Record ntfs_volume := mk_volume {
  sector_size : Z;
  sector_size_mask : Z;
  sector_size_shift : Z;
  cluster_size : Z;
  cluster_size_mask : Z;
  cluster_size_shift : Z
}.

(** The volume of sectors of [2 ^ s] and clusters of [2 ^ c] bytes. *)
Definition volume_of (s c : Z) : ntfs_volume :=
  mk_volume (2 ^ s) (2 ^ s - 1) s (2 ^ c) (2 ^ c - 1) c.

(** The fields agree with each other, as the comments on them say. *)
Definition vol_ok (vol : ntfs_volume) : Prop :=
  0 ≤ sector_size_shift vol ≤ cluster_size_shift vol ∧
  vol = volume_of (sector_size_shift vol) (cluster_size_shift vol).

Lemma volume_of_ok s c : 0 ≤ s ≤ c → vol_ok (volume_of s c).
Proof. done. Qed.
