(* ===== verification/Runlist.v ===== *)
(** * Runlists: the data model

    The in-memory VCN to LCN map of [kext/ntfs_runlist.h]: runlist elements,
    the runlist structure, the special LCN values, the well-formedness of an
    array of elements and the map an array denotes, which is the abstract
    state the specifications of the runlist operations are written against. *)

From S2P Require Import Prelude.

(** ** Data *)

(** [ntfs_rl_element].  VCNs, LCNs and lengths are [s64]. *)
Record ntfs_rl_element := mk_rle { vcn : Z; lcn : Z; rlen : Z }.

#[global] Instance ntfs_rl_element_eq_dec : EqDecision ntfs_rl_element.
Proof. solve_decision. Defined.

(** [ntfs_runlist]: the array [rl] of [alloc_count] elements, of which the first
    [elements] are in use.  The empty array stands for the NULL pointer.  The
    lock of the structure is not part of the model. *)
Record ntfs_runlist := mk_runlist
  { rl : list ntfs_rl_element; elements : nat; alloc_count : nat }.

(** [LCN_SPECIAL_VALUES]. *)
Definition LCN_HOLE : Z := -1.
Definition LCN_RL_NOT_MAPPED : Z := -2.
Definition LCN_ENOENT : Z := -3.
Definition LCN_ENOMEM : Z := -4.
Definition LCN_EIO : Z := -5.

(** [ntfs_rl_init]. *)
Definition ntfs_rl_init : ntfs_runlist := mk_runlist [] 0 0.

(** Field updates of one array element, [rl[i].vcn = v] and so on. *)
Definition set_vcn (v : Z) (e : ntfs_rl_element) := mk_rle v (lcn e) (rlen e).
Definition set_lcn (v : Z) (e : ntfs_rl_element) := mk_rle (vcn e) v (rlen e).
Definition set_len (v : Z) (e : ntfs_rl_element) := mk_rle (vcn e) (lcn e) v.

(** Read-modify-write of an array element. *)
Definition upd (l : list ntfs_rl_element) (i : nat)
    (f : ntfs_rl_element → ntfs_rl_element) : outcome (list ntfs_rl_element) :=
  e ← rd l i; wr l i (f e).

Lemma upd_Ret l i f e : l !! i = Some e → upd l i f = Ret (<[i := f e]> l).
Proof.
  intros H. unfold upd. rewrite (rd_Ret _ _ _ H), bind_Ret.
  apply wr_Ret. by eapply lookup_lt_Some.
Qed.

Lemma upd_middle l e s f : upd (l ++ e :: s) (length l) f = Ret (l ++ f e :: s).
Proof. unfold upd. by rewrite rd_middle, bind_Ret, wr_middle. Qed.

(** Accesses at a known distance from the end of a prefix. *)
Lemma upd_at p s i n f s' :
  n = (length p + i)%nat → upd s i f = Ret s' → upd (p ++ s) n f = Ret (p ++ s').
Proof.
  unfold upd. intros -> (e & Hr & (Hi & ->)%wr_inv)%bind_Ret_inv.
  rewrite rd_app_r, Hr, bind_Ret, wr_Ret by (rewrite length_app; lia).
  by rewrite insert_app_r.
Qed.

(** Execute the load or store at the head of the goal, which is at distance 0, 1,
    2 or 3 from the end of a prefix. *)
Ltac head_op m := lazymatch m with ?m' ≫= _ => head_op m' | _ => constr:(m) end.
Ltac step_at i :=
  lazymatch goal with
  | |- context [?m0 ≫= _] =>
      let m := head_op m0 in
      lazymatch m with
      | rd (?p ++ ?s) ?n => erewrite (rd_at p s i n); [|lia|reflexivity]
      | upd (?p ++ ?s) ?n ?f => erewrite (upd_at p s i n f); [|lia|reflexivity]
      end
  end; cbn [mbind outcome_bind insert list_insert].
Ltac mem_step := first [step_at 0%nat | step_at 1%nat | step_at 2%nat | step_at 3%nat].

(** ** Well-formed arrays of runs *)

(** [seg a b l]: the runs of [l] are non-empty and cover [a, b) without a gap. *)
Inductive seg : Z → Z → list ntfs_rl_element → Prop :=
| seg_nil a : seg a a []
| seg_cons a b x n l :
    0 < n → LCN_RL_NOT_MAPPED ≤ x → seg (a + n) b l →
    seg a b (mk_rle a x n :: l).

(** A terminator: an empty run whose LCN is not that of a real cluster or of a
    hole. *)
Definition terminator (v : Z) (t : ntfs_rl_element) : Prop :=
  vcn t = v ∧ rlen t = 0 ∧ lcn t < LCN_HOLE.

(** [wf_rl a b l]: runs covering [a, b), followed by the terminator. *)
Definition wf_rl (a b : Z) (l : list ntfs_rl_element) : Prop :=
  ∃ runs t, l = runs ++ [t] ∧ seg a b runs ∧ terminator b t.

(** The buffer of a runlist: as long as the structure says. *)
Definition buf_ok (r : ntfs_runlist) : Prop :=
  length (rl r) = alloc_count r ∧ (elements r ≤ alloc_count r)%nat.

(** The elements of a runlist that are in use. *)
Definition used (r : ntfs_runlist) : list ntfs_rl_element := take (elements r) (rl r).

(** The invariant of the runlist structure: a runlist is either empty or maps
    all of [0, b). *)
Definition runlist_ok (b : Z) (r : ntfs_runlist) : Prop :=
  buf_ok r ∧ wf_rl 0 b (used r).

(** ** The map a runlist denotes *)

(** The LCN of a VCN inside one run. *)
Definition run_lcn (e : ntfs_rl_element) (v : Z) : Z :=
  if 0 <=? lcn e then lcn e + (v - vcn e) else lcn e.

Fixpoint lcn_of (l : list ntfs_rl_element) (v : Z) : option Z :=
  match l with
  | [] => None
  | e :: l' =>
      if (vcn e <=? v) && (v <? vcn e + rlen e) then Some (run_lcn e v)
      else lcn_of l' v
  end.

(** ** Lemmas on segments *)

Lemma seg_le a b l : seg a b l → a ≤ b.
Proof. induction 1; lia. Qed.

Lemma seg_app a b c l1 l2 : seg a b l1 → seg b c l2 → seg a c (l1 ++ l2).
Proof. induction 1; simpl; [done|]. intros. constructor; auto. Qed.

Lemma seg_app_inv a c l1 l2 :
  seg a c (l1 ++ l2) → ∃ b, seg a b l1 ∧ seg b c l2.
Proof.
  revert a. induction l1 as [|e l1 IH]; simpl; intros a H.
  - exists a. split; [constructor|done].
  - inversion H; subst. edestruct IH as (b & ? & ?); [done|].
    exists b. split; [by constructor|done].
Qed.

Lemma seg_one a b e : seg a b [e] → vcn e = a ∧ 0 < rlen e ∧ b = a + rlen e ∧
  LCN_RL_NOT_MAPPED ≤ lcn e.
Proof.
  inversion 1 as [|????? ?? Hs]; subst. inversion Hs; subst. simpl. lia.
Qed.

Lemma seg_cons_inv a b e l :
  seg a b (e :: l) →
  vcn e = a ∧ 0 < rlen e ∧ LCN_RL_NOT_MAPPED ≤ lcn e ∧ seg (a + rlen e) b l.
Proof. inversion 1; subst. simpl. auto. Qed.

Lemma seg_cons' a b e l :
  vcn e = a → 0 < rlen e → LCN_RL_NOT_MAPPED ≤ lcn e → seg (a + rlen e) b l →
  seg a b (e :: l).
Proof. destruct e; simpl; intros; subst. by constructor. Qed.

(** An element of an array of runs splits it. *)
Lemma seg_middle_inv a b l1 e l2 :
  seg a b (l1 ++ e :: l2) →
  seg a (vcn e) l1 ∧ 0 < rlen e ∧ LCN_RL_NOT_MAPPED ≤ lcn e ∧
  seg (vcn e + rlen e) b l2.
Proof.
  intros (c & H1 & (<- & ? & ? & H2)%seg_cons_inv)%seg_app_inv. auto.
Qed.

Lemma wf_rl_le a b l : wf_rl a b l → a ≤ b.
Proof. intros (?&?&?&?%seg_le&?). done. Qed.

Lemma wf_rl_not_nil a b l : wf_rl a b l → l ≠ [].
Proof. intros (?&?&->&?). by destruct x. Qed.

Lemma wf_rl_cons_inv a b e l :
  wf_rl a b (e :: l) →
  vcn e = a ∧
  ((rlen e = 0 ∧ l = [] ∧ a = b ∧ lcn e < LCN_HOLE) ∨
   (0 < rlen e ∧ LCN_RL_NOT_MAPPED ≤ lcn e ∧ wf_rl (a + rlen e) b l)).
Proof.
  intros (runs & t & E & Hs & Hv & Hn & Hl).
  destruct runs as [|e' runs]; simplify_eq/=.
  - inversion Hs; subst. split; [done|]. left. done.
  - apply seg_cons_inv in Hs as (? & ? & ? & ?). split; [done|]. right.
    split_and!; [done..|]. by exists runs, t.
Qed.

Lemma wf_rl_app a b c l1 l2 : seg a b l1 → wf_rl b c l2 → wf_rl a c (l1 ++ l2).
Proof.
  intros ? (runs & t & -> & ? & ?). exists (l1 ++ runs), t.
  rewrite (assoc_L (++)). eauto using seg_app.
Qed.

Lemma wf_rl_app_inv a c l1 l2 :
  wf_rl a c (l1 ++ l2) → l2 ≠ [] → ∃ b, seg a b l1 ∧ wf_rl b c l2.
Proof.
  revert a. induction l1 as [|e l1 IH]; simpl; intros a H Hl2.
  - exists a. split; [constructor|done].
  - apply wf_rl_cons_inv in H as (<- & [(?&E&?)|(?&?&H)]).
    + apply app_eq_nil in E as [_ ?]. done.
    + destruct (IH _ H Hl2) as (b & ? & ?). exists b.
      split; [|done]. by apply seg_cons'.
Qed.

Lemma wf_rl_one b t : terminator b t → wf_rl b b [t].
Proof. intros. exists [], t. split_and!; auto using seg_nil. Qed.

Lemma wf_rl_cons a b e l :
  vcn e = a → 0 < rlen e → LCN_RL_NOT_MAPPED ≤ lcn e → wf_rl (a + rlen e) b l →
  wf_rl a b (e :: l).
Proof.
  intros. apply (wf_rl_app a (a + rlen e) b [e]); [|done].
  by apply seg_cons', seg_nil.
Qed.

(** ** Lemmas on the denoted map *)

Lemma lcn_of_app l1 l2 v :
  lcn_of (l1 ++ l2) v =
    match lcn_of l1 v with Some x => Some x | None => lcn_of l2 v end.
Proof.
  induction l1 as [|e l1 IH]; simpl; [done|].
  destruct (_ && _); [done|apply IH].
Qed.

Lemma lcn_of_lt a b l v : seg a b l → v < a → lcn_of l v = None.
Proof.
  induction 1; simpl; [done|]. intros. ztests. apply IHseg. lia.
Qed.

Lemma lcn_of_ge a b l v : seg a b l → b ≤ v → lcn_of l v = None.
Proof.
  induction 1 as [|???????? IH]; simpl; [done|]. intros.
  pose proof (seg_le _ _ _ H1). ztests; auto.
Qed.

Lemma lcn_of_in a b l v : seg a b l → a ≤ v < b → is_Some (lcn_of l v).
Proof.
  induction 1; simpl; [lia|]. intros. ztests; eauto; apply IHseg; lia.
Qed.

Lemma lcn_of_terminator b t v : terminator b t → lcn_of [t] v = None.
Proof. intros (?&?&?). simpl. ztests; done. Qed.

Lemma lcn_of_wf a b l v : wf_rl a b l → a ≤ v < b → is_Some (lcn_of l v).
Proof.
  intros (runs & t & -> & Hs & Ht) Hv. rewrite lcn_of_app.
  destruct (lcn_of_in _ _ _ _ Hs Hv) as [x ->]. eauto.
Qed.

Lemma lcn_of_wf_ge a b l v : wf_rl a b l → b ≤ v → lcn_of l v = None.
Proof.
  intros (runs & t & -> & Hs & Ht) Hv. rewrite lcn_of_app.
  rewrite (lcn_of_ge _ _ _ _ Hs Hv). eauto using lcn_of_terminator.
Qed.

Lemma lcn_of_wf_lt a b l v : wf_rl a b l → v < a → lcn_of l v = None.
Proof.
  intros (runs & t & -> & Hs & Ht) Hv. rewrite lcn_of_app.
  rewrite (lcn_of_lt _ _ _ _ Hs Hv). eauto using lcn_of_terminator.
Qed.

(** ** Scanning the array *)

(** [while (rl->length && v >= rl[1].vcn) rl++;], the loop with which the
    runlist operations seek to the element containing VCN [v]; the result is
    the number of elements skipped. *)
Fixpoint rl_seek (l : list ntfs_rl_element) (v : Z) : outcome nat :=
  match l with
  | [] => Oob
  | e :: l' =>
      if rlen e =? 0 then Ret 0%nat
      else match l' with
           | [] => Oob
           | e1 :: _ => if vcn e1 <=? v then S <$> rl_seek l' v else Ret 0%nat
           end
  end.

(** Where the scan of a well-formed array stops: at the run containing [v], or
    at the terminator. *)
Definition at_vcn (e : ntfs_rl_element) (v : Z) : Prop :=
  vcn e ≤ v ∧ (rlen e = 0 ∨ v < vcn e + rlen e).

Lemma wf_rl_head a b l : wf_rl a b l → ∃ e l', l = e :: l' ∧ vcn e = a.
Proof.
  destruct l as [|e l]; intros H; [by apply wf_rl_not_nil in H|].
  apply wf_rl_cons_inv in H as [? _]. eauto.
Qed.

Lemma rl_seek_step e e1 l v :
  0 < rlen e → vcn e1 ≤ v →
  rl_seek (e :: e1 :: l) v = S <$> rl_seek (e1 :: l) v.
Proof.
  intros. cbn [rl_seek]. rewrite (proj2 (Z.eqb_neq _ _)) by lia.
  by rewrite (proj2 (Z.leb_le _ _)) by lia.
Qed.

Lemma rl_seek_stop e e1 l v :
  v < vcn e1 → rl_seek (e :: e1 :: l) v = Ret 0%nat.
Proof.
  intros. cbn [rl_seek]. rewrite (proj2 (Z.leb_gt _ _)) by lia. by case_match.
Qed.

Lemma rl_seek_term e l v : rlen e = 0 → rl_seek (e :: l) v = Ret 0%nat.
Proof. intros E. cbn [rl_seek]. by rewrite E. Qed.

Lemma rl_seek_spec a b l junk v :
  wf_rl a b l → a ≤ v →
  ∃ l1 e l2, l = l1 ++ e :: l2 ∧ rl_seek (l ++ junk) v = Ret (length l1) ∧
    at_vcn e v.
Proof.
  revert a. induction l as [|e l IH]; intros a H Hv; [by apply wf_rl_not_nil in H|].
  apply wf_rl_cons_inv in H as (<- & [(Hz & -> & <- & ?)|(Hz & ? & H)]).
  - exists [], e, []. split_and!; [done|by apply rl_seek_term|split; [done|by left]].
  - destruct (wf_rl_head _ _ _ H) as (e1 & l' & -> & Hv1).
    destruct (decide (vcn e1 ≤ v)) as [Hle|Hgt].
    + destruct (IH (vcn e1)) as (l1 & e' & l2 & E & Hs & He); [by rewrite Hv1|done|].
      exists (e :: l1), e', l2. split_and!; [by rewrite E| |done].
      cbn [app] in *. rewrite rl_seek_step by done. by rewrite Hs.
    + exists [], e, (e1 :: l'). split_and!; [done| |split; [done|right; lia]].
      cbn [app]. apply rl_seek_stop. lia.
Qed.

(** The same for a given position. *)
Lemma rl_seek_at a b l1 e l2 junk v :
  wf_rl a b (l1 ++ e :: l2) → at_vcn e v → rl_seek ((l1 ++ e :: l2) ++ junk) v = Ret (length l1).
Proof.
  revert a. induction l1 as [|x l1 IH]; intros a Hwf He; cbn [app] in *.
  - apply wf_rl_cons_inv in Hwf as (<- & [(Hz & _)|(Hz & _ & Hwf)]); [by apply rl_seek_term|].
    destruct (wf_rl_head _ _ _ Hwf) as (e1 & l' & -> & Hv1). destruct He as [_ [?|?]]; [lia|].
    apply rl_seek_stop. lia.
  - apply wf_rl_cons_inv in Hwf as (<- & [(_ & E & _)|(Hz & _ & Hwf)]); [by destruct l1|].
    specialize (IH _ Hwf He). destruct (wf_rl_head _ _ _ Hwf) as (e1 & l' & E & Hv1).
    assert (vcn e1 ≤ v).
    { apply wf_rl_app_inv in Hwf as (d & ?%seg_le & Hwf); [|done].
      destruct (wf_rl_cons_inv _ _ _ _ Hwf) as [? _]. destruct He. lia. }
    rewrite E in IH |- *. cbn [app length] in *. rewrite rl_seek_step by done. by rewrite IH.
Qed.
