(* ===== verification/RunlistBuf.v ===== *)
(** * Runlists: the element buffer

    The routines of [kext/ntfs_runlist.c] that manage the array of runlist
    elements: copying and moving fragments ([ntfs_rl_copy], [ntfs_rl_move]),
    growing it at the end ([ntfs_rl_inc]) or in the middle ([ntfs_rl_ins]) and
    shrinking it ([ntfs_rl_shrink]).  The kernel's allocator is an interface,
    the class [Allocator]. *)

From S2P Require Import Prelude Runlist.

(** ** The allocator *)

(** [IONewData n] is NULL, or an array of [n] elements with arbitrary contents. *)
Class Allocator := {
  IONewData : nat → option (list ntfs_rl_element);
  IONewData_length n l : IONewData n = Some l → length l = n
}.

(** An allocator that never fails and clears the memory, to run the model. *)
#[refine] Definition zero_allocator : Allocator :=
  {| IONewData n := Some (replicate n (mk_rle 0 0 0)) |}.
Proof. intros n l [= <-]. apply length_replicate. Defined.

Definition NTFS_ALLOC_BLOCK : Z := 1024.

(** [sizeof(ntfs_rl_element)]: three [s64] fields. *)
Definition rl_element_size : Z := 24.

(** The elements of [NTFS_ALLOC_BLOCK] bytes. *)
Definition rl_alloc_step : nat := Z.to_nat (NTFS_ALLOC_BLOCK / rl_element_size).

(** The number of elements that fit the buffer for [n] elements:
    [new_size / sizeof(ntfs_rl_element)], the byte size [new_size] being [n]
    elements rounded up to a multiple of [NTFS_ALLOC_BLOCK] in an [unsigned]. *)
Definition rl_buffer_count (n : nat) : nat :=
  let new_size := u32 (Z.land (Z.of_nat n * rl_element_size + NTFS_ALLOC_BLOCK - 1)
                              (Z.lnot (NTFS_ALLOC_BLOCK - 1))) in
  Z.to_nat (new_size / rl_element_size).

(** ** Operations *)

Definition ntfs_rl_copy (dst : list ntfs_rl_element) (d : nat)
    (src : list ntfs_rl_element) (s size : nat) : outcome (list ntfs_rl_element) :=
  if (0 <? size)%nat then memcpy dst d src s size else Ret dst.

Definition ntfs_rl_move (l : list ntfs_rl_element) (dst src size : nat)
    : outcome (list ntfs_rl_element) :=
  if negb (dst =? src)%nat && (0 <? size)%nat then memmove l dst src size else Ret l.

(** Normalise the argument of [rl_buffer_count] in the goal. *)
Ltac count_as m :=
  match goal with |- context [rl_buffer_count ?n] => replace n with m by len end; len.

Section ops.
Context `{!Allocator}.

Definition ntfs_rl_inc (r : ntfs_runlist) (delta : Z) : outcome (Z * ntfs_runlist) :=
  let new_elements := Z.to_nat (u32 (Z.of_nat (elements r) + delta)) in
  let count := alloc_count r in
  let new_count := rl_buffer_count new_elements in
  if (count <? new_count)%nat then
    match IONewData new_count with
    | None => Ret (ENOMEM, r)
    | Some new_rl =>
        new_rl ← ntfs_rl_copy new_rl 0 (rl r) 0 (elements r);
        Ret (0, mk_runlist new_rl new_elements new_count)
    end
  else Ret (0, mk_runlist (rl r) new_elements count).

Definition ntfs_rl_ins (r : ntfs_runlist) (pos ins_count : nat)
    : outcome (Z * ntfs_runlist) :=
  if (elements r <? pos)%nat then Panic else
  let new_elements := Z.to_nat (u32 (Z.of_nat (elements r + ins_count))) in
  let count := alloc_count r in
  let new_count := rl_buffer_count new_elements in
  if (new_count <=? count)%nat then
    if (0 <? ins_count)%nat then
      l ← ntfs_rl_move (rl r) (pos + ins_count) pos (elements r - pos);
      Ret (0, mk_runlist l new_elements count)
    else Ret (0, r)
  else
    match IONewData new_count with
    | None => Ret (ENOMEM, r)
    | Some new_rl =>
        new_rl ← ntfs_rl_copy new_rl 0 (rl r) 0 pos;
        new_rl ← ntfs_rl_copy new_rl (pos + ins_count) (rl r) pos (elements r - pos);
        Ret (0, mk_runlist new_rl new_elements new_count)
    end.

Definition ntfs_rl_shrink (r : ntfs_runlist) (new_elements : nat)
    : outcome ntfs_runlist :=
  if (elements r <? new_elements)%nat then Panic else
  let count := alloc_count r in
  if (count =? 0)%nat || bool_decide (rl r = []) then Panic else
  let new_count := rl_buffer_count new_elements in
  if (new_count <? count)%nat then
    match IONewData new_count with
    | Some new_rl =>
        new_rl ← ntfs_rl_copy new_rl 0 (rl r) 0 new_elements;
        Ret (mk_runlist new_rl new_elements new_count)
    | None => Ret (mk_runlist (rl r) new_elements count)
    end
  else if negb (new_count =? count)%nat then Panic
  else Ret (mk_runlist (rl r) new_elements count).

(** The buffer is at least as large as [ntfs_rl_inc] makes it for the elements in
    use. *)
Definition roomy (r : ntfs_runlist) : Prop :=
  (rl_buffer_count (elements r) ≤ alloc_count r)%nat.

(** ** Lemmas *)

(** The largest number of elements whose byte size fits an [unsigned]. *)
Definition max_elements : nat := Z.to_nat 178000000.

Lemma rl_buffer_count_eq n :
  (n ≤ max_elements)%nat →
  Z.of_nat (rl_buffer_count n) = (Z.of_nat n * 24 + 1023) / 1024 * 1024 / 24.
Proof.
  unfold max_elements. intros Hn. unfold rl_buffer_count, NTFS_ALLOC_BLOCK, rl_element_size.
  replace (Z.lnot (1024 - 1)) with (Z.lnot (Z.ones 10)) by done.
  rewrite <- Z.ldiff_land, Z.ldiff_ones_r by lia.
  rewrite Z.shiftl_mul_pow2, Z.shiftr_div_pow2 by lia.
  change (2 ^ 10) with 1024.
  replace (Z.of_nat n * 24 + 1024 - 1) with (Z.of_nat n * 24 + 1023) by lia.
  rewrite uwrap_id; [rewrite Z2Nat.id|change (2 ^ 32) with 4294967296]; zdiv.
Qed.

Lemma max_elements_u32 n : (n ≤ max_elements)%nat → 0 ≤ Z.of_nat n < 2 ^ 32 - 1.
Proof. unfold max_elements. lia. Qed.

Lemma rl_buffer_count_ge n :
  (n ≤ max_elements)%nat → (n ≤ rl_buffer_count n)%nat.
Proof. intros Hn. apply Nat2Z.inj_le. rewrite rl_buffer_count_eq by done. zdiv. Qed.

Lemma rl_buffer_count_mono m n :
  (m ≤ n)%nat → (n ≤ max_elements)%nat →
  (rl_buffer_count m ≤ rl_buffer_count n)%nat.
Proof.
  intros. apply Nat2Z.inj_le. rewrite !rl_buffer_count_eq by lia. zdiv.
Qed.

(** A runlist structure given by its elements in use and the rest of its buffer. *)
Definition mk_used (l junk : list ntfs_rl_element) : ntfs_runlist :=
  mk_runlist (l ++ junk) (length l) (length (l ++ junk)).

Lemma roomy_mk_used l junk :
  roomy (mk_used l junk) ↔ (rl_buffer_count (length l) ≤ length l + length junk)%nat.
Proof. unfold roomy; simpl. by rewrite length_app. Qed.

Lemma roomy_same l junk l' junk' :
  roomy (mk_used l junk) → length l' = length l → length junk' = length junk →
  roomy (mk_used l' junk').
Proof. rewrite !roomy_mk_used. by intros ? -> ->. Qed.

Lemma used_mk_used l junk : used (mk_used l junk) = l.
Proof. unfold used; simpl. apply take_app_length. Qed.

Lemma buf_ok_mk_used l junk : buf_ok (mk_used l junk).
Proof. split; simpl; len. Qed.

Lemma buf_ok_inv r : buf_ok r → ∃ junk, r = mk_used (used r) junk.
Proof.
  intros [Hl He]. exists (drop (elements r) (rl r)). unfold mk_used, used.
  rewrite take_drop, length_take, Hl. destruct r; simpl in *. f_equal. lia.
Qed.

Lemma mk_used_eq buf n c l junk :
  buf = l ++ junk → n = length l → c = length buf → mk_runlist buf n c = mk_used l junk.
Proof. by intros -> -> ->. Qed.

Lemma runlist_ok_inv b r :
  runlist_ok b r → ∃ l junk, r = mk_used l junk ∧ wf_rl 0 b l.
Proof.
  intros [Hb Hwf]. destruct (buf_ok_inv r Hb) as [junk E]. eauto.
Qed.

Lemma runlist_ok_mk_used b l junk : wf_rl 0 b l → runlist_ok b (mk_used l junk).
Proof. intros. split; [apply buf_ok_mk_used|by rewrite used_mk_used]. Qed.

Lemma ntfs_rl_copy_Ret l d s src n :
  (src + n ≤ length s)%nat → (d + n ≤ length l)%nat →
  ntfs_rl_copy l d s src n = Ret (take d l ++ take n (drop src s) ++ drop (d + n) l).
Proof.
  intros. unfold ntfs_rl_copy. destruct (Nat.ltb_spec 0 n) as [|Hn].
  - by apply memcpy_Ret.
  - assert (n = 0%nat) as -> by lia. simpl. by rewrite Nat.add_0_r, take_drop.
Qed.

Lemma ntfs_rl_move_Ret l d src n :
  (src + n ≤ length l)%nat → (d + n ≤ length l)%nat →
  ntfs_rl_move l d src n = Ret (take d l ++ take n (drop src l) ++ drop (d + n) l).
Proof.
  intros. unfold ntfs_rl_move. destruct (Nat.ltb_spec 0 n) as [|Hn].
  - destruct (Nat.eqb_spec d src) as [->|]; simpl; [|by apply memcpy_Ret].
    by rewrite <- drop_drop, take_drop, take_drop.
  - assert (n = 0%nat) as -> by lia. rewrite andb_false_r. simpl.
    by rewrite Nat.add_0_r, take_drop.
Qed.

(** [ntfs_rl_inc] fails with ENOMEM and changes nothing, or keeps the elements
    in use and appends [delta] uninitialised ones. *)
Lemma ntfs_rl_inc_spec l junk d delta :
  d = Z.of_nat delta → (length l + delta ≤ max_elements)%nat →
  ntfs_rl_inc (mk_used l junk) d = Ret (ENOMEM, mk_used l junk) ∨
  ∃ gap junk', length gap = delta ∧
    ntfs_rl_inc (mk_used l junk) d = Ret (0, mk_used (l ++ gap) junk') ∧
    roomy (mk_used (l ++ gap) junk').
Proof.
  intros -> Hd. pose proof (rl_buffer_count_ge _ Hd). unfold ntfs_rl_inc, roomy. simpl.
  pose proof (max_elements_u32 _ Hd).
  replace (Z.to_nat (u32 _)) with (length l + delta)%nat by (rewrite uwrap_id; lia).
  destruct (Nat.ltb_spec (length (l ++ junk)) (rl_buffer_count (length l + delta))).
  - destruct (IONewData _) as [new|] eqn:En; [right|by left].
    pose proof (IONewData_length _ _ En) as Hl.
    exists (take delta (drop (length l) new)), (drop delta (drop (length l) new)).
    split_and!; [len| |count_as (length l + delta)%nat].
    rewrite ntfs_rl_copy_Ret by len. simpl. do 2 f_equal. apply mk_used_eq; [|len..].
    by rewrite drop_0, take_app_length, <- (assoc_L (++)), take_drop.
  - right. exists (take delta junk), (drop delta junk).
    split_and!; [len| |count_as (length l + delta)%nat].
    do 2 f_equal. apply mk_used_eq; [|len..].
    by rewrite <- (assoc_L (++)), take_drop.
Qed.

(** With the wrapped-around [unsigned] value of [- k] it drops [k] elements. *)
Lemma ntfs_rl_inc_wrap l1 l2 junk :
  roomy (mk_used (l1 ++ l2) junk) → (length (l1 ++ l2) ≤ max_elements)%nat →
  ntfs_rl_inc (mk_used (l1 ++ l2) junk) (u32 (- Z.of_nat (length l2))) =
    Ret (0, mk_used l1 (l2 ++ junk)).
Proof.
  intros Hroom%roomy_mk_used Hmax. pose proof (max_elements_u32 _ Hmax). unfold ntfs_rl_inc. simpl.
  replace (Z.to_nat (u32 _)) with (length l1).
  2: { unfold uwrap. rewrite Zplus_mod_idemp_r, Z.mod_small; len. }
  assert (rl_buffer_count (length l1) ≤ rl_buffer_count (length (l1 ++ l2)))%nat
    by (apply rl_buffer_count_mono; len).
  rewrite (proj2 (Nat.ltb_ge _ _)) by len. do 2 f_equal.
  apply mk_used_eq; [by rewrite (assoc_L (++))|len..].
Qed.

(** [ntfs_rl_ins] opens a gap of [n] uninitialised elements. *)
Lemma ntfs_rl_ins_spec l1 l2 junk n :
  (0 < n)%nat → (length (l1 ++ l2) + n ≤ max_elements)%nat →
  ntfs_rl_ins (mk_used (l1 ++ l2) junk) (length l1) n =
    Ret (ENOMEM, mk_used (l1 ++ l2) junk) ∨
  ∃ gap junk', length gap = n ∧
    ntfs_rl_ins (mk_used (l1 ++ l2) junk) (length l1) n =
      Ret (0, mk_used (l1 ++ gap ++ l2) junk') ∧
    roomy (mk_used (l1 ++ gap ++ l2) junk').
Proof.
  intros Hn Hd. pose proof (rl_buffer_count_ge _ Hd) as Hge.
  unfold ntfs_rl_ins, roomy. simpl. pose proof (max_elements_u32 _ Hd).
  replace (Z.to_nat (u32 _)) with (length (l1 ++ l2) + n)%nat by (rewrite uwrap_id; lia).
  rewrite (proj2 (Nat.ltb_ge _ _)) by len.
  replace (length (l1 ++ l2) - length l1)%nat with (length l2) by len.
  destruct (Nat.leb_spec (rl_buffer_count (length (l1 ++ l2) + n)) (length ((l1 ++ l2) ++ junk)))
    as [Hc|Hc].
  - right. rewrite (proj2 (Nat.ltb_lt _ _)) by lia.
    exists (take n (l2 ++ junk)), (drop n junk). split_and!; [len| |len].
    + rewrite ntfs_rl_move_Ret by len. simpl. do 2 f_equal. apply mk_used_eq; [|len..].
      rewrite <- !(assoc_L (++)), drop_app_length, take_app_length, take_app_add.
      rewrite <- drop_drop, <- drop_drop, drop_app_length.
      rewrite drop_drop, (Nat.add_comm n), <- drop_drop, drop_app_length.
      by rewrite <- !(assoc_L (++)).
    + count_as (length (l1 ++ l2) + n)%nat.
  - destruct (IONewData _) as [new|] eqn:En; [right|by left].
    pose proof (IONewData_length _ _ En) as Hnl.
    exists (take n (drop (length l1) new)), (drop (length (l1 ++ l2) + n) new).
    split_and!; [len| |].
    + rewrite ntfs_rl_copy_Ret by len. simpl.
      rewrite ntfs_rl_copy_Ret by len. simpl. do 2 f_equal. apply mk_used_eq; [|len..].
      rewrite drop_0, <- !(assoc_L (++)), drop_app_length, !take_app_length.
      rewrite take_app_add, <- drop_drop, <- drop_drop, drop_app_length, drop_drop, drop_drop.
      rewrite <- !(assoc_L (++)).
      by replace (length (l1 ++ l2) + n)%nat with (length l1 + (n + length l2))%nat by len.
    + count_as (length (l1 ++ l2) + n)%nat.
Qed.

(** [ntfs_rl_shrink] keeps a prefix of the elements in use, provided the buffer
    is at least as large as [ntfs_rl_inc] would have made it. *)
Lemma ntfs_rl_shrink_spec l1 l2 junk :
  l1 ≠ [] → (length l1 ≤ max_elements)%nat →
  (rl_buffer_count (length l1) ≤ length ((l1 ++ l2) ++ junk))%nat →
  ∃ junk', ntfs_rl_shrink (mk_used (l1 ++ l2) junk) (length l1) = Ret (mk_used l1 junk') ∧
    roomy (mk_used l1 junk').
Proof.
  intros Hl1 Hm Hc.
  assert (0 < length l1)%nat by (destruct l1; simpl; [done|lia]).
  unfold ntfs_rl_shrink, roomy. simpl. rewrite (proj2 (Nat.ltb_ge _ _)) by len.
  rewrite (proj2 (Nat.eqb_neq _ _)) by len.
  rewrite bool_decide_eq_false_2 by (by destruct l1).
  simpl. destruct (Nat.ltb_spec (rl_buffer_count (length l1)) (length ((l1 ++ l2) ++ junk))).
  - destruct (IONewData _) as [new|] eqn:En.
    + pose proof (IONewData_length _ _ En) as Hnl.
      pose proof (rl_buffer_count_ge (length l1) Hm).
      rewrite ntfs_rl_copy_Ret by len. simpl. exists (drop (length l1) new).
      split; [|len]. f_equal. apply mk_used_eq; [|len..].
      by rewrite drop_0, <- (assoc_L (++)), take_app_length.
    + exists (l2 ++ junk). split; [|len]. f_equal.
      apply mk_used_eq; [by rewrite (assoc_L (++))|len..].
  - rewrite (proj2 (Nat.eqb_eq _ _)) by lia. simpl.
    exists (l2 ++ junk). split; [|len]. f_equal.
    apply mk_used_eq; [by rewrite (assoc_L (++))|len..].
Qed.

(** Otherwise the consistency check of [ntfs_rl_shrink] fails. *)
Lemma ntfs_rl_shrink_panics r n :
  (alloc_count r < rl_buffer_count n)%nat → ntfs_rl_shrink r n = Panic.
Proof.
  intros. unfold ntfs_rl_shrink. repeat case_match; zbool; try done; lia.
Qed.
End ops.

(** The test whether there is a previous element and it is sparse. *)
Lemma prev_hole_test l1 s :
  let test := if (0 <? length l1)%nat
    then rd (l1 ++ s) (length l1 - 1) ≫= (λ p, Ret (lcn p =? LCN_HOLE)) else Ret false in
  (∃ l1' h, l1 = l1' ++ [h] ∧ lcn h = LCN_HOLE ∧ test = Ret true) ∨ test = Ret false.
Proof.
  destruct (list.last l1) as [h|] eqn:Hl; [|apply last_None in Hl as ->; by right].
  apply last_Some in Hl as [l1' ->]. rewrite length_app. simpl. zdec.
  rewrite <- (assoc_L (++)). cbn [app]. mem_step.
  destruct (Z.eqb_spec (lcn h) LCN_HOLE); [left|by right]. by exists l1', h.
Qed.

(** ** A runlist to evaluate the model on *)

Definition sample_runlist : ntfs_runlist :=
  mk_used [mk_rle 0 100 10; mk_rle 10 LCN_HOLE 5; mk_rle 15 LCN_RL_NOT_MAPPED 5;
           mk_rle 20 300 4; mk_rle 24 LCN_ENOENT 0] (replicate 37 (mk_rle 0 0 0)).

Lemma sample_runlist_ok : runlist_ok 24 sample_runlist.
Proof.
  split; [split; simpl; lia|].
  repeat (apply wf_rl_cons; [done|simpl; lia|done|]). by apply wf_rl_one.
Qed.

Lemma sample_runlist_roomy : roomy sample_runlist.
Proof. apply roomy_mk_used. by vm_compute. Qed.

Lemma few_elements n : (n ≤ 1000)%nat → (n < max_elements)%nat.
Proof. unfold max_elements. lia. Qed.
