(* ===== verification/RunlistQuery.v ===== *)
(** * Runlists: queries

    [ntfs_rl_vcn_to_lcn], [ntfs_rl_find_vcn_nolock] and
    [ntfs_rl_get_nr_real_clusters] of [kext/ntfs_runlist.c], and their
    specifications in terms of the map a runlist denotes. *)

From S2P Require Import Prelude Runlist RunlistBuf.

(** ** Operations *)

(** The loop of [ntfs_rl_vcn_to_lcn].  The second component of the result is
    what is stored through the pointer [clusters], [None] if nothing is. *)
Fixpoint vcn_to_lcn_loop (l : list ntfs_rl_element) (v : Z) : outcome (Z * option Z) :=
  match l with
  | [] => Oob
  | e :: l' =>
      if rlen e =? 0 then
        if lcn e <? 0 then Ret (lcn e, Some 0) else Ret (LCN_ENOENT, Some 0)
      else match l' with
           | [] => Oob
           | e1 :: _ =>
               if v <? vcn e1 then
                 let ofs := v - vcn e in
                 if 0 <=? lcn e then Ret (lcn e + ofs, Some (rlen e - ofs))
                 else Ret (lcn e, Some (rlen e - ofs))
               else vcn_to_lcn_loop l' v
           end
  end.

Definition ntfs_rl_vcn_to_lcn (l : list ntfs_rl_element) (v : Z)
    : outcome (Z * option Z) :=
  if v <? 0 then Panic else
  match l with
  | [] => Ret (LCN_RL_NOT_MAPPED, None)
  | e :: _ => if v <? vcn e then Ret (LCN_ENOENT, None) else vcn_to_lcn_loop l v
  end.

(** The loop of [ntfs_rl_find_vcn_nolock]; a pointer into the array is the index
    of the element it points to, NULL is [None]. *)
Fixpoint find_vcn_loop (l : list ntfs_rl_element) (v : Z) : outcome (option nat) :=
  match l with
  | [] => Oob
  | e :: l' =>
      if rlen e =? 0 then
        if lcn e =? LCN_ENOENT then Ret (Some 0%nat) else Ret None
      else match l' with
           | [] => Oob
           | e1 :: _ =>
               if v <? vcn e1 then
                 if LCN_HOLE <=? lcn e then Ret (Some 0%nat) else Ret None
               else option_map S <$> find_vcn_loop l' v
           end
  end.

Definition ntfs_rl_find_vcn_nolock (l : list ntfs_rl_element) (v : Z)
    : outcome (option nat) :=
  if v <? 0 then Panic else
  match l with
  | [] => Ret None
  | e :: _ => if v <? vcn e then Ret None else find_vcn_loop l v
  end.

(** The counting loop of [ntfs_rl_get_nr_real_clusters]. *)
Fixpoint nr_real_loop (l : list ntfs_rl_element) (end_vcn nr : Z) : outcome Z :=
  match l with
  | [] => Oob
  | e :: l' =>
      if rlen e =? 0 then Ret nr
      else match l' with
           | [] => Oob
           | e1 :: _ =>
               if (0 <=? end_vcn) && (end_vcn <=? vcn e1) then
                 Ret (if 0 <=? lcn e then nr + (end_vcn - vcn e) else nr)
               else nr_real_loop l' end_vcn (if 0 <=? lcn e then nr + rlen e else nr)
           end
  end.

Definition ntfs_rl_get_nr_real_clusters (r : ntfs_runlist) (start_vcn cnt : Z)
    : outcome Z :=
  if (start_vcn <? 0) || (cnt <? 0) then Panic else
  if (elements r =? 0)%nat || (cnt =? 0) then Ret 0 else
  let end_vcn := if 0 <=? cnt then start_vcn + cnt else -1 in
  found ← (if 0 <? start_vcn then ntfs_rl_find_vcn_nolock (rl r) start_vcn
           else Ret (Some 0%nat));
  match found with
  | None => Ret 0
  | Some i =>
      e ← rd (rl r) i;
      if rlen e =? 0 then Ret 0 else
      if 0 <=? lcn e then
        e1 ← rd (rl r) (i + 1);
        let delta := start_vcn - vcn e in
        let nr := vcn e1 - delta in
        if cnt <? nr then Ret cnt
        else nr_real_loop (drop (i + 1) (rl r)) end_vcn nr
      else nr_real_loop (drop (i + 1) (rl r)) end_vcn 0
  end.

(** ** Specifications *)

(** The run of a well-formed array containing [v]. *)
Lemma wf_rl_run_at a b l v :
  wf_rl a b l → a ≤ v < b →
  ∃ l1 e l2, l = l1 ++ e :: l2 ∧ vcn e ≤ v < vcn e + rlen e ∧
    seg a (vcn e) l1 ∧ LCN_RL_NOT_MAPPED ≤ lcn e ∧ wf_rl (vcn e + rlen e) b l2.
Proof.
  intros Hwf Hv. destruct (rl_seek_spec a b l [] v) as (l1 & e & l2 & -> & _ & He); [done|lia|].
  apply wf_rl_app_inv in Hwf as (c & Hs & Hwf); [|done].
  apply wf_rl_cons_inv in Hwf as (<- & [(?&?&?&?)|(?&?&?)]); [destruct He; lia|].
  exists l1, e, l2. destruct He as [? [?|?]]; split_and!; try done; lia.
Qed.

(** Every scan that steps over a run whose successor starts at or before [v]
    steps over a whole segment that ends at or before [v]. *)
Lemma scan_skip {B} (f : list ntfs_rl_element → B) (g : B → B) a b l1 e0 l v :
  (∀ e e1 l', 0 < rlen e → vcn e1 ≤ v → f (e :: e1 :: l') = g (f (e1 :: l'))) →
  seg a b l1 → b ≤ v → vcn e0 = b →
  f (l1 ++ e0 :: l) = Nat.iter (length l1) g (f (e0 :: l)).
Proof.
  intros Hstep Hs. induction Hs as [|a b x n l1 ?? Hs IH]; intros Hv He0; [done|].
  pose proof (seg_le _ _ _ Hs). simpl. rewrite <- IH by done.
  inversion Hs; subst; simpl; (rewrite Hstep; [done|done|simpl; lia]).
Qed.

Lemma vcn_to_lcn_loop_skip a b l1 e0 l v :
  seg a b l1 → b ≤ v → vcn e0 = b →
  vcn_to_lcn_loop (l1 ++ e0 :: l) v = vcn_to_lcn_loop (e0 :: l) v.
Proof.
  intros Hs Hv He.
  rewrite (scan_skip (λ l, vcn_to_lcn_loop l v) id a b l1 e0 l v); try done.
  - cbv beta. generalize (vcn_to_lcn_loop (e0 :: l) v) as x. clear.
    by induction (length l1) as [|n IH]; [|simpl; intros; rewrite IH].
  - intros e e1 l' ??. cbn [vcn_to_lcn_loop]. by zdec.
Qed.

Lemma find_vcn_loop_skip a b l1 e0 l v :
  seg a b l1 → b ≤ v → vcn e0 = b →
  find_vcn_loop (l1 ++ e0 :: l) v =
    option_map (Nat.add (length l1)) <$> find_vcn_loop (e0 :: l) v.
Proof.
  intros Hs Hv He.
  rewrite (scan_skip (λ l, find_vcn_loop l v) (fmap (option_map S)) a b l1 e0 l v); try done.
  - cbv beta. generalize (find_vcn_loop (e0 :: l) v) as x. clear.
    induction (length l1) as [|n IH]; intros x; simpl; [|rewrite IH];
      by destruct x as [[]| |].
  - intros e e1 l' ??. cbn [find_vcn_loop]. by zdec.
Qed.

(** [v] is not below the first element of the array. *)
Lemma head_vcn a b l1 e l : seg a b l1 → vcn e = b →
  ∃ e0 l', l1 ++ e :: l = e0 :: l' ∧ vcn e0 = a.
Proof. inversion 1; intros; subst; simpl; eauto. Qed.

(** The value and the cluster count [ntfs_rl_vcn_to_lcn] returns. *)
Lemma vcn_to_lcn_run a b l1 e l2 junk v :
  seg a (vcn e) l1 → wf_rl (vcn e + rlen e) b l2 →
  0 ≤ a → vcn e ≤ v < vcn e + rlen e →
  ntfs_rl_vcn_to_lcn ((l1 ++ e :: l2) ++ junk) v =
    Ret (run_lcn e v, Some (vcn e + rlen e - v)).
Proof.
  intros Hs Hwf Ha Hv. unfold ntfs_rl_vcn_to_lcn.
  pose proof (seg_le _ _ _ Hs). zdec.
  destruct (wf_rl_head _ _ _ Hwf) as (e1 & l' & -> & He1).
  rewrite <- (assoc_L (++)). cbn [app].
  destruct (head_vcn a (vcn e) l1 e (e1 :: l' ++ junk)) as (e0 & l0 & E & ?); [done..|].
  rewrite E. zdec. rewrite <- E, (vcn_to_lcn_loop_skip a (vcn e)) by (done || lia).
  cbn [vcn_to_lcn_loop]. zdec. unfold run_lcn. case_match; do 3 f_equal; lia.
Qed.

(** Lookups at or after the end see the terminator. *)
Lemma vcn_to_lcn_end a b runs t junk v :
  seg a b runs → terminator b t → 0 ≤ a → b ≤ v →
  ntfs_rl_vcn_to_lcn ((runs ++ [t]) ++ junk) v = Ret (lcn t, Some 0).
Proof.
  intros Hs (Ht1 & Ht2 & Ht3) Ha Hv. unfold ntfs_rl_vcn_to_lcn, LCN_HOLE in *.
  pose proof (seg_le _ _ _ Hs). zdec. rewrite <- (assoc_L (++)). cbn [app].
  destruct (head_vcn a b runs t junk) as (e0 & l0 & E & ?); [done..|].
  rewrite E. zdec. rewrite <- E, (vcn_to_lcn_loop_skip a b) by (done || lia).
  cbn [vcn_to_lcn_loop]. by zdec.
Qed.

(** C31: the lookup of a VCN in a runlist that maps [0, b).  Inside, the answer is the LCN
    (or the special value of a hole or of an unmapped run) together with the number of
    clusters left in the run, and each of these clusters is where the map says; behind the
    end, the answer is the LCN of the terminator with length 0. *)
Theorem ntfs_rl_vcn_to_lcn_spec b r v :
  runlist_ok b r → 0 ≤ v →
  if v <? b then
    ∃ x n, ntfs_rl_vcn_to_lcn (rl r) v = Ret (x, Some n) ∧ 0 < n ∧ v + n ≤ b ∧
      ∀ k, 0 ≤ k < n →
        lcn_of (used r) (v + k) = Some (if 0 <=? x then x + k else x)
  else ∃ t, list.last (used r) = Some t ∧ lcn t < LCN_HOLE ∧
    ntfs_rl_vcn_to_lcn (rl r) v = Ret (lcn t, Some 0).
Proof.
  intros (l & junk & -> & Hwf)%runlist_ok_inv Hv. rewrite used_mk_used. simpl.
  destruct (Z.ltb_spec v b).
  - destruct (wf_rl_run_at 0 b l v) as (l1 & e & l2 & -> & ? & Hs & ? & Hwf2); [done..|].
    exists (run_lcn e v), (vcn e + rlen e - v).
    rewrite (vcn_to_lcn_run 0 b) by (done || lia).
    pose proof (wf_rl_le _ _ _ Hwf2). split_and!; [done|lia..|].
    intros k Hk. rewrite lcn_of_app, (lcn_of_ge _ _ _ _ Hs) by lia.
    cbn [lcn_of]. zdec. f_equal. unfold run_lcn. ztests.
  - destruct Hwf as (runs & t & -> & Hs & Ht). exists t.
    rewrite last_snoc, (vcn_to_lcn_end 0 b) by (done || lia).
    by destruct Ht as (_&_&?).
Qed.

Lemma ntfs_rl_vcn_to_lcn_spec_witness :
  ∃ x n, ntfs_rl_vcn_to_lcn (rl sample_runlist) 12 = Ret (x, Some n) ∧ 0 < n ∧ 12 + n ≤ 24 ∧
    ∀ k, 0 ≤ k < n → lcn_of (used sample_runlist) (12 + k) = Some (if 0 <=? x then x + k else x).
Proof. apply (ntfs_rl_vcn_to_lcn_spec 24 sample_runlist 12); [apply sample_runlist_ok|lia]. Defined.

(** What a result of [ntfs_rl_find_vcn_nolock] says about VCN [v] of a runlist
    that maps [0, b): an element returned contains [v] and is a real run or a
    hole, or it is the end marker; NULL means that [v] is not mapped. *)
Definition find_vcn_post (b : Z) (l : list ntfs_rl_element) (v : Z) (o : option nat) : Prop :=
  match o with
  | Some i => ∃ e, l !! i = Some e ∧
      if v <? b then vcn e ≤ v < vcn e + rlen e ∧ LCN_HOLE ≤ lcn e
      else rlen e = 0 ∧ lcn e = LCN_ENOENT
  | None =>
      if v <? b then lcn_of l v = Some LCN_RL_NOT_MAPPED
      else ∃ t, list.last l = Some t ∧ lcn t ≠ LCN_ENOENT
  end.

Lemma ntfs_rl_find_vcn_nolock_loop a b l1 e l v :
  seg a b l1 → 0 ≤ a → b ≤ v → vcn e = b →
  ntfs_rl_find_vcn_nolock (l1 ++ e :: l) v =
    option_map (Nat.add (length l1)) <$> find_vcn_loop (e :: l) v.
Proof.
  intros Hs Ha Hv He. unfold ntfs_rl_find_vcn_nolock. pose proof (seg_le _ _ _ Hs). zdec.
  destruct (head_vcn a b l1 e l) as (e0 & l0 & E & ?); [done..|].
  rewrite E. zdec. rewrite <- E. by eapply find_vcn_loop_skip.
Qed.

Lemma ntfs_rl_find_vcn_nolock_post b l junk v :
  wf_rl 0 b l → 0 ≤ v →
  ∃ o, ntfs_rl_find_vcn_nolock (l ++ junk) v = Ret o ∧ find_vcn_post b l v o.
Proof.
  intros Hwf Hv. destruct (decide (v < b)).
  - destruct (wf_rl_run_at 0 b l v) as (l1 & e & l2 & -> & ? & Hs & ? & Hwf2); [done..|].
    destruct (wf_rl_head _ _ _ Hwf2) as (e1 & l' & -> & ?).
    rewrite <- (assoc_L (++)). cbn [app].
    rewrite (ntfs_rl_find_vcn_nolock_loop 0 (vcn e)) by (done || lia).
    cbn [find_vcn_loop]. zdec. unfold find_vcn_post. zdec.
    destruct (Z.leb_spec LCN_HOLE (lcn e)); eexists; (split; [done|]); simpl.
    + rewrite Nat.add_0_r. exists e. by rewrite list_lookup_middle.
    + rewrite lcn_of_app, (lcn_of_ge _ _ _ _ Hs) by lia.
      cbn [lcn_of]. zdec. unfold run_lcn, LCN_HOLE, LCN_RL_NOT_MAPPED in *. zdec.
      f_equal. lia.
  - destruct Hwf as (runs & t & -> & Hs & Ht1 & Ht2 & Ht3).
    rewrite <- (assoc_L (++)). cbn [app].
    rewrite (ntfs_rl_find_vcn_nolock_loop 0 b) by (done || lia).
    cbn [find_vcn_loop]. zdec. unfold find_vcn_post. zdec.
    destruct (Z.eqb_spec (lcn t) LCN_ENOENT); eexists; (split; [done|]); simpl.
    + rewrite Nat.add_0_r. exists t. by rewrite list_lookup_middle.
    + exists t. by rewrite last_snoc.
Qed.

(** [ntfs_rl_find_vcn_nolock] returns the element that contains the VCN when that is a real
    run or a hole, the terminator behind the end of a completely mapped attribute, and NULL exactly
    when the VCN is not mapped. *)
Theorem ntfs_rl_find_vcn_nolock_spec b r v :
  runlist_ok b r → 0 ≤ v →
  ∃ o, ntfs_rl_find_vcn_nolock (rl r) v = Ret o ∧ find_vcn_post b (used r) v o.
Proof.
  intros (l & junk & -> & Hwf)%runlist_ok_inv Hv. rewrite used_mk_used. simpl.
  by apply ntfs_rl_find_vcn_nolock_post.
Qed.

(** ** Counting real clusters *)

(** The number of clusters of [a, b) that a run backs by real clusters. *)
Definition real_in (a b : Z) (e : ntfs_rl_element) : Z :=
  if 0 <=? lcn e then Z.max 0 (Z.min b (vcn e + rlen e) - Z.max a (vcn e)) else 0.

Definition nr_real (a b : Z) (l : list ntfs_rl_element) : Z :=
  foldr (λ e n, real_in a b e + n) 0 l.

Lemma nr_real_past a s b e l : wf_rl s e l → b ≤ s → nr_real a b l = 0.
Proof.
  revert s. induction l as [|x l IH]; intros s Hwf Hs; [done|].
  apply wf_rl_cons_inv in Hwf as (<- & [(?&->&?)|(?&?&Hwf)]); simpl.
  - unfold real_in. case_match; lia.
  - rewrite (IH _ Hwf) by lia. unfold real_in. case_match; lia.
Qed.

Lemma nr_real_loop_spec a s b l junk end_vcn nr :
  wf_rl s b l → 0 ≤ a → a ≤ s → s ≤ end_vcn →
  nr_real_loop (l ++ junk) end_vcn nr = Ret (nr + nr_real a end_vcn l).
Proof.
  revert s nr. induction l as [|e l IH]; intros s nr Hwf ? Ha Hs;
    [by apply wf_rl_not_nil in Hwf|].
  apply wf_rl_cons_inv in Hwf as (<- & [(?&->&?)|(?&?&Hwf)]); simpl.
  - zdec. f_equal. unfold real_in. case_match; lia.
  - zdec. destruct (wf_rl_head _ _ _ Hwf) as (e1 & l' & E & He1).
    rewrite E. cbn [app]. zdec. rewrite He1, <- E.
    destruct (Z.leb_spec end_vcn (vcn e + rlen e)).
    + rewrite (nr_real_past _ _ _ _ _ Hwf) by done. f_equal.
      unfold real_in. case_match; lia.
    + change (e1 :: l' ++ junk) with ((e1 :: l') ++ junk). rewrite <- E.
      rewrite (IH _ _ Hwf) by lia. f_equal. unfold real_in. case_match; lia.
Qed.

(** [ntfs_rl_get_nr_real_clusters] counts the clusters of the range that are backed by
    the disk, when the range starts in the first run and that run is real or ends inside the
    range. *)
Theorem ntfs_rl_get_nr_real_clusters_first_run b r e l start cnt :
  runlist_ok b r → used r = e :: l → 0 ≤ start < rlen e → 0 ≤ cnt →
  LCN_HOLE ≤ lcn e → 0 ≤ lcn e ∨ rlen e ≤ start + cnt →
  ntfs_rl_get_nr_real_clusters r start cnt =
    Ret (nr_real start (start + cnt) (used r)).
Proof.
  intros (l0 & junk & -> & Hwf)%runlist_ok_inv. rewrite used_mk_used.
  intros -> Hst Hcnt Hl Hcase.
  apply wf_rl_cons_inv in Hwf as (He & [(?&->&?)|(?&?&Hwf)]); [lia|].
  destruct (wf_rl_head _ _ _ Hwf) as (e1 & l' & El & He1).
  unfold ntfs_rl_get_nr_real_clusters. simpl. zdec.
  destruct (Z.eqb_spec cnt 0) as [->|]; simpl.
  { f_equal. rewrite (nr_real_past _ _ _ _ _ Hwf) by lia. unfold real_in.
    case_match; lia. }
  set (buf := e :: l ++ junk).
  assert ((if 0 <? start then ntfs_rl_find_vcn_nolock buf start else Ret (Some 0%nat))
    = Ret (Some 0%nat)) as ->.
  { case_match; [|done]. unfold buf. rewrite El. cbn [app].
    unfold ntfs_rl_find_vcn_nolock. zdec. cbn [find_vcn_loop]. by zdec. }
  assert (rd buf 1 = Ret e1) as Hr1 by (unfold buf; by rewrite El).
  cbn [mbind outcome_bind Nat.add]. change (rd buf 0) with (@Ret ntfs_rl_element e).
  cbn [mbind outcome_bind]. change (drop 1 buf) with (l ++ junk). rewrite Hr1. cbn [mbind outcome_bind]. zdec.
  assert (∀ nr, rlen e ≤ start + cnt →
    nr_real_loop (l ++ junk) (start + cnt) nr =
      Ret (nr + nr_real start (start + cnt) l)) as Hloop.
  { intros nr ?. eapply nr_real_loop_spec; [done|lia..]. }
  cbn [nr_real foldr]. fold (nr_real start (start + cnt) l).
  unfold real_in. destruct (Z.leb_spec 0 (lcn e)).
  - rewrite He1, He. destruct (Z.ltb_spec cnt (0 + rlen e - (start - 0))).
    + f_equal. rewrite (nr_real_past _ _ _ _ _ Hwf) by lia. lia.
    + rewrite Hloop by lia. f_equal. lia.
  - destruct Hcase; [lia|]. by rewrite Hloop by lia.
Qed.

Lemma ntfs_rl_get_nr_real_clusters_first_run_witness :
  ntfs_rl_get_nr_real_clusters sample_runlist 3 20 = Ret (nr_real 3 (3 + 20) (used sample_runlist)).
Proof.
  apply (ntfs_rl_get_nr_real_clusters_first_run 24 sample_runlist (mk_rle 0 100 10) (tail (used sample_runlist)));
    [apply sample_runlist_ok|done|simpl; lia|lia|done|by left].
Defined.

(** The count of -1, which the documentation defines as "to the end of the runlist" and the
    only caller passes, always panics. *)
Theorem ntfs_rl_get_nr_real_clusters_to_end r start :
  ntfs_rl_get_nr_real_clusters r start (-1) = Panic.
Proof. unfold ntfs_rl_get_nr_real_clusters. zdec. by rewrite orb_true_r. Qed.

(** Outside the conditions of the theorem before, the count is wrong: a range that starts
    in a later run is counted from the wrong position, and a short range in a leading hole gives a
    negative number. *)
Theorem ntfs_rl_get_nr_real_clusters_wrong :
  (∃ r start cnt, runlist_ok 20 r ∧ nr_real start (start + cnt) (used r) = 5 ∧
    ntfs_rl_get_nr_real_clusters r start cnt = Ret 15) ∧
  (∃ r start cnt, runlist_ok 20 r ∧ nr_real start (start + cnt) (used r) = 0 ∧
    ntfs_rl_get_nr_real_clusters r start cnt = Ret (-5)).
Proof.
  split.
  - exists (mk_runlist [mk_rle 0 100 10; mk_rle 10 200 10; mk_rle 20 LCN_ENOENT 0] 3 3), 15, 15.
    split_and!; [|done..]. split; [split; simpl; lia|].
    repeat (apply wf_rl_cons; [done|simpl; lia|done|]). by apply wf_rl_one.
  - exists (mk_runlist [mk_rle 0 LCN_HOLE 10; mk_rle 10 200 10; mk_rle 20 LCN_ENOENT 0] 3 3), 0, 5.
    split_and!; [|done..]. split; [split; simpl; lia|].
    repeat (apply wf_rl_cons; [done|simpl; lia|done|]). by apply wf_rl_one.
Qed.
