(* ===== verification/RunlistTruncate.v ===== *)
(** * Runlists: truncation

    [ntfs_rl_truncate_nolock] of [kext/ntfs_runlist.c], and the proof that it
    computes the truncation (or sparse extension) of the map the runlist
    denotes. *)

From S2P Require Import Prelude Runlist RunlistBuf RunlistQuery.

Section truncate.
Context `{!Allocator}.

(** [for (element = 0; element < last_element &&
    new_length >= rl[element + 1].vcn; element++);], with [n] the distance of
    [i] to [last_element]. *)
Fixpoint trunc_find (l : list ntfs_rl_element) (new_length : Z) (i n : nat)
    : outcome nat :=
  match n with
  | O => Ret i
  | S n =>
      e ← rd l (i + 1);
      if vcn e <=? new_length then trunc_find l new_length (i + 1) n else Ret i
  end.

(** The part of [ntfs_rl_truncate_nolock] for an empty runlist. *)
Definition truncate_empty (r : ntfs_runlist) (new_length : Z)
    : outcome (Z * ntfs_runlist) :=
  '(err, r) ← ntfs_rl_inc r 2;
  if negb (err =? 0) then Ret (err, r) else
  l ← upd (rl r) 0 (set_vcn 0);
  l ← upd l 1 (set_len 0);
  l ← upd l 0 (set_lcn LCN_HOLE);
  l ← upd l 0 (set_len new_length);
  l ← upd l 1 (set_vcn new_length);
  l ← upd l 1 (set_lcn LCN_ENOENT);
  Ret (0, mk_runlist l (elements r) (alloc_count r)).

(** The part for [new_length] inside the runlist. *)
Definition truncate_shrink (r : ntfs_runlist) (new_length : Z) (element : nat)
    : outcome (Z * ntfs_runlist) :=
  e ← rd (rl r) element;
  let len := new_length - vcn e in
  l ← upd (rl r) element (set_len len);
  '(l, element) ←
    (if negb (len =? 0) then
       l ← upd l (element + 1) (set_vcn new_length);
       l ← upd l (element + 1) (set_len 0);
       Ret (l, element + 1)%nat
     else Ret (l, element));
  l ← upd l element (set_lcn LCN_ENOENT);
  r ← ntfs_rl_shrink (mk_runlist l (elements r) (alloc_count r)) (element + 1);
  Ret (0, r).

(** The part for [new_length] at or beyond the end. *)
Definition truncate_expand (r : ntfs_runlist) (new_length : Z) (element : nat)
    : outcome (Z * ntfs_runlist) :=
  e ← rd (rl r) element;
  if negb (rlen e =? 0) then Panic else
  if vcn e <? new_length then
    prev ← (if (0 <? element)%nat then
              p ← rd (rl r) (element - 1); Ret (lcn p =? LCN_HOLE)
            else Ret false);
    if (prev : bool) then
      p ← rd (rl r) (element - 1);
      l ← upd (rl r) (element - 1) (set_len (new_length - vcn p));
      l ← upd l element (set_vcn new_length);
      l ← upd l element (set_lcn LCN_ENOENT);
      Ret (0, mk_runlist l (elements r) (alloc_count r))
    else
      '(err, r) ← ntfs_rl_inc r 1;
      if negb (err =? 0) then Ret (err, r) else
      l ← upd (rl r) element (set_lcn LCN_HOLE);
      e ← rd l element;
      l ← upd l element (set_len (new_length - vcn e));
      l ← upd l (element + 1) (set_len 0);
      l ← upd l (element + 1) (set_vcn new_length);
      l ← upd l (element + 1) (set_lcn LCN_ENOENT);
      Ret (0, mk_runlist l (elements r) (alloc_count r))
  else
    l ← upd (rl r) element (set_lcn LCN_ENOENT);
    Ret (0, mk_runlist l (elements r) (alloc_count r)).

Definition ntfs_rl_truncate_nolock (r : ntfs_runlist) (new_length : Z)
    : outcome (Z * ntfs_runlist) :=
  let null := bool_decide (rl r = []) in
  if null && negb (alloc_count r =? 0)%nat then Panic else
  if negb null && (alloc_count r =? 0)%nat then Panic else
  if new_length <? 0 then Panic else
  if new_length =? 0 then
    if null then Ret (0, r) else Ret (0, mk_runlist [] 0 0)
  else if (elements r =? 0)%nat then truncate_empty r new_length
  else
    e0 ← rd (rl r) 0;
    if new_length <? vcn e0 then Panic else
    let last_element := (elements r - 1)%nat in
    element ← trunc_find (rl r) new_length 0 last_element;
    if (element <? last_element)%nat then truncate_shrink r new_length element
    else truncate_expand r new_length element.

(** ** The specification *)

(** The map of a truncated or extended attribute: what was mapped below the new
    length stays, new VCNs are sparse. *)
Definition truncated (b n : Z) (l l' : list ntfs_rl_element) : Prop :=
  ∀ v, 0 ≤ v < n → lcn_of l' v = if v <? b then lcn_of l v else Some LCN_HOLE.

(** A result of truncation: nothing happened but an error, or the runlist maps
    [0, n), its terminator says that the attribute ends there, and it denotes
    the truncated map. *)
Definition truncate_post (b n : Z) (r : ntfs_runlist) (err : Z) (r' : ntfs_runlist) : Prop :=
  (err = ENOMEM ∧ r' = r) ∨
  (err = 0 ∧ runlist_ok n r' ∧ roomy r' ∧ truncated b n (used r) (used r') ∧
   ∃ t, list.last (used r') = Some t ∧ lcn t = LCN_ENOENT).

Lemma trunc_find_spec p a b l l1 e l2 junk v :
  wf_rl a b l → l = l1 ++ e :: l2 → at_vcn e v →
  trunc_find (p ++ l ++ junk) v (length p) (length l - 1) =
    Ret (length p + length l1)%nat.
Proof.
  revert p a l1. induction l as [|x l IH]; intros p a l1 Hwf E He; [by destruct l1|].
  apply wf_rl_cons_inv in Hwf as (<- & [(?&->&?)|(?&?&Hwf)]).
  - destruct l1 as [|? [|]]; simplify_eq. simpl. f_equal. lia.
  - destruct (wf_rl_head _ _ _ Hwf) as (e1 & l' & -> & He1).
    replace (length (x :: e1 :: l') - 1)%nat with (S (length (e1 :: l') - 1)) by (simpl; lia).
    cbn [trunc_find]. rewrite rd_app_r. simpl. rewrite Nat.sub_0_r.
    unfold rd. simpl.
    destruct l1 as [|x' l1]; [injection E as <- <-|injection E as <- E]; simpl.
    + destruct He as [? [?|?]]; [lia|]. zdec. f_equal. lia.
    + assert (vcn e1 ≤ v).
      { pose proof Hwf as Hwf'. rewrite E in Hwf'.
        apply wf_rl_app_inv in Hwf' as (c & Hs & Hwf'); [|done].
        apply wf_rl_cons_inv in Hwf' as [? _]. apply seg_le in Hs. destruct He. lia. }
      zdec. specialize (IH (p ++ [x]) _ l1 Hwf E He).
      rewrite length_app in IH. simpl in IH.
      rewrite <- (assoc_L (++)), Nat.sub_0_r in IH. simpl in IH. rewrite IH. f_equal. lia.
Qed.

Lemma truncate_post_intro b n l0 junk0 l junk :
  roomy (mk_used (l ++ [mk_rle n LCN_ENOENT 0]) junk) →
  wf_rl 0 n (l ++ [mk_rle n LCN_ENOENT 0]) →
  truncated b n l0 (l ++ [mk_rle n LCN_ENOENT 0]) →
  truncate_post b n (mk_used l0 junk0) 0 (mk_used (l ++ [mk_rle n LCN_ENOENT 0]) junk).
Proof.
  intros Hroom Hwf Ht. right. rewrite !used_mk_used.
  split_and!; [done|by apply runlist_ok_mk_used|done..|].
  eexists. by rewrite last_snoc.
Qed.

Lemma truncate_empty_spec junk n :
  0 < n →
  ∃ err r', truncate_empty (mk_used [] junk) n = Ret (err, r') ∧
    truncate_post 0 n (mk_used [] junk) err r'.
Proof.
  intros Hn. unfold truncate_empty.
  destruct (ntfs_rl_inc_spec [] junk 2 2 eq_refl) as [->|(gap & junk' & Hj & -> & Hroom')];
    [unfold max_elements; simpl; lia|..].
  { eexists _, _. split; [done|by left]. }
  destruct gap as [|x [|y []]]; simplify_eq/=.
  eexists _, _. split; [reflexivity|].
  apply (truncate_post_intro 0 n [] junk [mk_rle 0 LCN_HOLE n] junk'); [done|..].
  - apply wf_rl_cons; [done|done|done|]. by apply wf_rl_one.
  - intros v Hv. zdec. simpl. by zdec.
Qed.

(** Below the end of a common prefix two arrays denote the same map. *)
Lemma lcn_of_prefix a b l1 l2 l2' v :
  seg a b l1 → a ≤ v < b → lcn_of (l1 ++ l2) v = lcn_of (l1 ++ l2') v.
Proof.
  intros Hs Hv. destruct (lcn_of_in _ _ _ _ Hs Hv) as [x E].
  by rewrite !lcn_of_app, E.
Qed.

Lemma truncate_shrink_spec b n l1 e l2 junk :
  roomy (mk_used (l1 ++ e :: l2) junk) → (length (l1 ++ e :: l2) ≤ max_elements)%nat →
  wf_rl 0 b (l1 ++ e :: l2) → at_vcn e n → l2 ≠ [] →
  ∃ r', truncate_shrink (mk_used (l1 ++ e :: l2) junk) n (length l1) = Ret (0, r') ∧
    truncate_post b n (mk_used (l1 ++ e :: l2) junk) 0 r'.
Proof.
  intros Hroom Hmax Hwf He Hl2. unfold roomy in Hroom; simpl in Hroom.
  assert (∀ m, m ≤ length (l1 ++ e :: l2) →
    rl_buffer_count m ≤ length ((l1 ++ e :: l2) ++ junk))%nat as Hc.
  { intros m Hm. etrans; [|exact Hroom]. by apply rl_buffer_count_mono. }
  apply wf_rl_app_inv in Hwf as (c & Hs & Hwf); [|done].
  apply wf_rl_cons_inv in Hwf as (<- & [(?&?&?)|(?&?&Hwf)]); [done|].
  destruct (wf_rl_head _ _ _ Hwf) as (e1 & l' & -> & He1).
  pose proof (wf_rl_le _ _ _ Hwf). pose proof (seg_le _ _ _ Hs).
  destruct He as [Hn1 [?|Hn2]]; [lia|].
  unfold truncate_shrink. simpl. rewrite <- (assoc_L (++)). cbn [app].
  do 2 mem_step. destruct (Z.eqb_spec (n - vcn e) 0) as [Hz|Hnz]; cbn [negb mbind outcome_bind].
  - mem_step. rewrite (mk_used_eq _ _ _ ((l1 ++ [mk_rle n LCN_ENOENT 0]) ++ e1 :: l') junk);
      [|unfold set_lcn, set_len; simpl; rewrite <- !(assoc_L (++)); simpl; do 3 f_equal; lia|len..].
    edestruct (ntfs_rl_shrink_spec (l1 ++ [mk_rle n LCN_ENOENT 0]) (e1 :: l') junk)
      as (junk' & Hsh & Hroom'); [by destruct l1|len| |].
    { rewrite length_app. etrans; [apply Hc|]; len. }
    rewrite length_app in Hsh. simpl in Hsh. rewrite Hsh. simpl.
    eexists. split; [done|]. apply truncate_post_intro; [done|..].
    + apply (wf_rl_app 0 (vcn e)); [done|]. replace n with (vcn e) by lia. by apply wf_rl_one.
    + intros v Hv. zdec. apply (lcn_of_prefix 0 (vcn e)); [done|lia].
  - do 3 mem_step. set (e' := mk_rle (vcn e) (lcn e) (n - vcn e)).
    rewrite (mk_used_eq _ _ _ ((l1 ++ [e'; mk_rle n LCN_ENOENT 0]) ++ l') junk);
      [|simpl; rewrite <- !(assoc_L (++)); done|len..].
    edestruct (ntfs_rl_shrink_spec (l1 ++ [e'; mk_rle n LCN_ENOENT 0]) l' junk)
      as (junk' & Hsh & Hroom'); [by destruct l1|len| |].
    { rewrite length_app. etrans; [apply Hc|]; len. }
    rewrite length_app in Hsh. simpl in Hsh.
    replace (length l1 + 1 + 1)%nat with (length l1 + 2)%nat by lia. rewrite Hsh. simpl.
    eexists. split; [done|].
    change [e'; mk_rle n LCN_ENOENT 0] with ([e'] ++ [mk_rle n LCN_ENOENT 0]).
    rewrite (assoc_L (++)). apply truncate_post_intro; [by rewrite <- (assoc_L (++))|..].
    + rewrite <- (assoc_L (++)). apply (wf_rl_app 0 (vcn e)); [done|].
      apply wf_rl_cons; simpl; [done|lia|done|].
      replace (vcn e + (n - vcn e)) with n by lia. by apply wf_rl_one.
    + intros v Hv. zdec. destruct (decide (v < vcn e)).
      * rewrite <- (assoc_L (++)). apply (lcn_of_prefix 0 (vcn e)); [done|lia].
      * rewrite <- (assoc_L (++)), !lcn_of_app, (lcn_of_ge _ _ _ _ Hs) by lia.
        cbn [lcn_of]. unfold e'; simpl. by zdec.
Qed.

Lemma truncate_expand_spec b n runs t junk :
  roomy (mk_used (runs ++ [t]) junk) →
  (length (runs ++ [t]) < max_elements)%nat → 0 < n → b ≤ n →
  seg 0 b runs → terminator b t →
  ∃ err r', truncate_expand (mk_used (runs ++ [t]) junk) n (length runs) = Ret (err, r') ∧
    truncate_post b n (mk_used (runs ++ [t]) junk) err r'.
Proof.
  unfold roomy. simpl. intros Hroom Hmax Hn Hb Hs (Ht1 & Ht2 & Ht3).
  unfold truncate_expand. simpl.
  rewrite <- (assoc_L (++)). cbn [app]. mem_step. zdec.
  destruct (Z.ltb_spec (vcn t) n) as [Hlt|Hge].
  2: { mem_step. eexists _, _. split; [done|].
    rewrite (mk_used_eq _ _ _ (runs ++ [mk_rle n LCN_ENOENT 0]) junk);
      [|rewrite <- (assoc_L (++)); simpl; unfold set_lcn; do 3 f_equal; lia|len..].
    assert (n = b) as -> by lia. apply truncate_post_intro; [apply roomy_mk_used; len|..].
    - by apply (wf_rl_app 0 b), wf_rl_one.
    - intros v Hv. zdec. by apply (lcn_of_prefix 0 b). }
  destruct (prev_hole_test runs (t :: junk)) as [(runs' & h & -> & Hh & ->)| ->].
  - cbn [mbind outcome_bind]. rewrite !length_app in Hmax |- *. simpl.
    rewrite <- (assoc_L (++)). cbn [app].
    apply seg_app_inv in Hs as (c & Hs & (<- & ? & -> & ?)%seg_one).
    do 4 mem_step.
    eexists _, _. split; [done|].
    rewrite (mk_used_eq _ _ _ ((runs' ++ [mk_rle (vcn h) LCN_HOLE (n - vcn h)]) ++
      [mk_rle n LCN_ENOENT 0]) junk);
      [|rewrite <- !(assoc_L (++)); simpl; unfold set_lcn, set_vcn, set_len; simpl;
        by rewrite Hh, Ht2|len..].
    apply truncate_post_intro; [apply roomy_mk_used; len|rewrite <- (assoc_L (++))..].
    + apply (wf_rl_app 0 (vcn h)); [done|].
      apply wf_rl_cons; simpl; [done|lia|done|].
      replace (vcn h + (n - vcn h)) with n by lia. by apply wf_rl_one.
    + intros v Hv. destruct (decide (v < vcn h)).
      * zdec. rewrite <- (assoc_L (++)). apply (lcn_of_prefix 0 (vcn h)); [done|lia].
      * rewrite !lcn_of_app, (lcn_of_ge _ _ _ _ Hs) by lia.
        cbn [lcn_of]. simpl. unfold run_lcn; simpl. rewrite Hh. zdec. by ztests.
  - cbn [mbind outcome_bind].
    destruct (ntfs_rl_inc_spec (runs ++ [t]) junk 1 1 eq_refl) as [->|(gap & junk' & Hj & -> & Hroom')];
      [lia|..].
    { eexists _, _. split; [done|by left]. }
    destruct gap as [|x []]; simplify_eq/=.
    rewrite <- !(assoc_L (++)). cbn [app]. do 6 mem_step.
    eexists _, _. split; [done|].
    rewrite (mk_used_eq _ _ _ ((runs ++ [mk_rle (vcn t) LCN_HOLE (n - vcn t)]) ++
      [mk_rle n LCN_ENOENT 0]) junk'); [|rewrite <- !(assoc_L (++)); done|len..].
    apply truncate_post_intro; [|rewrite <- (assoc_L (++))..].
    { apply roomy_mk_used. apply roomy_mk_used in Hroom'. by len. }
    + apply (wf_rl_app 0 (vcn t)); [done|].
      apply wf_rl_cons; simpl; [done|lia|done|].
      replace (vcn t + (n - vcn t)) with n by lia. by apply wf_rl_one.
    + intros v Hv. destruct (Z.ltb_spec v (vcn t)).
      * apply (lcn_of_prefix 0 (vcn t)); [done|lia].
      * rewrite !lcn_of_app, (lcn_of_ge _ _ _ _ Hs) by lia. simpl. by zdec.
Qed.

(** A runlist that is empty and maps nothing, or maps [0, b). *)
Definition runlist_inv (b : Z) (r : ntfs_runlist) : Prop :=
  buf_ok r ∧ ((elements r = 0%nat ∧ b = 0) ∨ wf_rl 0 b (used r)).

(** The dispatch of [ntfs_rl_truncate_nolock] on a non-empty runlist. *)
Lemma ntfs_rl_truncate_nolock_dispatch b n l1 e l2 junk :
  wf_rl 0 b (l1 ++ e :: l2) → at_vcn e n → 0 < n →
  ntfs_rl_truncate_nolock (mk_used (l1 ++ e :: l2) junk) n =
    (if decide (l2 = []) then truncate_expand else truncate_shrink)
      (mk_used (l1 ++ e :: l2) junk) n (length l1).
Proof.
  intros Hwf He Hn. unfold ntfs_rl_truncate_nolock. simpl.
  destruct (wf_rl_head _ _ _ Hwf) as (e0 & l0 & El & He0).
  rewrite bool_decide_eq_false_2 by (by rewrite El). simpl.
  rewrite !(proj2 (Nat.eqb_neq _ _)) by len. zdec.
  rewrite (rd_Ret _ _ e0) by (by rewrite El). cbn [mbind outcome_bind]. zdec.
  pose proof (trunc_find_spec [] 0 b _ l1 e l2 junk n Hwf eq_refl He) as Hf.
  cbn [app length Nat.add] in Hf. rewrite Hf. cbn [mbind outcome_bind]. case_decide.
  - subst l2. by rewrite (proj2 (Nat.ltb_ge _ _)) by len.
  - by rewrite (proj2 (Nat.ltb_lt _ _)) by (destruct l2; [done|len]).
Qed.

(** C22: truncating or extending a runlist to [n] clusters never panics when the buffer is
    roomy.  Truncation to 0 empties it; otherwise either the runlist is unchanged and the error is
    ENOMEM, or it maps exactly [0, n), agrees with the old map below the old end, is sparse behind
    it, and its terminator is LCN_ENOENT. *)
Theorem ntfs_rl_truncate_nolock_spec b n r :
  runlist_inv b r → roomy r → (elements r < max_elements)%nat → 0 ≤ n →
  ∃ err r', ntfs_rl_truncate_nolock r n = Ret (err, r') ∧
    if n =? 0 then err = 0 ∧ runlist_inv 0 r' ∧ elements r' = 0%nat
    else truncate_post b n r err r'.
Proof.
  intros [Hb Hinv] Hroom Hmax Hn. destruct (buf_ok_inv r Hb) as [junk E].
  rewrite E in *. rewrite used_mk_used in *. set (l := used r) in *. clearbody l. clear E Hb.
  destruct (Z.eqb_spec n 0) as [->|Hn0].
  { unfold ntfs_rl_truncate_nolock. simpl in *.
    assert (bool_decide (l ++ junk = []) = (length (l ++ junk) =? 0)%nat) as ->
      by (by destruct (l ++ junk)).
    rewrite andb_negb_r, andb_negb_l.
    destruct (Nat.eqb_spec (length (l ++ junk)) 0); eexists _, _; (split; [done|]).
    - assert (l = []) as -> by (destruct l; [done|simpl in *; lia]).
      split_and!; [done| |done]. split; [apply buf_ok_mk_used|by left].
    - split_and!; [done| |done]. split; [done|by left]. }
  destruct Hinv as [[Hl ->]|Hwf].
  { destruct l; [|done]. destruct (truncate_empty_spec junk n) as (err & r' & Heq & ?); [lia|].
    exists err, r'. split; [|done]. rewrite <- Heq. unfold ntfs_rl_truncate_nolock. simpl.
    zdec. by destruct junk. }
  destruct (rl_seek_spec 0 b l [] n) as (l1 & e & l2 & -> & _ & He); [done..|].
  rewrite (ntfs_rl_truncate_nolock_dispatch b) by (done || lia).
  case_decide; [subst l2|].
  - apply wf_rl_app_inv in Hwf as (c & Hs & Hwf); [|done].
    apply wf_rl_cons_inv in Hwf as (<- & [(?&_&<-&?)|(?&?&Hwf)]).
    + apply truncate_expand_spec; [done..|lia|by destruct He|done|done].
    + by apply wf_rl_not_nil in Hwf.
  - destruct (truncate_shrink_spec b n l1 e l2 junk) as (r' & -> & ?);
      [done|simpl in *; lia|done..|]. eauto.
Qed.

(** Truncation inside a run panics when the buffer is smaller than the rounded size of
    the result, for instance when it is exactly full. *)
Theorem ntfs_rl_truncate_nolock_panics b n r l1 e l2 :
  runlist_ok b r → used r = l1 ++ e :: l2 → vcn e < n < vcn e + rlen e →
  (alloc_count r < rl_buffer_count (length l1 + 2))%nat →
  ntfs_rl_truncate_nolock r n = Panic.
Proof.
  intros (l & junk & -> & Hwf)%runlist_ok_inv. rewrite used_mk_used. intros -> Hn Hc.
  assert (0 ≤ vcn e ∧ l2 ≠ []) as [? Hl2].
  { apply wf_rl_app_inv in Hwf as (c & Hs%seg_le & Hwf); [|done].
    apply wf_rl_cons_inv in Hwf as (<- & [(?&?&?)|(?&?&Hwf)]); [lia|].
    split; [done|by eapply wf_rl_not_nil]. }
  rewrite (ntfs_rl_truncate_nolock_dispatch b); [|done|split; lia|lia].
  rewrite decide_False by done. destruct l2 as [|e1 l2]; [done|].
  unfold truncate_shrink. simpl. rewrite <- (assoc_L (++)). cbn [app].
  do 2 mem_step. zdec. do 3 mem_step.
  by rewrite ntfs_rl_shrink_panics by (simpl in *; rewrite <- (assoc_L (++)) in Hc;
    replace (length l1 + 1 + 1)%nat with (length l1 + 2)%nat by lia; len).
Qed.
End truncate.

Lemma ntfs_rl_truncate_nolock_spec_witness :
  ∃ err r', @ntfs_rl_truncate_nolock zero_allocator sample_runlist 7 = Ret (err, r') ∧
    truncate_post 24 7 sample_runlist err r'.
Proof.
  apply (@ntfs_rl_truncate_nolock_spec zero_allocator 24 7); [|apply sample_runlist_roomy|apply few_elements; simpl; lia|lia].
  split; [apply sample_runlist_ok|right; apply sample_runlist_ok].
Defined.

Lemma ntfs_rl_truncate_nolock_panics_witness :
  @ntfs_rl_truncate_nolock zero_allocator
    (mk_used [mk_rle 0 100 10; mk_rle 10 LCN_ENOENT 0] []) 5 = Panic.
Proof.
  apply (@ntfs_rl_truncate_nolock_panics zero_allocator 10 5 _ [] (mk_rle 0 100 10) [mk_rle 10 LCN_ENOENT 0]);
    [|done|simpl; lia|by apply Nat.ltb_lt; vm_compute].
  apply runlist_ok_mk_used. apply wf_rl_cons; [done|simpl; lia|done|by apply wf_rl_one].
Defined.
