(* ===== verification/RunlistPunch.v ===== *)
(** * Runlists: punching holes

    [ntfs_rl_punch_nolock] of [kext/ntfs_runlist.c], with its [goto] targets
    [extend_hole], [shrink_allocation] and [split_end] as definitions, and the
    proof that it makes exactly the requested VCNs sparse. *)

From S2P Require Import Prelude Runlist RunlistBuf.

Section punch.
Context `{!Allocator}.

(** The loop that finds the element containing [end_vcn], from the element
    containing [start_vcn] on: the number of elements passed, or [None] when one
    of them is not mapped ([EINVAL]). *)
Fixpoint punch_find_end (l : list ntfs_rl_element) (end_vcn : Z) : outcome (option nat) :=
  match l with
  | [] => Oob
  | e :: l' =>
      if rlen e =? 0 then Ret (Some 0%nat)
      else match l' with
           | [] => Oob
           | e1 :: _ =>
               if vcn e1 <=? end_vcn then
                 if lcn e <? LCN_HOLE then Ret None
                 else n ← punch_find_end l' end_vcn; Ret (option_map S n)
               else Ret (Some 0%nat)
           end
  end.

(** [shrink_allocation]. *)
Definition punch_shrink_allocation (r : ntfs_runlist) (i rl_end : nat) (hole_size : Z)
    : outcome (Z * ntfs_runlist) :=
  if (i <? rl_end)%nat then
    r ← ntfs_rl_shrink r (Z.to_nat (u32 (Z.of_nat (elements r) - hole_size)));
    Ret (0, r)
  else Ret (0, r).

(** The part of [extend_hole] after the hole itself is done: cut out the elements
    up to [rl_end], then adjust the beginning of the tail. *)
Definition punch_tail (r : ntfs_runlist) (i rl_end : nat) (hole_size end_vcn : Z)
    : outcome (Z * ntfs_runlist) :=
  let i := (i + 1)%nat in
  let hole_size := u32 (hole_size - 1) in
  l ← (if (i <? rl_end)%nat then memmove (rl r) i rl_end (elements r - rl_end)
       else Ret (rl r));
  e ← rd l i;
  l ← (if vcn e <? end_vcn then
         let delta := end_vcn - vcn e in
         l ← upd l i (set_vcn end_vcn);
         l ← upd l i (set_len (rlen e - delta));
         if 0 <=? lcn e then upd l i (set_lcn (lcn e + delta)) else Ret l
       else Ret l);
  punch_shrink_allocation (mk_runlist l (elements r) (alloc_count r)) i rl_end hole_size.

(** [extend_hole]. *)
Definition punch_extend_hole (r : ntfs_runlist) (i rl_end : nat) (hole_size end_vcn : Z)
    : outcome (Z * ntfs_runlist) :=
  e ← rd (rl r) i;
  l ← upd (rl r) i (set_len (end_vcn - vcn e));
  e_end ← rd l rl_end;
  if lcn e_end =? LCN_HOLE then
    e_end ← rd l (rl_end + 1);
    l ← upd l i (set_len (vcn e_end - vcn e));
    punch_tail (mk_runlist l (elements r) (alloc_count r)) i (rl_end + 1)
      (u32 (hole_size + 1)) end_vcn
  else
    punch_tail (mk_runlist l (elements r) (alloc_count r)) i rl_end hole_size end_vcn.

(** [split_end]: shift all the runs up by one and set up the two split runs. *)
Definition punch_split_end (r : ntfs_runlist) (i : nat) (len : Z) (lcn_fixup : bool)
    : outcome (Z * ntfs_runlist) :=
  l ← memmove (rl r) (i + 1) i (elements r - 1 - i);
  l ← upd l i (set_lcn LCN_HOLE);
  l ← upd l i (set_len len);
  let i := (i + 1)%nat in
  e ← rd l i;
  l ← upd l i (set_vcn (vcn e + len));
  l ← (if (0 <=? lcn e) || lcn_fixup then upd l i (set_lcn (lcn e + len)) else Ret l);
  l ← upd l i (set_len (rlen e - len));
  Ret (0, mk_runlist l (elements r) (alloc_count r)).

(** The case of [start_vcn] at the beginning of a run. *)
Definition punch_run_start (r : ntfs_runlist) (i rl_end : nat) (hole_size end_vcn len : Z)
    : outcome (Z * ntfs_runlist) :=
  prev ← (if (0 <? i)%nat then
            p ← rd (rl r) (i - 1); Ret (lcn p =? LCN_HOLE)
          else Ret false);
  if (prev : bool) then
    punch_extend_hole r (i - 1) rl_end (u32 (hole_size + 1)) end_vcn
  else
    e1 ← rd (rl r) (i + 1);
    if vcn e1 <=? end_vcn then
      l ← upd (rl r) i (set_lcn LCN_HOLE);
      punch_extend_hole (mk_runlist l (elements r) (alloc_count r)) i rl_end hole_size end_vcn
    else
      '(err, r) ← ntfs_rl_inc r 1;
      if negb (err =? 0) then Ret (err, r) else punch_split_end r i len false.

(** The case of [start_vcn] inside a real run and [end_vcn] in a hole. *)
Definition punch_end_in_hole (r : ntfs_runlist) (i rl_end : nat) (hole_size start_vcn : Z)
    : outcome (Z * ntfs_runlist) :=
  e ← rd (rl r) i;
  l ← upd (rl r) i (set_len (start_vcn - vcn e));
  let i := (i + 1)%nat in
  let hole_size := u32 (hole_size - 1) in
  l ← (if (i <? rl_end)%nat then memmove l i rl_end (elements r - rl_end) else Ret l);
  l ← upd l i (set_vcn start_vcn);
  e1 ← rd l (i + 1);
  l ← upd l i (set_len (vcn e1 - start_vcn));
  punch_shrink_allocation (mk_runlist l (elements r) (alloc_count r)) i rl_end hole_size.

(** The case of [start_vcn] inside a real run and [end_vcn] in a later one. *)
Definition punch_later_run (r : ntfs_runlist) (i rl_end : nat)
    (hole_size start_vcn end_vcn len : Z) : outcome (Z * ntfs_runlist) :=
  e ← rd (rl r) i;
  e1 ← rd (rl r) (i + 1);
  beyond ← (if negb (rlen e1 =? 0) then
              e2 ← rd (rl r) (i + 2); Ret (vcn e2 <=? end_vcn)
            else Ret false);
  if (beyond : bool) then
    l ← upd (rl r) i (set_len (start_vcn - vcn e));
    let i := (i + 1)%nat in
    let hole_size := u32 (hole_size - 1) in
    l ← upd l i (set_vcn start_vcn);
    l ← upd l i (set_lcn LCN_HOLE);
    punch_extend_hole (mk_runlist l (elements r) (alloc_count r)) i rl_end hole_size end_vcn
  else
    '(err, r) ← ntfs_rl_inc r 1;
    if negb (err =? 0) then Ret (err, r) else
    e ← rd (rl r) i;
    l ← upd (rl r) i (set_len (start_vcn - vcn e));
    let i := (i + 1)%nat in
    e ← rd l i;
    let delta := vcn e - start_vcn in
    l ← upd l i (set_vcn start_vcn);
    '(l, lcn_fixup) ← (if 0 <=? lcn e then
                         l ← upd l i (set_lcn (lcn e - delta)); Ret (l, true)
                       else Ret (l, false));
    l ← upd l i (set_len (rlen e + delta));
    punch_split_end (mk_runlist l (elements r) (alloc_count r)) i len lcn_fixup.

(** The case of [start_vcn] and [end_vcn] inside the same real run: shift the runs
    up by two and set up the three split runs. *)
Definition punch_split_both (r : ntfs_runlist) (i : nat) (start_vcn end_vcn len : Z)
    : outcome (Z * ntfs_runlist) :=
  '(err, r) ← ntfs_rl_inc r 2;
  if negb (err =? 0) then Ret (err, r) else
  l ← memmove (rl r) (i + 2) i (elements r - 2 - i);
  e ← rd l i;
  l ← upd l i (set_len (start_vcn - vcn e));
  let i := (i + 1)%nat in
  l ← upd l i (set_vcn start_vcn);
  l ← upd l i (set_lcn LCN_HOLE);
  l ← upd l i (set_len len);
  let i := (i + 1)%nat in
  e ← rd l i;
  let delta := end_vcn - vcn e in
  l ← upd l i (set_vcn end_vcn);
  l ← upd l i (set_lcn (lcn e + delta));
  l ← upd l i (set_len (rlen e - delta));
  Ret (0, mk_runlist l (elements r) (alloc_count r)).

(** What follows the two searches. *)
Definition punch_dispatch (r : ntfs_runlist) (i rl_end : nat)
    (hole_size start_vcn end_vcn len : Z) : outcome (Z * ntfs_runlist) :=
  e_end ← rd (rl r) rl_end;
  if negb (rlen e_end =? 0) && (lcn e_end <? LCN_HOLE) then Ret (EINVAL, r) else
  if (rlen e_end =? 0) && (vcn e_end <? end_vcn) then Ret (ENOENT, r) else
  if len =? 0 then Ret (0, r) else
  e ← rd (rl r) i;
  if rlen e =? 0 then Ret (ENOENT, r) else
  if lcn e =? LCN_HOLE then
    e1 ← rd (rl r) (i + 1);
    if end_vcn <=? vcn e1 then Ret (0, r)
    else punch_extend_hole r i rl_end hole_size end_vcn
  else if start_vcn =? vcn e then punch_run_start r i rl_end hole_size end_vcn len
  else if lcn e_end =? LCN_HOLE then punch_end_in_hole r i rl_end hole_size start_vcn
  else
    e1 ← rd (rl r) (i + 1);
    if vcn e1 <=? end_vcn then punch_later_run r i rl_end hole_size start_vcn end_vcn len
    else punch_split_both r i start_vcn end_vcn len.

Definition ntfs_rl_punch_nolock (r : ntfs_runlist) (start_vcn len : Z)
    : outcome (Z * ntfs_runlist) :=
  let end_vcn := start_vcn + len in
  if (start_vcn <? 0) || (len <? 0) || (end_vcn <? 0) then Panic else
  if (elements r =? 0)%nat then
    if (start_vcn =? 0) && (len =? 0) then Ret (0, r) else Ret (ENOENT, r)
  else if (alloc_count r =? 0)%nat || bool_decide (rl r = []) then Panic
  else
    i ← rl_seek (rl r) start_vcn;
    n ← punch_find_end (drop i (rl r)) end_vcn;
    match n with
    | None => Ret (EINVAL, r)
    | Some n =>
        punch_dispatch r i (i + n) (u32 (Z.of_nat n)) start_vcn end_vcn len
    end.

(** ** Parts of runs *)

(** A run without its first [n] clusters. *)
Definition run_drop (e : ntfs_rl_element) (n : Z) : ntfs_rl_element :=
  mk_rle (vcn e + n) (if 0 <=? lcn e then lcn e + n else lcn e) (rlen e - n).

Lemma lcn_of_run_drop e n l v :
  0 ≤ n → vcn e + n ≤ v → lcn_of (run_drop e n :: l) v = lcn_of (e :: l) v.
Proof.
  intros. unfold run_drop, run_lcn. simpl. unfold run_lcn. simpl.
  destruct (Z.leb_spec 0 (lcn e)); ztests; first [done|f_equal; lia].
Qed.

Lemma wf_rl_run_drop a b e l n :
  wf_rl a b (e :: l) → 0 ≤ n < rlen e ∨ n = 0 → wf_rl (a + n) b (run_drop e n :: l).
Proof.
  intros (<- & [(?&->&<-&?)|(?&?&?)])%wf_rl_cons_inv Hn; unfold run_drop.
  - assert (n = 0) as -> by lia. rewrite Z.add_0_r. apply wf_rl_one.
    split_and!; simpl; [lia..|]. by ztests.
  - apply wf_rl_cons; simpl; [lia|lia| |].
    + unfold LCN_RL_NOT_MAPPED in *. ztests.
    + by replace (vcn e + n + (rlen e - n)) with (vcn e + rlen e) by lia.
Qed.

(** ** The specification *)

Definition unmapped_in (l : list ntfs_rl_element) (a b : Z) : Prop :=
  ∃ v, a ≤ v ≤ b ∧ lcn_of l v = Some LCN_RL_NOT_MAPPED.

(** The map after punching the hole [start, fin). *)
Definition punched (start fin : Z) (l l' : list ntfs_rl_element) : Prop :=
  ∀ v, lcn_of l' v =
    if (start <=? v) && (v <? fin) then Some LCN_HOLE else lcn_of l v.

(** The shape of every successful outcome: an untouched beginning [pre], one hole
    that covers the requested one and otherwise only what was sparse, and an
    untouched end. *)
Lemma punched_intro a b c start fin l pre tail :
  0 ≤ a ≤ start → start < fin → fin ≤ c →
  seg 0 a pre → wf_rl c b tail → wf_rl 0 b l →
  (∀ v, 0 ≤ v < a → lcn_of pre v = lcn_of l v) →
  (∀ v, a ≤ v < start ∨ fin ≤ v < c → lcn_of l v = Some LCN_HOLE) →
  (∀ v, c ≤ v → lcn_of tail v = lcn_of l v) →
  wf_rl 0 b (pre ++ mk_rle a LCN_HOLE (c - a) :: tail) ∧
  punched start fin l (pre ++ mk_rle a LCN_HOLE (c - a) :: tail).
Proof.
  intros ??? Hs Ht Hl Hp Hh Htl. split.
  - apply (wf_rl_app 0 a); [done|]. apply wf_rl_cons; simpl; [done|lia|done|].
    by replace (a + (c - a)) with c by lia.
  - intros v. rewrite lcn_of_app.
    destruct (decide (v < 0)); [|destruct (decide (v < a)); [|destruct (decide (v < c))]].
    + rewrite (lcn_of_lt _ _ _ _ Hs) by lia. simpl. zdec.
      by rewrite (lcn_of_wf_lt _ _ _ _ Ht), (lcn_of_wf_lt _ _ _ _ Hl) by lia.
    + destruct (lcn_of_in _ _ _ v Hs) as [x Ex]; [lia|]. zdec. by rewrite <- Hp, Ex by lia.
    + rewrite (lcn_of_ge _ _ _ _ Hs) by lia. simpl. zdec. ztests; try done; rewrite Hh; done || lia.
    + rewrite (lcn_of_ge _ _ _ _ Hs) by lia. simpl. zdec. apply Htl. lia.
Qed.

(** ** Moving the tail of the array *)

Lemma memmove_cut (p mid q junk : list ntfs_rl_element) dst src n :
  dst = length p → src = (length p + length mid)%nat → n = length q →
  ∃ junk', memmove (p ++ mid ++ q ++ junk) dst src n = Ret (p ++ q ++ junk') ∧
    length junk' = (length mid + length junk)%nat.
Proof.
  intros -> -> ->. exists (drop (length p + length q) (p ++ mid ++ q ++ junk)). unfold memmove.
  rewrite memcpy_Ret by len. rewrite <- drop_drop, take_app_length, drop_app_length.
  rewrite drop_app_length, take_app_length. split; [done|len].
Qed.

Lemma memmove_open (p q gap junk : list ntfs_rl_element) dst src n :
  dst = (length p + length gap)%nat → src = length p → n = length q →
  memmove (p ++ q ++ gap ++ junk) dst src n =
    Ret (p ++ take (length gap) (q ++ gap) ++ q ++ junk).
Proof.
  intros -> -> ->. unfold memmove. rewrite memcpy_Ret by len.
  rewrite take_app_add, drop_app_length, take_app_length, <- !drop_drop, drop_app_length.
  rewrite drop_drop, (Nat.add_comm (length gap)), <- drop_drop, drop_app_length.
  rewrite drop_app_length, (assoc_L (++) q), (take_app_le (q ++ gap)) by len.
  by rewrite <- !(assoc_L (++)).
Qed.

(** The counter of elements to cut out. *)
Lemma hole_size_dec n : (S n ≤ max_elements)%nat → u32 (u32 (Z.of_nat (S n)) - 1) = Z.of_nat n.
Proof. intros ?%max_elements_u32. rewrite (uwrap_id _ (Z.of_nat (S n))), uwrap_id; lia. Qed.

Lemma punch_shrink_allocation_spec p mid q junk n c :
  p ≠ [] → (length (p ++ mid ++ q) ≤ max_elements)%nat →
  n = length (p ++ mid ++ q) → c = length (p ++ q ++ junk) →
  (length mid ≤ length junk)%nat →
  (rl_buffer_count n ≤ c)%nat →
  ∃ junk', punch_shrink_allocation (mk_runlist (p ++ q ++ junk) n c)
      (length p) (length p + length mid) (Z.of_nat (length mid)) =
    Ret (0, mk_used (p ++ q) junk') ∧ roomy (mk_used (p ++ q) junk').
Proof.
  intros Hp Hm -> -> Hj Hc. unfold punch_shrink_allocation. simpl.
  assert (rl_buffer_count (length (p ++ q)) ≤ length (p ++ q ++ junk))%nat as Hc'.
  { etrans; [|exact Hc]. apply rl_buffer_count_mono; len. }
  destruct (Nat.ltb_spec (length p) (length p + length mid)) as [Hmid|Hmid].
  - rewrite (mk_used_eq _ _ _ ((p ++ q) ++ take (length mid) junk) (drop (length mid) junk));
      [|by rewrite <- !(assoc_L (++)), take_drop|len..].
    replace (Z.to_nat _) with (length (p ++ q))
      by (pose proof (max_elements_u32 _ Hm); rewrite uwrap_id; len).
    destruct (ntfs_rl_shrink_spec (p ++ q) (take (length mid) junk) (drop (length mid) junk))
      as (junk' & -> & ?); [by destruct p|len|by rewrite <- (assoc_L (++) (p ++ q)), take_drop, <- (assoc_L (++))|].
    simpl. eauto.
  - exists junk. rewrite (mk_used_eq _ _ _ (p ++ q) junk);
      [|by rewrite (assoc_L (++))|destruct mid; len..].
    split; [done|]. apply roomy_mk_used. len.
Qed.

(** Cutting out [mid], whether or not there is anything to cut out. *)
Lemma punch_cut (p mid q junk : list ntfs_rl_element) n :
  n = length (p ++ mid ++ q) →
  ∃ junk', (if (length p <? length p + length mid)%nat
            then memmove (p ++ mid ++ q ++ junk) (length p) (length p + length mid)
                   (n - (length p + length mid))
            else Ret (p ++ mid ++ q ++ junk)) = Ret (p ++ q ++ junk') ∧
    length junk' = (length mid + length junk)%nat.
Proof.
  intros ->. destruct (Nat.ltb_spec (length p) (length p + length mid)).
  - apply memmove_cut; len.
  - exists junk. destruct mid; [done|len].
Qed.

Lemma punch_tail_spec l1 h mid x q junk fin hs :
  (length (l1 ++ h :: mid ++ x :: q) ≤ max_elements)%nat →
  roomy (mk_used (l1 ++ h :: mid ++ x :: q) junk) →
  hs = u32 (Z.of_nat (S (length mid))) →
  ∃ junk', punch_tail (mk_used (l1 ++ h :: mid ++ x :: q) junk) (length l1)
      (length l1 + 1 + length mid) hs fin =
    Ret (0, mk_used (l1 ++ h :: (if vcn x <? fin then run_drop x (fin - vcn x) else x) :: q) junk')
    ∧ roomy (mk_used (l1 ++ h :: (if vcn x <? fin then run_drop x (fin - vcn x) else x) :: q) junk').
Proof.
  intros Hm Hroom%roomy_mk_used ->. unfold punch_tail.
  rewrite hole_size_dec by len. simpl.
  replace ((l1 ++ h :: mid ++ x :: q) ++ junk) with ((l1 ++ [h]) ++ mid ++ (x :: q) ++ junk)
    by (by app_norm).
  destruct (punch_cut (l1 ++ [h]) mid (x :: q) junk (length (l1 ++ h :: mid ++ x :: q)))
    as (junk1 & Hcut & Hj1); [len|].
  replace (length (l1 ++ [h])) with (length l1 + 1)%nat in Hcut by len.
  rewrite Hcut. cbn [mbind outcome_bind].
  rewrite <- !(assoc_L (++) l1 [h]). cbn [app]. mem_step.
  set (x' := if vcn x <? fin then run_drop x (fin - vcn x) else x).
  assert ((if vcn x <? fin then
      upd (l1 ++ h :: x :: q ++ junk1) (length l1 + 1) (set_vcn fin) ≫= λ l,
      upd l (length l1 + 1) (set_len (rlen x - (fin - vcn x))) ≫= λ l,
      if 0 <=? lcn x then upd l (length l1 + 1) (set_lcn (lcn x + (fin - vcn x))) else Ret l
    else Ret (l1 ++ h :: x :: q ++ junk1)) = Ret (l1 ++ h :: x' :: q ++ junk1)) as ->.
  { unfold x', run_drop. destruct (Z.ltb_spec (vcn x) fin); [|done].
    replace (vcn x + (fin - vcn x)) with fin by lia. do 2 mem_step.
    destruct (Z.leb_spec 0 (lcn x)); [|done].
    by erewrite (upd_at l1 _ 1). }
  cbn [mbind outcome_bind].
  destruct (punch_shrink_allocation_spec (l1 ++ [h]) mid (x' :: q) junk1
    (length (l1 ++ h :: mid ++ x :: q)) (length (l1 ++ h :: x' :: q ++ junk1)))
    as (junk' & Hsh & Hr); [by destruct l1|len..|].
  app_norm_in Hsh. app_norm_in Hr.
  replace (length (l1 ++ [h])) with (length l1 + 1)%nat in Hsh by len.
  exists junk'. split; [|done]. rewrite <- Hsh. f_equal. f_equal. len.
Qed.

Lemma rd_deep {A} (p q s : list A) h i n x :
  n = (length p + 1 + length q + i)%nat → rd s i = Ret x → rd (p ++ h :: q ++ s) n = Ret x.
Proof.
  intros -> Hs. change (h :: q ++ s) with ((h :: q) ++ s). rewrite (assoc_L (++)).
  apply (rd_at (p ++ h :: q) s i); [len|done].
Qed.

Lemma hole_size_inc n : (S n ≤ max_elements)%nat → u32 (u32 (Z.of_nat n) + 1) = u32 (Z.of_nat (S n)).
Proof. intros ?%max_elements_u32. rewrite (uwrap_id _ (Z.of_nat n)) by lia. f_equal. lia. Qed.

(** What [extend_hole] leaves behind the hole: [tail] maps from [c] on what [q]
    maps, and all [q] maps from [fin] to [c] is sparse. *)
Definition hole_tail (b fin c : Z) (q tail : list ntfs_rl_element) : Prop :=
  fin ≤ c ∧ wf_rl c b tail ∧ (∀ v, c ≤ v → lcn_of tail v = lcn_of q v) ∧
  (∀ v, fin ≤ v < c → lcn_of q v = Some LCN_HOLE).

Lemma hole_tail_drop b fin g l2 :
  wf_rl (vcn g) b (g :: l2) → at_vcn g fin → (rlen g = 0 → fin ≤ vcn g) →
  hole_tail b fin fin (g :: l2)
    ((if vcn g <? fin then run_drop g (fin - vcn g) else g) :: l2).
Proof.
  intros Hwf [Hg1 Hg2] Hg3. destruct (Z.ltb_spec (vcn g) fin).
  - split_and!; [done| |intros; apply lcn_of_run_drop; lia|lia].
    replace fin with (vcn g + (fin - vcn g)) at 1 by lia. apply wf_rl_run_drop; [done|lia].
  - assert (fin = vcn g) as -> by lia. by split_and!; [done..|lia].
Qed.

Lemma hole_tail_next b fin g x q :
  wf_rl (vcn g) b (g :: x :: q) → lcn g = LCN_HOLE → at_vcn g fin →
  hole_tail b fin (vcn x) (g :: x :: q) (x :: q).
Proof.
  intros (_ & [(?&?&?)|(Hg & _ & Hwf)])%wf_rl_cons_inv Hh [Hg1 Hg2]; [done|].
  destruct (wf_rl_cons_inv _ _ _ _ Hwf) as [Hx _]. rewrite Hx.
  split_and!; [lia|done|..]; intros v Hv; cbn [lcn_of]; zdec; [done|].
  unfold run_lcn. by rewrite Hh.
Qed.

Lemma punch_extend_hole_spec b l1 h mid g l2 junk fin hs :
  (length (l1 ++ h :: mid ++ g :: l2) ≤ max_elements)%nat →
  roomy (mk_used (l1 ++ h :: mid ++ g :: l2) junk) →
  hs = u32 (Z.of_nat (S (length mid))) →
  wf_rl (vcn g) b (g :: l2) → at_vcn g fin → (rlen g = 0 → fin ≤ vcn g) →
  ∃ c tail junk', punch_extend_hole (mk_used (l1 ++ h :: mid ++ g :: l2) junk) (length l1)
      (length l1 + 1 + length mid) hs fin =
    Ret (0, mk_used (l1 ++ mk_rle (vcn h) (lcn h) (c - vcn h) :: tail) junk')
    ∧ roomy (mk_used (l1 ++ mk_rle (vcn h) (lcn h) (c - vcn h) :: tail) junk')
    ∧ hole_tail b fin c (g :: l2) tail.
Proof.
  intros Hm Hroom -> Hwf Hg Hg0. unfold punch_extend_hole. simpl. app_norm.
  do 2 mem_step. set (h' := set_len _ _).
  rewrite (rd_deep _ _ _ _ 0 (length l1 + 1 + length mid) g), bind_Ret by (done || lia).
  destruct (Z.eqb_spec (lcn g) LCN_HOLE) as [Hh|Hh].
  - destruct l2 as [|x q].
    { by apply wf_rl_cons_inv in Hwf as (_ & [(_&_&_&?)|(_&_&?%wf_rl_not_nil)]); [lia|]. }
    cbn [app]. rewrite (rd_deep _ _ _ _ 1 _ x), bind_Ret by (done || lia).
    mem_step. rewrite hole_size_inc by len.
    destruct (punch_tail_spec l1 (set_len (vcn x - vcn h) h') (mid ++ [g]) x q junk fin
      (u32 (Z.of_nat (S (S (length mid)))))) as (junk' & Ht & Hr);
      [len|eapply roomy_same; [done|len..]|do 2 f_equal; len|].
    pose proof (hole_tail_next b fin g x q Hwf Hh Hg) as Hht.
    assert ((vcn x <? fin) = false) as Hlt by (apply Z.ltb_ge; by destruct Hht).
    rewrite Hlt in Ht, Hr.
    exists (vcn x), (x :: q), junk'. split_and!; [|done|done].
    etrans; [|exact Ht]. f_equal; [|len]. apply mk_used_eq; [by app_norm|len..].
  - destruct (punch_tail_spec l1 h' mid g l2 junk fin (u32 (Z.of_nat (S (length mid)))))
      as (junk' & Ht & Hr); [len|eapply roomy_same; [done|len..]|done|].
    eexists fin, _, junk'. split_and!; [|exact Hr|by apply hole_tail_drop].
    etrans; [|exact Ht]. f_equal. apply mk_used_eq; [by app_norm|len..].
Qed.

Lemma punch_split_end_spec l1 e l2 x junk n fx :
  punch_split_end (mk_used ((l1 ++ e :: l2) ++ [x]) junk) (length l1) n fx =
    Ret (0, mk_used (l1 ++ mk_rle (vcn e) LCN_HOLE n ::
      mk_rle (vcn e + n) (if (0 <=? lcn e) || fx then lcn e + n else lcn e) (rlen e - n) :: l2)
      junk).
Proof.
  unfold punch_split_end. simpl. app_norm.
  pose proof (memmove_open l1 (e :: l2) [x] junk (length l1 + 1) (length l1)
    (length (l1 ++ e :: l2 ++ [x]) - 1 - length l1)) as Hm.
  cbn [app take length] in Hm. rewrite Hm by len. cbn [mbind outcome_bind].
  repeat mem_step. cbn [vcn lcn rlen set_vcn set_lcn set_len].
  destruct ((0 <=? lcn e) || fx); cbn [mbind outcome_bind]; repeat mem_step;
    do 2 f_equal; apply mk_used_eq; by app_norm || len.
Qed.

Lemma punch_split_both_spec l1 e l2 junk start fin n :
  l2 ≠ [] → (length (l1 ++ e :: l2) + 2 ≤ max_elements)%nat →
  punch_split_both (mk_used (l1 ++ e :: l2) junk) (length l1) start fin n =
    Ret (ENOMEM, mk_used (l1 ++ e :: l2) junk) ∨
  ∃ junk', let l' := l1 ++ mk_rle (vcn e) (lcn e) (start - vcn e) :: mk_rle start LCN_HOLE n ::
      mk_rle fin (lcn e + (fin - vcn e)) (rlen e - (fin - vcn e)) :: l2 in
    punch_split_both (mk_used (l1 ++ e :: l2) junk) (length l1) start fin n =
      Ret (0, mk_used l' junk') ∧ roomy (mk_used l' junk').
Proof.
  intros Hl2 Hm. unfold punch_split_both.
  destruct (ntfs_rl_inc_spec (l1 ++ e :: l2) junk 2 2 eq_refl) as [->|(gap & junk' & Hj & -> & Hroom)];
    [done|by left|right].
  destruct gap as [|x [|y []]]; simplify_eq/=. exists junk'. split.
  - app_norm. destruct l2 as [|e1 l2]; [done|].
    pose proof (memmove_open l1 (e :: e1 :: l2) [x; y] junk' (length l1 + 2) (length l1)
      (length (l1 ++ e :: (e1 :: l2) ++ [x; y]) - 2 - length l1)) as Hmv.
    cbn [app take length] in Hmv |- *. rewrite Hmv by len. cbn [mbind outcome_bind].
    repeat mem_step. do 2 f_equal. apply mk_used_eq; by app_norm || len.
  - eapply roomy_same; [done|len..].
Qed.

Lemma punch_end_in_hole_spec l1 e mid g x q junk start :
  (length (l1 ++ e :: mid ++ g :: x :: q) ≤ max_elements)%nat →
  roomy (mk_used (l1 ++ e :: mid ++ g :: x :: q) junk) →
  ∃ junk', let l' := l1 ++ mk_rle (vcn e) (lcn e) (start - vcn e) ::
      mk_rle start (lcn g) (vcn x - start) :: x :: q in
    punch_end_in_hole (mk_used (l1 ++ e :: mid ++ g :: x :: q) junk) (length l1)
      (length l1 + S (length mid)) (u32 (Z.of_nat (S (length mid)))) start =
      Ret (0, mk_used l' junk') ∧ roomy (mk_used l' junk').
Proof.
  intros Hm Hroom. set (e' := mk_rle (vcn e) (lcn e) (start - vcn e)).
  set (g' := mk_rle start (lcn g) (vcn x - start)).
  unfold punch_end_in_hole. rewrite hole_size_dec by len. simpl. app_norm.
  do 2 mem_step. change (set_len (start - vcn e) e) with e'.
  destruct (punch_cut (l1 ++ [e']) mid (g :: x :: q) junk
    (length (l1 ++ e :: mid ++ g :: x :: q))) as (junk1 & Hc & Hj1); [glen|].
  replace (length (l1 ++ [e'])) with (length l1 + 1)%nat in Hc by glen.
  app_norm_in Hc.
  replace (length l1 + S (length mid))%nat with (length l1 + 1 + length mid)%nat by lia.
  rewrite Hc. cbn [mbind outcome_bind]. do 3 mem_step.
  change (set_len _ _) with g'.
  destruct (punch_shrink_allocation_spec (l1 ++ [e']) mid (g' :: x :: q) junk1
    (length (l1 ++ e :: mid ++ g :: x :: q)) (length (l1 ++ e :: mid ++ g :: x :: q ++ junk)))
    as (junk' & Hsh & Hr); [by destruct l1|len..| |].
  { apply roomy_mk_used in Hroom. etrans; [exact Hroom|glen]. }
  exists junk'. replace (length (l1 ++ [e'])) with (length l1 + 1)%nat in Hsh by glen.
  app_norm_in Hsh. app_norm_in Hr. done.
Qed.

(** ** The two searches *)

Definition mapped (e : ntfs_rl_element) : Prop := LCN_HOLE ≤ lcn e.

Lemma punch_find_end_cons e e1 l fin :
  0 < rlen e →
  punch_find_end (e :: e1 :: l) fin =
    if vcn e1 <=? fin then
      if lcn e <? LCN_HOLE then Ret None
      else n ← punch_find_end (e1 :: l) fin; Ret (option_map S n)
    else Ret (Some 0%nat).
Proof. intros. simpl. by rewrite (proj2 (Z.eqb_neq (rlen e) 0)) by lia. Qed.

Lemma punch_find_end_spec a b l junk fin :
  wf_rl a b l → a ≤ fin →
  (punch_find_end (l ++ junk) fin = Ret None ∧
   ∃ p x q, l = p ++ x :: q ∧ lcn x = LCN_RL_NOT_MAPPED ∧ 0 < rlen x ∧ vcn x + rlen x ≤ fin) ∨
  (∃ p g q, l = p ++ g :: q ∧ punch_find_end (l ++ junk) fin = Ret (Some (length p)) ∧
   at_vcn g fin ∧ Forall mapped p).
Proof.
  revert a. induction l as [|e l IH]; intros a Hwf Ha; [by apply wf_rl_not_nil in Hwf|].
  apply wf_rl_cons_inv in Hwf as (<- & [(Hz & -> & _)|(Hz & Hlcn & Hwf)]).
  { right. exists [], e, []. split_and!; [done| |by split; [|left]|done].
    simpl. by rewrite Hz. }
  destruct (wf_rl_head _ _ _ Hwf) as (e1 & l' & -> & He1).
  cbn [app]. rewrite punch_find_end_cons by done.
  destruct (Z.leb_spec (vcn e1) fin) as [Hle|Hgt].
  2: { right. exists [], e, (e1 :: l'). split_and!; [done..|split; [done|right; lia]|done]. }
  destruct (Z.ltb_spec (lcn e) LCN_HOLE) as [Hu|Hu].
  { left. split; [done|]. exists [], e, (e1 :: l').
    unfold LCN_RL_NOT_MAPPED, LCN_HOLE in *. split_and!; [done|lia..]. }
  destruct (IH (vcn e1)) as [(Hf & p & x & q & E & ?)|(p & g & q & E & Hf & ? & ?)];
    [by rewrite He1|done|..]; cbn [app] in Hf; rewrite Hf; cbn [mbind outcome_bind option_map].
  - left. split; [done|]. exists (e :: p), x, q. by rewrite E.
  - right. exists (e :: p), g, q. rewrite E. split_and!; [done..|by constructor].
Qed.

Lemma lcn_of_mapped l v x : Forall mapped l → lcn_of l v = Some x → LCN_HOLE ≤ x.
Proof.
  unfold mapped, LCN_HOLE. induction 1 as [|e l He Hl IH]; simpl; [done|].
  destruct (_ && _) eqn:E; [|done]. zbool. unfold run_lcn. intros [= <-]. ztests.
Qed.

Lemma lcn_of_prefix_eq a p q v : seg 0 a p → 0 ≤ v < a → lcn_of (p ++ q) v = lcn_of p v.
Proof. intros Hs Hv. rewrite lcn_of_app. by destruct (lcn_of_in _ _ _ _ Hs Hv) as [x ->]. Qed.

Lemma lcn_of_suffix_eq a p q v : seg 0 a p → a ≤ v → lcn_of (p ++ q) v = lcn_of q v.
Proof. intros Hs Hv. by rewrite lcn_of_app, (lcn_of_ge _ _ _ _ Hs Hv). Qed.

(** An unmapped run that touches [start, fin]. *)
Lemma unmapped_intro b l p x q start fin :
  wf_rl 0 b l → l = p ++ x :: q → lcn x = LCN_RL_NOT_MAPPED → 0 < rlen x →
  start < vcn x + rlen x → vcn x ≤ fin → start ≤ fin → unmapped_in l start fin.
Proof.
  intros Hwf -> Hx Hz H1 H2 H3. exists (Z.max start (vcn x)). split; [lia|].
  apply wf_rl_app_inv in Hwf as (c & Hs & Hwf); [|done].
  destruct (wf_rl_cons_inv _ _ _ _ Hwf) as [<- _].
  rewrite (lcn_of_suffix_eq (vcn x)) by (done || lia). simpl. zdec.
  unfold run_lcn. by rewrite Hx.
Qed.

(** No unmapped run touches [start, fin]. *)
Lemma mapped_intro b c l l1 m g q start fin :
  wf_rl 0 b l → l = l1 ++ m ++ g :: q → seg 0 c l1 → c ≤ start →
  Forall mapped m → at_vcn g fin → (rlen g ≠ 0 → mapped g) → ¬ unmapped_in l start fin.
Proof.
  intros Hwf -> Hs Hc Hm Hg Hg0 (v & Hv & E).
  assert (∃ d, seg 0 d (l1 ++ m) ∧ wf_rl d b (g :: q)) as (d & Hd & Hwg)
    by (apply wf_rl_app_inv; [by app_norm|done]).
  rewrite (lcn_of_suffix_eq c) in E by (done || lia). rewrite lcn_of_app in E.
  destruct (lcn_of m v) eqn:Em.
  { injection E as ->. by apply lcn_of_mapped in Em. }
  apply wf_rl_cons_inv in Hwg as (<- & [(Hz & -> & <- & ?)|(Hz & ? & Hwq)]).
  - cbn [lcn_of] in E. destruct (_ && _) eqn:Ev; [zbool; lia|done].
  - destruct Hg as [Hg1 [?|Hg2]]; [lia|].
    destruct (decide (vcn g ≤ v)).
    + assert (lcn_of [g] v = Some LCN_RL_NOT_MAPPED) as E'.
      { revert E. cbn [lcn_of]. by zdec. }
      apply lcn_of_mapped in E'; [done|]. constructor; [apply Hg0; lia|done].
    + destruct (lcn_of_in _ _ _ v Hd) as [y Ey]; [apply seg_le in Hs; lia|].
      rewrite lcn_of_app, Em, (lcn_of_ge _ _ _ _ Hs) in Ey by lia. done.
Qed.

(** ** The cases of the dispatch *)

Lemma punch_finish b a cq c start fin l pre tail p q :
  l = p ++ q → seg 0 cq p → cq ≤ fin → wf_rl 0 b l → hole_tail b fin c q tail →
  seg 0 a pre → a ≤ start → start < fin →
  (∀ v, 0 ≤ v < a → lcn_of pre v = lcn_of l v) →
  (∀ v, a ≤ v < start → lcn_of l v = Some LCN_HOLE) →
  wf_rl 0 b (pre ++ mk_rle a LCN_HOLE (c - a) :: tail) ∧
  punched start fin l (pre ++ mk_rle a LCN_HOLE (c - a) :: tail).
Proof.
  intros -> Hp Hcq Hwf (Hc & Ht & Hlk & Hh) Hpre Ha Hlt Hl1 Hl2. pose proof (seg_le _ _ _ Hpre).
  apply punched_intro; auto with lia.
  - intros v [Hv|Hv]; [by apply Hl2|]. rewrite (lcn_of_suffix_eq cq) by (done || lia). by apply Hh.
  - intros v Hv. rewrite (lcn_of_suffix_eq cq) by (done || lia). by apply Hlk.
Qed.

Definition punch_done (b start fin : Z) (l junk : list ntfs_rl_element)
    (m : outcome (Z * ntfs_runlist)) : Prop :=
  m = Ret (ENOMEM, mk_used l junk) ∨
  ∃ l' junk', m = Ret (0, mk_used l' junk') ∧ roomy (mk_used l' junk') ∧
    wf_rl 0 b l' ∧ punched start fin l l'.

Section cases.
Context (b start fin : Z) (l1 l2 p q junk : list ntfs_rl_element) (e g : ntfs_rl_element).
Context (El : e :: l2 = p ++ g :: q) (Hwf : wf_rl 0 b (l1 ++ e :: l2)).
Context (Hmax : (length (l1 ++ e :: l2) + 2 ≤ max_elements)%nat).
Context (Hroom : roomy (mk_used (l1 ++ e :: l2) junk)).
Context (He : vcn e ≤ start < vcn e + rlen e) (Hg : at_vcn g fin).
Context (Hg0 : rlen g = 0 → fin ≤ vcn g) (Hlt : start < fin).

Lemma case_l1 : seg 0 (vcn e) l1 ∧ LCN_RL_NOT_MAPPED ≤ lcn e ∧ wf_rl (vcn e + rlen e) b l2.
Proof.
  apply wf_rl_app_inv in Hwf as (c & Hs & Hwf'); [|done].
  apply wf_rl_cons_inv in Hwf' as (<- & [(?&?&?)|(?&?&?)]); [lia|done].
Qed.

Lemma case_g : seg 0 (vcn g) (l1 ++ p) ∧ wf_rl (vcn g) b (g :: q).
Proof.
  pose proof Hwf as Hwf'. rewrite El, (assoc_L (++)) in Hwf'.
  apply wf_rl_app_inv in Hwf' as (c & Hs & Hwf'); [|done].
  by destruct (wf_rl_cons_inv _ _ _ _ Hwf') as [<- _].
Qed.

Lemma case_pre v : 0 ≤ v < vcn e → lcn_of l1 v = lcn_of (l1 ++ e :: l2) v.
Proof. destruct case_l1 as (Hs & _). intros. by rewrite (lcn_of_prefix_eq (vcn e)). Qed.

Lemma case_in v : vcn e ≤ v < vcn e + rlen e → lcn_of (l1 ++ e :: l2) v = Some (run_lcn e v).
Proof.
  destruct case_l1 as (Hs & _). intros. rewrite (lcn_of_suffix_eq (vcn e)) by (done || lia).
  simpl. by zdec.
Qed.

(** The run of [start_vcn] cut off at [start_vcn]. *)
Lemma case_cut :
  vcn e < start →
  seg 0 start (l1 ++ [mk_rle (vcn e) (lcn e) (start - vcn e)]) ∧
  (∀ v, 0 ≤ v < start → lcn_of (l1 ++ [mk_rle (vcn e) (lcn e) (start - vcn e)]) v =
     lcn_of (l1 ++ e :: l2) v).
Proof.
  intros Hs. destruct case_l1 as (Hl1 & ? & _). split.
  - apply (seg_app 0 (vcn e)); [done|]. apply seg_cons'; simpl; [done|lia|done|].
    replace (vcn e + (start - vcn e)) with start by lia. constructor.
  - intros v Hv. destruct (decide (v < vcn e)).
    + by rewrite (lcn_of_prefix_eq (vcn e)), case_pre by (done || lia).
    + rewrite case_in by lia. rewrite (lcn_of_suffix_eq (vcn e)) by (done || lia).
      simpl. by zdec.
Qed.

Lemma case_extend l1' mid i rl_end hs a :
  length (l1 ++ e :: l2) = (length l1' + 1 + length mid + 1 + length q)%nat → i = length l1' →
  rl_end = (length l1' + 1 + length mid)%nat → hs = u32 (Z.of_nat (S (length mid))) →
  seg 0 a l1' → a ≤ start →
  (∀ v, 0 ≤ v < a → lcn_of l1' v = lcn_of (l1 ++ e :: l2) v) →
  (∀ v, a ≤ v < start → lcn_of (l1 ++ e :: l2) v = Some LCN_HOLE) →
  ∀ n, punch_done b start fin (l1 ++ e :: l2) junk
    (punch_extend_hole (mk_used (l1' ++ mk_rle a LCN_HOLE n :: mid ++ g :: q) junk)
       i rl_end hs fin).
Proof.
  intros E -> -> -> Hl1' Ha Hv1 Hv2 n. right.
  assert (length (l1' ++ mk_rle a LCN_HOLE n :: mid ++ g :: q) = length (l1 ++ e :: l2))
    as Elen by (rewrite E; glen).
  destruct case_g as [Hp Hwg].
  destruct (punch_extend_hole_spec b l1' (mk_rle a LCN_HOLE n) mid g q junk fin
    (u32 (Z.of_nat (S (length mid))))) as (c & tail & junk' & Hx & Hr & Ht);
    [lia|eapply roomy_same; [exact Hroom|done..]|done..|].
  destruct (punch_finish b a (vcn g) c start fin (l1 ++ e :: l2) l1' tail (l1 ++ p) (g :: q))
    as [??]; [by rewrite El, (assoc_L (++))|done|by destruct Hg|done..|].
  eauto 10.
Qed.

Lemma run_drop_at : (if vcn g <? fin then run_drop g (fin - vcn g) else g) = run_drop g (fin - vcn g).
Proof.
  destruct Hg as [? _]. destruct (Z.ltb_spec (vcn g) fin); [done|].
  replace (fin - vcn g) with 0 by lia. unfold run_drop. destruct g; simpl.
  rewrite Z.add_0_r, Z.sub_0_r, Z.add_0_r. by case_match.
Qed.

(** The hole ends inside [g], which stays real from [fin] on. *)
Lemma case_split pre :
  seg 0 start pre → (∀ v, 0 ≤ v < start → lcn_of pre v = lcn_of (l1 ++ e :: l2) v) →
  let l' := pre ++ mk_rle start LCN_HOLE (fin - start) :: run_drop g (fin - vcn g) :: q in
  wf_rl 0 b l' ∧ punched start fin (l1 ++ e :: l2) l'.
Proof.
  intros Hpre Hv. destruct case_g as [Hp Hwg].
  apply (punch_finish b start (vcn g) fin start fin _ pre _ (l1 ++ p) (g :: q)); try done; [|by destruct Hg| |lia].
  - by rewrite El, (assoc_L (++)).
  - rewrite <- run_drop_at. by apply hole_tail_drop.
Qed.

Lemma case_split_end r i :
  p = [] → start = vcn e → i = length l1 → r = mk_used (l1 ++ e :: l2) junk →
  punch_done b start fin (l1 ++ e :: l2) junk
    ('(err, r) ← ntfs_rl_inc r 1;
     if negb (err =? 0) then Ret (err, r) else punch_split_end r i (fin - start) false).
Proof.
  intros Hp Hs -> ->. destruct case_l1 as [Hl1 _].
  destruct (case_split l1) as [Hw Hpu];
    [by rewrite Hs|intros; apply case_pre; by rewrite <- Hs|].
  pose proof El as El'. rewrite Hp in El'. injection El' as Eg Eq.
  rewrite <- Eg, <- Eq, Hs in Hw, Hpu.
  destruct (ntfs_rl_inc_spec (l1 ++ e :: l2) junk 1 1 eq_refl) as [->|(gap & junk' & Hj & -> & Hr)];
    [lia|by left|right].
  destruct gap as [|x []]; try done. cbn. rewrite punch_split_end_spec, orb_false_r.
  eexists _, junk'. split; [done|]. split; [eapply roomy_same; [done|len..]|].
  rewrite Hs. split; [exact Hw|exact Hpu].
Qed.

(** The elements passed by the second search start with [e]. *)
Lemma case_mid : p = [] ∧ e = g ∧ l2 = q ∨ ∃ mid, p = e :: mid ∧ l2 = mid ++ g :: q.
Proof. pose proof El as El'. destruct p as [|e' mid]; injection El' as -> ->; eauto. Qed.

(** If the hole does not end in the run of [start_vcn], it reaches the next run. *)
Lemma case_next mid : p = e :: mid → vcn e + rlen e ≤ vcn g ≤ fin.
Proof.
  intros Hp. destruct case_g as [Hs _]. rewrite Hp in Hs.
  apply seg_middle_inv in Hs as (_ & _ & _ & ?%seg_le). by destruct Hg.
Qed.

Lemma case_run_start :
  start = vcn e →
  punch_done b start fin (l1 ++ e :: l2) junk
    (punch_run_start (mk_used (l1 ++ e :: l2) junk) (length l1) (length l1 + length p)
       (u32 (Z.of_nat (length p))) fin (fin - start)).
Proof.
  intros Hs. pose proof case_l1 as (Hl1 & _ & Hw2). unfold punch_run_start. simpl.
  assert (length (l1 ++ e :: l2) = length l1 + length p + 1 + length q)%nat as Elen
    by (rewrite El; glen).
  rewrite <- (assoc_L (++)). cbn [app].
  destruct (prev_hole_test l1 (e :: l2 ++ junk)) as [(l1' & h & E1 & Hh & ->)| ->];
    cbn [mbind outcome_bind].
  - rewrite hole_size_inc by lia. pose proof Hl1 as Hs1. rewrite E1 in Hs1.
    apply seg_app_inv in Hs1 as (a & Hl1' & (<- & ? & Ea & ?)%seg_one).
    replace (l1 ++ e :: l2) with (l1' ++ mk_rle (vcn h) LCN_HOLE (rlen h) :: p ++ g :: q) at 2
      by (rewrite <- El, E1, <- Hh; app_norm; by destruct h).
    assert (length l1 = length l1' + 1)%nat by (rewrite E1; glen).
    apply case_extend; [lia..|done|done|lia| |].
    + intros v Hv. rewrite E1. app_norm. by rewrite (lcn_of_prefix_eq (vcn h)).
    + intros v Hv. rewrite E1. app_norm. rewrite (lcn_of_suffix_eq (vcn h)) by (done || lia).
      simpl. zdec. unfold run_lcn. by rewrite Hh.
  - destruct (wf_rl_head _ _ _ Hw2) as (e1 & l2' & E2 & He1).
    rewrite (rd_at l1 (e :: l2 ++ junk) 1 _ e1), bind_Ret by (lia || by rewrite E2).
    destruct case_mid as [(Hp & Eg & Eq)|(mid & Hp & Eq)].
    + pose proof Hg as [_ Hg']. rewrite <- Eg in Hg'.
      rewrite (proj2 (Z.leb_gt _ _)) by lia. by apply case_split_end.
    + pose proof (case_next mid Hp). rewrite (proj2 (Z.leb_le _ _)) by lia.
      rewrite upd_middle. cbn [mbind outcome_bind].
      rewrite (mk_used_eq _ _ _ (l1 ++ mk_rle start LCN_HOLE (rlen e) :: mid ++ g :: q) junk);
        [|unfold set_lcn; rewrite Hs, Eq; by app_norm|rewrite Eq; glen|glen].
      apply case_extend; rewrite ?Hp; [rewrite Eq; glen|done|glen|done| |lia| |lia].
      * by rewrite Hs.
      * rewrite Hs. apply case_pre.
Qed.

Lemma case_end_in_hole mid :
  p = e :: mid → vcn e < start → lcn g = LCN_HOLE →
  punch_done b start fin (l1 ++ e :: l2) junk
    (punch_end_in_hole (mk_used (l1 ++ e :: l2) junk) (length l1) (length l1 + length p)
       (u32 (Z.of_nat (length p))) start).
Proof.
  intros Hp Hs Hh. right. destruct case_g as [Hsg Hwg]. destruct (case_cut Hs) as [Hcut Hv].
  pose proof El as El'. rewrite Hp in El'. injection El' as El'.
  assert (∃ x q', q = x :: q') as (x & q' & Eq).
  { destruct (wf_rl_cons_inv _ _ _ _ Hwg) as (_ & [(_&_&_&?)|(_&_&Hwq)]); [lia|].
    destruct (wf_rl_head _ _ _ Hwq) as (x & q' & ? & _). eauto. }
  destruct (punch_end_in_hole_spec l1 e mid g x q' junk start) as (junk' & Hx & Hr);
    [rewrite <- Eq, <- El'; lia|by rewrite <- Eq, <- El'|].
  rewrite <- Eq in Hr. rewrite <- Eq, <- El' in Hx. rewrite Hp. cbn [length]. eexists _, junk'.
  split; [exact Hx|]. split; [exact Hr|]. rewrite Hh, !(cons_middle (mk_rle _ _ _) l1), (assoc_L (++) l1 [_]).
  apply (punch_finish b start (vcn g) (vcn x) start fin _ _ _ (l1 ++ p) (g :: q));
    try done; [by rewrite El, (assoc_L (++))|by destruct Hg| |lia].
  rewrite Eq in Hwg |- *. by apply hole_tail_next.
Qed.

Lemma case_later_beyond m0 mid :
  p = e :: m0 :: mid → vcn e < start →
  punch_done b start fin (l1 ++ e :: l2) junk
    (punch_later_run (mk_used (l1 ++ e :: l2) junk) (length l1) (length l1 + length p)
       (u32 (Z.of_nat (length p))) start fin (fin - start)).
Proof.
  intros Hp Hs. destruct case_g as [Hsg Hwg]. destruct (case_cut Hs) as [Hcut Hv].
  pose proof El as El'. rewrite Hp in El'. injection El' as El'.
  assert (0 < rlen m0 ∧ ∃ x s, mid ++ g :: q = x :: s ∧ vcn x ≤ fin) as (Hz & x & s & Ex & Hx).
  { rewrite Hp in Hsg. apply seg_app_inv in Hsg as (c & _ & Hsg).
    apply seg_cons_inv in Hsg as (_ & _ & _ & (_ & ? & _ & Hmid)%seg_cons_inv).
    split; [done|]. destruct Hg as [? _]. destruct mid as [|x mid]; simpl; [eauto|].
    apply seg_cons_inv in Hmid as (Hxv & ? & _ & ?%seg_le). eexists _, _. split; [done|lia]. }
  unfold punch_later_run. rewrite Hp. simpl rl. simpl elements. simpl alloc_count.
  cbn [length]. rewrite hole_size_dec by (rewrite El' in Hmax; len).
  rewrite El', <- (assoc_L (++)). cbn [app]. rewrite Ex.
  cbn [app]. do 2 mem_step. zdec. mem_step. zdec. do 3 mem_step.
  rewrite (mk_used_eq _ _ _ ((l1 ++ [mk_rle (vcn e) (lcn e) (start - vcn e)]) ++
    mk_rle start LCN_HOLE (rlen m0) :: mid ++ g :: q) junk);
    [|rewrite Ex; app_norm; done|rewrite Ex; glen|glen].
  rewrite <- Ex, <- El'.
  apply case_extend; [rewrite El'; glen|glen|glen| |done|lia|done|lia].
  rewrite El' in Hmax. symmetry. apply uwrap_id.
  assert (S (length mid) ≤ max_elements)%nat as ?%max_elements_u32 by len. lia.
Qed.

Lemma case_later_next :
  p = [e] → vcn e < start →
  punch_done b start fin (l1 ++ e :: l2) junk
    (punch_later_run (mk_used (l1 ++ e :: l2) junk) (length l1) (length l1 + length p)
       (u32 (Z.of_nat (length p))) start fin (fin - start)).
Proof.
  intros Hp Hs. destruct case_g as [Hsg Hwg]. destruct (case_cut Hs) as [Hcut Hv].
  destruct (case_split _ Hcut Hv) as [Hw Hpu].
  pose proof El as El'. rewrite Hp in El'. injection El' as El'.
  unfold punch_later_run. simpl. rewrite <- (assoc_L (++)), El'. cbn [app]. do 2 mem_step.
  assert ((if negb (rlen g =? 0) then
      rd (l1 ++ e :: g :: q ++ junk) (length l1 + 2) ≫= (λ e2, Ret (vcn e2 <=? fin))
    else Ret false) = Ret false) as ->.
  { apply wf_rl_cons_inv in Hwg as (_ & [(Hz & _)|(Hz & _ & Hwq)]); [by rewrite Hz|].
    rewrite (proj2 (Z.eqb_neq _ _)) by lia. cbn [negb].
    destruct (wf_rl_head _ _ _ Hwq) as (x & q' & -> & Hx). cbn [app]. mem_step.
    pose proof Hg as [_ ?]. f_equal. apply Z.leb_gt. lia. }
  cbn [mbind outcome_bind]. rewrite <- El'.
  destruct (ntfs_rl_inc_spec (l1 ++ e :: l2) junk 1 1 eq_refl) as [->|(gap & junk' & Hj & -> & Hr)];
    [lia|by left|right].
  destruct gap as [|x []]; try done. cbn -[app length]. rewrite El'. app_norm. do 4 mem_step.
  cbn [vcn lcn rlen set_vcn set_lcn set_len].
  set (e' := mk_rle (vcn e) (lcn e) (start - vcn e)) in *.
  set (g' := mk_rle start (if 0 <=? lcn g then lcn g - (vcn g - start) else lcn g)
               (rlen g + (vcn g - start))).
  assert (run_drop g (fin - vcn g) =
    mk_rle (vcn g' + (fin - start))
      (if (0 <=? lcn g') || (0 <=? lcn g) then lcn g' + (fin - start) else lcn g')
      (rlen g' - (fin - start))) as Eg.
  { unfold run_drop, g'. simpl. destruct (Z.leb_spec 0 (lcn g));
      [rewrite orb_true_r|rewrite (proj2 (Z.leb_gt _ _)) by lia; simpl]; f_equal; lia. }
  pose proof (punch_split_end_spec (l1 ++ [e']) g' q x junk' (fin - start) (0 <=? lcn g)) as Hsp.
  rewrite <- Eg in Hsp. eexists _, junk'. split; [etrans; [|exact Hsp]|].
  - unfold g'. destruct (0 <=? lcn g); cbn [mbind outcome_bind]; repeat mem_step;
      cbn [mbind outcome_bind]; repeat mem_step; f_equal; [|glen| |glen];
      (apply mk_used_eq; [by app_norm|glen..]).
  - split; [|by rewrite El' in Hpu]. eapply roomy_same; [exact Hr|rewrite El'; glen|done].
Qed.

Lemma case_split_both :
  p = [] → vcn e < start → 0 ≤ lcn e →
  punch_done b start fin (l1 ++ e :: l2) junk
    (punch_split_both (mk_used (l1 ++ e :: l2) junk) (length l1) start fin (fin - start)).
Proof.
  intros Hp Hs Hlcn. pose proof case_l1 as (_ & _ & Hw2). destruct (case_cut Hs) as [Hcut Hv].
  destruct (case_split _ Hcut Hv) as [Hw Hpu].
  pose proof El as El'. rewrite Hp in El'. injection El' as Eg Eq.
  rewrite <- Eg, <- Eq in Hw, Hpu. app_norm_in Hw. app_norm_in Hpu.
  assert (run_drop e (fin - vcn e) = mk_rle fin (lcn e + (fin - vcn e)) (rlen e - (fin - vcn e)))
    as Er by (unfold run_drop; zdec; f_equal; lia).
  rewrite Er in Hw, Hpu.
  destruct (punch_split_both_spec l1 e l2 junk start fin (fin - start)) as [?|(junk' & ? & ?)];
    [by eapply wf_rl_not_nil|done|by left|right; eauto 10].
Qed.

Lemma case_dispatch :
  (rlen e ≠ 0 → mapped e) → (rlen g ≠ 0 → mapped g) →
  punch_done b start fin (l1 ++ e :: l2) junk
    (punch_dispatch (mk_used (l1 ++ e :: l2) junk) (length l1) (length l1 + length p)
       (u32 (Z.of_nat (length p))) start fin (fin - start)).
Proof.
  intros Hme Hmg. pose proof case_l1 as (Hl1 & _ & Hw2). specialize (Hme ltac:(lia)).
  unfold mapped, LCN_HOLE in Hme. unfold punch_dispatch. simpl rl.
  assert (rd ((l1 ++ e :: l2) ++ junk) (length l1 + length p) = Ret g) as Hrdg
    by (rewrite El, (assoc_L (++)), <- (assoc_L (++) (l1 ++ p)); apply rd_Ret, list_lookup_middle; glen).
  rewrite Hrdg, bind_Ret.
  destruct (wf_rl_head _ _ _ Hw2) as (e1 & l2' & E2 & He1).
  assert (rd ((l1 ++ e :: l2) ++ junk) (length l1 + 1) = Ret e1) as Hrd1
    by (rewrite E2, <- (assoc_L (++)); by apply (rd_at l1 _ 1)).
  replace (negb (rlen g =? 0) && (lcn g <? LCN_HOLE)) with false
    by (unfold mapped in Hmg; destruct (Z.eqb_spec (rlen g) 0); [done|]; symmetry; apply Z.ltb_ge; auto).
  replace ((rlen g =? 0) && (vcn g <? fin)) with false
    by (destruct (Z.eqb_spec (rlen g) 0); [symmetry; apply Z.ltb_ge; auto|done]).
  assert (rd ((l1 ++ e :: l2) ++ junk) (length l1) = Ret e) as Hrde
    by (rewrite <- (assoc_L (++)); apply rd_middle).
  zdec. rewrite Hrde, bind_Ret. zdec. rewrite Hrd1, !bind_Ret, He1. pose proof Hg as [Hg1 Hg2].
  destruct (Z.eqb_spec (lcn e) LCN_HOLE) as [Hh|Hh].
  - destruct (Z.leb_spec fin (vcn e + rlen e)).
    + right. eexists _, _. split_and!; [done..|]. intros v.
      destruct (Z.leb_spec start v), (Z.ltb_spec v fin); try done. simpl.
      rewrite case_in by lia. unfold run_lcn. by rewrite Hh.
    + destruct case_mid as [(Hp & Eg & Eq)|(mid & Hp & Eq)]; [rewrite Eg in *; lia|].
      rewrite Hp. replace (l1 ++ e :: l2)
        with (l1 ++ mk_rle (vcn e) LCN_HOLE (rlen e) :: mid ++ g :: q) at 2
        by (rewrite Eq, <- Hh; by destruct e).
      apply case_extend; [rewrite Eq; glen|done|glen|done|done|lia|apply case_pre|].
      intros v Hv. rewrite case_in by lia. unfold run_lcn. by rewrite Hh.
  - unfold LCN_HOLE in Hh. destruct (Z.eqb_spec start (vcn e)) as [Hs|Hs]; [by apply case_run_start|].
    destruct case_mid as [(Hp & Eg & Eq)|(mid & Hp & Eq)].
    + rewrite <- Eg in Hg2 |- *. zdec. rewrite (proj2 (Z.eqb_neq _ _)) by done.
      apply case_split_both; [done|lia..].
    + pose proof (case_next mid Hp). destruct (Z.eqb_spec (lcn g) LCN_HOLE).
      * apply (case_end_in_hole mid); [done|lia|done].
      * zdec. destruct mid as [|m0 mid]; [apply case_later_next|apply (case_later_beyond m0 mid)]; done || lia.
Qed.
End cases.

(** The checks before any modification. *)
Lemma punch_dispatch_unmapped r i k hs start fin n g :
  rd (rl r) k = Ret g → rlen g ≠ 0 → ¬ mapped g →
  punch_dispatch r i k hs start fin n = Ret (EINVAL, r).
Proof.
  unfold mapped. intros Hg Hz Hm. unfold punch_dispatch. rewrite Hg, bind_Ret. by zdec.
Qed.

Lemma punch_dispatch_beyond r i k hs start fin n g :
  rd (rl r) k = Ret g → rlen g = 0 → vcn g < fin →
  punch_dispatch r i k hs start fin n = Ret (ENOENT, r).
Proof. intros Hg Hz Hm. unfold punch_dispatch. rewrite Hg, bind_Ret. by zdec. Qed.

Lemma punch_dispatch_empty r i k hs start fin g :
  rd (rl r) k = Ret g → (rlen g ≠ 0 → mapped g) → (rlen g = 0 → fin ≤ vcn g) →
  punch_dispatch r i k hs start fin 0 = Ret (0, r).
Proof.
  unfold mapped. intros Hg Hz Hm. unfold punch_dispatch. rewrite Hg, bind_Ret.
  destruct (Z.eqb_spec (rlen g) 0); cbn [negb andb].
  - by rewrite (proj2 (Z.ltb_ge _ _)) by auto.
  - by rewrite (proj2 (Z.ltb_ge _ _)) by auto.
Qed.

Definition punch_post (b start fin : Z) (r : ntfs_runlist) (err : Z) (r' : ntfs_runlist) : Prop :=
  (err = EINVAL ∧ r' = r ∧ unmapped_in (used r) start fin) ∨
  (¬ unmapped_in (used r) start fin ∧
   ((err = ENOENT ∧ r' = r ∧ b < fin) ∨
    (fin ≤ b ∧
     ((err = ENOMEM ∧ r' = r) ∨
      (err = 0 ∧ runlist_ok b r' ∧ roomy r' ∧ punched start fin (used r) (used r')))))).

(** After the two searches: a hole inside the runlist. *)
Lemma punch_searched_ok b l1 e l2 p g q junk start n :
  wf_rl 0 b (l1 ++ e :: l2) → e :: l2 = p ++ g :: q → roomy (mk_used (l1 ++ e :: l2) junk) →
  (length (l1 ++ e :: l2) + 2 ≤ max_elements)%nat → 0 ≤ start → 0 < n → start + n ≤ b →
  at_vcn e start → at_vcn g (start + n) → Forall mapped p → (rlen g ≠ 0 → mapped g) →
  (rlen g = 0 → start + n ≤ vcn g) → ¬ unmapped_in (l1 ++ e :: l2) start (start + n) →
  ∃ err r', punch_dispatch (mk_used (l1 ++ e :: l2) junk) (length l1) (length l1 + length p)
      (u32 (Z.of_nat (length p))) start (start + n) n = Ret (err, r') ∧
    punch_post b start (start + n) (mk_used (l1 ++ e :: l2) junk) err r'.
Proof.
  intros Hwf El Hroom Hmax Hs Hn Hb [He1 He2] Hg Hp Hm Hgz Hnu.
  assert (vcn e ≤ start < vcn e + rlen e) as He.
  { apply wf_rl_app_inv in Hwf as (c & _ & Hwe); [|done].
    apply wf_rl_cons_inv in Hwe as (<- & [(_&_&?&_)|(?&_&_)]); lia. }
  assert (rlen e ≠ 0 → mapped e) as Hme.
  { destruct p as [|e' p]; injection El as -> _; [done|]. by inversion Hp. }
  pose proof (case_dispatch b start (start + n) l1 l2 p q junk e g El Hwf Hmax Hroom He Hg Hgz
    ltac:(lia) Hme Hm) as Hd. replace (start + n - start) with n in Hd by lia.
  destruct Hd as [Hx|(l' & junk' & Hx & ? & ? & ?)]; rewrite Hx; eexists _, _; (split; [done|]);
    right; rewrite !used_mk_used; (split; [done|]); right; (split; [done|]); [by left|right].
  split_and!; [done|by apply runlist_ok_mk_used|done..].
Qed.

(** After the two searches, with all the checks. *)
Lemma punch_searched b l1 e l2 p g q junk start n :
  wf_rl 0 b (l1 ++ e :: l2) → e :: l2 = p ++ g :: q → roomy (mk_used (l1 ++ e :: l2) junk) →
  (length (l1 ++ e :: l2) + 2 ≤ max_elements)%nat → 0 ≤ start → 0 ≤ n →
  at_vcn e start → at_vcn g (start + n) → Forall mapped p →
  ∃ err r', punch_dispatch (mk_used (l1 ++ e :: l2) junk) (length l1) (length l1 + length p)
      (u32 (Z.of_nat (length p))) start (start + n) n = Ret (err, r') ∧
    punch_post b start (start + n) (mk_used (l1 ++ e :: l2) junk) err r'.
Proof.
  intros Hwf El Hroom Hmax Hs Hn He Hg Hp.
  assert (rd (rl (mk_used (l1 ++ e :: l2) junk)) (length l1 + length p) = Ret g) as Hrd.
  { simpl. rewrite El, (assoc_L (++)), <- (assoc_L (++) (l1 ++ p)).
    apply rd_Ret, list_lookup_middle; glen. }
  pose proof Hwf as Hwf'. apply wf_rl_app_inv in Hwf' as (c & Hl1 & Hwe); [|done].
  destruct (wf_rl_cons_inv _ _ _ _ Hwe) as [Hc _]. rewrite El in Hwe.
  destruct He as [He1 He2]. pose proof Hg as [Hg1 Hg2].
  destruct (decide (rlen g = 0 ∨ mapped g)) as [Hm|Hm].
  2: { assert (0 < rlen g ∧ lcn g = LCN_RL_NOT_MAPPED) as [??].
    { apply wf_rl_app_inv in Hwe as (d & _ & Hwg); [|done]. unfold mapped in Hm.
      apply wf_rl_cons_inv in Hwg as (_ & [(?&_)|(?&?&_)]); [lia|].
      unfold LCN_RL_NOT_MAPPED, LCN_HOLE in *. lia. }
    eexists _, _. split; [apply (punch_dispatch_unmapped _ _ _ _ _ _ _ g); auto with lia|]. left.
    rewrite used_mk_used. split_and!; [done..|]. eapply (unmapped_intro b _ (l1 ++ p) g q);
      [done|by rewrite El, (assoc_L (++))|done|lia..]. }
  assert (rlen g ≠ 0 → mapped g) as Hm' by (by destruct Hm).
  assert (¬ unmapped_in (l1 ++ e :: l2) start (start + n)) as Hnu.
  { eapply (mapped_intro b c _ l1 p g q); [done|by rewrite El|done|lia|done..]. }
  assert (rlen g = 0 → vcn g = b) as Hgb.
  { apply wf_rl_app_inv in Hwe as (d & _ & Hwg); [|done].
    apply wf_rl_cons_inv in Hwg as (-> & [(_&_&->&_)|(?&_&_)]); [done|lia]. }
  assert (rlen g ≠ 0 → start + n ≤ b) as Hgb'.
  { apply wf_rl_app_inv in Hwe as (d & _ & Hwg); [|done].
    apply wf_rl_cons_inv in Hwg as (<- & [(?&_)|(_&_&?%wf_rl_le)]); lia. }
  destruct (decide (rlen g = 0 ∧ vcn g < start + n)) as [[??]|Hin].
  { eexists _, _. split; [by apply (punch_dispatch_beyond _ _ _ _ _ _ _ g)|].
    right. rewrite used_mk_used. split; [done|]. left. split_and!; [done..|lia]. }
  assert (start + n ≤ b) by (destruct (decide (rlen g = 0)); lia || auto).
  destruct (Z.eq_dec n 0) as [->|Hnz].
  { eexists _, _. split; [apply (punch_dispatch_empty _ _ _ _ _ _ g); [done|done|lia]|].
    right. rewrite used_mk_used. split; [done|]. right. split; [done|]. right.
    split_and!; [done|by apply runlist_ok_mk_used|done|]. intros v. rewrite Z.add_0_r. by ztests. }
  apply (punch_searched_ok b l1 e l2 p g q junk start n); auto with lia; by split.
Qed.

(** C15: punching the hole [start, start + n) into a well-formed runlist never panics, when its buffer is as
    large as [ntfs_rl_inc] makes it ([roomy]; otherwise [ntfs_rl_shrink] can panic) and two more elements
    stay within the limit of the 32 bit sizes.  It is rejected with EINVAL when a
    cluster of the range or the one behind it is not mapped, with ENOENT when the range leaves
    the runlist, and fails with ENOMEM, the runlist being unchanged; otherwise the new runlist is
    well formed and maps the range to a hole and every other VCN as before. *)
Theorem ntfs_rl_punch_nolock_spec b r start n :
  runlist_ok b r → roomy r → (elements r + 2 ≤ max_elements)%nat → 0 ≤ start → 0 ≤ n →
  ∃ err r', ntfs_rl_punch_nolock r start n = Ret (err, r') ∧
    punch_post b start (start + n) r err r'.
Proof.
  intros (l & junk & -> & Hwf)%runlist_ok_inv Hroom Hmax Hs Hn. simpl in Hmax.
  unfold ntfs_rl_punch_nolock. simpl rl. simpl elements. simpl alloc_count. zdec.
  pose proof (wf_rl_not_nil _ _ _ Hwf) as Hnil.
  assert (0 < length l)%nat by (destruct l; simpl; [done|lia]).
  rewrite length_app, !(proj2 (Nat.eqb_neq _ _)) by lia.
  rewrite bool_decide_eq_false_2 by (by destruct l). simpl.
  destruct (rl_seek_spec 0 b l junk start) as (l1 & e & l2 & -> & -> & He); [done..|].
  cbn [mbind outcome_bind]. rewrite <- (assoc_L (++)), drop_app_length.
  pose proof Hwf as Hwf'. apply wf_rl_app_inv in Hwf' as (c & Hl1 & Hwe); [|done].
  destruct (wf_rl_cons_inv _ _ _ _ Hwe) as [Hc _]. pose proof He as [He1 He2].
  destruct (punch_find_end_spec c b (e :: l2) junk (start + n))
    as [(-> & p & x & q & E & Hx & Hz & Hfin)|(p & g & q & E & -> & Hg & Hp)]; [done|lia|..].
  - eexists _, _. split; [done|]. left. rewrite used_mk_used. split_and!; [done..|].
    apply (unmapped_intro b _ (l1 ++ p) x q); [done|by rewrite E, (assoc_L (++))|done|done| |lia|lia].
    destruct p as [|e' p]; injection E as <- E; [lia|].
    apply wf_rl_cons_inv in Hwe as (_ & [(_&->&_)|(?&_&Hw2)]); [by destruct p|].
    rewrite E in Hw2. apply wf_rl_app_inv in Hw2 as (d & ?%seg_le & Hwx); [|done].
    destruct (wf_rl_cons_inv _ _ _ _ Hwx) as [<- _]. lia.
  - by apply (punch_searched b l1 e l2 p g q).
Qed.
End punch.

Lemma ntfs_rl_punch_nolock_spec_witness :
  ∃ err r', @ntfs_rl_punch_nolock zero_allocator sample_runlist 3 9 = Ret (err, r') ∧
    punch_post 24 3 (3 + 9) sample_runlist err r'.
Proof.
  apply (@ntfs_rl_punch_nolock_spec zero_allocator);
    [apply sample_runlist_ok|apply sample_runlist_roomy|apply Nat.lt_le_incl, few_elements; simpl; lia|lia..].
Defined.
