(* ===== verification/RunlistMerge.v ===== *)
(** * Runlists: merging

    [ntfs_rl_merge] of [kext/ntfs_runlist.c] with the four ways to put a source
    runlist into a destination runlist: [ntfs_rl_replace], [ntfs_rl_insert],
    [ntfs_rl_append] and [ntfs_rl_split].  The theorems give the map of the
    merged runlist when the source fills (a part of) a hole or unmapped region
    and when it extends the destination. *)

From S2P Require Import Prelude Runlist RunlistBuf.

(** ** Operations *)

Definition ntfs_rl_can_merge (dst src : ntfs_rl_element) : bool :=
  if (lcn dst =? LCN_RL_NOT_MAPPED) && (lcn src =? LCN_RL_NOT_MAPPED) then true
  else if negb (vcn dst + rlen dst =? vcn src) then false
  else if (0 <=? lcn dst) && (0 <=? lcn src) && (lcn dst + rlen dst =? lcn src) then true
  else if (lcn dst =? LCN_HOLE) && (lcn src =? LCN_HOLE) then true
  else false.

(** [__ntfs_rl_merge]: the new contents of [dst]. *)
Definition rl_merge_run (dst src : ntfs_rl_element) : ntfs_rl_element :=
  set_len (rlen dst + rlen src) dst.

(** [d_rl[i].vcn = d_rl[i - 1].vcn + d_rl[i - 1].length]. *)
Definition set_vcn_after (d : list ntfs_rl_element) (i : nat) : outcome (list ntfs_rl_element) :=
  p ← rd d (i - 1); upd d i (set_vcn (vcn p + rlen p)).

(** [d_rl[i].length = d_rl[i + 1].vcn - d_rl[i].vcn]. *)
Definition set_len_before (d : list ntfs_rl_element) (i : nat) : outcome (list ntfs_rl_element) :=
  n ← rd d (i + 1); e ← rd d i; upd d i (set_len (vcn n - vcn e)).

Section merge.
Context `{!Allocator}.

(** [src] is the array from the first element to insert on.  The variable [delta]
    is a 64-bit [long] computed from [unsigned] operands. *)
Definition ntfs_rl_replace (r : ntfs_runlist) (src : list ntfs_rl_element) (s_size loc : nat)
    : outcome (Z * ntfs_runlist) :=
  if (s_size =? 0)%nat then Panic else
  let d_elements := elements r in
  lft ← (if (0 <? loc)%nat then
            p ← rd (rl r) (loc - 1); s ← rd src 0;
            Ret (Nat.b2n (ntfs_rl_can_merge p s))
          else Ret 0%nat);
  rgt ← (if (loc + 1 <? d_elements)%nat then
             s ← rd src (s_size - 1); n ← rd (rl r) (loc + 1);
             Ret (Nat.b2n (ntfs_rl_can_merge s n))
           else Ret 0%nat);
  let marker := (loc + s_size - lft)%nat in
  let tail := (loc + 1 + rgt)%nat in
  let delta := u32 (Z.of_nat s_size - 1 - Z.of_nat lft - Z.of_nat rgt) in
  '(err, r) ← (if 0 <? delta then ntfs_rl_inc r delta else Ret (0, r));
  if negb (err =? 0) then Ret (err, r) else
  src ← (if (0 <? rgt)%nat then
           n ← rd (rl r) (loc + 1); upd src (s_size - 1) (λ e, rl_merge_run e n)
         else Ret src);
  d ← (if (0 <? lft)%nat then
         s ← rd src 0; upd (rl r) (loc - 1) (λ e, rl_merge_run e s)
       else Ret (rl r));
  d ← ntfs_rl_move d marker tail (d_elements - tail);
  d ← ntfs_rl_copy d loc src lft (s_size - lft);
  d ← (if (0 <? d_elements - tail)%nat then
         m ← rd d marker;
         if lcn m =? LCN_ENOENT then set_vcn_after d marker else Ret d
       else Ret d);
  let n := if delta <? 0 then Z.to_nat (Z.of_nat (elements r) + delta) else elements r in
  Ret (0, mk_runlist d n (alloc_count r)).

Definition ntfs_rl_insert (r : ntfs_runlist) (src : list ntfs_rl_element) (s_size loc : nat)
    : outcome (Z * ntfs_runlist) :=
  if (s_size =? 0)%nat then Panic else
  let d_elements := elements r in
  s ← rd src 0;
  '(lft, disc) ←
    (if (loc =? 0)%nat then Ret (0%nat, Nat.b2n (0 <? vcn s))
     else
       p ← rd (rl r) (loc - 1);
       let lft := ntfs_rl_can_merge p s in
       let merged_length := rlen p + (if lft then rlen s else 0) in
       Ret (Nat.b2n lft, Nat.b2n (vcn p + merged_length <? vcn s)));
  '(err, r) ← ntfs_rl_inc r (Z.of_nat (s_size - lft + disc));
  if negb (err =? 0) then Ret (err, r) else
  d ← (if (0 <? lft)%nat then upd (rl r) (loc - 1) (λ e, rl_merge_run e s)
       else Ret (rl r));
  let marker := (loc + s_size - lft + disc)%nat in
  d ← ntfs_rl_move d marker loc (d_elements - loc);
  d ← ntfs_rl_copy d (loc + disc) src lft (s_size - lft);
  d ← set_vcn_after d marker;
  m ← rd d marker;
  d ← (if (lcn m =? LCN_HOLE) || (lcn m =? LCN_RL_NOT_MAPPED) then set_len_before d marker
       else Ret d);
  d ← (if (0 <? disc)%nat then
         d ← (if (0 <? loc)%nat then d ← set_vcn_after d loc; set_len_before d loc
              else
                d ← upd d loc (set_vcn 0);
                n ← rd d (loc + 1); upd d loc (set_len (vcn n)));
         upd d loc (set_lcn LCN_RL_NOT_MAPPED)
       else Ret d);
  Ret (0, mk_runlist d (elements r) (alloc_count r)).

Definition ntfs_rl_append (r : ntfs_runlist) (src : list ntfs_rl_element) (s_size loc : nat)
    : outcome (Z * ntfs_runlist) :=
  if (s_size =? 0)%nat then Panic else
  let d_elements := elements r in
  rgt ← (if (loc + 1 <? d_elements)%nat then
             s ← rd src (s_size - 1); n ← rd (rl r) (loc + 1);
             Ret (Nat.b2n (ntfs_rl_can_merge s n))
           else Ret 0%nat);
  '(err, r) ← ntfs_rl_inc r (Z.of_nat (s_size - rgt));
  if negb (err =? 0) then Ret (err, r) else
  src ← (if (0 <? rgt)%nat then
           n ← rd (rl r) (loc + 1); upd src (s_size - 1) (λ e, rl_merge_run e n)
         else Ret src);
  let marker := (loc + s_size + 1)%nat in
  d ← ntfs_rl_move (rl r) marker (loc + 1 + rgt) (d_elements - (loc + 1 + rgt));
  d ← ntfs_rl_copy d (loc + 1) src 0 s_size;
  d ← set_len_before d loc;
  m ← rd d marker;
  d ← (if lcn m =? LCN_ENOENT then set_vcn_after d marker else Ret d);
  Ret (0, mk_runlist d (elements r) (alloc_count r)).

Definition ntfs_rl_split (r : ntfs_runlist) (src : list ntfs_rl_element) (s_size loc : nat)
    : outcome (Z * ntfs_runlist) :=
  if (s_size =? 0)%nat then Panic else
  '(err, r) ← ntfs_rl_ins r (loc + 1) (s_size + 1);
  if negb (err =? 0) then Ret (err, r) else
  d ← ntfs_rl_copy (rl r) (loc + 1) src 0 s_size;
  d ← set_len_before d loc;
  e ← rd d loc;
  d ← upd d (loc + s_size + 1) (set_lcn (lcn e));
  d ← set_vcn_after d (loc + s_size + 1);
  d ← set_len_before d (loc + s_size + 1);
  Ret (0, mk_runlist d (elements r) (alloc_count r)).

(** [while (s_rl[si].length && s_rl[si].lcn < LCN_HOLE) si++;] *)
Fixpoint merge_skip_unmapped (s : list ntfs_rl_element) : outcome nat :=
  match s with
  | [] => Oob
  | e :: s' =>
      if negb (rlen e =? 0) && (lcn e <? LCN_HOLE) then S <$> merge_skip_unmapped s'
      else Ret 0%nat
  end.

(** [for (d_ins = 0; d_rl[d_ins].length; d_ins++) if (d_rl[d_ins + 1].vcn > v)
    break;] *)
Fixpoint merge_find_ins (d : list ntfs_rl_element) (v : Z) : outcome nat :=
  match d with
  | [] => Oob
  | e :: d' =>
      if rlen e =? 0 then Ret 0%nat
      else match d' with
           | [] => Oob
           | e1 :: _ => if v <? vcn e1 then Ret 0%nat else S <$> merge_find_ins d' v
           end
  end.

(** [for (s_final = i; s_final > 0; s_final--) if (s_rl[s_final].lcn >=
    LCN_HOLE) break;] *)
Fixpoint merge_find_final (s : list ntfs_rl_element) (i : nat) : outcome nat :=
  match i with
  | O => Ret 0%nat
  | S i' => e ← rd s i; if LCN_HOLE <=? lcn e then Ret i else merge_find_final s i'
  end.

(** The end of attribute marker of the source, after the merge. *)
Definition merge_marker (r : ntfs_runlist) (marker_vcn : Z) : outcome (Z * ntfs_runlist) :=
  let di := (elements r - 1)%nat in
  t ← rd (rl r) di;
  if marker_vcn <? vcn t then Ret (0, r) else
  if vcn t =? marker_vcn then
    d ← upd (rl r) di (set_lcn LCN_ENOENT);
    Ret (0, mk_runlist d (elements r) (alloc_count r))
  else
    let slots := if lcn t =? LCN_ENOENT then 1%nat else 0%nat in
    let di := if lcn t =? LCN_ENOENT then (di - 1)%nat else di in
    e ← rd (rl r) di;
    '(r, di, slots) ←
      (if negb (lcn e =? LCN_RL_NOT_MAPPED) then
         '(r, slots) ←
           (if (slots =? 0)%nat then
              '(err, r) ← ntfs_rl_inc r 2;
              if negb (err =? 0) then Panic else
              d ← set_vcn_after (rl r) (di + 1);
              Ret (mk_runlist d (elements r) (alloc_count r), 2%nat)
            else Ret (r, slots));
         d ← upd (rl r) (di + 1) (set_lcn LCN_RL_NOT_MAPPED);
         Ret (mk_runlist d (elements r) (alloc_count r), (di + 1)%nat, (slots - 1)%nat)
       else Ret (r, di, slots));
    e ← rd (rl r) di;
    d ← upd (rl r) di (set_len (marker_vcn - vcn e));
    let r := mk_runlist d (elements r) (alloc_count r) in
    let di := (di + 1)%nat in
    r ← (if (slots =? 0)%nat then
           '(err, r) ← ntfs_rl_inc r 1;
           if negb (err =? 0) then Panic else Ret r
         else Ret r);
    d ← upd (rl r) di (set_vcn marker_vcn);
    d ← upd d di (set_lcn LCN_ENOENT);
    d ← upd d di (set_len 0);
    Ret (0, mk_runlist d (elements r) (alloc_count r)).

(** The first mapping: the source becomes the destination. *)
Definition merge_first (src : ntfs_runlist) (dst : ntfs_runlist) : outcome (Z * ntfs_runlist) :=
  s0 ← rd (rl src) 0;
  if negb (vcn s0 =? 0) then
    '(err, src) ← ntfs_rl_ins src 0 1;
    if negb (err =? 0) then Ret (err, dst) else
    s ← upd (rl src) 0 (set_vcn 0);
    s ← upd s 0 (set_lcn LCN_RL_NOT_MAPPED);
    s1 ← rd s 1;
    s ← upd s 0 (set_len (vcn s1));
    Ret (0, mk_runlist s (elements src) (alloc_count src))
  else Ret (0, src).

(** The merge proper of two non-empty runlists: the kind of merge that is needed,
    the merge, and the end of attribute marker. *)
Definition merge_at (dst src : ntfs_runlist) (s_start d_ins : nat) : outcome (Z * ntfs_runlist) :=
  let s_rl := rl src in
  let d_rl := rl dst in
  let s_elements := elements src in
  e ← rd d_rl d_ins;
  s0 ← rd s_rl s_start;
  if (vcn e =? vcn s0) && (0 <=? lcn e) && (0 <=? lcn s0) then Ret (ERANGE, dst) else
  s_final ← merge_find_final s_rl (s_elements - 1);
  t ← rd s_rl (s_elements - 1);
  let start := (lcn e <? LCN_RL_NOT_MAPPED) || (vcn e =? vcn s0) in
  let finish := (LCN_RL_NOT_MAPPED <=? lcn e) && (vcn e + rlen e <=? vcn t) in
  let ss := (s_final - s_start + 1 + Nat.b2n (finish && (rlen e =? 0)%Z))%nat in
  finish ← (if lcn t =? LCN_ENOENT then
              p ← rd s_rl (s_elements - 2);
              Ret (finish && negb (vcn p <? vcn e + rlen e))
            else Ret finish);
  let s := drop s_start s_rl in
  '(err, dst) ←
    (if (start : bool) then
       if (finish : bool) then ntfs_rl_replace dst s ss d_ins else ntfs_rl_insert dst s ss d_ins
     else
       if (finish : bool) then ntfs_rl_append dst s ss d_ins else ntfs_rl_split dst s ss d_ins);
  if negb (err =? 0) then Ret (err, dst) else
  if (lcn t =? LCN_ENOENT) && (0 <? s_elements - 1)%nat then merge_marker dst (vcn t)
  else Ret (0, dst).

(** The result is the destination runlist; the source array is freed on success
    and unchanged otherwise. *)
Definition ntfs_rl_merge (dst src : ntfs_runlist) : outcome (Z * ntfs_runlist) :=
  if (elements src =? 0)%nat then Ret (0, dst) else
  if (elements dst =? 0)%nat then merge_first src dst
  else
    si ← merge_skip_unmapped (rl src);
    s0 ← rd (rl src) si;
    if rlen s0 =? 0 then Panic else
    d_ins ← merge_find_ins (rl dst) (vcn s0);
    merge_at dst src si d_ins.

(** ** Joining two arrays *)

(** [l] is [p ++ s], or the last run of [p] and the first of [s] are merged. *)
Definition joined (p s l : list ntfs_rl_element) : Prop :=
  l = p ++ s ∨
  ∃ p' x y s', p = p' ++ [x] ∧ s = y :: s' ∧ ntfs_rl_can_merge x y = true ∧
    l = p' ++ rl_merge_run x y :: s'.

Definition mapped_run (e : ntfs_rl_element) : Prop := LCN_HOLE ≤ lcn e.

Lemma can_merge_cases x y :
  ntfs_rl_can_merge x y = true →
  (lcn x = LCN_RL_NOT_MAPPED ∧ lcn y = LCN_RL_NOT_MAPPED) ∨
  (vcn x + rlen x = vcn y ∧ 0 ≤ lcn x ∧ lcn y = lcn x + rlen x) ∨
  (vcn x + rlen x = vcn y ∧ lcn x = LCN_HOLE ∧ lcn y = LCN_HOLE).
Proof. unfold ntfs_rl_can_merge. intros. repeat (case_match; zbool; try done; try lia). Qed.

(** The LCNs of a merged run. *)
Lemma lcn_of_merge_run x y l v :
  vcn x + rlen x = vcn y → 0 < rlen x → 0 < rlen y → ntfs_rl_can_merge x y = true →
  lcn_of (rl_merge_run x y :: l) v = lcn_of (x :: y :: l) v.
Proof.
  intros Hv Hx Hy Hm. cbn [lcn_of]. unfold rl_merge_run, run_lcn, set_len; simpl.
  apply can_merge_cases in Hm as [[E1 E2]|[(_ & E1 & E2)|(_ & E1 & E2)]]; rewrite ?E1, ?E2;
    unfold LCN_RL_NOT_MAPPED, LCN_HOLE in *; ztests; try done; f_equal; lia.
Qed.

Lemma joined_spec a b p s l :
  joined p s l → wf_rl a b (p ++ s) → Forall mapped_run p ∨ (∀ y s', s = y :: s' → 0 < rlen y) →
  wf_rl a b l ∧ ∀ v, lcn_of l v = lcn_of (p ++ s) v.
Proof.
  intros [->|(p' & x & y & s' & -> & -> & Hm & ->)] Hwf Hy; [done|].
  rewrite <- (assoc_L (++)) in *. cbn [app] in *.
  apply wf_rl_app_inv in Hwf as (c & Hs & Hwf); [|done].
  apply wf_rl_cons_inv in Hwf as (<- & [(_&?&_)|(Hx & ? & Hwf)]); [done|].
  apply wf_rl_cons_inv in Hwf as (Hvy & [(Hyz & -> & ? & Hyl)|(Hyp & Hyl & Hwf)]).
  { destruct Hy as [Hp|Hy]; [|specialize (Hy _ _ eq_refl); lia].
    apply Forall_app in Hp as [_ Hp]. apply Forall_cons_1 in Hp as [Hp _].
    unfold mapped_run, LCN_HOLE, LCN_RL_NOT_MAPPED in *.
    apply can_merge_cases in Hm; unfold LCN_HOLE, LCN_RL_NOT_MAPPED in *; lia. }
  split.
  - apply (wf_rl_app a (vcn x)); [done|]. unfold rl_merge_run, set_len.
    apply wf_rl_cons; simpl; [done|lia|done|].
    by replace (vcn x + (rlen x + rlen y)) with (vcn x + rlen x + rlen y) by lia.
  - intros v. rewrite !lcn_of_app. case_match; [done|]. by apply lcn_of_merge_run.
Qed.

(** Joining at both ends. *)
Lemma joined_twice b p s q y l1 l :
  wf_rl 0 b (p ++ s ++ q) → Forall mapped_run s → q ≠ [] → mapped_run y →
  joined s q (y :: l1) → joined p (y :: l1) l →
  wf_rl 0 b l ∧ ∀ v, lcn_of l v = lcn_of (p ++ s ++ q) v.
Proof.
  intros Hwf Hs Hq Hy Hj1 Hj2.
  apply wf_rl_app_inv in Hwf as (c & Hp & Hwf); [|by destruct s].
  destruct (joined_spec c b s q (y :: l1)) as [Hw1 Hl1]; [done..|by left|].
  destruct (joined_spec 0 b p (y :: l1) l) as [Hw Hl]; [done|by apply (wf_rl_app 0 c)| |].
  - right. intros y' s' [= <- _]. unfold mapped_run, LCN_HOLE in *.
    apply wf_rl_cons_inv in Hw1 as (_ & [(_&_&_&?)|(?&_)]); unfold LCN_HOLE in *; lia.
  - split; [done|]. intros v. by rewrite Hl, !lcn_of_app, Hl1, lcn_of_app.
Qed.

(** ** The moves *)

Lemma rl_splice (A M T J S0 S Sx : list ntfs_rl_element) g m t n c k i :
  m = (length A + g + length S)%nat → t = (length A + length M)%nat → n = length T →
  c = (length A + g)%nat → k = length S0 → i = length S →
  (length A + g + length S + length T ≤ length (A ++ M ++ T ++ J))%nat →
  ∃ d1 G J', ntfs_rl_move (A ++ M ++ T ++ J) m t n = Ret d1 ∧
    ntfs_rl_copy d1 c (S0 ++ S ++ Sx) k i = Ret (A ++ G ++ S ++ T ++ J') ∧ length G = g ∧
    (length A + g + length S + length T + length J' = length (A ++ M ++ T ++ J))%nat.
Proof.
  intros -> -> -> -> -> -> Hle. set (B := A ++ M ++ T ++ J) in *.
  set (m := (length A + g + length S)%nat) in *.
  exists (take m B ++ T ++ drop (m + length T) B), (take g (drop (length A) B)),
    (drop (m + length T) B).
  split_and!.
  - rewrite ntfs_rl_move_Ret by (unfold B, m in *; len). do 3 f_equal. unfold B.
    by rewrite <- drop_drop, drop_app_length, drop_app_length, take_app_length.
  - rewrite ntfs_rl_copy_Ret by (unfold m, B in *; len). f_equal.
    rewrite drop_app_length, take_app_length.
    replace (take m B) with (A ++ take g (drop (length A) B) ++ take (length S) (drop (length A + g) B)).
    2: { unfold m, B. rewrite <- Nat.add_assoc, take_app_add, <- !drop_drop, !drop_app_length.
      f_equal. by rewrite <- take_take_drop. }
    rewrite <- !(assoc_L (++)), take_app_add.
    rewrite (take_app_length' (take g _)) by (unfold B in *; len).
    rewrite <- drop_drop, <- drop_drop, drop_app_length.
    rewrite (drop_app_length' (take g _)) by (unfold B in *; len).
    rewrite (drop_app_length' (take (length S) _)) by (unfold B in *; len).
    by rewrite <- !(assoc_L (++)).
  - unfold B in *. len.
  - unfold m, B in *. len.
Qed.

Lemma set_vcn_after_at p x y s i :
  i = (length p + 1)%nat →
  set_vcn_after (p ++ x :: y :: s) i = Ret (p ++ x :: set_vcn (vcn x + rlen x) y :: s).
Proof.
  intros ->. unfold set_vcn_after. rewrite (rd_at p _ 0 _ x), bind_Ret by (done || lia).
  by erewrite (upd_at p _ 1) by done.
Qed.

Lemma set_len_before_at p x y s i :
  i = length p →
  set_len_before (p ++ x :: y :: s) i = Ret (p ++ set_len (vcn y - vcn x) x :: y :: s).
Proof.
  intros ->. unfold set_len_before. rewrite (rd_at p _ 1 (length p + 1) y), bind_Ret by (done || lia).
  by rewrite rd_middle, bind_Ret, upd_middle.
Qed.

Lemma wf_rl_adjacent a b l1 x y l2 :
  wf_rl a b (l1 ++ x :: y :: l2) → vcn y = vcn x + rlen x.
Proof.
  intros (c & _ & (<- & [(_&?&_)|(_&_&Hwf)])%wf_rl_cons_inv)%wf_rl_app_inv; try done.
  by destruct (wf_rl_cons_inv _ _ _ _ Hwf) as [<- _].
Qed.

(** In a well-formed array the end marker is where it belongs. *)
Lemma marker_fix a b P T J i :
  wf_rl a b (P ++ T) → P ≠ [] → i = length P → T ≠ [] →
  ∃ m, rd (P ++ T ++ J) i = Ret m ∧
    (if lcn m =? LCN_ENOENT then set_vcn_after (P ++ T ++ J) i else Ret (P ++ T ++ J)) =
    Ret (P ++ T ++ J).
Proof.
  intros Hwf HP -> HT. destruct T as [|y T]; [done|]. exists y. cbn [app].
  split; [apply rd_middle|]. case_match; [|done].
  destruct (list.last P) as [x|] eqn:Hl; [|by apply last_None in Hl].
  apply last_Some in Hl as [P' ->]. app_norm. app_norm_in Hwf.
  rewrite set_vcn_after_at by glen. rewrite <- (wf_rl_adjacent _ _ _ _ _ _ Hwf). by destruct y.
Qed.

(** The result of the calls that make room. *)
Lemma replace_inc l junk d n :
  roomy (mk_used l junk) → (length l ≤ max_elements)%nat → (n ≤ max_elements)%nat →
  d = u32 (Z.of_nat n - Z.of_nat (length l)) →
  let m := if 0 <? d then ntfs_rl_inc (mk_used l junk) d else Ret (0, mk_used l junk) in
  m = Ret (ENOMEM, mk_used l junk) ∨
  ∃ J, m = Ret (0, mk_runlist (l ++ J) n (length (l ++ J))) ∧ (n ≤ length (l ++ J))%nat ∧
    (rl_buffer_count n ≤ length (l ++ J))%nat.
Proof.
  intros Hr Hl Hn -> m. subst m.
  pose proof (max_elements_u32 _ Hn). pose proof (max_elements_u32 _ Hl).
  destruct (decide (length l < n)%nat) as [Hlt|Hge].
  { rewrite uwrap_id by lia. zdec.
    destruct (ntfs_rl_inc_spec l junk (Z.of_nat n - Z.of_nat (length l)) (n - length l))
      as [?|(gap & junk' & Hg & -> & Hr')]; [lia..|by left|right].
    exists (gap ++ junk'). unfold mk_used. apply roomy_mk_used in Hr'.
    replace n with (length (l ++ gap)) by glen.
    split_and!; [by rewrite (assoc_L (++))|glen|len]. }
  right. rewrite <- (take_drop n l) in Hr at 1.
  assert (rl_buffer_count n ≤ length (l ++ junk))%nat.
  { apply roomy_mk_used in Hr. rewrite take_drop in Hr.
    etrans; [apply (rl_buffer_count_mono n (length l)); lia|]. by rewrite length_app. }
  exists junk. split_and!; [|len|done].
  destruct (decide (n = length l)) as [->|Hne].
  { rewrite Z.sub_diag. done. }
  pose proof (ntfs_rl_inc_wrap (take n l) (drop n l) junk Hr) as Hw.
  replace (- Z.of_nat (length (drop n l))) with (Z.of_nat n - Z.of_nat (length l)) in Hw by len.
  rewrite take_drop in Hw. rewrite (proj2 (Z.ltb_lt _ _)).
  - rewrite Hw by done. do 2 f_equal. unfold mk_used. f_equal; [|len|].
    + by rewrite (assoc_L (++)), take_drop.
    + by rewrite (assoc_L (++)), take_drop.
  - unfold uwrap. rewrite <- (Z_mod_plus_full _ 1), Z.mod_small; lia.
Qed.

(** Merging the left end: [p2] is the destination before the insertion, [S] what is
    copied in of the source [y2 :: s2]. *)
Lemma left_end p y src y2 s2 rest :
  vcn y2 = vcn y → lcn y2 = lcn y →
  ∃ lft p2 s0 S,
    (if (0 <? length p)%nat
     then x ← rd (p ++ rest) (length p - 1); s ← rd (y :: src) 0; Ret (Nat.b2n (ntfs_rl_can_merge x s))
     else Ret 0%nat) = Ret lft ∧
    y2 :: s2 = s0 ++ S ∧ length s0 = lft ∧ (∀ T, joined p ((y2 :: s2) ++ T) (p2 ++ S ++ T)) ∧
    length p2 = length p ∧ p2 ++ S ≠ [] ∧
    ∀ rest extra, (if (0 <? lft)%nat
      then s ← rd (y2 :: extra) 0; upd (p ++ rest) (length p - 1) (λ e, rl_merge_run e s)
      else Ret (p ++ rest)) = Ret (p2 ++ rest).
Proof.
  intros Hv Hl.
  assert (∀ x, ntfs_rl_can_merge x y = ntfs_rl_can_merge x y2) as Hcm
    by (intros; unfold ntfs_rl_can_merge; by rewrite Hv, Hl).
  destruct (list.last p) as [x|] eqn:Hlp.
  2: { apply last_None in Hlp as ->. exists 0%nat, [], [], (y2 :: s2). by split_and!; [..|by left| | |]. }
  apply last_Some in Hlp as [p' ->].
  assert (length (p' ++ [x]) - 1 = length p')%nat as -> by (rewrite length_app; simpl; lia).
  rewrite (proj2 (Nat.ltb_lt 0 _)) by glen. app_norm. rewrite rd_middle, bind_Ret. simpl.
  destruct (ntfs_rl_can_merge x y) eqn:E; simpl.
  - exists 1%nat, (p' ++ [rl_merge_run x y2]), [y2], s2.
    split_and!; [done..| |glen|by destruct p'|].
    + intros T. right. exists p', x, y2, (s2 ++ T). rewrite <- Hcm, E. split_and!; [done..|by app_norm].
    + intros. app_norm. unfold rd. simpl. by rewrite upd_middle.
  - exists 0%nat, (p' ++ [x]), [], (y2 :: s2). split_and!; [done..| |done|by destruct p'|done].
    intros T. left. by app_norm.
Qed.

(** Merging the right end: [s2] and [T] are what is left of the source and of the
    part of the destination behind the replaced element. *)
Lemma right_end s z q' :
  s ≠ [] → ∃ w, list.last s = Some w ∧ ∀ M extra,
  let f := ntfs_rl_can_merge w z in
  ∃ s2 T M', joined s (z :: q') (s2 ++ T) ∧ length s2 = length s ∧ T = drop (Nat.b2n f) (z :: q') ∧
    M ++ z :: q' = M' ++ T ∧ length M' = (length M + Nat.b2n f)%nat ∧
    (∀ y, s !! 0%nat = Some y → ∃ y2, s2 !! 0%nat = Some y2 ∧ vcn y2 = vcn y ∧ lcn y2 = lcn y) ∧
    rd (s ++ extra) (length s - 1) = Ret w ∧
    (if (0 <? Nat.b2n f)%nat then upd (s ++ extra) (length s - 1) (λ e, rl_merge_run e z)
     else Ret (s ++ extra)) = Ret (s2 ++ extra).
Proof.
  intros Hs. destruct (list.last s) as [w|] eqn:Hl; [|by apply last_None in Hl].
  apply last_Some in Hl as [s'' ->]. exists w. split; [done|]. intros M extra f. subst f.
  assert (length (s'' ++ [w]) - 1 = length s'')%nat as -> by (rewrite length_app; simpl; lia).
  assert (rd ((s'' ++ [w]) ++ extra) (length s'') = Ret w) as Hrd by (app_norm; apply rd_middle).
  destruct (ntfs_rl_can_merge w z) eqn:Hm; simpl.
  - exists (s'' ++ [rl_merge_run w z]), q', (M ++ [z]). split_and!.
    + right. exists s'', w, z, q'. split_and!; [done..|by app_norm].
    + glen.
    + by destruct q'.
    + by app_norm.
    + glen.
    + intros y Hy. destruct s'' as [|y' s'']; simplify_eq/=; eauto.
    + done.
    + app_norm. by rewrite upd_middle.
  - exists (s'' ++ [w]), (z :: q'), M. split_and!; [by left|done|done|done|lia|eauto|done|done].
Qed.

(** The part of [ntfs_rl_replace] behind the merging of the ends. *)
Lemma replace_core b p2 M T J s0 S sx marker tail k n i c :
  wf_rl 0 b (p2 ++ S ++ T) → p2 ++ S ≠ [] →
  marker = (length p2 + length S)%nat → tail = (length p2 + length M)%nat → k = length T →
  (length (p2 ++ S ++ T) ≤ length (p2 ++ M ++ T ++ J))%nat → i = length S →
  n = length (p2 ++ S ++ T) → c = length (p2 ++ M ++ T ++ J) → (rl_buffer_count n ≤ c)%nat →
  ∃ junk',
    (d ← ntfs_rl_move (p2 ++ M ++ T ++ J) marker tail k;
     d ← ntfs_rl_copy d (length p2) (s0 ++ S ++ sx) (length s0) i;
     d ← (if (0 <? k)%nat then
            m ← rd d marker; if lcn m =? LCN_ENOENT then set_vcn_after d marker else Ret d
          else Ret d);
     Ret (0, mk_runlist d n c)) = Ret (0, mk_used (p2 ++ S ++ T) junk') ∧
    roomy (mk_used (p2 ++ S ++ T) junk').
Proof.
  intros Hwf HpS -> -> -> Hle -> -> -> Hc.
  destruct (rl_splice p2 M T J s0 S sx 0 (length p2 + length S) (length p2 + length M) (length T)
    (length p2) (length s0) (length S)) as (d1 & G & J' & -> & Hcp & HG & HJ'); [len..|].
  destruct G; [|done]. cbn [mbind outcome_bind]. rewrite Hcp. cbn [mbind outcome_bind app].
  exists J'. split; [|apply roomy_mk_used; len].
  assert ((if (0 <? length T)%nat then
      m ← rd (p2 ++ S ++ T ++ J') (length p2 + length S);
      if lcn m =? LCN_ENOENT then set_vcn_after (p2 ++ S ++ T ++ J') (length p2 + length S)
      else Ret (p2 ++ S ++ T ++ J')
    else Ret (p2 ++ S ++ T ++ J')) = Ret (p2 ++ S ++ T ++ J')) as ->.
  { destruct T as [|y T]; [done|]. cbn [length Nat.ltb Nat.leb].
    destruct (marker_fix 0 b (p2 ++ S) (y :: T) J' (length p2 + length S)) as (m & Hm & Hf);
      [by app_norm|done|glen|done|].
    rewrite <- (assoc_L (++)) in Hm, Hf. by rewrite Hm, bind_Ret. }
  cbn [mbind outcome_bind]. do 2 f_equal. apply mk_used_eq; [by app_norm|done|len].
Qed.

Lemma ntfs_rl_replace_spec b p h q s extra junk :
  roomy (mk_used (p ++ h :: q) junk) → (length (p ++ h :: q) + length s ≤ max_elements)%nat →
  wf_rl 0 b (p ++ s ++ q) → s ≠ [] → q ≠ [] → Forall mapped_run s →
  let m := ntfs_rl_replace (mk_used (p ++ h :: q) junk) (s ++ extra) (length s) (length p) in
  m = Ret (ENOMEM, mk_used (p ++ h :: q) junk) ∨
  ∃ l junk', m = Ret (0, mk_used l junk') ∧ roomy (mk_used l junk') ∧ wf_rl 0 b l ∧
    ∀ v, lcn_of l v = lcn_of (p ++ s ++ q) v.
Proof.
  intros Hroom Hmax Hwf Hs Hq Hmap m. subst m. unfold ntfs_rl_replace.
  simpl rl. simpl elements. destruct q as [|z q']; [done|].
  rewrite (proj2 (Nat.eqb_neq _ _)) by (destruct s; [done|simpl; lia]).
  rewrite (proj2 (Nat.ltb_lt _ _)) by glen.
  destruct (right_end s z q' Hs) as (w & Hw & Hr).
  destruct (Hr [h] extra) as (s2 & T & M' & Hj1 & Hl2 & HT & HM & HlM & Hhd & Hrd & Hupd). clear Hr.
  destruct s as [|y s']; [done|]. destruct (Hhd y eq_refl) as (y2 & Hy2 & Hv2 & Hc2).
  destruct s2 as [|y2' s2]; [done|]. injection Hy2 as ->.
  cbn [app] in Hrd, Hupd |- *. rewrite <- (assoc_L (++)). cbn [app].
  destruct (left_end p y (s' ++ extra) y2 s2 (h :: z :: q' ++ junk) Hv2 Hc2)
    as (lft & p2 & s0 & S & -> & ES & <- & Hj2 & Hlp2 & HpS & Hupl).
  cbn [mbind outcome_bind]. rewrite Hrd, bind_Ret.
  rewrite (rd_at p _ 1 (length p + 1) z), !bind_Ret by (done || lia).
  set (rgt := Nat.b2n (ntfs_rl_can_merge w z)) in *.
  set (n := length (p2 ++ S ++ T)).
  assert (length (s0 ++ S) = length (y :: s')) as HlS by (by rewrite <- ES).
  assert (length T = length (z :: q') - rgt)%nat as HlT by (by rewrite HT, length_drop).
  assert (rgt ≤ 1)%nat by (unfold rgt; destruct (ntfs_rl_can_merge w z); simpl; lia).
  destruct (joined_twice b p (y :: s') (z :: q') y2 (s2 ++ T) (p2 ++ S ++ T)) as [Hwl Hlk];
    [done..| |done|apply Hj2|].
  { unfold mapped_run. rewrite Hc2. by apply Forall_cons_1 in Hmap as [? _]. }
  destruct (replace_inc (p ++ h :: z :: q') junk
    (u32 (Z.of_nat (length (y :: s')) - 1 - Z.of_nat (length s0) - Z.of_nat rgt)) n)
    as [->|(J & -> & Hn1 & Hn2)]; [done|len|unfold n; len|f_equal; unfold n; len|by left|right].
  cbn [mbind outcome_bind negb Z.eqb rl elements alloc_count].
  rewrite <- (assoc_L (++) p). cbn [app].
  rewrite (rd_at p _ 1 (length p + 1) z), bind_Ret, Hupd, bind_Ret by (done || lia).
  rewrite Hupl, bind_Ret.
  replace (h :: z :: q' ++ J) with (M' ++ T ++ J)
    by (rewrite (assoc_L (++)), <- HM; done).
  replace (y2 :: s2 ++ extra) with (s0 ++ S ++ extra) by (rewrite (assoc_L (++)), <- ES; done).
  rewrite (proj2 (Z.ltb_ge (u32 _) 0)) by (by apply uwrap_range).
  assert (length ((p ++ h :: z :: q') ++ J) = length (p2 ++ M' ++ T ++ J)) as Hlb
    by (rewrite !length_app in *; simpl in *; lia).
  rewrite <- Hlp2.
  destruct (replace_core b p2 M' T J s0 S extra (length p2 + length (y :: s') - length s0)
    (length p2 + 1 + rgt) (length (p ++ h :: z :: q') - (length p2 + 1 + rgt)) n
    (length (y :: s') - length s0) (length (p2 ++ M' ++ T ++ J))) as (junk' & Hc & Hr');
    [done|done|len|len|len| |len|done|done| |].
  { by rewrite <- Hlb. }
  { by rewrite <- Hlb. }
  exists (p2 ++ S ++ T), junk'. split_and!; [|done..]. rewrite <- Hc.
  by replace (length (p ++ M' ++ T ++ J)) with (length (p2 ++ M' ++ T ++ J)) by (rewrite !length_app; lia).
Qed.

(** The end marker is never merged away. *)
Lemma right_end_tail c b s z q' w :
  wf_rl c b (s ++ z :: q') → Forall mapped_run s → list.last s = Some w →
  drop (Nat.b2n (ntfs_rl_can_merge w z)) (z :: q') ≠ [].
Proof.
  intros Hwf Hs Hw. destruct (ntfs_rl_can_merge w z) eqn:Hm; [|done]. simpl. rewrite drop_0.
  intros ->. apply last_Some in Hw as [s' ->].
  apply wf_rl_app_inv in Hwf as (d & (_ & ? & _)%seg_middle_inv & Hwf); [|done].
  apply wf_rl_cons_inv in Hwf as (_ & [(_&_&_&Hz)|(_&_&?%wf_rl_not_nil)]); [|done].
  apply Forall_app in Hs as [_ [Hs _]%Forall_cons_1].
  unfold mapped_run, LCN_HOLE in *. apply can_merge_cases in Hm.
  unfold LCN_HOLE, LCN_RL_NOT_MAPPED in *. lia.
Qed.

(** The part of [ntfs_rl_append] behind the merging of the right end. *)
Lemma append_core b p h M T J y s sx marker tail k n i c :
  let l := p ++ set_len (vcn y - vcn h) h :: (y :: s) ++ T in
  wf_rl 0 b l → T ≠ [] →
  marker = (length p + length (y :: s) + 1)%nat → tail = (length p + 1 + length M)%nat →
  k = length T → (length l ≤ length (p ++ h :: M ++ T ++ J))%nat → i = length (y :: s) →
  n = length l → c = length (p ++ h :: M ++ T ++ J) → (rl_buffer_count n ≤ c)%nat →
  ∃ junk',
    (d ← ntfs_rl_move (p ++ h :: M ++ T ++ J) marker tail k;
     d ← ntfs_rl_copy d (length p + 1) (y :: s ++ sx) 0 i;
     d ← set_len_before d (length p);
     m ← rd d marker;
     d ← (if lcn m =? LCN_ENOENT then set_vcn_after d marker else Ret d);
     Ret (0, mk_runlist d n c)) = Ret (0, mk_used l junk') ∧
    roomy (mk_used l junk').
Proof.
  intros l Hwf HT -> -> -> Hle -> -> -> Hc.
  destruct (rl_splice (p ++ [h]) M T J [] (y :: s) sx 0 (length p + length (y :: s) + 1)
    (length p + 1 + length M) (length T) (length p + 1) 0 (length (y :: s)))
    as (d1 & G & J' & Hmv & Hcp & HG & HJ'); [unfold l in *; len..|].
  destruct G; [|done]. app_norm_in Hmv. app_norm_in Hcp. cbn [app] in Hcp.
  rewrite Hmv, bind_Ret, Hcp, bind_Ret.
  rewrite set_len_before_at by done. cbn [mbind outcome_bind]. fold (set_len (vcn y - vcn h) h).
  assert (p ++ set_len (vcn y - vcn h) h :: y :: s ++ T ++ J' =
    (p ++ set_len (vcn y - vcn h) h :: y :: s) ++ T ++ J') as E by (by app_norm).
  destruct (marker_fix 0 b (p ++ set_len (vcn y - vcn h) h :: y :: s) T J'
    (length p + length (y :: s) + 1)) as (m & Hm & Hf); [unfold l in Hwf; by app_norm|by destruct p|glen|done|].
  rewrite <- E in Hm, Hf. rewrite Hm, bind_Ret, Hf, bind_Ret.
  exists J'. split; [|apply roomy_mk_used; unfold l in *; len].
  do 2 f_equal. apply mk_used_eq; [unfold l; by app_norm|done|unfold l in *; len].
Qed.

Lemma ntfs_rl_append_spec b p h q y s extra junk :
  roomy (mk_used (p ++ h :: q) junk) → (length (p ++ h :: q) + length (y :: s) ≤ max_elements)%nat →
  wf_rl 0 b (p ++ set_len (vcn y - vcn h) h :: (y :: s) ++ q) → q ≠ [] →
  Forall mapped_run (y :: s) →
  let m := ntfs_rl_append (mk_used (p ++ h :: q) junk) ((y :: s) ++ extra) (length (y :: s)) (length p) in
  m = Ret (ENOMEM, mk_used (p ++ h :: q) junk) ∨
  ∃ l junk', m = Ret (0, mk_used l junk') ∧ roomy (mk_used l junk') ∧ wf_rl 0 b l ∧
    ∀ v, lcn_of l v = lcn_of (p ++ set_len (vcn y - vcn h) h :: (y :: s) ++ q) v.
Proof.
  intros Hroom Hmax Hwf Hq Hmap m. subst m. unfold ntfs_rl_append.
  simpl rl. simpl elements. destruct q as [|z q']; [done|].
  rewrite (proj2 (Nat.eqb_neq _ _)) by done. rewrite (proj2 (Nat.ltb_lt _ _)) by glen.
  destruct (right_end (y :: s) z q') as (w & Hw & Hr); [done|].
  destruct (Hr [] extra) as (s2 & T & M' & Hj1 & Hl2 & HT & HM & HlM & Hhd & Hrd & Hupd). clear Hr.
  destruct (Hhd y eq_refl) as (y2 & Hy2 & Hv2 & Hc2).
  destruct s2 as [|y2' s2]; [done|]. injection Hy2 as ->.
  rewrite Hrd, bind_Ret. app_norm.
  rewrite (rd_at p _ 1 (length p + 1) z), !bind_Ret by (done || lia).
  set (rgt := Nat.b2n (ntfs_rl_can_merge w z)) in *. simpl in HlM, HM.
  assert (length T = length (z :: q') - rgt)%nat as HlT by (by rewrite HT, length_drop).
  assert (rgt ≤ 1)%nat by (unfold rgt; destruct (ntfs_rl_can_merge w z); simpl; lia).
  set (h' := set_len (vcn y - vcn h) h) in *.
  assert (T ≠ []) as HTn.
  { rewrite HT. unfold rgt. apply wf_rl_app_inv in Hwf as (d & _ & Hwf); [|done].
    apply wf_rl_cons_inv in Hwf as (_ & [(_&?&_)|(_&_&Hwf)]); [done|].
    by eapply right_end_tail. }
  change (p ++ h' :: ?l) with (p ++ [h'] ++ l) in Hwf |- *. rewrite (assoc_L (++)) in Hwf |- *.
  destruct (joined_twice b (p ++ [h']) (y :: s) (z :: q') y2 (s2 ++ T) ((p ++ [h']) ++ y2 :: s2 ++ T))
    as [Hwl Hlk]; [done|done|done| |done|by left|].
  { unfold mapped_run. rewrite Hc2. by apply Forall_cons_1 in Hmap as [? _]. }
  destruct (ntfs_rl_inc_spec (p ++ h :: z :: q') junk (Z.of_nat (length (y :: s) - rgt))
    (length (y :: s) - rgt)) as [->|(gap & J & Hg & -> & Hr)]; [done|len|by left|right].
  cbn [mbind outcome_bind negb Z.eqb rl elements alloc_count mk_used]. app_norm.
  rewrite (rd_at p _ 1 (length p + 1) z), bind_Ret by (done || lia). cbn [app] in Hupd.
  rewrite Hupd, bind_Ret.
  replace (h :: z :: q' ++ gap ++ J) with (h :: M' ++ T ++ gap ++ J)
    by (rewrite (assoc_L (++) M'), <- HM; done).
  destruct (append_core b p h M' T (gap ++ J) y2 s2 extra (length p + length (y :: s) + 1)
    (length p + 1 + rgt) (length (p ++ h :: z :: q') - (length p + 1 + rgt))
    (length (p ++ h :: z :: q' ++ gap)) (length (y :: s)) (length (p ++ h :: M' ++ T ++ gap ++ J)))
    as (junk' & Hc & Hr'); [rewrite Hv2; by app_norm_in Hwl|done|len|len|len|len|len|len|done| |].
  { apply roomy_mk_used in Hr. app_norm_in Hr. etrans; [exact Hr|len]. }
  rewrite Hv2 in Hc, Hr'. eexists _, junk'. split_and!; [exact Hc|exact Hr'| |].
  - by app_norm_in Hwl.
  - intros v. specialize (Hlk v). app_norm_in Hlk. done.
Qed.

Lemma rl_copy_parts (A X R S sx : list ntfs_rl_element) i n :
  i = length A → n = length S → length X = length S →
  ntfs_rl_copy (A ++ X ++ R) i (S ++ sx) 0 n = Ret (A ++ S ++ R).
Proof.
  intros -> -> HX. rewrite ntfs_rl_copy_Ret by (rewrite !length_app; lia).
  rewrite take_app_length, drop_0, take_app_length, <- HX.
  by rewrite <- drop_drop, !drop_app_length.
Qed.

Lemma ntfs_rl_split_spec p h z q y s extra junk w :
  list.last (y :: s) = Some w → (length (p ++ h :: z :: q) + length (y :: s) + 1 ≤ max_elements)%nat →
  let m := ntfs_rl_split (mk_used (p ++ h :: z :: q) junk) ((y :: s) ++ extra) (length (y :: s)) (length p) in
  let c := vcn w + rlen w in
  let l := p ++ mk_rle (vcn h) (lcn h) (vcn y - vcn h) :: (y :: s) ++ mk_rle c (lcn h) (vcn z - c) :: z :: q in
  m = Ret (ENOMEM, mk_used (p ++ h :: z :: q) junk) ∨
  ∃ junk', m = Ret (0, mk_used l junk') ∧ roomy (mk_used l junk').
Proof.
  intros Hw Hmax m c l. subst m. unfold ntfs_rl_split.
  rewrite (proj2 (Nat.eqb_neq _ _)) by done.
  pose proof (ntfs_rl_ins_spec (p ++ [h]) (z :: q) junk (length (y :: s) + 1)) as Hins.
  replace (length (p ++ [h])) with (length p + 1)%nat in Hins by glen. app_norm_in Hins.
  destruct Hins as [->|(gap & J & Hg & -> & Hr)]; [lia|len|by left|right].
  cbn [mbind outcome_bind negb Z.eqb rl elements alloc_count mk_used].
  destruct (list.last gap) as [g|] eqn:Hl; [|apply last_None in Hl as ->; len].
  apply last_Some in Hl as [gap' ->]. rewrite length_app in Hg. simpl in Hg.
  pose proof (rl_copy_parts (p ++ [h]) gap' (g :: z :: q ++ J) (y :: s) extra (length p + 1)
    (length (y :: s))) as Hcp. app_norm_in Hcp. app_norm.
  cbn [app] in Hcp |- *. rewrite Hcp, bind_Ret by (simpl; len).
  rewrite set_len_before_at, bind_Ret by done.
  rewrite rd_middle, bind_Ret. set (h' := set_len (vcn y - vcn h) h).
  apply last_Some in Hw as [s0 Es].
  assert (∀ R, p ++ h' :: y :: s ++ R = (p ++ h' :: s0) ++ w :: R) as E
    by (intros R; app_norm; change (y :: s ++ R) with ((y :: s) ++ R); rewrite Es; by app_norm).
  rewrite E. assert (length (y :: s) = length s0 + 1)%nat as Els by (rewrite Es; glen).
  erewrite (upd_at (p ++ h' :: s0) _ 1); [|len|reflexivity]. cbn [mbind outcome_bind insert list_insert].
  rewrite set_vcn_after_at, bind_Ret by len.
  rewrite (cons_middle w (p ++ h' :: s0)), (assoc_L (++) (p ++ h' :: s0)).
  rewrite set_len_before_at, bind_Ret by (rewrite Els; glen).
  exists J. assert (length gap' = length (y :: s)) as Hgs by (simpl in *; lia). split.
  - do 2 f_equal. apply mk_used_eq; [|unfold l; len..].
    unfold l. app_norm. fold h'. change (y :: s ++ ?R) with ((y :: s) ++ R). rewrite Es. by app_norm.
  - eapply roomy_same; [exact Hr|unfold l; len..].
Qed.

(** The merged array ends where the source ends. *)
Lemma joined_end c p y s p2 S x P :
  seg 0 (vcn y) p → seg (vcn y) c (y :: s) → (∀ T, joined p ((y :: s) ++ T) (p2 ++ S ++ T)) →
  p2 ++ S = P ++ [x] → vcn x + rlen x = c.
Proof.
  intros Hp Hs Hj E. set (t := mk_rle c LCN_ENOENT 0).
  assert (wf_rl 0 c (p ++ (y :: s) ++ [t])) as Hwf.
  { apply (wf_rl_app 0 (vcn y)); [done|]. apply (wf_rl_app (vcn y) c); [done|]. by apply wf_rl_one. }
  destruct (joined_spec 0 c _ _ _ (Hj [t]) Hwf) as [Hw _].
  { right. intros ? ? [= <- _]. by apply seg_cons_inv in Hs as (_ & ? & _). }
  rewrite (assoc_L (++)), E, <- (assoc_L (++)) in Hw.
  by apply wf_rl_adjacent in Hw as <-.
Qed.

(** What becomes of the element before which the source is inserted. *)
Definition insert_next (c : Z) (h : ntfs_rl_element) (q : list ntfs_rl_element) : ntfs_rl_element :=
  match q with
  | z :: _ => if (lcn h =? LCN_HOLE) || (lcn h =? LCN_RL_NOT_MAPPED)
              then mk_rle c (lcn h) (vcn z - c) else set_vcn c h
  | [] => set_vcn c h
  end.

(** The adjustment of that element. *)
Lemma insert_next_exec {B} P x h q J c marker (K : list ntfs_rl_element → outcome B) :
  vcn x + rlen x = c → (q = [] → lcn h < LCN_RL_NOT_MAPPED) → marker = (length P + 1)%nat →
  (d ← set_vcn_after (P ++ x :: h :: q ++ J) marker;
   m ← rd d marker;
   d ← (if (lcn m =? LCN_HOLE) || (lcn m =? LCN_RL_NOT_MAPPED) then set_len_before d marker
        else Ret d);
   K d) = K (P ++ x :: insert_next c h q :: q ++ J).
Proof.
  intros <- Hq ->. rewrite set_vcn_after_at, bind_Ret by done.
  rewrite (rd_at P _ 1 _ (set_vcn (vcn x + rlen x) h)), bind_Ret by (done || lia).
  unfold insert_next. destruct q as [|z q].
  { specialize (Hq eq_refl). unfold LCN_RL_NOT_MAPPED, LCN_HOLE in *. simpl. by zdec. }
  cbn [app lcn set_vcn]. case_match; [|done].
  rewrite (cons_middle x P), (assoc_L (++)), set_len_before_at by glen. by app_norm.
Qed.

(** The tests of [ntfs_rl_insert] when the source starts where [p] ends. *)
Lemma insert_flags c p rest y s :
  seg 0 (vcn y) p → seg (vcn y) c (y :: s) →
  (if (length p =? 0)%nat then Ret (0%nat, Nat.b2n (0 <? vcn y))
   else
     x ← rd (p ++ rest) (length p - 1);
     let lft := ntfs_rl_can_merge x y in
     let merged_length := rlen x + (if lft then rlen y else 0) in
     Ret (Nat.b2n lft, Nat.b2n (vcn x + merged_length <? vcn y))) =
  (lft ← (if (0 <? length p)%nat
     then x ← rd (p ++ rest) (length p - 1); s ← rd (y :: s) 0; Ret (Nat.b2n (ntfs_rl_can_merge x s))
     else Ret 0%nat);
   Ret (lft, 0%nat)).
Proof.
  intros Hp Hs. destruct (list.last p) as [x|] eqn:Hl.
  2: { apply last_None in Hl as ->. inversion Hp. done. }
  apply last_Some in Hl as [p' ->]. apply seg_app_inv in Hp as (a & _ & (<- & ? & E & _)%seg_one).
  apply seg_cons_inv in Hs as (_ & ? & _). rewrite length_app. simpl.
  rewrite (proj2 (Nat.eqb_neq _ _)) by lia. rewrite (proj2 (Nat.ltb_lt _ _)) by lia.
  app_norm. mem_step. unfold rd. simpl. do 3 f_equal.
  rewrite (proj2 (Z.ltb_ge _ _)); [done|]. case_match; lia.
Qed.

Lemma ntfs_rl_insert_spec c p h q y s extra junk :
  (length (p ++ h :: q) + length (y :: s) ≤ max_elements)%nat →
  seg 0 (vcn y) p → seg (vcn y) c (y :: s) → (q = [] → lcn h < LCN_RL_NOT_MAPPED) →
  let m := ntfs_rl_insert (mk_used (p ++ h :: q) junk) ((y :: s) ++ extra) (length (y :: s)) (length p) in
  m = Ret (ENOMEM, mk_used (p ++ h :: q) junk) ∨
  ∃ l junk', m = Ret (0, mk_used l junk') ∧ roomy (mk_used l junk') ∧
    joined p ((y :: s) ++ insert_next c h q :: q) l.
Proof.
  intros Hmax Hp Hs Hq m. subst m. unfold ntfs_rl_insert.
  rewrite (proj2 (Nat.eqb_neq _ _)) by done. simpl rl. simpl elements.
  rewrite (rd_Ret _ 0 y), bind_Ret by done. rewrite <- (assoc_L (++) p).
  pose proof (insert_flags c p ((h :: q) ++ junk) y s Hp Hs) as Hf. cbv zeta in Hf |- *.
  rewrite Hf. clear Hf.
  destruct (left_end p y s y s ((h :: q) ++ junk) eq_refl eq_refl)
    as (lft & p2 & s0 & S & -> & ES & <- & Hj & Hlp2 & HpS & Hupl).
  cbn [mbind outcome_bind]. assert (length (s0 ++ S) = length (y :: s)) as HlS by (by rewrite <- ES).
  destruct (ntfs_rl_inc_spec (p ++ h :: q) junk (Z.of_nat (length (y :: s) - length s0 + 0))
    (length (y :: s) - length s0 + 0)) as [->|(gap & J & Hg & -> & Hr)]; [done|len|by left|right].
  cbn [mbind outcome_bind negb Z.eqb rl elements alloc_count mk_used].
  specialize (Hupl ((h :: q) ++ gap ++ J) []).
  replace (((p ++ h :: q) ++ gap) ++ J) with (p ++ (h :: q) ++ gap ++ J) by (by app_norm).
  unfold rd in Hupl. cbn [mbind outcome_bind lookup list_lookup] in Hupl. rewrite Hupl, bind_Ret.
  destruct (rl_splice p2 [] (h :: q) (gap ++ J) s0 S extra 0
    (length p + length (y :: s) - length s0 + 0) (length p) (length (p ++ h :: q) - length p)
    (length p + 0) (length s0) (length (y :: s) - length s0))
    as (d1 & G & J' & Hmv & Hcp & HG & HJ'); [len..|].
  destruct G; [|done]. cbn [app] in Hmv, Hcp |- *. rewrite Hmv, bind_Ret.
  replace (y :: s ++ extra) with (s0 ++ S ++ extra) by (rewrite (assoc_L (++)), <- ES; done).
  rewrite Hcp, bind_Ret.
  destruct (list.last (p2 ++ S)) as [x|] eqn:Hl; [|by apply last_None in Hl].
  apply last_Some in Hl as [P HP].
  assert (length p2 + length S = length P + 1)%nat as HlP
    by (rewrite <- length_app, HP; glen).
  replace (p2 ++ S ++ h :: q ++ J') with (P ++ x :: h :: q ++ J')
    by (rewrite (assoc_L (++)), HP; by app_norm).
  rewrite (insert_next_exec P x h q J' c) by (by eapply joined_end || done || len).
  cbn [mbind outcome_bind Nat.ltb Nat.leb].
  exists (p2 ++ S ++ insert_next c h q :: q), J'. split_and!; [| |apply Hj].
  - do 2 f_equal. apply mk_used_eq; [|len..]. rewrite (assoc_L (++)), HP. by app_norm.
  - apply roomy_mk_used in Hr. apply roomy_mk_used.
    replace (length (p2 ++ S ++ insert_next c h q :: q)) with (length ((p ++ h :: q) ++ gap)) by len.
    etrans; [exact Hr|]. len.
Qed.

(** The tests when there is a gap between [p] and the source. *)
Lemma insert_flags_gap b p rest y :
  seg 0 b p → b < vcn y → mapped_run y →
  (if (length p =? 0)%nat then Ret (0%nat, Nat.b2n (0 <? vcn y))
   else
     x ← rd (p ++ rest) (length p - 1);
     Ret (Nat.b2n (ntfs_rl_can_merge x y),
          Nat.b2n (vcn x + (rlen x + (if ntfs_rl_can_merge x y then rlen y else 0)) <? vcn y))) =
  Ret (0%nat, 1%nat).
Proof.
  intros Hp Hy Hm. destruct (list.last p) as [x|] eqn:Hl.
  2: { apply last_None in Hl as ->. inversion Hp; subst. simpl. by zdec. }
  apply last_Some in Hl as [p' ->]. apply seg_app_inv in Hp as (a & _ & (<- & ? & -> & _)%seg_one).
  rewrite length_app. simpl. zdec. app_norm. mem_step.
  assert (ntfs_rl_can_merge x y = false) as ->.
  { destruct (ntfs_rl_can_merge x y) eqn:E; [|done].
    apply can_merge_cases in E. unfold mapped_run, LCN_HOLE, LCN_RL_NOT_MAPPED in *. lia. }
  by rewrite (proj2 (Z.ltb_lt _ _)) by lia.
Qed.

(** The "not mapped" run that fills the gap. *)
Lemma insert_gap_exec b p g y s :
  seg 0 b p →
  (d ← (if (0 <? length p)%nat
        then d ← set_vcn_after (p ++ g :: y :: s) (length p); set_len_before d (length p)
        else
          d ← upd (p ++ g :: y :: s) (length p) (set_vcn 0);
          n ← rd d (length p + 1); upd d (length p) (set_len (vcn n)));
   upd d (length p) (set_lcn LCN_RL_NOT_MAPPED)) =
  Ret (p ++ mk_rle b LCN_RL_NOT_MAPPED (vcn y - b) :: y :: s).
Proof.
  intros Hp. destruct (list.last p) as [x|] eqn:Hl.
  2: { apply last_None in Hl as ->. inversion Hp; subst. unfold upd, rd, wr. simpl. by rewrite Z.sub_0_r. }
  rewrite (proj2 (Nat.ltb_lt _ _)) by (destruct p; [done|simpl; lia]).
  apply last_Some in Hl as [p' ->]. apply seg_app_inv in Hp as (a & _ & (<- & ? & -> & _)%seg_one).
  rewrite <- (assoc_L (++) p'). cbn [app]. rewrite set_vcn_after_at, bind_Ret by glen.
  rewrite (cons_middle x p' (_ :: _)), (assoc_L (++) p'), set_len_before_at, bind_Ret, upd_middle by done.
  done.
Qed.

Lemma ntfs_rl_insert_gap_spec b c p h y s extra junk :
  (length (p ++ [h]) + length (y :: s) + 1 ≤ max_elements)%nat →
  seg 0 b p → b < vcn y → mapped_run y → seg (vcn y) c (y :: s) → lcn h < LCN_RL_NOT_MAPPED →
  let m := ntfs_rl_insert (mk_used (p ++ [h]) junk) ((y :: s) ++ extra) (length (y :: s)) (length p) in
  let l := p ++ mk_rle b LCN_RL_NOT_MAPPED (vcn y - b) :: (y :: s) ++ [set_vcn c h] in
  m = Ret (ENOMEM, mk_used (p ++ [h]) junk) ∨
  ∃ junk', m = Ret (0, mk_used l junk') ∧ roomy (mk_used l junk').
Proof.
  intros Hmax Hp Hy Hmy Hs Hh m l. subst m. unfold ntfs_rl_insert.
  rewrite (proj2 (Nat.eqb_neq _ _)) by done. simpl rl. simpl elements.
  rewrite (rd_Ret _ 0 y), bind_Ret by done. rewrite <- (assoc_L (++) p). cbv zeta.
  rewrite (insert_flags_gap b p ([h] ++ junk) y Hp Hy Hmy), bind_Ret.
  destruct (ntfs_rl_inc_spec (p ++ [h]) junk (Z.of_nat (length (y :: s) - 0 + 1))
    (length (y :: s) + 1)) as [->|(gap & J & Hg & -> & Hr)]; [lia|len|by left|right].
  cbn [mbind outcome_bind negb Z.eqb rl elements alloc_count mk_used].
  change (0 <? 1)%nat with true. change (0 <? 0)%nat with false. cbn [mbind outcome_bind].
  destruct (rl_splice p [] [h] (gap ++ J) [] (y :: s) extra 1
    (length p + length (y :: s) - 0 + 1) (length p) (length (p ++ [h]) - length p)
    (length p + 1) 0 (length (y :: s) - 0))
    as (d1 & G & J' & Hmv & Hcp & HG & HJ'); [len..|].
  destruct G as [|g []]; try done. app_norm. cbn [app] in Hmv, Hcp |- *.
  rewrite Hmv, bind_Ret, Hcp, bind_Ret.
  destruct (list.last (y :: s)) as [x|] eqn:Hl; [|by apply last_None in Hl].
  apply last_Some in Hl as [s0 Es].
  assert (vcn x + rlen x = c) as Hx.
  { rewrite Es in Hs. by apply seg_app_inv in Hs as (d & _ & (<- & _ & -> & _)%seg_one). }
  assert (length (y :: s) = length s0 + 1)%nat as Els by (rewrite Es; glen).
  replace (p ++ g :: y :: s ++ h :: J') with ((p ++ g :: s0) ++ x :: h :: [] ++ J')
    by (app_norm; change (y :: s ++ ?R) with ((y :: s) ++ R); rewrite Es; by app_norm).
  rewrite (insert_next_exec (p ++ g :: s0) x h [] J' c) by (done || len).
  replace ((p ++ g :: s0) ++ x :: insert_next c h [] :: [] ++ J')
    with (p ++ g :: y :: s ++ set_vcn c h :: J')
    by (app_norm; change (y :: s ++ ?R) with ((y :: s) ++ R); rewrite Es; by app_norm).
  rewrite (insert_gap_exec b) by done. cbn [mbind outcome_bind].
  exists J'. split.
  - do 2 f_equal. apply mk_used_eq; unfold l; [by app_norm|len..].
  - apply roomy_mk_used in Hr. apply roomy_mk_used.
    replace (length l) with (length ((p ++ [h]) ++ gap)) by (unfold l; len).
    etrans; [exact Hr|]. unfold l. len.
Qed.

(** ** The searches *)

Lemma merge_find_ins_seek d v : merge_find_ins d v = rl_seek d v.
Proof.
  induction d as [|e d IH]; [done|]. cbn [merge_find_ins rl_seek]. case_match; [done|].
  destruct d as [|e1 d]; [done|]. rewrite IH. ztests; done.
Qed.

(** A source runlist: unmapped runs up to [a], mapped runs from [a] to [c] and the
    terminator. *)
Record merge_source (a c : Z) (un : list ntfs_rl_element) (y : ntfs_rl_element)
    (s : list ntfs_rl_element) (t : ntfs_rl_element) : Prop := {
  ms_unmapped : Forall (λ e, 0 < rlen e ∧ lcn e = LCN_RL_NOT_MAPPED) un;
  ms_before : ∃ a0, seg a0 a un;
  ms_seg : seg a c (y :: s);
  ms_mapped : Forall mapped_run (y :: s);
  ms_end : terminator c t
}.

(** A source to evaluate the model on. *)
Definition sample_source : ntfs_runlist :=
  mk_used [mk_rle 0 LCN_RL_NOT_MAPPED 16; mk_rle 16 500 3; mk_rle 19 LCN_RL_NOT_MAPPED 0] [].

Lemma sample_source_ok :
  merge_source 16 19 [mk_rle 0 LCN_RL_NOT_MAPPED 16] (mk_rle 16 500 3) [] (mk_rle 19 LCN_RL_NOT_MAPPED 0).
Proof.
  split; [by repeat constructor|exists 0; by repeat constructor| |by repeat constructor|by split].
  apply (seg_cons 16 19 500 3); [done|done|]. constructor.
Qed.

Lemma merge_skip_unmapped_spec a c un y s t rest :
  merge_source a c un y s t → merge_skip_unmapped (un ++ (y :: s) ++ rest) = Ret (length un).
Proof.
  intros [Hun _ Hs Hm _]. apply seg_cons_inv in Hs as (_ & ? & _).
  apply Forall_cons_1 in Hm as [Hm _]. unfold mapped_run in Hm. cbn [app].
  induction Hun as [|e un [? E] _ IH]; cbn [app merge_skip_unmapped length].
  - by zdec.
  - rewrite IH. rewrite E. rewrite (proj2 (Z.eqb_neq _ _)) by lia. done.
Qed.

Lemma merge_find_final_spec a c un y s t rest :
  merge_source a c un y s t →
  merge_find_final (un ++ (y :: s) ++ t :: rest) (length (un ++ y :: s)) =
    Ret (length un + length s)%nat.
Proof.
  intros [_ _ _ Hm (_ & _ & Ht)].
  replace (un ++ (y :: s) ++ t :: rest) with ((un ++ y :: s) ++ t :: rest) by (by app_norm).
  destruct (list.last (y :: s)) as [w|] eqn:Hl; [|by apply last_None in Hl].
  apply last_Some in Hl as [s0 Es]. rewrite Es in Hm |- *.
  assert (length s = length s0) as -> by (apply (f_equal length) in Es; len).
  apply Forall_app in Hm as [_ [Hw _]%Forall_cons_1]. unfold mapped_run in Hw.
  replace (length (un ++ s0 ++ [w])) with (S (length (un ++ s0))) by glen.
  cbn [merge_find_final]. rewrite (rd_at (un ++ s0 ++ [w]) _ 0 _ t), bind_Ret by (done || glen).
  zdec. rewrite (assoc_L (++) un), <- (assoc_L (++) (un ++ s0)). cbn [app].
  destruct (length (un ++ s0)) as [|n] eqn:En; cbn [merge_find_final].
  - f_equal. len.
  - rewrite (rd_at (un ++ s0) _ 0 _ w), bind_Ret by (done || lia). zdec. f_equal. len.
Qed.

(** ** Lookups in a spliced array *)

Lemma splice_spec b x y l1 h l2 M :
  wf_rl 0 b (l1 ++ h :: l2) → vcn h = x → y = x + rlen h → 0 < rlen h → seg x y M →
  wf_rl 0 b (l1 ++ M ++ l2) ∧
  ∀ v, lcn_of (l1 ++ M ++ l2) v =
    if (x <=? v) && (v <? y) then lcn_of M v else lcn_of (l1 ++ h :: l2) v.
Proof.
  intros Hwf <- -> Hh HM. apply wf_rl_app_inv in Hwf as (d & H1 & Hwf); [|done].
  apply wf_rl_cons_inv in Hwf as (<- & [(?&_)|(_ & _ & H2)]); [lia|]. split.
  { apply (wf_rl_app 0 (vcn h)); [done|]. by apply (wf_rl_app _ (vcn h + rlen h)). }
  intros v. rewrite !lcn_of_app. cbn [lcn_of].
  destruct (Z.leb_spec (vcn h) v), (Z.ltb_spec v (vcn h + rlen h)); cbn [andb].
  - rewrite (lcn_of_ge _ _ _ _ H1) by done. by destruct (lcn_of_in _ _ _ v HM) as [z ->].
  - by rewrite (lcn_of_ge _ _ _ _ H1), (lcn_of_ge _ _ _ _ HM) by done.
  - by rewrite (lcn_of_lt _ _ _ _ HM) by done.
  - lia.
Qed.

(** A hole or unmapped region [h] with a part of it filled. *)
Definition filled (h : ntfs_rl_element) (a c : Z) (s : list ntfs_rl_element) : list ntfs_rl_element :=
  (if vcn h =? a then [] else [mk_rle (vcn h) (lcn h) (a - vcn h)]) ++ s ++
  (if vcn h + rlen h =? c then [] else [mk_rle c (lcn h) (vcn h + rlen h - c)]).

Lemma filled_spec h a c s :
  LCN_RL_NOT_MAPPED ≤ lcn h < 0 → vcn h ≤ a → c ≤ vcn h + rlen h → seg a c s →
  seg (vcn h) (vcn h + rlen h) (filled h a c s) ∧
  ∀ v, vcn h ≤ v < vcn h + rlen h →
    lcn_of (filled h a c s) v = if (a <=? v) && (v <? c) then lcn_of s v else Some (lcn h).
Proof.
  intros Hl Ha Hc Hs. pose proof (seg_le _ _ _ Hs).
  set (pre := if vcn h =? a then [] else [mk_rle (vcn h) (lcn h) (a - vcn h)]).
  set (post := if vcn h + rlen h =? c then [] else [mk_rle c (lcn h) (vcn h + rlen h - c)]).
  assert (seg (vcn h) a pre ∧ ∀ v, vcn h ≤ v < a → lcn_of pre v = Some (lcn h)) as [Hpre Hlpre].
  { unfold pre. destruct (Z.eqb_spec (vcn h) a) as [->|]; [split; [constructor|lia]|]. split.
    - apply seg_cons'; simpl; [done|lia|lia|]. replace (vcn h + (a - vcn h)) with a by lia. constructor.
    - intros v Hv. simpl. zdec. unfold run_lcn. simpl. by zdec. }
  assert (seg c (vcn h + rlen h) post ∧ ∀ v, c ≤ v < vcn h + rlen h → lcn_of post v = Some (lcn h))
    as [Hpost Hlpost].
  { unfold post. destruct (Z.eqb_spec (vcn h + rlen h) c) as [->|]; [split; [constructor|lia]|]. split.
    - apply seg_cons'; simpl; [done|lia|lia|].
      replace (c + (vcn h + rlen h - c)) with (vcn h + rlen h) by lia. constructor.
    - intros v Hv. simpl. zdec. unfold run_lcn. simpl. by zdec. }
  unfold filled. fold pre post. split.
  - eapply seg_app; [done|]. by eapply seg_app.
  - intros v Hv. rewrite !lcn_of_app.
    destruct (Z.leb_spec a v), (Z.ltb_spec v c); cbn [andb].
    + rewrite (lcn_of_ge _ _ _ _ Hpre) by done. by destruct (lcn_of_in _ _ _ v Hs) as [z ->].
    + rewrite (lcn_of_ge _ _ _ _ Hpre), (lcn_of_ge _ _ _ _ Hs) by done. apply Hlpost. lia.
    + by rewrite Hlpre by lia.
    + lia.
Qed.

(** ** The merge *)

Lemma merge_source_lookup a c un y s t v :
  merge_source a c un y s t → a ≤ v < c →
  lcn_of (un ++ (y :: s) ++ [t]) v = lcn_of (y :: s) v.
Proof.
  intros [_ [a0 Hun] Hs _ _] Hv. rewrite !lcn_of_app, (lcn_of_ge _ _ _ _ Hun) by lia.
  by destruct (lcn_of_in _ _ _ v Hs Hv) as [x ->].
Qed.

(** The four kinds of merge put the source into the hole. *)
Lemma merge_fill_dispatch b a c l1 h l2 y s extra junk :
  wf_rl 0 b (l1 ++ h :: l2) → roomy (mk_used (l1 ++ h :: l2) junk) →
  (length (l1 ++ h :: l2) + length (y :: s) + 1 ≤ max_elements)%nat →
  lcn h = LCN_HOLE ∨ lcn h = LCN_RL_NOT_MAPPED → 0 < rlen h →
  vcn h ≤ a → c ≤ vcn h + rlen h → seg a c (y :: s) → Forall mapped_run (y :: s) →
  let d := mk_used (l1 ++ h :: l2) junk in
  let m := (if vcn h =? a then
      if vcn h + rlen h <=? c then ntfs_rl_replace else ntfs_rl_insert
    else if vcn h + rlen h <=? c then ntfs_rl_append else ntfs_rl_split)
    d ((y :: s) ++ extra) (length (y :: s)) (length l1) in
  m = Ret (ENOMEM, d) ∨
  ∃ l junk', m = Ret (0, mk_used l junk') ∧ roomy (mk_used l junk') ∧ wf_rl 0 b l ∧
    ∀ v, lcn_of l v = lcn_of (l1 ++ filled h a c (y :: s) ++ l2) v.
Proof.
  intros Hwf Hroom Hmax Hlcn Hh Ha Hc Hs Hm d m.
  assert (vcn y = a) as Hya by (by apply seg_cons_inv in Hs as [? _]).
  destruct (filled_spec h a c (y :: s)) as [Hf _]; [unfold LCN_HOLE, LCN_RL_NOT_MAPPED in *; lia|done..|].
  destruct (splice_spec b (vcn h) (vcn h + rlen h) l1 h l2 _ Hwf eq_refl eq_refl Hh Hf) as [Hwl _].
  assert (∃ z q, l2 = z :: q ∧ vcn z = vcn h + rlen h ∧ seg 0 (vcn h) l1) as (z & q & -> & Hz & Hl1).
  { apply wf_rl_app_inv in Hwf as (x & ? & Hwf); [|done].
    apply wf_rl_cons_inv in Hwf as (<- & [(?&_)|(_&_&Hwf)]); [lia|].
    destruct (wf_rl_head _ _ _ Hwf) as (z & q & -> & ?). eauto 10. }
  unfold filled in *. subst m d.
  destruct (Z.eqb_spec (vcn h) a) as [E1|E1], (Z.leb_spec (vcn h + rlen h) c) as [E2|E2];
    cbn [app] in *.
  - rewrite (proj2 (Z.eqb_eq _ _)), app_nil_r in * by lia.
    apply (ntfs_rl_replace_spec b l1 h (z :: q) (y :: s) extra junk); [done|len|done..].
  - rewrite (proj2 (Z.eqb_neq _ _)) in * by lia. app_norm_in Hwl. app_norm.
    destruct (ntfs_rl_insert_spec c l1 h (z :: q) y s extra junk)
      as [Hx|(l & junk' & Hx & Hr & Hj)]; [len|congruence|congruence|done|by left|right].
    assert (insert_next c h (z :: q) = mk_rle c (lcn h) (vcn h + rlen h - c)) as En.
    { simpl. rewrite Hz. by destruct Hlcn as [-> | ->]. }
    rewrite En in Hj. cbn [app] in Hj. destruct (joined_spec 0 b _ _ _ Hj Hwl) as [? ?]; [|eauto 10].
    right. intros ? ? [= <- _]. by apply seg_cons_inv in Hs as (_ & ? & _).
  - rewrite (proj2 (Z.eqb_eq _ _)), app_nil_r in * by lia.
    pose proof (ntfs_rl_append_spec b l1 h (z :: q) y s extra junk) as Hx.
    unfold set_len in Hx. rewrite Hya in Hx. apply Hx; [done|len|done..].
  - rewrite (proj2 (Z.eqb_neq (vcn h + rlen h) _)) in * by lia. app_norm_in Hwl. app_norm.
    destruct (list.last (y :: s)) as [w|] eqn:Hw; [|by apply last_None in Hw].
    assert (vcn w + rlen w = c) as Hwc.
    { apply last_Some in Hw as [s0 Es]. rewrite Es in Hs.
      by apply seg_app_inv in Hs as (d & _ & (<- & _ & -> & _)%seg_one). }
    pose proof (ntfs_rl_split_spec l1 h z q y s extra junk w Hw) as Hx.
    rewrite Hya, Hwc, Hz in Hx. destruct Hx as [?|(junk' & ? & ?)]; [len|by left|right].
    eexists _, junk'. split_and!; done.
Qed.

(** What [ntfs_rl_merge] does up to the insertion. *)
Lemma ntfs_rl_merge_searches b a c l1 h l2 dj un y s t sj :
  wf_rl 0 b (l1 ++ h :: l2) → at_vcn h a → 0 ≤ a → merge_source a c un y s t →
  (vcn h ≠ a ∨ lcn h < 0) →
  let dst := mk_used (l1 ++ h :: l2) dj in
  let start := (lcn h <? LCN_RL_NOT_MAPPED) || (vcn h =? a) in
  let finish := (LCN_RL_NOT_MAPPED <=? lcn h) && (vcn h + rlen h <=? c) in
  ntfs_rl_merge dst (mk_used (un ++ (y :: s) ++ [t]) sj) =
    ('(err, dst) ←
      (let ss := (length (y :: s) + Nat.b2n (finish && (rlen h =? 0)%Z))%nat in
       finish ← (if lcn t =? LCN_ENOENT then
              p ← rd (un ++ (y :: s) ++ t :: sj) (length un + length s);
              Ret (finish && negb (vcn p <? vcn h + rlen h))
            else Ret finish);
       (if (start : bool) then
          if (finish : bool) then ntfs_rl_replace else ntfs_rl_insert
        else if (finish : bool) then ntfs_rl_append else ntfs_rl_split)
         dst ((y :: s) ++ t :: sj) ss (length l1));
     if negb (err =? 0) then Ret (err, dst) else
     if lcn t =? LCN_ENOENT then merge_marker dst c else Ret (0, dst)).
Proof.
  intros Hwf Hh Ha Hms Hlcn. pose proof Hms as [_ _ Hs _ (Ht & _)].
  assert (vcn y = a) as Hya by (by apply seg_cons_inv in Hs as [? _]).
  assert (0 < rlen y) by (by apply seg_cons_inv in Hs as (_ & ? & _)).
  unfold ntfs_rl_merge. simpl elements. simpl rl.
  rewrite !(proj2 (Nat.eqb_neq _ _)) by glen.
  cbn [app]. rewrite <- (assoc_L (++) un). cbn [app]. rewrite <- (assoc_L (++) s). cbn [app].
  pose proof (merge_skip_unmapped_spec a c _ _ _ _ (t :: sj) Hms) as Hsk. cbn [app] in Hsk.
  rewrite Hsk, bind_Ret, rd_middle, bind_Ret, (proj2 (Z.eqb_neq _ _)) by lia.
  rewrite merge_find_ins_seek, Hya, (rl_seek_at 0 b), bind_Ret by done.
  unfold merge_at. simpl elements. simpl rl. app_norm. cbn [app].
  rewrite !rd_middle, !bind_Ret. rewrite Hya.
  replace ((vcn h =? a) && (0 <=? lcn h) && (0 <=? lcn y)) with false by (symmetry; ztests; lia).
  pose proof (merge_find_final_spec a c _ _ _ _ sj Hms) as Hfin. cbn [app] in Hfin.
  replace (length (un ++ y :: s ++ [t]) - 1)%nat with (length (un ++ y :: s)) by glen.
  rewrite Hfin, bind_Ret.
  assert (rd (un ++ y :: s ++ t :: sj) (length (un ++ y :: s)) = Ret t) as Hrt.
  { change (y :: s ++ t :: sj) with ((y :: s) ++ t :: sj). rewrite (assoc_L (++)). apply rd_middle. }
  rewrite Hrt, bind_Ret, Ht, drop_app_length.
  replace (length un + length s - length un + 1)%nat with (length (y :: s)) by (simpl; lia).
  replace (length (un ++ y :: s ++ [t]) - 2)%nat with (length un + length s)%nat by glen.
  rewrite (proj2 (Nat.ltb_lt 0 _)), andb_true_r by glen.
  destruct (rd (un ++ y :: s ++ t :: sj) (length un + length s)), (lcn t =? LCN_ENOENT);
    cbn [mbind outcome_bind]; try done; destruct (_ || _); lazymatch goal with
    | |- context [if ?f then ntfs_rl_replace else _] => by destruct f
    | |- context [if ?f then ntfs_rl_append else _] => by destruct f
    end.
Qed.

(** The result of filling a part of a hole. *)
Lemma merge_fill b a c l1 h l2 dj un y s t sj :
  wf_rl 0 b (l1 ++ h :: l2) → roomy (mk_used (l1 ++ h :: l2) dj) →
  (length (l1 ++ h :: l2) + length (y :: s) + 1 ≤ max_elements)%nat →
  lcn h = LCN_HOLE ∨ lcn h = LCN_RL_NOT_MAPPED → 0 ≤ a → vcn h ≤ a → c ≤ vcn h + rlen h →
  merge_source a c un y s t → lcn t ≠ LCN_ENOENT →
  let dst := mk_used (l1 ++ h :: l2) dj in
  let src := mk_used (un ++ (y :: s) ++ [t]) sj in
  ntfs_rl_merge dst src = Ret (ENOMEM, dst) ∨
  ∃ l junk', ntfs_rl_merge dst src = Ret (0, mk_used l junk') ∧ roomy (mk_used l junk') ∧
    wf_rl 0 b l ∧
    ∀ v, lcn_of l v = if (a <=? v) && (v <? c) then lcn_of (used src) v else lcn_of (used dst) v.
Proof.
  intros Hwf Hroom Hmax Hlcn Ha0 Ha Hc Hms Ht dst src. pose proof Hms as [_ _ Hs Hm _].
  assert (a < c) by (apply seg_cons_inv in Hs as (_ & ? & _ & ?%seg_le); lia).
  assert (LCN_RL_NOT_MAPPED ≤ lcn h < 0) by (unfold LCN_HOLE, LCN_RL_NOT_MAPPED in *; lia).
  subst dst src. rewrite !used_mk_used.
  rewrite (ntfs_rl_merge_searches b a c) by (done || (split; lia) || lia).
  rewrite (proj2 (Z.eqb_neq (lcn t) _)), bind_Ret by done.
  rewrite (proj2 (Z.ltb_ge (lcn h) _)), (proj2 (Z.leb_le _ (lcn h))) by lia. cbn [orb andb].
  rewrite (proj2 (Z.eqb_neq (rlen h) 0)), andb_false_r, Nat.add_0_r by lia.
  destruct (merge_fill_dispatch b a c l1 h l2 y s (t :: sj) dj)
    as [Hx|(l & junk' & Hx & Hr & Hw & Hl)]; [done..|lia|done|done|done|done| |];
    cbv zeta in Hx; rewrite Hx; [by left|right].
  exists l, junk'. split_and!; [done..|]. intros v. rewrite Hl.
  destruct (filled_spec h a c (y :: s)) as [Hf Hfl]; [done..|].
  destruct (splice_spec b (vcn h) (vcn h + rlen h) l1 h l2 (filled h a c (y :: s)) Hwf
    eq_refl eq_refl) as [_ ->]; [lia|done|].
  destruct (decide (vcn h ≤ v < vcn h + rlen h)) as [Hv|Hv].
  - rewrite Hfl by done. zdec. destruct (Z.leb_spec a v), (Z.ltb_spec v c); cbn [andb].
    1: by rewrite (merge_source_lookup a c) by done.
    all: apply wf_rl_app_inv in Hwf as (d & Hl1 & Hwf); [|done].
    all: destruct (wf_rl_cons_inv _ _ _ _ Hwf) as [<- _].
    all: rewrite lcn_of_app, (lcn_of_ge _ _ _ _ Hl1) by lia; cbn [lcn_of].
    all: zdec; unfold run_lcn; zdec; done || lia.
  - replace ((vcn h <=? v) && (v <? vcn h + rlen h)) with false by (symmetry; ztests).
    replace ((a <=? v) && (v <? c)) with false by (symmetry; ztests). done.
Qed.


(** Runs followed by a gap and more runs. *)
Definition extended (b a : Z) (l1 s : list ntfs_rl_element) : list ntfs_rl_element :=
  l1 ++ (if b =? a then [] else [mk_rle b LCN_RL_NOT_MAPPED (a - b)]) ++ s.

Lemma extended_spec b a c l1 s t :
  0 ≤ b ≤ a → seg 0 b l1 → seg a c s → terminator c t →
  wf_rl 0 c (extended b a l1 s ++ [t]) ∧
  ∀ v, 0 ≤ v < c → lcn_of (extended b a l1 s ++ [t]) v =
    if v <? b then lcn_of l1 v else if v <? a then Some LCN_RL_NOT_MAPPED else lcn_of s v.
Proof.
  intros Hb Hl1 Hs Ht. unfold extended.
  set (gap := if b =? a then [] else [mk_rle b LCN_RL_NOT_MAPPED (a - b)]).
  assert (seg b a gap ∧ ∀ v, b ≤ v < a → lcn_of gap v = Some LCN_RL_NOT_MAPPED) as [Hg Hlg].
  { unfold gap. destruct (Z.eqb_spec b a) as [->|]; [split; [constructor|lia]|]. split.
    - apply seg_cons'; simpl; [done|lia|done|]. replace (b + (a - b)) with a by lia. constructor.
    - intros v Hv. simpl. by zdec. }
  split.
  - rewrite <- !(assoc_L (++)). eapply wf_rl_app; [done|]. eapply wf_rl_app; [done|].
    eapply wf_rl_app; [done|]. by apply wf_rl_one.
  - intros v Hv. rewrite !lcn_of_app.
    destruct (Z.ltb_spec v b); [destruct (lcn_of_in _ _ _ v Hl1) as [? ->]; [lia|done]|].
    rewrite (lcn_of_ge _ _ _ _ Hl1) by done.
    destruct (Z.ltb_spec v a); [by rewrite Hlg by lia|].
    rewrite (lcn_of_ge _ _ _ _ Hg) by done. destruct (lcn_of_in _ _ _ v Hs) as [? ->]; [lia|done].
Qed.

Lemma joined_snoc p y s t l : joined p (y :: s ++ [t]) l → ∃ l', l = l' ++ [t].
Proof.
  intros [->|(p' & x & y' & s' & _ & E & _ & ->)].
  - exists (p ++ y :: s). by app_norm.
  - injection E as <- <-. exists (p' ++ rl_merge_run x y :: s). by app_norm.
Qed.

(** Both kinds of insertion before the terminator. *)
Lemma merge_extend_insert b a c l1 h y s extra junk :
  wf_rl 0 b (l1 ++ [h]) → (length (l1 ++ [h]) + length (y :: s) + 1 ≤ max_elements)%nat →
  lcn h = LCN_ENOENT → b ≤ a → seg a c (y :: s) → Forall mapped_run (y :: s) →
  let m := ntfs_rl_insert (mk_used (l1 ++ [h]) junk) ((y :: s) ++ extra) (length (y :: s)) (length l1) in
  m = Ret (ENOMEM, mk_used (l1 ++ [h]) junk) ∨
  ∃ l junk', m = Ret (0, mk_used (l ++ [mk_rle c LCN_ENOENT 0]) junk') ∧
    roomy (mk_used (l ++ [mk_rle c LCN_ENOENT 0]) junk') ∧
    wf_rl 0 c (l ++ [mk_rle c LCN_ENOENT 0]) ∧
    ∀ v, lcn_of (l ++ [mk_rle c LCN_ENOENT 0]) v =
      lcn_of (extended b a l1 (y :: s) ++ [mk_rle c LCN_ENOENT 0]) v.
Proof.
  intros Hwf Hmax Hh Hb Hs Hm m. subst m.
  assert (vcn y = a) as Hya by (by apply seg_cons_inv in Hs as [? _]).
  apply wf_rl_app_inv in Hwf as (d & Hl1 & Hwf); [|done].
  apply wf_rl_cons_inv in Hwf as (<- & [(Hz & _ & Hb' & _)|(_&_&?%wf_rl_not_nil)]); [|done].
  pose proof (seg_le _ _ _ Hl1) as H0.
  assert (set_vcn c h = mk_rle c LCN_ENOENT 0) as Eh by (unfold set_vcn; by rewrite Hh, Hz).
  destruct (extended_spec b a c l1 (y :: s) (mk_rle c LCN_ENOENT 0)) as [Hwe _];
    [lia|by rewrite <- Hb'|done|done|].
  unfold extended in *. destruct (Z.eqb_spec b a) as [->|Hne].
  - cbn [app] in *. destruct (ntfs_rl_insert_spec c l1 h [] y s extra junk)
      as [Hx|(l & junk' & Hx & Hr & Hj)]; [len|congruence|congruence|by rewrite Hh|by left|right].
    simpl insert_next in Hj. rewrite Eh in Hj. app_norm_in Hwe.
    destruct (joined_spec 0 c _ _ _ Hj Hwe) as [Hw Hl].
    { right. intros ? ? [= <- _]. by apply seg_cons_inv in Hs as (_ & ? & _). }
    destruct (joined_snoc _ _ _ _ _ Hj) as [l' ->]. exists l', junk'.
    split_and!; [done..|]. intros v. rewrite Hl. by app_norm.
  - pose proof (ntfs_rl_insert_gap_spec b c l1 h y s extra junk) as Hx.
    rewrite Hya, Eh in Hx. destruct Hx as [Hx|(junk' & Hx & Hr)];
      [len|by rewrite <- Hb'|lia|by apply Forall_cons_1 in Hm as [? _]|done|by rewrite Hh|by left|right].
    exists (l1 ++ mk_rle b LCN_RL_NOT_MAPPED (a - b) :: y :: s), junk'.
    rewrite <- !(assoc_L (++)) in *. done.
Qed.

(** The marker code has nothing to do when the merged runlist ends at the marker. *)
Lemma merge_marker_noop l c junk :
  merge_marker (mk_used (l ++ [mk_rle c LCN_ENOENT 0]) junk) c =
    Ret (0, mk_used (l ++ [mk_rle c LCN_ENOENT 0]) junk).
Proof.
  unfold merge_marker. simpl elements. simpl rl. simpl alloc_count.
  replace (length (l ++ [mk_rle c LCN_ENOENT 0]) - 1)%nat with (length l) by glen. app_norm.
  rewrite rd_middle, bind_Ret. cbn [vcn]. zdec. rewrite upd_middle, bind_Ret.
  do 2 f_equal. apply mk_used_eq; [by app_norm|done|glen].
Qed.

Lemma merge_extend b a c l1 h dj un y s t sj :
  wf_rl 0 b (l1 ++ [h]) → (length (l1 ++ [h]) + length (y :: s) + 1 ≤ max_elements)%nat →
  lcn h = LCN_ENOENT → b ≤ a → merge_source a c un y s t →
  let dst := mk_used (l1 ++ [h]) dj in
  let src := mk_used (un ++ (y :: s) ++ [t]) sj in
  let t' := mk_rle c LCN_ENOENT 0 in
  ntfs_rl_merge dst src = Ret (ENOMEM, dst) ∨
  ∃ l junk', ntfs_rl_merge dst src = Ret (0, mk_used (l ++ [t']) junk') ∧
    roomy (mk_used (l ++ [t']) junk') ∧ wf_rl 0 c (l ++ [t']) ∧
    ∀ v, lcn_of (l ++ [t']) v = lcn_of (extended b a l1 (y :: s) ++ [t']) v.
Proof.
  intros Hwf Hmax Hh Hb Hms dst src t'. pose proof Hms as [_ _ Hs Hm _].
  pose proof (wf_rl_le _ _ _ Hwf).
  assert (vcn h = b ∧ rlen h = 0) as [Hv Hz].
  { apply wf_rl_app_inv in Hwf as (d & _ & Hwf); [|done].
    by apply wf_rl_cons_inv in Hwf as (<- & [(? & _ & ? & _)|(_&_&?%wf_rl_not_nil)]). }
  subst dst src. rewrite (ntfs_rl_merge_searches b a c); [|done|split; [lia|by left]|lia|done|right; by rewrite Hh].
  assert (∃ p, rd (un ++ (y :: s) ++ t :: sj) (length un + length s) = Ret p) as [p Hp].
  { unfold rd. destruct (lookup_lt_is_Some_2 (un ++ (y :: s) ++ t :: sj) (length un + length s))
      as [p ->]; [glen|eauto]. }
  cbv zeta. rewrite Hh, Hp. cbn [mbind outcome_bind orb].
  replace (if lcn t =? LCN_ENOENT then _ else _) with (Ret (A := bool) false) by (by destruct (lcn t =? LCN_ENOENT)).
  cbn [mbind outcome_bind Z.ltb Z.compare orb andb LCN_ENOENT LCN_RL_NOT_MAPPED Nat.b2n].
  rewrite Nat.add_0_r.
  destruct (merge_extend_insert b a c l1 h y s (t :: sj) dj)
    as [Hx|(l & junk' & Hx & Hr & Hw & Hl)]; [done..| |]; cbv zeta in Hx;
    change (LCN_ENOENT <? LCN_RL_NOT_MAPPED) with true; cbn [orb]; rewrite Hx; cbn; [by left|right].
  exists l, junk'. split_and!; [|done..]. case_match; [apply merge_marker_noop|done].
Qed.

(** Merging mapped runs [a, c) behind the end of the destination appends them: the
    result maps [0, c), with the gap between the two marked as not mapped, and ends with
    LCN_ENOENT. *)
Theorem ntfs_rl_merge_extend b a c dst src l1 h un y s t :
  runlist_ok b dst → buf_ok src → (elements dst + elements src ≤ max_elements)%nat →
  used dst = l1 ++ [h] → lcn h = LCN_ENOENT →
  used src = un ++ (y :: s) ++ [t] → merge_source a c un y s t → b ≤ a →
  ∃ err r', ntfs_rl_merge dst src = Ret (err, r') ∧
    ((err = ENOMEM ∧ r' = dst) ∨
     (err = 0 ∧ runlist_ok c r' ∧ roomy r' ∧
      list.last (used r') = Some (mk_rle c LCN_ENOENT 0) ∧
      ∀ v, 0 ≤ v < c → lcn_of (used r') v =
        if v <? b then lcn_of (used dst) v
        else if v <? a then Some LCN_RL_NOT_MAPPED else lcn_of (used src) v)).
Proof.
  intros (l & dj & -> & Hwf)%runlist_ok_inv Hbuf Hmax.
  destruct (buf_ok_inv src Hbuf) as [sj Es]. rewrite !used_mk_used. intros -> Hh Hus Hms Hb.
  rewrite Hus in Es. subst src. simpl in Hmax. pose proof (wf_rl_le _ _ _ Hwf).
  destruct (merge_extend b a c l1 h dj un y s t sj) as [->|(l' & junk' & -> & ? & ? & Hl)];
    [done|len|done..| |]; eexists _, _; (split; [done|]); [by left|right].
  rewrite !used_mk_used in *. split_and!; [done|by apply runlist_ok_mk_used|done|by rewrite last_snoc|].
  intros v Hv. rewrite Hl. pose proof Hms as [_ _ Hs _ _].
  assert (seg 0 b l1) as Hl1.
  { apply wf_rl_app_inv in Hwf as (d & Hl1 & Hwf); [|done].
    by apply wf_rl_cons_inv in Hwf as (_ & [(_ & _ & <- & _)|(_&_&?%wf_rl_not_nil)]). }
  destruct (extended_spec b a c l1 (y :: s) (mk_rle c LCN_ENOENT 0)) as [_ He]; [lia|done..|].
  rewrite He by done. destruct (Z.ltb_spec v b); [rewrite lcn_of_app; destruct (lcn_of_in _ _ _ v Hl1) as [? ->]; [lia|done]|].
  destruct (Z.ltb_spec v a); [done|]. by rewrite (merge_source_lookup a c) by (done || lia).
Qed.

(** Merging into an empty runlist takes over the source; the VCNs before its first run
    become not mapped. *)
Theorem ntfs_rl_merge_first a c dst src :
  elements dst = 0%nat → buf_ok src → (elements src < max_elements)%nat →
  wf_rl a c (used src) → 0 ≤ a →
  ∃ err r', ntfs_rl_merge dst src = Ret (err, r') ∧
    ((err = ENOMEM ∧ r' = dst) ∨
     (err = 0 ∧ runlist_ok c r' ∧
      ∀ v, lcn_of (used r') v =
        if (0 <=? v) && (v <? a) then Some LCN_RL_NOT_MAPPED else lcn_of (used src) v)).
Proof.
  intros Hd Hb Hmax Hwf Ha. destruct (buf_ok_inv src Hb) as [sj Es].
  set (l := used src) in *. clearbody l. subst src. simpl in Hmax. clear Hb.
  unfold ntfs_rl_merge, merge_first. rewrite Hd. simpl elements. simpl rl.
  destruct (wf_rl_head _ _ _ Hwf) as (e & l' & El & He).
  rewrite (proj2 (Nat.eqb_neq _ _)) by (rewrite El; glen). cbn [Nat.eqb].
  rewrite (rd_Ret _ 0 e), bind_Ret, He by (by rewrite El).
  destruct (Z.eqb_spec a 0) as [->|Hne]; cbn [negb].
  { eexists _, _. split; [done|]. right. rewrite used_mk_used.
    split_and!; [done|by apply runlist_ok_mk_used|]. intros v. by ztests. }
  destruct (ntfs_rl_ins_spec [] l sj 1) as [Hx|(gap & junk' & Hg & Hx & _)]; [lia|simpl; lia|..];
    cbn [app length] in Hx; rewrite Hx; cbn [mbind outcome_bind negb Z.eqb];
    [eexists _, _; split; [done|by left]|].
  destruct gap as [|g []]; try done. exists 0, (mk_used (mk_rle 0 LCN_RL_NOT_MAPPED a :: l) junk').
  split.
  - rewrite El. unfold upd, rd, wr. simpl. by rewrite He.
  - right. rewrite used_mk_used. split_and!; [done|apply runlist_ok_mk_used|].
    + apply wf_rl_cons; simpl; [done|lia|done|done].
    + intros v. simpl. unfold run_lcn. simpl. done.
Qed.
End merge.


(** ** Two corners of merging *)

(** Overlapping runlists are only rejected when the first mapped run of the source
    starts where a mapped run of the destination starts.  Here the source lies
    inside a mapped run: the merge succeeds, and the rest of the destination run
    gets the wrong clusters (100 instead of 107). *)
Example ntfs_rl_merge_overlap :
  let dst := mk_used [mk_rle 0 100 10; mk_rle 10 LCN_ENOENT 0] (replicate 40 (mk_rle 0 0 0)) in
  let src := mk_used [mk_rle 0 LCN_RL_NOT_MAPPED 5; mk_rle 5 200 2; mk_rle 7 LCN_RL_NOT_MAPPED 0]
               (replicate 39 (mk_rle 0 0 0)) in
  (r ← @ntfs_rl_merge zero_allocator dst src; Ret (fst r, used (snd r))) =
  Ret (0, [mk_rle 0 100 5; mk_rle 5 200 2; mk_rle 7 100 3; mk_rle 10 LCN_ENOENT 0]).
Proof. vm_compute. reflexivity. Qed.

(** A source that ends the attribute leaves an empty element in front of the
    terminator when it fills the not mapped region exactly. *)
Example ntfs_rl_merge_empty_element :
  let dst := mk_used [mk_rle 0 100 10; mk_rle 10 LCN_RL_NOT_MAPPED 10; mk_rle 20 LCN_ENOENT 0]
               (replicate 39 (mk_rle 0 0 0)) in
  let src := mk_used [mk_rle 0 LCN_RL_NOT_MAPPED 10; mk_rle 10 200 10; mk_rle 20 LCN_ENOENT 0]
               (replicate 39 (mk_rle 0 0 0)) in
  (r ← @ntfs_rl_merge zero_allocator dst src; Ret (fst r, used (snd r))) =
  Ret (0, [mk_rle 0 100 10; mk_rle 10 200 10; mk_rle 20 LCN_RL_NOT_MAPPED 0; mk_rle 20 LCN_ENOENT 0]).
Proof. vm_compute. reflexivity. Qed.
