(* ===== verification/MappingPairs.v ===== *)
(** * Mapping pairs

    The on-disk form of a runlist: [ntfs_get_nr_significant_bytes],
    [ntfs_get_size_for_mapping_pairs], [ntfs_write_significant_bytes] and
    [ntfs_mapping_pairs_build] of [kext/ntfs_runlist.c].  The size function is
    proved to compute exactly the space the build function needs, the build
    function is proved to write the encoding of the runs (or, on ENOSPC, of the
    runs that fit). *)

From S2P Require Import Prelude Bytes Runlist RunlistBuf RunlistPunch.

(** ** Significant bytes *)

(** [do { l >>= 8; i++; } while (l != 0 && l != -1);]  An [s64] is shifted out
    after eight rounds. *)
Fixpoint nsb_loop (fuel : nat) (l i : Z) : Z :=
  match fuel with
  | O => i
  | S fuel =>
      let l := Z.shiftr l 8 in
      let i := i + 1 in
      if (l =? 0) || (l =? -1) then i else nsb_loop fuel l i
  end.

Definition ntfs_get_nr_significant_bytes (n : Z) : Z :=
  let i := nsb_loop 8 n 0 in
  let j := s8 (Z.shiftr n (8 * (i - 1))) in
  if ((n <? 0) && (0 <=? j)) || ((0 <? n) && (j <? 0)) then i + 1 else i.

(** The writing loop: the buffer, the next position and the number of bytes
    written, or [None] when the buffer is full. *)
Fixpoint wsb_loop (fuel : nat) (buf : list Z) (dst dst_max : nat) (l i : Z)
    : outcome (list Z * option (nat * Z)) :=
  match fuel with
  | O => Ret (buf, Some (dst, i))
  | S fuel =>
      if (dst_max <? dst)%nat then Ret (buf, None) else
      buf ← wr buf dst (u8 l);
      let dst := (dst + 1)%nat in
      let l := Z.shiftr l 8 in
      let i := i + 1 in
      if (l =? 0) || (l =? -1) then Ret (buf, Some (dst, i))
      else wsb_loop fuel buf dst dst_max l i
  end.

(** The number of bytes written, or [- ENOSPC]. *)
Definition ntfs_write_significant_bytes (buf : list Z) (dst dst_max : nat) (n : Z)
    : outcome (list Z * Z) :=
  '(buf, res) ← wsb_loop 8 buf dst dst_max n 0;
  match res with
  | None => Ret (buf, - ENOSPC)
  | Some (dst, i) =>
      let j := s8 (Z.shiftr n (8 * (i - 1))) in
      if (n <? 0) && (0 <=? j) then
        if (dst_max <? dst)%nat then Ret (buf, - ENOSPC)
        else buf ← wr buf dst (u8 (-1)); Ret (buf, i + 1)
      else if (0 <? n) && (j <? 0) then
        if (dst_max <? dst)%nat then Ret (buf, - ENOSPC)
        else buf ← wr buf dst 0; Ret (buf, i + 1)
      else Ret (buf, i)
  end.

(** ** The size of the mapping pairs array *)

(** The error of an element that cannot be stored. *)
Definition mp_error (e : ntfs_rl_element) : Z :=
  if lcn e =? LCN_RL_NOT_MAPPED then EINVAL else EIO.

(** The length to store for a run of [length] clusters at [vcn], and whether it is
    the last one; [next] is the element behind the run. *)
Definition mp_cap (last_vcn v length : Z) (next : list ntfs_rl_element) : outcome (Z * bool) :=
  if 0 <=? last_vcn then
    e1 ← rd next 0;
    if last_vcn <? vcn e1 then
      let s1 := last_vcn + 1 in
      Ret (if s1 <? vcn e1 then s1 - v else length, true)
    else Ret (length, false)
  else Ret (length, false).

(** The loop over the full runs. *)
Fixpoint mp_size_loop (major_ver last_vcn : Z) (l : list ntfs_rl_element) (the_end : bool)
    (prev_lcn rls : Z) : outcome (Z * Z) :=
  match l with
  | [] => Oob
  | e :: l' =>
      if (rlen e =? 0) || the_end then Ret (0, rls) else
      if (rlen e <? 0) || (lcn e <? LCN_HOLE) then Ret (mp_error e, rls) else
      '(length, the_end) ← mp_cap last_vcn (vcn e) (rlen e) l';
      let rls := rls + 1 + ntfs_get_nr_significant_bytes length in
      if (0 <=? lcn e) || (major_ver <? 3) then
        mp_size_loop major_ver last_vcn l' the_end (lcn e)
          (rls + ntfs_get_nr_significant_bytes (lcn e - prev_lcn))
      else mp_size_loop major_ver last_vcn l' the_end prev_lcn rls
  end.

(** From the element containing [first_vcn] on. *)
Definition mp_size_from (major_ver first_vcn last_vcn : Z) (l : list ntfs_rl_element)
    : outcome (Z * Z) :=
  e ← rd l 0;
  if ((rlen e =? 0) && (vcn e <? first_vcn)) || (first_vcn <? vcn e) then Ret (EINVAL, 0) else
  if vcn e <? first_vcn then
    if (rlen e <? 0) || (lcn e <? LCN_HOLE) then Ret (mp_error e, 1) else
    '(length, the_end) ← mp_cap last_vcn (vcn e) (rlen e) (drop 1 l);
    let delta := first_vcn - vcn e in
    let rls := 1 + (1 + ntfs_get_nr_significant_bytes (length - delta)) in
    if (0 <=? lcn e) || (major_ver <? 3) then
      let prev_lcn := if 0 <=? lcn e then lcn e + delta else lcn e in
      mp_size_loop major_ver last_vcn (drop 1 l) the_end prev_lcn
        (rls + ntfs_get_nr_significant_bytes prev_lcn)
    else mp_size_loop major_ver last_vcn (drop 1 l) the_end 0 rls
  else mp_size_loop major_ver last_vcn l false 0 1.

(** The result is the error and [*mp_size]; the empty array is the NULL runlist. *)
Definition ntfs_get_size_for_mapping_pairs (major_ver : Z) (l : list ntfs_rl_element)
    (first_vcn last_vcn : Z) : outcome (Z * Z) :=
  if first_vcn <? 0 then Panic else
  if last_vcn <? -1 then Panic else
  if (0 <=? last_vcn) && (last_vcn <? first_vcn) then Panic else
  if bool_decide (l = []) then
    if negb (first_vcn =? 0) then Panic else
    if 0 <? last_vcn then Panic else Ret (0, 1)
  else
    i ← rl_seek l first_vcn;
    mp_size_from major_ver first_vcn last_vcn (drop i l).

(** ** Building the mapping pairs array *)

(** A result: the error, [*stop_vcn] where it is set, and the buffer. *)
Record mp_result := mk_mp_result { mp_err : Z; mp_stop : option Z; mp_buf : list Z }.

(** [size_err] and the successful return: set the stop vcn and the terminator. *)
Definition mp_stop_at (err stop : Z) (buf : list Z) (dst : nat) : outcome mp_result :=
  buf ← wr buf dst 0; Ret (mk_mp_result err (Some stop) buf).

(** Write one mapping pair; [None] when it does not fit. *)
Definition mp_write_pair (buf : list Z) (dst dst_max : nat) (length : Z) (delta : option Z)
    : outcome (list Z * option nat) :=
  '(buf, len_len) ← ntfs_write_significant_bytes buf (dst + 1) dst_max length;
  if len_len <? 0 then Ret (buf, None) else
  '(buf, lcn_len) ←
    match delta with
    | Some d => ntfs_write_significant_bytes buf (dst + 1 + Z.to_nat len_len) dst_max d
    | None => Ret (buf, 0)
    end;
  if lcn_len <? 0 then Ret (buf, None) else
  let dst_next := (dst + Z.to_nat len_len + Z.to_nat lcn_len + 1)%nat in
  if (dst_max <? dst_next)%nat then Ret (buf, None) else
  buf ← wr buf dst (u8 (Z.lor (Z.shiftl lcn_len 4) len_len));
  Ret (buf, Some dst_next).

(** The loop over the full runs. *)
Fixpoint mp_build_loop (major_ver last_vcn : Z) (l : list ntfs_rl_element) (the_end : bool)
    (prev_lcn : Z) (buf : list Z) (dst dst_max : nat) : outcome mp_result :=
  match l with
  | [] => Oob
  | e :: l' =>
      if (rlen e =? 0) || the_end then mp_stop_at 0 (vcn e) buf dst else
      if (rlen e <? 0) || (lcn e <? LCN_HOLE) then Ret (mk_mp_result (mp_error e) None buf) else
      '(length, the_end) ← mp_cap last_vcn (vcn e) (rlen e) l';
      let stored := (0 <=? lcn e) || (major_ver <? 3) in
      '(buf, next) ← mp_write_pair buf dst dst_max length
                       (if stored then Some (lcn e - prev_lcn) else None);
      match next with
      | None => mp_stop_at ENOSPC (vcn e) buf dst
      | Some dst =>
          mp_build_loop major_ver last_vcn l' the_end (if stored then lcn e else prev_lcn)
            buf dst dst_max
      end
  end.

(** From the element containing [first_vcn] on. *)
Definition mp_build_from (major_ver first_vcn last_vcn : Z) (l : list ntfs_rl_element)
    (buf : list Z) (dst_max : nat) : outcome mp_result :=
  e ← rd l 0;
  if ((rlen e =? 0) && (vcn e <? first_vcn)) || (first_vcn <? vcn e)
  then Ret (mk_mp_result EINVAL None buf) else
  if vcn e <? first_vcn then
    if (rlen e <? 0) || (lcn e <? LCN_HOLE) then Ret (mk_mp_result (mp_error e) None buf) else
    '(length, the_end) ← mp_cap last_vcn (vcn e) (rlen e) (drop 1 l);
    let delta := first_vcn - vcn e in
    let stored := (0 <=? lcn e) || (major_ver <? 3) in
    let prev_lcn := if 0 <=? lcn e then lcn e + delta else lcn e in
    '(buf, next) ← mp_write_pair buf 0 dst_max (length - delta)
                     (if stored then Some prev_lcn else None);
    match next with
    | None => mp_stop_at ENOSPC (vcn e) buf 0
    | Some dst =>
        mp_build_loop major_ver last_vcn (drop 1 l) the_end (if stored then prev_lcn else 0)
          buf dst dst_max
    end
  else mp_build_loop major_ver last_vcn l false 0 buf 0 dst_max.

(** The destination buffer is [buf], of [dst_len] bytes. *)
Definition ntfs_mapping_pairs_build (major_ver : Z) (buf : list Z) (dst_len : nat)
    (l : list ntfs_rl_element) (first_vcn last_vcn : Z) : outcome mp_result :=
  if first_vcn <? 0 then Panic else
  if last_vcn <? -1 then Panic else
  if (0 <=? last_vcn) && (last_vcn <? first_vcn) then Panic else
  if (dst_len <? 1)%nat then Panic else
  if bool_decide (l = []) then
    if negb (first_vcn =? 0) then Panic else
    if 0 <? last_vcn then Panic else
    buf ← wr buf 0 0; Ret (mk_mp_result 0 (Some 0) buf)
  else
    i ← rl_seek l first_vcn;
    mp_build_from major_ver first_vcn last_vcn (drop i l) buf (dst_len - 1).

(** ** Two's complement bytes *)

(** [n] is a signed number of [k] bytes. *)
Definition fits (k : nat) (n : Z) : Prop :=
  - (128 * 256 ^ (Z.of_nat k - 1)) ≤ n < 128 * 256 ^ (Z.of_nat k - 1).

Lemma pow256_pos k : 0 < 256 ^ Z.of_nat k.
Proof. apply Z.pow_pos_nonneg; lia. Qed.

Lemma pow256_S k : 256 ^ Z.of_nat (S k) = 256 * 256 ^ Z.of_nat k.
Proof. rewrite Nat2Z.inj_succ, Z.pow_succ_r by lia. done. Qed.

Lemma div_pow256_S n k : n / 256 ^ Z.of_nat (S k) = n / 256 / 256 ^ Z.of_nat k.
Proof. rewrite pow256_S. symmetry. pose proof (pow256_pos k). apply Z.div_div; lia. Qed.

Lemma lookup_le_bytes k n i :
  (i < k)%nat → le_bytes k n !! i = Some ((n / 256 ^ Z.of_nat i) mod 256).
Proof.
  revert n i. induction k as [|k IH]; intros n i Hi; [lia|]. destruct i as [|i]; simpl le_bytes.
  - simpl. by rewrite Z.div_1_r.
  - simpl lookup. rewrite IH by lia. by rewrite div_pow256_S.
Qed.

Lemma le_bytes_snoc k n : le_bytes (S k) n = le_bytes k n ++ [(n / 256 ^ Z.of_nat k) mod 256].
Proof.
  revert n. induction k as [|k IH]; intros n; [simpl; by rewrite Z.div_1_r|].
  cbn [le_bytes]. cbn [le_bytes] in IH. rewrite IH. by rewrite div_pow256_S.
Qed.

Lemma shiftr_8 n : Z.shiftr n 8 = n / 256.
Proof. by rewrite Z.shiftr_div_pow2 by lia. Qed.

Lemma shiftr_8_mul n (k : nat) : Z.shiftr n (8 * Z.of_nat k) = n / 256 ^ Z.of_nat k.
Proof. rewrite Z.shiftr_div_pow2 by lia. by rewrite Z.pow_mul_r by lia. Qed.

(** A quotient that is [0] or [-1]: nothing is left but the sign. *)
Lemma div_sign n p : 0 < p → n / p = 0 ∨ n / p = -1 ↔ - p ≤ n < p.
Proof.
  intros Hp. split.
  - intros H. pose proof (Z.div_mod n p). pose proof (Z.mod_pos_bound n p). nia.
  - intros H. pose proof (Z.div_mod n p). pose proof (Z.mod_pos_bound n p). nia.
Qed.

(** The first round after which only the sign is left. *)
Lemma nsb_loop_spec fuel l i0 :
  (0 < fuel)%nat → l / 256 ^ Z.of_nat fuel = 0 ∨ l / 256 ^ Z.of_nat fuel = -1 →
  ∃ k, nsb_loop fuel l i0 = i0 + Z.of_nat (S k) ∧ (k < fuel)%nat ∧
    (l / 256 ^ Z.of_nat (S k) = 0 ∨ l / 256 ^ Z.of_nat (S k) = -1) ∧
    (∀ j, (0 < j ≤ k)%nat → l / 256 ^ Z.of_nat j ≠ 0 ∧ l / 256 ^ Z.of_nat j ≠ -1).
Proof.
  revert l i0. induction fuel as [|fuel IH]; intros l i0 Hf Hl; [lia|]. cbn [nsb_loop].
  rewrite shiftr_8. rewrite div_pow256_S in Hl.
  destruct (decide (l / 256 = 0 ∨ l / 256 = -1)) as [Hd|Hd].
  { exists 0%nat. replace ((l / 256 =? 0) || (l / 256 =? -1)) with true
      by (symmetry; destruct Hd as [-> | ->]; done).
    split_and!; [lia|lia| |lia]. by rewrite div_pow256_S, Z.div_1_r. }
  rewrite (proj2 (Z.eqb_neq _ _)), (proj2 (Z.eqb_neq _ _)) by tauto. cbn [orb].
  destruct fuel as [|fuel].
  { simpl in Hl. rewrite Z.div_1_r in Hl. tauto. }
  destruct (IH (l / 256) (i0 + 1)) as (k & -> & Hk & Hs & Hm); [lia|done|].
  exists (S k). split_and!; [lia|lia| |].
  - by rewrite div_pow256_S.
  - intros [|[|j]] Hj; [lia| |].
    + rewrite div_pow256_S, Z.div_1_r. tauto.
    + rewrite div_pow256_S. apply Hm. lia.
Qed.

Definition s64_range (n : Z) : Prop := - 2 ^ 63 ≤ n < 2 ^ 63.

Lemma s64_fits n : s64_range n ↔ fits 8 n.
Proof. done. Qed.

Lemma fits_div k n :
  fits (S k) n ↔ -128 ≤ n / 256 ^ Z.of_nat k < 128.
Proof.
  unfold fits. replace (Z.of_nat (S k) - 1) with (Z.of_nat k) by lia.
  set (p := 256 ^ Z.of_nat k). assert (0 < p) by apply pow256_pos.
  pose proof (Z.div_mod n p). pose proof (Z.mod_pos_bound n p). split; nia.
Qed.

Lemma fits_sign k n : (0 < k)%nat → fits k n → n / 256 ^ Z.of_nat k = 0 ∨ n / 256 ^ Z.of_nat k = -1.
Proof.
  destruct k as [|k]; [lia|]. intros _ H%fits_div. pose proof (pow256_pos k).
  rewrite pow256_S, Z.mul_comm, <- Z.div_div by lia. apply div_sign; lia.
Qed.

Lemma fits_mono j k n : (0 < j ≤ k)%nat → fits j n → fits k n.
Proof.
  unfold fits. intros Hjk Hj.
  assert (256 ^ (Z.of_nat j - 1) ≤ 256 ^ (Z.of_nat k - 1)) by (apply Z.pow_le_mono_r; lia). lia.
Qed.

(** The sign test of the two functions, in round [k + 1]. *)
Lemma sign_test k n :
  n / 256 ^ Z.of_nat (S k) = 0 ∨ n / 256 ^ Z.of_nat (S k) = -1 →
  let j := s8 (Z.shiftr n (8 * (Z.of_nat (S k) - 1))) in
  if ((n <? 0) && (0 <=? j)) || ((0 <? n) && (j <? 0)) then ¬ fits (S k) n else fits (S k) n.
Proof.
  intros Hs. replace (8 * (Z.of_nat (S k) - 1)) with (8 * Z.of_nat k) by lia.
  pose proof (fits_div k n) as Hf. rewrite shiftr_8_mul. rewrite pow256_S in Hs.
  pose proof (pow256_pos k) as Hp. set (p := 256 ^ Z.of_nat k) in *. apply div_sign in Hs; [|lia].
  pose proof (Z.div_mod n p). pose proof (Z.mod_pos_bound n p).
  assert (-256 ≤ n / p < 256) by nia.
  assert (n < 0 ↔ n / p < 0) as Hn by nia.
  assert (n = 0 → n / p = 0) by nia. set (x := n / p) in *. cbv zeta.
  unfold swrap. change (2 ^ (8 - 1)) with 128. change (2 ^ 8) with 256.
  assert (∃ q, (x + 128) mod 256 = x + 128 + 256 * q ∧ -1 ≤ q ≤ 1 ∧ 0 ≤ x + 128 + 256 * q < 256)
    as (q & -> & Hq & Hr) by (exists (- ((x + 128) / 256)); zdiv).
  destruct (Z.ltb_spec n 0), (Z.ltb_spec 0 n); cbn [andb orb]; ztests; rewrite Hf; lia.
Qed.

Lemma nr_significant_bytes_spec n :
  s64_range n →
  ∃ k, ntfs_get_nr_significant_bytes n = Z.of_nat k ∧ (1 ≤ k ≤ 8)%nat ∧ fits k n ∧
    ∀ j, (1 ≤ j < k)%nat → ¬ fits j n.
Proof.
  intros Hn. destruct (nsb_loop_spec 8 n 0) as (k & Hl & Hk & Hs & Hm);
    [lia|apply fits_sign; [lia|by apply s64_fits]|].
  unfold ntfs_get_nr_significant_bytes. rewrite Hl, Z.add_0_l.
  assert (∀ j, (1 ≤ j < S k)%nat → ¬ fits j n) as Hm'.
  { intros j Hj Hf. destruct (Hm j) as [??]; [lia|].
    apply fits_sign in Hf; [|lia]. tauto. }
  pose proof (sign_test k n Hs) as Ht. cbv zeta in Ht |- *. case_match.
  - exists (S (S k)). split_and!; [lia|lia| | |].
    + destruct (decide (k = 7)%nat) as [->|]; [by apply s64_fits in Hn|lia].
    + apply fits_div. lia.
    + intros j Hj. destruct (decide (j = S k)) as [->|]; [done|]. apply Hm'. lia.
  - exists (S k). split_and!; [lia..|done|done].
Qed.

(** ** Writing *)

(** The bytes of [n], as many as are significant. *)
Definition nrb (n : Z) : nat := Z.to_nat (ntfs_get_nr_significant_bytes n).
Definition sig_bytes (n : Z) : list Z := le_bytes (nrb n) n.

Lemma nrb_spec n :
  s64_range n →
  ntfs_get_nr_significant_bytes n = Z.of_nat (nrb n) ∧ (1 ≤ nrb n ≤ 8)%nat ∧ fits (nrb n) n.
Proof.
  intros (k & E & Hk & Hf & _)%nr_significant_bytes_spec. unfold nrb. rewrite E.
  by rewrite Nat2Z.id.
Qed.

Lemma wr_app {A} (p rest : list A) x y : wr (p ++ y :: rest) (length p) x = Ret (p ++ x :: rest).
Proof. apply wr_middle. Qed.

Lemma nsb_loop_shift fuel l i0 : nsb_loop fuel l i0 = i0 + nsb_loop fuel l 0.
Proof.
  revert l i0. induction fuel as [|fuel IH]; intros l i0; cbn [nsb_loop]; [lia|].
  case_match; [lia|]. rewrite IH, (IH _ (0 + 1)). lia.
Qed.

(** The writing loop; the buffer is [p ++ rest] and the next position that of
    [rest]. *)
Lemma wsb_loop_spec fuel p rest dst_max l i0 m :
  (S dst_max ≤ length (p ++ rest))%nat → (0 < fuel)%nat →
  l / 256 ^ Z.of_nat fuel = 0 ∨ l / 256 ^ Z.of_nat fuel = -1 →
  nsb_loop fuel l 0 = Z.of_nat m →
  if (length p + m <=? S dst_max)%nat
  then wsb_loop fuel (p ++ rest) (length p) dst_max l i0 =
         Ret (p ++ le_bytes m l ++ drop m rest, Some ((length p + m)%nat, i0 + Z.of_nat m))
  else ∃ rest', wsb_loop fuel (p ++ rest) (length p) dst_max l i0 = Ret (p ++ rest', None) ∧
         length rest' = length rest.
Proof.
  revert p rest l i0 m. induction fuel as [|fuel IH]; intros p rest l i0 m Hmax Hf Hl Hm; [lia|].
  assert (0 < m)%nat as Hm0.
  { destruct (nsb_loop_spec (S fuel) l 0) as (k & E & _); [lia|done|]. rewrite Hm in E. lia. }
  cbn [wsb_loop nsb_loop] in *. rewrite shiftr_8 in *. rewrite div_pow256_S in Hl.
  destruct (Nat.ltb_spec dst_max (length p)) as [Hfull|Hfull].
  { rewrite (proj2 (Nat.leb_gt _ _)) by lia. eauto. }
  destruct rest as [|y rest]; [len|]. rewrite wr_app, bind_Ret.
  destruct ((l / 256 =? 0) || (l / 256 =? -1)) eqn:Ht.
  { assert (m = 1)%nat as -> by lia. rewrite (proj2 (Nat.leb_le _ _)) by lia. simpl. by rewrite drop_0. }
  destruct fuel as [|fuel].
  { simpl in Hl. rewrite Z.div_1_r in Hl. zbool. lia. }
  rewrite nsb_loop_shift in Hm. destruct m as [|m]; [lia|].
  specialize (IH (p ++ [u8 l]) rest (l / 256) (i0 + 1) m).
  replace (length (p ++ [u8 l])) with (length p + 1)%nat in IH by glen. app_norm_in IH.
  specialize (IH ltac:(len) ltac:(lia) Hl ltac:(lia)).
  replace (length p + 1 + m)%nat with (length p + S m)%nat in IH by lia.
  cbn [le_bytes drop]. change (l mod 256) with (u8 l). case_match.
  - rewrite IH. cbn [app]. do 4 f_equal. lia.
  - destruct IH as (rest' & -> & Hr). exists (u8 l :: rest'). split; [by app_norm|]. simpl. by rewrite Hr.
Qed.

(** [ntfs_write_significant_bytes] writes the significant bytes, or nothing but
    garbage when they do not fit. *)
Lemma write_significant_bytes_spec p rest dst_max n :
  (S dst_max ≤ length (p ++ rest))%nat → s64_range n →
  if (length p + nrb n <=? S dst_max)%nat
  then ntfs_write_significant_bytes (p ++ rest) (length p) dst_max n =
         Ret (p ++ sig_bytes n ++ drop (nrb n) rest, Z.of_nat (nrb n))
  else ∃ rest', ntfs_write_significant_bytes (p ++ rest) (length p) dst_max n =
           Ret (p ++ rest', - ENOSPC) ∧ length rest' = length rest.
Proof.
  rewrite length_app. intros Hmax Hn. assert (n / 256 ^ Z.of_nat 8 = 0 ∨ n / 256 ^ Z.of_nat 8 = -1) as Hs8
    by (apply fits_sign; [lia|by apply s64_fits]).
  destruct (nsb_loop_spec 8 n 0) as (k & Hl & Hk & Hs & _); [lia|done|].
  pose proof (wsb_loop_spec 8 p rest dst_max n 0 (S k) ltac:(rewrite length_app; lia) ltac:(lia) Hs8 Hl) as Hw.
  unfold sig_bytes, nrb, ntfs_get_nr_significant_bytes, ntfs_write_significant_bytes.
  rewrite Hl, Z.add_0_l.
  destruct (Nat.leb_spec (length p + S k) (S dst_max)) as [Hfit|Hfit].
  2: { destruct Hw as (rest' & -> & Hr). cbv zeta.
    rewrite (proj2 (Nat.leb_gt _ _)) by (case_match; lia). eauto. }
  rewrite Hw. cbn [mbind outcome_bind]. rewrite Z.add_0_l. cbv zeta.
  set (j := s8 (Z.shiftr n (8 * (Z.of_nat (S k) - 1)))).
  assert (∀ x, (n / 256 ^ Z.of_nat (S k)) mod 256 = x →
    let m := if (dst_max <? length p + S k)%nat
      then Ret (p ++ le_bytes (S k) n ++ drop (S k) rest, - ENOSPC)
      else buf ← wr (p ++ le_bytes (S k) n ++ drop (S k) rest) (length p + S k) x;
           Ret (buf, Z.of_nat (S k) + 1) in
    let m' := Z.to_nat (Z.of_nat (S k) + 1) in
    if (length p + m' <=? S dst_max)%nat
    then m = Ret (p ++ le_bytes m' n ++ drop m' rest, Z.of_nat m')
    else ∃ rest', m = Ret (p ++ rest', - ENOSPC) ∧ length rest' = length rest) as Hextra.
  { intros x Hx. cbv zeta. replace (Z.to_nat (Z.of_nat (S k) + 1)) with (S (S k)) by lia.
    destruct (Nat.ltb_spec dst_max (length p + S k)).
    - rewrite (proj2 (Nat.leb_gt _ _)) by lia. eexists. split; [done|]. glen.
    - rewrite (proj2 (Nat.leb_le _ _)) by lia. rewrite (le_bytes_snoc (S k)), Hx.
      destruct (drop (S k) rest) as [|y rest2] eqn:Ed.
      { apply (f_equal length) in Ed. rewrite length_drop in Ed. simpl in Ed. lia. }
      replace (drop (S (S k)) rest) with rest2
        by (replace (S (S k)) with (S k + 1)%nat by lia; rewrite <- drop_drop, Ed; by destruct rest2).
      rewrite (assoc_L (++) p). replace (length p + S k)%nat with (length (p ++ le_bytes (S k) n))
        by (rewrite length_app, le_bytes_length; lia).
      rewrite wr_app, bind_Ret. app_norm. do 2 f_equal. lia. }
  destruct ((n <? 0) && (0 <=? j)) eqn:E1; [|destruct ((0 <? n) && (j <? 0)) eqn:E2]; cbn [orb].
  - apply Hextra. zbool. pose proof (pow256_pos (S k)). assert (n / 256 ^ Z.of_nat (S k) = -1) as ->; [|done].
    destruct Hs as [Hs|Hs]; [|done]. apply Z.div_small_iff in Hs; lia.
  - apply Hextra. clear E1. zbool. pose proof (pow256_pos (S k)). assert (n / 256 ^ Z.of_nat (S k) = 0) as ->; [|done].
    destruct Hs as [Hs|Hs]; [done|]. pose proof (Z.div_pos n (256 ^ Z.of_nat (S k))). lia.
  - rewrite Nat2Z.id. by rewrite (proj2 (Nat.leb_le _ _)).
Qed.

(** ** The encoding of runs *)

Definition delta_bytes (d : option Z) : list Z :=
  match d with Some d => sig_bytes d | None => [] end.

(** One mapping pair: the header byte, the length and the change of the LCN. *)
Definition enc_pair (n : Z) (d : option Z) : list Z :=
  (16 * Z.of_nat (length (delta_bytes d)) + Z.of_nat (nrb n)) :: sig_bytes n ++ delta_bytes d.

Lemma length_sig_bytes n : length (sig_bytes n) = nrb n.
Proof. apply le_bytes_length. Qed.
#[export] Hint Rewrite length_sig_bytes : ntfs_len.

Lemma length_enc_pair n d :
  length (enc_pair n d) = (1 + nrb n + length (delta_bytes d))%nat.
Proof. unfold enc_pair. simpl. by rewrite length_app, length_sig_bytes. Qed.
#[export] Hint Rewrite length_enc_pair : ntfs_len.

Lemma header_byte (a b : nat) :
  (a ≤ 8)%nat → (b ≤ 8)%nat →
  u8 (Z.lor (Z.shiftl (Z.of_nat a) 4) (Z.of_nat b)) = 16 * Z.of_nat a + Z.of_nat b.
Proof.
  intros Ha Hb. do 9 (destruct a as [|a]; [do 9 (destruct b as [|b]; [done|]); lia|]). lia.
Qed.

Definition opt_range (d : option Z) : Prop := match d with Some d => s64_range d | None => True end.

Lemma mp_write_pair_spec p rest dst_max n d :
  (S dst_max ≤ length (p ++ rest))%nat → (length p ≤ dst_max)%nat → s64_range n → opt_range d →
  if (length p + length (enc_pair n d) <=? dst_max)%nat
  then mp_write_pair (p ++ rest) (length p) dst_max n d =
         Ret (p ++ enc_pair n d ++ drop (length (enc_pair n d)) rest,
              Some (length p + length (enc_pair n d))%nat)
  else ∃ rest', mp_write_pair (p ++ rest) (length p) dst_max n d = Ret (p ++ rest', None) ∧
         length rest' = length rest.
Proof.
  rewrite length_app, length_enc_pair. intros Hmax Hp Hn Hd. unfold mp_write_pair.
  destruct rest as [|y rest]; [simpl in *; lia|]. simpl in Hmax.
  pose proof (nrb_spec n Hn) as (_ & Hkn & _).
  pose proof (write_significant_bytes_spec (p ++ [y]) rest dst_max n) as H1.
  rewrite !length_app in H1. app_norm_in H1. simpl length in H1.
  specialize (H1 ltac:(simpl; lia) Hn).
  destruct (Nat.leb_spec (length p + 1 + nrb n) (S dst_max)) as [Hf1|Hf1].
  2: { destruct H1 as (rest' & -> & Hr). rewrite (proj2 (Nat.leb_gt _ _)) by lia.
    exists (y :: rest'). split; [by rewrite <- (assoc_L (++))|simpl; by rewrite Hr]. }
  rewrite H1. cbn [mbind outcome_bind]. clear H1. rewrite (proj2 (Z.ltb_ge _ _)) by lia.
  rewrite !Nat2Z.id.
  set (r1 := drop (nrb n) rest).
  assert (length r1 = length rest - nrb n)%nat as Hr1 by apply length_drop.
  assert (let m := match d with
      | Some d => ntfs_write_significant_bytes (p ++ y :: sig_bytes n ++ r1)
                    (length p + 1 + nrb n) dst_max d
      | None => Ret (p ++ y :: sig_bytes n ++ r1, 0)
      end in
    let k := length (delta_bytes d) in
    if (length p + 1 + nrb n + k <=? S dst_max)%nat
    then m = Ret (p ++ y :: sig_bytes n ++ delta_bytes d ++ drop k r1, Z.of_nat k)
    else ∃ r2, m = Ret (p ++ y :: sig_bytes n ++ r2, - ENOSPC) ∧ length r2 = length r1) as H2.
  { destruct d as [d|]; simpl.
    - pose proof (write_significant_bytes_spec (p ++ y :: sig_bytes n) r1 dst_max d) as H2.
      replace (length (p ++ y :: sig_bytes n)) with (length p + 1 + nrb n)%nat in H2 by glen.
      specialize (H2 ltac:(autorewrite with ntfs_len; simpl; lia) Hd). rewrite length_sig_bytes.
      rewrite <- (assoc_L (++) p) in H2. cbn [app] in H2. case_match.
      + rewrite H2. by rewrite <- (assoc_L (++) p).
      + destruct H2 as (r2 & -> & ?). exists r2. by rewrite <- (assoc_L (++) p).
    - rewrite (proj2 (Nat.leb_le _ _)) by lia. by rewrite drop_0. }
  cbv zeta in H2. set (k := length (delta_bytes d)) in *.
  assert (k ≤ 8)%nat as Hk.
  { unfold k. destruct d as [d|]; simpl; [rewrite length_sig_bytes; apply nrb_spec in Hd as (_ & ? & _); lia|lia]. }
  destruct (Nat.leb_spec (length p + 1 + nrb n + k) (S dst_max)) as [Hf2|Hf2].
  2: { destruct H2 as (r2 & -> & Hr). cbn [mbind outcome_bind]. change (- ENOSPC <? 0) with true.
    cbv iota. rewrite (proj2 (Nat.leb_gt _ _)) by lia.
    exists (y :: sig_bytes n ++ r2). split; [done|]. simpl. rewrite length_app, length_sig_bytes. lia. }
  rewrite H2. cbn [mbind outcome_bind]. rewrite (proj2 (Z.ltb_ge _ _)), Nat2Z.id by lia.
  destruct (Nat.ltb_spec dst_max (length p + nrb n + k + 1)).
  { rewrite (proj2 (Nat.leb_gt _ _)) by lia. eexists. split; [done|].
    simpl. rewrite !length_app, length_sig_bytes, length_drop. fold k. lia. }
  rewrite (proj2 (Nat.leb_le _ _)) by lia. rewrite wr_app, header_byte by lia.
  cbn [mbind outcome_bind]. unfold enc_pair. fold k. do 2 f_equal; [|f_equal; lia].
  app_norm. do 3 f_equal. unfold r1. simpl. by rewrite drop_drop, <- (assoc_L (++)).
Qed.

(** The runs to store up to [last_vcn] (-1: all of them). *)
Fixpoint mp_clip (last_vcn : Z) (l : list ntfs_rl_element) : list ntfs_rl_element :=
  match l with
  | [] => []
  | e :: l' =>
      if rlen e =? 0 then []
      else if (0 <=? last_vcn) && (last_vcn <? vcn e + rlen e)
      then [mk_rle (vcn e) (lcn e) (last_vcn + 1 - vcn e)]
      else e :: mp_clip last_vcn l'
  end.

(** The VCN of the element behind those runs, which [*stop_vcn] is set to: the end of the run of
    [last_vcn] in the runlist, even if only a part of that run is stored. *)
Fixpoint mp_after (last_vcn : Z) (l : list ntfs_rl_element) : Z :=
  match l with
  | [] => 0
  | e :: l' =>
      if rlen e =? 0 then vcn e
      else if (0 <=? last_vcn) && (last_vcn <? vcn e + rlen e) then vcn e + rlen e
      else mp_after last_vcn l'
  end.

Definition mp_stored (major_ver : Z) (e : ntfs_rl_element) : bool :=
  (0 <=? lcn e) || (major_ver <? 3).

(** The mapping pairs of an array of runs, without the terminator. *)
Fixpoint mp_enc (major_ver prev_lcn : Z) (runs : list ntfs_rl_element) : list Z :=
  match runs with
  | [] => []
  | e :: runs =>
      enc_pair (rlen e) (if mp_stored major_ver e then Some (lcn e - prev_lcn) else None) ++
      mp_enc major_ver (if mp_stored major_ver e then lcn e else prev_lcn) runs
  end.

(** Runs whose numbers are those of a volume: no arithmetic overflows. *)
Definition mp_run (e : ntfs_rl_element) : Prop :=
  0 ≤ rlen e < 2 ^ 62 ∧ LCN_HOLE ≤ lcn e < 2 ^ 62.

Lemma mp_cap_spec a b e l junk last_vcn :
  wf_rl a b (e :: l) → 0 < rlen e → mp_cap last_vcn (vcn e) (rlen e) (l ++ junk) =
    Ret (if (0 <=? last_vcn) && (last_vcn <? vcn e + rlen e)
         then (last_vcn + 1 - vcn e, true) else (rlen e, false)).
Proof.
  intros (<- & [(?&_)|(_&_&Hwf)])%wf_rl_cons_inv Hz; [lia|].
  destruct (wf_rl_head _ _ _ Hwf) as (e1 & l' & -> & He1). unfold mp_cap.
  destruct (Z.leb_spec 0 last_vcn); [|done]. cbn [andb app]. unfold rd. simpl. rewrite He1.
  destruct (Z.ltb_spec last_vcn (vcn e + rlen e)); [|done].
  do 2 f_equal. ztests; lia.
Qed.

Lemma mp_stored_range major_ver prev e :
  mp_run e → LCN_HOLE ≤ prev < 2 ^ 62 →
  opt_range (if mp_stored major_ver e then Some (lcn e - prev) else None) ∧
  LCN_HOLE ≤ (if mp_stored major_ver e then lcn e else prev) < 2 ^ 62.
Proof. unfold mp_run, LCN_HOLE. intros. case_match; simpl; unfold s64_range; lia. Qed.

(** Size and encoding of one run. *)
Lemma size_enc_pair n d :
  s64_range n → opt_range d →
  Z.of_nat (length (enc_pair n d)) =
    1 + ntfs_get_nr_significant_bytes n +
    match d with Some d => ntfs_get_nr_significant_bytes d | None => 0 end.
Proof.
  intros Hn Hd. rewrite length_enc_pair. destruct (nrb_spec n Hn) as (-> & _ & _).
  destruct d as [d|]; simpl; [|lia]. rewrite length_sig_bytes.
  destruct (nrb_spec d Hd) as (-> & _ & _). lia.
Qed.

(** The first iteration of both loops. *)
Lemma mp_clip_cons a b e l last_vcn :
  wf_rl a b (e :: l) → 0 < rlen e → -1 ≤ last_vcn → last_vcn = -1 ∨ a ≤ last_vcn →
  Forall mp_run (mp_clip last_vcn (e :: l)) →
  let capped := (0 <=? last_vcn) && (last_vcn <? vcn e + rlen e) in
  let n := if capped then last_vcn + 1 - vcn e else rlen e in
  mp_clip last_vcn (e :: l) =
    mk_rle (vcn e) (lcn e) n :: (if capped then [] else mp_clip last_vcn l) ∧
  s64_range n ∧ mp_run (mk_rle (vcn e) (lcn e) n) ∧ LCN_HOLE ≤ lcn e ∧
  wf_rl (a + rlen e) b l ∧
  (capped = false → Forall mp_run (mp_clip last_vcn l) ∧ (last_vcn = -1 ∨ a + rlen e ≤ last_vcn)).
Proof.
  intros (<- & [(?&_)|(_&_&Hwf)])%wf_rl_cons_inv Hz Hl1 Hlast Hr; [lia|].
  cbn [mp_clip] in *. rewrite (proj2 (Z.eqb_neq _ _)) in * by lia. cbv zeta.
  destruct ((0 <=? last_vcn) && (last_vcn <? vcn e + rlen e)) eqn:Hc.
  - apply Forall_cons_1 in Hr as [Hr _]. unfold mp_run in Hr. simpl in Hr.
    split_and!; try done; unfold s64_range; simpl; lia.
  - apply Forall_cons_1 in Hr as [Hr Hrs]. unfold mp_run in Hr.
    split_and!; try done; try (unfold s64_range; lia); [by destruct e|].
    intros _. split; [done|]. destruct Hlast as [?|?]; [by left|]. zbool; lia.
Qed.

(** The loop of the size function. *)
Lemma mp_size_loop_spec a b l junk major_ver last_vcn prev rls :
  wf_rl a b l → Forall mp_run (mp_clip last_vcn l) → -1 ≤ last_vcn →
  last_vcn = -1 ∨ a ≤ last_vcn → LCN_HOLE ≤ prev < 2 ^ 62 →
  mp_size_loop major_ver last_vcn (l ++ junk) false prev rls =
    Ret (0, rls + Z.of_nat (length (mp_enc major_ver prev (mp_clip last_vcn l)))).
Proof.
  revert a prev rls. induction l as [|e l IH]; intros a prev rls Hwf Hr Hl1 Hlast Hprev;
    [by apply wf_rl_not_nil in Hwf|].
  destruct (decide (rlen e = 0)) as [Hz|Hz].
  { simpl. rewrite Hz. simpl. do 2 f_equal. lia. }
  assert (0 < rlen e) by (apply wf_rl_cons_inv in Hwf as (_ & [(?&_)|(?&_)]); lia).
  destruct (mp_clip_cons a b e l last_vcn) as (-> & Hn & Hrun & Hl & Hwf' & Hrest); [done..|].
  cbn [app mp_size_loop]. rewrite (mp_cap_spec a b) by done. cbn [mbind outcome_bind].
  rewrite (proj2 (Z.eqb_neq (rlen e) 0)), (proj2 (Z.ltb_ge (rlen e) 0)),
    (proj2 (Z.ltb_ge (lcn e) LCN_HOLE)) by lia. cbn [orb].
  set (capped := (0 <=? last_vcn) && (last_vcn <? vcn e + rlen e)) in *.
  replace (if capped then (last_vcn + 1 - vcn e, true) else (rlen e, false))
    with (if capped then last_vcn + 1 - vcn e else rlen e, capped) by (by destruct capped).
  set (n := if capped then last_vcn + 1 - vcn e else rlen e) in *.
  destruct (mp_stored_range major_ver prev _ Hrun Hprev) as [Hd Hp].
  cbn [mp_enc]. rewrite length_app, Nat2Z.inj_add, size_enc_pair by done.
  unfold mp_stored in *. cbn [lcn rlen] in *. fold (mp_stored major_ver e) in *.
  assert (∀ prev rls, LCN_HOLE ≤ prev < 2 ^ 62 →
    mp_size_loop major_ver last_vcn (l ++ junk) capped prev rls =
    Ret (0, rls + Z.of_nat (length (mp_enc major_ver prev
      (if capped then [] else mp_clip last_vcn l))))) as Hloop.
  { intros prev' rls' Hp'. destruct capped.
    - destruct (wf_rl_head _ _ _ Hwf') as (e1 & l' & -> & _). simpl. rewrite orb_true_r.
      do 2 f_equal. lia.
    - destruct Hrest; [done|]. by apply (IH (a + rlen e)). }
  destruct (mp_stored major_ver e); cbn [lcn] in *; rewrite Hloop by done; do 2 f_equal; lia.
Qed.

(** What [ntfs_mapping_pairs_build] leaves in the buffer [p ++ rest] when it stores
    [runs] behind [p]: all of them if they fit, otherwise as many as fit; the
    terminator byte in both cases. *)
Definition mp_built (major_ver prev stop : Z) (runs : list ntfs_rl_element)
    (p rest : list Z) (dst_max : nat) (m : outcome mp_result) : Prop :=
  let enc := mp_enc major_ver prev runs in
  if (length p + length enc <=? dst_max)%nat
  then m = Ret (mk_mp_result 0 (Some stop) (p ++ enc ++ 0 :: drop (S (length enc)) rest))
  else ∃ runs1 e runs2 rest', runs = runs1 ++ e :: runs2 ∧
    (length p + length (mp_enc major_ver prev runs1) ≤ dst_max)%nat ∧
    (dst_max < length p + length (mp_enc major_ver prev (runs1 ++ [e])))%nat ∧
    m = Ret (mk_mp_result ENOSPC (Some (vcn e)) (p ++ mp_enc major_ver prev runs1 ++ 0 :: rest')) ∧
    length (p ++ mp_enc major_ver prev runs1 ++ 0 :: rest') = length (p ++ rest).

(** One more run in front. *)
Lemma mp_built_cons major_ver prev stop e runs p rest dst_max m :
  let d := if mp_stored major_ver e then Some (lcn e - prev) else None in
  (S dst_max ≤ length (p ++ rest))%nat → (length p + length (enc_pair (rlen e) d) ≤ dst_max)%nat →
  mp_built major_ver (if mp_stored major_ver e then lcn e else prev) stop runs
    (p ++ enc_pair (rlen e) d) (drop (length (enc_pair (rlen e) d)) rest) dst_max m →
  mp_built major_ver prev stop (e :: runs) p rest dst_max m.
Proof.
  intros d Hmax Hfit. unfold mp_built. cbv zeta. cbn [mp_enc]. fold d.
  set (ep := enc_pair (rlen e) d) in *. set (prev' := if mp_stored major_ver e then lcn e else prev).
  rewrite !length_app, <- Nat.add_assoc. case_match.
  - intros ->. do 2 f_equal. rewrite drop_drop. app_norm. do 5 f_equal. lia.
  - intros (runs1 & e1 & runs2 & rest' & -> & H1 & H2 & -> & H3).
    exists (e :: runs1), e1, runs2, rest'. cbn [app mp_enc]. fold d ep prev'.
    rewrite !length_app in *. split_and!; [done|lia|lia|by app_norm|].
    autorewrite with ntfs_len in *. lia.
Qed.

Lemma mp_stop_at_spec err stop p rest dst_max :
  (S dst_max ≤ length (p ++ rest))%nat → (length p ≤ dst_max)%nat →
  mp_stop_at err stop (p ++ rest) (length p) =
    Ret (mk_mp_result err (Some stop) (p ++ 0 :: drop 1 rest)).
Proof.
  rewrite length_app. intros. destruct rest as [|y rest]; [simpl in *; lia|].
  unfold mp_stop_at. rewrite wr_app, bind_Ret. simpl. by rewrite drop_0.
Qed.

(** The loop of the build function. *)
Lemma mp_build_loop_spec a b l junk major_ver last_vcn prev p rest dst_max :
  (S dst_max ≤ length (p ++ rest))%nat → (length p ≤ dst_max)%nat →
  wf_rl a b l → Forall mp_run (mp_clip last_vcn l) → -1 ≤ last_vcn →
  last_vcn = -1 ∨ a ≤ last_vcn → LCN_HOLE ≤ prev < 2 ^ 62 →
  mp_built major_ver prev (mp_after last_vcn l) (mp_clip last_vcn l) p rest dst_max
    (mp_build_loop major_ver last_vcn (l ++ junk) false prev (p ++ rest) (length p) dst_max).
Proof.
  revert a prev p rest. induction l as [|e l IH];
    intros a prev p rest Hmax Hp Hwf Hr Hl1 Hlast Hprev; [by apply wf_rl_not_nil in Hwf|].
  destruct (decide (rlen e = 0)) as [Hz|Hz].
  { simpl. rewrite Hz. simpl. unfold mp_built. simpl. rewrite Nat.add_0_r, (proj2 (Nat.leb_le _ _)) by done.
    by apply (mp_stop_at_spec 0 _ p rest dst_max). }
  assert (0 < rlen e) by (apply wf_rl_cons_inv in Hwf as (_ & [(?&_)|(?&_)]); lia).
  destruct (mp_clip_cons a b e l last_vcn) as (-> & Hn & Hrun & Hl & Hwf' & Hrest); [done..|].
  cbn [app mp_build_loop mp_after]. rewrite (mp_cap_spec a b) by done. cbn [mbind outcome_bind].
  rewrite (proj2 (Z.eqb_neq (rlen e) 0)), (proj2 (Z.ltb_ge (rlen e) 0)),
    (proj2 (Z.ltb_ge (lcn e) LCN_HOLE)) by lia. cbn [orb].
  set (capped := (0 <=? last_vcn) && (last_vcn <? vcn e + rlen e)) in *.
  replace (if capped then (last_vcn + 1 - vcn e, true) else (rlen e, false))
    with (if capped then last_vcn + 1 - vcn e else rlen e, capped) by (by destruct capped).
  set (n := if capped then last_vcn + 1 - vcn e else rlen e) in *.
  set (e' := mk_rle (vcn e) (lcn e) n) in *.
  destruct (mp_stored_range major_ver prev e' Hrun Hprev) as [Hd Hp'].
  fold (mp_stored major_ver e). change (mp_stored major_ver e) with (mp_stored major_ver e').
  change (lcn e) with (lcn e'). set (d := if mp_stored major_ver e' then Some (lcn e' - prev) else None) in *.
  pose proof (mp_write_pair_spec p rest dst_max n d Hmax Hp Hn Hd) as Hw.
  destruct (Nat.leb_spec (length p + length (enc_pair n d)) dst_max) as [Hfit|Hfit].
  - rewrite Hw. cbn [mbind outcome_bind]. apply mp_built_cons; [done|done|].
    change (rlen e') with n. fold d. set (ep := enc_pair n d) in *.
    assert (S dst_max ≤ length ((p ++ ep) ++ drop (length ep) rest))%nat as Hmax'
      by (rewrite !length_app, length_drop in *; lia).
    rewrite (assoc_L (++)), <- length_app. rewrite <- length_app in Hfit. destruct capped.
    + destruct (wf_rl_head _ _ _ Hwf') as (e1 & l' & -> & Hv1). cbn [app mp_build_loop].
      rewrite orb_true_r. unfold mp_built. simpl. rewrite Nat.add_0_r, (proj2 (Nat.leb_le _ _)) by done.
      apply wf_rl_cons_inv in Hwf as [<- _]. rewrite Hv1. by apply (mp_stop_at_spec 0 _ _ _ dst_max).
    + destruct Hrest; [done|]. by apply (IH (a + rlen e)).
  - destruct Hw as (rest' & -> & Hlr). cbn [mbind outcome_bind].
    rewrite (mp_stop_at_spec ENOSPC _ p rest' dst_max) by (rewrite ?length_app in *; lia).
    unfold mp_built. cbn [mp_enc]. change (rlen e') with n. fold d.
    rewrite (proj2 (Nat.leb_gt _ _)) by (rewrite length_app; lia).
    eexists [], e', _, (drop 1 rest'). split; [done|]. cbn [mp_enc app length].
    change (rlen e') with n. fold d. rewrite app_nil_r.
    split_and!; [lia|done|done|]. rewrite !length_app in *. cbn [length]. rewrite length_drop. lia.
Qed.

(** ** The whole functions *)

(** The runs from [first_vcn] on. *)
Fixpoint mp_skip (first_vcn : Z) (l : list ntfs_rl_element) : list ntfs_rl_element :=
  match l with
  | [] => []
  | e :: l' =>
      if negb (rlen e =? 0) && (vcn e + rlen e <=? first_vcn) then mp_skip first_vcn l'
      else run_drop e (first_vcn - vcn e) :: l'
  end.

Lemma mp_skip_spec a b l1 e l2 v :
  wf_rl a b (l1 ++ e :: l2) → at_vcn e v →
  mp_skip v (l1 ++ e :: l2) = run_drop e (v - vcn e) :: l2.
Proof.
  revert a. induction l1 as [|x l1 IH]; intros a Hwf He; cbn [app mp_skip].
  - destruct He as [He1 [He2|He2]]; [by rewrite He2|]. rewrite (proj2 (Z.leb_gt _ _)) by lia.
    by rewrite andb_false_r.
  - apply wf_rl_cons_inv in Hwf as (<- & [(_ & E & _)|(Hz & _ & Hwf)]); [by destruct l1|].
    pose proof Hwf as Hwf'. apply wf_rl_app_inv in Hwf' as (d & ?%seg_le & Hwe); [|done].
    destruct (wf_rl_cons_inv _ _ _ _ Hwe) as [<- _]. destruct He as [He1 He2].
    rewrite (proj2 (Z.eqb_neq _ _)), (proj2 (Z.leb_le _ _)) by lia. cbn [negb andb].
    eapply IH; [done|by split].
Qed.

Lemma wf_rl_skip a b e l v :
  wf_rl a b (e :: l) → at_vcn e v → v ≤ b → wf_rl v b (run_drop e (v - vcn e) :: l).
Proof.
  intros Hwf [He1 He2] Hb. destruct (wf_rl_cons_inv _ _ _ _ Hwf) as (Hv & Hc).
  replace v with (a + (v - vcn e)) at 1 by lia. apply wf_rl_run_drop; [done|].
  destruct Hc as [(? & _ & ? & _)|(? & _)]; lia.
Qed.

Lemma run_drop_0 e : run_drop e 0 = e.
Proof.
  destruct e as [v x n]. unfold run_drop. simpl. rewrite Z.add_0_r, Z.sub_0_r, Z.add_0_r.
  by case_match.
Qed.

Lemma mp_cap_drop last_vcn e d l : mp_cap last_vcn (vcn e + d) (rlen e - d) l =
  '(n, f) ← mp_cap last_vcn (vcn e) (rlen e) l; Ret (n - d, f).
Proof.
  unfold mp_cap. destruct (0 <=? last_vcn); [|done]. destruct (rd l 0); try done.
  cbn [mbind outcome_bind]. case_match; [|done]. cbn. do 2 f_equal. case_match; lia.
Qed.

(** The LCN of the rest of a run. *)
Lemma run_drop_lcn e d :
  0 ≤ d → (lcn (run_drop e d) <? LCN_HOLE) = (lcn e <? LCN_HOLE) ∧
  (0 <=? lcn (run_drop e d)) = (0 <=? lcn e) ∧ mp_error (run_drop e d) = mp_error e.
Proof.
  intros. unfold mp_error, run_drop, LCN_HOLE, LCN_RL_NOT_MAPPED. simpl.
  destruct (Z.leb_spec 0 (lcn e)); zdec; done.
Qed.

(** The tests before the first run. *)
Lemma mp_first_test a b e l first :
  wf_rl a b (e :: l) → at_vcn e first → first ≤ b →
  ((rlen e =? 0) && (vcn e <? first)) || (first <? vcn e) = false ∧
  (vcn e < first → 0 < rlen e ∧ first - vcn e < rlen e).
Proof.
  intros (Hv & Hc)%wf_rl_cons_inv [He1 He2] Hb.
  assert (rlen e = 0 → vcn e = first) by (destruct Hc as [(?&_&?&_)|(?&_)]; lia).
  assert (0 ≤ rlen e) by (destruct Hc as [(?&_)|(?&_)]; lia). split; [|lia]. ztests.
Qed.

(** The first partial run is treated like the full runs. *)
Lemma mp_size_from_loop a b major_ver first last_vcn e l junk :
  wf_rl a b (e :: l) → at_vcn e first → first ≤ b →
  mp_size_from major_ver first last_vcn ((e :: l) ++ junk) =
    mp_size_loop major_ver last_vcn ((run_drop e (first - vcn e) :: l) ++ junk) false 0 1.
Proof.
  intros Hwf He Hb. destruct (mp_first_test a b e l first Hwf He Hb) as [Hx Hpos].
  unfold mp_size_from. cbn [app]. change (rd (e :: l ++ junk) 0) with (Ret e). cbn [mbind outcome_bind]. rewrite Hx.
  destruct (Z.ltb_spec (vcn e) first) as [Hlt|Hge].
  2: { destruct He. replace (first - vcn e) with 0 by lia. by rewrite run_drop_0. }
  destruct (Hpos Hlt) as [Hz Hd]. set (delta := first - vcn e) in *.
  destruct (run_drop_lcn e delta) as (Hl1 & Hl2 & Hl3); [unfold delta; lia|].
  cbn [mp_size_loop drop]. rewrite Hl1, Hl2, Hl3. cbn [vcn rlen run_drop]. rewrite mp_cap_drop.
  rewrite (proj2 (Z.eqb_neq (rlen e - delta) 0)), (proj2 (Z.ltb_ge (rlen e - delta) 0)),
    (proj2 (Z.ltb_ge (rlen e) 0)) by lia. cbn [orb].
  case_match; [done|]. destruct (mp_cap _ _ _ _) as [[n f]| |]; try done. cbn [mbind outcome_bind].
  cbn [lcn run_drop]. rewrite Z.sub_0_r. rewrite (Z.add_assoc 1 1). by case_match.
Qed.

(** The same for the build function, apart from the stop vcn when not even this run
    fits. *)
Lemma mp_build_from_loop a b major_ver first last_vcn e l junk buf dst_max :
  wf_rl a b (e :: l) → at_vcn e first → first ≤ b →
  let m := mp_build_from major_ver first last_vcn ((e :: l) ++ junk) buf dst_max in
  let m' := mp_build_loop major_ver last_vcn ((run_drop e (first - vcn e) :: l) ++ junk) false 0
    buf 0 dst_max in
  m = m' ∨
  (vcn e < first ∧ ∃ buf', m = mp_stop_at ENOSPC (vcn e) buf' 0 ∧ m' = mp_stop_at ENOSPC first buf' 0).
Proof.
  intros Hwf He Hb. destruct (mp_first_test a b e l first Hwf He Hb) as [Hx Hpos].
  unfold mp_build_from. cbn [app]. change (rd (e :: l ++ junk) 0) with (Ret e). cbn [mbind outcome_bind]. rewrite Hx.
  destruct (Z.ltb_spec (vcn e) first) as [Hlt|Hge].
  2: { destruct He. replace (first - vcn e) with 0 by lia. rewrite run_drop_0. by left. }
  destruct (Hpos Hlt) as [Hz Hd]. set (delta := first - vcn e) in *.
  destruct (run_drop_lcn e delta) as (Hl1 & Hl2 & Hl3); [unfold delta; lia|].
  cbn [mp_build_loop drop]. rewrite Hl1, Hl2, Hl3. cbn [vcn rlen run_drop]. rewrite mp_cap_drop.
  rewrite (proj2 (Z.eqb_neq (rlen e - delta) 0)), (proj2 (Z.ltb_ge (rlen e - delta) 0)),
    (proj2 (Z.ltb_ge (rlen e) 0)) by lia. cbn [orb].
  case_match; [by left|]. destruct (mp_cap _ _ _ _) as [[n f]| |]; try by left.
  cbn [mbind outcome_bind lcn run_drop]. rewrite Z.sub_0_r.
  destruct (mp_write_pair _ _ _ _ _) as [[buf' [dst|]]| |]; try by left.
  right. split; [done|]. exists buf'. split; [done|]. cbn. f_equal. unfold delta. lia.
Qed.

Lemma mp_after_all a b l : wf_rl a b l → mp_after (-1) l = b.
Proof.
  revert a. induction l as [|e l IH]; intros a Hwf; [by apply wf_rl_not_nil in Hwf|].
  apply wf_rl_cons_inv in Hwf as (<- & [(Hz & -> & <- & _)|(Hz & _ & Hwf)]); cbn [mp_after].
  - by rewrite Hz.
  - rewrite (proj2 (Z.eqb_neq _ _)) by lia. cbn. by eapply IH.
Qed.

(** A runlist at the element containing [first_vcn]. *)
Lemma mp_at_first b l first :
  wf_rl 0 b l → 0 ≤ first ≤ b →
  ∃ l1 e l2, l = l1 ++ e :: l2 ∧ at_vcn e first ∧ wf_rl (vcn e) b (e :: l2) ∧
    mp_skip first l = run_drop e (first - vcn e) :: l2 ∧ wf_rl first b (mp_skip first l) ∧
    ∀ junk, rl_seek (l ++ junk) first = Ret (length l1).
Proof.
  intros Hwf Hf. destruct (rl_seek_spec 0 b l [] first) as (l1 & e & l2 & -> & _ & He); [done|lia|].
  exists l1, e, l2. pose proof Hwf as Hwf'. apply wf_rl_app_inv in Hwf' as (c & _ & Hwe); [|done].
  destruct (wf_rl_cons_inv _ _ _ _ Hwe) as [<- _].
  pose proof (mp_skip_spec _ _ _ _ _ _ Hwf He) as Hsk. rewrite Hsk.
  split_and!; [done..| |].
  - apply (wf_rl_skip (vcn e)); [done|done|lia].
  - intros junk. by apply (rl_seek_at 0 b).
Qed.

(** The clipped runs cover what they have to. *)
Lemma mp_clip_seg a b l last_vcn :
  wf_rl a b l → last_vcn = -1 ∨ (0 ≤ last_vcn ∧ a ≤ last_vcn) →
  seg a (if last_vcn =? -1 then b else Z.min b (last_vcn + 1)) (mp_clip last_vcn l).
Proof.
  revert a. induction l as [|e l IH]; intros a Hwf Hl; [by apply wf_rl_not_nil in Hwf|].
  apply wf_rl_cons_inv in Hwf as (<- & [(Hz & -> & <- & _)|(Hz & ? & Hwf)]); cbn [mp_clip].
  - rewrite Hz. simpl. replace (if last_vcn =? -1 then _ else _) with (vcn e) by (ztests; lia).
    constructor.
  - rewrite (proj2 (Z.eqb_neq (rlen e) 0)) by lia. pose proof (wf_rl_le _ _ _ Hwf).
    destruct (Z.leb_spec 0 last_vcn), (Z.ltb_spec last_vcn (vcn e + rlen e)); cbn [andb]; try lia.
    + apply seg_cons'; simpl; [done|lia|done|]. zdec.
      replace (Z.min b (last_vcn + 1)) with (vcn e + (last_vcn + 1 - vcn e)) by lia. constructor.
    + apply seg_cons'; [done..|]. apply IH; [done|lia].
    + apply seg_cons'; [done..|]. apply IH; [done|lia].
    + apply seg_cons'; [done..|]. apply IH; [done|lia].
Qed.

(** The arguments the functions are called with. *)
Record mp_args (b first last_vcn : Z) (l : list ntfs_rl_element) : Prop := {
  mpa_wf : wf_rl 0 b l;
  mpa_first : 0 ≤ first ≤ b;
  mpa_last : last_vcn = -1 ∨ (0 ≤ last_vcn ∧ first ≤ last_vcn);
  mpa_runs : Forall mp_run (mp_clip last_vcn (mp_skip first l))
}.

Lemma mp_args_test b first last_vcn l :
  mp_args b first last_vcn l →
  (first <? 0) = false ∧ (last_vcn <? -1) = false ∧ (0 <=? last_vcn) && (last_vcn <? first) = false ∧
  ∀ junk, bool_decide (l ++ junk = []) = false.
Proof.
  intros [Hwf ? ? _]. split_and!; [ztests..|]. intros junk. apply bool_decide_eq_false_2.
  apply wf_rl_not_nil in Hwf. by destruct l.
Qed.

Lemma mp_size_eq b major_ver l junk first last_vcn :
  mp_args b first last_vcn l →
  ntfs_get_size_for_mapping_pairs major_ver (l ++ junk) first last_vcn =
    Ret (0, Z.of_nat (S (length (mp_enc major_ver 0 (mp_clip last_vcn (mp_skip first l)))))).
Proof.
  intros Ha. destruct (mp_args_test _ _ _ _ Ha) as (T1 & T2 & T3 & T4). destruct Ha as [Hwf Hf Hlast Hr].
  unfold ntfs_get_size_for_mapping_pairs. rewrite T1, T2, T3, T4.
  destruct (mp_at_first b l first Hwf Hf) as (l1 & e & l2 & El & He & Hwe & Hsk & Hws & ->).
  cbn [mbind outcome_bind]. rewrite El, <- (assoc_L (++)), drop_app_length.
  rewrite (mp_size_from_loop (vcn e) b), <- El, <- Hsk by (done || lia).
  rewrite (mp_size_loop_spec first b) by (done || lia || (unfold LCN_HOLE; lia)). do 2 f_equal. lia.
Qed.

Definition mp_build_post (major_ver stop : Z) (runs : list ntfs_rl_element) (buf : list Z)
    (r : mp_result) : Prop :=
  let enc := mp_enc major_ver 0 runs in
  if (length enc <? length buf)%nat
  then r = mk_mp_result 0 (Some stop) (enc ++ 0 :: drop (S (length enc)) buf)
  else ∃ runs1 e runs2 s rest, runs = runs1 ++ e :: runs2 ∧
    r = mk_mp_result ENOSPC (Some s) (mp_enc major_ver 0 runs1 ++ 0 :: rest) ∧
    length (mp_buf r) = length buf ∧ s ≤ vcn e ∧ (runs1 ≠ [] → s = vcn e) ∧
    (length (mp_enc major_ver 0 (runs1 ++ [e])) ≥ length buf)%nat.

Lemma mp_build_eq b major_ver l junk first last_vcn buf :
  mp_args b first last_vcn l → (1 ≤ length buf)%nat →
  ∃ r, ntfs_mapping_pairs_build major_ver buf (length buf) (l ++ junk) first last_vcn = Ret r ∧
    mp_build_post major_ver (mp_after last_vcn (mp_skip first l))
      (mp_clip last_vcn (mp_skip first l)) buf r.
Proof.
  intros Ha Hbuf. destruct (mp_args_test _ _ _ _ Ha) as (T1 & T2 & T3 & T4).
  destruct Ha as [Hwf Hf Hlast Hr].
  unfold ntfs_mapping_pairs_build. rewrite T1, T2, T3, T4, (proj2 (Nat.ltb_ge _ _)) by lia.
  destruct (mp_at_first b l first Hwf Hf) as (l1 & e & l2 & El & He & Hwe & Hsk & Hws & ->).
  cbn [mbind outcome_bind]. rewrite El, <- (assoc_L (++)), drop_app_length, <- El.
  pose proof (mp_build_loop_spec first b (mp_skip first l) junk major_ver last_vcn 0 [] buf (length buf - 1))
    as Hl. cbn [app length Nat.add] in Hl.
  specialize (Hl ltac:(lia) ltac:(lia) Hws Hr ltac:(lia) ltac:(lia) ltac:(unfold LCN_HOLE; lia)).
  unfold mp_built in Hl. cbv zeta in Hl. cbn [app length Nat.add] in Hl. unfold mp_build_post.
  set (runs := mp_clip last_vcn (mp_skip first l)) in *.
  destruct (mp_build_from_loop (vcn e) b major_ver first last_vcn e l2 junk buf (length buf - 1))
    as [Hm|(Hlt & buf' & Hm & Hm')]; [done|done|lia|..]; cbv zeta in *; rewrite <- Hsk in *.
  - rewrite Hm. destruct (Nat.leb_spec (length (mp_enc major_ver 0 runs)) (length buf - 1)).
    + rewrite Hl. eexists. split; [done|]. by rewrite (proj2 (Nat.ltb_lt _ _)) by lia.
    + destruct Hl as (runs1 & e1 & runs2 & rest & E & H1 & H2 & -> & H3). eexists. split; [done|].
      rewrite (proj2 (Nat.ltb_ge _ _)) by lia. exists runs1, e1, runs2, (vcn e1), rest.
      split_and!; [done..|lia].
  - rewrite Hm' in Hl. rewrite Hm. unfold mp_stop_at in *.
    destruct (wr buf' 0 0) as [buf2| |]; cbn [mbind outcome_bind] in *.
    + eexists. split; [done|].
      destruct (Nat.leb_spec (length (mp_enc major_ver 0 runs)) (length buf - 1)); [done|].
      destruct Hl as (runs1 & e1 & runs2 & rest & E & H1 & H2 & [= Hv ->] & H3).
      rewrite (proj2 (Nat.ltb_ge _ _)) by lia. exists runs1, e1, runs2, (vcn e), rest.
      split_and!; [done..|lia| |lia]. intros Hne. exfalso.
      pose proof (mp_clip_seg _ _ _ _ Hws Hlast) as Hseg. fold runs in Hseg. rewrite E in Hseg.
      apply seg_middle_inv in Hseg as (Hs1 & _). rewrite <- Hv in Hs1.
      destruct runs1 as [|x runs1]; [done|]. apply seg_cons_inv in Hs1 as (_ & ? & _ & ?%seg_le). lia.
    + by destruct (length (mp_enc major_ver 0 runs) <=? length buf - 1)%nat; [|destruct Hl as (?&?&?&?&?&?&?&?&?)].
    + by destruct (length (mp_enc major_ver 0 runs) <=? length buf - 1)%nat; [|destruct Hl as (?&?&?&?&?&?&?&?&?)].
Qed.

(** A runlist to evaluate the model on. *)
Definition sample_pairs : list ntfs_rl_element :=
  [mk_rle 0 100 10; mk_rle 10 LCN_HOLE 5; mk_rle 15 40 2; mk_rle 17 LCN_ENOENT 0].

Lemma sample_pairs_ok : mp_args 17 0 (-1) sample_pairs.
Proof.
  split; [|lia|by left|by repeat (apply list.Forall_cons; split; [by vm_compute|])].
  repeat (apply wf_rl_cons; [done|simpl; lia|done|]). by apply wf_rl_one.
Qed.

(** C26: the size computed by [ntfs_get_size_for_mapping_pairs] is exact:
    [ntfs_mapping_pairs_build] succeeds with a buffer of that many bytes, and fails with ENOSPC
    with any smaller one. *)
Theorem ntfs_get_size_for_mapping_pairs_exact b major_ver l junk first last_vcn buf :
  mp_args b first last_vcn l → (1 ≤ length buf)%nat →
  ∃ size r, ntfs_get_size_for_mapping_pairs major_ver (l ++ junk) first last_vcn =
      Ret (0, Z.of_nat size) ∧
    ntfs_mapping_pairs_build major_ver buf (length buf) (l ++ junk) first last_vcn = Ret r ∧
    mp_err r = if (size <=? length buf)%nat then 0 else ENOSPC.
Proof.
  intros Ha Hbuf. rewrite (mp_size_eq b) by done.
  destruct (mp_build_eq b major_ver l junk first last_vcn buf Ha Hbuf) as (r & Hb & Hp).
  eexists _, r. split_and!; [done..|]. unfold mp_build_post in Hp. cbv zeta in Hp.
  change (S ?n <=? ?m)%nat with (n <? m)%nat. case_match; [by subst r|].
  by destruct Hp as (? & ? & ? & ? & ? & _ & -> & _).
Qed.

Lemma ntfs_get_size_for_mapping_pairs_exact_witness :
  ∃ size r, ntfs_get_size_for_mapping_pairs 3 (sample_pairs ++ []) 0 (-1) = Ret (0, Z.of_nat size) ∧
    ntfs_mapping_pairs_build 3 (replicate 8 0) 8 (sample_pairs ++ []) 0 (-1) = Ret r ∧
    mp_err r = if (size <=? 8)%nat then 0 else ENOSPC.
Proof.
  apply (ntfs_get_size_for_mapping_pairs_exact 17 3 sample_pairs [] 0 (-1) (replicate 8 0));
    [apply sample_pairs_ok|simpl; lia].
Defined.

(** C24: [ntfs_mapping_pairs_build] stores the encoding of the runs of the requested VCN range, clipped to
    that range, followed by the terminating zero byte, and reports as [*stop_vcn] the end of the last
    of these runs in the runlist: this is the VCN behind the range only if the range ends where a run
    does.  When the buffer is too small it stores the encoding of the longest prefix of runs that
    fits, terminated, and reports ENOSPC with the first VCN that is missing, or, if not even the first
    run fits, possibly an earlier VCN.  Nothing is written outside the buffer. *)
Theorem ntfs_mapping_pairs_build_spec b major_ver l junk first last_vcn buf :
  mp_args b first last_vcn l → (1 ≤ length buf)%nat →
  ∃ r, ntfs_mapping_pairs_build major_ver buf (length buf) (l ++ junk) first last_vcn = Ret r ∧
    mp_build_post major_ver (mp_after last_vcn (mp_skip first l))
      (mp_clip last_vcn (mp_skip first l)) buf r.
Proof. apply mp_build_eq. Qed.

Lemma ntfs_mapping_pairs_build_spec_witness :
  ∃ r, ntfs_mapping_pairs_build 3 (replicate 8 0) 8 (sample_pairs ++ []) 0 12 = Ret r ∧
    mp_build_post 3 (mp_after 12 (mp_skip 0 sample_pairs)) (mp_clip 12 (mp_skip 0 sample_pairs))
      (replicate 8 0) r.
Proof.
  apply (ntfs_mapping_pairs_build_spec 17 3 sample_pairs [] 0 12 (replicate 8 0)); [|simpl; lia].
  destruct sample_pairs_ok as [Hwf _ _ _]. split; [done|lia|lia|].
  by repeat (apply list.Forall_cons; split; [by vm_compute|]).
Defined.

(** With the last VCN inside of a run the VCN that is reported is not the one behind the array. *)
Example stop_vcn_behind_clipped_run :
  ntfs_mapping_pairs_build 3 (replicate 8 0) 8 sample_pairs 0 3 = Ret (mk_mp_result 0 (Some 10) [0x11; 4; 100; 0; 0; 0; 0; 0]).
Proof. by vm_compute. Qed.
