(* ===== verification/MappingPairsRead.v ===== *)
(** * Reading mapping pairs

    [ntfs_mapping_pairs_decompress] of [kext/ntfs_runlist.c]: the parser of the
    on-disk form of a runlist.  It is proved to be the inverse of
    [ntfs_mapping_pairs_build]. *)

From S2P Require Import Prelude Bytes Volume Runlist RunlistBuf RunlistPunch RunlistMerge MappingPairs.

(** ** Data *)

(** The fields of a non-resident [ATTR_RECORD] and the bytes from the record on. *)
Record attr_record := mk_attr {
  a_mem : list Z;
  a_non_resident : bool;
  a_length : nat;
  a_lowest_vcn : Z;
  a_highest_vcn : Z;
  a_mapping_pairs_offset : nat;
  a_allocated_size : Z
}.

(** ** Operations *)

(** [for (deltaxcn = (s8)buf[b--]; b > lo; b--) deltaxcn = (deltaxcn << 8) +
    buf[b];] *)
Fixpoint mp_number_loop (mem : list Z) (buf lo n : nat) (deltaxcn : Z) : outcome Z :=
  match n with
  | O => Ret deltaxcn
  | S n' =>
      x ← rd mem (buf + (lo + n));
      mp_number_loop mem buf lo n' (s64 (Z.shiftl deltaxcn 8 + x))
  end.

Definition mp_number (mem : list Z) (buf b lo : nat) : outcome Z :=
  x ← rd mem (buf + b);
  mp_number_loop mem buf lo (b - lo - 1) (s8 x).

Section decompress.
Context `{!Allocator}.

(** The state of the loop: position in the array, current vcn and lcn, and the
    output runlist. *)
Record mpd_state := mk_mpd {
  d_buf : nat; d_vcn : Z; d_lcn : Z;
  d_rl : list ntfs_rl_element; d_rlpos : nat; d_rlcount : nat
}.

(** Allocate more memory if needed; [None] is ENOMEM. *)
Definition mpd_room (s : mpd_state) : outcome (option mpd_state) :=
  if (d_rlcount s <? d_rlpos s + 3)%nat then
    match IONewData (d_rlcount s + rl_alloc_step) with
    | None => Ret None
    | Some rl2 =>
        rl2 ← memcpy rl2 0 (d_rl s) 0 (d_rlcount s);
        Ret (Some (mk_mpd (d_buf s) (d_vcn s) (d_lcn s) rl2 (d_rlpos s)
                     (d_rlcount s + rl_alloc_step)))
    end
  else Ret (Some s).

(** The change in vcn; -1 if there is none, [None] if it is cut off. *)
Definition mpd_length (mem : list Z) (a_end buf : nat) (h : Z) : outcome (option Z) :=
  let b := Z.to_nat (Z.land h 15) in
  if negb (b =? 0)%nat then
    if (a_end <=? buf + b)%nat then Ret None else Some <$> mp_number mem buf b 0
  else Ret (Some (-1)).

(** The lcn of the run and the current lcn; [None] is EIO. *)
Definition mpd_lcn (mem : list Z) (a_end buf : nat) (h lcn : Z) : outcome (option (Z * Z)) :=
  if Z.land h 240 =? 0 then Ret (Some (LCN_HOLE, lcn))
  else
    let b2 := Z.to_nat (Z.land h 15) in
    let b := (b2 + Z.to_nat (Z.land (Z.shiftr h 4) 15))%nat in
    if (a_end <=? buf + b)%nat then Ret None else
    deltaxcn ← mp_number mem buf b b2;
    let lcn := s64 (lcn + deltaxcn) in
    if lcn <? -1 then Ret None else Ret (Some (lcn, lcn)).

(** One mapping pair with header byte [h]. *)
Definition mpd_pair (mem : list Z) (a_end : nat) (h : Z) (s : mpd_state)
    : outcome (Z + mpd_state) :=
  s ← mpd_room s;
  match s with
  | None => Ret (inl ENOMEM)
  | Some s =>
      l ← upd (d_rl s) (d_rlpos s) (set_vcn (d_vcn s));
      deltaxcn ← mpd_length mem a_end (d_buf s) h;
      match deltaxcn with
      | None => Ret (inl EIO)
      | Some deltaxcn =>
          if deltaxcn <? 0 then Ret (inl EIO) else
          l ← upd l (d_rlpos s) (set_len deltaxcn);
          r ← mpd_lcn mem a_end (d_buf s) h (d_lcn s);
          match r with
          | None => Ret (inl EIO)
          | Some (x, lcn) =>
              l ← upd l (d_rlpos s) (set_lcn x);
              Ret (inr (mk_mpd
                (d_buf s + (Z.to_nat (Z.land h 15) + Z.to_nat (Z.land (Z.shiftr h 4) 15) + 1))
                (s64 (d_vcn s + deltaxcn)) lcn l (d_rlpos s + 1) (d_rlcount s)))
          end
      end
  end.

(** [while (buf < a_end && *buf)].  Every iteration advances [buf], so [a_end - buf]
    rounds are enough. *)
Fixpoint mpd_loop (fuel : nat) (mem : list Z) (a_end : nat) (s : mpd_state)
    : outcome (Z + mpd_state) :=
  match fuel with
  | O => Ret (inr s)
  | S fuel =>
      if (d_buf s <? a_end)%nat then
        h ← rd mem (d_buf s);
        if h =? 0 then Ret (inr s) else
        r ← mpd_pair mem a_end h s;
        match r with
        | inl err => Ret (inl err)
        | inr s => mpd_loop fuel mem a_end s
        end
      else Ret (inr s)
  end.

(** The part behind the loop: the checks, the not mapped element and the
    terminator. *)
Definition mpd_finish (vol : ntfs_volume) (a : attr_record) (s : mpd_state)
    : outcome (Z + ntfs_runlist) :=
  if (a_length a <=? d_buf s)%nat then Ret (inl EIO) else
  let deltaxcn := a_highest_vcn a in
  if negb (s64 (d_vcn s - 1) =? deltaxcn) then Ret (inl EIO) else
  '(ok, l, v, rlpos, t) ←
    (if a_lowest_vcn a =? 0 then
       let max_cluster :=
         Z.shiftr (a_allocated_size a + cluster_size_mask vol) (cluster_size_shift vol) - 1 in
       if deltaxcn <? max_cluster then
         l ← upd (d_rl s) (d_rlpos s) (set_vcn (d_vcn s));
         l ← upd l (d_rlpos s) (set_len (max_cluster - deltaxcn));
         l ← upd l (d_rlpos s) (set_lcn LCN_RL_NOT_MAPPED);
         Ret (true, l, s64 (d_vcn s + (max_cluster - deltaxcn)), (d_rlpos s + 1)%nat, LCN_ENOENT)
       else Ret (negb (max_cluster <? deltaxcn), d_rl s, d_vcn s, d_rlpos s, LCN_ENOENT)
     else Ret (true, d_rl s, d_vcn s, d_rlpos s, LCN_RL_NOT_MAPPED));
  if negb (ok : bool) then Ret (inl EIO) else
  l ← upd l rlpos (set_lcn t);
  l ← upd l rlpos (set_vcn v);
  l ← upd l rlpos (set_len 0);
  Ret (inr (mk_runlist l (rlpos + 1) (d_rlcount s))).

Definition ntfs_mapping_pairs_decompress (vol : ntfs_volume) (a : attr_record)
    (runlist : ntfs_runlist) : outcome (Z * ntfs_runlist) :=
  if negb (a_non_resident a) || (a_lowest_vcn a <? 0) then Ret (EINVAL, runlist) else
  let buf := a_mapping_pairs_offset a in
  let a_end := a_length a in
  if (a_end <? buf)%nat then Ret (EIO, runlist) else
  empty ← (if a_lowest_vcn a =? 0 then h ← rd (a_mem a) buf; Ret (h =? 0) else Ret false);
  if (empty : bool) then Ret (0, runlist) else
  match IONewData rl_alloc_step with
  | None => Ret (ENOMEM, runlist)
  | Some l =>
      '(l, rlpos) ←
        (if negb (a_lowest_vcn a =? 0) then
           l ← upd l 0 (set_vcn 0);
           l ← upd l 0 (set_lcn LCN_RL_NOT_MAPPED);
           l ← upd l 0 (set_len (a_lowest_vcn a));
           Ret (l, 1%nat)
         else Ret (l, 0%nat));
      r ← mpd_loop (a_end - buf) (a_mem a) a_end
            (mk_mpd buf (a_lowest_vcn a) 0 l rlpos rl_alloc_step);
      match r with
      | inl err => Ret (err, runlist)
      | inr s =>
          r ← mpd_finish vol a s;
          match r with
          | inl err => Ret (err, runlist)
          | inr tmp =>
              if (elements runlist =? 0)%nat then Ret (0, tmp) else ntfs_rl_merge runlist tmp
          end
      end
  end.
End decompress.

(** ** Decoding a number *)

Lemma s64_div n k : s64_range n → s64 (n / 256 ^ Z.of_nat k) = n / 256 ^ Z.of_nat k.
Proof.
  intros Hn. apply swrap_id; [lia|]. change (- 2 ^ 63 ≤ n / 256 ^ Z.of_nat k < 2 ^ 63).
  pose proof (pow256_pos k). unfold s64_range in Hn. split.
  - apply Z.div_le_lower_bound; nia.
  - apply Z.div_lt_upper_bound; nia.
Qed.

Lemma mp_number_loop_spec mem buf lo k n m :
  (∀ i, (i < k)%nat → rd mem (buf + (lo + S i)) = Ret ((n / 256 ^ Z.of_nat i) mod 256)) →
  s64_range n → (m ≤ k)%nat →
  mp_number_loop mem buf lo m (n / 256 ^ Z.of_nat m) = Ret n.
Proof.
  intros Hrd Hn. induction m as [|m IH]; intros Hm; cbn [mp_number_loop].
  { by rewrite Z.div_1_r. }
  rewrite Hrd by lia. cbn [mbind outcome_bind].
  replace (Z.shiftl _ 8 + _) with (n / 256 ^ Z.of_nat m).
  { rewrite s64_div by done. apply IH. lia. }
  rewrite Z.shiftl_mul_pow2, pow256_S, (Z.mul_comm 256) by lia. pose proof (pow256_pos m).
  rewrite <- Z.div_div by lia. set (x := n / 256 ^ Z.of_nat m). change (2 ^ 8) with 256. zdiv.
Qed.

(** The bytes of a number are decoded to the number. *)
Lemma mp_number_spec p k n q buf b lo :
  length p = S (buf + lo) → b = (lo + k)%nat → (1 ≤ k ≤ 8)%nat → fits k n →
  mp_number (p ++ le_bytes k n ++ q) buf b lo = Ret n.
Proof.
  intros Hp -> Hk Hf. destruct k as [|k]; [lia|].
  assert (∀ i, (i < S k)%nat → rd (p ++ le_bytes (S k) n ++ q) (buf + (lo + S i)) =
    Ret ((n / 256 ^ Z.of_nat i) mod 256)) as Hrd.
  { intros i Hi. apply (rd_at _ _ i); [lia|]. apply rd_Ret.
    rewrite lookup_app_l by (rewrite le_bytes_length; lia). by apply lookup_le_bytes. }
  unfold mp_number. rewrite Hrd by lia. cbn [mbind outcome_bind].
  replace (lo + S k - lo - 1)%nat with k by lia. apply fits_div in Hf as Hd.
  replace (s8 _) with (n / 256 ^ Z.of_nat k).
  - apply (mp_number_loop_spec _ _ _ (S k)); [done| |lia]. apply s64_fits. by eapply fits_mono; [|done]; lia.
  - set (x := n / 256 ^ Z.of_nat k) in *. unfold swrap. change (2 ^ (8 - 1)) with 128. change (2 ^ 8) with 256. zdiv.
Qed.

(** The header byte of a pair. *)
Lemma pair_header (a b : nat) :
  (a ≤ 8)%nat → (1 ≤ b ≤ 8)%nat →
  let h := 16 * Z.of_nat a + Z.of_nat b in
  (h =? 0) = false ∧ Z.land h 15 = Z.of_nat b ∧ (Z.land h 240 =? 0) = (a =? 0)%nat ∧
  Z.land (Z.shiftr h 4) 15 = Z.of_nat a.
Proof.
  intros Ha Hb. do 9 (destruct a as [|a]; [do 9 (destruct b as [|b]; [done || lia|]); lia|]). lia.
Qed.

(** ** Decoding pairs *)

Section decoding.
Context `{!Allocator}.

(** The runlist under construction: the elements so far, and room for two more. *)
Definition mpd_inv (done : list ntfs_rl_element) (s : mpd_state) : Prop :=
  d_rlpos s = length done ∧ d_rlcount s = length (d_rl s) ∧
  (length done + 2 ≤ length (d_rl s))%nat ∧ ∃ junk, d_rl s = done ++ junk.

Lemma mpd_room_spec done s :
  mpd_inv done s →
  mpd_room s = Ret None ∨
  ∃ e junk, (2 ≤ length junk)%nat ∧ mpd_room s = Ret (Some (mk_mpd (d_buf s) (d_vcn s) (d_lcn s)
    (done ++ e :: junk) (length done) (length (done ++ e :: junk)))).
Proof.
  destruct s as [buf v x l pos count]. unfold mpd_inv, mpd_room. simpl.
  intros (-> & -> & Hl & junk & ->). rewrite length_app in Hl.
  destruct (Nat.ltb_spec (length (done ++ junk)) (length done + 3)) as [Hlt|Hge].
  - destruct (IONewData _) as [rl2|] eqn:E; [|by left]. apply IONewData_length in E. right.
    change rl_alloc_step with 42%nat in *. rewrite length_app in *.
    rewrite memcpy_Ret by (rewrite ?length_app; lia). cbn [mbind outcome_bind].
    rewrite take_0, drop_0, Nat.add_0_l, take_ge by (rewrite length_app; lia). cbn [app].
    destruct junk as [|e junk]; [simpl in *; lia|].
    exists e, (junk ++ drop (length done + length (e :: junk)) rl2). split; [simpl in *; glen|].
    do 2 f_equal. app_norm. f_equal. simpl in *. glen.
  - right. destruct junk as [|e [|e1 [|e2 junk]]]; rewrite length_app in *; simpl in *; try lia.
    exists e, (e1 :: e2 :: junk). split; [simpl; lia|]. by rewrite length_app.
Qed.

(** The header byte of the encoding of [n] and [d]. *)
Definition pair_head (n : Z) (d : option Z) : Z :=
  16 * Z.of_nat (length (delta_bytes d)) + Z.of_nat (nrb n).

Lemma pair_head_spec n d :
  s64_range n → opt_range d → let h := pair_head n d in
  (h =? 0) = false ∧ Z.to_nat (Z.land h 15) = nrb n ∧
  (Z.land h 240 =? 0) = (length (delta_bytes d) =? 0)%nat ∧
  Z.to_nat (Z.land (Z.shiftr h 4) 15) = length (delta_bytes d) ∧
  (1 ≤ nrb n)%nat ∧ fits (nrb n) n.
Proof.
  intros Hn Hd. destruct (nrb_spec n Hn) as (_ & Hk & Hf).
  assert (length (delta_bytes d) ≤ 8)%nat.
  { destruct d as [d|]; simpl; [|lia]. rewrite length_sig_bytes.
    destruct (nrb_spec d Hd) as (_ & ? & _). lia. }
  destruct (pair_header (length (delta_bytes d)) (nrb n)) as (H1 & H2 & H3 & H4); [done..|].
  unfold pair_head. cbv zeta. rewrite H2, H4, !Nat2Z.id. split_and!; (done || lia).
Qed.

Lemma mpd_length_spec p n d q a_end :
  s64_range n → opt_range d → (length p + length (enc_pair n d) ≤ a_end)%nat →
  mpd_length (p ++ enc_pair n d ++ q) a_end (length p) (pair_head n d) = Ret (Some n).
Proof.
  intros Hn Hd Hend. destruct (pair_head_spec n d Hn Hd) as (_ & Hb & _ & _ & Hk & Hf).
  rewrite length_enc_pair in Hend. destruct (nrb_spec n Hn) as (_ & Hk8 & _).
  unfold mpd_length. rewrite Hb. zdec. unfold enc_pair, sig_bytes. fold (pair_head n d).
  rewrite <- app_comm_cons, <- (assoc_L (++)), cons_middle, (assoc_L (++) p).
  rewrite (mp_number_spec _ (nrb n) n) by (glen || lia || done). done.
Qed.

Lemma mpd_lcn_spec p n d q a_end prev :
  s64_range n → opt_range d → (length p + length (enc_pair n d) ≤ a_end)%nat →
  mpd_lcn (p ++ enc_pair n d ++ q) a_end (length p) (pair_head n d) prev =
    match d with
    | None => Ret (Some (LCN_HOLE, prev))
    | Some d =>
        let x := s64 (prev + d) in if x <? -1 then Ret None else Ret (Some (x, x))
    end.
Proof.
  intros Hn Hd Hend. destruct (pair_head_spec n d Hn Hd) as (_ & Hb & Hz & Ha & Hk & Hf).
  rewrite length_enc_pair in Hend. unfold mpd_lcn. rewrite Hb, Ha, Hz. destruct d as [d|]; [|done].
  simpl in *. rewrite length_sig_bytes in *. destruct (nrb_spec d Hd) as (_ & Hkd & Hfd).
  destruct (nrb_spec n Hn) as (_ & Hkn & _). zdec. unfold enc_pair. simpl.
  rewrite <- app_assoc. rewrite cons_middle, (assoc_L (++) p), (assoc_L (++) _ (sig_bytes n)).
  change (sig_bytes d) with (le_bytes (nrb d) d).
  by rewrite (mp_number_spec _ (nrb d) d) by (glen || lia || done).
Qed.

(** One pair is decoded to the run it was made from. *)
Lemma mpd_pair_spec done s p q a_end ver e :
  let d := if mp_stored ver e then Some (lcn e - d_lcn s) else None in
  mpd_inv done s → d_buf s = length p → d_vcn s = vcn e → mp_run e → 0 ≤ vcn e < 2 ^ 62 →
  LCN_HOLE ≤ d_lcn s < 2 ^ 62 → (length p + length (enc_pair (rlen e) d) ≤ a_end)%nat →
  let m := mpd_pair (p ++ enc_pair (rlen e) d ++ q) a_end (pair_head (rlen e) d) s in
  m = Ret (inl ENOMEM) ∨
  ∃ s', m = Ret (inr s') ∧ mpd_inv (done ++ [e]) s' ∧
    d_buf s' = (length p + length (enc_pair (rlen e) d))%nat ∧ d_vcn s' = vcn e + rlen e ∧
    d_lcn s' = if mp_stored ver e then lcn e else d_lcn s.
Proof.
  intros d Hinv Hbuf Hvcn He Hv Hprev Hend. cbv zeta.
  destruct (mp_stored_range ver (d_lcn s) e He Hprev) as [Hd _]. fold d in Hd.
  assert (s64_range (rlen e)) as Hn by (unfold mp_run in He; unfold s64_range; lia).
  destruct (pair_head_spec (rlen e) d Hn Hd) as (_ & Hb & _ & Ha & _ & _).
  unfold mpd_pair. destruct (mpd_room_spec done s Hinv) as [-> |(e0 & junk & Hj & ->)]; [by left|].
  right. cbn [mbind outcome_bind d_rl d_rlpos d_buf d_vcn d_lcn d_rlcount]. rewrite Hbuf, upd_middle.
  cbn [mbind outcome_bind]. rewrite mpd_length_spec by done. cbn [mbind outcome_bind].
  unfold mp_run in He. rewrite (proj2 (Z.ltb_ge _ _)) by lia. rewrite upd_middle.
  cbn [mbind outcome_bind]. rewrite mpd_lcn_spec by done.
  assert (match d with
    | None => Ret (Some (LCN_HOLE, d_lcn s))
    | Some d => let x := s64 (d_lcn s + d) in if x <? -1 then Ret None else Ret (Some (x, x))
    end = Ret (Some (lcn e, if mp_stored ver e then lcn e else d_lcn s))) as ->.
  { unfold d, mp_stored. destruct (Z.leb_spec 0 (lcn e)); cbn [orb].
    - replace (d_lcn s + _) with (lcn e) by lia. rewrite swrap_id by (unfold LCN_HOLE in *; lia).
      cbv zeta. by rewrite (proj2 (Z.ltb_ge _ _)) by lia.
    - assert (lcn e = LCN_HOLE) as -> by (unfold LCN_HOLE in *; lia). destruct (ver <? 3); [|done].
      replace (d_lcn s + _) with LCN_HOLE by lia. done. }
  cbn [mbind outcome_bind]. rewrite upd_middle. cbn [mbind outcome_bind].
  eexists. split; [done|]. cbn [d_buf d_vcn d_lcn]. rewrite Hb, Ha, Hvcn, swrap_id by lia.
  split_and!; [|rewrite length_enc_pair; lia|done..].
  unfold mpd_inv. cbn [d_rlpos d_rlcount d_rl]. unfold set_lcn, set_len, set_vcn. cbn [vcn lcn rlen].
  replace (mk_rle (vcn e) (lcn e) (rlen e)) with e by (by destruct e).
  split_and!; [glen|glen|glen|]. exists junk. by app_norm.
Qed.

(** All the pairs. *)
Lemma mpd_loop_spec runs fuel done s p q a_end ver hi :
  mpd_inv done s → d_buf s = length p → seg (d_vcn s) hi runs → Forall mp_run runs →
  0 ≤ d_vcn s → hi < 2 ^ 62 → LCN_HOLE ≤ d_lcn s < 2 ^ 62 →
  (length p + length (mp_enc ver (d_lcn s) runs) < a_end)%nat → (length runs < fuel)%nat →
  let m := mpd_loop fuel (p ++ mp_enc ver (d_lcn s) runs ++ 0 :: q) a_end s in
  m = Ret (inl ENOMEM) ∨
  ∃ s', m = Ret (inr s') ∧ mpd_inv (done ++ runs) s' ∧
    d_buf s' = (length p + length (mp_enc ver (d_lcn s) runs))%nat ∧ d_vcn s' = hi.
Proof.
  revert fuel done s p. induction runs as [|e runs IH];
    intros fuel done s p Hinv Hbuf Hseg Hr H0 Hhi Hl Hend Hf; destruct fuel as [|fuel]; simpl in Hf; try lia;
    cbn [mpd_loop mp_enc app]; rewrite Hbuf.
  { simpl in Hend. rewrite (proj2 (Nat.ltb_lt _ _)), rd_middle by lia. right. exists s.
    split; [done|]. rewrite app_nil_r. inversion Hseg; subst. split_and!; [done|simpl; lia|done]. }
  apply Forall_cons_1 in Hr as [He Hr].
  apply seg_cons_inv in Hseg as (Hv & Hpos & _ & Hseg). pose proof (seg_le _ _ _ Hseg).
  cbn [mp_enc] in Hend. rewrite length_app in Hend.
  set (d := if mp_stored ver e then Some (lcn e - d_lcn s) else None) in *.
  set (prev := if mp_stored ver e then lcn e else d_lcn s) in *. app_norm.
  rewrite (proj2 (Nat.ltb_lt _ _)) by lia.
  destruct (mp_stored_range ver (d_lcn s) e He Hl) as [Hd Hl']. fold d in Hd. fold prev in Hl'.
  assert (s64_range (rlen e)) as Hn by (unfold mp_run in He; unfold s64_range; lia).
  destruct (pair_head_spec (rlen e) d Hn Hd) as (Hh & _).
  assert (rd (p ++ enc_pair (rlen e) d ++ mp_enc ver prev runs ++ 0 :: q) (length p) =
    Ret (pair_head (rlen e) d)) as -> by apply rd_middle.
  cbn [mbind outcome_bind]. rewrite Hh.
  pose proof (mpd_pair_spec done s p (mp_enc ver prev runs ++ 0 :: q) a_end ver e Hinv Hbuf) as Hp.
  fold d prev in Hp. cbv zeta in Hp. destruct Hp as [-> |(s' & -> & Hinv' & Hb' & Hv' & Hl2)];
    [done|done|lia|done|lia|by left|].
  cbn [mbind outcome_bind]. specialize (IH fuel (done ++ [e]) s' (p ++ enc_pair (rlen e) d)).
  rewrite Hl2, Hb', Hv', !length_app in IH. app_norm_in IH. rewrite length_app, Nat.add_assoc.
  apply IH; (done || lia || by rewrite Hv || by rewrite Hv; lia).
Qed.

Lemma length_mp_enc ver prev runs : (length runs ≤ length (mp_enc ver prev runs))%nat.
Proof.
  revert prev. induction runs as [|e runs IH]; intros prev; simpl; [lia|].
  rewrite length_app. specialize (IH (if mp_stored ver e then lcn e else prev)). lia.
Qed.

Lemma mp_enc_head ver prev e runs :
  mp_run e → LCN_HOLE ≤ prev < 2 ^ 62 →
  ∃ h rest, mp_enc ver prev (e :: runs) = h :: rest ∧ (h =? 0) = false.
Proof.
  intros He Hprev. destruct (mp_stored_range ver prev e He Hprev) as [Hd _].
  assert (s64_range (rlen e)) as Hn by (unfold mp_run in He; unfold s64_range; lia).
  destruct (pair_head_spec _ _ Hn Hd) as [Hh _]. by eexists _, _.
Qed.

(** The number of clusters of the attribute. *)
Definition mpd_clusters (vol : ntfs_volume) (a : attr_record) : Z :=
  Z.shiftr (a_allocated_size a + cluster_size_mask vol) (cluster_size_shift vol).

(** The runlist of an extent [lo, hi) of an attribute of [max] clusters: not mapped
    elements stand for what the extent does not describe. *)
Definition mpd_elements (lo hi max : Z) (runs : list ntfs_rl_element) : list ntfs_rl_element :=
  if lo =? 0 then
    runs ++ (if hi <? max then [mk_rle hi LCN_RL_NOT_MAPPED (max - hi)] else []) ++
    [mk_rle max LCN_ENOENT 0]
  else mk_rle 0 LCN_RL_NOT_MAPPED lo :: runs ++ [mk_rle hi LCN_RL_NOT_MAPPED 0].

(** The record [a] holds the mapping pairs of [runs]. *)
Record mpd_holds (vol : ntfs_volume) (a : attr_record) (ver hi : Z)
    (runs : list ntfs_rl_element) : Prop := {
  mph_nr : a_non_resident a = true;
  mph_mem : ∃ p q, a_mem a = p ++ mp_enc ver 0 runs ++ 0 :: q ∧
    length p = a_mapping_pairs_offset a ∧
    (length p + length (mp_enc ver 0 runs) < a_length a)%nat;
  mph_lo : 0 ≤ a_lowest_vcn a;
  mph_seg : seg (a_lowest_vcn a) hi runs;
  mph_runs : Forall mp_run runs;
  mph_hi : a_highest_vcn a = hi - 1;
  mph_base : a_lowest_vcn a = 0 → runs ≠ [] ∧ hi ≤ mpd_clusters vol a;
  mph_hi_max : hi < 2 ^ 62;
  mph_clusters : mpd_clusters vol a < 2 ^ 62
}.

Lemma mpd_finish_spec vol a ver hi runs s done :
  mpd_holds vol a ver hi runs →
  done = (if a_lowest_vcn a =? 0 then [] else [mk_rle 0 LCN_RL_NOT_MAPPED (a_lowest_vcn a)])
    ++ runs → mpd_inv done s →
  (d_buf s < a_length a)%nat → d_vcn s = hi →
  ∃ junk, mpd_finish vol a s = Ret (inr (mk_used
    (mpd_elements (a_lowest_vcn a) hi (mpd_clusters vol a) runs) junk)).
Proof.
  intros [_ _ Hlo Hseg%seg_le _ Hh Hbase Hhi Hcl] Hd (Hpos & Hcount & Hroom & junk & Hrl) Hbuf Hvcn.
  unfold mpd_finish. rewrite (proj2 (Nat.leb_gt _ _)), Hvcn, Hh by done.
  rewrite swrap_id, (proj2 (Z.eqb_eq (hi - 1) (hi - 1))) by lia. cbn [negb].
  rewrite Hrl in *. rewrite length_app in Hroom, Hcount.
  rewrite Hpos, Hcount. fold (mpd_clusters vol a). unfold mpd_elements.
  set (lo := a_lowest_vcn a) in *. set (max := mpd_clusters vol a) in *.
  destruct junk as [|e1 [|e2 junk]]; [simpl in Hroom; lia..|].
  destruct (Z.eqb_spec lo 0) as [Hz|Hz].
  - destruct (Hbase Hz) as [_ Hmax]. simpl in Hd. subst runs. destruct (Z.ltb_spec hi max).
    + rewrite (proj2 (Z.ltb_lt (hi - 1) _)) by lia. do 3 mem_step. cbn [negb].
      rewrite swrap_id by lia. do 3 mem_step. exists junk. do 2 f_equal.
      unfold mk_used, set_vcn, set_len, set_lcn. cbn [vcn lcn rlen].
      replace (hi + _) with max by lia. replace (max - 1 - (hi - 1)) with (max - hi) by lia.
      f_equal; [by app_norm|glen..].
    + rewrite (proj2 (Z.ltb_ge (hi - 1) _)), (proj2 (Z.ltb_ge (max - 1) _)) by lia.
      cbn [mbind outcome_bind negb]. do 3 mem_step. exists (e2 :: junk). do 2 f_equal.
      unfold mk_used, set_vcn, set_len, set_lcn. cbn [vcn lcn rlen app].
      replace max with hi by lia. f_equal; [by app_norm|glen..].
  - cbn [mbind outcome_bind negb]. do 3 mem_step. exists (e2 :: junk). do 2 f_equal.
    unfold mk_used, set_vcn, set_len, set_lcn. cbn [vcn lcn rlen app].
    subst done. f_equal; [by app_norm|glen..].
Qed.

(** What [ntfs_mapping_pairs_decompress] does with the mapping pairs of [runs]. *)
Lemma decompress_eq vol a ver hi runs r :
  mpd_holds vol a ver hi runs →
  ntfs_mapping_pairs_decompress vol a r = Ret (ENOMEM, r) ∨
  ∃ junk, let tmp := mk_used (mpd_elements (a_lowest_vcn a) hi (mpd_clusters vol a) runs) junk in
    ntfs_mapping_pairs_decompress vol a r =
      if (elements r =? 0)%nat then Ret (0, tmp) else ntfs_rl_merge r tmp.
Proof.
  intros Ha. pose proof Ha as [Hnr (p & q & Hmem & Hp & Hend) Hlo Hseg Hr Hh Hbase Hhi Hcl].
  unfold ntfs_mapping_pairs_decompress. rewrite Hnr, (proj2 (Z.ltb_ge _ _)) by done. cbn [negb orb].
  rewrite (proj2 (Nat.ltb_ge _ _)) by lia. set (lo := a_lowest_vcn a) in *.
  assert ((if lo =? 0 then h ← rd (a_mem a) (a_mapping_pairs_offset a); Ret (h =? 0) else Ret false) =
    Ret false) as ->.
  { destruct (Z.eqb_spec lo 0) as [Hz|]; [|done]. destruct (Hbase Hz) as [Hne _].
    destruct runs as [|e runs]; [done|]. apply Forall_cons_1 in Hr as [He _].
    destruct (mp_enc_head ver 0 e runs He) as (h & rest & E & Hz'); [unfold LCN_HOLE; lia|].
    rewrite Hmem, E, <- Hp. cbn [app]. rewrite rd_middle, bind_Ret, Hz'. done. }
  cbn [mbind outcome_bind]. destruct (IONewData rl_alloc_step) as [l|] eqn:El; [|by left].
  apply IONewData_length in El. change rl_alloc_step with 42%nat in *.
  set (pre := if lo =? 0 then [] else [mk_rle 0 LCN_RL_NOT_MAPPED lo]).
  assert (∃ junk, (40 ≤ length junk)%nat ∧ length (pre ++ junk) = 42%nat ∧
    (if negb (lo =? 0) then
       l ← upd l 0 (set_vcn 0); l ← upd l 0 (set_lcn LCN_RL_NOT_MAPPED);
       l ← upd l 0 (set_len lo); Ret (l, 1%nat)
     else Ret (l, 0%nat)) = Ret (pre ++ junk, length pre)) as (junk & Hj & Hlj & ->).
  { unfold pre. destruct l as [|e l]; [done|]. simpl in El. destruct (lo =? 0); simpl.
    - exists (e :: l). split_and!; [simpl; lia|done..].
    - exists l. split_and!; [lia..|done]. }
  cbn [mbind outcome_bind].
  pose proof (mpd_loop_spec runs (a_length a - a_mapping_pairs_offset a) pre
    (mk_mpd (a_mapping_pairs_offset a) lo 0 (pre ++ junk) (length pre) 42) p q (a_length a) ver hi) as Hloop.
  pose proof (length_mp_enc ver 0 runs). cbn [d_buf d_vcn d_lcn] in Hloop. rewrite <- Hmem in Hloop.
  destruct Hloop as [-> |(s & -> & Hs & Hb & Hv)]; [|done..|unfold LCN_HOLE; lia|lia|lia|by left|].
  { unfold mpd_inv. cbn [d_rl d_rlpos d_rlcount]. rewrite Hlj. split_and!; [done..| |by exists junk].
    rewrite length_app in Hlj. lia. }
  cbn [mbind outcome_bind]. destruct (mpd_finish_spec vol a ver hi runs s (pre ++ runs) Ha) as (junk' & ->);
    [done|done|lia|done|]. right. by exists junk'.
Qed.

(** ** The map of the decoded runlist *)

Lemma lcn_of_skip b l first v :
  wf_rl 0 b l → 0 ≤ first ≤ b → first ≤ v → lcn_of (mp_skip first l) v = lcn_of l v.
Proof.
  intros Hwf Hf Hv. destruct (mp_at_first b l first Hwf Hf) as (l1 & e & l2 & -> & He & Hwe & -> & _).
  apply wf_rl_app_inv in Hwf as (c & Hs & Hwe'); [|done].
  destruct (wf_rl_cons_inv _ _ _ _ Hwe') as [<- _]. destruct He as [He _].
  rewrite lcn_of_run_drop, lcn_of_app by lia. by rewrite (lcn_of_ge _ _ _ _ Hs) by lia.
Qed.

Lemma lcn_of_clip a b l last_vcn v :
  wf_rl a b l → last_vcn = -1 ∨ (0 ≤ last_vcn ∧ v ≤ last_vcn) →
  lcn_of (mp_clip last_vcn l) v = lcn_of l v.
Proof.
  revert a. induction l as [|e l IH]; intros a Hwf Hl; [done|]. cbn [mp_clip lcn_of].
  apply wf_rl_cons_inv in Hwf as (Hv & [(Hz & -> & _)|(Hz & _ & Hwf)]).
  { rewrite Hz, Z.eqb_refl. simpl. ztests; done. }
  rewrite (proj2 (Z.eqb_neq _ _)) by lia.
  destruct ((0 <=? last_vcn) && (last_vcn <? vcn e + rlen e)) eqn:Hc.
  - cbn [lcn_of vcn rlen]. zbool. destruct (Z.leb_spec (vcn e) v); cbn [andb].
    + by zdec.
    + symmetry. by eapply lcn_of_wf_lt; [done|lia].
  - cbn [lcn_of]. by rewrite (IH (a + rlen e)).
Qed.

Lemma mpd_elements_wf lo hi max runs :
  0 ≤ lo → seg lo hi runs → (lo = 0 → hi ≤ max) →
  wf_rl 0 (if lo =? 0 then max else hi) (mpd_elements lo hi max runs).
Proof.
  intros H0 Hs Hm. unfold mpd_elements. destruct (Z.eqb_spec lo 0) as [-> |Hz].
  - specialize (Hm eq_refl). rewrite (assoc_L (++)). apply (wf_rl_app _ max).
    + eapply seg_app; [done|]. destruct (Z.ltb_spec hi max).
      * replace max with (hi + (max - hi)) at 1 by lia. constructor; [lia|done|constructor].
      * replace max with hi by lia. constructor.
    + by apply wf_rl_one.
  - apply wf_rl_cons; [done|simpl; lia|done|]. apply (wf_rl_app _ hi); [done|]. by apply wf_rl_one.
Qed.

Lemma lcn_of_mpd_elements lo hi max runs v :
  0 ≤ lo → seg lo hi runs → (lo = 0 → hi ≤ max) →
  lcn_of (mpd_elements lo hi max runs) v =
    if (lo <=? v) && (v <? hi) then lcn_of runs v
    else if (0 <=? v) && (v <? if lo =? 0 then max else hi) then Some LCN_RL_NOT_MAPPED else None.
Proof.
  intros H0 Hs Hm. pose proof (seg_le _ _ _ Hs).
  assert (v < lo ∨ hi ≤ v → lcn_of runs v = None) as Hout.
  { intros [?|?]; [by eapply lcn_of_lt|by eapply lcn_of_ge]. }
  assert (lo ≤ v < hi → is_Some (lcn_of runs v)) as Hin by (by eapply lcn_of_in).
  destruct (Z.leb_spec lo v), (Z.ltb_spec v hi); cbn [andb];
    try (destruct Hin as [x Hx]; [lia|]); try rewrite (Hout ltac:(lia)); unfold mpd_elements;
    destruct (Z.eqb_spec lo 0) as [-> |Hz]; try specialize (Hm eq_refl);
    cbn [lcn_of vcn rlen]; rewrite ?lcn_of_app, ?Hx; try rewrite (Hout ltac:(lia));
    cbn [lcn_of vcn rlen]; unfold run_lcn; cbn [lcn vcn rlen]; ztests; try done; lia.
Qed.

(** The clusters stored by [ntfs_mapping_pairs_build]. *)
Definition mp_end (b last_vcn : Z) : Z :=
  if last_vcn =? -1 then b else Z.min b (last_vcn + 1).

(** The attribute extent [a] describes the clusters from [first] to [mp_end b last_vcn]
    by the mapping pairs array [pairs]. *)
Record extent_of (vol : ntfs_volume) (a : attr_record) (pairs : list Z) (b first last_vcn : Z)
    : Prop := {
  ex_nr : a_non_resident a = true;
  ex_mem : ∃ p, a_mem a = p ++ pairs ∧ length p = a_mapping_pairs_offset a;
  ex_length : a_length a = length (a_mem a);
  ex_lowest : a_lowest_vcn a = first;
  ex_highest : a_highest_vcn a = mp_end b last_vcn - 1;
  ex_base : first = 0 → 0 < mp_end b last_vcn ≤ mpd_clusters vol a;
  ex_max : b < 2 ^ 62 ∧ mpd_clusters vol a < 2 ^ 62
}.

Lemma extent_holds b ver l junk first last_vcn buf res vol a :
  mp_args b first last_vcn l → (1 ≤ length buf)%nat →
  ntfs_mapping_pairs_build ver buf (length buf) (l ++ junk) first last_vcn = Ret res →
  mp_err res = 0 → extent_of vol a (mp_buf res) b first last_vcn →
  mpd_holds vol a ver (mp_end b last_vcn) (mp_clip last_vcn (mp_skip first l)).
Proof.
  intros Ha Hbuf Hb He [Hnr (p & Hmem & Hp) Hlen Hlo Hhi Hbase Hmax].
  destruct (mp_build_eq b ver l junk first last_vcn buf Ha Hbuf) as (r & Hb' & Hpost).
  rewrite Hb in Hb'. injection Hb' as <-. destruct Ha as [Hwf Hf Hlast Hr].
  destruct (mp_at_first b l first Hwf Hf) as (_ & _ & _ & _ & _ & _ & _ & Hws & _).
  pose proof (mp_clip_seg _ _ _ _ Hws Hlast) as Hseg. fold (mp_end b last_vcn) in Hseg.
  unfold mp_build_post in Hpost. cbv zeta in Hpost. case_match; zbool.
  2: { by destruct Hpost as (? & ? & ? & ? & ? & _ & -> & _). }
  subst res. simpl in Hmem. assert (mp_end b last_vcn ≤ b) by (unfold mp_end; ztests).
  split; rewrite ?Hlo; (done || lia || idtac).
  - exists p. eexists. split_and!; [done..|]. rewrite Hlen, Hmem. glen.
  - intros ->. destruct (Hbase eq_refl). split; [|done]. intros E. rewrite E in Hseg. inversion Hseg. lia.
Qed.

(** An extent that holds the mapping pairs [pairs] of [sample_pairs]. *)
Definition sample_extent (pairs : list Z) : attr_record :=
  mk_attr pairs true (length pairs) 0 16 0 (17 * 4096).

(** C3: decoding is the inverse of encoding.  When [ntfs_mapping_pairs_build] has stored the
    range [first, hi) of a runlist in an attribute extent, [ntfs_mapping_pairs_decompress] of that
    extent returns a well-formed runlist that maps every VCN of the range as the original did, and
    the other VCNs as not mapped; or it is out of memory and changes nothing. *)
Theorem ntfs_mapping_pairs_roundtrip b ver l junk first last_vcn buf res vol a r :
  mp_args b first last_vcn l → (1 ≤ length buf)%nat →
  ntfs_mapping_pairs_build ver buf (length buf) (l ++ junk) first last_vcn = Ret res →
  mp_err res = 0 → extent_of vol a (mp_buf res) b first last_vcn → elements r = 0%nat →
  ntfs_mapping_pairs_decompress vol a r = Ret (ENOMEM, r) ∨
  ∃ r', ntfs_mapping_pairs_decompress vol a r = Ret (0, r') ∧
    let hi := mp_end b last_vcn in
    let top := if first =? 0 then mpd_clusters vol a else hi in
    runlist_ok top r' ∧
    ∀ v, lcn_of (used r') v =
      if (first <=? v) && (v <? hi) then lcn_of l v
      else if (0 <=? v) && (v <? top) then Some LCN_RL_NOT_MAPPED else None.
Proof.
  intros Ha Hbuf Hb He Hex Hr.
  pose proof (extent_holds _ _ _ _ _ _ _ _ _ _ Ha Hbuf Hb He Hex) as Hh.
  destruct (decompress_eq vol a ver _ _ r Hh) as [?|(jk & Hd)]; [by left|right].
  rewrite Hr in Hd. eexists. split; [exact Hd|]. destruct Ha as [Hwf Hf Hlast _].
  destruct Hh as [_ _ Hlo Hs _ _ Hbase _ _]. rewrite (ex_lowest _ _ _ _ _ _ Hex) in *.
  assert (first = 0 → mp_end b last_vcn ≤ mpd_clusters vol a) as Hm by (intros; by apply Hbase).
  split.
  - by apply runlist_ok_mk_used, mpd_elements_wf.
  - intros v. rewrite used_mk_used, lcn_of_mpd_elements by done.
    destruct (_ && _) eqn:Hv; [|done]. zbool.
    destruct (mp_at_first b l first Hwf Hf) as (_ & _ & _ & _ & _ & _ & _ & Hws & _).
    rewrite (lcn_of_clip _ _ _ _ _ Hws), (lcn_of_skip b); (done || lia || idtac).
    unfold mp_end in *. destruct (Z.eqb_spec last_vcn (-1)); lia.
Qed.

(** Decoding a further extent of an attribute into its runlist fills the part of the map
    that was not mapped: the VCNs of the extent come from its mapping pairs, all others stay, and
    on ENOMEM nothing changes. *)
Theorem ntfs_mapping_pairs_decompress_fill vol a ver hi runs b r l1 h l2 :
  mpd_holds vol a ver hi runs → a_lowest_vcn a ≠ 0 → runs ≠ [] →
  runlist_ok b r → roomy r → (elements r + length runs + 1 ≤ max_elements)%nat →
  used r = l1 ++ h :: l2 → lcn h = LCN_RL_NOT_MAPPED →
  vcn h ≤ a_lowest_vcn a → hi ≤ vcn h + rlen h →
  ∃ err r', ntfs_mapping_pairs_decompress vol a r = Ret (err, r') ∧
    ((err = ENOMEM ∧ r' = r) ∨
     (err = 0 ∧ runlist_ok b r' ∧ roomy r' ∧
      ∀ v, lcn_of (used r') v =
        if (a_lowest_vcn a <=? v) && (v <? hi) then lcn_of runs v else lcn_of (used r) v)).
Proof.
  intros Hh Hlo Hne (l & dj & -> & Hwf)%runlist_ok_inv Hroom Hmax. rewrite used_mk_used.
  intros -> Hlcn Hv1 Hv2. destruct (decompress_eq vol a ver hi runs (mk_used (l1 ++ h :: l2) dj) Hh) as [->|(sj & Hd)].
  { eexists _, _. split; [done|by left]. }
  destruct Hh as [_ _ H0 Hseg Hr _ _ _ _]. set (lo := a_lowest_vcn a) in *.
  cbv zeta in Hd. unfold mpd_elements in Hd. rewrite (proj2 (Z.eqb_neq lo 0)) in Hd by done.
  destruct runs as [|y s]; [done|].
  assert (merge_source lo hi [mk_rle 0 LCN_RL_NOT_MAPPED lo] y s (mk_rle hi LCN_RL_NOT_MAPPED 0)) as Hms.
  { split; [|exists 0|done| |done].
    - apply Forall_singleton. simpl. lia.
    - apply (seg_cons 0 lo LCN_RL_NOT_MAPPED lo); [lia|done|constructor].
    - refine (list.Forall_impl _ _ _ Hr _). by intros e (_ & ? & _). }
  rewrite (proj2 (Nat.eqb_neq _ _)) in Hd by (simpl; glen).
  destruct (merge_fill b lo hi l1 h l2 dj [mk_rle 0 LCN_RL_NOT_MAPPED lo] y s
    (mk_rle hi LCN_RL_NOT_MAPPED 0) sj) as [E|(l' & junk' & E & ? & ? & Hl)];
    [done|done|simpl in *; lia|by right|done..| |]; cbn [app] in E, Hd; rewrite Hd, E;
    eexists _, _; (split; [done|]); [by left|right].
  rewrite used_mk_used in *. split_and!; [done|by apply runlist_ok_mk_used|done|].
  intros v. rewrite Hl, !used_mk_used. destruct (_ && _) eqn:Hv; [|done]. zbool.
  by apply (merge_source_lookup lo hi).
Qed.

(** ** Arbitrary input *)

Lemma rd_lt {A} (l : list A) i : (i < length l)%nat → ∃ x, rd l i = Ret x.
Proof. intros [x Hx]%lookup_lt_is_Some. exists x. by apply rd_Ret. Qed.

Lemma mp_number_safe mem buf b lo :
  (buf + b < length mem)%nat → ∃ n, mp_number mem buf b lo = Ret n.
Proof.
  intros Hb. unfold mp_number. destruct (rd_lt mem (buf + b) Hb) as [x ->]. cbn [mbind outcome_bind].
  destruct (decide (b - lo - 1 = 0)%nat) as [-> |]; [by eexists|].
  assert (buf + (lo + (b - lo - 1)) < length mem)%nat as Hm by lia. revert Hm. clear.
  generalize (s8 x). induction (b - lo - 1)%nat as [|m IH]; intros y Hm; [by eexists|].
  cbn [mp_number_loop]. destruct (rd_lt mem (buf + (lo + S m))) as [z ->]; [lia|].
  cbn [mbind outcome_bind]. apply IH. lia.
Qed.

Lemma mpd_length_safe mem a_end buf h :
  (a_end ≤ length mem)%nat → ∃ r, mpd_length mem a_end buf h = Ret r.
Proof.
  intros. unfold mpd_length. case_match; [|by eexists]. case_match; [by eexists|]. zbool.
  destruct (mp_number_safe mem buf (Z.to_nat (Z.land h 15)) 0) as [n ->]; [lia|]. by eexists.
Qed.

Lemma mpd_lcn_safe mem a_end buf h x :
  (a_end ≤ length mem)%nat → ∃ r, mpd_lcn mem a_end buf h x = Ret r.
Proof.
  intros. unfold mpd_lcn. case_match; [by eexists|]. case_match; [by eexists|]. zbool.
  edestruct mp_number_safe as [n ->]; [|cbn [mbind outcome_bind]; case_match; by eexists]. lia.
Qed.

Lemma mpd_pair_safe mem a_end h s done :
  (a_end ≤ length mem)%nat → mpd_inv done s →
  ∃ r, mpd_pair mem a_end h s = Ret r ∧
    match r with
    | inl err => err = EIO ∨ err = ENOMEM
    | inr s' => (∃ e, mpd_inv (done ++ [e]) s') ∧ (d_buf s < d_buf s')%nat
    end.
Proof.
  intros Hend Hinv. unfold mpd_pair.
  destruct (mpd_room_spec done s Hinv) as [-> |(e & junk & Hj & ->)];
    cbn [mbind outcome_bind]; [eexists; split; [done|]; simpl; by auto|].
  cbn [d_rl d_rlpos d_buf d_vcn d_lcn d_rlcount]. rewrite upd_middle. cbn [mbind outcome_bind].
  destruct (mpd_length_safe mem a_end (d_buf s) h Hend) as [[n|] ->]; cbn [mbind outcome_bind];
    [|eexists; split; [done|]; simpl; by auto].
  case_match; [eexists; split; [done|]; simpl; by auto|]. rewrite upd_middle. cbn [mbind outcome_bind].
  destruct (mpd_lcn_safe mem a_end (d_buf s) h (d_lcn s) Hend) as [[[x y]|] ->];
    cbn [mbind outcome_bind]; [|eexists; split; [done|]; simpl; by auto].
  rewrite upd_middle. cbn [mbind outcome_bind]. eexists. split; [done|].
  cbn [d_buf]. split; [|lia]. exists (mk_rle (d_vcn s) x n).
  unfold mpd_inv. cbn [d_rlpos d_rlcount d_rl].
  split_and!; [glen..|]. exists junk. by app_norm.
Qed.

(** The loop stays inside the record, and ends before its fuel does: behind the
    last byte or at a zero byte. *)
Lemma mpd_loop_safe fuel mem a_end s done :
  (a_end ≤ length mem)%nat → mpd_inv done s → (a_end - d_buf s ≤ fuel)%nat →
  ∃ r, mpd_loop fuel mem a_end s = Ret r ∧
    match r with
    | inl err => err = EIO ∨ err = ENOMEM
    | inr s' => (∃ done', mpd_inv done' s') ∧ ((a_end ≤ d_buf s')%nat ∨ rd mem (d_buf s') = Ret 0)
    end.
Proof.
  intros Hend. revert s done. induction fuel as [|fuel IH]; intros s done Hinv Hf; cbn [mpd_loop].
  { eexists. split; [done|]. split; [by exists done|left; lia]. }
  destruct (Nat.ltb_spec (d_buf s) a_end) as [Hlt|Hge].
  2: { eexists. split; [done|]. split; [by exists done|by left]. }
  destruct (rd_lt mem (d_buf s)) as [h Hh]; [lia|]. rewrite Hh. cbn [mbind outcome_bind].
  destruct (Z.eqb_spec h 0) as [-> |].
  { eexists. split; [done|]. split; [by exists done|by right]. }
  destruct (mpd_pair_safe mem a_end h s done Hend Hinv) as ([err|s'] & -> & Hr);
    cbn [mbind outcome_bind]; [by eexists|].
  destruct Hr as [[e Hinv'] Hb]. apply (IH s' (done ++ [e])); [done|lia].
Qed.

Lemma mpd_finish_safe vol a s done :
  mpd_inv done s →
  ∃ r, mpd_finish vol a s = Ret r ∧
    match r with
    | inl err => err = EIO
    | inr r => (d_buf s < a_length a)%nat ∧ ∃ runs t junk, r = mk_used (runs ++ [t]) junk ∧
        rlen t = 0 ∧ (lcn t = LCN_ENOENT ∨ lcn t = LCN_RL_NOT_MAPPED)
    end.
Proof.
  destruct s as [buf v x l pos count]. intros (Hpos & Hcount & Hroom & junk & Hrl).
  cbn [d_rl d_rlpos d_rlcount] in *. subst l pos count. rewrite length_app in Hroom. unfold mpd_finish.
  cbn [d_rl d_rlpos d_rlcount d_vcn d_buf].
  destruct (Nat.leb_spec (a_length a) buf); [by eexists|].
  case_match; [by eexists|]. destruct junk as [|e1 [|e2 junk]]; [simpl in *; lia..|].
  destruct (a_lowest_vcn a =? 0).
  - case_match.
    + do 3 mem_step. cbn [negb]. do 3 mem_step. eexists. split; [done|]. split; [done|].
      eexists (done ++ [_]), _, junk. split.
      { unfold mk_used. app_norm. f_equal; glen. }
      split; [done|by left].
    + cbn [mbind outcome_bind]. case_match; [by eexists|]. do 3 mem_step. eexists. split; [done|].
      split; [done|]. eexists done, _, (e2 :: junk). split.
      { unfold mk_used. app_norm. f_equal; glen. }
      split; [done|by left].
  - cbn [mbind outcome_bind negb]. do 3 mem_step. eexists. split; [done|].
    split; [done|]. eexists done, _, (e2 :: junk). split.
      { unfold mk_used. app_norm. f_equal; glen. }
      split; [done|by right].
Qed.

(** An errno was returned, and the runlist is the old one. *)
Ltac ret_errno := split; [intros ?; split; [done|]; tauto|intros ?; first [done|by left]].

(** C25: the decoder, given no old runlist, is safe on attribute records with corrupt contents: as long
    as the length of the record stays inside the memory and the first byte of its mapping pairs is in
    memory too (neither of which it checks), it returns, with the runlist unchanged and
    EIO, ENOMEM or EINVAL, or with an array that ends with a terminator. *)
Theorem ntfs_mapping_pairs_decompress_safe vol a r :
  (a_length a ≤ length (a_mem a))%nat → (a_mapping_pairs_offset a < length (a_mem a))%nat →
  elements r = 0%nat →
  ∃ err r', ntfs_mapping_pairs_decompress vol a r = Ret (err, r') ∧
    (err ≠ 0 → r' = r ∧ (err = EIO ∨ err = ENOMEM ∨ err = EINVAL)) ∧
    (err = 0 → r' = r ∨ ∃ runs t, buf_ok r' ∧ used r' = runs ++ [t] ∧ rlen t = 0 ∧
       (lcn t = LCN_ENOENT ∨ lcn t = LCN_RL_NOT_MAPPED)).
Proof.
  intros Hlen Hoff Hr. unfold ntfs_mapping_pairs_decompress.
  case_match; [eexists _, _; split; [done|]; ret_errno|].
  case_match; [eexists _, _; split; [done|]; ret_errno|]. zbool.
  destruct (rd_lt (a_mem a) (a_mapping_pairs_offset a) Hoff) as [h ->].
  assert (∃ e, (if a_lowest_vcn a =? 0 then x ← Ret h; Ret (x =? 0) else Ret false) = Ret e) as [e ->]
    by (case_match; by eexists).
  cbn [mbind outcome_bind]. destruct e; [eexists _, _; split; [done|]; ret_errno|].
  destruct (IONewData rl_alloc_step) as [l|] eqn:El; [|eexists _, _; split; [done|]; ret_errno].
  apply IONewData_length in El. change rl_alloc_step with 42%nat in *.
  destruct l as [|e1 l]; [done|].
  assert (∃ done junk, (length done ≤ 1)%nat ∧ length (done ++ junk) = 42%nat ∧
    (if negb (a_lowest_vcn a =? 0) then
       l ← upd (e1 :: l) 0 (set_vcn 0); l ← upd l 0 (set_lcn LCN_RL_NOT_MAPPED);
       l ← upd l 0 (set_len (a_lowest_vcn a)); Ret (l, 1%nat)
     else Ret (e1 :: l, 0%nat)) = Ret (done ++ junk, length done)) as (done & junk & Hd & Hl & ->).
  { destruct (a_lowest_vcn a =? 0); simpl.
    - exists [], (e1 :: l). split_and!; (done || simpl; lia).
    - eexists [_], l. split_and!; [| |done]; simpl in *; lia. }
  cbn [mbind outcome_bind].
  edestruct (mpd_loop_safe (a_length a - a_mapping_pairs_offset a) (a_mem a) (a_length a)
    (mk_mpd (a_mapping_pairs_offset a) (a_lowest_vcn a) 0 (done ++ junk) (length done) 42) done)
    as ([err|s] & -> & Hs); [done| |done|..].
  { unfold mpd_inv. cbn [d_rl d_rlpos d_rlcount]. rewrite Hl. split_and!; [done..|lia|by exists junk]. }
  { cbn [mbind outcome_bind]. eexists _, _. split; [done|]. destruct Hs as [-> | ->]; ret_errno. }
  cbn [mbind outcome_bind]. destruct Hs as [[done' Hs] _].
  destruct (mpd_finish_safe vol a s done' Hs) as ([err|tmp] & -> & Ht); cbn [mbind outcome_bind].
  { eexists _, _. split; [done|]. subst err. ret_errno. }
  rewrite Hr. cbn [Nat.eqb]. destruct Ht as (_ & runs & t & jk & -> & Ht).
  eexists _, _. split; [done|]. split; [done|]. intros _. right. exists runs, t.
  rewrite used_mk_used. split; [apply buf_ok_mk_used|done].
Qed.
End decoding.

Lemma ntfs_mapping_pairs_roundtrip_witness :
  ∃ res, ntfs_mapping_pairs_build 3 (replicate 9 0) 9 (sample_pairs ++ []) 0 (-1) = Ret res ∧
    let a := sample_extent (mp_buf res) in
    @ntfs_mapping_pairs_decompress zero_allocator (volume_of 9 12) a ntfs_rl_init = Ret (ENOMEM, ntfs_rl_init) ∨
    ∃ r', @ntfs_mapping_pairs_decompress zero_allocator (volume_of 9 12) a ntfs_rl_init = Ret (0, r') ∧
      runlist_ok 17 r' ∧
      ∀ v, lcn_of (used r') v =
        if (0 <=? v) && (v <? 17) then lcn_of sample_pairs v
        else if (0 <=? v) && (v <? 17) then Some LCN_RL_NOT_MAPPED else None.
Proof.
  eexists. split; [vm_compute; reflexivity|]. cbv zeta.
  eapply (@ntfs_mapping_pairs_roundtrip zero_allocator 17 3 sample_pairs [] 0 (-1) (replicate 9 0)
    _ (volume_of 9 12) (sample_extent _) ntfs_rl_init);
    [apply sample_pairs_ok|simpl; lia|vm_compute; reflexivity|done| |done].
  split; [done|by exists []|done..|intros _; vm_compute; split; congruence|vm_compute; done].
Defined.

Lemma ntfs_mapping_pairs_decompress_safe_witness :
  let a := mk_attr [0x81; 0xff; 0x00] true 3 0 7 0 4096 in
  ∃ err r', @ntfs_mapping_pairs_decompress zero_allocator (volume_of 9 12) a ntfs_rl_init = Ret (err, r') ∧
    (err ≠ 0 → r' = ntfs_rl_init ∧ (err = EIO ∨ err = ENOMEM ∨ err = EINVAL)) ∧
    (err = 0 → r' = ntfs_rl_init ∨ ∃ runs t, buf_ok r' ∧ used r' = runs ++ [t] ∧ rlen t = 0 ∧
       (lcn t = LCN_ENOENT ∨ lcn t = LCN_RL_NOT_MAPPED)).
Proof. apply (@ntfs_mapping_pairs_decompress_safe zero_allocator); [simpl; lia|simpl; lia|done]. Defined.

(** ** Two corners of the parser *)

(** A pair with the length 0 is accepted, although an element of length 0 is the
    terminator for every function that walks the runlist: the five clusters of this
    attribute are decoded, but cannot be found. *)
Example decompress_zero_length_run :
  let a := mk_attr [0x11; 0x00; 0x64; 0x11; 0x05; 0x10; 0x00; 0x00] true 8 0 4 0 (5 * 4096) in
  (r ← @ntfs_mapping_pairs_decompress zero_allocator (volume_of 9 12) a ntfs_rl_init;
   Ret (fst r, used (snd r))) =
  Ret (0, [mk_rle 0 100 0; mk_rle 0 116 5; mk_rle 5 LCN_ENOENT 0]).
Proof. vm_compute. reflexivity. Qed.

(** [buf == a_end] passes the test of the mapping pairs offset, and the first byte
    behind the attribute is read. *)
Example decompress_reads_past_end :
  let a := mk_attr [0x11; 0x05; 0x64; 0x00] true 4 0 4 4 (5 * 4096) in
  @ntfs_mapping_pairs_decompress zero_allocator (volume_of 9 12) a ntfs_rl_init = Oob.
Proof. vm_compute. reflexivity. Qed.
