(* ===== verification/RunlistIo.v ===== *)
(** * Runlist input and output

    [ntfs_rl_read], [ntfs_rl_write] and [ntfs_rl_set] of [kext/ntfs_runlist.c]:
    the data of an attribute is read from, and written to, the sectors its runlist
    describes.  The buffer cache of the kernel is a parameter. *)

From S2P Require Import Prelude Volume Runlist RunlistBuf RunlistQuery.

(** ** The device *)

(** The contents of the sectors, and the number of requests made so far. *)
Record device := mk_device { blocks : Z → list Z; ticks : nat }.

(** What the buffer cache does with the request number [t] for the sector [b]:
    errno of [buf_meta_bread] and of [buf_map], the contents of a fresh buffer ([None]:
    no buffer), and for [buf_bwrite] the errno with what is then in the sector. *)
Class BufferCache := {
  bread_errno : nat → Z → Z;
  map_errno : nat → Z → Z;
  getblk_data : nat → Z → option (list Z);
  bwrite_errno : nat → Z → Z;
  bwrite_torn : nat → Z → list Z
}.

Definition tick (d : device) : device := mk_device (blocks d) (S (ticks d)).

Definition set_block (f : Z → list Z) (b : Z) (x : list Z) : Z → list Z :=
  λ b', if b' =? b then x else f b'.

Inductive io_ctl := io_next | io_done | io_fail (err : Z).

Section io.
Context `{!BufferCache}.

Definition buf_meta_bread (d : device) (block : Z) : Z * list Z * device :=
  (bread_errno (ticks d) block, blocks d block, tick d).

Definition buf_map (d : device) (block : Z) : Z * device :=
  (map_errno (ticks d) block, tick d).

Definition buf_getblk (d : device) (block : Z) : outcome (list Z * device) :=
  match getblk_data (ticks d) block with
  | None => Panic
  | Some data => Ret (data, tick d)
  end.

Definition buf_bwrite (d : device) (block : Z) (data : list Z) : Z * device :=
  let err := bwrite_errno (ticks d) block in
  let data := if err =? 0 then data else bwrite_torn (ticks d) block in
  (err, mk_device (set_block (blocks d) block data) (S (ticks d))).

(** ** Reading *)

Record rd_state := mk_rd { r_dst : list Z; r_pos : nat; r_bs : nat; r_dev : device }.

(** The body of the inner loop: one sector. *)
Definition read_block (dst_end : nat) (block : Z) (s : rd_state) : outcome (io_ctl * rd_state) :=
  let '(err, src, d) := buf_meta_bread (r_dev s) block in
  if negb (err =? 0) then Ret (io_fail err, mk_rd (r_dst s) (r_pos s) (r_bs s) d) else
  let '(err, d) := buf_map d block in
  if negb (err =? 0) then Ret (io_fail err, mk_rd (r_dst s) (r_pos s) (r_bs s) d) else
  let bs := if (dst_end <? r_pos s + r_bs s)%nat then (dst_end - r_pos s)%nat else r_bs s in
  dst ← memcpy (r_dst s) (r_pos s) src 0 bs;
  let pos := (r_pos s + bs)%nat in
  Ret (if (dst_end <=? pos)%nat then io_done else io_next, mk_rd dst pos bs d).

(** The sectors of one run; [n] more sectors follow the first one. *)
Fixpoint read_run (dst_end n : nat) (block : Z) (s : rd_state) : outcome (io_ctl * rd_state) :=
  '(c, s) ← read_block dst_end block s;
  match c, n with
  | io_next, S n => read_run dst_end n (block + 1) s
  | _, _ => Ret (c, s)
  end.

Fixpoint read_runs (shift : Z) (dst_end : nat) (l : list ntfs_rl_element) (s : rd_state)
    : outcome (io_ctl * rd_state) :=
  match l with
  | [] => Oob
  | e :: l =>
      if rlen e =? 0 then Ret (io_done, s) else
      if lcn e <? 0 then Ret (io_fail EIO, s) else
      let block := Z.shiftl (lcn e) shift in
      let max_block := block + Z.shiftl (rlen e) shift in
      '(c, s) ← read_run dst_end (Z.to_nat (max_block - block - 1)) block s;
      match c with
      | io_next => read_runs shift dst_end l s
      | _ => Ret (c, s)
      end
  end.

(** The result is the errno, the destination buffer and the device. *)
Definition ntfs_rl_read (vol : ntfs_volume) (runlist : ntfs_runlist) (dst : list Z)
    (size initialized_size : Z) (d : device) : outcome (Z * list Z * device) :=
  if (size <=? 0) || (initialized_size <? 0) || (size <? initialized_size)
  then Ret (EINVAL, dst, d) else
  if initialized_size =? 0 then
    dst ← memset dst 0 0 (Z.to_nat size); Ret (0, dst, d)
  else
  if bool_decide (rl runlist = []) then Ret (EIO, dst, d) else
  let dst_end := Z.to_nat initialized_size in
  '(c, s) ← read_runs (cluster_size_shift vol - sector_size_shift vol) dst_end (rl runlist)
              (mk_rd dst 0 (Z.to_nat (sector_size vol)) d);
  match c with
  | io_fail err => Ret (err, r_dst s, r_dev s)
  | _ =>
      dst ← (if (r_pos s <? dst_end)%nat
             then memset (r_dst s) (r_pos s) 0 (dst_end - r_pos s) else Ret (r_dst s));
      dst ← (if initialized_size <? size
             then memset dst dst_end 0 (Z.to_nat (size - initialized_size)) else Ret dst);
      Ret (0, dst, r_dev s)
  end.

(** ** Writing *)

Record wr_state := mk_wr { w_pos : nat; w_bs : nat; w_dev : device }.

(** The body of the inner loop: one sector. *)
Definition write_block (src : list Z) (src_end src_stop : nat) (block : Z) (s : wr_state)
    : outcome (io_ctl * wr_state) :=
  '(dst, d) ← buf_getblk (w_dev s) block;
  let '(err, d) := buf_map d block in
  if negb (err =? 0) then Ret (io_fail err, mk_wr (w_pos s) (w_bs s) d) else
  '(dst, bs) ←
    (if (src_end <? w_pos s + w_bs s)%nat then
       let delta := (src_end - w_pos s)%nat in
       dst ← memset dst delta 0 (w_bs s - delta); Ret (dst, delta)
     else Ret (dst, w_bs s));
  dst ← memcpy dst 0 src (w_pos s) bs;
  let '(err, d) := buf_bwrite d block dst in
  if negb (err =? 0) then Ret (io_fail err, mk_wr (w_pos s) bs d) else
  let pos := (w_pos s + bs)%nat in
  Ret (if (src_stop <=? pos)%nat then io_done else io_next, mk_wr pos bs d).

(** The sectors of one cluster. *)
Fixpoint write_cluster (src : list Z) (src_end src_stop n : nat) (block : Z) (s : wr_state)
    : outcome (io_ctl * wr_state) :=
  '(c, s) ← write_block src src_end src_stop block s;
  match c, n with
  | io_next, S n => write_cluster src src_end src_stop n (block + 1) s
  | _, _ => Ret (c, s)
  end.

(** The loop over the clusters, from the element at the head of [l] on.  Every
    cluster takes at least one byte of the source. *)
Fixpoint write_clusters (vol : ntfs_volume) (src : list Z) (src_end src_stop fuel : nat)
    (l : list ntfs_rl_element) (v vcn_ofs : Z) (s : wr_state) : outcome (io_ctl * wr_state) :=
  match fuel with
  | O => Oob
  | S fuel =>
      '(x, _) ← ntfs_rl_vcn_to_lcn l v;
      if x <? 0 then Panic else
      let block := Z.shiftr (Z.shiftl x (cluster_size_shift vol) + vcn_ofs)
                     (sector_size_shift vol) in
      let end_block := Z.shiftl (x + 1) (cluster_size_shift vol - sector_size_shift vol) in
      '(c, s) ← write_cluster src src_end src_stop (Z.to_nat (end_block - block - 1)) block s;
      match c with
      | io_next =>
          e1 ← rd l 1;
          if vcn e1 <=? v + 1 then
            if rlen e1 =? 0 then Ret (io_done, s)
            else write_clusters vol src src_end src_stop fuel (drop 1 l) (v + 1) 0 s
          else write_clusters vol src src_end src_stop fuel l (v + 1) 0 s
      | _ => Ret (c, s)
      end
  end.

(** The result is the errno, whether the volume was marked with
    [NVolSetErrors], and the device. *)
Definition ntfs_rl_write (vol : ntfs_volume) (src : list Z) (size : Z)
    (runlist : ntfs_runlist) (ofs cnt : Z) (d : device) : outcome (Z * bool * device) :=
  if (size <=? 0) || (elements runlist =? 0)%nat || (ofs <? 0) || (cnt <? 0) ||
     (size <? ofs + cnt)
  then Ret (EINVAL, false, d) else
  let src_end := Z.to_nat size in
  let src_stop := if negb (cnt =? 0) then Z.to_nat (ofs + cnt) else src_end in
  if (src_end <? src_stop)%nat then Panic else
  let ofs := ofs - Z.land ofs (sector_size_mask vol) in
  let v := Z.shiftr ofs (cluster_size_shift vol) in
  let vcn_ofs := Z.land ofs (cluster_size_mask vol) in
  found ← ntfs_rl_find_vcn_nolock (rl runlist) v;
  match found with
  | None => Panic
  | Some i =>
      e ← rd (rl runlist) i;
      if rlen e =? 0 then Panic else
      '(c, s) ← write_clusters vol src src_end src_stop (S (length src)) (drop i (rl runlist)) v
                  vcn_ofs (mk_wr (Z.to_nat ofs) (Z.to_nat (sector_size vol)) d);
      match c with
      | io_fail _ => Ret (EIO, true, w_dev s)
      | _ => Ret (0, false, w_dev s)
      end
  end.

(** ** Filling *)

Definition fill_block (bs : nat) (val block : Z) (d : device) : outcome (io_ctl * device) :=
  '(dst, d) ← buf_getblk d block;
  let '(err, d) := buf_map d block in
  if negb (err =? 0) then Ret (io_fail err, d) else
  dst ← memset dst 0 val bs;
  let '(err, d) := buf_bwrite d block dst in
  if negb (err =? 0) then Ret (io_fail err, d) else Ret (io_next, d).

Fixpoint fill_run (bs : nat) (val : Z) (n : nat) (block : Z) (d : device)
    : outcome (io_ctl * device) :=
  '(c, d) ← fill_block bs val block d;
  match c, n with
  | io_next, S n => fill_run bs val n (block + 1) d
  | _, _ => Ret (c, d)
  end.

(** The outer loop; the first element is taken whatever its length. *)
Fixpoint fill_runs (bs : nat) (shift val : Z) (l : list ntfs_rl_element) (d : device)
    : outcome (Z * device) :=
  match l with
  | [] => Oob
  | e :: l =>
      if vcn e <? 0 then Panic else
      let next d :=
        match l with
        | [] => Oob
        | e1 :: _ => if rlen e1 =? 0 then Ret (0, d) else fill_runs bs shift val l d
        end in
      if lcn e <? 0 then
        if (lcn e =? LCN_HOLE) || (lcn e =? LCN_RL_NOT_MAPPED) then next d else Ret (EIO, d)
      else
      let block := Z.shiftl (lcn e) shift in
      let end_block := Z.shiftl (lcn e + rlen e) shift in
      '(c, d) ← fill_run bs val (Z.to_nat (end_block - block - 1)) block d;
      match c with
      | io_fail err => Ret (err, d)
      | _ => next d
      end
  end.

Definition ntfs_rl_set (vol : ntfs_volume) (l : list ntfs_rl_element) (val : Z) (d : device)
    : outcome (Z * device) :=
  match l with
  | [] => Ret (EINVAL, d)
  | e :: _ =>
      if rlen e =? 0 then Ret (EINVAL, d) else
      fill_runs (Z.to_nat (sector_size vol)) (cluster_size_shift vol - sector_size_shift vol)
        val l d
  end.
End io.

(** ** Specification: the sectors of a runlist *)

(** The sectors of a run and of a runlist up to the terminator; [shift] is the
    logarithm of the number of sectors in a cluster. *)
Definition run_blocks (shift : Z) (e : ntfs_rl_element) : list Z :=
  seqZ (lcn e * 2 ^ shift) (rlen e * 2 ^ shift).

Fixpoint rl_blocks (shift : Z) (l : list ntfs_rl_element) : list Z :=
  match l with
  | [] => []
  | e :: l => if rlen e =? 0 then [] else run_blocks shift e ++ rl_blocks shift l
  end.

(** The contents of these sectors. *)
Definition content (f : Z → list Z) (bs : list Z) : list Z := mjoin (f <$> bs).

Lemma content_app f l1 l2 : content f (l1 ++ l2) = content f l1 ++ content f l2.
Proof. unfold content. by rewrite fmap_app, join_app. Qed.

Lemma content_cons f b l : content f (b :: l) = f b ++ content f l.
Proof. done. Qed.

Lemma length_content f n l : (∀ b, length (f b) = n) → length (content f l) = (length l * n)%nat.
Proof.
  intros Hf. induction l as [|b l IH]; [done|].
  rewrite content_cons, length_app, Hf, IH. simpl. lia.
Qed.

(** All the runs are backed by clusters. *)
Definition real_runs (l : list ntfs_rl_element) : Prop :=
  Forall (λ e, rlen e ≠ 0 → 0 ≤ lcn e) l.

Lemma seqZ_cons' m n : 0 < n → seqZ m n = m :: seqZ (m + 1) (n - 1).
Proof. intros. rewrite seqZ_cons by lia. by rewrite Z.add_1_r, <- Z.sub_1_r. Qed.

(** No request fails. *)
Record io_clean `{!BufferCache} (bs : nat) : Prop := {
  clean_bread t b : bread_errno t b = 0;
  clean_map t b : map_errno t b = 0;
  clean_getblk t b : ∃ data, getblk_data t b = Some data ∧ length data = bs;
  clean_bwrite t b : bwrite_errno t b = 0
}.

(** ** Reading *)

Section read.
Context `{!BufferCache} (bs dst_end : nat).
Hypothesis Hclean : io_clean bs.
Hypothesis Hbs : (0 < bs)%nat.

(** The state after [data] was copied to the buffer [p ++ rest] behind [p], up to
    [dst_end]. *)
Definition read_post (p rest data : list Z) (f : Z → list Z) (c : io_ctl) (s : rd_state) : Prop :=
  let k := min (length data) (dst_end - length p) in
  ∃ bs' d, blocks d = f ∧ s = mk_rd (p ++ take k data ++ drop k rest) (length p + k) bs' d ∧
    if (dst_end <=? length p + length data)%nat then c = io_done else c = io_next ∧ bs' = bs.

Lemma read_block_spec p rest d block :
  (length p < dst_end ≤ length (p ++ rest))%nat → length (blocks d block) = bs →
  ∃ c s, read_block dst_end block (mk_rd (p ++ rest) (length p) bs d) = Ret (c, s) ∧
    read_post p rest (blocks d block) (blocks d) c s.
Proof.
  rewrite length_app. intros Hp Hb. unfold read_block, buf_meta_bread, buf_map.
  cbn [r_dst r_pos r_bs r_dev]. rewrite (clean_bread _ Hclean), (clean_map _ Hclean). cbn [negb Z.eqb].
  set (k := if (dst_end <? length p + bs)%nat then (dst_end - length p)%nat else bs).
  assert (k = min bs (dst_end - length p)) as Hk by (unfold k; ztests).
  rewrite memcpy_Ret by (rewrite ?length_app; lia). cbn [mbind outcome_bind].
  eexists _, _. split; [done|]. unfold read_post. rewrite Hb, <- Hk. cbv zeta. eexists _, _.
  split; [|split]; [|f_equal|]; [done| |].
  - rewrite take_app_length, drop_0. f_equal. f_equal.
    rewrite drop_app_ge by lia. f_equal. lia.
  - rewrite Hk. ztests; try done. split; [done|]. lia.
Qed.

Lemma read_post_done p rest d1 d2 f c s :
  (dst_end ≤ length p + length d1)%nat → read_post p rest d1 f c s →
  c = io_done ∧ read_post p rest (d1 ++ d2) f c s.
Proof.
  intros Hd (bs' & d & Hf & -> & Hc). rewrite (proj2 (Nat.leb_le _ _)) in Hc by done. subst c.
  split; [done|]. exists bs', d. rewrite length_app. split; [done|].
  rewrite (proj2 (Nat.leb_le _ _)) by lia. split; [|done].
  replace (min (length d1 + length d2) (dst_end - length p)) with
    (min (length d1) (dst_end - length p)) by lia.
  by rewrite take_app_le by lia.
Qed.

Lemma read_post_next p rest d1 f c s :
  (length p + length d1 < dst_end)%nat → read_post p rest d1 f c s →
  c = io_next ∧ ∃ d, blocks d = f ∧
    s = mk_rd ((p ++ d1) ++ drop (length d1) rest) (length (p ++ d1)) bs d.
Proof.
  intros Hd (bs' & d & Hf & -> & Hc). rewrite (proj2 (Nat.leb_gt _ _)) in Hc by done.
  destruct Hc as [-> ->]. split; [done|]. exists d. split; [done|].
  rewrite Nat.min_l, firstn_all, length_app by lia. by rewrite (assoc_L (++)).
Qed.

Lemma read_post_app p rest d1 d2 f c s :
  (length p + length d1 < dst_end)%nat →
  read_post (p ++ d1) (drop (length d1) rest) d2 f c s → read_post p rest (d1 ++ d2) f c s.
Proof.
  intros Hd (bs' & d & Hf & -> & Hc). exists bs', d. split; [done|]. rewrite !length_app in *.
  rewrite <- Nat.add_assoc in Hc. split; [|done].
  replace (min (length d1 + length d2) (dst_end - length p)) with
    (length d1 + min (length d2) (dst_end - (length p + length d1)))%nat by lia.
  f_equal; [|lia]. rewrite drop_drop, take_app_add. by rewrite <- !(assoc_L (++)).
Qed.

Lemma read_run_spec n p rest d block :
  (length p < dst_end ≤ length (p ++ rest))%nat → (∀ b, length (blocks d b) = bs) →
  ∃ c s, read_run dst_end n block (mk_rd (p ++ rest) (length p) bs d) = Ret (c, s) ∧
    read_post p rest (content (blocks d) (seqZ block (Z.of_nat (S n)))) (blocks d) c s.
Proof.
  revert p rest d block. induction n as [|n IH]; intros p rest d block Hp Hb; cbn [read_run];
    destruct (read_block_spec p rest d block Hp (Hb block)) as (c & s & -> & Hpost);
    cbn [mbind outcome_bind]; rewrite seqZ_cons', content_cons by lia.
  { exists c, s. split; [by destruct c|]. unfold content. simpl. by rewrite app_nil_r. }
  replace (Z.of_nat (S (S n)) - 1) with (Z.of_nat (S n)) by lia.
  destruct (decide (dst_end ≤ length p + length (blocks d block))%nat) as [Hd|Hd].
  { eapply read_post_done in Hpost as [-> Hpost]; [|done]. by eexists _, _. }
  apply read_post_next in Hpost as (-> & d' & Hd' & ->); [|lia].
  destruct (IH (p ++ blocks d block) (drop (length (blocks d block)) rest) d' (block + 1))
    as (c & s & -> & Hpost).
  { rewrite !length_app, length_drop in *. lia. }
  { by rewrite Hd'. }
  exists c, s. split; [done|]. rewrite Hd' in Hpost. apply read_post_app; [lia|done].
Qed.

Lemma read_runs_spec shift a b l junk p rest d :
  0 ≤ shift → wf_rl a b l → real_runs l →
  (length p < dst_end ≤ length (p ++ rest))%nat → (∀ b, length (blocks d b) = bs) →
  ∃ c s, read_runs shift dst_end (l ++ junk) (mk_rd (p ++ rest) (length p) bs d) = Ret (io_done, s) ∧
    read_post p rest (content (blocks d) (rl_blocks shift l)) (blocks d) c s.
Proof.
  intros Hsh. revert a p rest d. induction l as [|e l IH]; intros a p rest d Hwf Hr Hp Hb;
    [by apply wf_rl_not_nil in Hwf|]. cbn [app read_runs rl_blocks].
  apply Forall_cons_1 in Hr as [He Hr].
  apply wf_rl_cons_inv in Hwf as (_ & [(Hz & _)|(Hz & _ & Hwf)]).
  { rewrite Hz. simpl. exists io_next. eexists. split; [done|]. eexists bs, d. split; [done|].
    simpl. rewrite Nat.add_0_r. rewrite (proj2 (Nat.leb_gt _ _)) by lia. by rewrite drop_0. }
  rewrite (proj2 (Z.eqb_neq _ _)), (proj2 (Z.ltb_ge (lcn e) 0)) by lia.
  rewrite !Z.shiftl_mul_pow2 by done. set (m := 2 ^ shift).
  assert (0 < m) by (apply Z.pow_pos_nonneg; lia).
  set (n := Z.to_nat (lcn e * m + rlen e * m - lcn e * m - 1)).
  destruct (read_run_spec n p rest d (lcn e * m) Hp Hb) as (c & s & -> & Hpost).
  cbn [mbind outcome_bind]. unfold run_blocks. fold m. rewrite content_app.
  replace (Z.of_nat (S n)) with (rlen e * m) in Hpost by nia.
  set (d1 := content (blocks d) (seqZ (lcn e * m) (rlen e * m))) in *.
  destruct (decide (dst_end ≤ length p + length d1)%nat) as [Hd|Hd].
  { eapply read_post_done in Hpost as [-> Hpost]; [|done]. by eexists _, _. }
  apply read_post_next in Hpost as (-> & d' & Hd' & ->); [|lia].
  destruct (IH _ (p ++ d1) (drop (length d1) rest) d' Hwf Hr) as (c & s & -> & Hpost).
  { rewrite !length_app, length_drop in *. lia. }
  { by rewrite Hd'. }
  exists c, s. split; [done|]. rewrite Hd' in Hpost. apply read_post_app; [lia|done].
Qed.
End read.

(** ** Writing *)

Section write.
Context `{!BufferCache} (bs : nat) (src : list Z) (src_end src_stop : nat).
Hypothesis Hclean : io_clean bs.
Hypothesis Hbs : (0 < bs)%nat.
Hypothesis Hsrc : (src_stop ≤ src_end ≤ length src)%nat.

(** The source from [pos] on, with zeroes behind its end. *)
Definition padded (pos : nat) : list Z := drop pos (take src_end src) ++ replicate bs 0.

(** Consecutive sectors are written until [src_stop] is reached. *)
Fixpoint write_seq (f : Z → list Z) (addrs : list Z) (pos : nat) : Z → list Z :=
  match addrs with
  | [] => f
  | b :: addrs =>
      let f := set_block f b (take bs (padded pos)) in
      if (src_stop <=? pos + bs)%nat then f else write_seq f addrs (pos + bs)
  end.

Definition write_post (addrs : list Z) (f : Z → list Z) (pos : nat) (c : io_ctl) (s : wr_state)
    : Prop :=
  blocks (w_dev s) = write_seq f addrs pos ∧
  if (src_stop <=? pos + length addrs * bs)%nat then c = io_done
  else c = io_next ∧ s = mk_wr (pos + length addrs * bs) bs (w_dev s).

Lemma length_padded pos : length (padded pos) = (src_end - pos + bs)%nat.
Proof. clear - Hsrc. unfold padded. glen. Qed.

Lemma write_block_spec block pos d :
  (pos < src_stop)%nat →
  ∃ c s, write_block src src_end src_stop block (mk_wr pos bs d) = Ret (c, s) ∧
    write_post [block] (blocks d) pos c s.
Proof.
  intros Hp. unfold write_block, buf_getblk. cbn [w_dev w_pos w_bs].
  destruct (clean_getblk _ Hclean (ticks d) block) as (data & -> & Hdata).
  cbn [mbind outcome_bind]. unfold buf_map. rewrite (clean_map _ Hclean). cbn [negb Z.eqb].
  set (bs' := if (src_end <? pos + bs)%nat then (src_end - pos)%nat else bs).
  assert (bs' = min bs (src_end - pos)) as Hbs' by (unfold bs'; ztests).
  assert (∃ x, (if (src_end <? pos + bs)%nat
      then dst ← memset data (src_end - pos) 0 (bs - (src_end - pos)); Ret (dst, (src_end - pos)%nat)
      else Ret (data, bs)) = Ret (x ++ replicate (bs - bs') 0, bs') ∧ length x = bs') as (x & -> & Hx).
  { unfold bs' in *. destruct (Nat.ltb_spec src_end (pos + bs)).
    - rewrite memset_Ret by lia. cbn [mbind outcome_bind]. exists (take (src_end - pos) data).
      rewrite (drop_ge data) by lia. rewrite app_nil_r. split; [done|]. rewrite length_take. lia.
    - exists data. rewrite Nat.sub_diag, app_nil_r. by split. }
  cbn [mbind outcome_bind]. rewrite memcpy_Ret by (autorewrite with ntfs_len; lia).
  cbn [mbind outcome_bind take app]. unfold buf_bwrite. rewrite (clean_bwrite _ Hclean). cbn [negb Z.eqb].
  eexists _, _. split; [done|]. unfold write_post. cbn [w_dev w_pos w_bs blocks write_seq length].
  rewrite Nat.mul_1_l, Nat.add_0_l, drop_app_length' by done. split.
  - assert (take bs' (drop pos src) ++ replicate (bs - bs') 0 = take bs (padded pos)) as ->; [|by case_match].
    unfold padded. rewrite take_app, length_drop, length_take, skipn_firstn_comm, take_take.
    rewrite (Nat.min_l src_end) by lia. rewrite <- Hbs', take_replicate. do 2 f_equal. lia.
  - rewrite Hbs'. ztests; try done. split; [done|]. f_equal; lia.
Qed.

Lemma write_seq_app f a1 a2 pos :
  (pos < src_stop)%nat →
  write_seq f (a1 ++ a2) pos =
    if (src_stop <=? pos + length a1 * bs)%nat then write_seq f a1 pos
    else write_seq (write_seq f a1 pos) a2 (pos + length a1 * bs).
Proof.
  revert f pos. induction a1 as [|b a1 IH]; intros f pos Hp; cbn [app write_seq length].
  - rewrite Nat.add_0_r. by rewrite (proj2 (Nat.leb_gt _ _)) by lia.
  - destruct (Nat.leb_spec src_stop (pos + bs)) as [Hle|Hgt].
    + by rewrite (proj2 (Nat.leb_le _ _)) by lia.
    + rewrite IH by lia. by replace (pos + bs + length a1 * bs)%nat with (pos + S (length a1) * bs)%nat by lia.
Qed.

Lemma write_cluster_spec n block pos d :
  (pos < src_stop)%nat →
  ∃ c s, write_cluster src src_end src_stop n block (mk_wr pos bs d) = Ret (c, s) ∧
    write_post (seqZ block (Z.of_nat (S n))) (blocks d) pos c s.
Proof.
  revert block pos d. induction n as [|n IH]; intros block pos d Hp; cbn [write_cluster];
    destruct (write_block_spec block pos d Hp) as (c & s & -> & Hpost); cbn [mbind outcome_bind].
  { exists c, s. split; [by destruct c|done]. }
  rewrite seqZ_cons' by lia. replace (Z.of_nat (S (S n)) - 1) with (Z.of_nat (S n)) by lia.
  destruct Hpost as [Hf Hc]. cbn [length] in Hc. unfold write_post. cbn [write_seq length] in *.
  rewrite Nat.mul_1_l in Hc. destruct (Nat.leb_spec src_stop (pos + bs)) as [Hle|Hgt].
  { subst c. exists io_done, s. split; [done|]. split; [done|].
    by rewrite (proj2 (Nat.leb_le _ _)) by lia. }
  destruct Hc as [-> ->]. destruct (IH (block + 1) (pos + bs)%nat (w_dev s)) as (c & s' & -> & Hf' & Hc); [lia|].
  exists c, s'. split; [done|]. rewrite Hf', Hf. split; [done|].
  replace (pos + S (length (seqZ (block + 1) (Z.of_nat (S n)))) * bs)%nat with
    (pos + bs + length (seqZ (block + 1) (Z.of_nat (S n))) * bs)%nat by lia. done.
Qed.

Lemma write_post_app a1 a2 f pos c1 s1 c s :
  (pos < src_stop)%nat → (pos + length a1 * bs < src_stop)%nat → write_post a1 f pos c1 s1 →
  write_post a2 (blocks (w_dev s1)) (pos + length a1 * bs) c s → write_post (a1 ++ a2) f pos c s.
Proof.
  intros Hp Hlt [Hf1 _] [Hf Hc]. unfold write_post. rewrite write_seq_app by done.
  rewrite (proj2 (Nat.leb_gt _ (pos + length a1 * bs))), <- Hf1 by done. split; [done|].
  rewrite length_app. by replace (pos + (length a1 + length a2) * bs)%nat with
    (pos + length a1 * bs + length a2 * bs)%nat by lia.
Qed.

(** The sectors of a runlist, from the sector [o] of the cluster [v] of the first
    run on: those of this cluster come first. *)
Lemma rl_blocks_cluster shift e l v o :
  0 ≤ shift → vcn e ≤ v < vcn e + rlen e → 0 ≤ o < 2 ^ shift →
  let m := 2 ^ shift in
  drop (Z.to_nat ((v - vcn e) * m + o)) (rl_blocks shift (e :: l)) =
    seqZ ((lcn e + (v - vcn e)) * m + o) (m - o) ++
    if v + 1 <? vcn e + rlen e then drop (Z.to_nat ((v + 1 - vcn e) * m)) (rl_blocks shift (e :: l))
    else rl_blocks shift l.
Proof.
  intros Hs Hv Ho m. cbn [rl_blocks]. rewrite (proj2 (Z.eqb_neq _ _)) by lia. unfold run_blocks. fold m.
  set (k := v - vcn e) in *.
  replace (rlen e * m) with (k * m + o + ((m - o) + (rlen e * m - (k + 1) * m))) by lia.
  rewrite (seqZ_app _ (k * m + o)), (seqZ_app _ (m - o)) by nia.
  replace (lcn e * m + (k * m + o)) with ((lcn e + k) * m + o) by lia.
  set (A := seqZ (lcn e * m) (k * m + o)). set (B := seqZ ((lcn e + k) * m + o) (m - o)).
  assert (length A = Z.to_nat (k * m + o)) as HA by apply length_seqZ.
  assert (length B = Z.to_nat (m - o)) as HB by apply length_seqZ.
  app_norm. rewrite drop_app_length' by done. f_equal.
  destruct (Z.ltb_spec (v + 1) (vcn e + rlen e)) as [Hlt|Hge].
  - rewrite (assoc_L (++) A B), drop_app_length'; [done|]. rewrite length_app, HA, HB.
    replace (v + 1 - vcn e) with (k + 1) by lia. rewrite <- Z2Nat.inj_add by nia. f_equal. lia.
  - by rewrite (seqZ_nil _ (rlen e * m - (k + 1) * m)) by nia.
Qed.

Lemma write_clusters_spec vol a b fuel e l junk v o pos d :
  vol_ok vol → bs = Z.to_nat (sector_size vol) →
  wf_rl a b (e :: l) → real_runs (e :: l) → 0 ≤ vcn e → vcn e ≤ v < vcn e + rlen e →
  let m := 2 ^ (cluster_size_shift vol - sector_size_shift vol) in
  0 ≤ o < m → (pos < src_stop)%nat → (src_stop - pos < fuel)%nat →
  ∃ c s, write_clusters vol src src_end src_stop fuel ((e :: l) ++ junk) v
      (o * sector_size vol) (mk_wr pos bs d) = Ret (io_done, s) ∧
    write_post (drop (Z.to_nat ((v - vcn e) * m + o))
      (rl_blocks (cluster_size_shift vol - sector_size_shift vol) (e :: l))) (blocks d) pos c s.
Proof.
  intros [Hsh Hvol] Hbsv. set (sh := cluster_size_shift vol - sector_size_shift vol).
  revert a e l v o pos d. induction fuel as [|fuel IH];
    intros a e l v o pos d Hwf Hr Hv0 Hv m Ho Hp Hf; [lia|].
  apply Forall_cons_1 in Hr as [He Hr]. specialize (He ltac:(lia)).
  cbn [write_clusters]. destruct (wf_rl_cons_inv _ _ _ _ Hwf) as (Hva & [(?&_)|(_ & Hl & Hwf1)]); [lia|].
  pose proof (vcn_to_lcn_run (vcn e) b [] e l junk v (seg_nil _) ltac:(by subst) Hv0 Hv) as Hlk.
  cbn [app] in Hlk |- *. rewrite Hlk. clear Hlk.
  cbn [mbind outcome_bind]. unfold run_lcn. rewrite (proj2 (Z.leb_le 0 (lcn e))) by done.
  rewrite (proj2 (Z.ltb_ge _ 0)) by lia. set (x := lcn e + (v - vcn e)).
  assert (2 ^ cluster_size_shift vol = m * 2 ^ sector_size_shift vol) as Hcs.
  { unfold m, sh. rewrite <- Z.pow_add_r by lia. f_equal. lia. }
  assert (sector_size vol = 2 ^ sector_size_shift vol) as Hss by (by rewrite Hvol at 1).
  assert (0 < 2 ^ sector_size_shift vol) by (apply Z.pow_pos_nonneg; lia).
  replace (Z.shiftr _ (sector_size_shift vol)) with (x * m + o).
  2: { rewrite Z.shiftr_div_pow2, Z.shiftl_mul_pow2, Hcs, Hss by lia.
    apply Z.div_unique_exact; [lia|]. ring. }
  fold sh. rewrite Z.shiftl_mul_pow2 by (unfold sh; lia). fold m.
  set (n := Z.to_nat ((x + 1) * m - (x * m + o) - 1)).
  destruct (write_cluster_spec n (x * m + o) pos d Hp) as (c & s & -> & Hpost).
  replace (Z.of_nat (S n)) with (m - o) in Hpost by (unfold n; lia).
  cbn [mbind outcome_bind]. unfold m. rewrite rl_blocks_cluster by (done || (unfold sh; lia)).
  fold m. fold x. set (A := seqZ (x * m + o) (m - o)) in *. pose proof Hpost as [Hf1 Hc].
  assert (1 ≤ length A)%nat by (unfold A; rewrite length_seqZ; lia).
  destruct (Nat.leb_spec src_stop (pos + length A * bs)) as [Hle|Hgt].
  { subst c. exists io_done, s. split; [done|]. unfold write_post.
    rewrite write_seq_app, (proj2 (Nat.leb_le _ (pos + length A * bs))) by done. split; [done|].
    rewrite length_app, (proj2 (Nat.leb_le _ _)) by lia. done. }
  destruct Hc as [-> ->]. destruct (wf_rl_head _ _ _ Hwf1) as (e1 & l' & -> & He1). cbn [app].
  change (rd (e :: e1 :: l' ++ junk) 1) with (Ret e1). cbn [mbind outcome_bind].
  destruct (Z.leb_spec (vcn e1) (v + 1)) as [Hlast|Hmore].
  - rewrite (proj2 (Z.ltb_ge (v + 1) _)) by lia. destruct (Z.eqb_spec (rlen e1) 0) as [Hz|Hz].
    + exists io_next. eexists. split; [done|]. cbn [rl_blocks]. rewrite Hz. simpl. rewrite app_nil_r.
      split; [done|]. by rewrite (proj2 (Nat.leb_gt _ _)) by lia.
    + assert (0 < rlen e1) by (apply wf_rl_cons_inv in Hwf1 as (_ & [(?&_)|(?&_)]); lia).
      destruct (IH _ e1 l' (v + 1) 0 (pos + length A * bs)%nat (w_dev s) Hwf1 Hr)
        as (c & s' & E & Hpost'); [lia..|]. rewrite Z.mul_0_l in E. exists c, s'. split; [done|].
      replace (v + 1 - vcn e1) with 0 in Hpost' by lia. rewrite Z.mul_0_l in Hpost'. simpl (Z.to_nat _) in Hpost'. rewrite drop_0 in Hpost'.
      by eapply write_post_app.
  - rewrite (proj2 (Z.ltb_lt (v + 1) _)) by lia.
    destruct (IH a e (e1 :: l') (v + 1) 0 (pos + length A * bs)%nat (w_dev s)) as (c & s' & E & Hpost').
    { done. }
    { by apply Forall_cons. }
    all: try lia. rewrite Z.mul_0_l in E. exists c, s'. split; [done|].
    rewrite Z.add_0_r in Hpost'. by eapply write_post_app.
Qed.

Lemma write_seq_frame f addrs pos b : b ∉ addrs → write_seq f addrs pos b = f b.
Proof.
  revert f pos. induction addrs as [|x addrs IH]; intros f pos Hb; [done|]. cbn [write_seq].
  apply not_elem_of_cons in Hb as [Hx Hb].
  assert (∀ y, set_block f x y b = f b) as Hset
    by (intros; unfold set_block; by rewrite (proj2 (Z.eqb_neq _ _))).
  case_match; [done|]. by rewrite IH.
Qed.

Lemma length_write_seq f addrs pos b :
  (∀ b, length (f b) = bs) → length (write_seq f addrs pos b) = bs.
Proof.
  revert f pos. induction addrs as [|x addrs IH]; intros f pos Hb; [done|]. cbn [write_seq].
  assert (∀ b, length (set_block f x (take bs (padded pos)) b) = bs) as Hset.
  { intros b'. unfold set_block. case_match; [|done]. rewrite length_take, length_padded. lia. }
  case_match; [done|]. by apply IH.
Qed.

(** The number of sectors needed from [pos] on. *)
Definition need (pos : nat) : nat := ((src_stop - pos + bs - 1) / bs)%nat.

Lemma need_step pos :
  (pos < src_stop)%nat → need pos = S (if (src_stop <=? pos + bs)%nat then 0 else need (pos + bs)).
Proof.
  intros Hp. unfold need. destruct (Nat.leb_spec src_stop (pos + bs)).
  - symmetry. apply Nat.div_unique with (src_stop - pos - 1)%nat; lia.
  - replace (src_stop - pos + bs - 1)%nat with (src_stop - (pos + bs) + bs - 1 + 1 * bs)%nat by lia.
    rewrite Nat.div_add by lia. lia.
Qed.

Lemma content_ext f g l : (∀ b, b ∈ l → f b = g b) → content f l = content g l.
Proof.
  intros H'. unfold content. f_equal. apply list_fmap_ext. intros i b Hb. apply H'.
  by eapply list_elem_of_lookup_2.
Qed.

(** The new contents: the source, with zeroes behind its end, over the old
    contents. *)
Lemma write_seq_content f addrs pos :
  NoDup addrs → (∀ b, length (f b) = bs) → (pos < src_stop)%nat →
  (src_stop ≤ pos + length addrs * bs)%nat →
  content (write_seq f addrs pos) addrs =
    take (need pos * bs) (padded pos) ++ drop (need pos * bs) (content f addrs).
Proof.
  revert f pos. induction addrs as [|x addrs IH]; intros f pos Hnd Hf Hp Hc; [simpl in Hc; lia|].
  apply list.NoDup_cons in Hnd as [Hx Hnd]. rewrite need_step by done. rewrite !content_cons.
  cbn [write_seq length] in *. set (f' := set_block f x (take bs (padded pos))).
  assert (f' x = take bs (padded pos)) as Hfx by (unfold f', set_block; by rewrite Z.eqb_refl).
  assert (∀ b, b ∈ addrs → f' b = f b) as Hfo.
  { intros b Hb. unfold f', set_block. rewrite (proj2 (Z.eqb_neq _ _)); [done|]. by intros ->. }
  destruct (Nat.leb_spec src_stop (pos + bs)) as [Hle|Hgt].
  - rewrite Hfx, Nat.mul_1_l, drop_app_length' by (by rewrite Hf). f_equal. by apply content_ext.
  - rewrite write_seq_frame, Hfx by done. rewrite IH; [|done| |lia|lia].
    2: { intros b. unfold f', set_block. case_match; [|done]. rewrite length_take, length_padded. lia. }
    rewrite (content_ext f' f) by done. set (k := need (pos + bs)).
    replace (S k * bs)%nat with (bs + k * bs)%nat by lia.
    rewrite <- drop_drop, (drop_app_length' (f x)) by (by rewrite Hf).
    rewrite (assoc_L (++)). f_equal. rewrite <- (take_take_drop _ bs). f_equal. f_equal. unfold padded.
    rewrite drop_app_le by (rewrite length_drop, length_take; lia). by rewrite drop_drop.
Qed.
End write.

(** ** The whole functions *)

Lemma length_rl_blocks shift a b l :
  0 ≤ shift → wf_rl a b l → length (rl_blocks shift l) = Z.to_nat ((b - a) * 2 ^ shift).
Proof.
  intros Hs. assert (0 < 2 ^ shift) by (apply Z.pow_pos_nonneg; lia). revert a.
  induction l as [|e l IH]; intros a Hwf; [by apply wf_rl_not_nil in Hwf|]. cbn [rl_blocks].
  apply wf_rl_cons_inv in Hwf as (Ha & [(Hz & _ & <- & _)|(Hz & _ & Hwf)]).
  - rewrite Hz, Z.eqb_refl. simpl. subst. by rewrite Z.sub_diag.
  - rewrite (proj2 (Z.eqb_neq _ _)) by lia. unfold run_blocks.
    rewrite length_app, length_seqZ, (IH _ Hwf). pose proof (wf_rl_le _ _ _ Hwf). nia.
Qed.

Lemma rl_blocks_app shift a b l1 l2 :
  0 ≤ shift → seg a b l1 →
  ∃ bl1, rl_blocks shift (l1 ++ l2) = bl1 ++ rl_blocks shift l2 ∧
    length bl1 = Z.to_nat ((b - a) * 2 ^ shift).
Proof.
  intros Hs. assert (0 < 2 ^ shift) by (apply Z.pow_pos_nonneg; lia).
  induction 1 as [a|a b x n l1 ?? Hseg IH]; [exists []; by rewrite Z.sub_diag|].
  destruct IH as (bl1 & IH & Hl). cbn [app rl_blocks rlen]. rewrite (proj2 (Z.eqb_neq _ _)), IH by lia.
  eexists. rewrite (assoc_L (++)). split; [done|]. unfold run_blocks. simpl. rewrite length_app, length_seqZ, Hl.
  apply seg_le in Hseg. nia.
Qed.

Section whole.
Context `{!BufferCache} (vol : ntfs_volume) (b : Z) (r : ntfs_runlist) (d : device).
Let bs : nat := Z.to_nat (sector_size vol).
Let shift : Z := cluster_size_shift vol - sector_size_shift vol.
Let addrs : list Z := rl_blocks shift (used r).

(** A volume whose device works, and a runlist without holes. *)
Record io_ready : Prop := {
  ready_vol : vol_ok vol;
  ready_clean : io_clean bs;
  ready_blocks blk : length (blocks d blk) = bs;
  ready_rl : runlist_ok b r;
  ready_real : real_runs (used r)
}.

Hypothesis Hready : io_ready.

Lemma ready_sizes : (0 < bs)%nat ∧ sector_size vol = 2 ^ sector_size_shift vol ∧
  sector_size vol = Z.of_nat bs ∧ 0 ≤ shift ∧ cluster_size vol = 2 ^ shift * sector_size vol ∧
  sector_size_mask vol = Z.ones (sector_size_shift vol) ∧
  cluster_size_mask vol = Z.ones (cluster_size_shift vol).
Proof.
  destruct Hready as [[Hsh Hvol] _ _ _ _]. unfold bs, shift.
  assert (0 < 2 ^ sector_size_shift vol) by (apply Z.pow_pos_nonneg; lia).
  assert (sector_size vol = 2 ^ sector_size_shift vol) as Hs by (by rewrite Hvol at 1).
  rewrite !Z.ones_equiv, <- !Z.sub_1_r. split_and!; [lia|done|lia|lia| |by rewrite Hvol at 1..].
  rewrite Hs, <- Z.pow_add_r by lia. rewrite Hvol at 1. cbn [cluster_size volume_of]. f_equal. lia.
Qed.

Lemma rl_read_eq dst size init :
  0 < init ≤ size → size ≤ Z.of_nat (length dst) →
  ∃ d', blocks d' = blocks d ∧
    ntfs_rl_read vol r dst size init d =
      Ret (0, let data := take (Z.to_nat init) (content (blocks d) addrs) in
              data ++ replicate (Z.to_nat size - length data) 0 ++ drop (Z.to_nat size) dst, d').
Proof.
  intros Hi Hsize. destruct ready_sizes as (Hbs & _ & _ & Hsh & _).
  destruct Hready as [_ Hclean Hbl Hok Hreal]. destruct (runlist_ok_inv _ _ Hok) as (l & junk & Er & Hwf).
  unfold addrs. clear addrs. rewrite Er, used_mk_used in *. unfold ntfs_rl_read.
  rewrite (proj2 (Z.leb_gt size 0)), (proj2 (Z.ltb_ge init 0)), (proj2 (Z.ltb_ge size init)),
    (proj2 (Z.eqb_neq init 0)) by lia. cbn [orb].
  rewrite bool_decide_eq_false_2 by (simpl; apply wf_rl_not_nil in Hwf; by destruct l).
  fold bs shift. cbn [rl mk_used].
  destruct (read_runs_spec bs (Z.to_nat init) Hclean Hbs shift 0 b l junk [] dst d Hsh Hwf Hreal)
    as (c & s & E & bs' & d' & Hd' & -> & _); [simpl; lia|done|].
  cbn [app length] in E. rewrite E. clear E. cbn [mbind outcome_bind r_dst r_pos r_dev app length Nat.add].
  set (data := content (blocks d) (rl_blocks shift l)). set (n := Z.to_nat init).
  rewrite Nat.sub_0_r. set (k := min (length data) n).
  assert ((if (k <? n)%nat then memset (take k data ++ drop k dst) k 0 (n - k)
           else Ret (take k data ++ drop k dst)) =
    Ret (take k data ++ replicate (n - k) 0 ++ drop n dst)) as ->.
  { destruct (Nat.ltb_spec k n).
    - rewrite memset_Ret by (autorewrite with ntfs_len; lia).
      rewrite take_app_length', drop_app_ge, drop_drop by (autorewrite with ntfs_len; lia).
      do 3 f_equal. autorewrite with ntfs_len. f_equal. lia.
    - replace (n - k)%nat with 0%nat by lia. by replace k with n by lia. }
  cbn [mbind outcome_bind].
  replace (take n data) with (take k data)
    by (unfold k; destruct (Nat.min_spec (length data) n) as [[? ->]|[? ->]]; [rewrite !take_ge by lia|]; done).
  exists d'. split; [done|]. rewrite length_take, (Nat.min_l k) by lia. destruct (Z.ltb_spec init size).
  - rewrite memset_Ret by (autorewrite with ntfs_len; lia). cbn [mbind outcome_bind].
    rewrite (assoc_L (++) (take k data) _ (drop n dst)), take_app_length' by (autorewrite with ntfs_len; lia).
    rewrite drop_app_ge, drop_drop by (autorewrite with ntfs_len; lia).
    app_norm. rewrite (assoc_L (++) (replicate _ _)), <- replicate_add.
    autorewrite with ntfs_len. repeat (f_equal; try lia).
  - cbn [mbind outcome_bind]. replace (Z.to_nat size) with n by lia. done.
Qed.

(** The first byte to be written no more, and the first sector to be written. *)
Definition write_stop (size ofs cnt : Z) : Z := if cnt =? 0 then size else ofs + cnt.
Definition write_first (ofs : Z) : nat := Z.to_nat (ofs / sector_size vol).

(** The arguments of [ntfs_rl_write]: the sectors exist. *)
Record write_args (src : list Z) (size ofs cnt : Z) : Prop := {
  wa_ofs : 0 ≤ ofs < write_stop size ofs cnt;
  wa_cnt : 0 ≤ cnt;
  wa_size : write_stop size ofs cnt ≤ size ≤ Z.of_nat (length src);
  wa_end : write_stop size ofs cnt ≤ b * cluster_size vol
}.

(** Position of the first sector in the runlist. *)
Lemma write_start ofs :
  0 ≤ ofs < b * cluster_size vol →
  let k := ofs / sector_size vol in
  let m := 2 ^ shift in
  ofs - Z.land ofs (sector_size_mask vol) = k * sector_size vol ∧
  Z.shiftr (k * sector_size vol) (cluster_size_shift vol) = k / m ∧
  Z.land (k * sector_size vol) (cluster_size_mask vol) = k mod m * sector_size vol ∧
  0 ≤ k / m < b ∧ 0 ≤ k mod m < m ∧ 0 ≤ k.
Proof.
  intros Hofs k m. destruct ready_sizes as (Hbs & Hss & Hbz & Hsh & Hcs & Hm1 & Hm2).
  destruct (ready_vol Hready) as [Hvs _].
  assert (0 < m) by (apply Z.pow_pos_nonneg; lia).
  assert (2 ^ cluster_size_shift vol = m * sector_size vol) as Hc.
  { rewrite Hss. unfold m. rewrite <- Z.pow_add_r by lia. f_equal. unfold shift. lia. }
  fold m in Hcs. assert (0 < sector_size vol) by lia.
  rewrite Hm1, Hm2, !Z.land_ones, Z.shiftr_div_pow2, Hc, <- Hss by lia.
  pose proof (Z.div_mod ofs (sector_size vol)). pose proof (Z.mod_pos_bound ofs (sector_size vol)).
  assert (0 ≤ k) by (apply Z.div_pos; lia).
  assert (k < b * m) by (apply Z.div_lt_upper_bound; nia).
  rewrite Z.div_mul_cancel_r, Z.mul_mod_distr_r by lia. fold k in H1.
  split_and!; [lia|done|done|apply Z.div_pos; lia|apply Z.div_lt_upper_bound; lia| | |done];
    apply Z.mod_pos_bound; lia.
Qed.

Lemma rl_write_eq src size ofs cnt :
  write_args src size ofs cnt →
  ∃ d', ntfs_rl_write vol src size r ofs cnt d = Ret (0, false, d') ∧
    blocks d' = write_seq bs src (Z.to_nat size) (Z.to_nat (write_stop size ofs cnt)) (blocks d)
      (drop (write_first ofs) addrs) (write_first ofs * bs).
Proof.
  intros [Hofs Hcnt Hsize Hend]. destruct ready_sizes as (Hbs & _ & Hbz & Hsh & _ & _ & _).
  destruct (write_start ofs) as (E1 & E2 & E3 & Hv & Ho & Hk); [lia|].
  pose proof Hready as [Hvol Hclean Hbl Hok Hreal].
  destruct (runlist_ok_inv _ _ Hok) as (l & junk & Er & Hwf).
  unfold addrs. clear addrs. rewrite Er, used_mk_used in *. unfold ntfs_rl_write.
  assert (cnt = 0 ∨ ofs + cnt ≤ size) by (unfold write_stop in *; destruct (Z.eqb_spec cnt 0); lia).
  rewrite (proj2 (Z.leb_gt size 0)), (proj2 (Z.ltb_ge ofs 0)), (proj2 (Z.ltb_ge cnt 0)),
    (proj2 (Z.ltb_ge size _)) by lia. cbn [elements mk_used].
  rewrite (proj2 (Nat.eqb_neq _ _)) by (apply wf_rl_not_nil in Hwf; by destruct l). cbn [orb].
  replace (if negb (cnt =? 0) then Z.to_nat (ofs + cnt) else Z.to_nat size)
    with (Z.to_nat (write_stop size ofs cnt)) by (unfold write_stop; by destruct (cnt =? 0)).
  set (stop := write_stop size ofs cnt) in *. rewrite (proj2 (Nat.ltb_ge _ _)) by lia.
  rewrite E1, E2, E3. set (k := ofs / sector_size vol) in *. set (v := k / 2 ^ shift) in *.
  destruct (wf_rl_run_at 0 b l v) as (l1 & e & l2 & -> & He & Hs & _ & Hwf2); [done..|].
  destruct (wf_rl_head _ _ _ Hwf2) as (e1 & l' & -> & He1). cbn [rl mk_used].
  apply Forall_app in Hreal as [_ Hreal]. pose proof Hreal as [Hlcn _]%Forall_cons_1.
  specialize (Hlcn ltac:(lia)). app_norm. rewrite (ntfs_rl_find_vcn_nolock_loop 0 (vcn e)) by (done || lia).
  cbn [find_vcn_loop]. rewrite (proj2 (Z.eqb_neq _ _)), (proj2 (Z.ltb_lt _ _)), (proj2 (Z.leb_le LCN_HOLE _))
    by (unfold LCN_HOLE; lia). cbn [fmap outcome_fmap option_map mbind outcome_bind]. rewrite Nat.add_0_r, rd_middle. cbn [mbind outcome_bind].
  rewrite (proj2 (Z.eqb_neq _ _)) by lia. rewrite drop_app_length.
  apply wf_rl_app_inv in Hwf as (c0 & Hs' & Hwf); [|done].
  assert (0 ≤ vcn e) by (by apply seg_le in Hs).
  assert (write_first ofs * bs < Z.to_nat stop)%nat as Hpos.
  { unfold write_first. fold k. pose proof (Z.mul_div_le ofs (sector_size vol)). nia. }
  destruct (write_clusters_spec bs src (Z.to_nat size) (Z.to_nat stop) Hclean Hbs ltac:(lia) vol c0 b
    (S (length src)) e (e1 :: l') junk v (k mod 2 ^ shift) (write_first ofs * bs) d)
    as (c & s & E & Hpost & _); [done|done|done|done|done|lia|done|lia|lia|].
  cbn [app] in E. fold bs. replace (Z.to_nat (k * sector_size vol)) with (write_first ofs * bs)%nat.
  2: { unfold write_first. fold k. rewrite Hbz. lia. }
  rewrite E. cbn [mbind outcome_bind]. exists (w_dev s). split; [done|]. rewrite Hpost. f_equal.
  fold shift. destruct (rl_blocks_app shift 0 (vcn e) l1 (e :: e1 :: l')) as (bl1 & -> & Hbl1); [done|done|].
  set (m := 2 ^ shift) in *.
  assert (k = m * v + k mod m) as Hkm by (apply Z.div_mod; lia).
  rewrite drop_app_ge by (rewrite Hbl1; unfold write_first; fold k; nia). f_equal.
  rewrite Hbl1. unfold write_first. fold k. rewrite <- Z2Nat.inj_sub by nia. f_equal. rewrite Hkm at 2. ring.
Qed.

Lemma content_take f k l :
  (∀ blk, length (f blk) = bs) → content f (take k l) = take (k * bs) (content f l).
Proof.
  intros Hf. revert k. induction l as [|x l IH]; intros [|k]; [done| |done|].
  - unfold content. simpl. by rewrite take_nil.
  - cbn [take]. rewrite !content_cons, IH, Nat.mul_succ_l, (Nat.add_comm _ bs).
    by rewrite <- (Hf x), take_app_add.
Qed.

Lemma content_drop f k l :
  (∀ blk, length (f blk) = bs) → content f (drop k l) = drop (k * bs) (content f l).
Proof.
  intros Hf. rewrite <- (take_drop k l) at 2. rewrite content_app, content_take by done.
  destruct (decide (k ≤ length l)%nat).
  - rewrite drop_app_length'; [done|]. rewrite length_take, (length_content f bs) by done. nia.
  - rewrite (drop_ge l), app_nil_r by lia. symmetry. apply drop_ge.
    rewrite length_take. lia.
Qed.

(** The contents of the sectors of the runlist after [ntfs_rl_write]. *)
Lemma rl_write_content src size ofs cnt f :
  write_args src size ofs cnt → NoDup addrs →
  let stop := Z.to_nat (write_stop size ofs cnt) in
  let pos := (write_first ofs * bs)%nat in
  let n := (need bs stop pos * bs)%nat in
  f = write_seq bs src (Z.to_nat size) stop (blocks d) (drop (write_first ofs) addrs) pos →
  (∀ blk, blk ∉ addrs → f blk = blocks d blk) ∧
  let old := content (blocks d) addrs in
  content f addrs = take pos old ++ take n (padded bs src (Z.to_nat size) pos) ++ drop (pos + n) old.
Proof.
  intros [Hofs Hcnt Hsize Hend] Hnd stop pos n Hf. set (k := write_first ofs) in *.
  destruct ready_sizes as (Hbs & _ & Hbz & Hsh & Hcs & _).
  destruct (write_start ofs) as (_ & _ & _ & _ & _ & Hk); [lia|].
  pose proof Hready as [_ Hclean Hbl [_ Hwf] _].
  pose proof (length_rl_blocks shift _ _ _ Hsh Hwf) as Hlen. fold addrs in Hlen.
  assert (addrs = take k addrs ++ drop k addrs) as Hsplit by (by rewrite take_drop).
  rewrite Hsplit in Hnd. apply list.NoDup_app in Hnd as (_ & Hdis & Hnd).
  assert (Z.of_nat pos ≤ ofs) as Hpos.
  { unfold pos, k, write_first. pose proof (Z.mul_div_le ofs (sector_size vol)). nia. }
  split.
  { intros blk Hb. rewrite Hf. apply write_seq_frame. rewrite Hsplit, elem_of_app in Hb. tauto. }
  cbv zeta. rewrite Hsplit at 1. rewrite content_app.
  rewrite (content_ext f (blocks d) (take k addrs)).
  2: { intros blk Hb. rewrite Hf. apply write_seq_frame. by apply Hdis. }
  rewrite content_take by done. fold pos. f_equal. rewrite Hf.
  rewrite (write_seq_content bs src (Z.to_nat size) stop) by (done || lia || (rewrite length_drop; nia)).
  fold n. rewrite content_drop by done. fold pos. by rewrite drop_drop.
Qed.

(** Reading through a runlist.  On a working device, the buffer receives the first
    [init] bytes of the sectors that the runlist describes, in order, then zeroes up to [size]; the
    rest of the buffer and the device are left alone. *)
Theorem ntfs_rl_read_spec dst size init :
  0 < init ≤ size → size ≤ Z.of_nat (length dst) →
  ∃ d', blocks d' = blocks d ∧
    ntfs_rl_read vol r dst size init d =
      Ret (0, let data := take (Z.to_nat init) (content (blocks d) addrs) in
              data ++ replicate (Z.to_nat size - length data) 0 ++ drop (Z.to_nat size) dst, d').
Proof. apply rl_read_eq. Qed.

(** Writing through a runlist.  On a working device and a runlist without shared clusters,
    the sectors from the one of [ofs] to the last one needed receive the source, the last one being
    filled up with zeroes; every other sector of the attribute and of the device keeps its
    contents. *)
Theorem ntfs_rl_write_spec src size ofs cnt :
  write_args src size ofs cnt → NoDup addrs →
  ∃ d', ntfs_rl_write vol src size r ofs cnt d = Ret (0, false, d') ∧
    (∀ blk, blk ∉ addrs → blocks d' blk = blocks d blk) ∧
    let pos := (write_first ofs * bs)%nat in
    let n := (need bs (Z.to_nat (write_stop size ofs cnt)) pos * bs)%nat in
    let old := content (blocks d) addrs in
    content (blocks d') addrs =
      take pos old ++ take n (padded bs src (Z.to_nat size) pos) ++ drop (pos + n) old.
Proof.
  intros Ha Hnd. destruct (rl_write_eq src size ofs cnt Ha) as (d' & Hw & Hb).
  destruct (rl_write_content src size ofs cnt _ Ha Hnd Hb) as [Ho Hc]. by exists d'.
Qed.
End whole.

(** ** A device to evaluate the model on *)

(** A buffer cache that never fails. *)
Definition working_cache (bs : nat) : BufferCache :=
  {| bread_errno _ _ := 0; map_errno _ _ := 0; getblk_data _ _ := Some (replicate bs 0);
     bwrite_errno _ _ := 0; bwrite_torn _ _ := [] |}.

Definition sample_device : device := mk_device (λ b, replicate 512 (b mod 256)) 0.
Definition sample_file : ntfs_runlist :=
  mk_used [mk_rle 0 100 2; mk_rle 2 50 1; mk_rle 3 LCN_ENOENT 0] [].

Lemma sample_ready : @io_ready (working_cache 512) (volume_of 9 12) 3 sample_file sample_device.
Proof.
  split; [by apply volume_of_ok| |intros; apply length_replicate| |].
  - split; [done..| |done]. intros. exists (replicate 512 0). by rewrite length_replicate.
  - apply runlist_ok_mk_used. repeat (apply wf_rl_cons; [done|simpl; lia|done|]). by apply wf_rl_one.
  - unfold sample_file. rewrite used_mk_used. by repeat (apply list.Forall_cons; split).
Qed.

Lemma sample_nodup : NoDup (rl_blocks 3 (used sample_file)).
Proof. apply (bool_decide_unpack _). by vm_compute. Qed.

(** C23: what [ntfs_rl_write] has written through a runlist, [ntfs_rl_read] reads back. *)
Theorem ntfs_rl_write_read `{!BufferCache} vol b r d src size dst :
  io_ready vol b r d → NoDup (rl_blocks (cluster_size_shift vol - sector_size_shift vol) (used r)) →
  0 < size ≤ b * cluster_size vol → size = Z.of_nat (length src) → length dst = length src →
  ∃ d1 d2, ntfs_rl_write vol src size r 0 0 d = Ret (0, false, d1) ∧
    ntfs_rl_read vol r dst size size d1 = Ret (0, src, d2) ∧ blocks d2 = blocks d1.
Proof.
  intros Hready Hnd Hsize Hsrc Hdst.
  destruct (ready_sizes _ _ _ _ Hready) as (Hbs & _ & Hbz & Hsh & Hcs & _).
  assert (write_args vol b src size 0 0) as Ha by (split; unfold write_stop; simpl; lia).
  destruct (rl_write_eq vol b r d Hready src size 0 0 Ha) as (d1 & Hw & Hb).
  destruct (rl_write_content vol b r d Hready src size 0 0 _ Ha Hnd Hb) as [_ Hc]. cbv zeta in Hc.
  unfold write_first, write_stop in *. rewrite Z.div_0_l in * by lia. simpl in Hc, Hb.
  set (bs := Z.to_nat (sector_size vol)) in *. set (stop := Z.to_nat size) in *.
  assert (io_ready vol b r d1) as Hready1.
  { destruct Hready as [? ? Hbl ? ?]. split; try done. intros blk. rewrite Hb. apply length_write_seq; [done..|lia|done]. }
  destruct (rl_read_eq vol b r d1 Hready1 dst size size) as (d2 & Hd2 & Hr); [lia|lia|].
  exists d1, d2. split; [done|]. split; [|done]. rewrite Hr. cbv zeta. fold bs. rewrite Hc. do 3 f_equal.
  assert (stop ≤ need bs stop 0 * bs)%nat as Hn.
  { unfold need. rewrite Nat.sub_0_r. pose proof (Nat.div_mod_eq (stop + bs - 1) bs).
    pose proof (Nat.mod_upper_bound (stop + bs - 1) bs). lia. }
  assert (take stop (take (need bs stop 0 * bs) (padded bs src stop 0)) = src) as Ht.
  { unfold padded. rewrite drop_0, take_take, Nat.min_l, (take_ge src) by lia.
    by rewrite take_app_length' by lia. }
  fold stop. rewrite take_app_le, Ht by (rewrite length_take, (length_padded _ _ _ stop) by lia; lia).
  rewrite (drop_ge dst), app_nil_r by lia. replace (stop - length src)%nat with 0%nat by lia. apply app_nil_r.
Qed.

(** ** Filling *)

Section fill.
Context `{!BufferCache} (bs : nat) (val : Z).
Hypothesis Hgetblk : ∀ t b, ∃ data, getblk_data t b = Some data ∧ length data = bs.

(** The sectors of the runs that are backed by clusters. *)
Fixpoint real_blocks (shift : Z) (l : list ntfs_rl_element) : list Z :=
  match l with
  | [] => []
  | e :: l =>
      if rlen e =? 0 then [] else
      (if 0 <=? lcn e then run_blocks shift e else []) ++ real_blocks shift l
  end.

(** Only the sectors in [A] may have changed, and all of them have been filled
    unless there was an error. *)
Definition fill_post (A : list Z) (ok : bool) (d d' : device) : Prop :=
  (∀ b, b ∉ A → blocks d' b = blocks d b) ∧
  (ok = true → ∀ b, b ∈ A → blocks d' b = replicate bs val).

Lemma fill_post_app A1 A2 ok d d1 d2 :
  fill_post A1 true d d1 → fill_post A2 ok d1 d2 → fill_post (A1 ++ A2) ok d d2.
Proof.
  intros [Ho Hi] [Ho' Hi']. split.
  - intros b [? ?]%not_elem_of_app. by rewrite Ho', Ho.
  - intros Hok b Hb. destruct (decide (b ∈ A2)); [by apply Hi'|].
    rewrite Ho' by done. apply Hi; [done|]. by apply elem_of_app in Hb as [?|?].
Qed.

Lemma fill_post_fail A1 A2 d d' : fill_post A1 false d d' → fill_post (A1 ++ A2) false d d'.
Proof. intros [Ho _]. split; [|done]. intros b [? ?]%not_elem_of_app. by apply Ho. Qed.

Definition io_ok (c : io_ctl) : bool := if c is io_next then true else false.

Lemma fill_block_spec block d :
  ∃ c d', fill_block bs val block d = Ret (c, d') ∧ (c = io_next ∨ ∃ err, c = io_fail err ∧ err ≠ 0) ∧
    fill_post [block] (io_ok c) d d'.
Proof.
  unfold fill_block, buf_getblk. destruct (Hgetblk (ticks d) block) as (data & -> & Hd).
  cbn [mbind outcome_bind]. unfold buf_map.
  destruct (Z.eqb_spec (map_errno (ticks (tick d)) block) 0); cbn [negb].
  2: { eexists _, _. split; [done|]. split; [eauto|]. by split. }
  rewrite memset_Ret by lia. cbn [mbind outcome_bind take app]. unfold buf_bwrite.
  rewrite drop_ge, app_nil_r by lia.
  assert (∀ x b, b ∉ [block] → set_block (blocks d) block x b = blocks d b) as Ho.
  { intros x b Hb. unfold set_block. rewrite (proj2 (Z.eqb_neq _ _)); [done|]. by intros ->; apply Hb; left. }
  destruct (Z.eqb_spec (bwrite_errno (ticks (tick (tick d))) block) 0); cbn [negb].
  - eexists _, _. split; [done|]. split; [by left|]. split; [intros; by apply Ho|].
    intros _ b ->%list_elem_of_singleton. simpl. unfold set_block. by rewrite Z.eqb_refl.
  - eexists _, _. split; [done|]. split; [eauto|]. split; [intros; by apply Ho|done].
Qed.

Lemma fill_run_spec n block d :
  ∃ c d', fill_run bs val n block d = Ret (c, d') ∧ (c = io_next ∨ ∃ err, c = io_fail err ∧ err ≠ 0) ∧
    fill_post (seqZ block (Z.of_nat (S n))) (io_ok c) d d'.
Proof.
  revert block d. induction n as [|n IH]; intros block d; cbn [fill_run];
    destruct (fill_block_spec block d) as (c & d' & -> & Hc & Hp); cbn [mbind outcome_bind].
  { exists c, d'. split; [by destruct Hc as [-> |(err & -> & _)]|done]. }
  rewrite seqZ_cons' by lia. replace (Z.of_nat (S (S n)) - 1) with (Z.of_nat (S n)) by lia.
  destruct Hc as [-> |(err & -> & Herr)].
  - destruct (IH (block + 1) d') as (c & d2 & -> & Hc & Hp2). exists c, d2. split; [done|].
    split; [done|]. by apply (fill_post_app [block] _ _ d d').
  - eexists _, _. split; [done|]. split; [eauto|]. by apply (fill_post_fail [block]).
Qed.

Lemma fill_runs_cons shift e e1 l d :
  fill_runs bs shift val (e :: e1 :: l) d =
    if vcn e <? 0 then Panic else
    let next d := if rlen e1 =? 0 then Ret (0, d) else fill_runs bs shift val (e1 :: l) d in
    if lcn e <? 0 then
      if (lcn e =? LCN_HOLE) || (lcn e =? LCN_RL_NOT_MAPPED) then next d else Ret (EIO, d)
    else
    let block := Z.shiftl (lcn e) shift in
    let end_block := Z.shiftl (lcn e + rlen e) shift in
    '(c, d) ← fill_run bs val (Z.to_nat (end_block - block - 1)) block d;
    match c with io_fail err => Ret (err, d) | _ => next d end.
Proof. done. Qed.

Lemma real_blocks_cons shift e l :
  rlen e ≠ 0 →
  real_blocks shift (e :: l) = (if 0 <=? lcn e then run_blocks shift e else []) ++ real_blocks shift l.
Proof. intros ?%Z.eqb_neq. cbn [real_blocks]. by rewrite H0. Qed.

Lemma fill_runs_spec shift a b e l junk d :
  0 ≤ shift → 0 ≤ a → wf_rl a b (e :: l) → 0 < rlen e →
  ∃ err d', fill_runs bs shift val ((e :: l) ++ junk) d = Ret (err, d') ∧
    fill_post (real_blocks shift (e :: l)) (err =? 0) d d'.
Proof.
  intros Hsh. revert a e d. induction l as [|e1 l IH]; intros a e d Ha Hwf He.
  { apply wf_rl_cons_inv in Hwf as (_ & [(?&_)|(_&_&?%wf_rl_not_nil)]); [lia|done]. }
  pose proof Hwf as (Hv & [(?&_)|(_ & Hl & Hwf1)])%wf_rl_cons_inv; [lia|].
  cbn [app]. rewrite fill_runs_cons, (proj2 (Z.ltb_ge _ 0)) by lia. cbv zeta.
  assert (∀ A d1, fill_post A true d d1 → ∃ err d', (if rlen e1 =? 0 then Ret (0, d1)
      else fill_runs bs shift val (e1 :: l ++ junk) d1) = Ret (err, d') ∧
      fill_post (A ++ real_blocks shift (e1 :: l)) (err =? 0) d d') as Hnext.
  { intros A d1 HA. destruct (Z.eqb_spec (rlen e1) 0) as [Hz|Hz].
    - exists 0, d1. split; [done|]. cbn [real_blocks]. rewrite Hz. simpl. by rewrite app_nil_r.
    - assert (0 < rlen e1) by (apply wf_rl_cons_inv in Hwf1 as (_ & [(?&_)|(?&_)]); lia).
      destruct (IH (a + rlen e) e1 d1) as (err & d' & E & Hp); [lia|done|done|].
      cbn [app] in E. exists err, d'. split; [done|]. by eapply fill_post_app. }
  rewrite real_blocks_cons by lia.
  destruct (Z.leb_spec 0 (lcn e)) as [Hreal|Hhole].
  - rewrite (proj2 (Z.ltb_ge _ 0)) by lia. rewrite !Z.shiftl_mul_pow2 by done.
    assert (0 < 2 ^ shift) by (apply Z.pow_pos_nonneg; lia).
    set (n := Z.to_nat ((lcn e + rlen e) * 2 ^ shift - lcn e * 2 ^ shift - 1)).
    destruct (fill_run_spec n (lcn e * 2 ^ shift) d) as (c & d1 & -> & Hc & Hp).
    replace (Z.of_nat (S n)) with (rlen e * 2 ^ shift) in Hp by (unfold n; nia). fold (run_blocks shift e) in Hp.
    cbn [mbind outcome_bind]. destruct Hc as [-> |(err & -> & Herr)].
    + by apply Hnext.
    + eexists _, _. split; [done|]. rewrite (proj2 (Z.eqb_neq _ _)) by done. by apply fill_post_fail.
  - rewrite (proj2 (Z.ltb_lt _ 0)) by lia.
    assert ((lcn e =? LCN_HOLE) || (lcn e =? LCN_RL_NOT_MAPPED) = true) as ->.
    { unfold LCN_HOLE, LCN_RL_NOT_MAPPED in *. ztests. }
    apply (Hnext []). split; [done|by intros _ ? ?%elem_of_nil].
Qed.
End fill.

(** [ntfs_rl_set] returns on every device, changes only sectors of real runs of the runlist,
    and when it succeeds all of them are filled with the byte. *)
Theorem ntfs_rl_set_spec `{!BufferCache} vol a b l junk val d :
  vol_ok vol → 0 ≤ a → wf_rl a b l → a < b →
  (∀ t blk, ∃ data, getblk_data t blk = Some data ∧ Z.of_nat (length data) = sector_size vol) →
  ∃ err d', ntfs_rl_set vol (l ++ junk) val d = Ret (err, d') ∧
    let A := real_blocks (cluster_size_shift vol - sector_size_shift vol) l in
    (∀ blk, blk ∉ A → blocks d' blk = blocks d blk) ∧
    (err = 0 → ∀ blk, blk ∈ A → blocks d' blk = replicate (Z.to_nat (sector_size vol)) val).
Proof.
  intros [Hsh _] Ha Hwf Hab Hg. destruct (wf_rl_head _ _ _ Hwf) as (e & l' & -> & _).
  assert (0 < rlen e) by (apply wf_rl_cons_inv in Hwf as (? & [(?&?&?&?)|(?&_)]); lia).
  unfold ntfs_rl_set. cbn [app]. rewrite (proj2 (Z.eqb_neq _ _)) by lia.
  destruct (fill_runs_spec (Z.to_nat (sector_size vol)) val
    ltac:(intros t blk; destruct (Hg t blk) as (data & -> & ?); exists data; split; [done|lia])
    (cluster_size_shift vol - sector_size_shift vol) a b e l' junk d) as (err & d' & E & Ho & Hi);
    [lia|done..|].
  exists err, d'. split; [exact E|]. split; [done|]. intros ->. by apply Hi.
Qed.

Lemma ntfs_rl_write_read_witness :
  ∃ d1 d2, @ntfs_rl_write (working_cache 512) (volume_of 9 12) (replicate 1000 7) 1000 sample_file 0 0
      sample_device = Ret (0, false, d1) ∧
    @ntfs_rl_read (working_cache 512) (volume_of 9 12) sample_file (replicate 1000 0) 1000 1000 d1 =
      Ret (0, replicate 1000 7, d2) ∧ blocks d2 = blocks d1.
Proof.
  apply (@ntfs_rl_write_read (working_cache 512) (volume_of 9 12) 3 sample_file sample_device);
    [apply sample_ready|apply sample_nodup|simpl; lia|by rewrite length_replicate|by rewrite !length_replicate].
Defined.
