(* ===== verification/Mst.v ===== *)
(** * Multi sector transfer protection

    [kext/ntfs_mst.c]: the update sequence array (usa) that protects records of
    several sectors against incomplete writes.  A record is an array of
    little-endian 16-bit words; all accesses of the code are to words. *)

From S2P Require Import Prelude.

(** ** Data *)

Definition NTFS_BLOCK_SIZE : Z := 512.
Definition NTFS_BLOCK_SIZE_SHIFT : Z := 9.

(** [NTFS_BLOCK_SIZE / sizeof(u16)]. *)
Definition block_words : nat := 256.

Definition magic_BAAD : Z := 0x44414142.
Definition magic_HOLE : Z := 0x454c4f48.

(** The fields of [NTFS_RECORD]. *)
Definition rec_magic (b : list Z) : outcome Z :=
  lo ← rd b 0; hi ← rd b 1; Ret (lo + Z.shiftl hi 16).
Definition rec_usa_ofs (b : list Z) : outcome Z := rd b 2.
Definition rec_usa_count (b : list Z) : outcome Z := rd b 3.

Definition set_magic (b : list Z) (m : Z) : outcome (list Z) :=
  b ← wr b 0 (Z.land m 0xffff); wr b 1 (Z.shiftr m 16).

(** ** Operations *)

(** The size and alignment checks; [usa_count] is the number of fixups. *)
Definition mst_invalid (size usa_ofs usa_count : Z) : bool :=
  negb (Z.land size (NTFS_BLOCK_SIZE - 1) =? 0) || negb (Z.land usa_ofs 1 =? 0) ||
  (size <? usa_ofs + usa_count * 2) || negb (Z.shiftr size NTFS_BLOCK_SIZE_SHIFT =? usa_count).

(** Check for incomplete transfers. *)
Fixpoint mst_check (n : nat) (b : list Z) (data_pos : nat) (usn : Z) : outcome bool :=
  match n with
  | O => Ret true
  | S n =>
      x ← rd b data_pos;
      if negb (x =? usn) then Ret false else mst_check n b (data_pos + block_words) usn
  end.

(** [*data_pos = *(++usa_pos)] for all sectors. *)
Fixpoint mst_restore (n : nat) (b : list Z) (usa_pos data_pos : nat) : outcome (list Z) :=
  match n with
  | O => Ret b
  | S n =>
      x ← rd b (usa_pos + 1);
      b ← wr b data_pos x;
      mst_restore n b (usa_pos + 1) (data_pos + block_words)
  end.

(** [*(++usa_pos) = *data_pos; *data_pos = le_usn] for all sectors. *)
Fixpoint mst_protect (n : nat) (b : list Z) (usa_pos data_pos : nat) (usn : Z)
    : outcome (list Z) :=
  match n with
  | O => Ret b
  | S n =>
      x ← rd b data_pos;
      b ← wr b (usa_pos + 1) x;
      b ← wr b data_pos usn;
      mst_protect n b (usa_pos + 1) (data_pos + block_words) usn
  end.

Definition ntfs_mst_fixup_post_read (b : list Z) (size : Z) : outcome (Z * list Z) :=
  usa_ofs ← rec_usa_ofs b;
  usa_count ← rec_usa_count b;
  let usa_count := u16 (usa_count - 1) in
  if mst_invalid size usa_ofs usa_count then Ret (0, b) else
  let usa_pos := Z.to_nat (usa_ofs / 2) in
  usn ← rd b usa_pos;
  ok ← mst_check (Z.to_nat usa_count) b (block_words - 1) usn;
  if negb (ok : bool) then
    b ← set_magic b magic_BAAD; Ret (EIO, b)
  else
  b ← mst_restore (Z.to_nat usa_count) b usa_pos (block_words - 1);
  Ret (0, b).

(** Cyclic increment of the update sequence number, skipping 0 and 0xffff. *)
Definition next_usn (usn : Z) : Z :=
  let usn := u16 (usn + 1) in
  if (usn =? 0xffff) || (usn =? 0) then 1 else usn.

Definition ntfs_mst_fixup_pre_write (b : list Z) (size : Z) : outcome (Z * list Z) :=
  magic ← rec_magic b;
  if (magic =? magic_BAAD) || (magic =? magic_HOLE) then Ret (EINVAL, b) else
  usa_ofs ← rec_usa_ofs b;
  usa_count ← rec_usa_count b;
  let usa_count := u16 (usa_count - 1) in
  if mst_invalid size usa_ofs usa_count then Ret (EINVAL, b) else
  let usa_pos := Z.to_nat (usa_ofs / 2) in
  usn ← rd b usa_pos;
  let usn := next_usn usn in
  b ← wr b usa_pos usn;
  b ← mst_protect (Z.to_nat usa_count) b usa_pos (block_words - 1) usn;
  Ret (0, b).

Definition ntfs_mst_fixup_post_write (b : list Z) : outcome (list Z) :=
  usa_ofs ← rec_usa_ofs b;
  usa_count ← rec_usa_count b;
  mst_restore (Z.to_nat (u16 (usa_count - 1))) b (Z.to_nat (usa_ofs / 2)) (block_words - 1).

(** ** The loops *)

(** The last word of the sector [t]. *)
Definition last_word (t : nat) : nat := (255 + 256 * t)%nat.

Lemma last_word_S t : (last_word t + block_words)%nat = last_word (S t).
Proof. unfold last_word, block_words. lia. Qed.

Lemma mst_check_spec m b k usn :
  (∀ t, (k ≤ t < k + m)%nat → (last_word t < length b)%nat) →
  ∃ ok, mst_check m b (last_word k) usn = Ret ok ∧
    (ok = true ↔ ∀ t, (k ≤ t < k + m)%nat → b !! last_word t = Some usn).
Proof.
  revert k. induction m as [|m IH]; intros k Hb; cbn [mst_check].
  { exists true. split; [done|]. split; [intros _ t; lia|done]. }
  destruct (lookup_lt_is_Some_2 b (last_word k)) as [x Hx]; [apply Hb; lia|].
  rewrite (rd_Ret _ _ _ Hx). cbn [mbind outcome_bind]. destruct (Z.eqb_spec x usn) as [-> |Hne]; cbn [negb].
  - rewrite last_word_S. destruct (IH (S k)) as (ok & -> & Hok); [intros; apply Hb; lia|].
    exists ok. split; [done|]. rewrite Hok. split; intros Hall t Ht.
    + destruct (decide (t = k)) as [-> |]; [done|]. apply Hall. lia.
    + apply Hall. lia.
  - exists false. split; [done|]. split; [done|]. intros Hall.
    specialize (Hall k ltac:(lia)). congruence.
Qed.

Lemma mst_restore_spec m b u k :
  (∀ t, (k ≤ t < k + m)%nat → (last_word t < length b ∧ u + 1 + t < length b)%nat) →
  (∀ t s, (k ≤ t < k + m)%nat → (k ≤ s < k + m)%nat → (last_word t ≠ u + 1 + s)%nat) →
  ∃ b', mst_restore m b (u + k) (last_word k) = Ret b' ∧ length b' = length b ∧
    (∀ t, (k ≤ t < k + m)%nat → b' !! last_word t = b !! (u + 1 + t)%nat) ∧
    (∀ j, (∀ t, (k ≤ t < k + m)%nat → j ≠ last_word t) → b' !! j = b !! j).
Proof.
  revert b k. induction m as [|m IH]; intros b k Hb Hdis; cbn [mst_restore].
  { exists b. split_and!; [done|done|intros; lia|done]. }
  destruct (Hb k) as [Hk Hu]; [lia|].
  destruct (lookup_lt_is_Some_2 b (u + 1 + k)) as [x Hx]; [done|].
  replace (u + k + 1)%nat with (u + 1 + k)%nat by lia. rewrite (rd_Ret _ _ _ Hx). cbn [mbind outcome_bind].
  rewrite wr_Ret by done. cbn [mbind outcome_bind]. rewrite last_word_S.
  replace (u + 1 + k)%nat with (u + S k)%nat by lia.
  destruct (IH (<[last_word k := x]> b) (S k)) as (b' & -> & Hl & Hd & Ho).
  { intros t Ht. rewrite length_insert. apply Hb. lia. }
  { intros t s Ht Hs. apply Hdis; lia. }
  rewrite length_insert in Hl. exists b'. split_and!; [done|done| |].
  - intros t Ht. destruct (decide (t = k)) as [-> |].
    + rewrite Ho by (unfold last_word; lia). by rewrite list_lookup_insert_eq.
    + rewrite Hd by lia. apply list_lookup_insert_ne. apply Hdis; lia.
  - intros j Hj. rewrite Ho by (intros; apply Hj; lia). apply list_lookup_insert_ne.
    intros E. apply (Hj k); [lia|done].
Qed.

Lemma mst_protect_spec m b u k usn :
  (∀ t, (k ≤ t < k + m)%nat → (last_word t < length b ∧ u + 1 + t < length b)%nat) →
  (∀ t s, (k ≤ t < k + m)%nat → (k ≤ s < k + m)%nat → (last_word t ≠ u + 1 + s)%nat) →
  ∃ b', mst_protect m b (u + k) (last_word k) usn = Ret b' ∧ length b' = length b ∧
    (∀ t, (k ≤ t < k + m)%nat →
       b' !! last_word t = Some usn ∧ b' !! (u + 1 + t)%nat = b !! last_word t) ∧
    (∀ j, (∀ t, (k ≤ t < k + m)%nat → j ≠ last_word t ∧ j ≠ u + 1 + t)%nat → b' !! j = b !! j).
Proof.
  revert b k. induction m as [|m IH]; intros b k Hb Hdis; cbn [mst_protect].
  { exists b. split_and!; [done|done|intros; lia|done]. }
  destruct (Hb k) as [Hk Hu]; [lia|].
  destruct (lookup_lt_is_Some_2 b (last_word k)) as [x Hx]; [done|].
  replace (u + k + 1)%nat with (u + 1 + k)%nat by lia. rewrite (rd_Ret _ _ _ Hx). cbn [mbind outcome_bind].
  rewrite wr_Ret by done. cbn [mbind outcome_bind].
  rewrite wr_Ret by (by rewrite length_insert). cbn [mbind outcome_bind]. rewrite last_word_S.
  set (b1 := <[last_word k := usn]> (<[(u + 1 + k)%nat := x]> b)).
  replace (u + 1 + k)%nat with (u + S k)%nat by lia. assert (length b1 = length b) as Hl1 by (unfold b1; by rewrite !length_insert).
  destruct (IH b1 (S k)) as (b' & -> & Hl & Hd & Ho).
  { intros t Ht. rewrite Hl1. apply Hb. lia. }
  { intros t s Ht Hs. apply Hdis; lia. }
  exists b'. split_and!; [done|lia| |].
  - intros t Ht. destruct (decide (t = k)) as [-> |].
    + rewrite !Ho; [|unfold last_word; intros s ?; pose proof (Hdis s k); unfold last_word in *; lia|
        intros s ?; pose proof (Hdis k s); unfold last_word in *; lia].
      unfold b1. rewrite list_lookup_insert_eq by (by rewrite length_insert).
      rewrite list_lookup_insert_ne by (apply Hdis; lia). by rewrite list_lookup_insert_eq.
    + destruct (Hd t) as [-> ->]; [lia|]. split; [done|]. unfold b1.
      rewrite list_lookup_insert_ne by (unfold last_word; lia).
      apply list_lookup_insert_ne. apply not_eq_sym, Hdis; lia.
  - intros j Hj. rewrite Ho by (intros; apply Hj; lia). destruct (Hj k ltac:(lia)) as [??].
    unfold b1. by rewrite !list_lookup_insert_ne by done.
Qed.

(** ** Records *)

(** A record of [n] sectors whose usa is at the word [u].  The last condition is the
    one the comment on [NTFS_RECORD] gives: the usa ends before the last word of the
    first sector. *)
Record mst_record (b : list Z) (n u : nat) : Prop := {
  mr_length : length b = (256 * n)%nat;
  mr_ofs : b !! 2%nat = Some (2 * Z.of_nat u);
  mr_count : b !! 3%nat = Some (Z.of_nat n + 1);
  mr_n : (0 < n)%nat ∧ Z.of_nat n + 1 < 65536;
  mr_u : (4 ≤ u)%nat ∧ (u + n < 255)%nat
}.

Definition mst_size (n : nat) : Z := 512 * Z.of_nat n.

(** The words of the usa. *)
Definition in_usa (n u j : nat) : Prop := (u ≤ j ≤ u + n)%nat.

Lemma mst_record_fields b n u :
  mst_record b n u →
  rec_usa_ofs b = Ret (2 * Z.of_nat u) ∧ rec_usa_count b = Ret (Z.of_nat n + 1) ∧
  u16 (Z.of_nat n + 1 - 1) = Z.of_nat n ∧
  mst_invalid (mst_size n) (2 * Z.of_nat u) (Z.of_nat n) = false ∧
  Z.to_nat (2 * Z.of_nat u / 2) = u ∧ ∃ usn, b !! u = Some usn.
Proof.
  intros [Hl Ho Hc Hn Hu]. unfold rec_usa_ofs, rec_usa_count.
  rewrite (rd_Ret _ _ _ Ho), (rd_Ret _ _ _ Hc). split_and!; [done|done| | | |].
  - rewrite uwrap_id; lia.
  - unfold mst_invalid, mst_size, NTFS_BLOCK_SIZE, NTFS_BLOCK_SIZE_SHIFT.
    change (512 - 1) with (Z.ones 9). change (Z.land (2 * Z.of_nat u) 1) with (Z.land (2 * Z.of_nat u) (Z.ones 1)).
    rewrite !Z.land_ones, Z.shiftr_div_pow2 by lia. change (2 ^ 9) with 512. change (2 ^ 1) with 2.
    rewrite !(Z.mul_comm _ (Z.of_nat _)), !Z.mod_mul, Z.div_mul by lia. simpl.
    rewrite Z.eqb_refl. ztests.
  - rewrite (Z.mul_comm 2), Z.div_mul by lia. lia.
  - apply lookup_lt_is_Some_2. lia.
Qed.

Lemma mst_record_bounds b n u :
  mst_record b n u →
  (∀ t, (0 ≤ t < 0 + n)%nat → (last_word t < length b ∧ u + 1 + t < length b)%nat) ∧
  (∀ t s, (0 ≤ t < 0 + n)%nat → (0 ≤ s < 0 + n)%nat → (last_word t ≠ u + 1 + s)%nat).
Proof. intros [Hl _ _ Hn Hu]. unfold last_word. split; intros; lia. Qed.

(** All sectors carry the update sequence number. *)
Definition mst_complete (b : list Z) (n u : nat) : Prop :=
  ∀ t, (t < n)%nat → b !! last_word t = b !! u.

(** [b] as it is after the protected words were taken from the usa. *)
Definition mst_restored (b b' : list Z) (n u : nat) : Prop :=
  length b' = length b ∧ (∀ t, (t < n)%nat → b' !! last_word t = b !! (u + 1 + t)%nat) ∧
  (∀ j, (∀ t, (t < n)%nat → j ≠ last_word t) → b' !! j = b !! j).

Lemma mst_restore_record b n u :
  mst_record b n u →
  ∃ b', mst_restore n b u (block_words - 1) = Ret b' ∧ mst_restored b b' n u.
Proof.
  intros Hb. destruct (mst_record_bounds b n u Hb) as [H1 H2].
  destruct (mst_restore_spec n b u 0 H1 H2) as (b' & E & Hl & Hd & Ho). rewrite Nat.add_0_r in E.
  exists b'. split; [done|]. split_and!; [done|intros; apply Hd; lia|intros; apply Ho; intros; apply H; lia].
Qed.

Definition mst_baad (b : list Z) : list Z := <[1%nat := 0x4441]> (<[0%nat := 0x4142]> b).

Lemma post_read_eq b n u :
  mst_record b n u →
  (mst_complete b n u ∧ ∃ b', ntfs_mst_fixup_post_read b (mst_size n) = Ret (0, b') ∧
     mst_restored b b' n u) ∨
  (¬ mst_complete b n u ∧ ntfs_mst_fixup_post_read b (mst_size n) = Ret (EIO, mst_baad b)).
Proof.
  intros Hb. destruct (mst_record_fields b n u Hb) as (E1 & E2 & E3 & E4 & E5 & usn & Husn).
  unfold ntfs_mst_fixup_post_read. rewrite E1, E2. cbn [mbind outcome_bind]. rewrite E3, E4, E5.
  rewrite (rd_Ret _ _ _ Husn). cbn [mbind outcome_bind]. rewrite Nat2Z.id.
  destruct (mst_record_bounds b n u Hb) as [H1 _].
  destruct (mst_check_spec n b 0 usn) as (ok & E & Hok); [intros; by apply H1|].
  change (block_words - 1)%nat with (last_word 0). rewrite E. cbn [mbind outcome_bind]. destruct ok; cbn [negb]; [left|right].
  - split.
    + intros t Ht. rewrite Husn. by apply Hok; [|lia].
    + destruct (mst_restore_record b n u Hb) as (b' & Er & Hr).
      change (last_word 0) with (block_words - 1)%nat. rewrite Er. by exists b'.
  - split.
    + intros Hc. assert (false = true) as H'; [|done]. apply Hok. intros t Ht. rewrite Hc, Husn by lia. done.
    + destruct Hb as [Hl _ _ Hn _]. unfold set_magic.
      rewrite wr_Ret by lia. cbn [mbind outcome_bind]. by rewrite wr_Ret by (rewrite length_insert; lia).
Qed.

(** [b1] is [b] protected with the number [usn]. *)
Definition mst_protected (b b1 : list Z) (n u : nat) (usn : Z) : Prop :=
  length b1 = length b ∧ b1 !! u = Some usn ∧
  (∀ t, (t < n)%nat → b1 !! last_word t = Some usn ∧ b1 !! (u + 1 + t)%nat = b !! last_word t) ∧
  (∀ j, ¬ in_usa n u j → (∀ t, (t < n)%nat → j ≠ last_word t) → b1 !! j = b !! j).

Definition mst_magic_ok (b : list Z) : Prop :=
  ∃ m, rec_magic b = Ret m ∧ m ≠ magic_BAAD ∧ m ≠ magic_HOLE.

Lemma pre_write_eq b n u usn :
  mst_record b n u → mst_magic_ok b → b !! u = Some usn →
  ∃ b1, ntfs_mst_fixup_pre_write b (mst_size n) = Ret (0, b1) ∧ mst_record b1 n u ∧
    mst_protected b b1 n u (next_usn usn).
Proof.
  intros Hb (m & Hm & Hm1 & Hm2) Husn.
  destruct (mst_record_fields b n u Hb) as (E1 & E2 & E3 & E4 & E5 & _).
  unfold ntfs_mst_fixup_pre_write. rewrite Hm. cbn [mbind outcome_bind].
  rewrite (proj2 (Z.eqb_neq m _)), (proj2 (Z.eqb_neq m _)) by done. cbn [orb].
  rewrite E1, E2. cbn [mbind outcome_bind]. rewrite E3, E4, E5.
  rewrite (rd_Ret _ _ _ Husn). cbn [mbind outcome_bind]. rewrite Nat2Z.id.
  destruct (mst_record_bounds b n u Hb) as [H1 H2]. pose proof Hb as [Hl Ho Hc Hn Hu].
  rewrite wr_Ret by lia. cbn [mbind outcome_bind]. set (b0 := <[u := _]> b).
  assert (length b0 = length b) as Hl0 by apply length_insert.
  destruct (mst_protect_spec n b0 u 0 (next_usn usn)) as (b1 & E & Hl1 & Hd & Hoth);
    [by rewrite Hl0|done|]. rewrite Nat.add_0_r in E. change (block_words - 1)%nat with (last_word 0).
  rewrite E. cbn [mbind outcome_bind]. exists b1. split; [done|].
  assert (∀ j, ¬ in_usa n u j → (∀ t, (t < n)%nat → j ≠ last_word t) → b1 !! j = b !! j) as Hj.
  { intros j Hj Ht. rewrite Hoth; [apply list_lookup_insert_ne; unfold in_usa in Hj; lia|].
    intros t Hlt. split; [apply Ht; lia|unfold in_usa in Hj; lia]. }
  split.
  - split; [lia| | |done|done]; (rewrite Hj; [done|unfold in_usa; lia|unfold last_word; lia]).
  - split_and!; [lia| | |done].
    + rewrite Hoth; [by apply list_lookup_insert_eq; lia|]. unfold last_word. lia.
    + intros t Ht. destruct (Hd t) as [-> ->]; [lia|]. split; [done|].
      apply list_lookup_insert_ne. unfold last_word. lia.
Qed.

(** ** Theorems *)

Lemma next_usn_neq usn : next_usn usn ≠ usn.
Proof.
  unfold next_usn, uwrap. change (2 ^ 16) with 65536. pose proof (Z.mod_pos_bound (usn + 1) 65536).
  destruct (Z.eqb_spec ((usn + 1) mod 65536) 65535); cbn [orb].
  { intros <-. done. }
  destruct (Z.eqb_spec ((usn + 1) mod 65536) 0); cbn [orb].
  { intros <-. done. }
  zdiv.
Qed.

Lemma mst_protected_complete b b1 n u usn : mst_protected b b1 n u usn → mst_complete b1 n u.
Proof. intros (_ & Hu & Ht & _) t Hlt. rewrite Hu. by apply Ht. Qed.

(** A record to evaluate the model on: two sectors, with the usa at the word 24. *)
Definition sample_record : list Z :=
  [0x4946; 0x454c; 48; 3] ++ replicate 20 5 ++ [0xffff; 0; 0] ++ replicate 485 6.

Lemma sample_record_ok : mst_record sample_record 2 24.
Proof. split; (done || lia). Qed.

Lemma sample_record_magic : mst_magic_ok sample_record.
Proof. by eexists. Qed.

(** C36: protecting a record for writing and restoring it, after reading it back or after the
    write, gives the record back except for its update sequence array, whose number has been
    advanced. *)
Theorem ntfs_mst_fixup_roundtrip b n u usn :
  mst_record b n u → mst_magic_ok b → b !! u = Some usn →
  ∃ b1 b2, ntfs_mst_fixup_pre_write b (mst_size n) = Ret (0, b1) ∧
    ntfs_mst_fixup_post_read b1 (mst_size n) = Ret (0, b2) ∧
    ntfs_mst_fixup_post_write b1 = Ret b2 ∧
    length b2 = length b ∧ b2 !! u = Some (next_usn usn) ∧
    ∀ j, ¬ in_usa n u j → b2 !! j = b !! j.
Proof.
  intros Hb Hm Husn. destruct (pre_write_eq b n u usn Hb Hm Husn) as (b1 & E1 & Hb1 & Hp).
  destruct (post_read_eq b1 n u Hb1) as [(_ & b2 & E2 & Hr)|[Hn _]].
  2: { destruct Hn. by eapply mst_protected_complete. }
  exists b1, b2. split; [done|]. split; [done|].
  destruct (mst_record_fields b1 n u Hb1) as (F1 & F2 & F3 & F4 & F5 & _).
  destruct (mst_restore_record b1 n u Hb1) as (b2' & E3 & Hr').
  assert (b2' = b2) as ->.
  { revert E2. unfold ntfs_mst_fixup_post_read. rewrite F1, F2. cbn [mbind outcome_bind].
    rewrite F3, F4, F5, Nat2Z.id. destruct Hp as (_ & Hu & _). rewrite (rd_Ret _ _ _ Hu).
    cbn [mbind outcome_bind]. rewrite E3. intros (ok & _ & E)%bind_Ret_inv. destruct ok; simpl in E; [congruence|].
    apply bind_Ret_inv in E as (? & _ & E). discriminate. }
  destruct Hr as (Hl & Hd & Ho). destruct Hp as (Hl1 & Hu & Ht & Hj). destruct Hb as [Hlb _ _ Hn Hun].
  split_and!.
  - unfold ntfs_mst_fixup_post_write. rewrite F1, F2. cbn [mbind outcome_bind]. by rewrite F3, F5, Nat2Z.id.
  - lia.
  - rewrite Ho; [done|]. unfold last_word. lia.
  - intros j Hju. destruct (decide (j < 256 * n)%nat) as [Hjn|].
    2: { rewrite !lookup_ge_None_2 by lia. done. }
    destruct (decide (j `mod` 256 = 255)%nat) as [Hjm|Hjm].
    + assert (j = last_word (j / 256)) as Ej.
      { unfold last_word. pose proof (Nat.div_mod_eq j 256). lia. }
      assert (j / 256 < n)%nat by (apply Nat.Div0.div_lt_upper_bound; lia).
      rewrite Ej at 1. rewrite Hd by done. rewrite Ej at 2. by apply Ht.
    + assert (∀ t, (t < n)%nat → j ≠ last_word t) as Hnot.
      { intros t _ ->. apply Hjm. unfold last_word. rewrite Nat.mul_comm, Nat.Div0.mod_add. done. }
      by rewrite Ho, Hj.
Qed.

Lemma ntfs_mst_fixup_roundtrip_witness :
  ∃ b1 b2, ntfs_mst_fixup_pre_write sample_record (mst_size 2) = Ret (0, b1) ∧
    ntfs_mst_fixup_post_read b1 (mst_size 2) = Ret (0, b2) ∧
    ntfs_mst_fixup_post_write b1 = Ret b2 ∧
    length b2 = length sample_record ∧ b2 !! 24%nat = Some (next_usn 0xffff) ∧
    ∀ j, ¬ in_usa 2 24 j → b2 !! j = sample_record !! j.
Proof. apply (ntfs_mst_fixup_roundtrip sample_record 2 24 0xffff); [apply sample_record_ok|apply sample_record_magic|done]. Defined.

(** The sectors for which [f] holds are those of [b1], the others those of [b0]. *)
Definition torn (f : nat → bool) (b0 b1 b : list Z) : Prop :=
  length b = length b0 ∧
  ∀ i, b !! i = (if f (i / 256)%nat then b1 else b0) !! i.

(** Only the first sector of [b1] was written. *)
Lemma torn_first b0 b1 :
  length b1 = length b0 → (256 ≤ length b0)%nat →
  torn (λ s, (s =? 0)%nat) b0 b1 (take 256 b1 ++ drop 256 b0).
Proof.
  intros Hl Hb. split; [rewrite length_app, length_take, length_drop; lia|]. intros i.
  destruct (decide (i < 256)%nat).
  - rewrite Nat.div_small by done. cbn [Nat.eqb].
    rewrite lookup_app_l by (rewrite length_take; lia). by apply lookup_take_lt.
  - assert (1 ≤ i / 256)%nat by (apply Nat.div_le_lower_bound; lia). rewrite (proj2 (Nat.eqb_neq _ _)) by lia.
    rewrite lookup_app_r, lookup_drop by (rewrite length_take; lia). f_equal. rewrite length_take. lia.
Qed.

(** C17: a torn write is detected.  When a record is written twice, the second version continuing
    the update sequence of the first, and only some sectors of the second write reached the disk,
    reading the mixture fails with EIO and marks it with the magic BAAD. *)
Theorem ntfs_mst_detects_torn_write a0 b0 a1 b1 b n u f s1 s2 :
  mst_record a0 n u → mst_magic_ok a0 → ntfs_mst_fixup_pre_write a0 (mst_size n) = Ret (0, b0) →
  mst_record a1 n u → mst_magic_ok a1 → ntfs_mst_fixup_pre_write a1 (mst_size n) = Ret (0, b1) →
  a1 !! u = b0 !! u → torn f b0 b1 b → (s1 < n)%nat → (s2 < n)%nat → f s1 ≠ f s2 →
  ntfs_mst_fixup_post_read b (mst_size n) = Ret (EIO, mst_baad b) ∧
  rec_magic (mst_baad b) = Ret magic_BAAD.
Proof.
  intros Ha0 Hm0 E0 Ha1 Hm1 E1 Hu [Hl Hb] Hs1 Hs2 Hf.
  destruct (mst_record_fields a0 n u Ha0) as (_ & _ & _ & _ & _ & usn & Husn).
  destruct (pre_write_eq a0 n u usn Ha0 Hm0 Husn) as (b0' & E0' & Hr0 & _ & Hu0 & Ht0 & _).
  rewrite E0 in E0'. injection E0' as <-. rewrite Hu0 in Hu.
  destruct (pre_write_eq a1 n u _ Ha1 Hm1 Hu) as (b1' & E1' & Hr1 & _ & Hu1 & Ht1 & _).
  rewrite E1 in E1'. injection E1' as <-. pose proof (next_usn_neq (next_usn usn)) as Hne.
  destruct Hr0 as [Hl0 Ho0 Hc0 Hn Hun]. destruct Hr1 as [Hl1 Ho1 Hc1 _ _].
  assert (mst_record b n u) as Hrb.
  { split; [lia| | |done|done]; rewrite Hb; change (2 / 256)%nat with 0%nat; change (3 / 256)%nat with 0%nat;
      by case_match. }
  split.
  - destruct (post_read_eq b n u Hrb) as [(Hc & _)|[_ ?]]; [exfalso|done].
    assert (∀ t, (t < n)%nat → b !! last_word t =
      Some (if f t then next_usn (next_usn usn) else next_usn usn)) as Hlast.
    { intros t Ht. rewrite Hb. replace (last_word t / 256)%nat with t
        by (unfold last_word; rewrite Nat.mul_comm, Nat.div_add by lia; done).
      destruct (f t); [apply Ht1|apply Ht0]; done. }
    pose proof (Hc s1 Hs1) as H1. pose proof (Hc s2 Hs2) as H2. rewrite Hlast in H1, H2 by done.
    rewrite <- H2 in H1. destruct (f s1), (f s2); congruence.
  - unfold mst_baad, rec_magic. destruct b as [|? [|? b]]; simpl in *; [lia..|]. done.
Qed.

Lemma ntfs_mst_detects_torn_write_witness :
  ∃ b0 b1 b, ntfs_mst_fixup_pre_write sample_record (mst_size 2) = Ret (0, b0) ∧
    ntfs_mst_fixup_pre_write (<[24%nat := 1]> sample_record) (mst_size 2) = Ret (0, b1) ∧
    b = take 256 b1 ++ drop 256 b0 ∧
    ntfs_mst_fixup_post_read b (mst_size 2) = Ret (EIO, mst_baad b) ∧
    rec_magic (mst_baad b) = Ret magic_BAAD.
Proof.
  eexists _, _, _. split; [vm_compute; reflexivity|]. split; [vm_compute; reflexivity|]. split; [reflexivity|].
  eapply (ntfs_mst_detects_torn_write sample_record _ (<[24%nat := 1]> sample_record) _ _ 2 24 (λ s, (s =? 0)%nat) 0 1);
    [apply sample_record_ok|apply sample_record_magic|vm_compute; reflexivity
    |split; done || lia|by eexists|vm_compute; reflexivity|done| |lia|lia|done].
  apply torn_first; [by vm_compute|]. apply Nat.leb_le. by vm_compute.
Defined.

(** The words that the fixup leaves alone: all but the magic and the last words of sectors. *)
Definition fixup_keeps (b b' : list Z) : Prop :=
  length b' = length b ∧ ∀ i, (2 ≤ i)%nat → (∀ t, i ≠ last_word t) → b' !! i = b !! i.

#[global] Instance fixup_keeps_preorder : PreOrder fixup_keeps.
Proof.
  split; [by split|]. intros b1 b2 b3 [L1 H1] [L2 H2]. split; [congruence|]. intros i Hi Ht.
  by rewrite H2, H1.
Qed.

Lemma fixup_keeps_insert b i x : (i < 2)%nat ∨ (∃ t, i = last_word t) → fixup_keeps b (<[i := x]> b).
Proof.
  intros Hi. split; [apply length_insert|]. intros j Hj Ht. apply list_lookup_insert_ne.
  destruct Hi as [?|[t ->]]; [lia|]. intros E. by destruct (Ht t).
Qed.

(** 16-bit words stay 16-bit words. *)
Definition words16 (b : list Z) : Prop := Forall (λ x, 0 ≤ x < 65536) b.

Lemma mst_restore_runs m b u k :
  words16 b → (u + m < length b)%nat → (256 * (k + m) ≤ length b)%nat →
  runs (mst_restore m b u (last_word k)) (λ b', fixup_keeps b b' ∧ words16 b').
Proof.
  revert b u k. induction m as [|m IH]; intros b u k Hw Hu Hk; cbn [mst_restore]; [by apply runs_Ret|].
  destruct (lookup_lt_is_Some_2 b (u + 1)) as [x Hx]; [lia|]. rewrite (rd_Ret _ _ _ Hx).
  cbn [mbind outcome_bind]. rewrite wr_Ret by (unfold last_word; lia). cbn [mbind outcome_bind].
  rewrite last_word_S. eapply runs_mono; [apply IH; rewrite ?length_insert; [|lia|lia]|].
  - apply Forall_insert; [done|]. exact (Forall_lookup_1 _ _ _ _ Hw Hx).
  - intros b' [Hb' Hw']. split; [|done]. etrans; [|exact Hb']. apply fixup_keeps_insert. right. by eexists.
Qed.

Lemma set_magic_runs b m :
  words16 b → (2 ≤ length b)%nat → 0 ≤ m < 2 ^ 32 → runs (set_magic b m) (λ b', fixup_keeps b b' ∧ words16 b').
Proof.
  intros Hw Hl Hm. unfold set_magic. rewrite wr_Ret by lia. cbn [mbind outcome_bind].
  rewrite wr_Ret by (rewrite length_insert; lia). apply runs_Ret. split.
  - etrans; [apply fixup_keeps_insert; left|apply fixup_keeps_insert; left]; lia.
  - change 0xffff with (Z.ones 16). rewrite Z.land_ones, Z.shiftr_div_pow2 by lia.
    apply Forall_insert; [apply Forall_insert; [done|]|]; zdiv.
Qed.

(** On any record whose update sequence array lies inside it, the fixup stays inside the
    record. *)
Lemma mst_post_read_runs b n ofs count :
  words16 b → length b = (256 * n)%nat → b !! 2%nat = Some ofs → b !! 3%nat = Some count →
  0 ≤ ofs → 1 ≤ count < 65536 →
  (count = Z.of_nat n + 1 → ofs + 2 * (count - 1) ≤ mst_size n → ofs + 2 * count ≤ mst_size n) →
  runs (ntfs_mst_fixup_post_read b (mst_size n)) (λ '(err, b'),
    (err = 0 ∨ err = EIO) ∧ fixup_keeps b b' ∧ words16 b').
Proof.
  intros Hw Hl Ho Hc Hofs Hcount Hsize. unfold ntfs_mst_fixup_post_read, rec_usa_ofs, rec_usa_count.
  rewrite (rd_Ret _ _ _ Ho), (rd_Ret _ _ _ Hc). cbn [mbind outcome_bind]. rewrite uwrap_id by lia.
  case_match eqn:Hinv; [apply runs_Ret; split; [by left|done]|].
  assert (count - 1 = Z.of_nat n ∧ ofs + 2 * (count - 1) ≤ mst_size n) as [Hn Hofs'].
  { unfold mst_invalid in Hinv. zbool. split; [|lia].
    match goal with H : Z.shiftr _ _ = _ |- _ => rewrite <- H end. unfold mst_size, NTFS_BLOCK_SIZE_SHIFT.
    rewrite Z.shiftr_div_pow2 by lia. change (2 ^ 9) with 512. rewrite Z.mul_comm, Z.div_mul by lia. done. }
  specialize (Hsize ltac:(lia) Hofs'). rewrite Hn, Nat2Z.id. clear Hinv. unfold mst_size in Hsize.
  assert (Z.to_nat (ofs / 2) + n < length b)%nat as Hu by (assert (0 ≤ ofs / 2) by zdiv; zdiv).
  destruct (lookup_lt_is_Some_2 b (Z.to_nat (ofs / 2))) as [usn Husn]; [lia|].
  rewrite (rd_Ret _ _ _ Husn). cbn [mbind outcome_bind]. change (block_words - 1)%nat with (last_word 0).
  destruct (mst_check_spec n b 0 usn) as (ok & -> & _); [unfold last_word; lia|].
  cbn [mbind outcome_bind]. destruct ok; cbn [negb].
  - eapply runs_bind; [apply mst_restore_runs; [done|done|lia]|]. intros b' Hb'. apply runs_Ret. split; [by left|done].
  - eapply runs_bind; [apply set_magic_runs; [done|apply lookup_lt_Some in Hc; lia|done]|].
    intros b' Hb'. apply runs_Ret. split; [by right|done].
Qed.

(** On any record, however corrupt, whose update sequence array lies inside it, the fixup stays
    inside the record, changes only the magic and the last word of every sector, and returns 0 or
    EIO. *)
Theorem ntfs_mst_fixup_post_read_safe b n ofs count :
  words16 b → length b = (256 * n)%nat → b !! 2%nat = Some ofs → b !! 3%nat = Some count →
  1 ≤ count → ofs + 2 * count ≤ mst_size n →
  runs (ntfs_mst_fixup_post_read b (mst_size n)) (λ '(err, b'),
    (err = 0 ∨ err = EIO) ∧ fixup_keeps b b' ∧ words16 b').
Proof.
  intros Hw Hl Ho Hc Hcount Hsize. pose proof (Forall_lookup_1 _ _ _ _ Hw Ho). pose proof (Forall_lookup_1 _ _ _ _ Hw Hc).
  apply (mst_post_read_runs b n ofs count); (done || simpl in *; lia).
Qed.

(** The size check uses the decremented count, so the last entry of the usa may lie
    behind the record. *)
Example mst_post_read_past_end :
  ntfs_mst_fixup_post_read
    ([0x4946; 0x454c; 510; 2] ++ replicate 251 0 ++ [0x0001]) 512 = Oob.
Proof. vm_compute. reflexivity. Qed.
