(* ===== verification/Unistr.v ===== *)
(** * Unicode names

    The comparison functions of [kext/ntfs_unistr.c].  A name is the list of its
    16-bit characters in CPU byte order, and [upcase] the upcase table. *)

From S2P Require Import Prelude.

(** ** Operations *)

Definition ntfs_legal_ansi_char_array : list Z :=
  [0x00; 0x10; 0x10; 0x10; 0x10; 0x10; 0x10; 0x10;
   0x10; 0x10; 0x10; 0x10; 0x10; 0x10; 0x10; 0x10;
   0x10; 0x10; 0x10; 0x10; 0x10; 0x10; 0x10; 0x10;
   0x10; 0x10; 0x10; 0x10; 0x10; 0x10; 0x10; 0x10;
   0x17; 0x07; 0x18; 0x17; 0x17; 0x17; 0x17; 0x17;
   0x17; 0x17; 0x18; 0x16; 0x16; 0x17; 0x07; 0x00;
   0x17; 0x17; 0x17; 0x17; 0x17; 0x17; 0x17; 0x17;
   0x17; 0x17; 0x04; 0x16; 0x18; 0x16; 0x18; 0x18].

(** [c < 64 && ntfs_legal_ansi_char_array[c] & 8]. *)
Definition illegal_char (c : Z) : bool :=
  (c <? 64) && negb (Z.land (nth (Z.to_nat c) ntfs_legal_ansi_char_array 0) 8 =? 0).

(** [if (c < upcase_len) c = upcase[c]]. *)
Definition upcase_char (upcase : list Z) (c : Z) : Z :=
  if c <? Z.of_nat (length upcase) then nth (Z.to_nat c) upcase 0 else c.

Fixpoint ntfs_ucsncmp (s1 s2 : list Z) (n : nat) : outcome Z :=
  match n with
  | O => Ret 0
  | S n =>
      match s1, s2 with
      | c1 :: s1, c2 :: s2 =>
          if c1 <? c2 then Ret (-1) else
          if c2 <? c1 then Ret 1 else
          if c1 =? 0 then Ret 0 else ntfs_ucsncmp s1 s2 n
      | _, _ => Oob
      end
  end.

Fixpoint ntfs_ucsncasecmp (s1 s2 : list Z) (n : nat) (upcase : list Z) : outcome Z :=
  match n with
  | O => Ret 0
  | S n =>
      match s1, s2 with
      | c1 :: s1, c2 :: s2 =>
          let c1 := upcase_char upcase c1 in
          let c2 := upcase_char upcase c2 in
          if c1 <? c2 then Ret (-1) else
          if c2 <? c1 then Ret 1 else
          if c1 =? 0 then Ret 0 else ntfs_ucsncasecmp s1 s2 n upcase
      | _, _ => Oob
      end
  end.

Definition ntfs_are_names_equal (s1 s2 : list Z) (case_sensitive : bool) (upcase : list Z)
    : outcome bool :=
  if negb (length s1 =? length s2)%nat then Ret false else
  if case_sensitive then
    r ← ntfs_ucsncmp s1 s2 (length s1); Ret (r =? 0)
  else
    r ← ntfs_ucsncasecmp s1 s2 (length s1) upcase; Ret (r =? 0).

(** The check of the rest of the first name. *)
Fixpoint collate_rest (name1 : list Z) (err_val : Z) : Z :=
  match name1 with
  | [] => 1
  | c1 :: name1 => if illegal_char c1 then err_val else collate_rest name1 err_val
  end.

Fixpoint ntfs_collate_names (name1 name2 : list Z) (err_val : Z) (case_sensitive : bool)
    (upcase : list Z) : Z :=
  match name1, name2 with
  | c1 :: name1, c2 :: name2 =>
      let c1 := if case_sensitive then c1 else upcase_char upcase c1 in
      let c2 := if case_sensitive then c2 else upcase_char upcase c2 in
      if illegal_char c1 then err_val else
      if c1 <? c2 then -1 else
      if c2 <? c1 then 1 else
      ntfs_collate_names name1 name2 err_val case_sensitive upcase
  | [], [] => 0
  | [], _ :: _ => -1
  | _ :: _, [] => collate_rest name1 err_val
  end.

Definition ntfs_upcase_name (name upcase : list Z) : list Z := upcase_char upcase <$> name.

(** ** Lexicographic order *)

Fixpoint lex (s t : list Z) : Z :=
  match s, t with
  | [], [] => 0
  | [], _ :: _ => -1
  | _ :: _, [] => 1
  | x :: s, y :: t => if x <? y then -1 else if y <? x then 1 else lex s t
  end.

Lemma lex_range s t : lex s t = -1 ∨ lex s t = 0 ∨ lex s t = 1.
Proof.
  revert t. induction s as [|x s IH]; intros [|y t]; simpl; auto.
  repeat case_match; auto.
Qed.

Lemma lex_antisym s t : lex t s = - lex s t.
Proof.
  revert t. induction s as [|x s IH]; intros [|y t]; simpl; try done.
  destruct (Z.ltb_spec x y), (Z.ltb_spec y x); try lia. apply IH.
Qed.

Lemma lex_eq s t : lex s t = 0 ↔ s = t.
Proof.
  revert t. induction s as [|x s IH]; intros [|y t]; simpl; try done.
  destruct (Z.ltb_spec x y), (Z.ltb_spec y x); try (split; [done|intros [= -> ->]; lia]).
  rewrite IH. assert (x = y) as -> by lia. split; [by intros ->|by intros [=]].
Qed.

Lemma lex_trans s t u : lex s t ≤ 0 → lex t u ≤ 0 → lex s u ≤ 0.
Proof.
  revert t u. induction s as [|x s IH]; intros [|y t] [|z u]; simpl; try done.
  destruct (Z.ltb_spec x y), (Z.ltb_spec y z), (Z.ltb_spec x z), (Z.ltb_spec y x),
    (Z.ltb_spec z y), (Z.ltb_spec z x); try done; try lia. apply IH.
Qed.

(** A comparison of keys with a second key to break ties. *)
Definition lex2 (a1 a2 b1 b2 : list Z) : Z := if lex a1 b1 =? 0 then lex a2 b2 else lex a1 b1.

Lemma lex2_antisym a1 a2 b1 b2 : lex2 b1 b2 a1 a2 = - lex2 a1 a2 b1 b2.
Proof.
  unfold lex2. rewrite (lex_antisym a1 b1), (lex_antisym a2 b2).
  destruct (Z.eqb_spec (lex a1 b1) 0), (Z.eqb_spec (- lex a1 b1) 0); lia.
Qed.

Lemma lex2_trans a1 a2 b1 b2 c1 c2 :
  lex2 a1 a2 b1 b2 ≤ 0 → lex2 b1 b2 c1 c2 ≤ 0 → lex2 a1 a2 c1 c2 ≤ 0.
Proof.
  unfold lex2. intros H1 H2.
  pose proof (lex_range a1 b1). pose proof (lex_range b1 c1).
  assert (lex a1 c1 ≤ 0) as H3.
  { apply (lex_trans _ b1); [destruct (Z.eqb_spec (lex a1 b1) 0)|destruct (Z.eqb_spec (lex b1 c1) 0)]; lia. }
  destruct (Z.eqb_spec (lex a1 c1) 0) as [Hac|]; [|done]. apply lex_eq in Hac as ->.
  rewrite (lex_antisym c1 b1) in *. 
  destruct (Z.eqb_spec (lex c1 b1) 0) as [E|]; [|destruct (Z.eqb_spec (- lex c1 b1) 0); lia].
  rewrite E in H2. simpl in H2. by eapply lex_trans.
Qed.

Lemma lex2_eq (f : list Z → list Z) a b : lex2 (f a) a (f b) b = 0 ↔ a = b.
Proof.
  unfold lex2. destruct (Z.eqb_spec (lex (f a) (f b)) 0) as [E|E]; [apply lex_eq|].
  split; [done|]. intros ->. destruct E. by apply lex_eq.
Qed.

(** ** Specifications *)

(** The name without the first NUL character and what follows. *)
Fixpoint until_nul (s : list Z) : list Z :=
  match s with
  | [] => []
  | c :: s => if c =? 0 then [] else c :: until_nul s
  end.

Lemma ucsncmp_eq s1 s2 n :
  length s1 = n → length s2 = n →
  ∃ r, ntfs_ucsncmp s1 s2 n = Ret r ∧ (r = -1 ∨ r = 0 ∨ r = 1) ∧
    (r = 0 ↔ until_nul s1 = until_nul s2) ∧ ntfs_ucsncmp s2 s1 n = Ret (- r).
Proof.
  revert s1 s2. induction n as [|n IH]; intros [|c1 s1] [|c2 s2]; try done.
  { intros _ _. exists 0. split_and!; [done|auto|done|done]. }
  intros [= H1] [= H2]. cbn [ntfs_ucsncmp until_nul].
  assert (c1 ≠ c2 → (if c1 =? 0 then [] else c1 :: until_nul s1) ≠
    (if c2 =? 0 then [] else c2 :: until_nul s2)) as Hne.
  { intros Hc. destruct (Z.eqb_spec c1 0), (Z.eqb_spec c2 0); try done; [lia|]. congruence. }
  destruct (Z.ltb_spec c1 c2), (Z.ltb_spec c2 c1); try lia.
  - exists (-1). split_and!; [done|auto| |done]. split; [done|]. intros E. destruct Hne; [lia|done].
  - exists 1. split_and!; [done|auto| |done]. split; [done|]. intros E. destruct Hne; [lia|done].
  - assert (c1 = c2) as -> by lia. destruct (Z.eqb_spec c2 0); [exists 0; split_and!; [done|auto|done|done]|].
    destruct (IH s1 s2) as (r & -> & Hr & Hz & ->); [done..|]. exists r. split_and!; [done..| |done].
    rewrite Hz. split; [by intros ->|by intros [= ->]].
Qed.

(** Ignoring case is comparing the upcased names. *)
Lemma ucsncasecmp_upcase s1 s2 n upcase :
  ntfs_ucsncasecmp s1 s2 n upcase =
    ntfs_ucsncmp (ntfs_upcase_name s1 upcase) (ntfs_upcase_name s2 upcase) n.
Proof.
  revert s1 s2. induction n as [|n IH]; intros [|c1 s1] [|c2 s2]; try done.
  cbn [ntfs_ucsncasecmp ntfs_upcase_name fmap list_fmap ntfs_ucsncmp]. by rewrite IH.
Qed.

(** Two names are reported as equal exactly when they have the same length and agree,
    upcased unless the comparison is case sensitive, up to the first NUL character. *)
Theorem ntfs_are_names_equal_spec s1 s2 (case_sensitive : bool) upcase :
  let up (s : list Z) := if case_sensitive then s else ntfs_upcase_name s upcase in
  ∃ b, ntfs_are_names_equal s1 s2 case_sensitive upcase = Ret b ∧
    (b = true ↔ length s1 = length s2 ∧ until_nul (up s1) = until_nul (up s2)).
Proof.
  intros up. unfold ntfs_are_names_equal.
  destruct (Nat.eqb_spec (length s1) (length s2)) as [E|E]; cbn [negb].
  2: { exists false. split; [done|]. split; [done|]. by intros []. }
  destruct (ucsncmp_eq (up s1) (up s2) (length s1)) as (r & Hr & _ & Hz & _).
  { unfold up, ntfs_upcase_name. destruct case_sensitive; [done|apply length_fmap]. }
  { unfold up, ntfs_upcase_name. destruct case_sensitive; [done|]. by rewrite length_fmap. }
  exists (r =? 0). rewrite Z.eqb_eq, Hz. unfold up in *.
  destruct case_sensitive; rewrite ?ucsncasecmp_upcase, Hr; tauto.
Qed.

(** No character of the name is rejected, whether upcased or not. *)
Definition legal_name (upcase : list Z) (name : list Z) : Prop :=
  Forall (λ c, illegal_char c = false ∧ illegal_char (upcase_char upcase c) = false) name.

(** Legal names are collated in the lexicographic order. *)
Lemma collate_names_lex name1 name2 err_val (case_sensitive : bool) upcase :
  legal_name upcase name1 →
  ntfs_collate_names name1 name2 err_val case_sensitive upcase =
    let up (s : list Z) := if case_sensitive then s else ntfs_upcase_name s upcase in
    lex (up name1) (up name2).
Proof.
  cbv zeta. intros Hl. revert name2. induction Hl as [|c1 name1 [Hc1 Hc2] Hl IH]; intros [|c2 name2].
  - by destruct case_sensitive.
  - by destruct case_sensitive.
  - cbn [ntfs_collate_names]. assert (collate_rest (c1 :: name1) err_val = 1) as ->; [|by destruct case_sensitive].
    simpl. rewrite Hc1. clear -Hl. induction Hl as [|c name [Hc _] _ IH]; simpl; [done|]. by rewrite Hc.
  - cbn [ntfs_collate_names]. rewrite IH.
    assert (illegal_char (if case_sensitive then c1 else upcase_char upcase c1) = false) as -> by (by case_match).
    by destruct case_sensitive.
Qed.

(** On legal names [ntfs_collate_names] returns -1, 0 or 1, returns 0 exactly for names that
    are equal (up to case, unless case sensitive), is antisymmetric, and is transitive. *)
Theorem ntfs_collate_names_order name1 name2 err_val (case_sensitive : bool) upcase :
  legal_name upcase name1 → legal_name upcase name2 →
  let up (s : list Z) := if case_sensitive then s else ntfs_upcase_name s upcase in
  let r := ntfs_collate_names name1 name2 err_val case_sensitive upcase in
  (r = -1 ∨ r = 0 ∨ r = 1) ∧ (r = 0 ↔ up name1 = up name2) ∧
  ntfs_collate_names name2 name1 err_val case_sensitive upcase = - r ∧
  ∀ name3, r ≤ 0 →
    ntfs_collate_names name2 name3 err_val case_sensitive upcase ≤ 0 →
    ntfs_collate_names name1 name3 err_val case_sensitive upcase ≤ 0.
Proof.
  intros H1 H2 up r. unfold r. rewrite !collate_names_lex by done. fold up.
  split_and!; [apply lex_range|apply lex_eq|apply lex_antisym|].
  intros name3. rewrite !collate_names_lex by done. apply lex_trans.
Qed.

(** An illegal character of the first name, at the first position where the names differ or
    before it, makes the comparison return the error value. *)
Theorem ntfs_collate_names_illegal p c s name2 err_val (case_sensitive : bool) upcase :
  let up (x : Z) := if case_sensitive then x else upcase_char upcase x in
  illegal_char (up c) = true → (length p < length name2)%nat →
  take (length p) (up <$> name2) = up <$> p → legal_name upcase p →
  ntfs_collate_names (p ++ c :: s) name2 err_val case_sensitive upcase = err_val.
Proof.
  intros up Hc. revert name2. induction p as [|x p IH]; intros [|y name2] Hlen Hpre Hl; try (simpl in *; lia).
  - cbn [app ntfs_collate_names]. fold (up c). by rewrite Hc.
  - apply Forall_cons_1 in Hl as [[Hx1 Hx2] Hl]. simpl in Hpre. injection Hpre as Hxy Hpre.
    cbn [app ntfs_collate_names]. fold (up x) (up y). rewrite Hxy, Z.ltb_irrefl.
    assert (illegal_char (up x) = false) as -> by (unfold up; by case_match).
    apply IH; [simpl in Hlen; lia|done|done].
Qed.
