(* ===== verification/Collate.v ===== *)
(** * Collation of index keys

    [kext/ntfs_collate.c]: the orders of the NTFS indexes.  Keys are arrays of
    bytes. *)

From S2P Require Import Prelude Bytes Unistr.

(** ** Operations *)

Definition COLLATION_BINARY : Z := 0x00.
Definition COLLATION_FILENAME : Z := 0x01.
Definition COLLATION_UNICODE_STRING : Z := 0x02.
Definition COLLATION_NTOFS_ULONG : Z := 0x10.
Definition COLLATION_NTOFS_SID : Z := 0x11.
Definition COLLATION_NTOFS_SECURITY_HASH : Z := 0x12.
Definition COLLATION_NTOFS_ULONGS : Z := 0x13.

(** [memcmp] of the kernel. *)
Fixpoint memcmp (s1 s2 : list Z) (n : nat) : outcome Z :=
  match n with
  | O => Ret 0
  | S n =>
      match s1, s2 with
      | x :: s1, y :: s2 => if negb (x =? y) then Ret (x - y) else memcmp s1 s2 n
      | _, _ => Oob
      end
  end.

Definition ntfs_collate_binary (data1 data2 : list Z) : outcome Z :=
  let len := if (length data2 <? length data1)%nat then length data2 else length data1 in
  rc ← memcmp data1 data2 len;
  Ret (if (rc =? 0) && negb (length data1 =? length data2)%nat then
         if (len =? length data1)%nat then -1 else 1
       else rc).

(** [sizeof(FILENAME_ATTR)], and the offsets of its last fields. *)
Definition sizeof_FILENAME_ATTR : nat := 0x42.
Definition ofs_filename_length : nat := 0x40.

(** [n] characters from the offset [i] on. *)
Fixpoint le16s_at (data : list Z) (i n : nat) : outcome (list Z) :=
  match n with
  | O => Ret []
  | S n => c ← le16_at data i; s ← le16s_at data (i + 2) n; Ret (c :: s)
  end.

(** The name in a [FILENAME_ATTR]. *)
Definition fn_name (data : list Z) : outcome (list Z) :=
  n ← rd data ofs_filename_length; le16s_at data sizeof_FILENAME_ATTR (Z.to_nat n).

Definition ntfs_collate_filename (upcase data1 data2 : list Z) : outcome Z :=
  if (length data1 <? sizeof_FILENAME_ATTR)%nat then Panic else
  if (length data2 <? sizeof_FILENAME_ATTR)%nat then Panic else
  fn1 ← fn_name data1;
  fn2 ← fn_name data2;
  let rc := ntfs_collate_names fn1 fn2 1 false upcase in
  Ret (if rc =? 0 then ntfs_collate_names fn1 fn2 1 true upcase else rc).

Fixpoint ulongs_loop (data1 data2 : list Z) (i n : nat) : outcome (option Z) :=
  match n with
  | O => Ret None
  | S n =>
      u1 ← le32_at data1 (4 * i);
      u2 ← le32_at data2 (4 * i);
      if u2 <? u1 then Ret (Some 1) else
      if u1 <? u2 then Ret (Some (-1)) else ulongs_loop data1 data2 (i + 1) n
  end.

Definition ntfs_collate_ntofs_ulongs (data1 data2 : list Z) : outcome Z :=
  if negb (Z.land (Z.of_nat (length data1)) 3 =? 0) then Panic else
  if negb (Z.land (Z.of_nat (length data2)) 3 =? 0) then Panic else
  let min_len := if (length data2 <? length data1)%nat then length data2 else length data1 in
  r ← ulongs_loop data1 data2 0 (min_len / 4);
  match r with
  | Some rc => Ret rc
  | None =>
      Ret (if (length data1 <? length data2)%nat then -1
           else if (length data1 =? length data2)%nat then 0 else 1)
  end.

(** The two tables of functions; [None] is the NULL pointer. *)
Definition ntfs_do_collate0x0 (upcase : list Z) : list (option (list Z → list Z → outcome Z)) :=
  [Some ntfs_collate_binary; Some (ntfs_collate_filename upcase); None].
Definition ntfs_do_collate0x1 : list (option (list Z → list Z → outcome Z)) :=
  [Some ntfs_collate_ntofs_ulongs; Some ntfs_collate_binary; Some ntfs_collate_ntofs_ulongs;
   Some ntfs_collate_ntofs_ulongs].

(** A call through a table entry. *)
Definition call (f : outcome (option (list Z → list Z → outcome Z))) (data1 data2 : list Z)
    : outcome Z :=
  f ← f; match f with Some f => f data1 data2 | None => Oob end.

Definition ntfs_collate (upcase : list Z) (cr : Z) (data1 data2 : list Z) : outcome Z :=
  let i := s32 cr in
  if cr =? COLLATION_UNICODE_STRING then Panic else
  if i <? 0 then Panic else
  if i <=? 0x02 then call (rd (ntfs_do_collate0x0 upcase) (Z.to_nat i)) data1 data2 else
  if i <? 0x10 then Panic else
  let i := i - 0x10 in
  if i <=? 3 then call (rd ntfs_do_collate0x1 (Z.to_nat i)) data1 data2 else Panic.

(** ** The order of binary keys *)

(** [memcmp] and the lengths decide the lexicographic order. *)
Lemma memcmp_lex data1 data2 :
  ∃ rc, memcmp data1 data2 (min (length data1) (length data2)) = Ret rc ∧
    (if rc =? 0 then
       lex data1 data2 = if (length data1 <? length data2)%nat then -1
         else if (length data1 =? length data2)%nat then 0 else 1
     else lex data1 data2 = Z.sgn rc).
Proof.
  revert data2. induction data1 as [|x data1 IH]; intros [|y data2]; try (exists 0; by split).
  cbn [length Nat.min memcmp lex]. destruct (Z.eqb_spec x y) as [-> |Hne]; cbn [negb].
  - rewrite Z.ltb_irrefl. destruct (IH data2) as (rc & -> & Hrc). exists rc. split; [done|].
    destruct (rc =? 0); [|done]. rewrite Hrc. by change (S ?n <? S ?m)%nat with (n <? m)%nat.
  - exists (x - y). split; [done|]. rewrite (proj2 (Z.eqb_neq (x - y) 0)) by lia. ztests; lia.
Qed.

Lemma collate_binary_lex data1 data2 :
  ∃ rc, ntfs_collate_binary data1 data2 = Ret rc ∧ Z.sgn rc = lex data1 data2.
Proof.
  unfold ntfs_collate_binary.
  replace (if (length data2 <? length data1)%nat then length data2 else length data1)
    with (min (length data1) (length data2)) by (ztests; lia).
  destruct (memcmp_lex data1 data2) as (rc & -> & Hrc). cbn [mbind outcome_bind].
  eexists. split; [done|]. destruct (Z.eqb_spec rc 0) as [Hz|]; cbn [andb]; [|done]. rewrite Hrc, Hz.
  destruct (Nat.eqb_spec (length data1) (length data2)), (Nat.ltb_spec (length data1) (length data2));
    cbn [negb]; try lia; ztests; lia.
Qed.

(** The 32-bit words of a key. *)
Fixpoint words (data : list Z) : list Z :=
  match data with
  | b0 :: b1 :: b2 :: b3 :: data =>
      (b0 + Z.shiftl b1 8 + Z.shiftl (b2 + Z.shiftl b3 8) 16) :: words data
  | _ => []
  end.

(** Binary collation is a total order of all byte strings. *)
Theorem ntfs_collate_binary_order data1 data2 :
  ∃ r12 r21, ntfs_collate_binary data1 data2 = Ret r12 ∧ ntfs_collate_binary data2 data1 = Ret r21 ∧
    Z.sgn r21 = - Z.sgn r12 ∧ (r12 = 0 ↔ data1 = data2) ∧
    ∀ data3, r12 ≤ 0 → (∃ r23, ntfs_collate_binary data2 data3 = Ret r23 ∧ r23 ≤ 0) →
      ∃ r13, ntfs_collate_binary data1 data3 = Ret r13 ∧ r13 ≤ 0.
Proof.
  destruct (collate_binary_lex data1 data2) as (r12 & E12 & H12).
  destruct (collate_binary_lex data2 data1) as (r21 & E21 & H21).
  exists r12, r21. split; [done|]. split; [done|]. split_and!.
  - rewrite H12, H21. apply lex_antisym.
  - rewrite <- lex_eq, <- H12. symmetry. apply Z.sgn_null_iff.
  - intros data3 Hr (r23 & E23 & Hr23). destruct (collate_binary_lex data1 data3) as (r13 & E13 & H13).
    exists r13. split; [done|]. destruct (collate_binary_lex data2 data3) as (r23' & E23' & H23).
    assert (r23' = r23) as -> by congruence. apply Z.sgn_nonpos. rewrite H13.
    apply (lex_trans _ data2); [rewrite <- H12|rewrite <- H23]; by apply Z.sgn_nonpos.
Qed.

(** ** The order of keys of 32-bit words *)

Lemma le32_at_cons data i b0 b1 b2 b3 :
  le32_at (b0 :: b1 :: b2 :: b3 :: data) (4 * S i) = le32_at data (4 * i).
Proof. replace (4 * S i)%nat with (4 + 4 * i)%nat by lia. done. Qed.

Lemma ulongs_loop_cons data1 data2 a0 a1 a2 a3 b0 b1 b2 b3 i n :
  ulongs_loop (a0 :: a1 :: a2 :: a3 :: data1) (b0 :: b1 :: b2 :: b3 :: data2) (S i) n =
    ulongs_loop data1 data2 i n.
Proof.
  revert i. induction n as [|n IH]; intros i; [done|]. cbn [ulongs_loop].
  rewrite !le32_at_cons. change (S i + 1)%nat with (S (i + 1)).
  destruct (le32_at data1 _) as [u1| |]; [|done..]. destruct (le32_at data2 _) as [u2| |]; [|done..].
  cbn [mbind outcome_bind]. by rewrite IH.
Qed.

(** Keys that consist of [n] words. *)
Lemma key_words n (data : list Z) :
  length data = (4 * S n)%nat → ∃ b0 b1 b2 b3 data', data = b0 :: b1 :: b2 :: b3 :: data' ∧
    length data' = (4 * n)%nat.
Proof.
  intros Hl. destruct data as [|b0 [|b1 [|b2 [|b3 data]]]]; simpl in Hl; try lia.
  exists b0, b1, b2, b3, data. split; [done|lia].
Qed.

Lemma ulongs_loop_lex n1 n2 data1 data2 :
  length data1 = (4 * n1)%nat → length data2 = (4 * n2)%nat →
  ∃ r, ulongs_loop data1 data2 0 (min n1 n2) = Ret r ∧
    lex (words data1) (words data2) =
      match r with
      | Some rc => rc
      | None => if (n1 <? n2)%nat then -1 else if (n1 =? n2)%nat then 0 else 1
      end.
Proof.
  revert n2 data1 data2. induction n1 as [|n1 IH]; intros [|n2] data1 data2 H1 H2.
  1-3: exists None; split; [done|].
  - apply nil_length_inv in H1 as ->, H2 as ->. done.
  - apply nil_length_inv in H1 as ->. by apply key_words in H2 as (b0 & b1 & b2 & b3 & d2 & -> & _).
  - apply nil_length_inv in H2 as ->. by apply key_words in H1 as (b0 & b1 & b2 & b3 & d1 & -> & _).
  - apply key_words in H1 as (a0 & a1 & a2 & a3 & d1 & -> & H1).
    apply key_words in H2 as (b0 & b1 & b2 & b3 & d2 & -> & H2).
    cbn [Nat.min ulongs_loop words lex]. change (0 + 1)%nat with 1%nat. rewrite ulongs_loop_cons.
    change (le32_at (a0 :: a1 :: a2 :: a3 :: d1) (4 * 0)) with
      (Ret (a0 + Z.shiftl a1 8 + Z.shiftl (a2 + Z.shiftl a3 8) 16)).
    change (le32_at (b0 :: b1 :: b2 :: b3 :: d2) (4 * 0)) with
      (Ret (b0 + Z.shiftl b1 8 + Z.shiftl (b2 + Z.shiftl b3 8) 16)).
    cbn [mbind outcome_bind]. set (u1 := a0 + _ + _). set (u2 := b0 + _ + _).
    destruct (Z.ltb_spec u2 u1), (Z.ltb_spec u1 u2); try lia; try (by eexists).
    destruct (IH n2 d1 d2 H1 H2) as (r & -> & Hr). exists r. split; [done|]. rewrite Hr.
    by change (S ?n <? S ?m)%nat with (n <? m)%nat.
Qed.

Lemma collate_ulongs_lex n1 n2 data1 data2 :
  length data1 = (4 * n1)%nat → length data2 = (4 * n2)%nat →
  ntfs_collate_ntofs_ulongs data1 data2 = Ret (lex (words data1) (words data2)).
Proof.
  intros H1 H2. unfold ntfs_collate_ntofs_ulongs. rewrite H1, H2.
  assert (∀ n, negb (Z.land (Z.of_nat (4 * n)) 3 =? 0) = false) as Hmod.
  { intros n. change 3 with (Z.ones 2). rewrite Z.land_ones by lia.
    rewrite Nat2Z.inj_mul, Z.mul_comm, Z.mod_mul by done. done. }
  rewrite !Hmod. replace (if (4 * n2 <? 4 * n1)%nat then _ else _) with (min n1 n2 * 4)%nat by (ztests; lia).
  rewrite Nat.div_mul by done.
  destruct (ulongs_loop_lex n1 n2 data1 data2 H1 H2) as (r & -> & Hr). cbn [mbind outcome_bind].
  destruct r as [rc|]; [by rewrite Hr|]. rewrite Hr. f_equal. ztests; lia.
Qed.

Lemma word_inj a0 a1 b0 b1 k :
  0 ≤ a0 < 2 ^ k → 0 ≤ b0 < 2 ^ k → 0 ≤ k →
  a0 + Z.shiftl a1 k = b0 + Z.shiftl b1 k → a0 = b0 ∧ a1 = b1.
Proof.
  intros Ha Hb Hk. rewrite !Z.shiftl_mul_pow2 by done. intros E.
  destruct (Z.div_mod_unique (2 ^ k) a1 b1 a0 b0) as [-> ->]; [by left..|lia|done].
Qed.

Lemma words_inj n1 n2 data1 data2 :
  length data1 = (4 * n1)%nat → length data2 = (4 * n2)%nat → bytes data1 → bytes data2 →
  words data1 = words data2 → data1 = data2.
Proof.
  revert n2 data1 data2. induction n1 as [|n1 IH]; intros [|n2] data1 data2 H1 H2 B1 B2 E.
  - by apply nil_length_inv in H1 as ->, H2 as ->.
  - apply nil_length_inv in H1 as ->. by apply key_words in H2 as (b0 & b1 & b2 & b3 & d2 & -> & _).
  - apply nil_length_inv in H2 as ->. by apply key_words in H1 as (b0 & b1 & b2 & b3 & d1 & -> & _).
  - apply key_words in H1 as (a0 & a1 & a2 & a3 & d1 & -> & H1).
    apply key_words in H2 as (b0 & b1 & b2 & b3 & d2 & -> & H2). cbn [words] in E.
    unfold bytes in *. rewrite !list.Forall_cons in B1, B2.
    destruct B1 as (? & ? & ? & ? & B1), B2 as (? & ? & ? & ? & B2).
    injection E as E0 E. apply word_inj in E0 as [E1 E2];
      [|rewrite Z.shiftl_mul_pow2 by lia; lia|rewrite Z.shiftl_mul_pow2 by lia; lia|lia].
    apply word_inj in E1 as [-> ->]; [|lia..]. apply word_inj in E2 as [-> ->]; [|lia..].
    by rewrite (IH n2 d1 d2).
Qed.

(** ** All rules *)

(** The keys that are compared one after the other. *)
Definition collate_keys (upcase : list Z) (cr : Z) (data : list Z) : list Z * list Z :=
  if cr =? COLLATION_FILENAME then
    match fn_name data with
    | Ret name => (ntfs_upcase_name name upcase, name)
    | _ => ([], [])
    end
  else if (cr =? COLLATION_BINARY) || (cr =? COLLATION_NTOFS_SID) then (data, [])
  else (words data, []).

(** The keys that the rule [cr] orders.  For file names these are names without the characters
    that [ntfs_collate_names] rejects, which the namespaces WIN32 and DOS exclude.  The namespace POSIX
    allows them; [collate_filename_rejected] says what the rule makes of such names. *)
Definition valid_key (upcase : list Z) (cr : Z) (data : list Z) : Prop :=
  (cr = COLLATION_FILENAME ∧ (sizeof_FILENAME_ATTR ≤ length data)%nat ∧
     ∃ name, fn_name data = Ret name ∧ legal_name upcase name) ∨
  cr = COLLATION_BINARY ∨ cr = COLLATION_NTOFS_SID ∨
  ((cr = COLLATION_NTOFS_ULONG ∨ cr = COLLATION_NTOFS_SECURITY_HASH ∨ cr = COLLATION_NTOFS_ULONGS) ∧
   bytes data ∧ ∃ n, length data = (4 * n)%nat).

(** Keys that the rule does not distinguish. *)
Definition same_key (cr : Z) (data1 data2 : list Z) : Prop :=
  if cr =? COLLATION_FILENAME then fn_name data1 = fn_name data2 else data1 = data2.

Lemma collate_filename_lex upcase data1 data2 :
  valid_key upcase COLLATION_FILENAME data1 → valid_key upcase COLLATION_FILENAME data2 →
  let '(a1, a2) := collate_keys upcase COLLATION_FILENAME data1 in
  let '(b1, b2) := collate_keys upcase COLLATION_FILENAME data2 in
  ntfs_collate_filename upcase data1 data2 = Ret (lex2 a1 a2 b1 b2).
Proof.
  intros [(_ & Hl1 & n1 & E1 & Hn1)|[?|[?|[[?|[?|?]] _]]]]; [|done..].
  intros [(_ & Hl2 & n2 & E2 & Hn2)|[?|[?|[[?|[?|?]] _]]]]; [|done..].
  unfold collate_keys. cbn [Z.eqb COLLATION_FILENAME Pos.eqb]. rewrite E1, E2.
  unfold ntfs_collate_filename. rewrite !(proj2 (Nat.ltb_ge _ _)), E1, E2 by done.
  cbn [mbind outcome_bind]. by rewrite !collate_names_lex.
Qed.

Lemma lex2_nil a b : lex2 a [] b [] = lex a b.
Proof. unfold lex2. simpl. by destruct (Z.eqb_spec (lex a b) 0) as [->|]. Qed.

(** Every rule compares its keys. *)
Lemma collate_lex upcase cr data1 data2 :
  valid_key upcase cr data1 → valid_key upcase cr data2 →
  ∃ rc, ntfs_collate upcase cr data1 data2 = Ret rc ∧
    let '(a1, a2) := collate_keys upcase cr data1 in
    let '(b1, b2) := collate_keys upcase cr data2 in
    Z.sgn rc = lex2 a1 a2 b1 b2.
Proof.
  intros H1 H2. destruct H1 as [H1|[-> |[-> |(Hcr & _ & n1 & Hn1)]]].
  - destruct H1 as (-> & H1). pose proof (collate_filename_lex upcase data1 data2) as Hf.
    specialize (Hf ltac:(by left) H2). destruct (collate_keys _ _ data1) as [a1 a2].
    destruct (collate_keys _ _ data2) as [b1 b2]. eexists. split; [exact Hf|].
    unfold lex2. by destruct (lex_range a1 b1) as [-> |[-> | ->]],
      (lex_range a2 b2) as [-> |[-> | ->]].
  - destruct (collate_binary_lex data1 data2) as (rc & E & Hrc). exists rc. split; [exact E|].
    cbn. by rewrite lex2_nil.
  - destruct (collate_binary_lex data1 data2) as (rc & E & Hrc). exists rc. split; [exact E|].
    cbn. by rewrite lex2_nil.
  - assert (∃ n2, length data2 = (4 * n2)%nat) as [n2 Hn2].
    { destruct H2 as [(-> & _)|[-> |[-> |(_ & _ & H2)]]]; [..|done]; by destruct Hcr as [?|[?|?]]. }
    exists (lex (words data1) (words data2)).
    pose proof (collate_ulongs_lex n1 n2 data1 data2 Hn1 Hn2) as E.
    destruct Hcr as [-> |[-> | ->]]; (split; [exact E|]); cbn; rewrite lex2_nil;
      by destruct (lex_range (words data1) (words data2)) as [-> |[-> | ->]].
Qed.

Lemma same_key_lex upcase cr data1 data2 :
  valid_key upcase cr data1 → valid_key upcase cr data2 →
  let '(a1, a2) := collate_keys upcase cr data1 in
  let '(b1, b2) := collate_keys upcase cr data2 in
  lex2 a1 a2 b1 b2 = 0 ↔ same_key cr data1 data2.
Proof.
  intros [(-> & _ & s1 & E1 & _)|[-> |[-> |(Hcr & B1 & n1 & Hn1)]]] H2; unfold same_key, collate_keys.
  - destruct H2 as [(_ & _ & s2 & E2 & _)|[?|[?|[[?|[?|?]] _]]]]; [|done..]. rewrite E1, E2. cbn.
    rewrite (lex2_eq (λ s, ntfs_upcase_name s upcase)). split; [by intros ->|by intros [=]].
  - cbn. rewrite lex2_nil. apply lex_eq.
  - cbn. rewrite lex2_nil. apply lex_eq.
  - assert (∃ n2, length data2 = (4 * n2)%nat ∧ bytes data2) as (n2 & Hn2 & B2).
    { destruct H2 as [(-> & _)|[-> |[-> |(_ & ? & n2 & H2)]]]; [..|by exists n2]; by destruct Hcr as [?|[?|?]]. }
    assert (words data1 = words data2 ↔ data1 = data2) as Hw.
    { split; [by eapply words_inj|by intros ->]. }
    destruct Hcr as [-> |[-> | ->]]; cbn; by rewrite lex2_nil, lex_eq.
Qed.

(** C38: every supported collation rule is a total order on its valid keys ([valid_key]: for the file name
    rule, keys that hold a name without the characters that [ntfs_collate_names] rejects; for the rules
    on 32 bit words, keys of whole words): comparisons return, are antisymmetric and transitive, and say
    equal exactly for the same key, or for the file name rule the same name. *)
Theorem ntfs_collate_total_order upcase cr data1 data2 data3 :
  valid_key upcase cr data1 → valid_key upcase cr data2 → valid_key upcase cr data3 →
  ∃ r12 r21 r23 r13, ntfs_collate upcase cr data1 data2 = Ret r12 ∧
    ntfs_collate upcase cr data2 data1 = Ret r21 ∧ ntfs_collate upcase cr data2 data3 = Ret r23 ∧
    ntfs_collate upcase cr data1 data3 = Ret r13 ∧
    Z.sgn r21 = - Z.sgn r12 ∧ (r12 = 0 ↔ same_key cr data1 data2) ∧ (r12 ≤ 0 → r23 ≤ 0 → r13 ≤ 0).
Proof.
  intros H1 H2 H3.
  destruct (collate_lex upcase cr data1 data2 H1 H2) as (r12 & E12 & S12).
  destruct (collate_lex upcase cr data2 data1 H2 H1) as (r21 & E21 & S21).
  destruct (collate_lex upcase cr data2 data3 H2 H3) as (r23 & E23 & S23).
  destruct (collate_lex upcase cr data1 data3 H1 H3) as (r13 & E13 & S13).
  pose proof (same_key_lex upcase cr data1 data2 H1 H2) as Hs.
  destruct (collate_keys upcase cr data1) as [a1 a2], (collate_keys upcase cr data2) as [b1 b2],
    (collate_keys upcase cr data3) as [c1 c2].
  exists r12, r21, r23, r13. split_and!; [done..| | |].
  - rewrite S12, S21. apply lex2_antisym.
  - rewrite <- Hs, <- S12. symmetry. apply Z.sgn_null_iff.
  - intros L12%Z.sgn_nonpos L23%Z.sgn_nonpos. apply Z.sgn_nonpos.
    rewrite S12 in L12. rewrite S23 in L23. rewrite S13. by eapply lex2_trans.
Qed.

Lemma ntfs_collate_total_order_witness :
  let cr := COLLATION_NTOFS_ULONGS in
  let data1 := [1; 0; 0; 0] in let data2 := [0; 1; 0; 0] in let data3 := [0; 1; 0; 0; 5; 0; 0; 0] in
  ∃ r12 r21 r23 r13, ntfs_collate [] cr data1 data2 = Ret r12 ∧
    ntfs_collate [] cr data2 data1 = Ret r21 ∧ ntfs_collate [] cr data2 data3 = Ret r23 ∧
    ntfs_collate [] cr data1 data3 = Ret r13 ∧
    Z.sgn r21 = - Z.sgn r12 ∧ (r12 = 0 ↔ same_key cr data1 data2) ∧ (r12 ≤ 0 → r23 ≤ 0 → r13 ≤ 0).
Proof.
  apply ntfs_collate_total_order; do 3 right;
    (split; [by do 2 right|]); (split; [by repeat (apply list.Forall_cons; split)|]);
    first [by exists 1%nat|by exists 2%nat].
Defined.

(** A name with a rejected character does not collate as equal to itself, so that the file name rule is
    no order on such names. *)
Lemma collate_names_self name err_val (case_sensitive : bool) upcase :
  ntfs_collate_names name name err_val case_sensitive upcase =
    if existsb (λ c, illegal_char (if case_sensitive then c else upcase_char upcase c)) name then err_val else 0.
Proof.
  induction name as [|c name IH]; [done|]. cbn [ntfs_collate_names existsb]. destruct case_sensitive; destruct (illegal_char _); try done; by rewrite Z.ltb_irrefl, IH.
Qed.

Lemma collate_filename_rejected upcase data name :
  (sizeof_FILENAME_ATTR ≤ length data)%nat → fn_name data = Ret name → ¬ legal_name upcase name →
  ntfs_collate upcase COLLATION_FILENAME data data = Ret 1.
Proof.
  intros Hl Hn Hbad. change (ntfs_collate upcase COLLATION_FILENAME data data) with (ntfs_collate_filename upcase data data).
  unfold ntfs_collate_filename. rewrite !(proj2 (Nat.ltb_ge _ _)), Hn by done. cbn [mbind outcome_bind]. rewrite !collate_names_self.
  destruct (existsb (λ c, illegal_char (upcase_char upcase c)) name) eqn:E1; [done|]. destruct (existsb (λ c, illegal_char c) name) eqn:E2; [done|].
  exfalso. apply Hbad. unfold legal_name. rewrite list.Forall_forall. intros c Hc%list_elem_of_In. split; apply not_true_iff_false; intros H.
  - apply not_true_iff_false in E2. apply E2, existsb_exists. by exists c.
  - apply not_true_iff_false in E1. apply E1, existsb_exists. by exists c.
Qed.

(** A file name with an asterisk. *)
Example wildcard_name_above_itself :
  let key := replicate 0x40 0 ++ [1; 0; 42; 0] in ntfs_collate [] COLLATION_FILENAME key key = Ret 1.
Proof. by vm_compute. Qed.

(** Any other collation rule panics. *)
Theorem ntfs_collate_unsupported upcase cr data1 data2 :
  0 ≤ cr < 2 ^ 32 → ¬ (∃ data, valid_key upcase cr data) → ntfs_collate upcase cr data1 data2 = Panic.
Proof.
  intros Hcr Hno. unfold ntfs_collate.
  assert (cr ≠ COLLATION_BINARY ∧ cr ≠ COLLATION_FILENAME ∧ cr ≠ COLLATION_NTOFS_SID ∧
    cr ≠ COLLATION_NTOFS_ULONG ∧ cr ≠ COLLATION_NTOFS_SECURITY_HASH ∧ cr ≠ COLLATION_NTOFS_ULONGS)
    as (N0 & N1 & N2 & N3 & N4 & N5).
  { unfold valid_key in Hno. split_and!; intros ->; apply Hno.
    2: { exists (replicate 0x42 0). left. split_and!; [done|by vm_compute; lia|].
      exists []. split; [by vm_compute|constructor]. }
    all: exists []; right; first [by left|right; first [by left|right; split; [tauto|]; split; [constructor|by exists 0%nat]]]. }
  unfold COLLATION_BINARY, COLLATION_FILENAME, COLLATION_NTOFS_SID, COLLATION_NTOFS_ULONG,
    COLLATION_NTOFS_SECURITY_HASH, COLLATION_NTOFS_ULONGS, COLLATION_UNICODE_STRING in *.
  assert (s32 cr = cr ∨ s32 cr < 0) as [-> |Hneg].
  { unfold swrap. change (2 ^ (32 - 1)) with 2147483648. change (2 ^ 32) with 4294967296 in *.
    clear -Hcr. destruct (decide (cr < 2147483648)); [left|right]; zdiv. }
  - destruct (Z.eqb_spec cr 2); [done|]. ztests; done || lia.
  - case_match; [done|]. by rewrite (proj2 (Z.ltb_lt _ _)).
Qed.

(** ** The order of the keys of an index *)

(** How the rule [cr] compares two keys: -1, 0 or 1. *)
Definition key_cmp (upcase : list Z) (cr : Z) (data1 data2 : list Z) : Z :=
  let '(a1, a2) := collate_keys upcase cr data1 in
  let '(b1, b2) := collate_keys upcase cr data2 in
  lex2 a1 a2 b1 b2.

Section key_order.
Context (upcase : list Z) (cr : Z).
Abbreviation cmp := (key_cmp upcase cr).

Lemma key_cmp_range data1 data2 : cmp data1 data2 = -1 ∨ cmp data1 data2 = 0 ∨ cmp data1 data2 = 1.
Proof. unfold key_cmp, lex2. repeat case_match; apply lex_range. Qed.

Lemma key_cmp_antisym data1 data2 : cmp data2 data1 = - cmp data1 data2.
Proof. unfold key_cmp. destruct (collate_keys _ _ data1), (collate_keys _ _ data2). apply lex2_antisym. Qed.

Lemma key_cmp_trans data1 data2 data3 : cmp data1 data2 ≤ 0 → cmp data2 data3 ≤ 0 → cmp data1 data3 ≤ 0.
Proof.
  unfold key_cmp. destruct (collate_keys _ _ data1), (collate_keys _ _ data2), (collate_keys _ _ data3). apply lex2_trans.
Qed.

Lemma key_cmp_trans_lt data1 data2 data3 : cmp data1 data2 < 0 → cmp data2 data3 ≤ 0 → cmp data1 data3 < 0.
Proof.
  intros H1 H2. pose proof (key_cmp_trans data1 data2 data3 ltac:(lia) H2) as H3.
  destruct (decide (cmp data1 data3 = 0)) as [E|]; [|lia].
  pose proof (key_cmp_antisym data1 data3). pose proof (key_cmp_antisym data1 data2).
  pose proof (key_cmp_trans data2 data3 data1 H2 ltac:(lia)). lia.
Qed.

Lemma key_cmp_trans_lt' data1 data2 data3 : cmp data1 data2 ≤ 0 → cmp data2 data3 < 0 → cmp data1 data3 < 0.
Proof.
  intros H1 H2. pose proof (key_cmp_antisym data1 data2). pose proof (key_cmp_antisym data2 data3).
  pose proof (key_cmp_antisym data1 data3). destruct (decide (cmp data3 data1 ≤ 0)) as [E|]; [|lia].
  pose proof (key_cmp_trans data3 data1 data2 E H1). lia.
Qed.

(** The rules other than the binary ones return the result of the comparison itself. *)
Lemma collate_cmp data1 data2 :
  cr ≠ COLLATION_BINARY → cr ≠ COLLATION_NTOFS_SID → valid_key upcase cr data1 → valid_key upcase cr data2 →
  ntfs_collate upcase cr data1 data2 = Ret (cmp data1 data2).
Proof.
  intros N1 N2 [(-> & H1)|[?|[?|(Hcr & B1 & n1 & Hn1)]]] H2; [|done..|].
  - pose proof (collate_filename_lex upcase data1 data2 ltac:(by left) H2) as H. unfold key_cmp.
    destruct (collate_keys _ _ data1), (collate_keys _ _ data2). exact H.
  - destruct H2 as [(-> & _)|[?|[?|(_ & _ & n2 & Hn2)]]]; [by destruct Hcr as [?|[?|?]]|done..|].
    pose proof (collate_ulongs_lex n1 n2 data1 data2 Hn1 Hn2) as E. unfold key_cmp, collate_keys.
    destruct Hcr as [-> |[-> | ->]]; cbn; rewrite lex2_nil; exact E.
Qed.
End key_order.
