(* ===== verification/Time.v ===== *)
(** * Time stamps

    [kext/ntfs_time.h]: conversion between the time of the kernel (seconds and
    nanoseconds since 1970) and that of NTFS (units of 100 nanoseconds since
    1601). *)

From S2P Require Import Prelude.

(** [struct timespec]. *)
Record timespec := mk_ts { tv_sec : Z; tv_nsec : Z }.

Definition NTFS_TIME_OFFSET : Z := s64 (369 * 365 + 89) * 24 * 3600 * 10000000.

(** ** Operations *)

(** [/] and [%] of C truncate: [Z.quot] and [Z.rem]. *)
Definition utc2ntfs (ts : timespec) : Z :=
  s64 (tv_sec ts * 10000000 + Z.quot (tv_nsec ts) 100 + NTFS_TIME_OFFSET).

(** The clock [nanotime] is a parameter. *)
Definition ntfs_utc_current_time (nanotime : timespec) : timespec :=
  mk_ts (tv_sec nanotime) (tv_nsec nanotime - Z.rem (tv_nsec nanotime) 100).

Definition ntfs_current_time (nanotime : timespec) : Z := utc2ntfs nanotime.

Definition ntfs2utc (time : Z) : timespec :=
  let t := u64 (time - NTFS_TIME_OFFSET) in
  mk_ts (t / 10000000) ((t mod 10000000) * 100).

(** ** Specifications *)

(** A normalized time from 1970 on that NTFS can represent. *)
Definition ts_ok (ts : timespec) : Prop :=
  0 ≤ tv_nsec ts < 1000000000 ∧ 0 ≤ tv_sec ts ∧
  tv_sec ts * 10000000 + 10000000 + NTFS_TIME_OFFSET < 2 ^ 63.

Lemma utc2ntfs_eq ts :
  ts_ok ts → utc2ntfs ts = tv_sec ts * 10000000 + tv_nsec ts / 100 + NTFS_TIME_OFFSET.
Proof.
  intros (Hn & Hs & Hmax). unfold utc2ntfs. rewrite Z.quot_div_nonneg by lia.
  change NTFS_TIME_OFFSET with 116444736000000000 in *. rewrite swrap_id; [done|lia|]. zdiv.
Qed.

(** The units of 100 nanoseconds of a time. *)
Lemma ntfs2utc_eq s u :
  0 ≤ s → 0 ≤ u < 10000000 → s * 10000000 + u < 2 ^ 64 →
  ntfs2utc (s * 10000000 + u + NTFS_TIME_OFFSET) = mk_ts s (u * 100).
Proof.
  intros Hs Hu Hmax. unfold ntfs2utc. rewrite uwrap_id by lia.
  replace (s * 10000000 + u + NTFS_TIME_OFFSET - NTFS_TIME_OFFSET) with (s * 10000000 + u) by lia.
  f_equal; zdiv.
Qed.

(** A time from 1970 on that NTFS can represent survives the conversion to NTFS time and back,
    up to the resolution of 100 nanoseconds, which is also that of [ntfs_utc_current_time]. *)
Theorem ntfs2utc_utc2ntfs ts :
  ts_ok ts → ntfs2utc (utc2ntfs ts) = ntfs_utc_current_time ts.
Proof.
  intros Hts. rewrite utc2ntfs_eq by done. destruct Hts as (Hn & Hs & Hmax).
  change NTFS_TIME_OFFSET with 116444736000000000 in Hmax.
  rewrite ntfs2utc_eq by zdiv. unfold ntfs_utc_current_time. f_equal.
  rewrite Z.rem_mod_nonneg by lia. zdiv.
Qed.

(** An NTFS time from 1970 on survives the conversion to UTC and back exactly. *)
Theorem utc2ntfs_ntfs2utc time :
  NTFS_TIME_OFFSET ≤ time → time + 10000000 < 2 ^ 63 → utc2ntfs (ntfs2utc time) = time.
Proof.
  intros H1 H2. set (t := time - NTFS_TIME_OFFSET).
  assert (0 ≤ NTFS_TIME_OFFSET) by done.
  assert (time = t / 10000000 * 10000000 + t mod 10000000 + NTFS_TIME_OFFSET) as E by (unfold t; zdiv).
  assert (0 ≤ t) by (unfold t; lia). assert (t < 2 ^ 63) by (unfold t; lia).
  rewrite E at 1. rewrite ntfs2utc_eq by zdiv. rewrite utc2ntfs_eq.
  - cbn [tv_sec tv_nsec]. rewrite Z.div_mul by done. done.
  - unfold ts_ok. cbn [tv_sec tv_nsec]. change NTFS_TIME_OFFSET with 116444736000000000 in *. zdiv.
Qed.

Lemma utc2ntfs_ntfs2utc_witness : utc2ntfs (ntfs2utc 133500000001234567) = 133500000001234567.
Proof. apply utc2ntfs_ntfs2utc; by vm_compute. Defined.

(** A time before 1970 is converted as an unsigned number: it appears to be more than
    57000 years in the future. *)
Theorem ntfs2utc_before_1970 time :
  0 ≤ time < NTFS_TIME_OFFSET → tv_sec (ntfs2utc time) > 1800000000000.
Proof.
  change NTFS_TIME_OFFSET with 116444736000000000. intros Ht. unfold ntfs2utc, uwrap. cbn [tv_sec].
  change NTFS_TIME_OFFSET with 116444736000000000. change (2 ^ 64) with 18446744073709551616. zdiv.
Qed.

(** The order of times is kept. *)
Lemma utc2ntfs_mono ts ts' :
  ts_ok ts → ts_ok ts' → tv_sec ts < tv_sec ts' → utc2ntfs ts < utc2ntfs ts'.
Proof.
  intros H H' Hlt. rewrite !utc2ntfs_eq by done. unfold ts_ok in *. zdiv.
Qed.
