(* ===== verification/Boot.v ===== *)
(** * Mounting: the boot sector

    The checks and the parser of the boot sector and the initial state of the
    allocators, from [kext/ntfs_vfsops.c].  They establish the geometry of the volume
    that the other components rely on. *)

From S2P Require Import Prelude Bytes Volume.

(** ** Data *)

Definition magicNTFS : Z := 0x202020205346544e.
Definition NTFS_MAX_SECTOR_SIZE : Z := 4096.
Definition NTFS_MAX_CLUSTER_SIZE : Z := 64 * 1024.

(** Offsets of the fields of [NTFS_BOOT_SECTOR] and of the [BIOS_PARAMETER_BLOCK]
    inside it. *)
Definition ofs_oem_id : nat := 0x03.
Definition ofs_bytes_per_sector : nat := 0x0b.
Definition ofs_sectors_per_cluster : nat := 0x0d.
Definition ofs_reserved_sectors : nat := 0x0e.
Definition ofs_fats : nat := 0x10.
Definition ofs_root_entries : nat := 0x11.
Definition ofs_sectors : nat := 0x13.
Definition ofs_sectors_per_fat : nat := 0x16.
Definition ofs_large_sectors : nat := 0x20.
Definition ofs_number_of_sectors : nat := 0x28.
Definition ofs_mft_lcn : nat := 0x30.
Definition ofs_mftmirr_lcn : nat := 0x38.
Definition ofs_clusters_per_mft_record : nat := 0x40.
Definition ofs_clusters_per_index_block : nat := 0x44.
Definition ofs_volume_serial_number : nat := 0x48.
Definition ofs_checksum : nat := 0x50.
Definition ofs_end_of_sector_marker : nat := 0x1fe.

(** The fields of [ntfs_volume] that are set from the boot sector. *)
Record boot_volume := mk_boot_volume {
  bv_geo : ntfs_volume;
  mft_record_size : Z;
  mft_record_size_mask : Z;
  mft_record_size_shift : Z;
  mft_records_per_sector_mask : Z;
  blocks_per_index_block : Z;
  index_block_size : Z;
  index_block_size_mask : Z;
  index_block_size_shift : Z;
  nr_clusters : Z;
  mft_lcn : Z;
  mftmirr_lcn : Z;
  mftmirr_size : Z;
  serial_no : Z
}.

(** The fields of the allocators. *)
Record zones := mk_zones {
  mft_data_pos : Z;
  mft_zone_start : Z;
  mft_zone_end : Z;
  mft_zone_pos : Z;
  data1_zone_pos : Z;
  data2_zone_pos : Z
}.

(** ** The check *)

Inductive boot_warning := invalid_checksum | invalid_marker.

(** The sum of the [n] words from the offset [i] on. *)
Fixpoint boot_checksum (n : nat) (b : list Z) (i : nat) (sum : Z) : outcome Z :=
  match n with
  | O => Ret sum
  | S n => x ← le32_at b i; boot_checksum n b (i + 4) (u32 (sum + x))
  end.

Definition checksum_warning (b : list Z) : outcome (list boot_warning) :=
  c ← le32_at b ofs_checksum;
  if c =? 0 then Ret [] else
  i ← boot_checksum (ofs_checksum / 4) b 0 0;
  Ret (if c =? i then [] else [invalid_checksum]).

(** [switch (c) { case 1: case 2: ... }]. *)
Definition valid_sectors_per_cluster (c : Z) : bool := existsb (Z.eqb c) [1; 2; 4; 8; 16; 32; 64; 128].

(** The check of [clusters_per_mft_record] and [clusters_per_index_block]; [c] is the
    byte. *)
Definition valid_clusters_per (c : Z) : bool :=
  negb ((c <? 0xe1) || (0xf7 <? c)) || existsb (Z.eqb (s8 c)) [1; 2; 4; 8; 16; 32; 64].

(** The reserved fields are zero. *)
Definition reserved_zero (b : list Z) : outcome bool :=
  r ← le16_at b ofs_reserved_sectors;
  e ← le16_at b ofs_root_entries;
  s ← le16_at b ofs_sectors;
  f ← le16_at b ofs_sectors_per_fat;
  l ← le32_at b ofs_large_sectors;
  n ← rd b ofs_fats;
  Ret (forallb (Z.eqb 0) [r; e; s; f; l; n]).

Definition ntfs_boot_sector_is_valid (b : list Z) : outcome (bool * list boot_warning) :=
  w ← checksum_warning b;
  oem ← le64_at b ofs_oem_id;
  if negb (oem =? magicNTFS) then Ret (false, w) else
  bps ← le16_at b ofs_bytes_per_sector;
  if (bps <? 0x100) || (NTFS_MAX_SECTOR_SIZE <? bps) then Ret (false, w) else
  spc ← rd b ofs_sectors_per_cluster;
  if negb (valid_sectors_per_cluster spc) then Ret (false, w) else
  if NTFS_MAX_CLUSTER_SIZE <? u32 (bps * spc) then Ret (false, w) else
  z ← reserved_zero b;
  if negb z then Ret (false, w) else
  cm ← rd b ofs_clusters_per_mft_record;
  if negb (valid_clusters_per cm) then Ret (false, w) else
  ci ← rd b ofs_clusters_per_index_block;
  if negb (valid_clusters_per ci) then Ret (false, w) else
  m ← le16_at b ofs_end_of_sector_marker;
  Ret (true, w ++ (if m =? 0xaa55 then [] else [invalid_marker])).

(** ** The parser *)

(** [ffs]: one plus the number of trailing zero bits. *)
Fixpoint ctz (n : positive) : Z :=
  match n with xO n => 1 + ctz n | _ => 0 end.
Definition ffs (mask : Z) : Z :=
  match mask with Zpos n => 1 + ctz n | _ => 0 end.

(** The sizes of sectors and clusters. *)
Definition parse_geometry (devblocksize : Z) (b : list Z) : outcome (Z + ntfs_volume * Z) :=
  bps ← le16_at b ofs_bytes_per_sector;
  if bps <? devblocksize then Ret (inl ENOTSUP) else
  spc ← rd b ofs_sectors_per_cluster;
  let shift := ffs spc - 1 in
  let cs := u32 (Z.shiftl bps shift) in
  if cs <? bps then Ret (inl ENOTSUP) else
  Ret (inr (mk_volume bps (u32 (bps - 1)) (u8 (ffs bps - 1)) cs (u32 (cs - 1)) (u8 (ffs cs - 1)), shift)).

(** The size of an mft record or an index block, which is given by the byte [c]. *)
Definition block_size_of (cluster_size c : Z) : Z :=
  if 0 <? s8 c then u32 (cluster_size * s8 c) else u32 (Z.shiftl 1 (- s8 c)).

(** [mft_records_per_sector_mask]. *)
Definition records_per_sector (geo : ntfs_volume) (size shift : Z) : Z :=
  if sector_size geo <=? size then 0 else u64 (Z.shiftl 1 (sector_size_shift geo - shift) - 1).

(** The size of the volume and the locations of the mft and its mirror. *)
Definition parse_locations (b : list Z) (sectors_per_cluster_shift : Z) : outcome (Z + Z * Z * Z) :=
  n ← le64_at b ofs_number_of_sectors;
  let ll := Z.shiftr (s64 n) sectors_per_cluster_shift in
  if 2 ^ 32 <=? u64 ll then Ret (inl EINVAL) else
  m ← le64_at b ofs_mft_lcn;
  if ll <=? s64 m then Ret (inl EINVAL) else
  mm ← le64_at b ofs_mftmirr_lcn;
  if ll <=? s64 mm then Ret (inl EINVAL) else
  Ret (inr (ll, s64 m, s64 mm)).

(** The error, or the fields of the volume.  [page_size] is [PAGE_SIZE] and
    [devblocksize] what [vfs_devblocksize] returns. *)
Definition ntfs_boot_sector_parse (page_size devblocksize : Z) (b : list Z) : outcome (Z + boot_volume) :=
  r ← parse_geometry devblocksize b;
  match r with
  | inl err => Ret (inl err)
  | inr (geo, spc_shift) =>
      cm ← rd b ofs_clusters_per_mft_record;
      let rs := block_size_of (cluster_size geo) cm in
      let rs_shift := u8 (ffs rs - 1) in
      if page_size <? rs then Ret (inl ENOTSUP) else
      ci ← rd b ofs_clusters_per_index_block;
      let ibs := block_size_of (cluster_size geo) ci in
      let bpi := if 0 <? s8 ci then u8 (s8 ci) else u8 (ibs / sector_size geo) in
      if ibs <? sector_size geo then Ret (inl ENOTSUP) else
      l ← parse_locations b spc_shift;
      match l with
      | inl err => Ret (inl err)
      | inr (clusters, mft, mirr) =>
          serial ← le64_at b ofs_volume_serial_number;
          Ret (inr (mk_boot_volume geo rs (u32 (rs - 1)) rs_shift (records_per_sector geo rs rs_shift)
            bpi ibs (u32 (ibs - 1)) (u8 (ffs ibs - 1)) clusters mft mirr 4 serial))
      end
  end.

(** ** The allocators *)

(** The size of the mft zone before it is capped. *)
Definition mft_zone_size (multiplier clusters : Z) : Z :=
  if multiplier =? 4 then Z.shiftr clusters 1
  else if multiplier =? 3 then Z.shiftr (clusters + Z.shiftr clusters 1) 2
  else if multiplier =? 2 then Z.shiftr clusters 2
  else Z.shiftr clusters 3.

(** [while (mft_zone_end >= nr_clusters)]; [None]: not finished after [fuel] rounds. *)
Fixpoint cap_zone (fuel : nat) (lcn clusters size : Z) : option Z :=
  match fuel with
  | O => None
  | S fuel =>
      if clusters <=? lcn + size then cap_zone fuel lcn clusters (Z.shiftr size 1)
      else Some (lcn + size)
  end.

(** The location of the mft on a fresh volume. *)
Definition default_mft_lcn (cs : Z) : Z :=
  let l := u32 (8192 + 2 * cs - 1) / cs in
  if l * cs <? 16 * 1024 then u32 (16 * 1024 + cs - 1) / cs else l.

Definition ntfs_setup_allocators (fuel : nat) (multiplier : Z) (v : boot_volume) : option zones :=
  let start := if mft_lcn v <=? default_mft_lcn (cluster_size (bv_geo v)) then 0 else mft_lcn v in
  fin ← cap_zone fuel (mft_lcn v) (nr_clusters v) (mft_zone_size multiplier (nr_clusters v));
  Some (mk_zones 24 start fin (mft_lcn v) fin 0).

(** ** Powers of two *)

Lemma ffs_double n : 0 < n → ffs (2 * n) = 1 + ffs n.
Proof. by destruct n. Qed.

Lemma ffs_pow2 k : 0 ≤ k → ffs (2 ^ k) = k + 1.
Proof.
  intros Hk. pattern k. apply natlike_ind; [done| |done]. intros x Hx IH.
  rewrite Z.pow_succ_r, ffs_double, IH by (done || lia). lia.
Qed.

(** The fields [size], [mask] and [shift] agree with each other. *)
Definition size_ok (size mask shift : Z) : Prop :=
  0 ≤ shift < 32 ∧ size = 2 ^ shift ∧ mask = size - 1.

Lemma size_ok_pow2 k : 0 ≤ k < 32 → size_ok (2 ^ k) (u32 (2 ^ k - 1)) (u8 (ffs (2 ^ k) - 1)).
Proof.
  intros Hk. assert (0 < 2 ^ k < 2 ^ 32) by (split; [apply Z.pow_pos_nonneg|apply Z.pow_lt_mono_r]; lia).
  rewrite ffs_pow2, !uwrap_id by (change (2 ^ 8) with 256; lia).
  replace (k + 1 - 1) with k by lia. done.
Qed.

Lemma valid_spc_pow2 c : valid_sectors_per_cluster c = true → ∃ t, 0 ≤ t ≤ 7 ∧ c = 2 ^ t.
Proof.
  intros H. apply existsb_exists in H as (x & Hx & ->%Z.eqb_eq). simpl in Hx.
  repeat (destruct Hx as [<-|Hx]); [by exists 0|by exists 1|by exists 2|by exists 3|by exists 4|by exists 5
    |by exists 6|by exists 7|done].
Qed.

(** Valid sizes of mft records and index blocks are powers of two. *)
Lemma block_size_of_pow2 k c :
  0 ≤ k ≤ 16 → 0 ≤ c < 256 → valid_clusters_per c = true → ∃ i, 0 ≤ i < 32 ∧ block_size_of (2 ^ k) c = 2 ^ i.
Proof.
  intros Hk Hc [H|H]%orb_prop; unfold block_size_of.
  - apply negb_true_iff, orb_false_elim in H as [H1%Z.ltb_ge H2%Z.ltb_ge].
    assert (s8 c = c - 256) as -> by (unfold swrap; zdiv). rewrite (proj2 (Z.ltb_ge _ _)) by lia.
    exists (256 - c). split; [lia|]. rewrite Z.shiftl_mul_pow2, Z.mul_1_l by lia.
    replace (- (c - 256)) with (256 - c) by lia.
    apply uwrap_id. split; [by apply Z.pow_nonneg|apply Z.pow_lt_mono_r; lia].
  - assert (∃ j, 0 ≤ j ≤ 6 ∧ s8 c = 2 ^ j) as (j & Hj & ->).
    { apply existsb_exists in H as (x & Hx & ->%Z.eqb_eq). simpl in Hx.
      repeat (destruct Hx as [<-|Hx]); [by exists 0|by exists 1|by exists 2|by exists 3|by exists 4|by exists 5
        |by exists 6|done]. }
    rewrite (proj2 (Z.ltb_lt _ _)) by (apply Z.pow_pos_nonneg; lia). exists (k + j). split; [lia|].
    rewrite <- Z.pow_add_r by lia. apply uwrap_id. split; [by apply Z.pow_nonneg|apply Z.pow_lt_mono_r; lia].
Qed.

(** ** The geometry *)

(** What the rest of the driver relies on. *)
Record geometry_ok (page_size : Z) (v : boot_volume) : Prop := {
  go_vol : vol_ok (bv_geo v);
  go_sector : 256 ≤ sector_size (bv_geo v) ≤ NTFS_MAX_SECTOR_SIZE;
  go_cluster : cluster_size (bv_geo v) ≤ NTFS_MAX_CLUSTER_SIZE;
  go_mft : size_ok (mft_record_size v) (mft_record_size_mask v) (mft_record_size_shift v);
  go_mft_page : mft_record_size v ≤ page_size;
  go_mft_mask : (mft_records_per_sector_mask v + 1) * mft_record_size v =
    Z.max (sector_size (bv_geo v)) (mft_record_size v);
  go_index : size_ok (index_block_size v) (index_block_size_mask v) (index_block_size_shift v);
  go_index_sector : sector_size (bv_geo v) ≤ index_block_size v;
  go_clusters : 0 ≤ nr_clusters v < 2 ^ 32;
  go_mft_lcn : mft_lcn v < nr_clusters v;
  go_mftmirr_lcn : mftmirr_lcn v < nr_clusters v
}.

Lemma parse_locations_runs b sh :
  bytes b → length b = 512%nat → 0 ≤ sh →
  runs (parse_locations b sh) (λ r, match r with
    | inl err => err = EINVAL
    | inr (n, m, mm) => 0 ≤ n < 2 ^ 32 ∧ m < n ∧ mm < n
    end).
Proof.
  intros Hb Hl Hsh. unfold parse_locations.
  eapply runs_bind; [apply le64_runs; [done|rewrite Hl; vm_compute; lia]|]. intros n _.
  case_match eqn:H1; [by apply runs_Ret|]. apply Z.leb_gt in H1.
  eapply runs_bind; [apply le64_runs; [done|rewrite Hl; vm_compute; lia]|]. intros m _.
  destruct (Z.leb_spec (Z.shiftr (s64 n) sh) (s64 m)); [by apply runs_Ret|].
  eapply runs_bind; [apply le64_runs; [done|rewrite Hl; vm_compute; lia]|]. intros mm _.
  destruct (Z.leb_spec (Z.shiftr (s64 n) sh) (s64 mm)); [by apply runs_Ret|]. apply runs_Ret.
  split; [|done]. pose proof (swrap_range 64 n ltac:(lia)) as Hn. set (ll := Z.shiftr (s64 n) sh) in *.
  assert (- 2 ^ 63 ≤ ll < 2 ^ 63) as Hll.
  { unfold ll. rewrite Z.shiftr_div_pow2 by done. assert (0 < 2 ^ sh) by (apply Z.pow_pos_nonneg; lia).
    change (64 - 1) with 63 in Hn. split; [apply Z.div_le_lower_bound|apply Z.div_lt_upper_bound]; nia. }
  unfold uwrap in H1. destruct (Z_lt_le_dec ll 0); [|rewrite Z.mod_small in H1; lia].
  replace (ll mod 2 ^ 64) with (ll + 2 ^ 64) in H1; [lia|]. symmetry. zdiv.
Qed.

(** What a successful check says. *)
Record boot_fields (b : list Z) (bps spc cm ci : Z) : Prop := {
  bf_bps : le16_at b ofs_bytes_per_sector = Ret bps;
  bf_bps_range : 256 ≤ bps ≤ NTFS_MAX_SECTOR_SIZE;
  bf_spc : rd b ofs_sectors_per_cluster = Ret spc;
  bf_spc_valid : valid_sectors_per_cluster spc = true;
  bf_cluster : u32 (bps * spc) ≤ NTFS_MAX_CLUSTER_SIZE;
  bf_cm : rd b ofs_clusters_per_mft_record = Ret cm;
  bf_cm_valid : valid_clusters_per cm = true;
  bf_ci : rd b ofs_clusters_per_index_block = Ret ci;
  bf_ci_valid : valid_clusters_per ci = true
}.

Lemma is_valid_fields b w :
  ntfs_boot_sector_is_valid b = Ret (true, w) → ∃ bps spc cm ci, boot_fields b bps spc cm ci.
Proof.
  unfold ntfs_boot_sector_is_valid. intros H.
  apply bind_Ret_inv in H as (w0 & _ & H). apply bind_Ret_inv in H as (oem & _ & H).
  case_match; [done|]. apply bind_Ret_inv in H as (bps & F1 & H). case_match eqn:Hr; [done|].
  apply bind_Ret_inv in H as (spc & F2 & H). case_match eqn:Hs; [done|]. case_match eqn:Hc; [done|].
  apply bind_Ret_inv in H as (z & _ & H). case_match; [done|].
  apply bind_Ret_inv in H as (cm & F3 & H). case_match eqn:Hm; [done|].
  apply bind_Ret_inv in H as (ci & F4 & H). case_match eqn:Hi; [done|].
  apply orb_false_elim in Hr as [Hr1%Z.ltb_ge Hr2%Z.ltb_ge]. apply negb_false_iff in Hs, Hm, Hi.
  apply Z.ltb_ge in Hc. by exists bps, spc, cm, ci.
Qed.

Lemma records_per_sector_ok s c i :
  0 ≤ s → 0 ≤ i → s - i < 64 →
  (records_per_sector (volume_of s c) (2 ^ i) i + 1) * 2 ^ i = Z.max (2 ^ s) (2 ^ i).
Proof.
  intros Hs Hi H64. unfold records_per_sector. cbn [sector_size sector_size_shift volume_of].
  destruct (Z.leb_spec (2 ^ s) (2 ^ i)); [lia|].
  assert (i < s) by (apply (Z.pow_lt_mono_r_iff 2); lia). rewrite Z.shiftl_mul_pow2, Z.mul_1_l by lia.
  assert (0 < 2 ^ (s - i)) by (apply Z.pow_pos_nonneg; lia).
  assert (2 ^ (s - i) < 2 ^ 64) by (apply Z.pow_lt_mono_r; lia).
  rewrite uwrap_id, Z.sub_add, <- Z.pow_add_r by lia. replace (s - i + i) with s by lia. lia.
Qed.

(** The sizes of sectors and clusters, when the sector size is a power of two. *)
Lemma parse_geometry_eq dev b bps spc cm ci s :
  boot_fields b bps spc cm ci → bps = 2 ^ s → 0 ≤ s →
  ∃ t, 0 ≤ t ≤ 7 ∧ 8 ≤ s ∧ s + t ≤ 16 ∧ parse_geometry dev b =
    Ret (if 2 ^ s <? dev then inl ENOTSUP else inr (volume_of s (s + t), t)).
Proof.
  intros [H1 Hr H2 Hs Hc _ _ _ _] -> H0. destruct (valid_spc_pow2 _ Hs) as (t & Ht & ->). exists t.
  unfold NTFS_MAX_SECTOR_SIZE, NTFS_MAX_CLUSTER_SIZE in *.
  assert (8 ≤ s) by (apply (Z.pow_le_mono_r_iff 2); lia). assert (s ≤ 12) by (apply (Z.pow_le_mono_r_iff 2); lia).
  assert (0 < 2 ^ t ≤ 2 ^ 7) by (split; [apply Z.pow_pos_nonneg|apply Z.pow_le_mono_r]; lia).
  rewrite uwrap_id, <- Z.pow_add_r in Hc by (change (2 ^ 7) with 128 in *; nia).
  assert (s + t ≤ 16) by (apply (Z.pow_le_mono_r_iff 2); lia). split_and!; [lia..|].
  unfold parse_geometry. rewrite H1. cbn [mbind outcome_bind]. case_match; [done|].
  rewrite H2. cbn [mbind outcome_bind]. rewrite (ffs_pow2 t) by lia. replace (t + 1 - 1) with t by lia.
  rewrite Z.shiftl_mul_pow2, <- Z.pow_add_r by lia.
  assert (2 ^ (s + t) < 2 ^ 32) by (apply Z.pow_lt_mono_r; lia). rewrite (uwrap_id 32 (2 ^ (s + t))) by lia.
  assert (2 ^ s ≤ 2 ^ (s + t)) by (apply Z.pow_le_mono_r; lia). rewrite (proj2 (Z.ltb_ge _ _)) by lia.
  destruct (size_ok_pow2 s) as (_ & _ & ->); [lia|]. destruct (size_ok_pow2 (s + t)) as (_ & _ & ->); [lia|].
  rewrite !ffs_pow2, !uwrap_id by (change (2 ^ 8) with 256; lia).
  replace (s + 1 - 1) with s by lia. by replace (s + t + 1 - 1) with (s + t) by lia.
Qed.

(** C39: a boot sector that passes the check, and whose sector size is a power of two, is either
    rejected as invalid or unsupported, or gives a consistent geometry: every size is the power of
    two of its shift with the right mask, clusters are made of whole sectors and mft records fit
    pages, and the mft and its mirror lie before the end of the volume. *)
Theorem ntfs_boot_sector_parse_spec page_size dev b w s :
  bytes b → length b = 512%nat → ntfs_boot_sector_is_valid b = Ret (true, w) →
  le16_at b ofs_bytes_per_sector = Ret (2 ^ s) → 0 ≤ s →
  runs (ntfs_boot_sector_parse page_size dev b) (λ r, match r with
    | inl err => err = ENOTSUP ∨ err = EINVAL
    | inr v => geometry_ok page_size v
    end).
Proof.
  intros Hb Hl Hv Hs H0. destruct (is_valid_fields b w Hv) as (bps & spc & cm & ci & Hf).
  pose proof (bf_bps _ _ _ _ _ Hf) as E. rewrite Hs in E. injection E as <-.
  destruct (parse_geometry_eq dev b _ spc cm ci s Hf eq_refl H0) as (t & Ht & Hs8 & Hst & Hg).
  destruct Hf as [_ Hr _ _ _ Hm Hmv Hi Hiv]. unfold ntfs_boot_sector_parse. rewrite Hg. cbn [mbind outcome_bind].
  case_match; [apply runs_Ret; by left|]. rewrite Hm. cbn [mbind outcome_bind cluster_size volume_of].
  assert (∀ i x, rd b i = Ret x → 0 ≤ x < 256) as Hbyte.
  { intros i x Hx%rd_inv. exact (Forall_lookup_1 _ _ _ _ Hb Hx). }
  destruct (block_size_of_pow2 (s + t) cm) as (i & Hi32 & ->); [lia|by eapply Hbyte|done|].
  destruct (Z.ltb_spec page_size (2 ^ i)); [apply runs_Ret; by left|]. rewrite Hi. cbn [mbind outcome_bind].
  destruct (block_size_of_pow2 (s + t) ci) as (j & Hj32 & ->); [lia|by eapply Hbyte|done|].
  cbn [sector_size volume_of]. destruct (Z.ltb_spec (2 ^ j) (2 ^ s)); [apply runs_Ret; by left|].
  eapply runs_bind; [apply parse_locations_runs; [done|done|lia]|].
  intros [err|[[n m] mm]]; [intros ->; apply runs_Ret; by right|]. intros (Hn & Hm' & Hmm).
  eapply runs_bind; [apply le64_runs; [done|rewrite Hl; vm_compute; lia]|]. intros serial _. apply runs_Ret.
  split; cbn; try done; [split; [|done]; simpl; lia|unfold NTFS_MAX_CLUSTER_SIZE|by apply size_ok_pow2| |by apply size_ok_pow2].
  - apply (Z.pow_le_mono_r 2 (s + t) 16); lia.
  - rewrite ffs_pow2, uwrap_id by (change (2 ^ 8) with 256; lia). replace (i + 1 - 1) with i by lia.
    apply records_per_sector_ok; lia.
Qed.

(** ** The mft zone *)

Lemma cap_zone_spec k fuel lcn clusters size :
  lcn < clusters → 0 ≤ size < 2 ^ Z.of_nat k → (k < fuel)%nat →
  ∃ size', cap_zone fuel lcn clusters size = Some (lcn + size') ∧ 0 ≤ size' ≤ size ∧ lcn + size' < clusters.
Proof.
  intros Hl. revert fuel size. induction k as [|k IH]; intros [|fuel] size Hs Hf; [lia| |lia|]; cbn [cap_zone];
    (destruct (Z.leb_spec clusters (lcn + size)); [|by exists size; split; [|lia]]).
  { change (2 ^ Z.of_nat 0) with 1 in Hs. lia. }
  rewrite Nat2Z.inj_succ, Z.pow_succ_r in Hs by lia.
  rewrite Z.shiftr_div_pow2 by done. change (2 ^ 1) with 2.
  destruct (IH fuel (size / 2)) as (size' & -> & H1 & H2); [zdiv|lia|]. exists size'. split; [done|]. zdiv.
Qed.

(** The loop does not end when the mft is behind the end of the volume. *)
Lemma cap_zone_diverges fuel lcn clusters size :
  clusters ≤ lcn → 0 ≤ size → cap_zone fuel lcn clusters size = None.
Proof.
  intros Hl. revert size. induction fuel as [|fuel IH]; intros size Hs; cbn [cap_zone]; [done|].
  rewrite (proj2 (Z.leb_le _ _)) by lia. apply IH. by apply Z.shiftr_nonneg.
Qed.

Lemma mft_zone_size_range m n : 0 ≤ n → 0 ≤ mft_zone_size m n ≤ n / 2.
Proof.
  intros Hn. unfold mft_zone_size. rewrite !Z.shiftr_div_pow2 by done.
  change (2 ^ 1) with 2. change (2 ^ 2) with 4. change (2 ^ 3) with 8. repeat case_match; zdiv.
Qed.

(** On a volume with a consistent geometry the setup of the allocators terminates, and the
    mft zone lies inside the volume: it contains the start of the mft, takes at most half of the
    volume behind it, and the first data zone begins where it ends. *)
Lemma setup_allocators_zones page_size v multiplier fuel :
  geometry_ok page_size v → 0 ≤ mft_lcn v → (33 ≤ fuel)%nat →
  ∃ z, ntfs_setup_allocators fuel multiplier v = Some z ∧
    0 ≤ mft_zone_start z ≤ mft_zone_pos z ∧ mft_zone_pos z = mft_lcn v ∧
    mft_zone_pos z ≤ mft_zone_end z < nr_clusters v ∧
    mft_zone_end z - mft_lcn v ≤ nr_clusters v / 2 ∧
    data1_zone_pos z = mft_zone_end z ∧ data2_zone_pos z = 0.
Proof.
  intros [_ _ _ _ _ _ _ _ Hn Hm _] H0 Hf. unfold ntfs_setup_allocators.
  pose proof (mft_zone_size_range multiplier (nr_clusters v) ltac:(lia)) as Hs.
  destruct (cap_zone_spec 32 fuel (mft_lcn v) (nr_clusters v) (mft_zone_size multiplier (nr_clusters v)))
    as (size & -> & H1 & H2); [done|change (2 ^ Z.of_nat 32) with (2 ^ 32); zdiv|lia|].
  eexists. split; [done|]. cbn. split_and!; (done || case_match || idtac); lia.
Qed.

(** ** Boot sectors to evaluate the model on *)

Definition le (n : nat) (x : Z) : list Z := (λ i, Z.land (Z.shiftr x (8 * Z.of_nat i)) 0xff) <$> seq 0 n.

(** A boot sector with sectors of [bps] bytes, 8 sectors per cluster, 2 ^ 20 sectors and the mft
    at [mft]. *)
Definition sample_boot (bps mft : Z) : list Z :=
  [0xeb; 0x52; 0x90] ++ le 8 magicNTFS ++ le 2 bps ++ [8] ++ replicate 7 0 ++ [0xf8] ++
  replicate 18 0 ++ le 8 (2 ^ 20) ++ le 8 (u64 mft) ++ le 8 1000 ++ [0xf6; 0; 0; 0; 1; 0; 0; 0] ++
  le 8 0x1234 ++ replicate 430 0 ++ le 2 0xaa55.

Lemma ntfs_boot_sector_parse_spec_witness :
  runs (ntfs_boot_sector_parse 4096 512 (sample_boot 512 4)) (λ r, match r with
    | inl err => err = ENOTSUP ∨ err = EINVAL
    | inr v => geometry_ok 4096 v
    end).
Proof.
  apply (ntfs_boot_sector_parse_spec 4096 512 (sample_boot 512 4) [] 9);
    [|by vm_compute|by vm_compute|by vm_compute|lia].
  unfold bytes. apply (bool_decide_unpack _). by vm_compute.
Defined.

(** The mft may be anywhere before the end of the volume, even in front of its start. *)
Example boot_sector_negative_mft_lcn :
  (r ← ntfs_boot_sector_is_valid (sample_boot 512 (-5)); Ret (fst r)) = Ret true ∧
  (r ← ntfs_boot_sector_parse 4096 512 (sample_boot 512 (-5));
   Ret (match r with inr v => Some (mft_lcn v) | inl _ => None end)) = Ret (Some (-5)).
Proof. split; vm_compute; reflexivity. Qed.

(** Sector sizes that are no power of two are accepted; the shift of the volume is then not
    the logarithm of the size. *)
Example boot_sector_odd_size :
  (r ← ntfs_boot_sector_is_valid (sample_boot 768 4); Ret (fst r)) = Ret true ∧
  (r ← ntfs_boot_sector_parse 4096 512 (sample_boot 768 4);
   Ret (match r with inr v => Some (sector_size_shift (bv_geo v), cluster_size (bv_geo v)) | inl _ => None end)) =
    Ret (Some (8, 6144)).
Proof. split; vm_compute; reflexivity. Qed.

(** ** Bits of a byte *)

Lemma ctz_spec n : 0 ≤ ctz n ∧ Z.testbit (Z.pos n) (ctz n) = true ∧ ∀ j, 0 ≤ j < ctz n → Z.testbit (Z.pos n) j = false.
Proof.
  induction n as [n _|n (H0 & H1 & H2)|]; cbn [ctz]; [split_and!; [lia|done|lia]| |split_and!; [lia|done|lia]].
  split; [lia|]. change (Z.pos n~0) with (2 * Z.pos n). split.
  - rewrite Z.add_1_l, Z.testbit_even_succ by lia. done.
  - intros j Hj. destruct (decide (j = 0)) as [->|Hne]; [by rewrite Z.testbit_even_0|].
    replace j with (Z.succ (j - 1)) by lia. rewrite Z.testbit_even_succ by lia. apply H2. lia.
Qed.

(** The first zero bit of a byte. *)
Lemma first_zero byte : 0 ≤ byte < 256 → byte ≠ 0xff → let bit := u8 (ffs (u32 (Z.lnot byte)) - 1) in
  0 ≤ bit < 8 ∧ Z.testbit byte bit = false ∧ ∀ j, 0 ≤ j < bit → Z.testbit byte j = true.
Proof.
  intros Hb Hne. assert (∀ j, 0 ≤ j < 32 → Z.testbit (u32 (Z.lnot byte)) j = negb (Z.testbit byte j)) as Hj.
  { intros j Hj. unfold uwrap. rewrite Z.mod_pow2_bits_low, Z.lnot_spec by lia. done. }
  assert (∃ j, 0 ≤ j < 8 ∧ Z.testbit byte j = false) as (k & Hk & Ek).
  { destruct (decide (Exists (λ i, Z.testbit byte i = false) (seqZ 0 8))) as [(i & Hi%elem_of_seqZ & E)%list.Exists_exists|Hno]; [exists i; split; [lia|done]|].
    exfalso. apply Hne. change 0xff with (Z.ones 8). apply Z.bits_inj'. intros j Hj0. destruct (Z.ltb_spec j 8) as [H|H].
    - rewrite Z.ones_spec_low by lia. destruct (Z.testbit byte j) eqn:E; [done|]. exfalso. apply Hno, list.Exists_exists. exists j. split; [by apply elem_of_seqZ|done].
    - rewrite Z.ones_spec_high by lia. replace byte with (byte mod 2 ^ 8) by (apply Z.mod_small; lia). by apply Z.mod_pow2_bits_high. }
  intros bit. subst bit. assert (Z.testbit (u32 (Z.lnot byte)) k = true) as Hk' by (rewrite Hj by lia; by rewrite Ek).
  destruct (u32 (Z.lnot byte)) as [|n|n] eqn:En; [by rewrite Z.bits_0 in Hk'| |].
  - cbn [ffs]. destruct (ctz_spec n) as (H0 & H1 & H2). replace (1 + ctz n - 1) with (ctz n) by lia.
    assert (ctz n ≤ k) as Hle. { destruct (Z.le_gt_cases (ctz n) k); [done|]. rewrite H2 in Hk' by lia. done. }
    rewrite uwrap_id by lia. split; [lia|]. split.
    + rewrite Hj in H1 by lia. by destruct (Z.testbit byte (ctz n)).
    + intros j Hj'. specialize (H2 j Hj'). rewrite Hj in H2 by lia. by destruct (Z.testbit byte j).
  - pose proof (uwrap_range 32 (Z.lnot byte) ltac:(lia)) as Hr. rewrite En in Hr. lia.
Qed.
