(* ===== verification/PageCache.v ===== *)
(** * The page cache

    The unified buffer cache of the kernel as the driver uses it: attributes are
    mapped page by page ([ntfs_page_map]), and a mapping may fail. *)

From S2P Require Import Prelude.

(** The page cache: pages of [2 ^ page_shift] bytes, where the kernel has [PAGE_MIN_SHIFT] 12
    and [PAGE_MAX_SHIFT] 14, and the errno of the
    request number [t] for the page at the offset [ofs], to map the page with its contents
    ([ntfs_page_map]) or without reading them ([ntfs_page_grab]). *)
Class PageCache := {
  page_shift : Z;
  page_shift_range : 12 ≤ page_shift ≤ 14;
  page_map_errno : nat → Z → Z;
  page_grab_errno : nat → Z → Z
}.

(** The contents of an attribute as the page cache holds them, by byte offset. *)
Definition contents : Type := Z → Z.
Definition byte_contents (f : contents) : Prop := ∀ i, 0 ≤ f i < 256.

(** Rounding down to a multiple of a power of two. *)
Lemma round_pow2 j x : 0 ≤ j → Z.land x (Z.lnot (2 ^ j - 1)) = 2 ^ j * (x / 2 ^ j).
Proof.
  intros Hj. rewrite <- Z.ldiff_land, Z.sub_1_r, <- Z.ones_equiv.
  rewrite Z.ldiff_ones_r, Z.shiftl_mul_pow2, Z.shiftr_div_pow2 by done. lia.
Qed.

Section pages.
Context `{!PageCache}.

Definition PAGE_SIZE : Z := 2 ^ page_shift.
Definition PAGE_MASK : Z := PAGE_SIZE - 1.

(** Accesses to the page mapped at [ofs]; they must stay inside the page. *)
Definition page_put (ofs pos x : Z) (f : contents) : outcome contents :=
  if (0 <=? pos) && (pos <? PAGE_SIZE)
  then Ret (λ i, if i =? ofs + pos then x else f i) else Oob.
Definition page_get (ofs pos : Z) (f : contents) : outcome Z :=
  if (0 <=? pos) && (pos <? PAGE_SIZE) then Ret (f (ofs + pos)) else Oob.
Definition page_memset (ofs pos x len : Z) (f : contents) : outcome contents :=
  if (0 <=? pos) && (0 <=? len) && (pos + len <=? PAGE_SIZE)
  then Ret (λ i, if (ofs + pos <=? i) && (i <? ofs + pos + len) then x else f i) else Oob.

Lemma page_shift_pos : 0 ≤ page_shift.
Proof. pose proof page_shift_range. lia. Qed.

Lemma PAGE_SIZE_range : 4096 ≤ PAGE_SIZE ≤ 16384.
Proof.
  pose proof page_shift_range. unfold PAGE_SIZE.
  split; [apply (Z.pow_le_mono_r 2 12)|apply (Z.pow_le_mono_r 2 page_shift 14)]; lia.
Qed.

Lemma PAGE_SIZE_pos : 0 < PAGE_SIZE.
Proof. pose proof PAGE_SIZE_range. lia. Qed.

Lemma page_round x : Z.land x (Z.lnot PAGE_MASK) = PAGE_SIZE * (x / PAGE_SIZE).
Proof. apply round_pow2. apply page_shift_pos. Qed.

Lemma page_pos x : Z.land x PAGE_MASK = x mod PAGE_SIZE.
Proof.
  unfold PAGE_MASK, PAGE_SIZE. rewrite Z.sub_1_r, <- Z.ones_equiv.
  apply Z.land_ones. apply page_shift_pos.
Qed.

(** The position inside of the page, computed in 32 bits. *)
Lemma page_pos_u32 x : Z.land (u32 x) PAGE_MASK = x mod PAGE_SIZE.
Proof.
  rewrite page_pos. unfold uwrap, PAGE_SIZE. pose proof page_shift_range.
  replace 32 with ((32 - page_shift) + page_shift) by lia. rewrite Z.pow_add_r by lia.
  rewrite Z.mul_comm, Z.rem_mul_r by (try apply Z.pow_nonzero; try apply Z.pow_pos_nonneg; lia).
  rewrite Z.mul_comm, Z.mod_add, Z.mod_mod by (apply Z.pow_nonzero; lia). done.
Qed.

(** The page of the byte [B]. *)
Lemma page_of B k : PAGE_SIZE * k ≤ B < PAGE_SIZE * (k + 1) → B / PAGE_SIZE = k.
Proof. intros. symmetry. apply (Z.div_unique_pos _ _ _ (B - PAGE_SIZE * k)); lia. Qed.
End pages.

(** A page cache with pages of 4096 bytes that never fails, to run the model. *)
Definition page_cache_4k : PageCache :=
  {| page_shift := 12; page_shift_range := ltac:(done); page_map_errno _ _ := 0; page_grab_errno _ _ := 0 |}.
