(* ===== verification/AttrSet.v ===== *)
(** * Filling an attribute with a byte

    [ntfs_attr_set] ([kext/ntfs_attr.c]), the [memset] of attributes, which works on the
    pages of the attribute in the page cache. *)

From S2P Require Import Prelude PageCache.

Definition ESPIPE : Z := 29.

Section attr_set.
Context `{!PageCache}.

(** The whole pages; [n] pages are left.  The offset behind them is returned, or an errno. *)
Fixpoint set_pages (n : nat) (f : contents) (ofs val : Z) (t : nat) : outcome ((Z + Z) * contents * nat) :=
  match n with
  | O => Ret (inr ofs, f, t)
  | S n =>
      let err := page_grab_errno t ofs in
      if negb (err =? 0) then Ret (inl err, f, S t) else
      f ← page_memset ofs 0 val PAGE_SIZE f;
      set_pages n f (ofs + PAGE_SIZE) val (S t)
  end.

(** The first partial page.  [None]: it was the last one as well. *)
Definition set_first (f : contents) (ofs start_ofs end_ end_ofs val : Z) (t : nat)
    : outcome ((Z + option Z) * contents * nat) :=
  if start_ofs =? 0 then Ret (inr (Some ofs), f, t) else
  let err := page_map_errno t ofs in
  if negb (err =? 0) then Ret (inl err, f, S t) else
  let size := if ofs =? end_ then end_ofs else PAGE_SIZE in
  f ← page_memset ofs start_ofs val (u32 (size - start_ofs)) f;
  let ofs := ofs + PAGE_SIZE in
  Ret (inr (if end_ + end_ofs <=? ofs then None else Some ofs), f, S t).

(** The last partial page. *)
Definition set_last (f : contents) (ofs end_ofs val : Z) (t : nat) : outcome (Z * contents * nat) :=
  if end_ofs =? 0 then Ret (0, f, t) else
  let err := page_map_errno t ofs in
  if negb (err =? 0) then Ret (err, f, S t) else
  f ← page_memset ofs 0 val end_ofs f;
  Ret (0, f, S t).

(** The flags say whether the inode is compressed and whether it is encrypted. *)
Definition ntfs_attr_set (compressed encrypted : bool) (data_size : Z) (f : contents) (ofs cnt val : Z) (t : nat)
    : outcome (Z * contents * nat) :=
  if ofs <? 0 then Panic else
  if cnt <? 0 then Panic else
  if cnt =? 0 then Ret (0, f, t) else
  if compressed then Panic else
  if encrypted then Panic else
  let start_ofs := Z.land (u32 ofs) PAGE_MASK in
  let end_ := ofs + cnt in
  let end_ofs := Z.land (u32 end_) PAGE_MASK in
  if data_size <? end_ then Ret (ESPIPE, f, t) else
  let ofs := Z.land ofs (Z.lnot PAGE_MASK) in
  let end_ := Z.land end_ (Z.lnot PAGE_MASK) in
  '(r, f, t) ← set_first f ofs start_ofs end_ end_ofs val t;
  match r with
  | inl err => Ret (err, f, t)
  | inr None => Ret (0, f, t)
  | inr (Some ofs) =>
      '(r, f, t) ← set_pages (Z.to_nat ((end_ - ofs) / PAGE_SIZE)) f ofs val t;
      match r with
      | inl err => Ret (err, f, t)
      | inr ofs => set_last f ofs end_ofs val t
      end
  end.

(** ** Correctness *)

(** [f'] is [f] with the bytes of [a, b) filled. *)
Definition filled (f : contents) (a b val : Z) (f' : contents) : Prop :=
  ∀ x, f' x = if (a <=? x) && (x <? b) then val else f x.

Lemma page_memset_filled f f' a b ofs pos val n :
  filled f a b val f' → a ≤ b → b = ofs + pos → 0 ≤ pos → 0 ≤ n → pos + n ≤ PAGE_SIZE →
  runs (page_memset ofs pos val n f') (filled f a (b + n) val).
Proof.
  intros Hf Hab -> Hpos Hn Hp. unfold page_memset. zdec. apply runs_Ret. intros x. rewrite Hf. ztests; done.
Qed.

Lemma filled_empty f a val : filled f a a val f.
Proof. intros x. by ztests. Qed.

(** A prefix of [a, c) has been filled, all of it without an error. *)
Definition fill_post (f : contents) (a c val : Z) (err : Z) (f' : contents) : Prop :=
  ∃ b, a ≤ b ≤ c ∧ (err = 0 → b = c) ∧ filled f a b val f'.

Lemma set_pages_runs n f f' a ofs val t :
  filled f a ofs val f' → a ≤ ofs →
  runs (set_pages n f' ofs val t) (λ '(r, g, _),
    let c := ofs + PAGE_SIZE * Z.of_nat n in
    match r with
    | inl err => err ≠ 0 ∧ fill_post f a c val err g
    | inr o => o = c ∧ filled f a c val g
    end).
Proof.
  pose proof PAGE_SIZE_pos as HP. revert f' ofs t. induction n as [|n IH]; intros f' ofs t Hf Ha; cbn [set_pages].
  { apply runs_Ret. replace (ofs + PAGE_SIZE * Z.of_nat 0) with ofs by lia. done. }
  destruct (Z.eqb_spec (page_grab_errno t ofs) 0) as [_|Hne]; cbn [negb].
  - eapply runs_bind; [apply (page_memset_filled f f' a ofs ofs 0 val PAGE_SIZE); (done || lia)|]. intros g Hg.
    cbv beta in Hg. eapply runs_mono; [apply IH; [exact Hg|lia]|]. intros [[r g'] t']. cbv zeta.
    replace (ofs + PAGE_SIZE + PAGE_SIZE * Z.of_nat n) with (ofs + PAGE_SIZE * Z.of_nat (S n)) by lia. done.
  - apply runs_Ret. split; [done|]. exists ofs. split; [nia|]. done.
Qed.

Lemma set_last_runs f f' a ofs end_ofs val t :
  filled f a ofs val f' → a ≤ ofs → 0 ≤ end_ofs < PAGE_SIZE →
  runs (set_last f' ofs end_ofs val t) (λ '(err, g, _), fill_post f a (ofs + end_ofs) val err g).
Proof.
  intros Hf Ha He. unfold set_last. destruct (Z.eqb_spec end_ofs 0) as [->|].
  { apply runs_Ret. exists ofs. rewrite Z.add_0_r. split; [lia|done]. }
  destruct (Z.eqb_spec (page_map_errno t ofs) 0) as [_|Hne]; cbn [negb].
  - eapply runs_bind; [apply (page_memset_filled f f' a ofs ofs 0 val end_ofs); (done || lia)|]. intros g Hg.
    cbv beta in Hg. apply runs_Ret. exists (ofs + end_ofs). split; [lia|done].
  - apply runs_Ret. exists ofs. split; [lia|done].
Qed.

Lemma set_first_runs f ofs start_ofs end_ end_ofs val t :
  0 ≤ start_ofs < PAGE_SIZE → 0 ≤ end_ofs < PAGE_SIZE → ofs + start_ofs < end_ + end_ofs →
  ofs = end_ ∨ ofs + PAGE_SIZE ≤ end_ →
  runs (set_first f ofs start_ofs end_ end_ofs val t) (λ '(r, g, _),
    let c := end_ + end_ofs in
    match r with
    | inl err => err ≠ 0 ∧ fill_post f (ofs + start_ofs) c val err g
    | inr None => filled f (ofs + start_ofs) c val g
    | inr (Some o) => (o = ofs ∨ o = ofs + PAGE_SIZE) ∧ ofs + start_ofs ≤ o ≤ end_ ∧
        filled f (ofs + start_ofs) o val g
    end).
Proof.
  pose proof PAGE_SIZE_range as HP. intros Hs He Hse Hp. unfold set_first.
  destruct (Z.eqb_spec start_ofs 0) as [->|Hs0].
  { apply runs_Ret. rewrite !Z.add_0_r in *. split; [by left|]. split; [lia|apply filled_empty]. }
  destruct (Z.eqb_spec (page_map_errno t ofs) 0) as [_|Hne]; cbn [negb].
  2: { apply runs_Ret. split; [done|]. exists (ofs + start_ofs). split; [lia|]. split; [done|apply filled_empty]. }
  set (size := if ofs =? end_ then end_ofs else PAGE_SIZE).
  assert (start_ofs < size ≤ PAGE_SIZE ∧ ofs + size = Z.min (end_ + end_ofs) (ofs + PAGE_SIZE)) as [Hsize Ho]
    by (unfold size; ztests; lia).
  rewrite uwrap_id by lia.
  eapply runs_bind; [apply (page_memset_filled f f (ofs + start_ofs) (ofs + start_ofs)); [apply filled_empty|lia..]|].
  intros g Hg. cbv beta in Hg. replace (ofs + start_ofs + (size - start_ofs)) with (ofs + size) in Hg by lia.
  apply runs_Ret. destruct (Z.leb_spec (end_ + end_ofs) (ofs + PAGE_SIZE)).
  - by replace (end_ + end_ofs) with (ofs + size) by lia.
  - split; [by right|]. split; [lia|]. by replace (ofs + PAGE_SIZE) with (ofs + size) by lia.
Qed.

Lemma fill_post_mono f a c c' val err g :
  fill_post f a c val err g → err ≠ 0 → c ≤ c' → fill_post f a c' val err g.
Proof. intros (b & Hb & _ & Hf) Hne Hc. exists b. split; [lia|]. done. Qed.

Lemma attr_set_runs data_size f ofs cnt val t :
  0 ≤ ofs → 0 ≤ cnt →
  runs (ntfs_attr_set false false data_size f ofs cnt val t) (λ '(err, f', _),
    if (0 <? cnt) && (data_size <? ofs + cnt) then err = ESPIPE ∧ f' = f
    else fill_post f ofs (ofs + cnt) val err f').
Proof.
  pose proof PAGE_SIZE_pos as HP. intros Ho Hc. unfold ntfs_attr_set. zdec.
  destruct (Z.eqb_spec cnt 0) as [->|Hc0].
  { apply runs_Ret. cbn. exists ofs. rewrite Z.add_0_r. split; [lia|]. split; [done|apply filled_empty]. }
  rewrite (proj2 (Z.ltb_lt 0 cnt)) by lia. cbn [andb]. destruct (data_size <? ofs + cnt); [by apply runs_Ret|].
  rewrite !page_pos_u32, !page_round. set (e := ofs + cnt). assert (ofs < e) as Hlt by lia.
  assert (PAGE_SIZE ≠ 0) as HN by lia.
  pose proof (Z.div_mod ofs PAGE_SIZE HN) as D1. pose proof (Z.div_mod e PAGE_SIZE HN) as D2.
  pose proof (Z.mod_pos_bound ofs PAGE_SIZE HP). pose proof (Z.mod_pos_bound e PAGE_SIZE HP).
  assert (ofs / PAGE_SIZE ≤ e / PAGE_SIZE) as Hle by (apply Z.div_le_mono; lia).
  generalize dependent (ofs mod PAGE_SIZE). generalize dependent (e mod PAGE_SIZE). clearbody e. intros r2 D2 R2 r1 D1 R1.
  generalize dependent (ofs / PAGE_SIZE). generalize dependent (e / PAGE_SIZE). intros q2 D2 q1 Hle D1.
  eapply runs_bind; [apply set_first_runs; [lia|lia|lia|destruct (decide (q1 = q2)); [left; by subst|right; nia]]|].
  rewrite <- D1, <- D2. intros [[[err|[o|]] g] t'].
  - intros [_ Hp]. by apply runs_Ret.
  - intros (Hq & Hb & Hf). assert (∃ q, o = PAGE_SIZE * q ∧ q ≤ q2) as (q & -> & Hqq).
    { destruct Hq as [-> | ->]; [exists q1|exists (q1 + 1)]; split; nia. }
    replace (PAGE_SIZE * q2 - PAGE_SIZE * q) with ((q2 - q) * PAGE_SIZE) by lia. rewrite Z.div_mul by lia.
    eapply runs_bind; [apply set_pages_runs; [exact Hf|lia]|]. rewrite Z2Nat.id by lia.
    replace (PAGE_SIZE * q + PAGE_SIZE * (q2 - q)) with (PAGE_SIZE * q2) by lia.
    intros [[[err|o'] g'] t'']; cbv zeta.
    + intros [Hne Hp]. apply runs_Ret. eapply fill_post_mono; [done..|lia].
    + intros [-> Hp]. rewrite D2. apply set_last_runs; [done|nia|lia].
  - intros Hf. apply runs_Ret. exists e. split; [lia|done].
Qed.

(** C35: filling a range of an attribute that is neither compressed nor encrypted.  A range that
    does not end inside the attribute is rejected with ESPIPE and nothing is changed.  Otherwise
    the bytes of the range are filled in order and no other byte is changed: all of them when 0 is
    returned, and those in front of the page that failed on an error of the page cache. *)
Theorem ntfs_attr_set_spec data_size f ofs cnt val t :
  0 ≤ ofs → 0 ≤ cnt →
  runs (ntfs_attr_set false false data_size f ofs cnt val t) (λ '(err, f', _),
    if (0 <? cnt) && (data_size <? ofs + cnt) then err = ESPIPE ∧ f' = f
    else fill_post f ofs (ofs + cnt) val err f').
Proof. apply attr_set_runs. Qed.
End attr_set.

Lemma ntfs_attr_set_spec_witness :
  runs (@ntfs_attr_set page_cache_4k false false 20000 (λ _, 7) 1000 9000 255 0) (λ '(err, f', _),
    if (0 <? 9000) && (20000 <? 1000 + 9000) then err = ESPIPE ∧ f' = (λ _, 7)
    else fill_post (λ _, 7) 1000 (1000 + 9000) 255 err f').
Proof. apply (@ntfs_attr_set_spec page_cache_4k); lia. Defined.
