(* ===== verification/Logfile.v ===== *)
(** * Restart pages of the journal

    [kext/ntfs_logfile.c]: the checks of a restart page of $LogFile. *)

From S2P Require Import Prelude Bytes PageCache Mst Boot AttrSet.

(** ** Data *)

Definition magic_RSTR : Z := 0x52545352.
Definition magic_RCRD : Z := 0x44524352.
Definition magic_CHKD : Z := 0x444b4843.
Definition magic_empty : Z := 0xffffffff.

Definition NtfsMaxLogFileSize : Z := 0x100000000.
Definition NtfsDefaultLogPageSize : Z := 4096.
Definition NtfsMinLogRecordPages : Z := 48.

(** Offsets of the fields of [RESTART_PAGE_HEADER]; [NTFS_RECORD] is its start. *)
Definition rp_magic : nat := 0.
Definition rp_usa_ofs : nat := 4.
Definition rp_usa_count : nat := 6.
Definition rp_chkdsk_lsn : nat := 8.
Definition rp_system_page_size : nat := 16.
Definition rp_log_page_size : nat := 20.
Definition rp_restart_area_offset : nat := 24.
Definition rp_minor_ver : nat := 26.
Definition rp_major_ver : nat := 28.
Definition sizeof_RESTART_PAGE_HEADER : Z := 30.

Definition LOGFILE_NO_CLIENT : Z := 0xffff.
Definition RESTART_VOLUME_IS_CLEAN : Z := 0x0002.

(** Offsets of the fields of [RESTART_AREA]. *)
Definition ra_current_lsn : nat := 0.
Definition ra_log_clients : nat := 8.
Definition ra_client_free_list : nat := 10.
Definition ra_client_in_use_list : nat := 12.
Definition ra_flags : nat := 14.
Definition ra_seq_number_bits : nat := 16.
Definition ra_restart_area_length : nat := 20.
Definition ra_client_array_offset : nat := 22.
Definition ra_file_size : nat := 24.
Definition ra_log_record_header_length : nat := 36.
Definition ra_log_page_data_offset : nat := 38.

(** Offsets of the fields of [LOG_CLIENT_RECORD]. *)
Definition cr_prev_client : nat := 16.
Definition cr_next_client : nat := 18.
Definition sizeof_LOG_CLIENT_RECORD : Z := 160.

(** The bytes in front of the first word that is protected by an update sequence number:
    [NTFS_BLOCK_SIZE - sizeof(u16)]. *)
Definition first_fixup : Z := NTFS_BLOCK_SIZE - 2.

(** ** The restart page header *)

(** The checks of the update sequence array.  The result is the lower bound that they
    give for the offset of the restart area. *)
Definition usa_checks (rp : list Z) (system_page_size : Z) : outcome (option Z) :=
  magic ← le32_at rp rp_magic;
  count ← le16_at rp rp_usa_count;
  if (magic =? magic_CHKD) && (count =? 0) then Ret (Some sizeof_RESTART_PAGE_HEADER) else
  let usa_count := u16 (1 + Z.shiftr system_page_size NTFS_BLOCK_SIZE_SHIFT) in
  if negb (usa_count =? count) then Ret None else
  usa_ofs ← le16_at rp rp_usa_ofs;
  let usa_end := u16 (usa_ofs + usa_count * 2) in
  if (usa_ofs <? sizeof_RESTART_PAGE_HEADER) || (first_fixup <? usa_end) then Ret None else
  Ret (Some usa_end).

(** Not a power of two, or less than a block. *)
Definition bad_page_size (size : Z) : bool :=
  (size <? NTFS_BLOCK_SIZE) || negb (Z.land size (size - 1) =? 0).

Definition ntfs_restart_page_header_is_valid (rp : list Z) (pos : Z) : outcome bool :=
  system ← le32_at rp rp_system_page_size;
  log ← le32_at rp rp_log_page_size;
  if bad_page_size system || bad_page_size log then Ret false else
  if negb (pos =? 0) && negb (pos =? system) then Ret false else
  major ← le16_at rp rp_major_ver;
  minor ← le16_at rp rp_minor_ver;
  if negb (s16 major =? 1) || negb (s16 minor =? 1) then Ret false else
  low ← usa_checks rp system;
  match low with
  | None => Ret false
  | Some low =>
      ra_ofs ← le16_at rp rp_restart_area_offset;
      if negb (Z.land ra_ofs 7 =? 0) || (ra_ofs <? low) || (system <? ra_ofs) then Ret false else
      magic ← le32_at rp rp_magic;
      lsn ← le64_at rp rp_chkdsk_lsn;
      Ret (negb (negb (magic =? magic_CHKD) && negb (s64 lsn =? 0)))
  end.

(** ** The restart area *)

(** [while (file_size) { file_size >>= 1; fs_bits++; }]. *)
Fixpoint fs_bits_loop (fuel : nat) (file_size fs_bits : Z) : Z :=
  match fuel with
  | O => fs_bits
  | S fuel => if file_size =? 0 then fs_bits else fs_bits_loop fuel (Z.shiftr file_size 1) (u8 (fs_bits + 1))
  end.

(** [((x + 7) & ~7) != x]. *)
Definition unaligned8 (x : Z) : bool := negb (Z.land (x + 7) (Z.lnot 7) =? x).

(** A list of clients starts outside of the client array. *)
Definition overflowing (idx clients : Z) : bool := negb (idx =? LOGFILE_NO_CLIENT) && (clients <=? idx).

Definition ntfs_restart_area_is_valid (rp : list Z) : outcome bool :=
  ra_ofs ← le16_at rp rp_restart_area_offset;
  let ra := Z.to_nat ra_ofs in
  if first_fixup <? ra_ofs + Z.of_nat ra_file_size then Ret false else
  ca_ofs ← le16_at rp (ra + ra_client_array_offset);
  if unaligned8 ca_ofs || (first_fixup <? ra_ofs + ca_ofs) then Ret false else
  clients ← le16_at rp (ra + ra_log_clients);
  let ra_len := u16 (ca_ofs + clients * sizeof_LOG_CLIENT_RECORD) in
  system ← le32_at rp rp_system_page_size;
  len ← le16_at rp (ra + ra_restart_area_length);
  if (system <? ra_ofs + ra_len) || (system <? ra_ofs + len) || (len <? ra_len) then Ret false else
  free ← le16_at rp (ra + ra_client_free_list);
  used ← le16_at rp (ra + ra_client_in_use_list);
  if overflowing free clients || overflowing used clients then Ret false else
  size ← le64_at rp (ra + ra_file_size);
  bits ← le32_at rp (ra + ra_seq_number_bits);
  if negb (bits =? u32 (67 - fs_bits_loop 64 size 0)) then Ret false else
  hlen ← le16_at rp (ra + ra_log_record_header_length);
  if unaligned8 hlen then Ret false else
  dofs ← le16_at rp (ra + ra_log_page_data_offset);
  if unaligned8 dofs then Ret false else
  Ret true.

(** ** The client array *)

(** The loop over one list of clients: [ca] is the offset of the client array, [clients]
    the number of records in it, and [n] the number that may still be visited.  The result
    is the number left, or [None] when the list is corrupt. *)
Fixpoint check_list (n : nat) (rp : list Z) (ca : nat) (clients idx : Z) (idx_is_first : bool) : outcome (option nat) :=
  if idx =? LOGFILE_NO_CLIENT then Ret (Some n) else
  match n with
  | O => Ret None
  | S n =>
      if clients <=? idx then Ret None else
      let cr := (ca + Z.to_nat (idx * sizeof_LOG_CLIENT_RECORD))%nat in
      ok ← (if idx_is_first then
              prev ← le16_at rp (cr + cr_prev_client); Ret (prev =? LOGFILE_NO_CLIENT)
            else Ret true);
      if negb (ok : bool) then Ret None else
      next ← le16_at rp (cr + cr_next_client);
      check_list n rp ca clients next false
  end.

Definition ntfs_log_client_array_is_consistent (rp : list Z) : outcome bool :=
  ra_ofs ← le16_at rp rp_restart_area_offset;
  let ra := Z.to_nat ra_ofs in
  ca_ofs ← le16_at rp (ra + ra_client_array_offset);
  let ca := (ra + Z.to_nat ca_ofs)%nat in
  clients ← le16_at rp (ra + ra_log_clients);
  free ← le16_at rp (ra + ra_client_free_list);
  rest ← check_list (Z.to_nat clients) rp ca clients free true;
  match rest with
  | None => Ret false
  | Some rest =>
      used ← le16_at rp (ra + ra_client_in_use_list);
      rest ← check_list rest rp ca clients used true;
      Ret (match rest with Some _ => true | None => false end)
  end.

(** ** The lists of clients *)

(** A list of [n] client records from the index [idx] on: all indices lie inside the array,
    the first record of a list has no predecessor, and the last no successor. *)
Inductive client_list (rp : list Z) (ca : nat) (clients : Z) : bool → Z → nat → Prop :=
| client_list_end first : client_list rp ca clients first LOGFILE_NO_CLIENT 0
| client_list_step first idx next n :
    idx ≠ LOGFILE_NO_CLIENT → idx < clients →
    (first = true → le16_at rp (ca + Z.to_nat (idx * sizeof_LOG_CLIENT_RECORD) + cr_prev_client) = Ret LOGFILE_NO_CLIENT) →
    le16_at rp (ca + Z.to_nat (idx * sizeof_LOG_CLIENT_RECORD) + cr_next_client) = Ret next →
    client_list rp ca clients false next n →
    client_list rp ca clients first idx (S n).

Lemma client_list_det rp ca clients first idx n n' :
  client_list rp ca clients first idx n → client_list rp ca clients first idx n' → n = n'.
Proof.
  intros H. revert n'. induction H as [|first idx next n Hi _ _ Hn _ IH]; intros n' H'; inversion H'; subst; try done.
  f_equal. apply IH. congruence.
Qed.

Lemma check_list_runs n rp ca clients idx first :
  bytes rp → (ca + Z.to_nat (clients * sizeof_LOG_CLIENT_RECORD) ≤ length rp)%nat → 0 ≤ idx →
  runs (check_list n rp ca clients idx first) (λ r, match r with
    | Some k => ∃ j, n = (j + k)%nat ∧ client_list rp ca clients first idx j
    | None => ∀ j, client_list rp ca clients first idx j → (n < j)%nat
    end).
Proof.
  intros Hb Hl. revert idx first. induction n as [|n IH]; intros idx first Hidx; cbn [check_list];
    (destruct (Z.eqb_spec idx LOGFILE_NO_CLIENT) as [->|Hne];
     [apply runs_Ret; exists 0%nat; split; [done|constructor]|]).
  { apply runs_Ret. intros j Hj. inversion Hj; subst; [done|lia]. }
  destruct (Z.leb_spec clients idx).
  { apply runs_Ret. intros j Hj. inversion Hj; subst; [done|lia]. }
  set (cr := (ca + Z.to_nat (idx * sizeof_LOG_CLIENT_RECORD))%nat).
  assert (cr + 160 ≤ length rp)%nat as Hcr by (unfold cr, sizeof_LOG_CLIENT_RECORD in *; lia).
  destruct (le16_runs rp (cr + cr_prev_client) Hb) as (prev & Hprev & _); [unfold cr_prev_client; lia|].
  destruct (le16_runs rp (cr + cr_next_client) Hb) as (next & Hnext & ? & ?); [unfold cr_next_client; lia|].
  destruct (decide (first = true ∧ prev ≠ LOGFILE_NO_CLIENT)) as [[-> Hp]|Hp].
  { rewrite Hprev. cbn [mbind outcome_bind]. rewrite (proj2 (Z.eqb_neq _ _)) by done. cbn [negb].
    apply runs_Ret. intros j Hj. inversion Hj as [|? ? ? ? _ _ Hf]; subst; [done|].
    specialize (Hf eq_refl). fold cr in Hf. congruence. }
  assert (first = true → prev = LOGFILE_NO_CLIENT) as Hp' by (intros ->; destruct (decide (prev = LOGFILE_NO_CLIENT)); naive_solver).
  eapply (runs_bind _ _ (λ ok, ok = true)).
  { destruct first; [|by apply runs_Ret]. rewrite Hprev, (Hp' eq_refl). by apply runs_Ret. }
  intros ? ->. cbn [negb]. rewrite Hnext. cbn [mbind outcome_bind].
  eapply runs_mono; [apply IH; lia|]. intros [k|]; cbv beta iota.
  - intros (j & -> & Hj). exists (S j). split; [lia|]. econstructor; [done|done| |exact Hnext|done].
    intros Hf. fold cr. by rewrite Hprev, (Hp' Hf).
  - intros Hk j Hj. inversion Hj as [|? ? next' j' _ _ _ Hn' Hj']; subst; [done|]. fold cr in Hn'.
    assert (next' = next) as -> by congruence. apply Hk in Hj'. lia.
Qed.

(** The fields that describe the client array, and that it lies inside the page. *)
Record client_array (rp : list Z) (ra ca_ofs clients free used : Z) : Prop := {
  cla_ra : le16_at rp rp_restart_area_offset = Ret ra;
  cla_ca_ofs : le16_at rp (Z.to_nat ra + ra_client_array_offset) = Ret ca_ofs;
  cla_clients : le16_at rp (Z.to_nat ra + ra_log_clients) = Ret clients;
  cla_free : le16_at rp (Z.to_nat ra + ra_client_free_list) = Ret free;
  cla_used : le16_at rp (Z.to_nat ra + ra_client_in_use_list) = Ret used;
  cla_nonneg : 0 ≤ clients ∧ 0 ≤ free ∧ 0 ≤ used;
  cla_bounds : (Z.to_nat ra + Z.to_nat ca_ofs + Z.to_nat (clients * sizeof_LOG_CLIENT_RECORD) ≤ length rp)%nat
}.

(** The two lists end, and visit at most as many records as there are. *)
Definition lists_ok (rp : list Z) (ca : nat) (clients free used : Z) : Prop :=
  ∃ n m, client_list rp ca clients true free n ∧ client_list rp ca clients true used m ∧
    Z.of_nat (n + m) ≤ clients.

Lemma client_array_runs rp ra ca_ofs clients free used :
  bytes rp → client_array rp ra ca_ofs clients free used →
  runs (ntfs_log_client_array_is_consistent rp) (λ ok,
    ok = true ↔ lists_ok rp (Z.to_nat ra + Z.to_nat ca_ofs) clients free used).
Proof.
  intros Hb [H1 H2 H3 H4 H5 (Hc & Hf & Hu) Hl]. unfold ntfs_log_client_array_is_consistent.
  rewrite H1. cbn [mbind outcome_bind]. rewrite H2, H3, H4, H5. cbn [mbind outcome_bind].
  eapply runs_bind; [by apply check_list_runs|]. intros [k|]; cbv beta iota.
  2: { intros Hno. apply runs_Ret. split; [done|]. intros (n & m & Hn & Hm & Hle). apply Hno in Hn. lia. }
  intros (n & Hk & Hn). cbn [mbind outcome_bind].
  eapply runs_bind; [by apply check_list_runs|]. intros [k'|]; cbv beta iota; intros Hm; apply runs_Ret.
  - destruct Hm as (m & -> & Hm). split; [intros _|done]. exists n, m. split_and!; [done..|lia].
  - split; [done|]. intros (n' & m & Hn' & Hm' & Hle). rewrite (client_list_det _ _ _ _ _ _ _ Hn' Hn) in Hle.
    apply Hm in Hm'. lia.
Qed.

(** C34: the consistency check of the log clients terminates inside the page and accepts it exactly
    when both the list of free and the list of used clients end, lead only to records of the array,
    begin with a record that has no predecessor, and together visit no more records than there
    are. *)
Theorem ntfs_log_client_array_is_consistent_spec rp ra ca_ofs clients free used :
  bytes rp → client_array rp ra ca_ofs clients free used →
  ∃ ok, ntfs_log_client_array_is_consistent rp = Ret ok ∧
    (ok = true ↔ lists_ok rp (Z.to_nat ra + Z.to_nat ca_ofs) clients free used).
Proof. apply client_array_runs. Qed.

(** ** What the checks of a restart page establish *)

Lemma pow2_of_land x : 0 < x → Z.land x (x - 1) = 0 → ∃ k, 0 ≤ k ∧ x = 2 ^ k.
Proof.
  intros Hx Hl. exists (Z.log2 x). pose proof (Z.log2_nonneg x) as H0. split; [done|].
  destruct (Z.log2_spec x Hx) as [H1 H2]. destruct (Z.eq_dec x (2 ^ Z.log2 x)) as [|Hne]; [done|].
  assert (Z.log2 (x - 1) = Z.log2 x) as E by (apply Z.log2_unique; lia).
  assert (0 < 2 ^ Z.log2 x) by (apply Z.pow_pos_nonneg; lia).
  pose proof (Z.bit_log2 (x - 1) ltac:(lia)) as B. rewrite E in B.
  pose proof (Z.land_spec x (x - 1) (Z.log2 x)) as L. rewrite Hl, Z.bits_0, Z.bit_log2, B in L by lia. done.
Qed.

(** There is no update sequence array, or one of the right size that ends before the first
    fixup, the end being computed with 16 bits. *)
Definition usa_ok (rp : list Z) (system magic count : Z) : Prop :=
  magic = magic_CHKD ∧ count = 0 ∨
  count = u16 (1 + system / 512) ∧
  ∃ ofs, le16_at rp rp_usa_ofs = Ret ofs ∧ u16 (ofs + count * 2) ≤ first_fixup.

(** The fields of a header that passed the check. *)
Record header_ok (rp : list Z) (pos system magic count : Z) : Prop := {
  ho_system : le32_at rp rp_system_page_size = Ret system;
  ho_magic : le32_at rp rp_magic = Ret magic;
  ho_count : le16_at rp rp_usa_count = Ret count;
  ho_pow2 : ∃ k, 9 ≤ k < 32 ∧ system = 2 ^ k;
  ho_pos : pos = 0 ∨ pos = system;
  ho_usa : usa_ok rp system magic count
}.

Lemma bad_page_size_false x : 0 ≤ x < 2 ^ 32 → bad_page_size x = false → ∃ k, 9 ≤ k < 32 ∧ x = 2 ^ k.
Proof.
  intros Hx H. unfold bad_page_size, NTFS_BLOCK_SIZE in H. zbool.
  destruct (pow2_of_land x) as (k & Hk & ->); [lia|done|]. exists k. split; [|done].
  split; [apply (Z.pow_le_mono_r_iff 2)|apply (Z.pow_lt_mono_r_iff 2)]; lia.
Qed.

Lemma usa_checks_runs rp system :
  bytes rp → (30 ≤ length rp)%nat →
  runs (usa_checks rp system) (λ low, is_Some low → ∃ magic count,
    le32_at rp rp_magic = Ret magic ∧ le16_at rp rp_usa_count = Ret count ∧ usa_ok rp system magic count).
Proof.
  intros Hb Hl. unfold usa_checks.
  destruct (le32_runs rp rp_magic Hb) as (magic & Em & _); [unfold rp_magic; lia|].
  destruct (le16_runs rp rp_usa_count Hb) as (count & Ec & _); [unfold rp_usa_count; lia|].
  destruct (le16_runs rp rp_usa_ofs Hb) as (ofs & Eo & _); [unfold rp_usa_ofs; lia|].
  rewrite Em, Ec, Eo. cbn [mbind outcome_bind]. rewrite Z.shiftr_div_pow2 by done.
  change (2 ^ NTFS_BLOCK_SIZE_SHIFT) with 512. case_match eqn:H1.
  - zbool. apply runs_Ret. intros _. exists magic, count. split_and!; [done..|by left].
  - clear H1. case_match eqn:H2; [apply runs_Ret; intros [? ?]; done|]. zbool.
    case_match eqn:H3; apply runs_Ret; intros [? ?]; [done|]. zbool. exists magic, count.
    split_and!; [done..|]. right. split; [done|]. exists ofs. split; [done|]. congruence.
Qed.

Lemma header_runs rp pos :
  bytes rp → (30 ≤ length rp)%nat →
  runs (ntfs_restart_page_header_is_valid rp pos) (λ ok, ok = true →
    ∃ system magic count, header_ok rp pos system magic count).
Proof.
  intros Hb Hl. unfold ntfs_restart_page_header_is_valid.
  destruct (le32_runs rp rp_system_page_size Hb) as (system & Es & Rs); [unfold rp_system_page_size; lia|].
  destruct (le32_runs rp rp_log_page_size Hb) as (log & El & _); [unfold rp_log_page_size; lia|].
  destruct (le16_runs rp rp_major_ver Hb) as (major & Ema & _); [unfold rp_major_ver; lia|].
  destruct (le16_runs rp rp_minor_ver Hb) as (minor & Emi & _); [unfold rp_minor_ver; lia|].
  destruct (le16_runs rp rp_restart_area_offset Hb) as (ra & Er & _); [unfold rp_restart_area_offset; lia|].
  destruct (le64_runs rp rp_chkdsk_lsn Hb) as (lsn & Ec & _); [unfold rp_chkdsk_lsn; lia|].
  rewrite Es, El, Ema, Emi, Er. cbn [mbind outcome_bind].
  case_match eqn:H1; [by apply runs_Ret|]. case_match eqn:H2; [by apply runs_Ret|].
  case_match; [by apply runs_Ret|]. eapply runs_bind; [by apply usa_checks_runs|].
  intros [low|] Hlow; [|by apply runs_Ret]. destruct (Hlow ltac:(done)) as (magic & count & Em & Eu & Hu).
  rewrite Em, Ec. cbn [mbind outcome_bind]. case_match; [by apply runs_Ret|]. apply runs_Ret. intros _.
  apply orb_false_elim in H1 as [H1 _]. exists system, magic, count. split; try done.
  - by apply bad_page_size_false.
  - zbool; auto.
Qed.

(** The fields of a restart area that passed the check. *)
Record area_ok (rp : list Z) (system ra ca_ofs clients free used : Z) : Prop := {
  ao_ra : le16_at rp rp_restart_area_offset = Ret ra;
  ao_ca_ofs : le16_at rp (Z.to_nat ra + ra_client_array_offset) = Ret ca_ofs;
  ao_clients : le16_at rp (Z.to_nat ra + ra_log_clients) = Ret clients;
  ao_free : le16_at rp (Z.to_nat ra + ra_client_free_list) = Ret free;
  ao_used : le16_at rp (Z.to_nat ra + ra_client_in_use_list) = Ret used;
  ao_nonneg : 0 ≤ ra ∧ 0 ≤ ca_ofs ∧ 0 ≤ clients ∧ 0 ≤ free ∧ 0 ≤ used;
  ao_area : ra + 24 ≤ first_fixup;
  ao_array : ra + ca_ofs ≤ first_fixup;
  ao_len : ra + u16 (ca_ofs + clients * sizeof_LOG_CLIENT_RECORD) ≤ system
}.

Lemma area_runs rp system :
  bytes rp → (526 ≤ length rp)%nat → le32_at rp rp_system_page_size = Ret system →
  runs (ntfs_restart_area_is_valid rp) (λ ok, ok = true →
    ∃ ra ca_ofs clients free used, area_ok rp system ra ca_ofs clients free used).
Proof.
  intros Hb Hl Es. unfold ntfs_restart_area_is_valid.
  destruct (le16_runs rp rp_restart_area_offset Hb) as (ra & Er & Rr); [unfold rp_restart_area_offset; lia|].
  rewrite Er. cbn [mbind outcome_bind].
  case_match eqn:Ha; [by apply runs_Ret|]. unfold ra_file_size, first_fixup, NTFS_BLOCK_SIZE in Ha. zbool.
  assert (∀ i, (i ≤ 38)%nat → ∃ v, le16_at rp (Z.to_nat ra + i) = Ret v ∧ 0 ≤ v < 2 ^ 16) as H16
    by (intros; apply le16_runs; [done|lia]).
  destruct (H16 ra_client_array_offset) as (ca & Eca & Rca); [unfold ra_client_array_offset; lia|].
  destruct (H16 ra_log_clients) as (cl & Ecl & Rcl); [unfold ra_log_clients; lia|].
  destruct (H16 ra_restart_area_length) as (len & Elen & _); [unfold ra_restart_area_length; lia|].
  destruct (H16 ra_client_free_list) as (fr & Efr & Rfr); [unfold ra_client_free_list; lia|].
  destruct (H16 ra_client_in_use_list) as (us & Eus & Rus); [unfold ra_client_in_use_list; lia|].
  destruct (H16 ra_log_record_header_length) as (hl & Ehl & _); [unfold ra_log_record_header_length; lia|].
  destruct (H16 ra_log_page_data_offset) as (do & Edo & _); [unfold ra_log_page_data_offset; lia|].
  destruct (le64_runs rp (Z.to_nat ra + ra_file_size) Hb) as (fs & Efs & _); [unfold ra_file_size; lia|].
  destruct (le32_runs rp (Z.to_nat ra + ra_seq_number_bits) Hb) as (sb & Esb & _); [unfold ra_seq_number_bits; lia|].
  rewrite Eca, Ecl, Es, Elen, Efr, Eus, Efs, Esb, Ehl, Edo. cbn [mbind outcome_bind].
  case_match eqn:H1; [by apply runs_Ret|]. case_match eqn:H2; [by apply runs_Ret|].
  repeat (case_match; [by apply runs_Ret|]). apply runs_Ret. intros _. zbool.
  exists ra, ca, cl, fr, us. split; try done; unfold first_fixup, NTFS_BLOCK_SIZE in *; lia.
Qed.

(** ** Loading a restart page *)

(** [IOMallocData]: the memory that the request number [t], for [n] bytes, is given. *)
Class DataAllocator := {
  IOMallocData : nat → nat → option (list Z);
  IOMallocData_length t n m : IOMallocData t n = Some m → length m = n
}.

(** A byte buffer as the 16-bit words that the fixups work on, and back. *)
Fixpoint words_of (m : list Z) : list Z :=
  match m with
  | x :: y :: m => x + Z.shiftl y 8 :: words_of m
  | _ => []
  end.
Definition bytes_of (w : list Z) : list Z := w ≫= λ x, [Z.land x 0xff; Z.shiftr x 8].

Section logfile.
Context `{!PageCache, !DataAllocator}.
Implicit Types (f : contents).

(** The bytes of the file from [pos] on. *)
Fixpoint file_bytes f (pos : Z) (n : nat) : list Z :=
  match n with
  | O => []
  | S n => f pos :: file_bytes f (pos + 1) n
  end.

(** [if (err != EIO && err != ENOMEM) err = EIO]. *)
Definition read_errno (err : Z) : Z := if negb (err =? EIO) && negb (err =? ENOMEM) then EIO else err.

(** Copy the remaining data one page at a time. *)
Fixpoint copy_pages (fuel : nat) f (trp : list Z) (pos size have_read to_read : Z) (t : nat)
    : outcome ((Z + list Z) * nat) :=
  match fuel with
  | O => Oob
  | S fuel =>
      let pos := pos + size in
      if negb (Z.land (u32 pos) PAGE_MASK =? 0) then Panic else
      let err := page_map_errno t pos in
      if negb (err =? 0) then Ret (inl (read_errno err), S t) else
      let size := if to_read <? PAGE_SIZE then to_read else PAGE_SIZE in
      trp ← memcpy trp (Z.to_nat have_read) (file_bytes f pos (Z.to_nat PAGE_SIZE)) 0 (Z.to_nat size);
      let have_read := have_read + size in
      let to_read := to_read - size in
      if 0 <? to_read then copy_pages fuel f trp pos size have_read to_read (S t) else Ret (inr trp, S t)
  end.

(** Read the whole of the restart page [rp] at [pos] into the buffer [trp]. *)
Definition copy_restart_page f (rp trp : list Z) (pos system : Z) (t : nat) : outcome ((Z + list Z) * nat) :=
  let size := PAGE_SIZE - Z.land (u32 pos) PAGE_MASK in
  if system <=? size then
    trp ← memcpy trp 0 rp 0 (Z.to_nat system); Ret (inr trp, t)
  else
    trp ← memcpy trp 0 rp 0 (Z.to_nat size);
    let to_read := system - size in
    copy_pages (S (Z.to_nat (to_read / PAGE_SIZE))) f trp pos size size to_read t.

(** The multi sector transfer deprotection, if the page is protected; whether it failed. *)
Definition deprotect (trp : list Z) (system : Z) : outcome (bool * list Z) :=
  magic ← le32_at trp rp_magic;
  count ← le16_at trp rp_usa_count;
  if negb (magic =? magic_CHKD) || negb (count =? 0) then
    '(err, w) ← ntfs_mst_fixup_post_read (words_of trp) system;
    Ret (negb (err =? 0), bytes_of w)
  else Ret (false, trp).

(** The result is an errno, or the deprotected page and its lsn. *)
Definition ntfs_restart_page_load f (rp : list Z) (pos : Z) (t : nat) : outcome ((Z + list Z * Z) * nat) :=
  ok ← ntfs_restart_page_header_is_valid rp pos;
  if negb (ok : bool) then Ret (inl EINVAL, t) else
  ok ← ntfs_restart_area_is_valid rp;
  if negb (ok : bool) then Ret (inl EINVAL, t) else
  ra_ofs ← le16_at rp rp_restart_area_offset;
  let ra := Z.to_nat ra_ofs in
  system ← le32_at rp rp_system_page_size;
  match IOMallocData t (Z.to_nat system) with
  | None => Ret (inl ENOMEM, S t)
  | Some trp =>
      '(r, t) ← copy_restart_page f rp trp pos system (S t);
      match r with
      | inl err => Ret (inl err, t)
      | inr trp =>
          '(failed, trp) ← deprotect trp system;
          len ← le16_at rp (ra + ra_restart_area_length);
          if (failed : bool) && (first_fixup <? ra_ofs + len) then Ret (inl EINVAL, t) else
          magic ← le32_at rp rp_magic;
          used ← le16_at rp (ra + ra_client_in_use_list);
          ok ← (if (magic =? magic_RSTR) && negb (used =? LOGFILE_NO_CLIENT)
                then ntfs_log_client_array_is_consistent trp else Ret true);
          if negb (ok : bool) then Ret (inl EINVAL, t) else
          lsn ← le64_at rp (if magic =? magic_RSTR then (ra + ra_current_lsn)%nat else rp_chkdsk_lsn);
          Ret (inr (trp, s64 lsn), t)
      end
  end.

(** ** The copy of a restart page *)

Lemma file_bytes_length f pos n : length (file_bytes f pos n) = n.
Proof. revert pos. induction n as [|n IH]; intros pos; simpl; auto. Qed.

Lemma file_bytes_lookup f pos n i : (i < n)%nat → file_bytes f pos n !! i = Some (f (pos + Z.of_nat i)).
Proof.
  revert pos i. induction n as [|n IH]; intros pos [|i] Hi; [lia|lia|simpl; do 2 f_equal; lia|].
  cbn [file_bytes]. simpl. rewrite IH by lia. do 2 f_equal. lia.
Qed.

Lemma file_bytes_bytes f pos n : (∀ x, 0 ≤ f x < 256) → bytes (file_bytes f pos n).
Proof. intros Hf. revert pos. induction n as [|n IH]; intros pos; constructor; [apply Hf|apply IH]. Qed.

Lemma file_bytes_app f pos n m :
  file_bytes f pos (n + m) = file_bytes f pos n ++ file_bytes f (pos + Z.of_nat n) m.
Proof.
  revert pos. induction n as [|n IH]; intros pos; cbn [Nat.add file_bytes app]; [by rewrite Z.add_0_r|].
  rewrite IH. do 3 f_equal. lia.
Qed.

Lemma file_bytes_take f pos n m : (n ≤ m)%nat → take n (file_bytes f pos m) = file_bytes f pos n.
Proof.
  intros Hn. replace m with (n + (m - n))%nat by lia. rewrite file_bytes_app.
  by rewrite take_app_length' by (by rewrite file_bytes_length).
Qed.

Lemma read_errno_cases err : read_errno err = EIO ∨ read_errno err = ENOMEM.
Proof. unfold read_errno. destruct (Z.eqb_spec err EIO), (Z.eqb_spec err ENOMEM); auto. Qed.

(** Extending a buffer that holds the first bytes of a piece of the file. *)
Lemma copy_step f pos0 (trp : list Z) (h n m : nat) :
  take h trp = file_bytes f pos0 h → (h + n ≤ length trp)%nat → (n ≤ m)%nat →
  runs (memcpy trp h (file_bytes f (pos0 + Z.of_nat h) m) 0 n) (λ trp',
    length trp' = length trp ∧ take (h + n) trp' = file_bytes f pos0 (h + n)).
Proof.
  intros Ht Hn Hm. rewrite memcpy_Ret by (rewrite ?file_bytes_length; lia). apply runs_Ret.
  rewrite drop_0, file_bytes_take, Ht by done.
  split; [rewrite !length_app, !file_bytes_length, length_drop; lia|].
  rewrite (assoc_L (++)), <- file_bytes_app. apply take_app_length'. by rewrite file_bytes_length.
Qed.

Lemma copy_pages_runs fuel f trp pos size hr to_read t pos0 system :
  length trp = Z.to_nat system → 0 ≤ hr → 0 < to_read → hr + to_read = system →
  take (Z.to_nat hr) trp = file_bytes f pos0 (Z.to_nat hr) → pos + size = pos0 + hr →
  (pos0 + hr) mod PAGE_SIZE = 0 → (Z.to_nat (to_read / PAGE_SIZE) < fuel)%nat →
  runs (copy_pages fuel f trp pos size hr to_read t) (λ '(r, _), match r with
    | inl err => err = EIO ∨ err = ENOMEM
    | inr m => m = file_bytes f pos0 (Z.to_nat system)
    end).
Proof.
  pose proof PAGE_SIZE_pos as HP. revert trp pos size hr to_read t.
  induction fuel as [|fuel IH]; intros trp pos size hr to_read t Hl Hhr Htr Hs Ht Hp Ha Hf; [lia|].
  cbn [copy_pages]. rewrite Hp, page_pos_u32, Ha. cbn [negb Z.eqb].
  destruct (Z.eqb_spec (page_map_errno t (pos0 + hr)) 0) as [_|Hne]; cbn [negb];
    [|apply runs_Ret; by apply read_errno_cases].
  set (sz := if to_read <? PAGE_SIZE then to_read else PAGE_SIZE).
  assert (sz = Z.min to_read PAGE_SIZE) as Hsz by (unfold sz; ztests; lia). clearbody sz.
  replace (pos0 + hr) with (pos0 + Z.of_nat (Z.to_nat hr)) by lia.
  eapply runs_bind; [apply (copy_step f pos0 trp); [done|lia|lia]|]. cbv beta. intros trp' [Hl' Ht'].
  replace (Z.to_nat hr + Z.to_nat sz)%nat with (Z.to_nat (hr + sz)) in Ht' by lia.
  destruct (Z.ltb_spec 0 (to_read - sz)).
  - apply IH; [by rewrite Hl'|lia|lia|lia|done|lia| |].
    + replace (pos0 + (hr + sz)) with (pos0 + hr + 1 * PAGE_SIZE) by lia. by rewrite Z.mod_add by lia.
    + replace (to_read - sz) with (to_read + (-1) * PAGE_SIZE) by lia. rewrite Z.div_add by lia.
      assert (1 ≤ to_read / PAGE_SIZE) by (apply Z.div_le_lower_bound; lia). lia.
  - apply runs_Ret. replace (hr + sz) with system in Ht' by lia. rewrite <- Ht'. symmetry. apply take_ge. lia.
Qed.

Lemma copy_restart_page_runs f trp pos system t :
  length trp = Z.to_nat system → 0 < system → 0 ≤ pos →
  runs (copy_restart_page f (file_bytes f pos (Z.to_nat (PAGE_SIZE - pos mod PAGE_SIZE))) trp pos system t)
    (λ '(r, _), match r with
    | inl err => err = EIO ∨ err = ENOMEM
    | inr m => m = file_bytes f pos (Z.to_nat system)
    end).
Proof.
  pose proof PAGE_SIZE_pos as HP. intros Hl Hs Hpos. unfold copy_restart_page. rewrite page_pos_u32.
  pose proof (Z.mod_pos_bound pos PAGE_SIZE HP) as Hm. assert (PAGE_SIZE ≠ 0) as HN by lia.
  pose proof (Z.div_mod pos PAGE_SIZE HN) as Hd.
  set (size := PAGE_SIZE - pos mod PAGE_SIZE) in *. assert ((pos + size) mod PAGE_SIZE = 0) as Ha.
  { replace (pos + size) with ((pos / PAGE_SIZE + 1) * PAGE_SIZE) by (unfold size; lia). apply Z.mod_mul. lia. }
  assert (0 < size ≤ PAGE_SIZE) as Hz by (unfold size; lia). clearbody size. clear Hd Hm.
  assert (∀ n, (n ≤ Z.to_nat system)%nat → (n ≤ Z.to_nat size)%nat →
    runs (memcpy trp 0 (file_bytes f pos (Z.to_nat size)) 0 n) (λ trp',
      length trp' = length trp ∧ take n trp' = file_bytes f pos n)) as Hcopy.
  { intros n Hn1 Hn2. pose proof (copy_step f pos trp 0 n (Z.to_nat size)) as Hs'. rewrite Z.add_0_r in Hs'.
    apply Hs'; [by rewrite take_0|lia|done]. }
  destruct (Z.leb_spec system size).
  - eapply runs_bind; [apply Hcopy; lia|]. cbv beta. intros trp' [Hl' Ht']. apply runs_Ret. rewrite <- Ht'.
    symmetry. apply take_ge. lia.
  - eapply runs_bind; [apply Hcopy; lia|]. cbv beta. intros trp' [Hl' Ht'].
    apply copy_pages_runs; (done || lia).
Qed.

(** ** Bytes and words *)

Lemma words_of_lookup m i x y :
  m !! (2 * i)%nat = Some x → m !! (2 * i + 1)%nat = Some y → words_of m !! i = Some (x + Z.shiftl y 8).
Proof.
  revert m. induction i as [|i IH]; intros m Hx Hy.
  - destruct m as [|x' [|y' m]]; try done. simpl in *. congruence.
  - replace (2 * S i)%nat with (S (S (2 * i))) in * by lia.
    destruct m as [|x' [|y' m]]; try done. cbn in Hx, Hy |- *. by apply IH.
Qed.

Lemma words_of_length m n : length m = (2 * n)%nat → length (words_of m) = n.
Proof.
  revert m. induction n as [|n IH]; intros m Hm.
  - by destruct m.
  - destruct m as [|x [|y m]]; [done|simpl in Hm; lia|]. simpl in *. f_equal. apply IH. lia.
Qed.

Lemma words_of_words16 m n : length m = (2 * n)%nat → bytes m → words16 (words_of m).
Proof.
  revert m. induction n as [|n IH]; intros m Hm Hb.
  - destruct m; [constructor|done].
  - destruct m as [|x [|y m]]; [done|simpl in Hm; lia|]. simpl in *.
    apply list.Forall_cons in Hb as [Hx Hb]. apply list.Forall_cons in Hb as [Hy Hb].
    apply list.Forall_cons. split; [rewrite Z.shiftl_mul_pow2 by lia; lia|]. apply IH; [lia|done].
Qed.

Lemma bytes_of_lookup w i v :
  w !! i = Some v →
  bytes_of w !! (2 * i)%nat = Some (Z.land v 0xff) ∧ bytes_of w !! (2 * i + 1)%nat = Some (Z.shiftr v 8).
Proof.
  revert w. induction i as [|i IH]; intros [|z w] Hw; try done.
  - by injection Hw as ->.
  - apply IH in Hw. by replace (2 * S i)%nat with (S (S (2 * i))) by lia.
Qed.

Lemma bytes_of_length w : length (bytes_of w) = (2 * length w)%nat.
Proof. induction w as [|z w IH]; [done|]. simpl in *. unfold bytes_of in *. lia. Qed.

Lemma bytes_of_bytes w : words16 w → bytes (bytes_of w).
Proof.
  intros Hw. induction Hw as [|z w Hz _ IH]; [constructor|].
  unfold bytes, bytes_of in *. cbn [mbind list_bind app]. change 0xff with (Z.ones 8).
  rewrite Z.land_ones, Z.shiftr_div_pow2 by lia. repeat (apply list.Forall_cons; split); [zdiv..|done].
Qed.

(** ** The deprotected page *)

(** [m'] has the bytes of [m] that lie behind the magic and before the first fixup. *)
Definition same_fields (m m' : list Z) : Prop := ∀ i, (4 ≤ i < 510)%nat → m' !! i = m !! i.

Lemma same_fields_le16 m m' i : same_fields m m' → (4 ≤ i < 509)%nat → le16_at m' i = le16_at m i.
Proof. intros Hs Hi. unfold le16_at, rd. by rewrite !Hs by lia. Qed.

Lemma same_fields_fixup m n w :
  bytes m → length m = (2 * n)%nat → (255 ≤ n)%nat → fixup_keeps (words_of m) w → same_fields m (bytes_of w).
Proof.
  intros Hb Hl Hn [Hlw Hw] i Hi. pose proof (words_of_length m n Hl) as Hwl.
  set (j := (i / 2)%nat). pose proof (Nat.div_mod i 2 ltac:(lia)) as Hd. pose proof (Nat.mod_upper_bound i 2 ltac:(lia)) as Hr.
  fold j in Hd. destruct (lookup_lt_is_Some_2 m (2 * j)) as [x Hx]; [lia|].
  destruct (lookup_lt_is_Some_2 m (2 * j + 1)) as [y Hy]; [lia|].
  pose proof (words_of_lookup m j x y Hx Hy) as Hxy. rewrite <- Hw in Hxy; [|lia|unfold last_word; lia].
  apply bytes_of_lookup in Hxy as [H1 H2].
  pose proof (Forall_lookup_1 _ _ _ _ Hb Hx) as Rx. pose proof (Forall_lookup_1 _ _ _ _ Hb Hy) as Ry. simpl in Rx, Ry.
  rewrite Z.shiftl_mul_pow2 in H1, H2 by lia. change 0xff with (Z.ones 8) in H1.
  rewrite Z.land_ones in H1 by lia. rewrite Z.shiftr_div_pow2 in H2 by lia.
  destruct (i mod 2)%nat as [|[|r]] eqn:Er; [| |lia].
  - replace i with (2 * j)%nat by lia. rewrite H1, Hx. f_equal. zdiv.
  - replace i with (2 * j + 1)%nat by lia. rewrite H2, Hy. f_equal. zdiv.
Qed.

Lemma le16_words m i v : le16_at m (2 * i) = Ret v → words_of m !! i = Some v.
Proof.
  unfold le16_at. intros (x & Hx%rd_inv & H1)%bind_Ret_inv. apply bind_Ret_inv in H1 as (y & Hy%rd_inv & [= <-]).
  by apply words_of_lookup.
Qed.

Lemma deprotect_runs m n magic count ofs :
  bytes m → length m = (512 * n)%nat → (1 ≤ n)%nat →
  le32_at m rp_magic = Ret magic → le16_at m rp_usa_count = Ret count → le16_at m rp_usa_ofs = Ret ofs →
  magic = magic_CHKD ∧ count = 0 ∨ 1 ≤ count →
  (count = Z.of_nat n + 1 → ofs + 2 * (count - 1) ≤ mst_size n → ofs + 2 * count ≤ mst_size n) →
  runs (deprotect m (mst_size n)) (λ '(_, m'), length m' = length m ∧ bytes m' ∧ same_fields m m').
Proof.
  intros Hb Hl Hn Em Ec Eo Hc Hofs. unfold deprotect. rewrite Em, Ec. cbn [mbind outcome_bind].
  case_match eqn:H1; [|by apply runs_Ret].
  assert (1 ≤ count) as Hc1 by (destruct Hc as [[-> ->]|]; done). clear Hc H1.
  pose proof (words_of_words16 m (256 * n) ltac:(lia) Hb) as Hw.
  apply (le16_words m 2) in Eo. apply (le16_words m 3) in Ec.
  pose proof (Forall_lookup_1 _ _ _ _ Hw Eo). pose proof (Forall_lookup_1 _ _ _ _ Hw Ec).
  eapply runs_bind.
  { apply (mst_post_read_runs _ n ofs count); [done|apply words_of_length; lia|done|done|simpl in *; lia..|done]. }
  intros [err w] (_ & Hk & Hw'). apply runs_Ret. split; [|split; [by apply bytes_of_bytes|]].
  - rewrite bytes_of_length. destruct Hk as [-> _]. rewrite (words_of_length m (256 * n)) by lia. lia.
  - eapply (same_fields_fixup m (256 * n)); [done|lia|lia|done].
Qed.

(** ** Loading is safe *)

(** The two sums that the checks compute with 16 bits do not overflow. *)
Definition no_overflow (rp : list Z) : Prop :=
  (∀ ofs count, le16_at rp rp_usa_ofs = Ret ofs → le16_at rp rp_usa_count = Ret count → ofs + count * 2 < 2 ^ 16) ∧
  (∀ ra ca_ofs clients, le16_at rp rp_restart_area_offset = Ret ra →
    le16_at rp (Z.to_nat ra + ra_client_array_offset) = Ret ca_ofs →
    le16_at rp (Z.to_nat ra + ra_log_clients) = Ret clients →
    ca_ofs + clients * sizeof_LOG_CLIENT_RECORD < 2 ^ 16).

(** A deprotected restart page: the restart area lies before the first fixup. *)
Definition restart_page_ok (p : list Z) : Prop :=
  bytes p ∧ (512 ≤ length p)%nat ∧
  ∃ ra, le16_at p rp_restart_area_offset = Ret ra ∧ 0 ≤ ra ∧ ra + 24 ≤ first_fixup.

(** Number of sectors of a page. *)
Lemma system_sectors k : 9 ≤ k < 32 → ∃ n, (1 ≤ n)%nat ∧ 2 ^ k = mst_size n ∧ 1 ≤ u16 (1 + 2 ^ k / 512).
Proof.
  intros Hk. exists (Z.to_nat (2 ^ (k - 9))).
  assert (0 < 2 ^ (k - 9)) by (apply Z.pow_pos_nonneg; lia).
  assert (2 ^ k = 512 * 2 ^ (k - 9)) as E by (change 512 with (2 ^ 9); rewrite <- Z.pow_add_r by lia; f_equal; lia).
  unfold mst_size. split; [lia|]. rewrite Z2Nat.id by lia. split; [lia|].
  rewrite E, Z.mul_comm, Z.div_mul by lia. destruct (decide (k - 9 < 16)).
  - assert (2 ^ (k - 9) ≤ 2 ^ 15) by (apply Z.pow_le_mono_r; lia). rewrite uwrap_id; lia.
  - replace (k - 9) with (k - 25 + 16) by lia. rewrite Z.pow_add_r by lia. unfold uwrap.
    rewrite Z.mod_add by done. done.
Qed.

(** What the checks say about the copy of the page, before and after its deprotection. *)
Lemma same_fields_prefix f pos n m : (510 ≤ n)%nat → (510 ≤ m)%nat → same_fields (file_bytes f pos n) (file_bytes f pos m).
Proof. intros Hn Hm i Hi. by rewrite !file_bytes_lookup by lia. Qed.

Lemma same_fields_trans m1 m2 m3 : same_fields m1 m2 → same_fields m2 m3 → same_fields m1 m3.
Proof. intros H1 H2 i Hi. by rewrite H2, H1. Qed.

Lemma file_le16_eq f pos n m i :
  (i + 1 < n)%nat → (i + 1 < m)%nat → le16_at (file_bytes f pos n) i = le16_at (file_bytes f pos m) i.
Proof. intros Hn Hm. unfold le16_at, rd. by rewrite !file_bytes_lookup by lia. Qed.

Lemma file_le32_eq f pos n m i :
  (i + 3 < n)%nat → (i + 3 < m)%nat → le32_at (file_bytes f pos n) i = le32_at (file_bytes f pos m) i.
Proof. intros Hn Hm. unfold le32_at. by rewrite !(file_le16_eq f pos n m) by lia. Qed.

(** The client array of a checked page lies inside of its deprotected copy. *)
Lemma area_client_array rp p system ra ca_ofs clients free used :
  area_ok rp system ra ca_ofs clients free used → no_overflow rp → same_fields rp p → length p = Z.to_nat system →
  client_array p ra ca_ofs clients free used ∧ le16_at p rp_restart_area_offset = Ret ra.
Proof.
  intros [H1 H2 H3 H4 H5 Hn Ha Hca Hlen] [_ Hno] Hs Hl. specialize (Hno _ _ _ H1 H2 H3).
  unfold first_fixup, NTFS_BLOCK_SIZE in *.
  assert (∀ i v, le16_at rp i = Ret v → (4 ≤ i < 509)%nat → le16_at p i = Ret v) as Hp.
  { intros i v Hi Hr. by rewrite (same_fields_le16 rp). }
  rewrite uwrap_id in Hlen by (unfold sizeof_LOG_CLIENT_RECORD in *; lia).
  assert (le16_at p rp_restart_area_offset = Ret ra) as Hra by (apply Hp; [done|unfold rp_restart_area_offset; lia]).
  split; [|done]. split; [done|apply Hp; [done|]..|lia|unfold sizeof_LOG_CLIENT_RECORD in *; lia].
  all: unfold ra_client_array_offset, ra_log_clients, ra_client_free_list, ra_client_in_use_list; lia.
Qed.

(** The copy of a page that passed the header check can be deprotected. *)
Lemma copy_deprotect_runs f pos n system magic count :
  (∀ x, 0 ≤ f x < 256) → (510 ≤ n)%nat →
  header_ok (file_bytes f pos n) pos system magic count → no_overflow (file_bytes f pos n) →
  runs (deprotect (file_bytes f pos (Z.to_nat system)) system) (λ '(_, p),
    length p = Z.to_nat system ∧ (512 ≤ length p)%nat ∧ bytes p ∧ same_fields (file_bytes f pos n) p).
Proof.
  intros Hf Hn [Es Em Ec (k & Hk & ->) _ Hu] [Hno _]. destruct (system_sectors k Hk) as (s & Hs1 & Ek & Hcount).
  rewrite Ek in *.
  unfold mst_size in *. replace (Z.to_nat (512 * Z.of_nat s)) with (512 * s)%nat by lia.
  assert (512 ≤ 512 * s)%nat as Hl by lia.
  rewrite (file_le32_eq f pos n (512 * s)) in Em by (unfold rp_magic; lia).
  rewrite (file_le16_eq f pos n (512 * s)) in Ec by (unfold rp_usa_count; lia).
  destruct (le16_runs (file_bytes f pos (512 * s)) rp_usa_ofs) as (ofs & Eo & _);
    [by apply file_bytes_bytes|rewrite file_bytes_length; unfold rp_usa_ofs; lia|].
  specialize (Hno ofs count). rewrite (file_le16_eq f pos n (512 * s) rp_usa_ofs) in Hno by (unfold rp_usa_ofs; lia).
  rewrite (file_le16_eq f pos n (512 * s) rp_usa_count) in Hno by (unfold rp_usa_count; lia). specialize (Hno Eo Ec).
  pose proof Eo as Eo'. apply (le16_words _ 2) in Eo'.
  pose proof (words_of_words16 (file_bytes f pos (512 * s)) (256 * s)) as Hw. rewrite file_bytes_length in Hw.
  pose proof (Forall_lookup_1 _ _ _ _ (Hw ltac:(lia) (file_bytes_bytes f pos _ Hf)) Eo') as Ro. simpl in Ro.
  eapply runs_mono; [eapply (deprotect_runs _ s magic count ofs)|].
  - by apply file_bytes_bytes.
  - by rewrite file_bytes_length.
  - done.
  - done.
  - done.
  - done.
  - destruct Hu as [?|[-> _]]; [by left|by right].
  - intros -> _. destruct Hu as [[_ ?]|(_ & o & Eo2 & Hend)]; [lia|].
    rewrite (file_le16_eq f pos n (512 * s)) in Eo2 by (unfold rp_usa_ofs; lia).
    assert (o = ofs) as -> by congruence. rewrite uwrap_id in Hend by lia. unfold first_fixup, NTFS_BLOCK_SIZE in Hend.
    unfold mst_size. lia.
  - intros [_ p] (Hl' & Hb & Hsf). rewrite file_bytes_length in Hl'. split_and!; [done|lia|done|].
    eapply same_fields_trans; [|done]. apply same_fields_prefix; lia.
Qed.

Lemma load_runs f pos t :
  (∀ x, 0 ≤ f x < 256) → 0 ≤ pos → 2048 ≤ PAGE_SIZE - pos mod PAGE_SIZE →
  let rp := file_bytes f pos (Z.to_nat (PAGE_SIZE - pos mod PAGE_SIZE)) in no_overflow rp →
  runs (ntfs_restart_page_load f rp pos t) (λ '(r, _), match r with
    | inl err => err = EINVAL ∨ err = ENOMEM ∨ err = EIO
    | inr (p, _) => restart_page_ok p
    end).
Proof.
  intros Hf Hpos HR rp Hno. assert (bytes rp) as Hb by by apply file_bytes_bytes.
  assert (2048 ≤ length rp)%nat as Hl by (unfold rp; rewrite file_bytes_length; lia).
  unfold ntfs_restart_page_load.
  eapply runs_bind; [apply header_runs; [done|lia]|]. cbv beta. intros [] Hh; [|apply runs_Ret; by left].
  destruct (Hh eq_refl) as (system & magic & count & Hhd). cbn [negb]. pose proof (ho_system _ _ _ _ _ Hhd) as Es.
  eapply runs_bind; [apply (area_runs rp system); [done|lia|done]|]. cbv beta. intros [] Ha; [|apply runs_Ret; by left].
  destruct (Ha eq_refl) as (ra & ca & cl & fr & us & Har). cbn [negb]. clear Hh Ha.
  rewrite (ao_ra _ _ _ _ _ _ _ Har). cbn [mbind outcome_bind]. rewrite Es. cbn [mbind outcome_bind].
  destruct (ho_pow2 _ _ _ _ _ Hhd) as (k & Hk & Ek). assert (0 < system) as Hs by (subst; apply Z.pow_pos_nonneg; lia).
  destruct (IOMallocData t (Z.to_nat system)) as [trp|] eqn:Et; [|apply runs_Ret; auto]. apply IOMallocData_length in Et.
  eapply runs_bind; [apply copy_restart_page_runs; done|]. intros [[err|m] t']; [intros [-> | ->]; apply runs_Ret; auto|].
  intros ->. eapply runs_bind; [apply (copy_deprotect_runs f pos (Z.to_nat (PAGE_SIZE - pos mod PAGE_SIZE)) system magic count); [done|lia|exact Hhd|exact Hno]|].
  intros [failed p] (Hp & Hp512 & Hpb & Hsf). cbn [mbind outcome_bind].
  destruct (area_client_array _ _ _ _ _ _ _ _ Har Hno Hsf Hp) as [Hca Hra].
  pose proof (ao_area _ _ _ _ _ _ _ Har) as Hra24. destruct (ao_nonneg _ _ _ _ _ _ _ Har) as [Hra0 _].
  unfold first_fixup, NTFS_BLOCK_SIZE in Hra24.
  destruct (le16_runs rp (Z.to_nat ra + ra_restart_area_length) Hb) as (len & El & _);
    [unfold ra_restart_area_length; lia|]. fold rp. rewrite El. cbn [mbind outcome_bind].
  rewrite (ho_magic _ _ _ _ _ Hhd), (ao_used _ _ _ _ _ _ _ Har). cbn [mbind outcome_bind].
  case_match; [apply runs_Ret; by left|].
  eapply (runs_bind _ _ (λ _, True)).
  { case_match; [|by apply runs_Ret]. eapply runs_mono; [by eapply client_array_runs|done]. }
  intros ok _. destruct ok; cbn [negb]; [|apply runs_Ret; by left].
  eapply runs_bind.
  { apply le64_runs; [done|]. case_match; unfold ra_current_lsn, rp_chkdsk_lsn; lia. }
  intros lsn _. apply runs_Ret. split_and!; [done|done|]. exists ra. split_and!; [done..|].
  unfold first_fixup, NTFS_BLOCK_SIZE. lia.
Qed.
End logfile.

(** ** Restart pages to evaluate the model on *)

(** A file that is zero but for some pieces, given by their offset. *)
Fixpoint sparse (l : list (Z * list Z)) (x : Z) : Z :=
  match l with
  | [] => 0
  | (o, b) :: l => if (o <=? x) && (x <? o + Z.of_nat (length b)) then nth (Z.to_nat (x - o)) b 0 else sparse l x
  end.

(** The header of a restart page at [pos] with pages of [system] bytes and its update
    sequence array at [usa_ofs]; the restart area is at 48. *)
Definition sample_header (pos system usa_ofs : Z) : list (Z * list Z) :=
  [(pos, le 4 magic_RSTR ++ le 2 usa_ofs ++ le 2 (1 + system / 512) ++ le 8 0 ++ le 4 system ++ le 4 4096 ++
         le 2 48 ++ le 2 1 ++ le 2 1)].

(** A restart area with its client array at 64 and one client record that is in use. *)
Definition sample_area (pos lsn clients used flags : Z) : list (Z * list Z) :=
  [(pos + 48, le 8 lsn ++ le 2 clients ++ le 2 0xffff ++ le 2 used ++ le 2 flags ++ le 4 40 ++ le 2 224 ++ le 2 64 ++
              le 8 (2 ^ 26) ++ le 4 0 ++ le 2 48 ++ le 2 64);
   (pos + 128, [0xff; 0xff; 0xff; 0xff])].

(** The update sequence number 7 in the array, and at the end of every sector. *)
Definition sample_usn (pos usa_ofs : Z) : list (Z * list Z) := [(pos + usa_ofs, [7; 0])].
Definition sample_log (l : list (Z * list Z)) (x : Z) : Z := if x mod 512 =? 510 then 7 else sparse l x.

(** A restart page of 4096 bytes. *)
Definition sample_restart (pos lsn used flags : Z) : list (Z * list Z) :=
  sample_header pos 4096 30 ++ sample_area pos lsn 1 used flags ++ sample_usn pos 30.

(** Memory is always available. *)
#[refine] Definition data_allocator : DataAllocator := {| IOMallocData _ n := Some (replicate n 0) |}.
Proof. intros t n m [= <-]. apply length_replicate. Defined.

Lemma ntfs_log_client_array_is_consistent_spec_witness :
  let rp := file_bytes (sample_log (sample_restart 0 1 0 2)) 0 4096 in
  ∃ ok, ntfs_log_client_array_is_consistent rp = Ret ok ∧
    (ok = true ↔ lists_ok rp (Z.to_nat 48 + Z.to_nat 64) 1 0xffff 0).
Proof.
  intros rp. apply (ntfs_log_client_array_is_consistent_spec rp 48 64 1 0xffff 0).
  - unfold bytes. apply (bool_decide_unpack _). by vm_compute.
  - split; [by vm_compute..|lia|]. apply Nat.leb_le. by vm_compute.
Defined.

(** The length of the restart area is computed with 16 bits.  With 410 clients it overflows, the
    area passes the check, and the client array is read behind the end of the page. *)
Example restart_area_length_overflow :
  let f := sample_log (sample_header 0 4096 30 ++ sample_area 0 1 410 409 2 ++ sample_usn 0 30) in
  @ntfs_restart_page_load page_cache_4k data_allocator f (file_bytes f 0 4096) 0 0 = Oob.
Proof. vm_compute. reflexivity. Qed.

(** The end of the update sequence array is computed with 16 bits as well, so that the array of
    a page of 65536 bytes may end behind the page. *)
Example restart_usa_overflow :
  let f := sample_log (sample_header 0 65536 0xff00 ++ sample_area 0 1 1 0 2 ++ sample_usn 0 0xff00) in
  @ntfs_restart_page_load page_cache_4k data_allocator f (file_bytes f 0 4096) 0 0 = Oob.
Proof. vm_compute. reflexivity. Qed.
