(* ===== verification/LogfileCheck.v ===== *)
(** * The check of the journal

    [kext/ntfs_logfile.c]: the search for the two restart pages of $LogFile, from which
    the driver decides whether the volume was unmounted cleanly, and the emptying of the
    journal. *)

From stdpp Require Import sets.
From S2P Require Import Prelude Bytes PageCache Mst Boot AttrSet Logfile.

Section check.
Context {PC : PageCache} {DA : DataAllocator}.
Implicit Types (f : contents).

(** ** Operations *)

(** The variables of the search; [sc_rstr1] and [sc_rstr2] are the restart pages found
    with their lsns, [sc_ppos] the offset of the page that is mapped, if [sc_upl]. *)
Record scan := mk_scan {
  logfile_is_empty : bool;
  sc_upl : bool;
  sc_ppos : Z;
  sc_rstr1 : option (list Z * Z);
  sc_rstr2 : option (list Z * Z);
  sc_tick : nat
}.

(** Map the page of [pos] if it is not mapped already. *)
Definition scan_map (pos : Z) (s : scan) : Z + scan :=
  if negb (sc_upl s) || negb (Z.land pos (Z.lnot PAGE_MASK) =? sc_ppos s) then
    let err := page_map_errno (sc_tick s) pos in
    if negb (err =? 0) then inl (read_errno err)
    else inr (mk_scan (logfile_is_empty s) true pos (sc_rstr1 s) (sc_rstr2 s) (S (sc_tick s)))
  else inr s.

Definition scan_nonempty (s : scan) : scan :=
  mk_scan false (sc_upl s) (sc_ppos s) (sc_rstr1 s) (sc_rstr2 s) (sc_tick s).
Definition scan_tick (s : scan) (t : nat) : scan :=
  mk_scan (logfile_is_empty s) (sc_upl s) (sc_ppos s) (sc_rstr1 s) (sc_rstr2 s) t.

(** Keep the page that was found. *)
Definition scan_found (s : scan) (p : list Z * Z) : scan :=
  match sc_rstr1 s with
  | None => mk_scan (logfile_is_empty s) (sc_upl s) (sc_ppos s) (Some p) (sc_rstr2 s) (sc_tick s)
  | Some _ => mk_scan (logfile_is_empty s) (sc_upl s) (sc_ppos s) (sc_rstr1 s) (Some p) (sc_tick s)
  end.

(** The search for the restart pages in the first [size] bytes of the file. *)
Fixpoint scan_loop (fuel : nat) f (size pos : Z) (s : scan) : outcome (Z + scan) :=
  match fuel with
  | O => Oob
  | S fuel =>
      if size <=? pos then Ret (inr s) else
      match scan_map pos s with
      | inl err => Ret (inl err)
      | inr s =>
          let ofs := Z.land pos PAGE_MASK in
          let rp := file_bytes f (sc_ppos s + ofs) (Z.to_nat (PAGE_SIZE - ofs)) in
          let next := Z.shiftl (if pos =? 0 then NTFS_BLOCK_SIZE / 2 else pos) 1 in
          magic ← le32_at rp 0;
          if magic =? magic_empty then
            if logfile_is_empty s then scan_loop fuel f size next s else Ret (inr s)
          else
          let s := scan_nonempty s in
          if magic =? magic_RCRD then Ret (inr s) else
          if negb (magic =? magic_RSTR) && negb (magic =? magic_CHKD) then scan_loop fuel f size next s else
          '(r, t) ← ntfs_restart_page_load f rp pos (sc_tick s);
          match r with
          | inr p =>
              let s := scan_found (scan_tick s t) p in
              if pos =? 0 then scan_loop fuel f size next s else Ret (inr s)
          | inl err =>
              if negb (err =? EINVAL) then Ret (inl err) else scan_loop fuel f size next (scan_tick s t)
          end
      end
  end.

(** The more recent of the restart pages that were found. *)
Definition newest (s : scan) : outcome (option (list Z)) :=
  match sc_rstr1 s, sc_rstr2 s with
  | None, Some _ => Panic
  | None, None => Ret None
  | Some (p, _), None => Ret (Some p)
  | Some (p1, lsn1), Some (p2, lsn2) => Ret (Some (if lsn1 <? lsn2 then p2 else p1))
  end.

Definition default_log_page_size : Z :=
  if (NtfsDefaultLogPageSize <=? PAGE_SIZE) && (PAGE_SIZE <=? NtfsDefaultLogPageSize * 2)
  then NtfsDefaultLogPageSize else PAGE_SIZE.

(** [empty] is the flag [NVolLogFileEmpty] of the volume and [vnode_err] the result of
    [vnode_get].  The result is the errno, the flag and the restart page. *)
Definition ntfs_logfile_check (vnode_err : Z) f (data_size : Z) (empty : bool) (t : nat)
    : outcome (Z * bool * option (list Z)) :=
  if empty then Ret (0, true, None) else
  if negb (vnode_err =? 0) then Ret (if vnode_err =? EINVAL then EIO else vnode_err, false, None) else
  let size := if NtfsMaxLogFileSize <? data_size then NtfsMaxLogFileSize else data_size in
  let log_page_size := default_log_page_size in
  let log_page_bits := u8 (ffs log_page_size - 1) in
  let size := Z.land size (Z.lnot (log_page_size - 1)) in
  if (size <? log_page_size * 2) ||
     (Z.shiftr (size - log_page_size * 2) log_page_bits <? NtfsMinLogRecordPages)
  then Ret (EINVAL, false, None) else
  r ← scan_loop 25 f size 0 (mk_scan true false 0 None None t);
  match r with
  | inl err => Ret (err, false, None)
  | inr s =>
      if logfile_is_empty s then Ret (0, true, None) else
      p ← newest s;
      Ret (match p with Some p => (0, false, Some p) | None => (EINVAL, false, None) end)
  end.

Definition ntfs_logfile_is_clean (empty : bool) (rp : option (list Z)) : outcome bool :=
  if empty then Ret true else
  match rp with
  | None => Panic
  | Some rp =>
      magic ← le32_at rp rp_magic;
      if negb (magic =? magic_RSTR) && negb (magic =? magic_CHKD) then Ret false else
      ra_ofs ← le16_at rp rp_restart_area_offset;
      let ra := Z.to_nat ra_ofs in
      used ← le16_at rp (ra + ra_client_in_use_list);
      flags ← le16_at rp (ra + ra_flags);
      Ret (negb (negb (used =? LOGFILE_NO_CLIENT) && (Z.land flags RESTART_VOLUME_IS_CLEAN =? 0)))
  end.

(** The result is the errno, the flag and the contents of the file; [compressed] and
    [encrypted] are flags of the inode. *)
Definition ntfs_logfile_empty (compressed encrypted : bool) (vnode_err : Z) f (data_size : Z) (empty : bool) (t : nat)
    : outcome (Z * bool * contents) :=
  if empty then Ret (0, true, f) else
  if negb (vnode_err =? 0) then Ret (vnode_err, false, f) else
  '(err, f, _) ← ntfs_attr_set compressed encrypted data_size f 0 data_size 0xff t;
  if negb (err =? 0) then Ret (err, false, f) else Ret (0, true, f).

(** ** The search *)

(** The positions at which a restart page may be. *)
Definition scan_pos (pos : Z) : Prop := pos = 0 ∨ ∃ k, 9 ≤ k < 32 ∧ pos = 2 ^ k.

(** The part of the file from [pos] to the end of the page. *)
Definition page_rest f (pos : Z) : list Z := file_bytes f pos (Z.to_nat (PAGE_SIZE - pos mod PAGE_SIZE)).

Lemma pow2_page k : 0 ≤ k → 2 ^ k < PAGE_SIZE ∧ 2 ^ k ≤ PAGE_SIZE / 2 ∨ PAGE_SIZE ≤ 2 ^ k ∧ 2 ^ k mod PAGE_SIZE = 0.
Proof.
  intros Hk. pose proof page_shift_range as Hs. unfold PAGE_SIZE. destruct (decide (k < page_shift)).
  - left. split; [apply Z.pow_lt_mono_r; lia|]. apply Z.div_le_lower_bound; [lia|].
    rewrite <- Z.pow_succ_r by lia. apply Z.pow_le_mono_r; lia.
  - right. split; [apply Z.pow_le_mono_r; lia|]. replace k with (k - page_shift + page_shift) by lia.
    rewrite Z.pow_add_r by lia. apply Z.mod_mul. apply Z.pow_nonzero; lia.
Qed.

Lemma scan_pos_rest pos : scan_pos pos → 0 ≤ pos ∧ 2048 ≤ PAGE_SIZE - pos mod PAGE_SIZE.
Proof.
  pose proof PAGE_SIZE_range as HP. intros [-> |(k & Hk & ->)]; [rewrite Z.mod_0_l by lia; lia|].
  assert (0 < 2 ^ k) as Hk0 by (apply Z.pow_pos_nonneg; lia).
  destruct (pow2_page k) as [[H1 H2]|[H1 ->]]; [lia| |lia]. rewrite Z.mod_small by lia.
  split; [lia|]. zdiv.
Qed.

(** The loop is at [pos]; below the page size the first page is mapped. *)
Definition scan_at (pos : Z) (s : scan) : Prop :=
  pos = 0 ∧ sc_upl s = false ∨
  ∃ k, 9 ≤ k ≤ 32 ∧ pos = 2 ^ k ∧ (pos < PAGE_SIZE → sc_upl s = true ∧ sc_ppos s = 0).

(** [s] and [s'] differ only in what is mapped. *)
Definition same_pages (s s' : scan) : Prop :=
  logfile_is_empty s' = logfile_is_empty s ∧ sc_rstr1 s' = sc_rstr1 s ∧ sc_rstr2 s' = sc_rstr2 s.

Lemma scan_map_at pos s :
  scan_at pos s →
  match scan_map pos s with
  | inl err => err = EIO ∨ err = ENOMEM
  | inr s' => sc_ppos s' + Z.land pos PAGE_MASK = pos ∧ (pos < PAGE_SIZE → sc_upl s' = true ∧ sc_ppos s' = 0) ∧
      same_pages s s'
  end.
Proof.
  pose proof PAGE_SIZE_range as HP. intros Hat. unfold scan_map. rewrite page_pos, page_round.
  assert (pos < PAGE_SIZE ∧ pos mod PAGE_SIZE = pos ∧ PAGE_SIZE * (pos / PAGE_SIZE) = 0 ∧
      (pos = 0 ∨ sc_upl s = true ∧ sc_ppos s = 0) ∨
    PAGE_SIZE ≤ pos ∧ pos mod PAGE_SIZE = 0 ∧ PAGE_SIZE * (pos / PAGE_SIZE) = pos) as Hp.
  { destruct Hat as [[-> Hu]|(k & Hk & -> & Hu)].
    - left. rewrite Z.mod_0_l, Z.div_0_l by lia. split_and!; [lia..|by left].
    - assert (0 < 2 ^ k) as Hk0 by (apply Z.pow_pos_nonneg; lia). destruct (pow2_page k) as [[H1 H2]|[H1 H2]]; [lia|left|right].
      + rewrite Z.mod_small, Z.div_small by lia. split_and!; [lia..|right; auto].
      + split_and!; [done..|]. assert (PAGE_SIZE ≠ 0) as HN by lia. pose proof (Z.div_mod (2 ^ k) PAGE_SIZE HN). lia. }
  destruct (negb (sc_upl s) || negb (PAGE_SIZE * (pos / PAGE_SIZE) =? sc_ppos s)) eqn:Hm;
    [destruct (Z.eqb_spec (page_map_errno (sc_tick s) pos) 0); cbn [negb]; [|apply read_errno_cases]|].
  - cbn. split; [|split; [|done]].
    + destruct Hp as [(H1 & H2 & H3 & [-> |[Hu Hq]])|(H1 & -> & H3)]; [rewrite Z.mod_0_l by lia; lia| |lia].
      rewrite Hu, Hq, H3 in Hm. done.
    + intros Hlt. destruct Hp as [(H1 & H2 & H3 & [-> |[Hu Hq]])|?]; [done| |lia]. rewrite Hu, Hq, H3 in Hm. done.
  - zbool. destruct Hp as [(Q1 & Q2 & Q3 & _)|(Q1 & Q2 & Q3)]; split; [lia| |lia|]; (split; [|done]); [|lia].
    split; [done|]. lia.
Qed.

(** The restart pages that were found are good, and the first is found first. *)
Definition pages_ok (s : scan) : Prop :=
  (∀ p, sc_rstr1 s = Some p → restart_page_ok p.1) ∧ (∀ p, sc_rstr2 s = Some p → restart_page_ok p.1) ∧
  (is_Some (sc_rstr2 s) → is_Some (sc_rstr1 s)).

Lemma scan_found_ok s t p : pages_ok s → restart_page_ok p.1 → pages_ok (scan_found (scan_tick s t) p).
Proof.
  intros (H1 & H2 & H3) Hp. unfold scan_found, scan_tick. cbn. destruct (sc_rstr1 s) as [q|] eqn:E; split_and!; cbn.
  - intros p' [= <-]. auto.
  - by intros ? [= <-].
  - done.
  - by intros ? [= <-].
  - done.
  - done.
Qed.

(** No restart page of the file makes a 16-bit sum overflow. *)
Definition log_ok f : Prop :=
  ∀ pos magic, scan_pos pos → le32_at (page_rest f pos) 0 = Ret magic → magic = magic_RSTR ∨ magic = magic_CHKD →
  no_overflow (page_rest f pos).

(** The next position. *)
Definition scan_next (pos : Z) : Z := Z.shiftl (if pos =? 0 then NTFS_BLOCK_SIZE / 2 else pos) 1.

Lemma scan_next_at pos s s' :
  scan_at pos s → pos < 2 ^ 32 → (pos < PAGE_SIZE → sc_upl s' = true ∧ sc_ppos s' = 0) → scan_at (scan_next pos) s'.
Proof.
  pose proof PAGE_SIZE_range as HP. intros Hat Hlt Hu. right. unfold scan_next. destruct Hat as [[-> _]|(k & Hk & -> & _)].
  - exists 9. split; [lia|]. split; [done|]. intros _. apply Hu. lia.
  - assert (0 < 2 ^ k) as Hk0 by (apply Z.pow_pos_nonneg; lia). rewrite (proj2 (Z.eqb_neq _ _)) by lia.
    exists (k + 1). assert (k < 32) by (apply (Z.pow_lt_mono_r_iff 2); lia). split; [lia|].
    rewrite Z.shiftl_mul_pow2, Z.pow_add_r by lia. split; [done|]. intros Hlt'. apply Hu. lia.
Qed.

(** Rounds that are enough from [pos] on. *)
Definition scan_fuel (fuel : nat) (pos : Z) : Prop :=
  (1 ≤ fuel)%nat ∧ (pos = 0 → (25 ≤ fuel)%nat) ∧ ∀ k, pos = 2 ^ k → 9 ≤ k ≤ 32 → 33 - k ≤ Z.of_nat fuel.

Lemma scan_fuel_next fuel pos s :
  scan_at pos s → pos < 2 ^ 32 → scan_fuel (S fuel) pos → scan_fuel fuel (scan_next pos).
Proof.
  intros Hat Hlt (_ & H0 & Hk). unfold scan_fuel, scan_next. destruct Hat as [[-> _]|(k & Hk' & -> & _)].
  - specialize (H0 eq_refl). split; [lia|]. change (Z.shiftl _ 1) with (2 ^ 9). split; [done|].
    intros k E Hk'. apply Z.pow_inj_r in E; lia.
  - assert (0 < 2 ^ k) as Hk0 by (apply Z.pow_pos_nonneg; lia). rewrite (proj2 (Z.eqb_neq _ _)) by lia.
    assert (k < 32) by (apply (Z.pow_lt_mono_r_iff 2); lia). specialize (Hk k eq_refl ltac:(lia)).
    rewrite Z.shiftl_mul_pow2, <- Z.pow_add_r by lia. split; [lia|]. split.
    + intros E. pose proof (Z.pow_pos_nonneg 2 (k + 1)). lia.
    + intros k' E Hk''. apply Z.pow_inj_r in E; lia.
Qed.

Lemma scan_at_pos pos s : scan_at pos s → pos < 2 ^ 32 → scan_pos pos.
Proof.
  intros [[-> _]|(k & Hk & -> & _)] Hlt; [by left|]. right. exists k. split; [|done].
  split; [lia|]. apply (Z.pow_lt_mono_r_iff 2); lia.
Qed.

Lemma scan_loop_runs fuel f size pos s :
  (∀ x, 0 ≤ f x < 256) → log_ok f → size ≤ 2 ^ 32 → scan_at pos s → scan_fuel fuel pos → pages_ok s →
  runs (scan_loop fuel f size pos s) (λ r, match r with
    | inl err => err = ENOMEM ∨ err = EIO
    | inr s => pages_ok s
    end).
Proof.
  intros Hf Hlog Hsize. revert pos s. induction fuel as [|fuel IH]; intros pos s Hat Hfuel Hok;
    [destruct Hfuel; lia|]. cbn [scan_loop]. destruct (Z.leb_spec size pos); [by apply runs_Ret|].
  pose proof (scan_map_at pos s Hat) as Hmap. destruct (scan_map pos s) as [err|s']; [apply runs_Ret; tauto|].
  destruct Hmap as (Hpp & Hu & He & H1' & H2'). assert (pages_ok s') as Hok' by (unfold pages_ok; by rewrite H1', H2').
  pose proof (scan_at_pos pos s Hat ltac:(lia)) as Hpos. destruct (scan_pos_rest pos Hpos) as [Hpos0 HR].
  rewrite Hpp, page_pos. change (Z.shiftl _ 1) with (scan_next pos). fold (page_rest f pos).
  assert (∀ s', (pos < PAGE_SIZE → sc_upl s' = true ∧ sc_ppos s' = 0) → pages_ok s' →
    runs (scan_loop fuel f size (scan_next pos) s') (λ r, match r with
      | inl err => err = ENOMEM ∨ err = EIO
      | inr s => pages_ok s
      end)) as Hgo.
  { intros s'' Hu'' Hok''. apply IH; [by apply (scan_next_at _ s); try lia|by apply (scan_fuel_next _ _ s); try lia|done]. }
  destruct (le32_runs (page_rest f pos) 0) as (magic & Em & _);
    [by apply file_bytes_bytes|unfold page_rest; rewrite file_bytes_length; lia|].
  rewrite Em. cbn [mbind outcome_bind]. case_match; [case_match; [by apply Hgo|by apply runs_Ret]|].
  case_match; [by apply runs_Ret|]. case_match eqn:Hm; [by apply Hgo|].
  eapply runs_bind; [apply load_runs; [done|done|done|apply (Hlog pos magic); [done|done|zbool; auto]]|].
  intros [[err|p] t'].
  - intros Herr. destruct (Z.eqb_spec err EINVAL); cbn [negb]; [by apply Hgo|apply runs_Ret; tauto].
  - intros Hp. destruct p as [p lsn]. assert (pages_ok (scan_found (scan_tick (scan_nonempty s') t') (p, lsn))) as Hfound
      by by apply scan_found_ok.
    case_match; [|by apply runs_Ret]. apply Hgo; [|done]. unfold scan_found. by destruct (sc_rstr1 _).
Qed.

Lemma is_clean_runs p : restart_page_ok p → runs (ntfs_logfile_is_clean false (Some p)) (λ _, True).
Proof.
  intros (Hb & Hl & ra & Er & Hra & Hra'). unfold ntfs_logfile_is_clean, first_fixup, NTFS_BLOCK_SIZE in *.
  destruct (le32_runs p rp_magic Hb) as (magic & -> & _); [unfold rp_magic; lia|]. cbn [mbind outcome_bind].
  case_match; [by apply runs_Ret|]. rewrite Er. cbn [mbind outcome_bind].
  eapply runs_bind; [apply le16_runs; [done|unfold ra_client_in_use_list; lia]|]. intros used _.
  eapply runs_bind; [apply le16_runs; [done|unfold ra_flags; lia]|]. intros flags _. by apply runs_Ret.
Qed.

Lemma default_log_page_size_pow2 : ∃ j, 12 ≤ j < 32 ∧ default_log_page_size = 2 ^ j.
Proof.
  unfold default_log_page_size, PAGE_SIZE. case_match; [by exists 12|]. exists page_shift. split; [|done].
  pose proof page_shift_range. lia.
Qed.

Lemma log_size_round size :
  ∃ q, Z.land size (Z.lnot (default_log_page_size - 1)) = default_log_page_size * q ∧
    default_log_page_size * q ≤ size < default_log_page_size * (q + 1).
Proof.
  destruct default_log_page_size_pow2 as (j & Hj & ->). exists (size / 2 ^ j). rewrite round_pow2 by lia.
  split; [done|]. assert (2 ^ j ≠ 0) as HN by (apply Z.pow_nonzero; lia).
  pose proof (Z.div_mod size (2 ^ j) HN). pose proof (Z.mod_pos_bound size (2 ^ j)).
  assert (0 < 2 ^ j) by (apply Z.pow_pos_nonneg; lia). lia.
Qed.

(** C32: the check of the journal terminates on every file whose restart pages do not make the
    16-bit sums of the checks overflow, and on every behaviour of memory and page cache: it stays
    inside its buffers and does not panic.  It finds the journal empty, or returns a checked restart
    page, on which the test for a clean shutdown is defined, or one of the errors EINVAL, EIO and
    ENOMEM or that of the vnode. *)
Theorem ntfs_logfile_check_safe vnode_err f data_size empty t :
  (∀ x, 0 ≤ f x < 256) → log_ok f →
  runs (ntfs_logfile_check vnode_err f data_size empty t) (λ '(err, empty', rp),
    err = 0 ∧ empty' = true ∧ rp = None ∨
    err = 0 ∧ empty' = false ∧ (∃ p, rp = Some p ∧ restart_page_ok p) ∧
      runs (ntfs_logfile_is_clean empty' rp) (λ _, True) ∨
    (err = EINVAL ∨ err = EIO ∨ err = ENOMEM ∨ err = vnode_err) ∧ empty' = false ∧ rp = None).
Proof.
  intros Hf Hlog. unfold ntfs_logfile_check. destruct empty; [apply runs_Ret; auto|].
  case_match; [apply runs_Ret; right; right; split; [case_match; auto|done]|].
  set (size := if NtfsMaxLogFileSize <? data_size then _ else _). case_match; [apply runs_Ret; tauto|].
  assert (size ≤ 2 ^ 32) as Hmax by (unfold size, NtfsMaxLogFileSize; ztests). clearbody size.
  assert (Z.land size (Z.lnot (default_log_page_size - 1)) ≤ 2 ^ 32) as Hs
    by (destruct (log_size_round size) as (q & -> & Hq); lia).
  eapply runs_bind; [apply scan_loop_runs; [done|done|exact Hs|by left| |]|].
  - split; [lia|]. split; [lia|]. intros k E Hk. pose proof (Z.pow_pos_nonneg 2 k). lia.
  - split_and!; [done..|by intros [? ?]].
  - intros [err|s]; [intros [-> | ->]; apply runs_Ret; tauto|]. intros (H1 & H2 & H3).
    case_match; [apply runs_Ret; auto|]. unfold newest.
    destruct (sc_rstr1 s) as [[p1 lsn1]|] eqn:E1, (sc_rstr2 s) as [[p2 lsn2]|] eqn:E2; cbn [mbind outcome_bind].
    + apply runs_Ret. right. left. assert (restart_page_ok (if lsn1 <? lsn2 then p2 else p1)) as Hp
        by (case_match; [apply (H2 (p2, lsn2))|apply (H1 (p1, lsn1))]; done).
      split_and!; [done..|eauto|by apply is_clean_runs].
    + apply runs_Ret. right. left. specialize (H1 _ eq_refl). split_and!; [done..|eauto|by apply is_clean_runs].
    + by destruct H3.
    + apply runs_Ret. tauto.
Qed.

(** ** The result on a working page cache *)

Section working.
Hypothesis page_map_works : ∀ t ofs, page_map_errno t ofs = 0.

Lemma scan_map_works pos s :
  scan_at pos s → ∃ s', scan_map pos s = inr s' ∧ sc_ppos s' + Z.land pos PAGE_MASK = pos ∧
    (pos < PAGE_SIZE → sc_upl s' = true ∧ sc_ppos s' = 0) ∧ same_pages s s'.
Proof.
  intros Hat. pose proof (scan_map_at pos s Hat) as Hm. destruct (scan_map pos s) as [err|s'] eqn:E.
  - unfold scan_map in E. rewrite page_map_works in E. cbn [negb Z.eqb] in E. by case_match.
  - exists s'. done.
Qed.

(** One round of the search. *)
Lemma scan_loop_step fuel f size pos s magic :
  scan_at pos s → pos < size → le32_at (page_rest f pos) 0 = Ret magic →
  ∃ s', (pos < PAGE_SIZE → sc_upl s' = true ∧ sc_ppos s' = 0) ∧ same_pages s s' ∧
    scan_loop (S fuel) f size pos s =
      if magic =? magic_empty then
        if logfile_is_empty s' then scan_loop fuel f size (scan_next pos) s' else Ret (inr s')
      else
      let s := scan_nonempty s' in
      if magic =? magic_RCRD then Ret (inr s) else
      if negb (magic =? magic_RSTR) && negb (magic =? magic_CHKD) then scan_loop fuel f size (scan_next pos) s else
      '(r, t) ← ntfs_restart_page_load f (page_rest f pos) pos (sc_tick s);
      match r with
      | inr p =>
          let s := scan_found (scan_tick s t) p in
          if pos =? 0 then scan_loop fuel f size (scan_next pos) s else Ret (inr s)
      | inl err =>
          if negb (err =? EINVAL) then Ret (inl err) else scan_loop fuel f size (scan_next pos) (scan_tick s t)
      end.
Proof.
  intros Hat Hlt Em. destruct (scan_map_works pos s Hat) as (s' & E & Hpp & Hu & Hs). exists s'. split; [done|].
  split; [done|]. cbn [scan_loop]. rewrite (proj2 (Z.leb_gt _ _)) by done. rewrite E, Hpp, page_pos.
  fold (page_rest f pos). by rewrite Em.
Qed.

(** An empty journal is searched to its end. *)
Lemma scan_loop_empty fuel f size pos s :
  (∀ pos, scan_pos pos → pos < size → le32_at (page_rest f pos) 0 = Ret magic_empty) →
  size ≤ 2 ^ 32 → scan_at pos s → scan_fuel fuel pos → logfile_is_empty s = true →
  ∃ s', scan_loop fuel f size pos s = Ret (inr s') ∧ logfile_is_empty s' = true.
Proof.
  intros Hf Hsize. revert pos s. induction fuel as [|fuel IH]; intros pos s Hat Hfuel He; [destruct Hfuel; lia|].
  destruct (Z_lt_le_dec pos size) as [Hlt|Hge].
  - destruct (scan_loop_step fuel f size pos s magic_empty Hat Hlt) as (s' & Hu & (He' & _) & ->).
    { apply Hf; [apply (scan_at_pos pos s); [done|lia]|done]. }
    rewrite Z.eqb_refl, He', He. apply IH; [by apply (scan_next_at _ s); try lia|by apply (scan_fuel_next _ _ s); try lia|].
    by rewrite He'.
  - cbn [scan_loop]. rewrite (proj2 (Z.leb_le _ _)) by lia. by exists s.
Qed.

(** Positions with other data are passed. *)
Lemma scan_loop_skip fuel f size j k s :
  9 ≤ j ≤ k → k ≤ 32 → 2 ^ k ≤ size → scan_at (2 ^ j) s → scan_fuel fuel (2 ^ j) →
  (∀ i, j ≤ i < k → ∃ magic, le32_at (page_rest f (2 ^ i)) 0 = Ret magic ∧
    magic ∉ [magic_empty; magic_RCRD; magic_RSTR; magic_CHKD]) →
  logfile_is_empty s = false →
  ∃ fuel' s', scan_loop fuel f size (2 ^ j) s = scan_loop fuel' f size (2 ^ k) s' ∧
    scan_at (2 ^ k) s' ∧ scan_fuel fuel' (2 ^ k) ∧ same_pages s s'.
Proof.
  intros Hjk Hk Hsize. remember (Z.to_nat (k - j)) as n eqn:En. revert fuel j s Hjk En.
  induction n as [|n IH]; intros fuel j s Hjk En Hat Hfuel Hother He.
  - replace k with j by lia. by exists fuel, s.
  - assert (2 ^ j < 2 ^ k) as Hjlt by (apply Z.pow_lt_mono_r; lia).
    assert (2 ^ k ≤ 2 ^ 32) as H32 by (apply Z.pow_le_mono_r; lia).
    destruct fuel as [|fuel]; [destruct Hfuel; lia|].
    destruct (Hother j ltac:(lia)) as (magic & Em & Hm).
    destruct (scan_loop_step fuel f size (2 ^ j) s magic Hat ltac:(lia) Em) as (s' & Hu & Hs & ->).
    repeat (rewrite (proj2 (Z.eqb_neq magic _)) by (intros ->; apply Hm; rewrite !elem_of_cons; auto)). cbn [negb andb].
    assert (scan_next (2 ^ j) = 2 ^ (j + 1)) as En'.
    { unfold scan_next. rewrite (proj2 (Z.eqb_neq _ _)) by (apply Z.pow_nonzero; lia).
      by rewrite Z.shiftl_mul_pow2, <- Z.pow_add_r by lia. }
    pose proof (scan_next_at _ _ (scan_nonempty s') Hat ltac:(lia) Hu) as Hat'.
    pose proof (scan_fuel_next _ _ _ Hat ltac:(lia) Hfuel) as Hfuel'. rewrite En' in *.
    destruct (IH fuel (j + 1) (scan_nonempty s')) as (fuel' & s'' & E & H1 & H2 & H3); [lia|lia|done|done| |done|].
    { intros i Hi. apply Hother. lia. }
    exists fuel', s''. split_and!; [done..|]. destruct Hs as (Q1 & Q2 & Q3), H3 as (Q4 & Q5 & Q6).
    cbn in *. split_and!; congruence.
Qed.

(** The journal is large enough for the restart pages and 48 pages of records. *)
Definition log_size_ok (data_size : Z) : Prop :=
  (2 + NtfsMinLogRecordPages) * default_log_page_size ≤ Z.min NtfsMaxLogFileSize data_size.

Lemma check_large f data_size t :
  log_size_ok data_size →
  ∃ q, 50 ≤ q ∧ default_log_page_size * q ≤ Z.min (2 ^ 32) data_size ∧
  ntfs_logfile_check 0 f data_size false t =
    r ← scan_loop 25 f (default_log_page_size * q) 0 (mk_scan true false 0 None None t);
    match r with
    | inl err => Ret (err, false, None)
    | inr s =>
        if logfile_is_empty s then Ret (0, true, None) else
        p ← newest s;
        Ret (match p with Some p => (0, false, Some p) | None => (EINVAL, false, None) end)
    end.
Proof.
  unfold log_size_ok, ntfs_logfile_check. cbn [Z.eqb negb]. intros Hsize.
  set (size := if NtfsMaxLogFileSize <? data_size then _ else _).
  assert (size = Z.min NtfsMaxLogFileSize data_size) as Es by (unfold size; ztests; lia). rewrite <- Es in Hsize.
  destruct (log_size_round size) as (q & -> & Hq). destruct default_log_page_size_pow2 as (j & Hj & Ej). rewrite Ej in *.
  assert (0 < 2 ^ j) as H0 by (apply Z.pow_pos_nonneg; lia). unfold NtfsMaxLogFileSize, NtfsMinLogRecordPages in *.
  assert (50 ≤ q) as Hq50 by nia. exists q. split; [done|]. split; [lia|].
  rewrite ffs_pow2, uwrap_id, Z.shiftr_div_pow2 by (change (2 ^ 8) with 256; lia).
  replace (j + 1 - 1) with j by lia. replace (2 ^ j * q - 2 ^ j * 2) with ((q - 2) * 2 ^ j) by lia.
  rewrite Z.div_mul by lia. rewrite (proj2 (Z.ltb_ge (2 ^ j * q) _)), (proj2 (Z.ltb_ge (q - 2) _)) by nia. done.
Qed.

Lemma scan_fuel_init : scan_fuel 25 0.
Proof. split; [lia|]. split; [lia|]. intros k E Hk. pose proof (Z.pow_pos_nonneg 2 k). lia. Qed.

(** Of two restart pages that can be loaded, one at the start of the file and one at a power of
    two with nothing but other data between them, the one with the higher lsn is returned. *)
Theorem ntfs_logfile_check_newest f data_size t k magic1 magic2 p1 lsn1 p2 lsn2 :
  log_size_ok data_size → 9 ≤ k → 2 ^ k < default_log_page_size * 50 →
  le32_at (page_rest f 0) 0 = Ret magic1 → magic1 ∈ [magic_RSTR; magic_CHKD] →
  le32_at (page_rest f (2 ^ k)) 0 = Ret magic2 → magic2 ∈ [magic_RSTR; magic_CHKD] →
  (∀ i, 9 ≤ i < k → ∃ magic, le32_at (page_rest f (2 ^ i)) 0 = Ret magic ∧
    magic ∉ [magic_empty; magic_RCRD; magic_RSTR; magic_CHKD]) →
  (∀ t, ∃ t', ntfs_restart_page_load f (page_rest f 0) 0 t = Ret (inr (p1, lsn1), t')) →
  (∀ t, ∃ t', ntfs_restart_page_load f (page_rest f (2 ^ k)) (2 ^ k) t = Ret (inr (p2, lsn2), t')) →
  ntfs_logfile_check 0 f data_size false t = Ret (0, false, Some (if lsn1 <? lsn2 then p2 else p1)).
Proof.
  intros Hsize Hk9 Hk Em1 Hm1 Em2 Hm2 Hother Hload1 Hload2. destruct (check_large f data_size t Hsize) as (q & Hq & Hq' & ->).
  set (size := default_log_page_size * q) in *. assert (2 ^ k < size) as Hks.
  { destruct default_log_page_size_pow2 as (j & Hj & Ej). unfold size. rewrite Ej in *.
    assert (0 < 2 ^ j) by (apply Z.pow_pos_nonneg; lia). nia. }
  assert (0 < 2 ^ k) as Hk0 by (apply Z.pow_pos_nonneg; lia). assert (k < 32) as Hk32 by (apply (Z.pow_lt_mono_r_iff 2); lia).
  set (s0 := mk_scan true false 0 None None t). assert (scan_at 0 s0) as Hat0 by by left.
  destruct (scan_loop_step 24 f size 0 s0 magic1 Hat0 ltac:(lia) Em1) as (s1 & Hu1 & (_ & H11 & H12) & ->).
  assert (∀ m, m ∈ [magic_RSTR; magic_CHKD] → (m =? magic_empty) = false ∧ (m =? magic_RCRD) = false ∧
    negb (m =? magic_RSTR) && negb (m =? magic_CHKD) = false) as Hmagic.
  { intros m [-> |[-> |Hnil]%elem_of_cons]%elem_of_cons; [done..|]. by apply not_elem_of_nil in Hnil. }
  destruct (Hmagic _ Hm1) as (-> & -> & ->). cbv zeta.
  destruct (Hload1 (sc_tick (scan_nonempty s1))) as (t1 & ->). cbn [mbind outcome_bind Z.eqb].
  set (s2 := scan_found (scan_tick (scan_nonempty s1) t1) (p1, lsn1)).
  assert (s2 = mk_scan false (sc_upl s1) (sc_ppos s1) (Some (p1, lsn1)) None t1) as Es2.
  { unfold s2, scan_found. cbn. by rewrite H11, H12. }
  pose proof (scan_next_at _ _ s2 Hat0 ltac:(lia)) as Hat2. pose proof (scan_fuel_next 24 0 s0 Hat0 ltac:(lia) scan_fuel_init) as Hf2.
  change (scan_next 0) with (2 ^ 9) in *.
  destruct (scan_loop_skip 24 f size 9 k s2) as (fuel & s3 & -> & Hat3 & Hf3 & (He3 & H31 & H32)); [lia|lia|lia| |done|done| |].
  { apply Hat2. rewrite Es2. apply Hu1. }
  { by rewrite Es2. }
  rewrite Es2 in He3, H31, H32. cbn in He3, H31, H32. destruct fuel as [|fuel]; [destruct Hf3; lia|].
  destruct (scan_loop_step fuel f size (2 ^ k) s3 magic2 Hat3 Hks Em2) as (s4 & Hu4 & (_ & H41 & H42) & ->).
  destruct (Hmagic _ Hm2) as (-> & -> & ->). cbv zeta. destruct (Hload2 (sc_tick (scan_nonempty s4))) as (t2 & ->).
  cbn [mbind outcome_bind]. rewrite (proj2 (Z.eqb_neq (2 ^ k) 0)) by lia. cbn [mbind outcome_bind].
  unfold scan_found, newest. cbn. rewrite H41, H31. cbn. done.
Qed.

(** A file of ones has the magic of empty records. *)
Lemma filled_empty_magic f f' data_size q pos :
  filled f 0 data_size 0xff f' → default_log_page_size * q ≤ data_size → scan_pos pos → pos < default_log_page_size * q →
  le32_at (page_rest f' pos) 0 = Ret magic_empty.
Proof.
  intros Hf Hq Hpos Hlt. destruct (scan_pos_rest pos Hpos) as [H0 HR].
  assert (pos + 4 ≤ data_size) as Hd.
  { destruct default_log_page_size_pow2 as (j & Hj & Ej). rewrite Ej in *.
    replace j with (j - 9 + 9) in * by lia. rewrite Z.pow_add_r in * by lia. change (2 ^ 9) with 512 in *.
    destruct Hpos as [-> |(k & Hk & ->)]; [lia|]. replace k with (k - 9 + 9) in * by lia. rewrite Z.pow_add_r in * by lia.
    change (2 ^ 9) with 512 in *. lia. }
  assert (∀ i, (i < 4)%nat → rd (page_rest f' pos) i = Ret 0xff) as Hr.
  { intros i Hi. apply rd_Ret. unfold page_rest. rewrite file_bytes_lookup by lia. f_equal. rewrite Hf.
    by rewrite (proj2 (Z.leb_le _ _)), (proj2 (Z.ltb_lt _ _)) by lia. }
  unfold le32_at, le16_at. cbn [Nat.add]. by rewrite !Hr by lia.
Qed.

(** C33: emptying the journal succeeds only with the flag of the volume set, and a later check of
    the journal, for instance at the next mount, finds it empty. *)
Theorem ntfs_logfile_empty_check f data_size f' flag t t' :
  log_size_ok data_size →
  ntfs_logfile_empty false false 0 f data_size false t = Ret (0, flag, f') →
  flag = true ∧ ntfs_logfile_check 0 f' data_size false t' = Ret (0, true, None).
Proof.
  intros Hsize He. destruct (check_large f' data_size t' Hsize) as (q & Hq & Hq' & ->).
  assert (0 < data_size) as Hd by (pose proof PAGE_SIZE_range; destruct default_log_page_size_pow2 as (j & Hj & Ej);
    assert (0 < 2 ^ j) by (apply Z.pow_pos_nonneg; lia); unfold log_size_ok, NtfsMinLogRecordPages in Hsize;
    rewrite Ej in Hsize; lia).
  unfold ntfs_logfile_empty in He. cbn [Z.eqb negb] in He.
  destruct (attr_set_runs data_size f 0 data_size 0xff t) as ([[err g] t''] & E & Hpost); [lia..|].
  rewrite E in He. cbn [mbind outcome_bind] in He. rewrite (proj2 (Z.ltb_ge data_size _)), andb_false_r in Hpost by lia.
  destruct Hpost as (b & Hb & Hall & Hfill). destruct (Z.eqb_spec err 0) as [->|]; cbn [negb] in He; [|by injection He].
  injection He as <- <-. rewrite (Hall eq_refl), Z.add_0_l in Hfill. split; [done|].
  destruct (scan_loop_empty 25 g (default_log_page_size * q) 0 (mk_scan true false 0 None None t')) as (s & -> & Hs);
    [|lia|by left|apply scan_fuel_init|done|].
  - intros pos Hpos Hlt. apply (filled_empty_magic f g data_size q); [done|lia|done|done].
  - cbn [mbind outcome_bind]. by rewrite Hs.
Qed.
End working.
End check.

(** ** Journals to evaluate the model on *)

(** Two restart pages with the lsns 1 and 2; the second says that the volume is clean. *)
Definition sample_journal : Z → Z := sample_log (sample_restart 0 1 0 0 ++ sample_restart 4096 2 0 2).

Definition loaded (f : Z → Z) (pos : Z) : list Z :=
  match @ntfs_restart_page_load page_cache_4k data_allocator f (@page_rest page_cache_4k f pos) pos 0 with
  | Ret (inr (p, _), _) => p
  | _ => []
  end.

Lemma ntfs_logfile_empty_check_witness :
  ∃ f', @ntfs_logfile_empty page_cache_4k false false 0 (λ _, 0) 262144 false 0 = Ret (0, true, f') ∧
    true = true ∧ @ntfs_logfile_check page_cache_4k data_allocator 0 f' 262144 false 0 = Ret (0, true, None).
Proof.
  eexists. split; [reflexivity|].
  eapply (@ntfs_logfile_empty_check page_cache_4k data_allocator ltac:(done) (λ _, 0) 262144 _ true 0 0); [by vm_compute|].
  reflexivity.
Defined.

(** A file whose only restart page is good. *)
Definition single_journal : Z → Z := sample_log (sample_restart 0 1 0 2).

Lemma single_journal_bytes x : 0 ≤ single_journal x < 256.
Proof.
  assert (∀ l, Forall (λ p, Forall (λ x, 0 ≤ x < 256) p.2) l → ∀ x, 0 ≤ sparse l x < 256) as Hs.
  { clear. intros l Hl x. induction Hl as [|[o b] l Hb _ IH]; [done|]. cbn [sparse]. case_match; [|done].
    destruct (nth_in_or_default (Z.to_nat (x - o)) b 0) as [Hin| ->]; [|done].
    apply list_elem_of_In in Hin. by apply (proj1 (list.Forall_forall _ _) Hb). }
  unfold single_journal, sample_log. case_match; [done|]. apply Hs. apply (bool_decide_unpack _). by vm_compute.
Qed.

Lemma single_journal_ok : @log_ok page_cache_4k single_journal.
Proof.
  intros pos magic [-> |(k & Hk & ->)] Em Hm.
  - split.
    + intros ofs count H1 H2. vm_compute in H1, H2. by simplify_eq.
    + intros ra ca cl H1 H2 H3. vm_compute in H1. injection H1 as <-. vm_compute in H2, H3. by simplify_eq.
  - exfalso. assert (∃ i, (i < 23)%nat ∧ k = 9 + Z.of_nat i) as (i & Hi & ->)
      by (exists (Z.to_nat (k - 9)); lia).
    do 23 (destruct i as [|i]; [vm_compute in Em; injection Em as <-; by destruct Hm|]). lia.
Qed.

Lemma ntfs_logfile_check_safe_witness :
  runs (@ntfs_logfile_check page_cache_4k data_allocator 0 single_journal 262144 false 0) (λ '(err, empty', rp),
    err = 0 ∧ empty' = true ∧ rp = None ∨
    err = 0 ∧ empty' = false ∧ (∃ p, rp = Some p ∧ restart_page_ok p) ∧
      runs (ntfs_logfile_is_clean empty' rp) (λ _, True) ∨
    (err = EINVAL ∨ err = EIO ∨ err = ENOMEM ∨ err = 0) ∧ empty' = false ∧ rp = None).
Proof. apply (@ntfs_logfile_check_safe page_cache_4k data_allocator 0); [apply single_journal_bytes|apply single_journal_ok]. Defined.

(** The decision on a clean shutdown is that of the newer restart page. *)
Example sample_journal_clean :
  (r ← @ntfs_logfile_check page_cache_4k data_allocator 0 sample_journal 262144 false 0;
   let '(err, empty, rp) := r in ntfs_logfile_is_clean empty rp) = Ret true ∧
  (r ← @ntfs_logfile_check page_cache_4k data_allocator 0
         (sample_log (sample_restart 0 1 0 2 ++ sample_restart 4096 2 0 0)) 262144 false 0;
   let '(err, empty, rp) := r in ntfs_logfile_is_clean empty rp) = Ret false.
Proof. split; vm_compute; reflexivity. Qed.

(** A torn restart page whose contents lie in its first sector is accepted on purpose, but the
    fixup has overwritten its magic, so that the volume is reported as dirty although the page says
    that it is clean. *)
Example torn_restart_page_is_dirty :
  let f := λ x, if x =? 1022 then 8 else single_journal x in
  (r ← @ntfs_logfile_check page_cache_4k data_allocator 0 f 262144 false 0;
   let '(err, empty, rp) := r in
   clean ← ntfs_logfile_is_clean empty rp;
   Ret (err, empty, clean)) = Ret (0, false, false).
Proof. vm_compute. reflexivity. Qed.
