(* ===== verification/Bitmap.v ===== *)
(** * Bitmaps

    [kext/ntfs_bitmap.c]: setting and clearing runs of bits in a bitmap that is
    stored in the pages of an attribute.  The page cache is a parameter. *)

From S2P Require Import Prelude PageCache.

(** The contents of the bitmap attribute: the byte at every offset. *)
Abbreviation bitmap := contents.

(** The bit [i] of the bitmap. *)
Definition bit_of (bm : bitmap) (i : Z) : bool := Z.testbit (bm (i / 8)) (i mod 8).

Section bitmap.
Context `{!PageCache}.

(** ** Operations *)

(** [*byte |= 1 << bit] and [*byte &= ~(1 << bit)]. *)
Definition assign_bit (value bit byte : Z) : Z :=
  if negb (value =? 0) then Z.lor byte (Z.shiftl 1 bit)
  else Z.land byte (Z.lnot (Z.shiftl 1 bit)).

(** [while ((bit & 7) && cnt)]; at most seven bits of the byte are left. *)
Fixpoint first_byte (fuel : nat) (value bit cnt byte : Z) : Z * Z :=
  match fuel with
  | O => (byte, cnt)
  | S fuel =>
      if negb (Z.land bit 7 =? 0) && negb (cnt =? 0)
      then first_byte fuel value (bit + 1) (cnt - 1) (assign_bit value bit byte)
      else (byte, cnt)
  end.

(** [while (bit--)]. *)
Fixpoint last_byte (bit : nat) (value byte : Z) : Z :=
  match bit with
  | O => byte
  | S bit => last_byte bit value (assign_bit value (Z.of_nat bit) byte)
  end.

(** How the function ends: done, an error at the first page, or an error at a
    later page with [cnt] bits not modified yet. *)
Inductive bm_end := bm_done | bm_first (err : Z) | bm_later (err cnt : Z).

(** The loop over the subsequent pages, and the last partial byte.  Every page but the
    last takes [8 * PAGE_SIZE] bits, so [cnt / (8 * PAGE_SIZE) + 2] rounds are
    enough. *)
Fixpoint bm_pages (fuel : nat) (value ofs end_ofs cnt len : Z) (bm : bitmap) (t : nat)
    : outcome (bm_end * bitmap * nat) :=
  match fuel with
  | O => Oob
  | S fuel =>
      if ofs <? end_ofs then
        if cnt <=? 0 then Panic else
        let ofs := ofs + PAGE_SIZE in
        let err := page_map_errno t ofs in
        if negb (err =? 0) then Ret (bm_later err cnt, bm, S t) else
        let len := PAGE_SIZE in
        let rem := Z.shiftr cnt 3 in
        let len := if rem <? len then rem else len in
        bm ← page_memset ofs 0 (if negb (value =? 0) then 0xff else 0) len bm;
        bm_pages fuel value ofs end_ofs (cnt - Z.shiftl len 3) len bm (S t)
      else if negb (cnt =? 0) then
        if 7 <? cnt then Panic else
        byte ← page_get ofs len bm;
        bm ← page_put ofs len (last_byte (Z.to_nat cnt) value byte) bm;
        Ret (bm_done, bm, t)
      else Ret (bm_done, bm, t)
  end.

(** The function up to the label [rollback]. *)
Definition bm_set (start_bit count value : Z) (bm : bitmap) (t : nat)
    : outcome (bm_end * bitmap * nat) :=
  if start_bit <? 0 then Panic else
  if count <? 0 then Panic else
  if 1 <? value then Panic else
  let cnt := count in
  let ofs := Z.land (Z.shiftr start_bit 3) (Z.lnot PAGE_MASK) in
  let end_ofs := u64 (Z.land (Z.shiftr (start_bit + cnt - 1) 3) (Z.lnot PAGE_MASK)) in
  let err := page_map_errno t ofs in
  if negb (err =? 0) then Ret (bm_first err, bm, S t) else
  let pos := Z.land (Z.shiftr start_bit 3) PAGE_MASK in
  let bit := Z.land start_bit 7 in
  '(bm, cnt, pos, partial) ←
    (if negb (bit =? 0) then
       byte ← page_get ofs pos bm;
       let '(byte, cnt) := first_byte 8 value bit cnt byte in
       bm ← page_put ofs pos byte bm;
       Ret (bm, cnt, pos + 1, true)
     else Ret (bm, cnt, pos, false));
  if (partial : bool) && (cnt =? 0) then Ret (bm_done, bm, S t) else
  let len := PAGE_SIZE - pos in
  let rem := Z.shiftr cnt 3 in
  let len := if rem <? len then rem else len in
  bm ← page_memset ofs pos (if negb (value =? 0) then 0xff else 0) len bm;
  let cnt := cnt - Z.shiftl len 3 in
  let len := if cnt <? 8 then len + pos else len in
  bm_pages (Z.to_nat (cnt / (8 * PAGE_SIZE)) + 2) value ofs end_ofs cnt len bm (S t).

(** [__ntfs_bitmap_set_bits_in_run] with [is_rollback] set: errors are returned. *)
Definition ntfs_bitmap_rollback (start_bit count value : Z) (bm : bitmap) (t : nat)
    : outcome (Z * bitmap * nat) :=
  '(e, bm, t) ← bm_set start_bit count value bm t;
  match e with
  | bm_done => Ret (0, bm, t)
  | bm_first err | bm_later err _ => Ret (err, bm, t)
  end.

(** The result is the errno, whether the volume was marked with
    [NVolSetErrors], and the bitmap. *)
Definition ntfs_bitmap_set_bits_in_run (start_bit count value : Z) (bm : bitmap) (t : nat)
    : outcome (Z * bool * bitmap * nat) :=
  '(e, bm, t) ← bm_set start_bit count value bm t;
  match e with
  | bm_done => Ret (0, false, bm, t)
  | bm_first err => Ret (err, false, bm, t)
  | bm_later err cnt =>
      '(err2, bm, t) ←
        (if negb (count =? cnt)
         then ntfs_bitmap_rollback start_bit (count - cnt) (if negb (value =? 0) then 0 else 1) bm t
         else Ret (0, bm, t));
      Ret (err, negb (err2 =? 0), bm, t)
  end.

Definition ntfs_bitmap_set_run (start_bit count : Z) := ntfs_bitmap_set_bits_in_run start_bit count 1.
Definition ntfs_bitmap_clear_run (start_bit count : Z) := ntfs_bitmap_set_bits_in_run start_bit count 0.
Definition ntfs_bitmap_set_bit (bit : Z) := ntfs_bitmap_set_run bit 1.
Definition ntfs_bitmap_clear_bit (bit : Z) := ntfs_bitmap_clear_run bit 1.
End bitmap.

(** ** Bits *)

(** [bm'] is [bm] with the [n] bits from [a] on set to [v]. *)
Definition set_to (v : bool) (a n : Z) (bm bm' : bitmap) : Prop :=
  ∀ i, 0 ≤ i → bit_of bm' i = if (a <=? i) && (i <? a + n) then v else bit_of bm i.

Lemma set_to_nil v a bm : set_to v a 0 bm bm.
Proof. intros i _. ztests; done || lia. Qed.

Lemma set_to_app v a n m bm bm1 bm2 :
  0 ≤ n → 0 ≤ m → set_to v a n bm bm1 → set_to v (a + n) m bm1 bm2 → set_to v a (n + m) bm bm2.
Proof. intros Hn Hm H1 H2 i Hi. rewrite H2, H1 by done. ztests; done || lia. Qed.

Lemma set_to_same v a n bm bm' :
  set_to v a n bm bm' → (∀ i, 0 ≤ i → a ≤ i < a + n → bit_of bm i = v) →
  ∀ i, 0 ≤ i → bit_of bm' i = bit_of bm i.
Proof. intros H1 H2 i Hi. rewrite H1 by done. ztests; rewrite ?H2 by lia; done. Qed.

Lemma assign_bit_spec value bit byte j :
  0 ≤ bit → 0 ≤ j →
  Z.testbit (assign_bit value bit byte) j = if j =? bit then negb (value =? 0) else Z.testbit byte j.
Proof.
  intros Hb Hj. unfold assign_bit. rewrite Z.shiftl_1_l. destruct (value =? 0); cbn [negb].
  - rewrite Z.land_spec, Z.lnot_spec, Z.pow2_bits_eqb, Z.eqb_sym by done.
    destruct (Z.eqb_spec j bit); [apply andb_false_r|apply andb_true_r].
  - rewrite Z.lor_spec, Z.pow2_bits_eqb, Z.eqb_sym by done.
    destruct (Z.eqb_spec j bit); [apply orb_true_r|apply orb_false_r].
Qed.

Lemma first_byte_spec fuel value bit cnt byte :
  1 ≤ bit ≤ 8 → 0 ≤ cnt → 8 - bit ≤ Z.of_nat fuel →
  let n := Z.min cnt (8 - bit) in
  ∃ byte', first_byte fuel value bit cnt byte = (byte', cnt - n) ∧
    ∀ j, 0 ≤ j → Z.testbit byte' j =
      if (bit <=? j) && (j <? bit + n) then negb (value =? 0) else Z.testbit byte j.
Proof.
  revert bit cnt byte. induction fuel as [|fuel IH]; intros bit cnt byte Hb Hc Hf n; cbn [first_byte].
  { exists byte. split; [f_equal; lia|]. intros j Hj. ztests; done || lia. }
  assert ((Z.land bit 7 =? 0) = (bit =? 8)) as ->.
  { change 7 with (Z.ones 3). rewrite Z.land_ones by done. change (2 ^ 3) with 8.
    destruct (Z.eqb_spec bit 8) as [-> |]; [done|]. apply Z.eqb_neq. zdiv. }
  destruct (Z.eqb_spec bit 8), (Z.eqb_spec cnt 0); cbn [negb andb].
  1-3: exists byte; split; [f_equal; lia|]; intros j Hj; ztests; done || lia.
  destruct (IH (bit + 1) (cnt - 1) (assign_bit value bit byte)) as (byte' & -> & Hbit); [lia..|].
  exists byte'. split; [f_equal; lia|]. intros j Hj. rewrite Hbit, assign_bit_spec by lia.
  ztests; done || lia.
Qed.

Lemma last_byte_spec n value byte j :
  0 ≤ j → Z.testbit (last_byte n value byte) j =
    if j <? Z.of_nat n then negb (value =? 0) else Z.testbit byte j.
Proof.
  intros Hj. revert byte. induction n as [|n IH]; intros byte; cbn [last_byte]; [by ztests|].
  rewrite IH, assign_bit_spec by lia. ztests; done || lia.
Qed.

(** Changing some bits of one byte. *)
Lemma set_to_byte v B lo n x (bm : bitmap) :
  0 ≤ B → 0 ≤ lo → 0 ≤ n → lo + n ≤ 8 →
  (∀ j, 0 ≤ j → Z.testbit x j = if (lo <=? j) && (j <? lo + n) then v else Z.testbit (bm B) j) →
  set_to v (8 * B + lo) n bm (λ i, if i =? B then x else bm i).
Proof.
  intros HB Hlo Hn Hle Hx i Hi. unfold bit_of.
  assert (i = 8 * (i / 8) + i mod 8) as E by zdiv. assert (0 ≤ i mod 8 < 8) by zdiv.
  destruct (Z.eqb_spec (i / 8) B) as [<-|Hne].
  - rewrite Hx by lia. ztests; done || lia.
  - ztests; done || lia.
Qed.

(** Changing whole bytes. *)
Lemma set_to_bytes (value : Z) B n (bm : bitmap) :
  0 ≤ B → 0 ≤ n →
  set_to (negb (value =? 0)) (8 * B) (8 * n) bm
    (λ i, if (B <=? i) && (i <? B + n) then if negb (value =? 0) then 0xff else 0 else bm i).
Proof.
  intros HB Hn i Hi. unfold bit_of.
  assert (i = 8 * (i / 8) + i mod 8) as E by zdiv. assert (0 ≤ i mod 8 < 8) by zdiv.
  assert (Z.testbit (if negb (value =? 0) then 255 else 0) (i mod 8) = negb (value =? 0)) as Hff.
  { destruct (value =? 0); cbn [negb]; [apply Z.bits_0|].
    change 255 with (Z.ones 8). apply Z.ones_spec_low. lia. }
  ztests; done || lia.
Qed.

(** Setting a single bit. *)
Lemma set_bit_byte bm B b : 0 ≤ B → 0 ≤ b < 8 → set_to true (8 * B + b) 1 bm (λ i, if i =? B then Z.lor (bm B) (Z.shiftl 1 b) else bm i).
Proof.
  intros HB Hb. apply set_to_byte; [lia..|]. intros j Hj. pose proof (assign_bit_spec 1 b (bm B) j) as H. unfold assign_bit in H. cbn [Z.eqb negb] in H. rewrite H by lia.
  ztests; done || lia.
Qed.
Lemma set_range bit byte : 0 ≤ byte < 256 → 0 ≤ bit < 8 → 0 ≤ Z.lor byte (Z.shiftl 1 bit) < 256.
Proof.
  intros H Hb. set (x := Z.lor _ _). assert (0 ≤ x) as H0 by (apply Z.lor_nonneg; split; [lia|apply Z.shiftl_nonneg; lia]).
  assert (x = x mod 2 ^ 8) as ->; [|apply Z.mod_pos_bound; lia]. apply Z.bits_inj'. intros j Hj. destruct (Z.ltb_spec j 8); [by rewrite Z.mod_pow2_bits_low by lia|].
  rewrite Z.mod_pow2_bits_high by lia. unfold x. rewrite Z.lor_spec. replace byte with (byte mod 2 ^ 8) by (apply Z.mod_small; lia). rewrite Z.mod_pow2_bits_high by lia.
  rewrite Z.shiftl_1_l, Z.pow2_bits_false by lia. done.
Qed.
Lemma full_byte bm i : bm (i / 8) = 0xff → bit_of bm i = true.
Proof. intros H. unfold bit_of. rewrite H. change 0xff with (Z.ones 8). apply Z.ones_spec_low. zdiv. Qed.

(** ** The loops *)

Section spec.
Context `{!PageCache}.

(** An errno of the page cache. *)
Definition map_failed (err : Z) : Prop := err ≠ 0 ∧ ∃ t ofs, page_map_errno t ofs = err.

(** How the function may end when [cnt] bits from [cur] on were to be set to [v]. *)
Definition bm_post (v : bool) (cur cnt : Z) (bm bm' : bitmap) (e : bm_end) : Prop :=
  match e with
  | bm_done => set_to v cur cnt bm bm'
  | bm_first err => map_failed err ∧ bm' = bm
  | bm_later err c => map_failed err ∧ 0 < c ≤ cnt ∧ set_to v cur (cnt - c) bm bm'
  end.

(** The position in front of the page loop: the end is in the current page, or the
    current page is finished. *)
Definition bm_at (k e cur cnt len : Z) : Prop :=
  (k = e ∧ 0 ≤ cnt < 8 ∧ cur = 8 * (PAGE_SIZE * k + len) ∧ 0 ≤ len ∧ (0 < cnt → len < PAGE_SIZE)) ∨
  (k < e ∧ 0 < cnt ∧ cur = 8 * (PAGE_SIZE * (k + 1))).

(** Where the end of the bits is, when [len] bytes of the page [k] are done. *)
Lemma bm_at_next k E cur pos cnt :
  let P := PAGE_SIZE in
  let rem := cnt / 8 in
  let len := if rem <? P - pos then rem else P - pos in
  cur = 8 * (P * k + pos) → 0 ≤ pos ≤ P → 0 ≤ cnt → (pos < P ∨ 0 < cnt) → 0 < cnt ∨ 0 < pos →
  cur + cnt = E →
  bm_at k ((E - 1) / 8 / P) (cur + 8 * len) (cnt - 8 * len) (pos + len).
Proof.
  intros P rem len Hcur Hpos Hcnt Hp1 Hp2 HE. pose proof PAGE_SIZE_pos as HP. fold P in HP.
  assert (8 * rem ≤ cnt < 8 * rem + 8) as Hrem by (unfold rem; zdiv).
  unfold bm_at. fold P. unfold len. destruct (Z.ltb_spec rem (P - pos)).
  - left. assert ((E - 1) / 8 / P = k) as -> by (apply page_of; fold P; zdiv). lia.
  - destruct (decide (cnt - 8 * (P - pos) = 0)) as [Hz|Hz].
    + left. assert ((E - 1) / 8 / P = k) as -> by (apply page_of; fold P; zdiv). lia.
    + right. split; [|lia]. apply Z.lt_le_trans with (k + 1); [lia|].
      apply Z.div_le_lower_bound; [done|]. zdiv.
Qed.

Lemma bm_pages_spec fuel value k E cur cnt len bm t :
  let e := (E - 1) / 8 / PAGE_SIZE in
  bm_at k e cur cnt len → 0 ≤ k → cur + cnt = E →
  (k < e → cnt / (8 * PAGE_SIZE) + 2 ≤ Z.of_nat fuel) → (0 < fuel)%nat →
  ∃ r bm' t', bm_pages fuel value (PAGE_SIZE * k) (PAGE_SIZE * e) cnt len bm t = Ret (r, bm', t') ∧
    bm_post (negb (value =? 0)) cur cnt bm bm' r ∧ ∀ err, r ≠ bm_first err.
Proof.
  intros e. pose proof PAGE_SIZE_pos as HP. set (P := PAGE_SIZE) in *.
  revert k cur cnt len bm t. induction fuel as [|fuel IH]; intros k cur cnt len bm t Hat Hk HE Hf Hf0; [lia|].
  cbn [bm_pages]. fold P. destruct Hat as [(Hke & Hcnt & Hcur & Hlen & Hlp)|(Hke & Hcnt & Hcur)]; fold P in Hcur.
  - rewrite (proj2 (Z.ltb_ge _ _)) by nia. destruct (Z.eqb_spec cnt 0) as [Hz|Hz]; cbn [negb].
    { eexists _, _, _. split; [done|]. split; [|done]. simpl. rewrite Hz. apply set_to_nil. }
    rewrite (proj2 (Z.ltb_ge _ _)) by lia. unfold page_get, page_put. fold P.
    rewrite (proj2 (Z.leb_le _ _)), (proj2 (Z.ltb_lt len P)) by lia. cbn [andb mbind outcome_bind].
    eexists _, _, _. split; [done|]. split; [|done]. simpl. rewrite Hcur. replace (8 * (P * k + len)) with (8 * (P * k + len) + 0) by lia.
    apply set_to_byte; [nia|lia..|]. intros j Hj. rewrite last_byte_spec by done. ztests; done || lia.
  - rewrite (proj2 (Z.ltb_lt _ _)), (proj2 (Z.leb_gt _ _)) by nia.
    replace (P * k + P) with (P * (k + 1)) by lia.
    destruct (Z.eqb_spec (page_map_errno t (P * (k + 1))) 0) as [_|Herr]; cbn [negb].
    2: { eexists _, _, _. split; [done|]. split; [|done]. split; [by split; [|eauto]|]. split; [lia|].
      rewrite Z.sub_diag. apply set_to_nil. }
    rewrite Z.shiftr_div_pow2 by lia. change (2 ^ 3) with 8.
    pose proof (bm_at_next (k + 1) E cur 0 cnt) as Hnext. fold P in Hnext. cbv zeta in Hnext.
    rewrite Z.sub_0_r, !Z.add_0_r, !Z.add_0_l in Hnext. fold e in Hnext.
    specialize (Hnext Hcur ltac:(lia) ltac:(lia) ltac:(lia) ltac:(lia) HE).
    set (n := if cnt / 8 <? P then cnt / 8 else P) in *.
    assert (0 ≤ n ≤ P ∧ 8 * n ≤ cnt) as [Hn Hn8] by (unfold n; ztests; zdiv).
    unfold page_memset. fold P. rewrite (proj2 (Z.leb_le 0 n)), (proj2 (Z.leb_le _ P)) by lia.
    cbn [andb Z.leb Z.compare mbind outcome_bind]. rewrite Z.shiftl_mul_pow2, (Z.mul_comm n) by lia. change (2 ^ 3) with 8.
    rewrite !Z.add_0_r.
    set (bm1 := λ i : Z, if (P * (k + 1) <=? i) && _ then _ else _).
    assert (set_to (negb (value =? 0)) cur (8 * n) bm bm1) as H1.
    { rewrite Hcur. pose proof (set_to_bytes value (P * (k + 1)) n bm ltac:(nia) ltac:(lia)) as Hs.
      exact Hs. }
    destruct (IH (k + 1) (cur + 8 * n) (cnt - 8 * n) n bm1 (S t)) as (r & bm' & t' & -> & Hpost & Hr); [done|lia|lia| | |].
    + intros Hke'. destruct Hnext as [(? & _)|(_ & Hc & Hc2)]; [lia|]. fold P in Hc2.
      assert (n = P) as En by nia. rewrite En. replace (cnt - 8 * P) with (cnt + (-1) * (8 * P)) by lia.
      rewrite Z.div_add by lia. specialize (Hf Hke). lia.
    + specialize (Hf Hke). assert (0 ≤ cnt / (8 * P)) by (apply Z.div_pos; lia). lia.
    + eexists _, _, _. split; [done|]. split; [|done]. destruct r as [|err|err c]; simpl in *.
      * replace cnt with (8 * n + (cnt - 8 * n)) by lia. by eapply set_to_app; [lia..|done|done].
      * by destruct (Hr err).
      * destruct Hpost as (? & ? & Hset). split; [done|]. split; [lia|].
        replace (cnt - c) with (8 * n + (cnt - 8 * n - c)) by lia. by eapply set_to_app; [lia..|done|done].
Qed.

Lemma bm_set_spec start count value bm t :
  0 ≤ start → 1 ≤ count → start + count ≤ 2 ^ 63 → value = 0 ∨ value = 1 →
  ∃ r bm' t', bm_set start count value bm t = Ret (r, bm', t') ∧
    bm_post (negb (value =? 0)) start count bm bm' r.
Proof.
  intros Hs Hc Hmax Hv. pose proof PAGE_SIZE_pos as HP. set (v := negb (value =? 0)) in *.
  unfold bm_set. rewrite (proj2 (Z.ltb_ge start 0)), (proj2 (Z.ltb_ge count 0)), (proj2 (Z.ltb_ge 1 value)) by lia.
  rewrite !Z.shiftr_div_pow2, !page_round, page_pos by lia. change (2 ^ 3) with 8.
  set (P := PAGE_SIZE) in *. set (B := start / 8). set (k := B / P).
  set (E := start + count). set (e := (E - 1) / 8 / P).
  assert (0 ≤ B) by (unfold B; zdiv). assert (0 ≤ k) by (apply Z.div_pos; lia).
  assert (B = P * k + B mod P) as HB by (apply Z.div_mod; lia).
  pose proof (Z.mod_pos_bound B P HP) as Hpos.
  assert (0 ≤ P * e < 2 ^ 64) as He.
  { assert (0 ≤ (E - 1) / 8 < 2 ^ 63) by (unfold E; zdiv).
    assert (0 ≤ e) by (apply Z.div_pos; lia). pose proof (Z.mul_div_le ((E - 1) / 8) P HP). unfold e in *. nia. }
  replace (start + count - 1) with (E - 1) by (unfold E; lia). fold e. rewrite uwrap_id by done.
  destruct (Z.eqb_spec (page_map_errno t (P * k)) 0) as [_|Herr]; cbn [negb].
  2: { eexists _, _, _. split; [done|]. split; [by split; [|eauto]|done]. }
  assert (Z.land start 7 = start mod 8) as ->.
  { change 7 with (Z.ones 3). by rewrite Z.land_ones by done. }
  set (bit := start mod 8). assert (start = 8 * B + bit ∧ 0 ≤ bit < 8) as [HsB Hbit] by (unfold B, bit; zdiv).
  set (n := if bit =? 0 then 0 else Z.min count (8 - bit)).
  assert (0 ≤ n ≤ count) as Hn by (unfold n; ztests).
  set (pos := if bit =? 0 then B mod P else B mod P + 1).
  assert (∃ bm1, (if negb (bit =? 0) then
      byte ← page_get (P * k) (B mod P) bm;
      let '(byte, cnt) := first_byte 8 value bit count byte in
      bm ← page_put (P * k) (B mod P) byte bm; Ret (bm, cnt, B mod P + 1, true)
    else Ret (bm, count, B mod P, false)) = Ret (bm1, count - n, pos, negb (bit =? 0)) ∧
    set_to v start n bm bm1) as (bm1 & -> & Hbm1).
  { unfold n, pos. destruct (Z.eqb_spec bit 0) as [Hz|Hz]; cbn [negb].
    - exists bm. rewrite Z.sub_0_r. split; [done|apply set_to_nil].
    - unfold page_get, page_put. fold P. rewrite (proj2 (Z.leb_le _ _)), (proj2 (Z.ltb_lt _ P)) by lia.
      cbn [andb mbind outcome_bind]. rewrite <- HB.
      destruct (first_byte_spec 8 value bit count (bm B)) as (byte & -> & Hb); [lia..|].
      cbn [mbind outcome_bind]. eexists. split; [done|]. rewrite HsB. by apply set_to_byte; [lia..|]. }
  cbn [mbind outcome_bind].
  destruct (negb (bit =? 0) && (count - n =? 0)) eqn:Hdone.
  { eexists _, _, _. split; [done|]. simpl. zbool. by replace count with n by lia. }
  rewrite !Z.shiftr_div_pow2 by lia. change (2 ^ 3) with 8.
  set (cnt := count - n) in *. set (len := if cnt / 8 <? P - pos then cnt / 8 else P - pos).
  assert (start + n = 8 * (P * k + pos) ∧ 0 < cnt ∧ 0 ≤ pos ≤ P) as (Hcur & Hcnt & HposP).
  { revert Hdone. unfold pos, cnt, n. destruct (Z.eqb_spec bit 0); cbn [negb andb]; [lia|].
    destruct (Z.eqb_spec (count - Z.min count (8 - bit)) 0); [done|]. lia. }
  pose proof (bm_at_next k E (start + n) pos cnt Hcur HposP ltac:(lia) ltac:(lia) ltac:(lia)
    ltac:(unfold E, cnt; lia)) as Hat. cbv zeta in Hat. fold P len e in Hat.
  assert (0 ≤ len ≤ P - pos ∧ 8 * len ≤ cnt) as [Hlen Hlen8] by (unfold len; ztests; zdiv).
  unfold page_memset. fold P. rewrite (proj2 (Z.leb_le 0 pos)), (proj2 (Z.leb_le 0 len)), (proj2 (Z.leb_le _ P)) by lia.
  cbn [andb mbind outcome_bind]. rewrite !Z.shiftl_mul_pow2, !(Z.mul_comm len) by lia. change (2 ^ 3) with 8.
  set (bm2 := λ i : Z, if (P * k + pos <=? i) && _ then _ else _).
  assert (set_to v start (n + 8 * len) bm bm2) as Hbm2.
  { eapply set_to_app; [lia..|done|]. rewrite Hcur. by apply (set_to_bytes value (P * k + pos) len bm1); [nia|lia]. }
  destruct (bm_pages_spec (Z.to_nat ((cnt - 8 * len) / (8 * P)) + 2) value k E (start + n + 8 * len) (cnt - 8 * len)
    (if cnt - 8 * len <? 8 then len + pos else len) bm2 (S t)) as (r & bm' & t' & Hr & Hpost & Hnf).
  { destruct Hat as [(? & ? & ? & ? & ?)|?]; [left|by right]. rewrite (proj2 (Z.ltb_lt _ 8)), (Z.add_comm len) by lia. done. }
  { done. } { unfold E, cnt. lia. } { intros _. fold P. assert (0 ≤ (cnt - 8 * len) / (8 * P)) by (apply Z.div_pos; lia). lia. } { lia. }
  eexists _, _, _. split; [exact Hr|]. fold v in Hpost. destruct r as [|err|err c]; simpl in *.
  - replace count with (n + 8 * len + (cnt - 8 * len)) by (unfold cnt; lia).
    eapply set_to_app; [lia..|done|]. by rewrite Z.add_assoc.
  - by destruct (Hnf err).
  - destruct Hpost as (? & ? & Hset). split; [done|]. split; [unfold cnt in *; lia|].
    replace (count - c) with (n + 8 * len + (cnt - 8 * len - c)) by (unfold cnt; lia).
    eapply set_to_app; [lia..|done|]. by rewrite Z.add_assoc.
Qed.

(** What setting the bits of the run to [value] does, with the result [err] and whether errors are
    noted on the volume. *)
Definition run_post (start count value : Z) (bm : bitmap) (err : Z) (errors : bool) (bm' : bitmap) : Prop :=
  (err = 0 → errors = false ∧ set_to (negb (value =? 0)) start count bm bm') ∧
  (err ≠ 0 → ∃ t ofs, page_map_errno t ofs = err) ∧
  (∀ i, 0 ≤ i → i < start ∨ start + count ≤ i → bit_of bm' i = bit_of bm i) ∧
  (err ≠ 0 → errors = false → ∃ n, 0 ≤ n < count ∧ set_to (value =? 0) start n bm bm').

Lemma set_to_outside v start n count bm bm' i : set_to v start n bm bm' → n ≤ count → 0 ≤ i → i < start ∨ start + count ≤ i → bit_of bm' i = bit_of bm i.
Proof. intros Hset Hn Hi Ho. rewrite Hset by done. ztests; done || lia. Qed.
Lemma set_to_again v v' start n bm bm1 bm2 : set_to v start n bm bm1 → set_to v' start n bm1 bm2 → set_to v' start n bm bm2.
Proof. intros H1 H2 i Hi. rewrite H2, H1 by done. by destruct (_ && _). Qed.

Lemma bitmap_set_bits start count value bm t :
  0 ≤ start → 1 ≤ count → start + count ≤ 2 ^ 63 → value = 0 ∨ value = 1 →
  ∃ err errors bm' t', ntfs_bitmap_set_bits_in_run start count value bm t = Ret (err, errors, bm', t') ∧ run_post start count value bm err errors bm'.
Proof.
  intros Hs Hc Hmax Hv. unfold ntfs_bitmap_set_bits_in_run, run_post.
  destruct (bm_set_spec start count value bm t) as (r & bm1 & t1 & -> & Hpost); [done..|].
  cbn [mbind outcome_bind]. destruct r as [|err|err c]; simpl in Hpost.
  - eexists _, _, _, _. split; [done|]. split; [by split|]. split; [done|]. split; [|done]. intros i. by apply (set_to_outside _ _ _ _ _ _ _ Hpost).
  - destruct Hpost as [[Herr ?] ->]. eexists _, _, _, _. split; [done|]. split_and!; try done. intros _ _. exists 0. split; [lia|apply set_to_nil].
  - destruct Hpost as ([Herr ?] & Hcc & Hset). destruct (Z.eqb_spec count c) as [<- |Hne]; cbn [negb].
    { rewrite Z.sub_diag in Hset. eexists _, _, _, _. split; [done|]. split_and!; try done.
      - intros i. apply (set_to_outside _ _ _ _ _ _ _ Hset). lia.
      - intros _ _. exists 0. split; [lia|]. eapply set_to_again; [exact Hset|apply set_to_nil]. }
    unfold ntfs_bitmap_rollback. set (value' := if negb (value =? 0) then 0 else 1).
    destruct (bm_set_spec start (count - c) value' bm1 t1) as (r & bm2 & t2 & -> & Hpost);
      [lia..|unfold value'; case_match; auto|].
    replace (negb (value' =? 0)) with (value =? 0) in Hpost by (unfold value'; by destruct Hv as [-> | ->]).
    assert (∀ i, 0 ≤ i → i < start ∨ start + count ≤ i → bit_of bm2 i = bit_of bm1 i) as Hout.
    { intros i Hi Ho. destruct r as [|err2|err2 c2]; simpl in Hpost; [|by destruct Hpost as [_ ->]|destruct Hpost as (_ & Hc2 & Hpost)];
        apply (set_to_outside _ _ _ count _ _ _ Hpost); lia || done. }
    assert (∀ i, 0 ≤ i → i < start ∨ start + count ≤ i → bit_of bm2 i = bit_of bm i) as Hout'.
    { intros i Hi Ho. rewrite Hout by done. apply (set_to_outside _ _ _ count _ _ _ Hset); lia || done. }
    cbn [mbind outcome_bind]. destruct r as [|err2|err2 c2]; simpl in Hpost; eexists _, _, _, _; (split; [done|]);
      (split; [done|]); (split; [done|]); (split; [done|]); intros _ Hflag.
    2-3: destruct Hpost as [[??] _]; by rewrite (proj2 (Z.eqb_neq _ _)) in Hflag.
    exists (count - c). split; [lia|]. by eapply set_to_again.
Qed.

(** C19: setting or clearing a run of bits.  On success exactly the bits of the run have the new value, on
    every page.  An error is one of the page cache.  Whatever happens, no bit outside of the run changes.
    After an error that could be rolled back, so that no errors are noted on the volume, the bits at the
    start of the run that had been written have the opposite value and all others are as they were: a
    run of bits that all had the opposite value before is as it was, but a bit that already had the
    new value is not restored. *)
Theorem ntfs_bitmap_set_bits_in_run_spec start count value bm t :
  0 ≤ start → 1 ≤ count → start + count ≤ 2 ^ 63 → value = 0 ∨ value = 1 →
  ∃ err errors bm' t', ntfs_bitmap_set_bits_in_run start count value bm t = Ret (err, errors, bm', t') ∧
    run_post start count value bm err errors bm' ∧
    (err ≠ 0 → errors = false → (∀ i, start ≤ i < start + count → bit_of bm i = (value =? 0)) →
       ∀ i, 0 ≤ i → bit_of bm' i = bit_of bm i).
Proof.
  intros Hs Hc Hmax Hv. destruct (bitmap_set_bits start count value bm t Hs Hc Hmax Hv) as (err & errors & bm' & t' & E & Hp). exists err, errors, bm', t'. split; [done|].
  split; [done|]. intros He Hf Hold i Hi. destruct Hp as (_ & _ & _ & Hn). destruct (Hn He Hf) as (n & Hn' & Hset). rewrite Hset by done.
  destruct (Z.leb_spec start i), (Z.ltb_spec i (start + n)); cbn [andb]; try done. symmetry. apply Hold. lia.
Qed.

(** With a page cache that does not fail the bits are set. *)
Lemma bitmap_set_works start count value bm t :
  (∀ t ofs, page_map_errno t ofs = 0) →
  0 ≤ start → 1 ≤ count → start + count ≤ 2 ^ 63 → value = 0 ∨ value = 1 →
  ∃ bm' t', ntfs_bitmap_set_bits_in_run start count value bm t = Ret (0, false, bm', t') ∧
    set_to (negb (value =? 0)) start count bm bm'.
Proof.
  intros Hmap Hs Hc Hmax Hv.
  destruct (bitmap_set_bits start count value bm t Hs Hc Hmax Hv) as (err & errors & bm' & t' & E & H0 & Hne & _).
  destruct (decide (err = 0)) as [->|Herr].
  - destruct (H0 eq_refl) as [-> Hset]. eauto.
  - destruct (Hne Herr) as (t0 & ofs & He). by rewrite Hmap in He.
Qed.

End spec.

(** Nothing is to be done for a count of 0, but at the start of the bitmap the last
    bit is then -1, which is taken for one in the last page of all. *)
Example ntfs_bitmap_set_no_bits :
  @ntfs_bitmap_set_bits_in_run page_cache_4k 0 0 1 (λ _, 0) 0 = Panic.
Proof. vm_compute. reflexivity. Qed.

Lemma ntfs_bitmap_set_bits_in_run_spec_witness :
  ∃ err errors bm' t', @ntfs_bitmap_set_bits_in_run page_cache_4k 32765 70000 1 (λ _, 0) 0 = Ret (err, errors, bm', t') ∧
    @run_post page_cache_4k 32765 70000 1 (λ _, 0) err errors bm' ∧
    (err ≠ 0 → errors = false → (∀ i, 32765 ≤ i < 32765 + 70000 → bit_of (λ _, 0) i = (1 =? 0)) →
       ∀ i, 0 ≤ i → bit_of bm' i = bit_of (λ _, 0) i).
Proof. apply (@ntfs_bitmap_set_bits_in_run_spec page_cache_4k); [lia..|by right]. Defined.
