(* ===== verification/LcnFree.v ===== *)
(** * Freeing clusters

    [kext/ntfs_lcnalloc.c]: the clusters of a part of a runlist are returned to the
    volume by clearing their bits in the bitmap of the volume. *)

From S2P Require Import Prelude Runlist RunlistBuf RunlistQuery PageCache Bitmap Boot.

(** ** State *)

(** The part of the volume that the cluster allocator changes: its zones, the number of
    free clusters, whether errors were noted on the volume, and the contents of $Bitmap.
    [lv_tick] counts the requests to the page cache. *)
Record lcn_vol := mk_lcn_vol {
  lv_zones : zones;
  nr_free_clusters : Z;
  lv_errors : bool;
  lv_bitmap : bitmap;
  lv_tick : nat
}.

Section free.
Context {PC : PageCache}.

(** ** Operations *)

(** [NVolSetErrors]. *)
Definition NVolSetErrors (s : lcn_vol) : lcn_vol :=
  mk_lcn_vol (lv_zones s) (nr_free_clusters s) true (lv_bitmap s) (lv_tick s).

(** [nr_free_clusters += n], capped by the size of the volume. *)
Definition add_free (nr_clusters n : Z) (s : lcn_vol) : lcn_vol :=
  let free := nr_free_clusters s + n in
  mk_lcn_vol (lv_zones s) (if nr_clusters <? free then nr_clusters else free) (lv_errors s) (lv_bitmap s) (lv_tick s).

(** [ntfs_bitmap_clear_run] on $Bitmap. *)
Definition clear_run (s : lcn_vol) (lcn n : Z) : outcome (Z * lcn_vol) :=
  '(err, flag, bm, t) ← ntfs_bitmap_clear_run lcn n (lv_bitmap s) (lv_tick s);
  Ret (err, mk_lcn_vol (lv_zones s) (nr_free_clusters s) (lv_errors s || flag) bm t).

(** [if (count >= 0 && to_free > count) to_free = count]. *)
Definition cap_count (count to_free : Z) : Z := if (0 <=? count) && (count <? to_free) then count else to_free.

(** [if (count >= 0) count -= to_free]. *)
Definition less_count (count to_free : Z) : Z := if 0 <=? count then count - to_free else count.

(** The remaining runs; the number of freed clusters and what is left of [count]. *)
Fixpoint free_runs (nr_clusters : Z) (l : list ntfs_rl_element) (count real_freed : Z) (s : lcn_vol)
    : outcome (Z * Z * lcn_vol) :=
  match l with
  | [] => Oob
  | e :: l =>
      if (rlen e =? 0) || (count =? 0) then Ret (real_freed, count, s) else
      let s := if lcn e <? LCN_HOLE then NVolSetErrors s else s in
      let to_free := cap_count count (rlen e) in
      if 0 <=? lcn e then
        '(err, s) ← clear_run s (lcn e) to_free;
        let s := if negb (err =? 0) then NVolSetErrors s else add_free nr_clusters to_free s in
        free_runs nr_clusters l (less_count count to_free) (real_freed + to_free) s
      else free_runs nr_clusters l (less_count count to_free) real_freed s
  end.

(** The result is the errno, the number of clusters freed and the volume. *)
Definition ntfs_cluster_free_from_rl_nolock (nr_clusters : Z) (rl : list ntfs_rl_element) (start_vcn count : Z)
    (s : lcn_vol) : outcome (Z * Z * lcn_vol) :=
  if start_vcn <? 0 then Panic else
  if count <? -1 then Panic else
  o ← ntfs_rl_find_vcn_nolock rl start_vcn;
  match o with
  | None => Ret (0, 0, s)
  | Some i =>
      e ← rd rl i;
      if lcn e <? LCN_HOLE then Ret (EIO, 0, s) else
      let delta := start_vcn - vcn e in
      let to_free := cap_count count (rlen e - delta) in
      '(err, real_freed, s) ←
        (if 0 <=? lcn e then
           '(err, s) ← clear_run s (lcn e + delta) to_free;
           Ret (if negb (err =? 0) then (err, 0, s) else (0, to_free, add_free nr_clusters to_free s))
         else Ret (0, 0, s));
      if negb (err =? 0) then Ret (err, 0, s) else
      '(real_freed, count, s) ← free_runs nr_clusters (drop (i + 1) rl) (less_count count to_free) real_freed s;
      if 0 <? count then Panic else
      Ret (0, real_freed, s)
  end.

(** [vnode_err] is the result of [vnode_get]. *)
Definition ntfs_cluster_free_from_rl (vnode_err nr_clusters : Z) (rl : list ntfs_rl_element) (start_vcn count : Z)
    (s : lcn_vol) : outcome (Z * Z * lcn_vol) :=
  if negb (vnode_err =? 0) then Ret (vnode_err, 0, s)
  else ntfs_cluster_free_from_rl_nolock nr_clusters rl start_vcn count s.
End free.

(** ** Which clusters are freed *)

(** The run [e] maps a VCN of [from, to) to the cluster [i]. *)
Definition run_frees (from to : Z) (e : ntfs_rl_element) (i : Z) : bool :=
  (0 <=? lcn e) && (lcn e + (Z.max from (vcn e) - vcn e) <=? i) && (i <? lcn e + (Z.min to (vcn e + rlen e) - vcn e)).

Definition frees (from to : Z) (l : list ntfs_rl_element) (i : Z) : bool :=
  existsb (λ e, run_frees from to e i) l.

Lemma frees_cons from to e l i : frees from to (e :: l) i = run_frees from to e i || frees from to l i.
Proof. done. Qed.

Lemma nr_real_cons from to e l : nr_real from to (e :: l) = real_in from to e + nr_real from to l.
Proof. done. Qed.

Lemma frees_past from a to b l i : wf_rl a b l → to ≤ a → frees from to l i = false.
Proof.
  revert a. induction l as [|e l IH]; intros a Hwf Ha; [done|].
  apply wf_rl_cons_inv in Hwf as (<- & [(?&->&?)|(?&?&Hwf)]); rewrite frees_cons; unfold run_frees.
  - cbn. ztests; done || lia.
  - rewrite (IH _ Hwf) by lia. ztests; done || lia.
Qed.

Lemma frees_from a b from from' to l i : wf_rl a b l → from ≤ a → from' ≤ a → frees from to l i = frees from' to l i.
Proof.
  revert a. induction l as [|e l IH]; intros a Hwf H1 H2; [done|].
  apply wf_rl_cons_inv in Hwf as (<- & [(?&->&?)|(?&?&Hwf)]); rewrite !frees_cons; unfold run_frees.
  - by replace (Z.max from (vcn e)) with (Z.max from' (vcn e)) by lia.
  - rewrite (IH _ Hwf) by lia. by replace (Z.max from (vcn e)) with (Z.max from' (vcn e)) by lia.
Qed.

Lemma nr_real_from a b from from' to l : wf_rl a b l → from ≤ a → from' ≤ a → nr_real from to l = nr_real from' to l.
Proof.
  revert a. induction l as [|e l IH]; intros a Hwf H1 H2; [done|].
  apply wf_rl_cons_inv in Hwf as (<- & [(?&->&?)|(?&?&Hwf)]); rewrite !nr_real_cons; unfold real_in.
  - by replace (Z.max from (vcn e)) with (Z.max from' (vcn e)) by lia.
  - rewrite (IH _ Hwf) by lia. by replace (Z.max from (vcn e)) with (Z.max from' (vcn e)) by lia.
Qed.

Lemma nr_real_nonneg from to l : 0 ≤ nr_real from to l.
Proof. induction l as [|e l IH]; [done|]. rewrite nr_real_cons. unfold real_in. case_match; lia. Qed.

(** In terms of the map that the runlist denotes. *)
Lemma frees_lcn_of a b from to l i :
  wf_rl a b l → frees from to l i = true ↔ ∃ v, from ≤ v < to ∧ lcn_of l v = Some i ∧ 0 ≤ i.
Proof.
  revert a. induction l as [|e l IH]; intros a Hwf; [by apply wf_rl_not_nil in Hwf|].
  apply wf_rl_cons_inv in Hwf as (<- & [(Hlen & -> & Ht)|(Hlen & Hlcn & Hwf)]); rewrite frees_cons; cbn [lcn_of].
  - cbn [frees existsb]. rewrite orb_false_r. unfold run_frees, LCN_HOLE in *. zdec. split; [done|].
    intros (v & Hv & Hl & _). revert Hl. ztests; done || lia.
  - rewrite orb_true_iff, (IH _ Hwf). unfold run_frees. split.
    + intros [Hr|(v & Hv & Hl & Hi)].
      * apply andb_prop in Hr as [[Hr1%Z.leb_le Hr2%Z.leb_le]%andb_prop Hr3%Z.ltb_lt].
        exists (vcn e + (i - lcn e)). split; [lia|]. unfold run_lcn. zdec. split; [f_equal; lia|lia].
      * exists v. split; [done|]. split; [|done]. destruct (decide (v < vcn e + rlen e)); [|ztests; done || lia].
        rewrite (lcn_of_wf_lt _ _ _ _ Hwf) in Hl by lia. done.
    + intros (v & Hv & Hl & Hi). revert Hl. case_match eqn:Hin; [|eauto 10]. intros [= <-]. left.
      apply andb_prop in Hin as [H1%Z.leb_le H2%Z.ltb_lt]. unfold run_lcn in *. ztests; lia.
Qed.

(** The clusters of real runs have addresses of 63 bits. *)
Definition addressable (l : list ntfs_rl_element) : Prop :=
  Forall (λ e, 0 ≤ lcn e → lcn e + rlen e ≤ 2 ^ 63) l.

(** ** Freeing on any page cache *)

Section safe.
Context {PC : PageCache}.

Lemma clear_run_runs s x n :
  0 ≤ x → 1 ≤ n → x + n ≤ 2 ^ 63 → runs (clear_run s x n) (λ r, lv_zones r.2 = lv_zones s).
Proof.
  intros Hx Hn Hmax. unfold clear_run, ntfs_bitmap_clear_run.
  destruct (bitmap_set_bits x n 0 (lv_bitmap s) (lv_tick s)) as (err & flag & bm' & t' & -> & _); [done..|by left|].
  by apply runs_Ret.
Qed.

Lemma free_runs_runs nr_clusters c b l junk real s :
  wf_rl c b l → addressable l →
  runs (free_runs nr_clusters (l ++ junk) (-1) real s) (λ r, lv_zones r.2 = lv_zones s ∧ r.1.2 = -1).
Proof.
  revert c real s. induction l as [|e l IH]; intros c real s Hwf Ha; [by apply wf_rl_not_nil in Hwf|].
  apply list.Forall_cons in Ha as [Hae Ha]. apply wf_rl_cons_inv in Hwf as (<- & [(Hlen & -> & _)|(Hlen & _ & Hwf)]);
    cbn [app free_runs].
  { rewrite Hlen. by apply runs_Ret. }
  rewrite (proj2 (Z.eqb_neq (rlen e) 0)) by lia. cbn [orb Z.eqb].
  change (cap_count (-1) (rlen e)) with (rlen e). change (less_count (-1) (rlen e)) with (-1).
  assert (lv_zones (if lcn e <? LCN_HOLE then NVolSetErrors s else s) = lv_zones s) as Ez by by case_match.
  destruct (Z.leb_spec 0 (lcn e)).
  - eapply runs_bind; [apply clear_run_runs; lia|]. intros [err s1] Hz. cbn in Hz.
    eapply runs_mono; [by eapply IH|]. intros r [-> ->]. split; [|done]. rewrite <- Ez, <- Hz. by destruct (err =? 0).
  - eapply runs_mono; [by eapply IH|]. intros r [-> ->]. done.
Qed.

(** Freeing all of a runlist whose first run is real. *)
Lemma free_all_runs nr_clusters b l junk s :
  wf_rl 0 b l → 0 < b → addressable l → LCN_HOLE ≤ default (-5) (lcn_of l 0) →
  runs (ntfs_cluster_free_from_rl_nolock nr_clusters (l ++ junk) 0 (-1) s) (λ r, lv_zones r.2 = lv_zones s).
Proof.
  intros Hwf Hb Ha Hl. destruct l as [|e l]; [by apply wf_rl_not_nil in Hwf|].
  apply list.Forall_cons in Ha as [Hae Ha]. apply wf_rl_cons_inv in Hwf as (Hv & [(_ & _ & [Hvb _])|(Hlen & _ & Hwf)]); [lia|].
  assert (LCN_HOLE ≤ lcn e) as Hh.
  { revert Hl. cbn. rewrite Hv. zdec. cbn. unfold run_lcn, LCN_HOLE. ztests; lia. }
  destruct (wf_rl_head _ _ _ Hwf) as (e1 & l1 & El & He1).
  assert (ntfs_rl_find_vcn_nolock ((e :: l) ++ junk) 0 = Ret (Some 0%nat)) as Hfind.
  { unfold ntfs_rl_find_vcn_nolock. rewrite El. cbn [app find_vcn_loop]. by zdec. }
  unfold ntfs_cluster_free_from_rl_nolock. rewrite Hfind. change (0 <? 0) with false. change (-1 <? -1) with false.
  cbn [mbind outcome_bind]. change (rd ((e :: l) ++ junk) 0) with (Ret e). change (drop (0 + 1) ((e :: l) ++ junk)) with (l ++ junk).
  cbn [mbind outcome_bind]. rewrite (proj2 (Z.ltb_ge (lcn e) _)) by done. rewrite Hv, Z.sub_0_r, Z.sub_0_r, Z.add_0_r. change (cap_count (-1) (rlen e)) with (rlen e).
  change (less_count (-1) (rlen e)) with (-1).
  eapply (runs_bind _ _ (λ r, lv_zones r.2 = lv_zones s)).
  { destruct (Z.leb_spec 0 (lcn e)); [|by apply runs_Ret].
    eapply runs_bind; [apply clear_run_runs; lia|]. intros [err s1] Hz. apply runs_Ret. by destruct (err =? 0). }
  intros [[err real] s1] Hz. destruct (err =? 0); cbn [negb]; [|by apply runs_Ret].
  eapply runs_bind; [by eapply free_runs_runs|]. intros [[real' count] s2] [Hz2 Hc]. cbn in Hc, Hz, Hz2. rewrite Hc.
  apply runs_Ret. cbn. congruence.
Qed.
End safe.

(** A runlist that begins behind the first VCN to free is not freed at all. *)
Lemma cluster_free_before {PC : PageCache} nr_clusters e l start count s :
  0 ≤ start < vcn e → -1 ≤ count → ntfs_cluster_free_from_rl_nolock nr_clusters (e :: l) start count s = Ret (0, 0, s).
Proof. intros. unfold ntfs_cluster_free_from_rl_nolock, ntfs_rl_find_vcn_nolock. by zdec. Qed.

(** ** Freeing on a working page cache *)

Section working.
Context {PC : PageCache}.
Hypothesis page_map_works : ∀ t ofs, page_map_errno t ofs = 0.

(** The state after the clusters selected by [sel], [n] in number, were freed. *)
Definition freed (nr_clusters : Z) (sel : Z → bool) (n : Z) (s s' : lcn_vol) : Prop :=
  lv_zones s' = lv_zones s ∧ nr_free_clusters s' = Z.min nr_clusters (nr_free_clusters s + n) ∧
  ∀ i, 0 ≤ i → bit_of (lv_bitmap s') i = bit_of (lv_bitmap s) i && negb (sel i).

Lemma freed_none nr_clusters s sel :
  nr_free_clusters s ≤ nr_clusters → (∀ i, sel i = false) → freed nr_clusters sel 0 s s.
Proof. intros Hs Hsel. split; [done|]. split; [lia|]. intros i _. by rewrite Hsel, andb_true_r. Qed.

Lemma freed_trans nr_clusters sel1 sel2 n1 n2 s1 s2 s3 :
  0 ≤ n1 → 0 ≤ n2 → freed nr_clusters sel1 n1 s1 s2 → freed nr_clusters sel2 n2 s2 s3 →
  freed nr_clusters (λ i, sel1 i || sel2 i) (n1 + n2) s1 s3.
Proof.
  intros Hn1 Hn2 (Z1 & F1 & B1) (Z2 & F2 & B2). split; [congruence|]. split; [lia|].
  intros i Hi. by rewrite B2, B1, negb_orb, andb_assoc by done.
Qed.

(** One run is freed. *)
Lemma clear_run_works nr_clusters s x n :
  0 ≤ x → 1 ≤ n → x + n ≤ 2 ^ 63 → nr_free_clusters s ≤ nr_clusters →
  ∃ s', clear_run s x n = Ret (0, s') ∧ lv_errors s' = lv_errors s ∧
    freed nr_clusters (λ i, (x <=? i) && (i <? x + n)) n s (add_free nr_clusters n s').
Proof.
  intros Hx Hn Hmax Hf. unfold clear_run, ntfs_bitmap_clear_run.
  destruct (bitmap_set_works x n 0 (lv_bitmap s) (lv_tick s)) as (bm' & t' & -> & Hset); [done..|by left|].
  eexists. split; [reflexivity|]. cbn. split; [by rewrite orb_false_r|]. split; [done|].
  split; [cbn; ztests; lia|]. intros i Hi. cbn. rewrite Hset by done. cbn.
  by destruct ((x <=? i) && (i <? x + n)); rewrite ?andb_false_r, ?andb_true_r.
Qed.

(** [count] clusters from [c] on end at [stop]; -1 stands for all up to [b]. *)
Definition count_to (count c stop b : Z) : Prop := count = -1 ∧ stop = b ∨ 0 ≤ count ∧ stop = c + count ∧ stop ≤ b.

(** No VCN of the range is unmapped. *)
Definition all_mapped (from to : Z) (l : list ntfs_rl_element) : Prop :=
  ∀ v, from ≤ v < to → lcn_of l v ≠ Some LCN_RL_NOT_MAPPED.

Lemma freed_ext nr_clusters sel sel' n n' s s' :
  (∀ i, sel i = sel' i) → n = n' → freed nr_clusters sel n s s' → freed nr_clusters sel' n' s s'.
Proof. intros Hsel <- (H1 & H2 & H3). split; [done|]. split; [done|]. intros i Hi. rewrite H3 by done. by rewrite Hsel. Qed.

Lemma cap_count_min count c n stop b :
  count_to count c stop b → c + n ≤ b → 0 ≤ n → cap_count count n = Z.min stop (c + n) - c ∧
    count_to (less_count count (cap_count count n)) (c + n) (Z.max stop (c + n)) b.
Proof. intros [[-> ->]|(Hc & -> & Hb)] Hn H0; unfold cap_count, less_count, count_to; ztests; lia. Qed.

(** The part of the range behind a run. *)
Lemma range_rest a b from to l i :
  wf_rl a b l → from ≤ a →
  frees from to l i = frees a (Z.max to a) l i ∧ nr_real from to l = nr_real a (Z.max to a) l.
Proof.
  intros Hwf Ha. destruct (Z_lt_le_dec to a) as [Hlt|Hge].
  - rewrite Z.max_r by lia. rewrite !(frees_past _ _ _ _ _ _ Hwf), !(nr_real_past _ _ _ _ _ Hwf) by lia. done.
  - rewrite Z.max_l by lia. split; [by eapply frees_from|by eapply nr_real_from].
Qed.

(** The runs in front of the range do not matter. *)
Lemma range_app a c from to l1 l i :
  seg a c l1 → c ≤ from → frees from to (l1 ++ l) i = frees from to l i ∧ nr_real from to (l1 ++ l) = nr_real from to l.
Proof.
  intros Hs Hc. induction Hs as [|a b x n l1 Hn Hx Hs IH]; [done|]. cbn [app]. rewrite frees_cons, nr_real_cons.
  destruct IH as [-> ->]; [done|]. pose proof (seg_le _ _ _ Hs). unfold run_frees, real_in. cbn.
  split; [ztests; done || lia|]. case_match; lia.
Qed.

(** A range that begins in the run [e]: this run, and the rest. *)
Lemma range_at a b l1 e l2 start stop :
  seg a (vcn e) l1 → vcn e ≤ start < vcn e + rlen e → wf_rl (vcn e + rlen e) b l2 →
  (∀ i, frees start stop (l1 ++ e :: l2) i = run_frees start stop e i ||
    frees (vcn e + rlen e) (Z.max stop (vcn e + rlen e)) l2 i) ∧
  nr_real start stop (l1 ++ e :: l2) = real_in start stop e +
    nr_real (vcn e + rlen e) (Z.max stop (vcn e + rlen e)) l2 ∧
  (all_mapped start stop (l1 ++ e :: l2) → all_mapped (vcn e + rlen e) (Z.max stop (vcn e + rlen e)) l2).
Proof.
  intros Hs Hst Hwf. split_and!.
  - intros i. destruct (range_app _ _ start stop _ (e :: l2) i Hs) as [-> _]; [lia|].
    rewrite frees_cons. f_equal. apply (range_rest _ _ _ _ _ i Hwf). lia.
  - destruct (range_app _ _ start stop _ (e :: l2) 0 Hs) as [_ ->]; [lia|].
    rewrite nr_real_cons. f_equal. apply (range_rest _ _ _ _ _ 0 Hwf). lia.
  - intros Hmap v Hv. specialize (Hmap v ltac:(lia)).
    rewrite lcn_of_app, (lcn_of_ge _ _ _ _ Hs) in Hmap by lia. cbn [lcn_of] in Hmap. revert Hmap. by zdec.
Qed.

(** The first VCN of the range is not that of an unmapped run. *)
Lemma mapped_at a l1 e l2 v :
  seg a (vcn e) l1 → vcn e ≤ v < vcn e + rlen e → LCN_RL_NOT_MAPPED ≤ lcn e →
  lcn_of (l1 ++ e :: l2) v ≠ Some LCN_RL_NOT_MAPPED → LCN_HOLE ≤ lcn e.
Proof.
  intros Hs Hv Hlcn Hm. rewrite lcn_of_app, (lcn_of_ge _ _ _ _ Hs) in Hm by lia. cbn [lcn_of] in Hm. revert Hm.
  unfold run_lcn, LCN_HOLE, LCN_RL_NOT_MAPPED in *. zdec. ztests; try lia. intros Hm.
  destruct (decide (lcn e = -2)) as [Hx|]; [by rewrite Hx in Hm|lia].
Qed.

Lemma free_runs_works nr_clusters c b stop l junk count real s :
  wf_rl c b l → addressable l → count_to count c stop b → c ≤ stop → nr_free_clusters s ≤ nr_clusters →
  ∃ count' s', free_runs nr_clusters (l ++ junk) count real s = Ret (real + nr_real c stop l, count', s') ∧
    count' ≤ 0 ∧ freed nr_clusters (frees c stop l) (nr_real c stop l) s s' ∧
    (all_mapped c stop l → lv_errors s' = lv_errors s).
Proof.
  revert c stop count real s.
  induction l as [|e l IH]; intros c stop count real s Hwf Ha Hc Hcs Hs; [by apply wf_rl_not_nil in Hwf|].
  pose proof (wf_rl_le _ _ _ Hwf) as Hle.
  apply list.Forall_cons in Ha as [Hae Ha]. cbn [app free_runs].
  pose proof Hwf as Hwf'. apply wf_rl_cons_inv in Hwf as (<- & [(Hlen & -> & Ht)|(Hlen & Hlcn & Hwf)]).
  { rewrite Hlen. cbn [Z.eqb orb]. exists count, s.
    assert (lcn e < 0) by (destruct Ht as [_ Ht]; unfold LCN_HOLE in *; lia).
    assert (nr_real (vcn e) stop [e] = 0) as -> by (rewrite nr_real_cons; unfold real_in; cbn; zdec; done).
    split; [f_equal; f_equal; f_equal; lia|]. split; [unfold count_to in Hc; lia|]. split; [|done].
    apply freed_none; [done|]. intros i. rewrite frees_cons. unfold run_frees. by zdec. }
  rewrite (proj2 (Z.eqb_neq (rlen e) 0)) by lia. cbn [orb]. destruct (Z.eqb_spec count 0) as [->|Hc0].
  { assert (stop = vcn e) as -> by (unfold count_to in Hc; lia). exists 0, s.
    rewrite (nr_real_past _ _ _ _ _ Hwf') by lia. split; [by rewrite Z.add_0_r|]. split; [done|]. split; [|done].
    apply freed_none; [done|]. intros i. by eapply frees_past. }
  set (to_free := cap_count count (rlen e)). pose proof (wf_rl_le _ _ _ Hwf) as Hle'.
  destruct (cap_count_min count (vcn e) (rlen e) stop b) as [Hto Hc']; [done|lia|lia|]. fold to_free in Hto, Hc'.
  assert (vcn e < stop) as Hlt by (unfold count_to in Hc; lia).
  destruct (range_at (vcn e) b [] e l (vcn e) stop) as (Hfr & Hnr & Hmap); [constructor|lia|done|]. cbn [app] in Hfr, Hnr, Hmap.
  destruct (Z.leb_spec 0 (lcn e)) as [Hreal|Hhole].
  - rewrite (proj2 (Z.ltb_ge (lcn e) LCN_HOLE)) by (unfold LCN_HOLE; lia).
    destruct (clear_run_works nr_clusters s (lcn e) to_free) as (s1 & -> & He1 & Hf1); [lia|lia|lia|done|].
    cbn [mbind outcome_bind negb Z.eqb].
    destruct (IH (vcn e + rlen e) (Z.max stop (vcn e + rlen e)) (less_count count to_free) (real + to_free)
      (add_free nr_clusters to_free s1)) as (count' & s' & -> & Hcount & Hf & Herr);
      [done|done|done|lia|destruct Hf1 as (_ & Hfree & _); lia|].
    assert (real_in (vcn e) stop e = to_free) as Hre by (unfold real_in; zdec; lia).
    exists count', s'. rewrite Hnr, Hre. split; [do 3 f_equal; lia|]. split; [done|]. split.
    + eapply freed_ext; [intros i; symmetry; apply Hfr|reflexivity|].
      eapply freed_ext; [| |eapply freed_trans; [| |exact Hf1|exact Hf]]; [|lia|lia|apply nr_real_nonneg].
      intros i. cbv beta. f_equal. unfold run_frees. rewrite (proj2 (Z.leb_le 0 (lcn e))) by done. cbn [andb].
      f_equal; f_equal; lia.
    + intros Hm. by rewrite Herr by auto.
  - destruct (IH (vcn e + rlen e) (Z.max stop (vcn e + rlen e)) (less_count count to_free) real
      (if lcn e <? LCN_HOLE then NVolSetErrors s else s)) as (count' & s' & -> & Hcount & Hf & Herr);
      [done|done|done|lia|by case_match|].
    assert (real_in (vcn e) stop e = 0) as Hre by (unfold real_in; zdec; lia).
    exists count', s'. rewrite Hnr, Hre. split; [do 3 f_equal; lia|]. split; [done|]. split.
    + eapply freed_ext; [intros i; symmetry; apply Hfr|reflexivity|].
      assert (freed nr_clusters (λ _, false) 0 s (if lcn e <? LCN_HOLE then NVolSetErrors s else s)) as Hf0.
      { case_match; [|by apply freed_none]. split; [done|]. split; [cbn; lia|]. intros i _. cbn. by rewrite andb_true_r. }
      eapply freed_ext; [| |eapply freed_trans; [| |exact Hf0|exact Hf]]; [|lia|lia|apply nr_real_nonneg].
      intros i. cbv beta. f_equal. unfold run_frees. by zdec.
    + intros Hm. rewrite Herr by auto.
      assert (LCN_HOLE ≤ lcn e) by (apply (mapped_at (vcn e) [] e l (vcn e)); [constructor|lia|done|apply Hm; lia]).
      by rewrite (proj2 (Z.ltb_ge _ _)) by lia.
Qed.

Lemma addressable_app l1 l2 : addressable (l1 ++ l2) ↔ addressable l1 ∧ addressable l2.
Proof. apply Forall_app. Qed.

(** The first run is freed from [start] on. *)
Lemma free_first_works nr_clusters s e start stop to_free :
  (0 ≤ lcn e → lcn e + rlen e ≤ 2 ^ 63) → vcn e ≤ start < Z.min stop (vcn e + rlen e) →
  to_free = Z.min stop (vcn e + rlen e) - start → nr_free_clusters s ≤ nr_clusters →
  ∃ s1, (if 0 <=? lcn e then
       '(err, s) ← clear_run s (lcn e + (start - vcn e)) to_free;
       Ret (if negb (err =? 0) then (err, 0, s) else (0, to_free, add_free nr_clusters to_free s))
     else Ret (0, 0, s)) = Ret (0, real_in start stop e, s1) ∧ lv_errors s1 = lv_errors s ∧
     freed nr_clusters (run_frees start stop e) (real_in start stop e) s s1.
Proof.
  intros Hae Hst -> Hs. unfold real_in, run_frees. destruct (Z.leb_spec 0 (lcn e)) as [Hreal|].
  - set (to_free := Z.min stop (vcn e + rlen e) - start). assert (1 ≤ to_free) by lia.
    destruct (clear_run_works nr_clusters s (lcn e + (start - vcn e)) to_free) as (s1 & -> & Herr & Hf);
      [lia|lia|lia|done|].
    exists (add_free nr_clusters to_free s1). split; [cbn; do 3 f_equal; lia|]. split; [done|].
    eapply freed_ext; [|reflexivity|].
    2: { eapply freed_ext; [|symmetry|exact Hf]; [reflexivity|lia]. }
    intros i. cbv beta. cbn [andb]. f_equal; f_equal; lia.
  - exists s. split; [done|]. split; [done|]. by apply freed_none.
Qed.

Lemma cluster_free_works nr_clusters a b l junk start stop count s :
  wf_rl a b l → 0 ≤ a → a ≤ start < stop → stop ≤ b → addressable l → count_to count start stop b →
  nr_free_clusters s ≤ nr_clusters → lcn_of l start ≠ Some LCN_RL_NOT_MAPPED →
  ∃ s', ntfs_cluster_free_from_rl_nolock nr_clusters (l ++ junk) start count s = Ret (0, nr_real start stop l, s') ∧
    freed nr_clusters (frees start stop l) (nr_real start stop l) s s' ∧
    (all_mapped start stop l → lv_errors s' = lv_errors s).
Proof.
  intros Hwf Ha Hst Hb Had Hc Hs Hm.
  destruct (wf_rl_run_at a b l start) as (l1 & e & l2 & -> & He & Hs1 & Hlcn & Hwf2); [done|lia|].
  destruct (wf_rl_head _ _ _ Hwf2) as (e1 & l3 & El & He1).
  apply addressable_app in Had as [_ Had]. apply list.Forall_cons in Had as [Hae Had].
  pose proof (mapped_at _ _ _ _ _ Hs1 He Hlcn Hm) as Hh.
  destruct (range_at a b l1 e l2 start stop) as (Hfr & Hnr & Hmap); [done..|].
  assert (ntfs_rl_find_vcn_nolock ((l1 ++ e :: l2) ++ junk) start = Ret (Some (length l1))) as Hfind.
  { rewrite <- (assoc_L (++)). cbn [app]. rewrite (ntfs_rl_find_vcn_nolock_loop a (vcn e)) by (done || lia).
    rewrite El. cbn [app find_vcn_loop]. zdec. cbn. by rewrite Nat.add_0_r. }
  unfold ntfs_cluster_free_from_rl_nolock. zdec. rewrite (proj2 (Z.ltb_ge count (-1))) by (unfold count_to in Hc; lia).
  rewrite Hfind. cbn [mbind outcome_bind]. rewrite <- (assoc_L (++)). cbn [app]. rewrite rd_middle.
  cbn [mbind outcome_bind]. rewrite (proj2 (Z.ltb_ge (lcn e) _)) by done.
  replace (length l1 + 1)%nat with (length (l1 ++ [e])) by (rewrite length_app; done).
  replace (drop (length (l1 ++ [e])) (l1 ++ e :: l2 ++ junk)) with (l2 ++ junk)
    by (change (e :: l2 ++ junk) with ([e] ++ l2 ++ junk); rewrite (assoc_L (++) l1 [e]); by rewrite drop_app_length).
  set (to_free := cap_count count (rlen e - (start - vcn e))).
  pose proof (wf_rl_le _ _ _ Hwf2) as Hle2.
  destruct (cap_count_min count start (rlen e - (start - vcn e)) stop b) as [Hto Hc']; [done|lia|lia|].
  fold to_free in Hto, Hc'. replace (start + (rlen e - (start - vcn e))) with (vcn e + rlen e) in Hto, Hc' by lia.
  destruct (free_first_works nr_clusters s e start stop to_free) as (s1 & -> & He1' & Hf1); [done|lia|lia|done|].
  cbn [mbind outcome_bind negb Z.eqb].
  destruct (free_runs_works nr_clusters (vcn e + rlen e) b (Z.max stop (vcn e + rlen e)) l2 junk (less_count count to_free)
    (real_in start stop e) s1) as (count' & s' & -> & Hcount & Hf & Herr);
    [done|done|done|lia|destruct Hf1 as (_ & Hfree & _); lia|].
  cbn [mbind outcome_bind]. rewrite (proj2 (Z.ltb_ge 0 count')) by done. exists s'. rewrite Hnr. split; [done|]. split.
  - eapply freed_ext; [intros i; symmetry; apply Hfr|reflexivity|].
    eapply freed_trans; [unfold real_in; case_match; lia|apply nr_real_nonneg|exact Hf1|exact Hf].
  - intros Hm'. by rewrite Herr by auto.
Qed.

End working.

