(* ===== verification/LcnAlloc.v ===== *)
(** * Allocating clusters

    [ntfs_cluster_alloc] of [kext/ntfs_lcnalloc.c]: the search for free clusters in the
    zones of the volume, the runlist that describes the clusters found, and the rollback
    when there are not enough. *)

From S2P Require Import Prelude Volume Runlist RunlistBuf RunlistQuery PageCache Bitmap Boot LcnFree.

(** ** Data *)

Inductive NTFS_CLUSTER_ALLOCATION_ZONES := MFT_ZONE | DATA_ZONE.

Definition is_mft_zone (zone : NTFS_CLUSTER_ALLOCATION_ZONES) : bool :=
  match zone with MFT_ZONE => true | DATA_ZONE => false end.

(** The variables of the search.  A zone has the number 1 for the mft zone, 2 for the data
    zone behind and 4 for the data zone before it; [done_zones] is the sum of the zones
    that are done. *)
Record search := mk_search {
  pass : Z;
  done_zones : Z;
  search_zone : Z;
  zone_start : Z;
  zone_end : Z;
  bmp_pos : Z;
  bmp_initial_pos : Z
}.

(** The volume and the runlist under construction: its buffer [al_rl] of [al_rlcount]
    elements, [al_rlpos] of them in use, the last run, and the clusters left to find. *)
Record alloc := mk_alloc {
  al_vol : lcn_vol;
  al_rl : list ntfs_rl_element;
  al_rlpos : nat;
  al_rlcount : nat;
  al_prev_lcn : Z;
  al_prev_run_len : Z;
  al_clusters : Z
}.

Definition set_zones (z : zones) (s : lcn_vol) : lcn_vol :=
  mk_lcn_vol z (nr_free_clusters s) (lv_errors s) (lv_bitmap s) (lv_tick s).
Definition set_vol (v : lcn_vol) (a : alloc) : alloc :=
  mk_alloc v (al_rl a) (al_rlpos a) (al_rlcount a) (al_prev_lcn a) (al_prev_run_len a) (al_clusters a).
Definition al_zones (a : alloc) : zones := lv_zones (al_vol a).
Definition set_al_zones (z : zones) (a : alloc) : alloc := set_vol (set_zones z (al_vol a)) a.

(** ** The positions of the zones *)

Definition set_mft_zone_pos (x : Z) (z : zones) : zones :=
  mk_zones (mft_data_pos z) (mft_zone_start z) (mft_zone_end z) x (data1_zone_pos z) (data2_zone_pos z).
Definition set_data1_zone_pos (x : Z) (z : zones) : zones :=
  mk_zones (mft_data_pos z) (mft_zone_start z) (mft_zone_end z) (mft_zone_pos z) x (data2_zone_pos z).
Definition set_data2_zone_pos (x : Z) (z : zones) : zones :=
  mk_zones (mft_data_pos z) (mft_zone_start z) (mft_zone_end z) (mft_zone_pos z) (data1_zone_pos z) x.

Section volume.
Context {PC : PageCache} {AL : Allocator} (nr_clusters mft_lcn : Z).

(** [vol->mft_lcn], or 0 without an mft zone. *)
Definition mft_zone_first (z : zones) : Z := if mft_zone_end z =? 0 then 0 else mft_lcn.

Definition update_mft_zone_pos (initial tc : Z) (z : zones) : zones :=
  if mft_zone_end z <=? tc then set_mft_zone_pos (mft_zone_first z) z
  else if ((mft_zone_pos z <=? initial) || (mft_zone_pos z <? tc)) && (mft_lcn <=? tc) then set_mft_zone_pos tc z
  else z.

Definition update_data1_zone_pos (initial tc : Z) (z : zones) : zones :=
  if nr_clusters <=? tc then set_data1_zone_pos (mft_zone_end z) z
  else if ((data1_zone_pos z <=? initial) || (data1_zone_pos z <? tc)) && (mft_zone_end z <=? tc)
  then set_data1_zone_pos tc z
  else z.

Definition update_data2_zone_pos (initial tc : Z) (z : zones) : zones :=
  if mft_zone_start z <=? tc then set_data2_zone_pos 0 z
  else if (data2_zone_pos z <=? initial) || (data2_zone_pos z <? tc) then set_data2_zone_pos tc z
  else z.

(** The position of the zone [sz] after the cluster before [tc] was allocated in it. *)
Definition update_zone_pos (sz initial tc : Z) (z : zones) : outcome zones :=
  if sz =? 1 then Ret (update_mft_zone_pos initial tc z)
  else if sz =? 2 then Ret (update_data1_zone_pos initial tc z)
  else if sz =? 4 then Ret (update_data2_zone_pos initial tc z)
  else Panic.

(** ** The runlist *)

(** Allocate more memory if needed, including space for the terminator. *)
Definition grow_rl (a : alloc) : outcome (option alloc) :=
  if (al_rlcount a <? al_rlpos a + 2)%nat then
    match IONewData (al_rlcount a + rl_alloc_step) with
    | None => Ret None
    | Some rl2 =>
        rl2 ← (if (al_rlcount a =? 0)%nat then Ret rl2 else memcpy rl2 0 (al_rl a) 0 (al_rlcount a));
        Ret (Some (mk_alloc (al_vol a) rl2 (al_rlpos a) (al_rlcount a + rl_alloc_step) (al_prev_lcn a)
          (al_prev_run_len a) (al_clusters a)))
    end
  else Ret (Some a).

(** Coalesce the cluster [c] with the previous run, or append a new run. *)
Definition add_cluster (start_vcn c : Z) (a : alloc) : outcome alloc :=
  if (al_prev_lcn a =? c - al_prev_run_len a) && negb (al_rlpos a =? 0)%nat then
    let len := al_prev_run_len a + 1 in
    l ← upd (al_rl a) (al_rlpos a - 1) (set_len len);
    Ret (mk_alloc (al_vol a) l (al_rlpos a) (al_rlcount a) (al_prev_lcn a) len (al_clusters a))
  else
    v ← (if negb (al_rlpos a =? 0)%nat then
           e ← rd (al_rl a) (al_rlpos a - 1); Ret (vcn e + al_prev_run_len a)
         else Ret start_vcn);
    l ← upd (al_rl a) (al_rlpos a) (set_vcn v);
    l ← upd l (al_rlpos a) (set_lcn c);
    l ← upd l (al_rlpos a) (set_len 1);
    Ret (mk_alloc (al_vol a) l (al_rlpos a + 1) (al_rlcount a) c 1 (al_clusters a)).

(** ** The search in a page of the bitmap *)

(** How a part of the search ends: nothing left to search, all clusters found, or an
    error. *)
Inductive search_end := search_more | search_done | search_failed (err : Z).

(** Set the bit [bit] of the byte at [pos] of the page. *)
Definition take_bit (pg pos byte bit : Z) (v : lcn_vol) : outcome lcn_vol :=
  bm ← page_put pg pos (Z.lor byte bit) (lv_bitmap v);
  let free := nr_free_clusters v - 1 in
  Ret (mk_lcn_vol (lv_zones v) (if free <? 0 then 0 else free) (lv_errors v) bm (lv_tick v)).

(** Allocate the cluster [c], whose bit this is; [None]: out of memory. *)
Definition take_cluster (start_vcn pg pos byte bit c : Z) (a : alloc) : outcome (option alloc) :=
  g ← grow_rl a;
  match g with
  | None => Ret None
  | Some a =>
      v ← take_bit pg pos byte bit (al_vol a);
      a ← add_cluster start_vcn c (set_vol v a);
      Ret (Some (mk_alloc (al_vol a) (al_rl a) (al_rlpos a) (al_rlcount a) (al_prev_lcn a) (al_prev_run_len a)
        (al_clusters a - 1)))
  end.

(** The inner loop: the page is mapped at [pg], [b] is the position in it that [bmp_pos]
    stands for, and [lcn] the bit to test. *)
Fixpoint inner_loop (fuel : nat) (start_vcn pg b bsize : Z) (s : search) (lcn : Z) (a : alloc)
    : outcome (search_end * alloc) :=
  match fuel with
  | O => Oob
  | S fuel =>
      if negb ((lcn <? bsize) && (lcn + bmp_pos s <? zone_end s)) then Ret (search_more, a) else
      let pos := b + Z.shiftr lcn 3 in
      byte ← page_get pg pos (lv_bitmap (al_vol a));
      if byte =? 0xff then inner_loop fuel start_vcn pg b bsize s (Z.land (lcn + 8) (Z.lnot 7)) a else
      let bit := u8 (Z.shiftl 1 (Z.land lcn 7)) in
      if negb (Z.land byte bit =? 0) then inner_loop fuel start_vcn pg b bsize s (lcn + 1) a else
      g ← take_cluster start_vcn pg pos byte bit (lcn + bmp_pos s) a;
      match g with
      | None => Ret (search_failed ENOMEM, a)
      | Some a =>
          if al_clusters a =? 0 then
            z ← update_zone_pos (search_zone s) (bmp_initial_pos s) (lcn + bmp_pos s + 1) (al_zones a);
            Ret (search_done, set_al_zones z a)
          else inner_loop fuel start_vcn pg b bsize s (lcn + 1) a
      end
  end.

Definition set_bmp_pos (x : Z) (s : search) : search :=
  mk_search (pass s) (done_zones s) (search_zone s) (zone_start s) (zone_end s) x (bmp_initial_pos s).

(** The pages of the bitmap up to the end of the range. *)
Fixpoint page_loop (fuel : nat) (start_vcn data_size : Z) (s : search) (a : alloc) : outcome (search_end * alloc) :=
  match fuel with
  | O => Oob
  | S fuel =>
      let last_read_pos := Z.shiftr (bmp_pos s) 3 in
      if data_size <? last_read_pos then Ret (search_more, a) else
      let v := al_vol a in
      let pg := Z.land last_read_pos (Z.lnot PAGE_MASK) in
      let err := page_map_errno (lv_tick v) pg in
      let a := set_vol (mk_lcn_vol (lv_zones v) (nr_free_clusters v) (lv_errors v) (lv_bitmap v) (S (lv_tick v))) a in
      if negb (err =? 0) then Ret (search_failed err, a) else
      let b := Z.land last_read_pos PAGE_MASK in
      let bsize := PAGE_SIZE - b in
      let bsize := if data_size <? last_read_pos + bsize then data_size - last_read_pos else bsize in
      let bsize := Z.shiftl bsize 3 in
      let lcn := Z.land (bmp_pos s) 7 in
      let s := set_bmp_pos (Z.land (bmp_pos s) (Z.lnot 7)) s in
      '(e, a) ← inner_loop (S (Z.to_nat bsize)) start_vcn pg b bsize s lcn a;
      match e with
      | search_more =>
          let s := set_bmp_pos (bmp_pos s + bsize) s in
          if bmp_pos s <? zone_end s then page_loop fuel start_vcn data_size s a else Ret (search_more, a)
      | _ => Ret (e, a)
      end
  end.

(** Rounds that are enough: every page but the first and the last holds
    [8 * PAGE_SIZE] bits of the range. *)
Definition page_fuel (s : search) : nat := Z.to_nat ((zone_end s - bmp_pos s) / (8 * PAGE_SIZE)) + 2.

(** ** The passes over the zones *)

(** Pass 2: the part of the zone in front of the start of pass 1. *)
Definition second_pass (s : search) (z : zones) : outcome search :=
  start ← (if search_zone s =? 1 then Ret (mft_zone_start z)
           else if search_zone s =? 2 then Ret (mft_zone_end z)
           else if search_zone s =? 4 then Ret 0
           else Panic);
  let fin := if zone_start s <? start then start else zone_start s in
  Ret (mk_search 2 (done_zones s) (search_zone s) start fin start (bmp_initial_pos s)).

(** The position of the zone that is left, if clusters were found at all. *)
Definition leave_zone (s : search) (a : alloc) : outcome alloc :=
  if (al_rlpos a =? 0)%nat then Ret a else
  e ← rd (al_rl a) (al_rlpos a - 1);
  z ← update_zone_pos (search_zone s) (bmp_initial_pos s) (lcn e + rlen e) (al_zones a);
  Ret (set_al_zones z a).

Definition switch_to_data1_zone (s : search) (a : alloc) : search * alloc :=
  let z := al_zones a in
  let start := data1_zone_pos z in
  let p := if start =? mft_zone_end z then 2 else 1 in
  if nr_clusters <=? start then
    (mk_search 2 (done_zones s) 2 (mft_zone_end z) nr_clusters (mft_zone_end z) start,
     set_al_zones (set_data1_zone_pos (mft_zone_end z) z) a)
  else (mk_search p (done_zones s) 2 start nr_clusters start start, a).

Definition switch_to_data2_zone (s : search) (a : alloc) : search * alloc :=
  let z := al_zones a in
  let start := data2_zone_pos z in
  let p := if start =? 0 then 2 else 1 in
  if mft_zone_start z <=? start then
    (mk_search 2 (done_zones s) 4 0 (mft_zone_start z) 0 0, set_al_zones (set_data2_zone_pos 0 z) a)
  else (mk_search p (done_zones s) 4 start (mft_zone_start z) start start, a).

(** Switch to the next zone; [pass] is 1 in the beginning. *)
Definition switch_zone (s : search) (a : alloc) : outcome (search * alloc) :=
  if search_zone s =? 1 then
    a ← leave_zone s a; Ret (switch_to_data1_zone s a)
  else if search_zone s =? 2 then
    a ← leave_zone s a; Ret (switch_to_data2_zone s a)
  else if search_zone s =? 4 then
    a ← leave_zone s a; Ret (switch_to_data1_zone s a)
  else Panic.

(** All zones are done: give half of the mft zone to the data zones. *)
Definition shrink_mft_zone (s : search) (z : zones) : search * zones :=
  let fin := mft_zone_end z in
  let size := Z.shiftr (mft_zone_end z - mft_zone_start z) 1 in
  let start' := if 0 <? size then mft_zone_start z else 0 in
  let end' := if 0 <? size then mft_zone_start z + size else 0 in
  let data2 := if 0 <? size then data2_zone_pos z else 0 in
  let pos := if end' <=? mft_zone_pos z then (if end' =? 0 then 0 else mft_lcn) else mft_zone_pos z in
  (mk_search 2 (Z.land (done_zones s) (Z.lnot 2)) 2 end' fin end' end',
   mk_zones (mft_data_pos z) start' end' pos end' data2).

(** [done_zones_check]: mark the zone as done and select the next range to search, or
    [None] when there is no space left. *)
Fixpoint done_zones_check (fuel : nat) (zone : NTFS_CLUSTER_ALLOCATION_ZONES) (s : search) (a : alloc)
    : outcome (option search * alloc) :=
  match fuel with
  | O => Oob
  | S fuel =>
      let s := mk_search (pass s) (Z.lor (done_zones s) (search_zone s)) (search_zone s) (zone_start s) (zone_end s)
                 (bmp_pos s) (bmp_initial_pos s) in
      if done_zones s <? 7 then
        '(s, a) ← switch_zone s a;
        if zone_start s =? zone_end s then done_zones_check fuel zone s a else Ret (Some s, a)
      else
        let z := al_zones a in
        if is_mft_zone zone || (mft_zone_end z - mft_zone_start z <=? 0) then Ret (None, a) else
        let '(s, z) := shrink_mft_zone s z in
        Ret (Some s, set_al_zones z a)
  end.

(** Rounds that are enough: two passes over three zones, and one round for every time
    the mft zone can be halved. *)
Definition alloc_fuel (z : zones) : nat := Z.to_nat (Z.log2 (mft_zone_end z - mft_zone_start z)) + 7.

(** The outer loop: one round for every range of the bitmap. *)
Fixpoint alloc_loop (fuel : nat) (zone : NTFS_CLUSTER_ALLOCATION_ZONES) (start_vcn data_size : Z) (s : search) (a : alloc)
    : outcome (Z * alloc) :=
  match fuel with
  | O => Oob
  | S fuel =>
      '(e, a) ← page_loop (page_fuel s) start_vcn data_size s a;
      match e with
      | search_done => Ret (0, a)
      | search_failed err => Ret (err, a)
      | search_more =>
          if pass s =? 1 then
            s ← second_pass s (al_zones a);
            alloc_loop fuel zone start_vcn data_size s a
          else
            '(r, a) ← done_zones_check 3 zone s a;
            match r with
            | None => Ret (ENOSPC, a)
            | Some s => alloc_loop fuel zone start_vcn data_size s a
            end
      end
  end.

(** ** The allocator *)

(** Where the search begins. *)
Definition first_search (zone : NTFS_CLUSTER_ALLOCATION_ZONES) (start_lcn : Z) (z : zones) : search :=
  let '(start, p) :=
    if start_lcn <? 0 then
      let start := if is_mft_zone zone then mft_zone_pos z else data1_zone_pos z in
      (start, if start =? 0 then 2 else 1)
    else if negb (is_mft_zone zone) && (mft_zone_start z <=? start_lcn) && (start_lcn <? mft_zone_end z) then
      (mft_zone_end z, 2)
    else if is_mft_zone zone && ((start_lcn <? mft_zone_start z) || (mft_zone_end z <=? start_lcn)) then
      (mft_zone_first z, 2)
    else (start_lcn, 1) in
  if is_mft_zone zone then mk_search p 0 1 start (mft_zone_end z) start start
  else if mft_zone_end z <=? start then mk_search p 1 2 start nr_clusters start start
  else mk_search p 1 4 start (mft_zone_start z) start start.

(** Add the terminator, if there is a runlist at all. *)
Definition terminate_rl (is_extension : bool) (a : alloc) : outcome alloc :=
  if (al_rlcount a =? 0)%nat then Ret a else
  p ← rd (al_rl a) (al_rlpos a - 1);
  l ← upd (al_rl a) (al_rlpos a) (set_vcn (vcn p + rlen p));
  l ← upd l (al_rlpos a) (set_lcn (if is_extension then LCN_ENOENT else LCN_RL_NOT_MAPPED));
  l ← upd l (al_rlpos a) (set_len 0);
  Ret (mk_alloc (al_vol a) l (al_rlpos a) (al_rlcount a) (al_prev_lcn a) (al_prev_run_len a) (al_clusters a)).

(** Free what was allocated when the allocation fails. *)
Definition rollback (a : alloc) : outcome lcn_vol :=
  if (al_rlcount a =? 0)%nat then Ret (al_vol a) else
  '(err, _, v) ← ntfs_cluster_free_from_rl_nolock nr_clusters (al_rl a) 0 (-1) (al_vol a);
  Ret (if negb (err =? 0) then NVolSetErrors v else v).

(** The ranges of device blocks, first and end, that are passed to [buf_invalblkno]. *)
Fixpoint inval_runs (cluster_to_block_shift : Z) (l : list ntfs_rl_element) : outcome (list (Z * Z)) :=
  match l with
  | [] => Oob
  | e :: l =>
      if rlen e =? 0 then Ret [] else
      bs ← inval_runs cluster_to_block_shift l;
      if lcn e <? 0 then Ret bs else
      let block := Z.shiftl (lcn e) cluster_to_block_shift in
      Ret ((block, block + Z.shiftl (rlen e) cluster_to_block_shift) :: bs)
  end.

(** [vnode_err] is the result of [vnode_get] and [data_size] the size of $Bitmap, which the
    page cache agrees with.  The result is the errno, the runlist, the blocks invalidated
    and the volume. *)
Definition ntfs_cluster_alloc (geo : ntfs_volume) (vnode_err data_size start_vcn count start_lcn : Z) (zone : NTFS_CLUSTER_ALLOCATION_ZONES)
    (is_extension : bool) (runlist : ntfs_runlist) (v : lcn_vol)
    : outcome (Z * ntfs_runlist * list (Z * Z) * lcn_vol) :=
  if start_vcn <? 0 then Panic else
  if count <? 0 then Panic else
  if start_lcn <? -1 then Panic else
  if count =? 0 then Ret (0, mk_runlist [] 0 0, [], v) else
  if negb (vnode_err =? 0) then Ret (vnode_err, runlist, [], v) else
  let s := first_search zone start_lcn (lv_zones v) in
  '(err, a) ← alloc_loop (alloc_fuel (lv_zones v)) zone start_vcn data_size s (mk_alloc v [] 0 0 0 0 count);
  a ← terminate_rl is_extension a;
  if err =? 0 then
    let cluster_to_block_shift := u8 (cluster_size_shift geo - sector_size_shift geo) in
    bs ← (if (al_rlcount a =? 0)%nat then Ret [] else inval_runs cluster_to_block_shift (al_rl a));
    Ret (0, mk_runlist (al_rl a) (al_rlpos a + 1) (al_rlcount a), bs, al_vol a)
  else v ← rollback a; Ret (err, runlist, [], v).
End volume.
