(* ===== verification/LcnScan.v ===== *)
(** * Allocating clusters: the search in the bitmap

    What [inner_loop] and [page_loop] of [ntfs_cluster_alloc] do: every free cluster of
    the range is taken and added to the runlist, until there are enough. *)

From S2P Require Import Prelude Runlist RunlistBuf RunlistQuery PageCache Bitmap Boot LcnFree LcnAlloc.

(** ** The runlist under construction *)

(** [a] holds the runs [l], which begin at [start] and end at [stop]. *)
Record rl_part (start stop : Z) (l : list ntfs_rl_element) (a : alloc) : Prop := {
  part_buf : ∃ junk, al_rl a = l ++ junk;
  part_pos : al_rlpos a = length l;
  part_count : al_rlcount a = length (al_rl a);
  part_seg : seg start stop l;
  part_last l' e : l = l' ++ [e] → al_prev_lcn a = lcn e ∧ al_prev_run_len a = rlen e
}.

(** There is no buffer yet, or it has runs and room for the terminator. *)
Definition rl_built (start stop : Z) (l : list ntfs_rl_element) (a : alloc) : Prop :=
  rl_part start stop l a ∧ (al_rlcount a = 0%nat ∨ (1 ≤ length l < al_rlcount a)%nat).

(** The map of [l] extended by the cluster [c] at [stop]. *)
Definition maps_also (stop c : Z) (l l' : list ntfs_rl_element) : Prop :=
  ∀ v, lcn_of l' v = if v =? stop then Some c else lcn_of l v.

Lemma rl_alloc_step_eq : rl_alloc_step = 42%nat.
Proof. done. Qed.

Section built.
Context {AL : Allocator}.

(** There is room for another run and the terminator, or no memory. *)
Lemma grow_rl_spec start stop l a :
  rl_built start stop l a →
  (∃ m, IONewData m = None) ∧ grow_rl a = Ret None ∨
  ∃ a', grow_rl a = Ret (Some a') ∧ al_vol a' = al_vol a ∧ al_clusters a' = al_clusters a ∧
    rl_part start stop l a' ∧ (length l + 2 ≤ al_rlcount a')%nat.
Proof.
  intros [[(junk & Hj) Hp Hc Hs Hl] Hr]. unfold grow_rl. rewrite Hp.
  destruct (Nat.ltb_spec (al_rlcount a) (length l + 2)) as [Hlt|Hge].
  - destruct (IONewData _) as [rl2|] eqn:En; [right|left; eauto]. pose proof (IONewData_length _ _ En) as Hl2.
    rewrite rl_alloc_step_eq in *. destruct (Nat.eqb_spec (al_rlcount a) 0) as [E0|E0].
    + assert (al_rl a = []) as Ea by (apply length_zero_iff_nil; lia). rewrite Ea in Hj. symmetry in Hj.
      apply app_eq_nil in Hj as [-> ->].
      eexists. split; [reflexivity|]. split_and!; [done..| |cbn; len]. split; cbn; try done; by exists rl2.
    + rewrite memcpy_Ret by lia. eexists. split; [reflexivity|]. rewrite Hj in *.
      rewrite drop_0, take_0, Hc, take_ge by lia. cbn [app].
      split_and!; [done..| |cbn; len]. split; cbn; try done; try len. eexists. by rewrite <- (assoc_L (++)).
  - right. exists a. split_and!; try done. split; try done. by exists junk.
Qed.
End built.

Lemma seg_end_nil start stop l : seg start stop l → l = [] → stop = start.
Proof. intros H ->. by inversion H. Qed.

(** Extending the last run by a cluster. *)
Lemma maps_also_extend start stop l e :
  seg start stop (l ++ [e]) → 0 ≤ lcn e →
  seg start (stop + 1) (l ++ [set_len (rlen e + 1) e]) ∧
  maps_also stop (lcn e + rlen e) (l ++ [e]) (l ++ [set_len (rlen e + 1) e]).
Proof.
  intros (m & Hl & He)%seg_app_inv H0. apply seg_one in He as (<- & Hn & -> & Hx). split.
  - eapply seg_app; [exact Hl|]. apply seg_cons'; cbn; [done|lia|lia|].
    replace (vcn e + rlen e + 1) with (vcn e + (rlen e + 1)) by lia. constructor.
  - intros v. rewrite !lcn_of_app. destruct (Z.eqb_spec v (vcn e + rlen e)) as [->|Hv].
    + rewrite (lcn_of_ge _ _ _ _ Hl) by lia. cbn. zdec. cbn. unfold run_lcn. cbn. zdec. f_equal. lia.
    + destruct (lcn_of l v); [done|]. cbn. unfold run_lcn. cbn. ztests; done || lia.
Qed.

(** Appending a run of one cluster. *)
Lemma maps_also_append start stop l c :
  seg start stop l → 0 ≤ c →
  seg start (stop + 1) (l ++ [mk_rle stop c 1]) ∧ maps_also stop c l (l ++ [mk_rle stop c 1]).
Proof.
  intros Hl H0. split.
  - eapply seg_app; [exact Hl|]. apply seg_cons'; cbn; [done|lia|unfold LCN_RL_NOT_MAPPED; lia|constructor].
  - intros v. rewrite lcn_of_app. destruct (Z.eqb_spec v stop) as [->|Hv].
    + rewrite (lcn_of_ge _ _ _ _ Hl) by lia. cbn. zdec. cbn. unfold run_lcn. cbn. zdec. f_equal. lia.
    + destruct (lcn_of l v); [done|]. cbn. ztests; done || lia.
Qed.

(** The cluster [c] joins the last run or becomes a run of its own. *)
Lemma add_cluster_spec start stop l a c :
  rl_part start stop l a → (length l + 2 ≤ al_rlcount a)%nat → (∀ l' e, l = l' ++ [e] → 0 ≤ lcn e) → 0 ≤ c →
  ∃ l' a', add_cluster start c a = Ret a' ∧ rl_built start (stop + 1) l' a' ∧ maps_also stop c l l' ∧
    al_vol a' = al_vol a ∧ al_clusters a' = al_clusters a.
Proof.
  intros [(junk & Hj) Hp Hc Hs Hl] Hr Hreal H0. unfold add_cluster. rewrite Hp, Hj in *.
  destruct junk as [|x junk]; [len|]. destruct l as [|e l _] using rev_ind.
  - cbn [length Nat.eqb negb]. rewrite andb_false_r. cbn [mbind outcome_bind app].
    rewrite !(upd_middle [] : ∀ e s f, upd (e :: s) 0 f = _). cbn [mbind outcome_bind app].
    inversion Hs; subst. destruct (maps_also_append stop stop [] c) as [H1 H2]; [constructor|done|].
    eexists [_], _. split; [reflexivity|]. split_and!; [|done..]. split; [split; cbn; try done; [by eexists|]|right; cbn; len].
    intros l' e E. destruct l' as [|? [|]]; simplify_eq/=; done.
  - destruct (Hl l e) as [-> ->]; [done|]. specialize (Hreal l e eq_refl).
    rewrite length_app in *. cbn [length] in *.
    replace (length l + 1 - 1)%nat with (length l) by lia. rewrite (proj2 (Nat.eqb_neq (length l + 1) 0)) by lia.
    cbn [negb]. rewrite andb_true_r. destruct (Z.eqb_spec (lcn e) (c - rlen e)) as [Ec|Ec].
    + rewrite <- (assoc_L (++)). cbn [app]. rewrite upd_middle. cbn [mbind outcome_bind].
      destruct (maps_also_extend start stop l e) as [H1 H2]; [done..|].
      replace c with (lcn e + rlen e) by lia.
      exists (l ++ [set_len (rlen e + 1) e]). eexists. split; [reflexivity|]. split_and!; [|done..].
      split; [split; cbn; [exists (x :: junk); by rewrite <- (assoc_L (++))|len|len|done|]|right; cbn; len].
      intros l' e' E. apply app_inj_2 in E as [_ E]; [|done]. by simplify_eq.
    + assert (vcn e + rlen e = stop) as Ev.
      { apply seg_app_inv in Hs as (m & _ & He). apply seg_one in He as (<- & _ & -> & _). done. }
      rewrite <- (assoc_L (++)). cbn [app]. rewrite rd_middle. cbn [mbind outcome_bind]. rewrite Ev.
      change (l ++ e :: x :: junk) with (l ++ [e] ++ x :: junk). rewrite (assoc_L (++)).
      replace (length l + 1)%nat with (length (l ++ [e])) by len. rewrite !upd_middle. cbn [mbind outcome_bind].
      rewrite upd_middle. cbn [mbind outcome_bind]. rewrite upd_middle. cbn [mbind outcome_bind].
      destruct (maps_also_append start stop (l ++ [e]) c) as [H1 H2]; [done..|].
      exists ((l ++ [e]) ++ [mk_rle stop c 1]). eexists. split; [reflexivity|]. split_and!; [|done..].
      split; [split; cbn; [exists junk; by app_norm|len|len|done|]|right; cbn; len].
      intros l' e' E. apply app_inj_2 in E as [_ E]; [|done]. by simplify_eq.
Qed.

(** ** The clusters taken *)

(** The state [v] of the volume after the clusters of the runs [l], [k] in number, were taken
    from [v0]. *)
Record taken (nr_clusters : Z) (v0 : lcn_vol) (k : Z) (l : list ntfs_rl_element) (v : lcn_vol) : Prop := {
  taken_real w i : lcn_of l w = Some i → 0 ≤ i < nr_clusters ∧ bit_of (lv_bitmap v0) i = false;
  taken_inj w1 w2 i : lcn_of l w1 = Some i → lcn_of l w2 = Some i → w1 = w2;
  taken_bits i : 0 ≤ i →
    bit_of (lv_bitmap v) i = true ↔ bit_of (lv_bitmap v0) i = true ∨ ∃ w, lcn_of l w = Some i;
  taken_free : nr_free_clusters v = Z.max 0 (nr_free_clusters v0 - k);
  taken_errors : lv_errors v = lv_errors v0
}.

Lemma taken_nil nr_clusters v : 0 ≤ nr_free_clusters v → taken nr_clusters v 0 [] v.
Proof. intros H. split; [done..| |lia|done]. intros i _. split; [by left|]. by intros [?|[? [=]]]. Qed.

Lemma taken_add nr_clusters v0 start stop k l v c l' v' :
  taken nr_clusters v0 k l v → 0 ≤ k → seg start stop l → maps_also stop c l l' → 0 ≤ c < nr_clusters →
  bit_of (lv_bitmap v) c = false → (∀ i, 0 ≤ i → bit_of (lv_bitmap v') i = (i =? c) || bit_of (lv_bitmap v) i) →
  nr_free_clusters v' = Z.max 0 (nr_free_clusters v - 1) → lv_errors v' = lv_errors v →
  taken nr_clusters v0 (k + 1) l' v'.
Proof.
  intros [Hr Hi Hb Hf He] Hk Hs Hm Hc Hfree Hb' Hf' He'. pose proof (lcn_of_ge _ _ _ stop Hs ltac:(lia)) as Hstop.
  assert (∀ w, lcn_of l w ≠ Some c) as Hnew.
  { intros w Hw. assert (bit_of (lv_bitmap v) c = true) as E by (apply Hb; [lia|eauto]). congruence. }
  assert (bit_of (lv_bitmap v0) c = false) as Hc0.
  { apply not_true_is_false. intros E. assert (bit_of (lv_bitmap v) c = true) by (apply Hb; [lia|auto]). congruence. }
  split; [..|lia|congruence].
  - intros w i. rewrite Hm. case_match; [by intros [= <-]|apply Hr].
  - intros w1 w2 i. rewrite !Hm. destruct (Z.eqb_spec w1 stop), (Z.eqb_spec w2 stop); [lia|..|eauto];
      intros; simplify_eq; by edestruct Hnew.
  - intros i H0. rewrite Hb', orb_true_iff, Z.eqb_eq, Hb by done. split.
    + intros [-> |[H|[w Hw]]]; [right; exists stop; by rewrite Hm, Z.eqb_refl|by left|right; exists w].
      rewrite Hm. destruct (Z.eqb_spec w stop); [congruence|done].
    + intros [H|[w Hw]]; [by right; left|]. rewrite Hm in Hw. case_match; [left; congruence|right; right; eauto].
Qed.

(** The runs are real. *)
Lemma taken_runs nr_clusters v0 k start stop l v :
  taken nr_clusters v0 k l v → seg start stop l →
  Forall (λ e, 0 ≤ lcn e ∧ 0 < rlen e ∧ lcn e + rlen e ≤ nr_clusters) l.
Proof.
  intros Ht Hs. apply list.Forall_forall. intros e (l1 & l2 & ->)%list_elem_of_split.
  apply seg_app_inv in Hs as (m & Hl & He). apply seg_cons_inv in He as (<- & Hn & _ & _).
  assert (∀ w, vcn e ≤ w < vcn e + rlen e → 0 ≤ run_lcn e w < nr_clusters) as Hw.
  { intros w Hw. apply (taken_real _ _ _ _ _ Ht w). rewrite lcn_of_app, (lcn_of_ge _ _ _ _ Hl) by lia. cbn. by zdec. }
  pose proof (Hw (vcn e) ltac:(lia)) as H1. pose proof (Hw (vcn e + rlen e - 1) ltac:(lia)) as H2.
  unfold run_lcn in *. revert H1 H2. ztests; lia.
Qed.

Lemma taken_last nr_clusters v0 k start stop l v :
  taken nr_clusters v0 k l v → seg start stop l →
  ∀ l' e, l = l' ++ [e] → 0 ≤ lcn e ∧ 0 < rlen e ∧ lcn e + rlen e ≤ nr_clusters.
Proof.
  intros Ht Hs l' e ->. pose proof (taken_runs _ _ _ _ _ _ _ Ht Hs) as Hr.
  apply list.Forall_app in Hr as [_ Hr]. by inversion Hr.
Qed.

(** The mask of the bit of the cluster [c]. *)
Lemma bit_mask c : u8 (Z.shiftl 1 (Z.land c 7)) = 2 ^ (c mod 8).
Proof.
  change 7 with (Z.ones 3). rewrite Z.land_ones, Z.shiftl_1_l by lia. change (2 ^ 3) with 8.
  apply uwrap_id. split; [lia|]. apply Z.pow_lt_mono_r; zdiv.
Qed.

(** [*byte & bit]. *)
Lemma bit_test (bm : bitmap) c : (Z.land (bm (c / 8)) (u8 (Z.shiftl 1 (Z.land c 7))) =? 0) = negb (bit_of bm c).
Proof.
  rewrite bit_mask. unfold bit_of. assert (0 ≤ c mod 8) as H0 by zdiv. apply eq_true_iff_eq.
  rewrite Z.eqb_eq, negb_true_iff. split; intros H.
  - pose proof (Z.land_spec (bm (c / 8)) (2 ^ (c mod 8)) (c mod 8)) as E.
    by rewrite H, Z.bits_0, Z.pow2_bits_true, andb_true_r in E by done.
  - apply Z.bits_inj'. intros j Hj. rewrite Z.land_spec, Z.bits_0, Z.pow2_bits_eqb by done.
    destruct (Z.eqb_spec (c mod 8) j) as [<-|]; [by rewrite H|apply andb_false_r].
Qed.

Section scan.
Context {PC : PageCache}.

(** The bit of the cluster [c] is set. *)
Lemma take_bit_spec pg pos c v :
  0 ≤ c → 0 ≤ pos < PAGE_SIZE → pg + pos = c / 8 →
  ∃ v', take_bit pg pos (lv_bitmap v (c / 8)) (u8 (Z.shiftl 1 (Z.land c 7))) v = Ret v' ∧
    (∀ i, 0 ≤ i → bit_of (lv_bitmap v') i = (i =? c) || bit_of (lv_bitmap v) i) ∧
    nr_free_clusters v' = Z.max 0 (nr_free_clusters v - 1) ∧ lv_errors v' = lv_errors v ∧ lv_zones v' = lv_zones v.
Proof.
  intros Hc Hp Hpg. unfold take_bit, page_put. zdec. cbn [andb mbind outcome_bind]. eexists. split; [reflexivity|].
  cbn. split_and!; [|ztests; lia|done..]. intros i Hi. unfold bit_of. rewrite Hpg.
  destruct (Z.eqb_spec (i / 8) (c / 8)) as [E|E].
  - rewrite E, Z.lor_spec, orb_comm, bit_mask, Z.pow2_bits_eqb by zdiv. f_equal.
    destruct (Z.eqb_spec (c mod 8) (i mod 8)), (Z.eqb_spec i c); (done || zdiv).
  - by rewrite (proj2 (Z.eqb_neq i c)) by (intros ->; done).
Qed.

Context {AL : Allocator} (nr_clusters mft_lcn data_size : Z) (v0 : lcn_vol) (start count : Z).

(** The clusters found so far are taken from [v0]. *)
Definition al_ok (l : list ntfs_rl_element) (a : alloc) : Prop :=
  rl_built start (start + (count - al_clusters a)) l a ∧
  taken nr_clusters v0 (count - al_clusters a) l (al_vol a) ∧ 0 ≤ al_clusters a ≤ count.

(** The clusters of a range are in use. *)
Definition in_use (lo hi : Z) (v : lcn_vol) : Prop := ∀ i, lo ≤ i < hi → bit_of (lv_bitmap v) i = true.

(** No cluster was returned. *)
Definition keeps (v v' : lcn_vol) : Prop := ∀ i, 0 ≤ i → bit_of (lv_bitmap v) i = true → bit_of (lv_bitmap v') i = true.

Lemma in_use_keeps lo hi v v' : 0 ≤ lo → keeps v v' → in_use lo hi v → in_use lo hi v'.
Proof. intros H0 Hk Hu i Hi. apply Hk; [lia|auto]. Qed.

Lemma in_use_app lo mid hi v : in_use lo mid v → in_use mid hi v → in_use lo hi v.
Proof. intros H1 H2 i Hi. destruct (Z_lt_le_dec i mid); [apply H1|apply H2]; lia. Qed.

Lemma keeps_refl v : keeps v v.
Proof. by intros i _. Qed.

Lemma keeps_trans v1 v2 v3 : keeps v1 v2 → keeps v2 v3 → keeps v1 v3.
Proof. intros H1 H2 i Hi Hb. auto. Qed.

(** One cluster is taken, or there is no memory. *)
Lemma take_cluster_spec l a pg pos c :
  al_ok l a → 0 < al_clusters a → 0 ≤ c < nr_clusters → 0 ≤ pos < PAGE_SIZE → pg + pos = c / 8 →
  bit_of (lv_bitmap (al_vol a)) c = false →
  let m := take_cluster start pg pos (lv_bitmap (al_vol a) (c / 8)) (u8 (Z.shiftl 1 (Z.land c 7))) c a in
  (∃ m, IONewData m = None) ∧ m = Ret None ∨
  ∃ l' a', m = Ret (Some a') ∧ al_ok l' a' ∧ al_clusters a' = al_clusters a - 1 ∧
    keeps (al_vol a) (al_vol a') ∧ al_zones a' = al_zones a ∧ bit_of (lv_bitmap (al_vol a')) c = true.
Proof.
  intros (Hb & Ht & Hcl) Hpos Hc Hp Hpg Hfree m. subst m. unfold take_cluster.
  destruct (grow_rl_spec _ _ _ _ Hb) as [[Hn ->]|(a1 & -> & Hv1 & Hc1 & Hpart & Hroom)]; [by left|right].
  cbn [mbind outcome_bind]. rewrite Hv1.
  destruct (take_bit_spec pg pos c (al_vol a)) as (v' & -> & Hbits & Hf & He & Hz); [lia|done..|]. cbn [mbind outcome_bind].
  pose proof (taken_last _ _ _ _ _ _ _ Ht (part_seg _ _ _ _ Hpart)) as Hlast.
  destruct (add_cluster_spec start (start + (count - al_clusters a)) l (set_vol v' a1) c)
    as (l' & a2 & -> & Hb2 & Hm & Hv2 & Hc2); [|done| |lia|].
  { by destruct Hpart; split. }
  { intros ?? E. by destruct (Hlast _ _ E). }
  cbn [mbind outcome_bind]. exists l'. eexists. split; [reflexivity|]. unfold al_ok, al_zones. cbn [al_vol al_clusters].
  cbn [set_vol al_vol al_clusters] in Hv2, Hc2. rewrite Hv2, Hc2, Hc1.
  replace (count - (al_clusters a - 1)) with (count - al_clusters a + 1) by lia. split_and!; try done; try lia.
  - rewrite Z.add_assoc. destruct Hb2 as [[] Hr]; by split; [split|].
  - eapply taken_add; [exact Ht|lia|apply Hpart|done..].
  - intros i Hi Hbit. rewrite Hbits, Hbit by done. apply orb_true_r.
  - rewrite Hbits, Z.eqb_refl by lia. done.
Qed.

(** ** The loops *)

(** The result of the search in [lo, hi): errors satisfy [fails]. *)
Definition scan_post (s : search) (fails : Z → Prop) (lo hi : Z) (a : alloc) (r : search_end * alloc) : Prop :=
  (∃ l, al_ok l r.2) ∧ keeps (al_vol a) (al_vol r.2) ∧
  match r.1 with
  | search_more => 0 < al_clusters r.2 ∧ al_zones r.2 = al_zones a ∧ in_use lo hi (al_vol r.2)
  | search_done => al_clusters r.2 = 0 ∧ ∃ tc, 0 ≤ tc ∧
      update_zone_pos nr_clusters mft_lcn (search_zone s) (bmp_initial_pos s) tc (al_zones a) = Ret (al_zones r.2)
  | search_failed err => fails err ∧ al_zones r.2 = al_zones a
  end.

(** The search goes on at [mid], clusters before it are in use. *)
Lemma scan_post_trans s s' fails lo mid hi a a1 r :
  0 ≤ lo → keeps (al_vol a) (al_vol a1) → al_zones a1 = al_zones a → in_use lo mid (al_vol a1) →
  search_zone s' = search_zone s → bmp_initial_pos s' = bmp_initial_pos s →
  scan_post s' fails mid hi a1 r → scan_post s fails lo hi a r.
Proof.
  intros H0 Hk Hz Hu E1 E2 (Hok & Hk1 & Hr). split; [done|]. split; [by eapply keeps_trans|].
  rewrite E1, E2, Hz in Hr. destruct r as [[] a']; cbn in *; [|done..]. destruct Hr as (? & ? & ?). split_and!; [done..|].
  eapply in_use_app; [|done]. by eapply in_use_keeps.
Qed.

(** Nothing is left to search. *)
Lemma scan_post_stop l s fails lo hi a :
  al_ok l a → 0 < al_clusters a → hi ≤ lo → scan_post s fails lo hi a (search_more, a).
Proof. intros. split; [by exists l|]. split; [apply keeps_refl|]. split_and!; [done..|]. intros i Hi. lia. Qed.

Lemma al_ok_zones l a z : al_ok l a → al_ok l (set_al_zones z a).
Proof. intros ([[] ?] & [] & ?). by repeat (split; try done). Qed.

Lemma al_ok_tick l a t :
  al_ok l a →
  al_ok l (set_vol (mk_lcn_vol (lv_zones (al_vol a)) (nr_free_clusters (al_vol a)) (lv_errors (al_vol a))
    (lv_bitmap (al_vol a)) t) a).
Proof. intros ([[] ?] & [] & ?). by repeat (split; try done). Qed.

Lemma update_zone_pos_Ret sz initial tc z :
  sz = 1 ∨ sz = 2 ∨ sz = 4 → ∃ z', update_zone_pos nr_clusters mft_lcn sz initial tc z = Ret z'.
Proof. intros [->|[->| ->]]; by eexists. Qed.

Definition no_memory (err : Z) : Prop := err = ENOMEM ∧ ∃ m, IONewData m = None.

Lemma inner_loop_spec fuel lr pg b bsize s lcn l a :
  al_ok l a → 0 < al_clusters a → search_zone s = 1 ∨ search_zone s = 2 ∨ search_zone s = 4 →
  0 ≤ lr → pg + b = lr → 0 ≤ b → bsize ≤ 8 * (PAGE_SIZE - b) → bmp_pos s = 8 * lr → zone_end s ≤ nr_clusters →
  0 ≤ lcn → Z.max 0 (bsize - lcn) < Z.of_nat fuel →
  runs (inner_loop nr_clusters mft_lcn fuel start pg b bsize s lcn a)
    (scan_post s no_memory (8 * lr + lcn) (Z.min (8 * lr + bsize) (zone_end s)) a).
Proof.
  intros Hok Hcl Hsz Hlr Hpg Hb Hbs Hpos Hend. revert lcn l a Hok Hcl.
  induction fuel as [|fuel IH]; intros lcn l a Hok Hcl H0 Hf; [lia|]. cbn [inner_loop]. rewrite Hpos.
  destruct (Z.ltb_spec lcn bsize) as [H1|H1]; cbn [andb negb];
    [|apply runs_Ret, (scan_post_stop l); done || lia].
  destruct (Z.ltb_spec (lcn + 8 * lr) (zone_end s)) as [H2|H2]; cbn [negb];
    [|apply runs_Ret, (scan_post_stop l); done || lia].
  rewrite Z.shiftr_div_pow2 by lia. change (2 ^ 3) with 8. unfold page_get. zdec.
  assert (lcn / 8 < PAGE_SIZE - b) as Hbyte by zdiv. assert (0 ≤ lcn / 8) by zdiv. zdec. cbn [andb mbind outcome_bind].
  set (c := lcn + 8 * lr) in *. assert (pg + (b + lcn / 8) = c / 8) as Hc8 by zdiv. rewrite Hc8.
  assert (Z.land lcn 7 = Z.land c 7) as ->.
  { change 7 with (Z.ones 3). rewrite !Z.land_ones by lia. change (2 ^ 3) with 8. zdiv. }
  destruct (Z.eqb_spec (lv_bitmap (al_vol a) (c / 8)) 0xff) as [Hff|Hff].
  { change (Z.lnot 7) with (Z.lnot (2 ^ 3 - 1)). rewrite round_pow2 by lia. change (2 ^ 3) with 8.
    eapply runs_mono; [eapply (IH _ l); (done || zdiv)|]. intros r Hr.
    eapply scan_post_trans; [| | | | | |exact Hr]; [lia|apply keeps_refl|done| |done..]. intros i Hi. unfold bit_of.
    replace (i / 8) with (c / 8) by zdiv. rewrite Hff. change 0xff with (Z.ones 8). apply Z.ones_spec_low. zdiv. }
  rewrite bit_test.
  destruct (bit_of (lv_bitmap (al_vol a)) c) eqn:Hbit; cbn [negb].
  { eapply runs_mono; [eapply (IH _ l); (done || lia)|]. intros r Hr.
    eapply scan_post_trans; [| | | | | |exact Hr]; [lia|apply keeps_refl|done| |done..]. intros i Hi. by replace i with c by lia. }
  destruct (take_cluster_spec l a pg (b + lcn / 8) c) as [[Hm ->]|(l' & a' & -> & Hok' & Hcl' & Hk & Hz & Hset)];
    [done..|lia|lia|done|done| |]; cbn [mbind outcome_bind].
  { apply runs_Ret. split; [by exists l|]. split; [apply keeps_refl|]. by split; [split|]. }
  destruct (Z.eqb_spec (al_clusters a') 0) as [Hz0|Hz0].
  { rewrite Hz. destruct (update_zone_pos_Ret (search_zone s) (bmp_initial_pos s) (c + 1) (al_zones a) Hsz) as [z' Ez].
    rewrite Ez. cbn [mbind outcome_bind]. apply runs_Ret. split; [exists l'; by apply al_ok_zones|]. split; [done|].
    split; [done|]. exists (c + 1). split; [lia|]. exact Ez. }
  eapply runs_mono; [eapply (IH _ l'); (done || lia)|]. intros r Hr.
  eapply scan_post_trans; [| | | | | |exact Hr]; [lia|done|done| |done..]. intros i Hi. by replace i with c by lia.
Qed.

(** An error of the search: no memory, or a page of the bitmap that could not be mapped;
    [at_end] if this may be a page behind the end of the bitmap. *)
Definition search_error (at_end : Prop) (err : Z) : Prop :=
  no_memory err ∨ err ≠ 0 ∧ ∃ t ofs, page_map_errno t ofs = err ∧ 0 ≤ ofs ∧ (ofs < data_size ∨ at_end).

Lemma page_loop_spec fuel s l a (at_end : Prop) :
  nr_clusters ≤ 8 * data_size →
  al_ok l a → 0 < al_clusters a → search_zone s = 1 ∨ search_zone s = 2 ∨ search_zone s = 4 →
  0 ≤ bmp_pos s ≤ nr_clusters → bmp_pos s < nr_clusters ∨ at_end → zone_end s ≤ nr_clusters → (1 ≤ fuel)%nat →
  zone_end s - 8 * PAGE_SIZE * (bmp_pos s / (8 * PAGE_SIZE)) ≤ 8 * PAGE_SIZE * Z.of_nat fuel →
  runs (page_loop nr_clusters mft_lcn fuel start data_size s a)
    (scan_post s (search_error at_end) (bmp_pos s) (zone_end s) a).
Proof.
  intros Hn. revert s l a. induction fuel as [|fuel IH]; intros s l a Hok Hcl Hsz Hpos Hat Hend Hf1 Hf; [lia|].
  cbn [page_loop]. rewrite Z.shiftr_div_pow2, page_round, page_pos by lia. change (2 ^ 3) with 8.
  set (lr := bmp_pos s / 8). pose proof PAGE_SIZE_range as HP.
  rewrite (proj2 (Z.ltb_ge data_size lr)) by (unfold lr; zdiv).
  assert (bmp_pos s / (8 * PAGE_SIZE) = lr / PAGE_SIZE) as Eq by (unfold lr; rewrite Z.div_div by lia; done).
  rewrite Eq in Hf. assert (bmp_pos s = 8 * lr + bmp_pos s mod 8 ∧ 0 ≤ bmp_pos s mod 8 < 8) as Hlr by (unfold lr; zdiv).
  assert (lr = PAGE_SIZE * (lr / PAGE_SIZE) + lr mod PAGE_SIZE) as Hdm by (apply Z.div_mod; lia).
  assert (0 ≤ lr mod PAGE_SIZE < PAGE_SIZE) as Hb by (apply Z.mod_pos_bound; lia).
  set (q := lr / PAGE_SIZE) in *. set (b := lr mod PAGE_SIZE) in *.
  assert (0 ≤ PAGE_SIZE * q) as Hq by (apply Z.mul_nonneg_nonneg; [lia|apply Z.div_pos; lia]).
  set (a1 := set_vol _ a). assert (al_ok l a1) as Hok1 by by apply al_ok_tick.
  assert (keeps (al_vol a) (al_vol a1)) as Hk1 by by intros i.
  destruct (Z.eqb_spec (page_map_errno (lv_tick (al_vol a)) (PAGE_SIZE * q)) 0) as [E0|E0]; cbn [negb].
  2: { apply runs_Ret. split; [by exists l|]. split; [exact Hk1|]. split; [|done]. right. split; [done|].
       eexists _, _. split; [done|]. split; [lia|]. destruct Hat; [left; lia|by right]. }
  set (m := if data_size <? _ then _ else _).
  assert (0 ≤ m ≤ PAGE_SIZE - b ∧ (m = PAGE_SIZE - b ∨ lr + m = data_size)) as Hm by (unfold m; ztests; lia).
  rewrite Z.shiftl_mul_pow2 by lia. change (2 ^ 3) with 8. change (Z.lnot 7) with (Z.lnot (2 ^ 3 - 1)).
  rewrite round_pow2 by lia. change (2 ^ 3) with 8. fold lr. change 7 with (Z.ones 3). rewrite Z.land_ones by lia.
  change (2 ^ 3) with 8. eapply runs_bind.
  { eapply (inner_loop_spec _ lr _ _ _ (set_bmp_pos (8 * lr) s)); try done; lia. }
  intros [e a2] (Hok2 & Hk2 & Hr). cbn [fst snd] in *.
  rewrite <- (proj1 Hlr) in Hr. cbn [zone_end set_bmp_pos bmp_pos] in *.
  destruct e; [|by apply runs_Ret|apply runs_Ret; split; [done|]; split; [done|]; split; [by left; apply Hr|apply Hr]].
  destruct Hr as (Hcl2 & Hz2 & Hu2). destruct (Z.ltb_spec (8 * lr + m * 8) (zone_end s)) as [Hlt|Hge].
  2: { rewrite Z.min_r in Hu2 by lia. by apply runs_Ret. }
  rewrite Z.min_l in Hu2 by lia. destruct Hok2 as [l2 Hok2].
  assert (8 * lr + m * 8 = 8 * PAGE_SIZE * (q + 1)) as Enext by lia.
  eapply runs_mono; [apply (IH _ l2)|]; try done; cbn; try lia.
  { rewrite Enext. rewrite (Z.mul_comm (8 * PAGE_SIZE) (q + 1)), Z.div_mul by lia. lia. }
  intros r Hr. eapply scan_post_trans; [| | | | | |exact Hr]; try done. lia.
Qed.
End scan.
