(* ===== verification/LcnZones.v ===== *)
(** * Allocating clusters: the zones of the volume

    The order in which [ntfs_cluster_alloc] searches the zones: it terminates, keeps the
    positions of the zones inside of the volume, and misses no cluster. *)

From S2P Require Import Prelude Runlist RunlistBuf RunlistQuery PageCache Bitmap Boot LcnFree LcnAlloc LcnScan.

(** ** The invariant of the zones *)

(** The zones lie inside of the volume: the mft zone ends before the end of the volume, and
    the position in the data zone behind it is not in front of it. *)
Record zones_ok (nr_clusters : Z) (z : zones) : Prop := {
  ok_mft_zone : 0 ≤ mft_zone_start z ≤ mft_zone_end z;
  ok_mft_end : mft_zone_end z < nr_clusters;
  ok_mft_pos : 0 ≤ mft_zone_pos z < nr_clusters;
  ok_data1 : mft_zone_end z ≤ data1_zone_pos z < nr_clusters;
  ok_data2 : 0 ≤ data2_zone_pos z < nr_clusters
}.

(** The same mft zone. *)
Definition same_zone (z z' : zones) : Prop :=
  mft_zone_start z' = mft_zone_start z ∧ mft_zone_end z' = mft_zone_end z.

Lemma update_zone_pos_ok nr_clusters mft_lcn sz initial tc z z' :
  0 ≤ mft_lcn < nr_clusters → 0 ≤ tc → zones_ok nr_clusters z →
  update_zone_pos nr_clusters mft_lcn sz initial tc z = Ret z' → zones_ok nr_clusters z' ∧ same_zone z z'.
Proof.
  intros Hm Htc [H1 H2 H3 H4 H5]. unfold update_zone_pos.
  destruct (sz =? 1); [|destruct (sz =? 2); [|destruct (sz =? 4); [|done]]]; intros [= <-].
  - unfold update_mft_zone_pos, mft_zone_first. repeat case_match; zbool; repeat split; cbn; done || lia.
  - unfold update_data1_zone_pos. repeat case_match; zbool; repeat split; cbn; done || lia.
  - unfold update_data2_zone_pos. repeat case_match; zbool; repeat split; cbn; done || lia.
Qed.

(** ** The state of the search *)

(** The clusters of the zone number [sz]. *)
Definition zone_lo (z : zones) (sz : Z) : Z :=
  if sz =? 1 then mft_zone_start z else if sz =? 2 then mft_zone_end z else 0.
Definition zone_hi (nr_clusters : Z) (z : zones) (sz : Z) : Z :=
  if sz =? 1 then mft_zone_end z else if sz =? 2 then nr_clusters else mft_zone_start z.

(** The zone being searched, the zones done, and the number of zones to come. *)
Inductive turn : NTFS_CLUSTER_ALLOCATION_ZONES → Z → Z → nat → Prop :=
| turn_mft : turn MFT_ZONE 1 0 2
| turn_data1 zone : turn zone 2 1 1
| turn_data2 : turn DATA_ZONE 4 1 1
| turn_data1_last : turn DATA_ZONE 2 5 0
| turn_data2_last zone : turn zone 4 3 0.

(** How often the mft zone can be halved. *)
Definition shrinks (z : zones) : nat :=
  let size := mft_zone_end z - mft_zone_start z in
  if size <=? 0 then 0%nat else S (Z.to_nat (Z.log2 size)).

Lemma shrinks_fuel z : (6 + shrinks z ≤ alloc_fuel z)%nat.
Proof. unfold shrinks, alloc_fuel. case_match; lia. Qed.

Lemma shrinks_same z z' : same_zone z z' → shrinks z' = shrinks z.
Proof. intros [E1 E2]. unfold shrinks. by rewrite E1, E2. Qed.

Lemma log2_half d : 1 < d → Z.log2 d = Z.log2 (d / 2) + 1.
Proof.
  intros Hd. rewrite <- Z.div2_div. destruct (Z.Even_or_Odd d) as [[m ->]|[m ->]].
  - rewrite Z.div2_div, Z.mul_comm, Z.div_mul by lia. rewrite Z.mul_comm, Z.log2_double by lia. lia.
  - rewrite Z.div2_div, Z.mul_comm, Z.add_comm, Z.div_add by lia. change (1 / 2) with 0.
    rewrite Z.add_comm, Z.mul_comm, Z.log2_succ_double by lia. rewrite Z.add_0_l. lia.
Qed.

Lemma shrink_mft_zone_fuel mft_lcn s z :
  mft_zone_start z < mft_zone_end z → shrinks z = S (shrinks (shrink_mft_zone mft_lcn s z).2).
Proof.
  intros Hlt. unfold shrinks at 1. zdec. f_equal. unfold shrink_mft_zone, shrinks. cbn [snd mft_zone_end mft_zone_start].
  rewrite Z.shiftr_div_pow2 by lia. change (2 ^ 1) with 2. set (d := mft_zone_end z - mft_zone_start z) in *.
  destruct (Z.ltb_spec 0 (d / 2)) as [Hd|Hd].
  - replace (mft_zone_start z + d / 2 - mft_zone_start z) with (d / 2) by lia. zdec.
    rewrite (log2_half d) by zdiv. pose proof (Z.log2_nonneg (d / 2)). lia.
  - assert (d = 1) as -> by zdiv. done.
Qed.

Section zones.
Context {PC : PageCache} {AL : Allocator} (nr_clusters mft_lcn data_size : Z) (v0 : lcn_vol) (start count : Z).
Context (zone : NTFS_CLUSTER_ALLOCATION_ZONES) (at_end full : Prop).
Hypothesis mft_lcn_range : 0 ≤ mft_lcn < nr_clusters.
Abbreviation al_ok := (al_ok nr_clusters v0 start count).

(** A range of the zone whose turn it is; [at_end] if it may begin at the end of the volume. *)
Record search_ok (s : search) (k : nat) : Prop := {
  ok_turn : turn zone (search_zone s) (done_zones s) k;
  ok_pass : pass s = 1 ∨ pass s = 2;
  ok_pos : bmp_pos s = zone_start s;
  ok_start : 0 ≤ zone_start s ≤ nr_clusters;
  ok_at : zone_start s < nr_clusters ∨ at_end;
  ok_end : 0 ≤ zone_end s ≤ nr_clusters
}.

(** The zones done have no free cluster; that an allocation in the data zones leaves out the
    mft zone is not counted. *)
Definition done_in_use (z : zones) (d : Z) (v : lcn_vol) : Prop :=
  ∀ sz, (sz = 1 ∧ zone = MFT_ZONE ∨ sz = 2 ∨ sz = 4) → Z.land d sz ≠ 0 →
    in_use (zone_lo z sz) (zone_hi nr_clusters z sz) v.

(** What is left to search of the zone: in pass 1 all from the start of the range on, in pass 2
    only the range. *)
Definition covered (z : zones) (s : search) (v : lcn_vol) : Prop :=
  (pass s = 1 → zone_end s = zone_hi nr_clusters z (search_zone s)) ∧
  (pass s = 2 → zone_start s ≤ zone_lo z (search_zone s) ∧ in_use (zone_end s) (zone_hi nr_clusters z (search_zone s)) v) ∧
  done_in_use z (done_zones s) v.

(** Rounds of the outer loop at most, with this one. *)
Definition rounds (z : zones) (s : search) (k : nat) : nat := (if pass s =? 1 then 2 else 1) + 2 * k + shrinks z.

Lemma done_in_use_same z z' d v v' :
  same_zone z z' → lv_bitmap v' = lv_bitmap v → done_in_use z d v → done_in_use z' d v'.
Proof.
  intros [E1 E2] Eb Hd sz Hsz Hl i. unfold zone_lo, zone_hi. rewrite E1, E2, Eb. by apply Hd.
Qed.

Lemma covered_keeps z s v v' :
  zones_ok nr_clusters z → 0 ≤ zone_end s → keeps v v' → covered z s v → covered z s v'.
Proof.
  intros [H1 H2 _ _ _] He Hk (C1 & C2 & C3). split; [done|]. split.
  - intros Hp. split; [by apply C2|]. by eapply in_use_keeps; [| |apply C2].
  - intros sz Hsz Hl. eapply in_use_keeps; [|done|by apply C3]. unfold zone_lo. repeat case_match; lia.
Qed.

(** One more zone is done. *)
Lemma done_in_use_add z sz d v :
  done_in_use z d v → in_use (zone_lo z sz) (zone_hi nr_clusters z sz) v → sz = 1 ∨ sz = 2 ∨ sz = 4 →
  done_in_use z (Z.lor d sz) v.
Proof.
  intros Hd Hu Hsz sz' Hsz' Hl. destruct (decide (sz' = sz)) as [->|Hne]; [done|]. apply Hd; [done|].
  rewrite Z.land_lor_distr_l in Hl. intros E. apply Hl. rewrite E, Z.lor_0_l.
  destruct Hsz as [->|[->| ->]], Hsz' as [[-> _]|[->| ->]]; done.
Qed.

(** All zones are done. *)
Lemma all_in_use z v :
  zones_ok nr_clusters z → done_in_use z 7 v → (zone = MFT_ZONE ∨ mft_zone_end z - mft_zone_start z ≤ 0) →
  in_use 0 nr_clusters v.
Proof.
  intros [H1 H2 _ _ _] Hd Hz. pose proof (Hd 2 ltac:(auto) ltac:(done)) as U2.
  pose proof (Hd 4 ltac:(auto) ltac:(done)) as U4. cbn in U2, U4.
  eapply in_use_app; [exact U4|]. eapply in_use_app; [|exact U2].
  destruct Hz as [Hz|Hz]; [apply (Hd 1); [by left|done]|intros i Hi; lia].
Qed.

(** ** Switching zones *)

(** The same clusters, other positions of the zones. *)
Definition same_clusters (a a' : alloc) : Prop :=
  al_clusters a' = al_clusters a ∧ lv_bitmap (al_vol a') = lv_bitmap (al_vol a).

Lemma leave_zone_spec s l a :
  al_ok l a → zones_ok nr_clusters (al_zones a) → search_zone s = 1 ∨ search_zone s = 2 ∨ search_zone s = 4 →
  runs (leave_zone nr_clusters mft_lcn s a) (λ a', al_ok l a' ∧ same_clusters a a' ∧
    zones_ok nr_clusters (al_zones a') ∧ same_zone (al_zones a) (al_zones a')).
Proof.
  intros Hok Hz Hsz. unfold leave_zone. pose proof Hok as ([[(junk & Hj) Hp _ Hs _] _] & Ht & _). rewrite Hp, Hj.
  destruct l as [|e l _] using rev_ind; [by apply runs_Ret|].
  destruct (taken_last _ _ _ _ _ _ _ Ht Hs l e eq_refl) as (H1 & H2 & _).
  rewrite length_app, (proj2 (Nat.eqb_neq _ 0)) by (cbn; lia). cbn [length].
  replace (length l + 1 - 1)%nat with (length l) by lia. rewrite <- (assoc_L (++)). cbn [app]. rewrite rd_middle.
  cbn [mbind outcome_bind].
  destruct (update_zone_pos_Ret nr_clusters mft_lcn (search_zone s) (bmp_initial_pos s) (lcn e + rlen e) (al_zones a) Hsz)
    as [z Ez]. rewrite Ez. cbn [mbind outcome_bind].
  apply update_zone_pos_ok in Ez as [Hz' Hsame]; [|done|lia|done].
  apply runs_Ret. split; [by apply al_ok_zones|]. done.
Qed.

(** A new zone [s'] was chosen, to be searched from its current position. *)
Definition switched (d : Z) (k : nat) (s' : search) (a a' : alloc) : Prop :=
  same_clusters a a' ∧ zones_ok nr_clusters (al_zones a') ∧ same_zone (al_zones a) (al_zones a') ∧
  search_ok s' k ∧ done_zones s' = d ∧ (zone_start s' = zone_end s' → pass s' = 2) ∧
  (done_in_use (al_zones a) d (al_vol a) → covered (al_zones a') s' (al_vol a')).

Lemma switch_to_data1_spec s k l a :
  al_ok l a → zones_ok nr_clusters (al_zones a) → turn zone 2 (done_zones s) k →
  let r := switch_to_data1_zone nr_clusters s a in
  al_ok l r.2 ∧ switched (done_zones s) k r.1 a r.2.
Proof.
  intros Hok Hz Ht. pose proof Hz as [H1 H2 H3 H4 H5]. unfold switch_to_data1_zone. zdec. cbn.
  split; [done|]. split; [done|]. split; [done|]. split; [done|]. split_and!; try done.
  - split; cbn; try done; try lia. case_match; auto.
  - cbn. lia.
  - intros Hd. split_and!; cbn; [done| |done]. destruct (Z.eqb_spec (data1_zone_pos (al_zones a)) (mft_zone_end (al_zones a))); [|done].
    intros _. split; [lia|]. intros i Hi. lia.
Qed.

Lemma switch_to_data2_spec s k l a :
  al_ok l a → zones_ok nr_clusters (al_zones a) → turn zone 4 (done_zones s) k →
  let r := switch_to_data2_zone s a in
  al_ok l r.2 ∧ switched (done_zones s) k r.1 a r.2.
Proof.
  intros Hok Hz Ht. pose proof Hz as [H1 H2 H3 H4 H5]. unfold switch_to_data2_zone.
  destruct (Z.leb_spec (mft_zone_start (al_zones a)) (data2_zone_pos (al_zones a))) as [Hle|Hgt]; cbn.
  - split; [by apply al_ok_zones|]. split; [done|]. split; [split; cbn; lia|]. split; [done|]. split_and!; try done.
    + split; cbn; auto; lia.
    + intros Hd. split_and!; cbn; [done| |]; [intros _; split; [lia|]; intros i Hi; lia|].
      by eapply done_in_use_same; [..|exact Hd].
  - split; [done|]. split; [done|]. split; [done|]. split; [done|]. split_and!; try done.
    + split; cbn; try done; try lia. case_match; auto.
    + cbn. lia.
    + intros Hd. split_and!; cbn; [done| |done]. destruct (Z.eqb_spec (data2_zone_pos (al_zones a)) 0); [|done].
      intros _. split; [lia|]. intros i Hi. lia.
Qed.

Lemma turn_zone sz d k : turn zone sz d k → sz = 1 ∨ sz = 2 ∨ sz = 4.
Proof. destruct 1; auto. Qed.

Lemma turn_range sz d k : turn zone sz d k → (k ≤ 2)%nat.
Proof. destruct 1; lia. Qed.

Lemma turn_next sz d k : turn zone sz d (S k) → Z.lor d sz < 7 ∧ turn zone (if sz =? 2 then 4 else 2) (Z.lor d sz) k.
Proof. inversion 1; subst; (split; [done|]); cbn; constructor. Qed.

Lemma turn_last sz d : turn zone sz d 0 → Z.lor d sz = 7.
Proof. by inversion 1; subst. Qed.

Lemma switched_trans d k s' a a1 a' :
  same_clusters a a1 → same_zone (al_zones a) (al_zones a1) → switched d k s' a1 a' → switched d k s' a a'.
Proof.
  intros [E1 E2] [E3 E4] ([E5 E6] & Hz & [E7 E8] & Hs & Hd & Hp & Hc).
  split; [split; congruence|]. split; [done|]. split; [split; congruence|]. split_and!; try done.
  intros Hu. apply Hc. by eapply done_in_use_same; [..|exact Hu].
Qed.

Lemma switch_zone_spec s d k l a :
  al_ok l a → zones_ok nr_clusters (al_zones a) → turn zone (search_zone s) d (S k) →
  done_zones s = Z.lor d (search_zone s) →
  runs (switch_zone nr_clusters mft_lcn s a) (λ r, al_ok l r.2 ∧ switched (done_zones s) k r.1 a r.2).
Proof.
  intros Hok Hz Ht Hd. pose proof (turn_zone _ _ _ Ht) as Hsz. apply turn_next in Ht as [_ Ht]. rewrite <- Hd in Ht.
  pose proof (leave_zone_spec s l a Hok Hz Hsz) as Hl. unfold switch_zone.
  destruct Hsz as [E|[E|E]]; rewrite E in *; cbn [Z.eqb Pos.eqb] in *.
  all: eapply runs_bind; [exact Hl|]; intros a1 (Hok1 & Hc1 & Hz1 & Hs1); apply runs_Ret.
  2: destruct (switch_to_data2_spec s k l a1 Hok1 Hz1 Ht) as [Hok2 Hsw].
  1, 3: destruct (switch_to_data1_spec s k l a1 Hok1 Hz1 Ht) as [Hok2 Hsw].
  all: split; [exact Hok2|]; by eapply switched_trans.
Qed.

(** ** The end of a zone *)

(** What [done_zones_check] finds: nothing left, or the next range. *)
Definition check_post (l : list ntfs_rl_element) (z : zones) (k : nat) (a : alloc) (r : option search * alloc) : Prop :=
  al_ok l r.2 ∧ same_clusters a r.2 ∧ zones_ok nr_clusters (al_zones r.2) ∧
  match r.1 with
  | None => full → in_use 0 nr_clusters (al_vol r.2)
  | Some s => ∃ k', search_ok s k' ∧ (full → covered (al_zones r.2) s (al_vol r.2)) ∧
      (rounds (al_zones r.2) s k' ≤ 2 * k + shrinks z)%nat
  end.

Lemma shrink_spec s l a :
  zone = DATA_ZONE → al_ok l a → zones_ok nr_clusters (al_zones a) → done_zones s = 7 →
  mft_zone_start (al_zones a) < mft_zone_end (al_zones a) →
  (full → done_in_use (al_zones a) 7 (al_vol a)) →
  let r := shrink_mft_zone mft_lcn s (al_zones a) in
  check_post l (al_zones a) 0 a (Some r.1, set_al_zones r.2 a).
Proof.
  intros Ezone Hok Hz Hd Hlt Hu r. pose proof (shrink_mft_zone_fuel mft_lcn s (al_zones a) Hlt) as Hfuel.
  pose proof Hz as [H1 H2 H3 H4 H5]. unfold check_post. cbn [fst snd]. split; [by apply al_ok_zones|]. split; [done|].
  subst r. unfold shrink_mft_zone in *. rewrite Z.shiftr_div_pow2 in * by lia. change (2 ^ 1) with 2 in *.
  set (z := al_zones a) in *. set (d := mft_zone_end z - mft_zone_start z) in *. cbn [fst snd] in *.
  assert (0 ≤ d / 2 < d ∧ d = mft_zone_end z - mft_zone_start z) as [Hhalf Ed] by (split; [zdiv|done]).
  set (ms := if 0 <? d / 2 then mft_zone_start z else 0) in *.
  set (me := if 0 <? d / 2 then mft_zone_start z + d / 2 else 0) in *.
  assert (0 ≤ ms ≤ me ∧ me < mft_zone_end z ∧ ms ≤ mft_zone_start z) as Hms by (unfold ms, me; destruct (Z.ltb_spec 0 (d / 2)); lia).
  split; [split; cbn; try lia; ztests|]. exists 0%nat. split_and!.
  - split; cbn; try lia; auto. rewrite Hd, Ezone. constructor.
  - intros Hf. specialize (Hu Hf). pose proof (Hu 2 ltac:(auto) ltac:(done)) as U2.
    pose proof (Hu 4 ltac:(auto) ltac:(done)) as U4. cbn in U2, U4. split_and!; cbn; [done| |].
    + intros _. by split.
    + intros sz Hsz Hl. rewrite Hd in Hl. destruct Hsz as [[-> E]|[->| ->]]; [congruence|done|].
      cbn. intros i Hi. apply U4. lia.
  - unfold rounds. cbn [pass Z.eqb Pos.eqb]. rewrite Hfuel. unfold al_zones. cbn. lia.
Qed.

Lemma done_zones_check_spec fuel s k l a :
  (k < fuel)%nat → al_ok l a → zones_ok nr_clusters (al_zones a) → turn zone (search_zone s) (done_zones s) k →
  (full → done_in_use (al_zones a) (done_zones s) (al_vol a) ∧
     in_use (zone_lo (al_zones a) (search_zone s)) (zone_hi nr_clusters (al_zones a) (search_zone s)) (al_vol a)) →
  runs (done_zones_check nr_clusters mft_lcn fuel zone s a) (check_post l (al_zones a) k a).
Proof.
  revert s k a. induction fuel as [|fuel IH]; intros s k a Hf Hok Hz Ht Hu; [lia|]. cbn [done_zones_check done_zones].
  assert (full → done_in_use (al_zones a) (Z.lor (done_zones s) (search_zone s)) (al_vol a)) as Hu'.
  { intros F. apply done_in_use_add; [apply Hu, F..|by eapply turn_zone]. }
  destruct k as [|k].
  - rewrite (turn_last _ _ Ht) in *. cbn [Z.ltb Z.compare Pos.compare Pos.compare_cont].
    destruct (is_mft_zone zone || _) eqn:Etest.
    + apply runs_Ret. split_and!; try done. intros F. apply (all_in_use (al_zones a)); [done|by apply Hu'|].
      apply orb_prop in Etest as [E|E%Z.leb_le]; [left; by destruct zone|by right].
    + apply orb_false_elim in Etest as [E1 E2%Z.leb_gt]. set (s1 := mk_search _ _ _ _ _ _ _).
      destruct (shrink_mft_zone mft_lcn s1 (al_zones a)) as [s2 z2] eqn:Esh. apply runs_Ret.
      pose proof (shrink_spec s1 l a) as Hs. cbn zeta in Hs. rewrite Esh in Hs. apply Hs; try done; [by destruct zone|lia].
  - pose proof (turn_next _ _ _ Ht) as [Hlt _]. rewrite (proj2 (Z.ltb_lt _ 7)) by done.
    eapply runs_bind; [by eapply switch_zone_spec|].
    intros [s' a'] (Hok' & Hc' & Hz' & Hs' & Hso & Hd' & Hpass & Hcov). cbn [fst snd done_zones] in *.
    assert (full → covered (al_zones a') s' (al_vol a')) as Hcov' by auto.
    destruct (Z.eqb_spec (zone_start s') (zone_end s')) as [Ee|Ee].
    + eapply runs_mono; [eapply (IH s' k a')|]; [lia|done|done|apply Hso| |].
      * intros F. destruct (Hcov' F) as (_ & C2 & C3). split; [done|]. destruct C2 as [C2 C4]; [auto|].
        intros i Hi. apply C4. lia.
      * intros [o a''] (P1 & [P2 P2'] & P3 & P4). destruct Hc' as [Q1 Q2]. split; [done|]. cbn [fst snd] in *.
        split; [split; congruence|]. split; [done|]. destruct o as [s''|]; [|done]. destruct P4 as (k' & R1 & R2 & R3).
        exists k'. split_and!; [done..|]. rewrite (shrinks_same _ _ Hs') in R3. lia.
    + apply runs_Ret. split; [done|]. split; [done|]. split; [done|]. exists k. split_and!; [done..|].
      unfold rounds. cbn [fst snd]. rewrite (shrinks_same _ _ Hs'). case_match; lia.
Qed.

(** ** The outer loop *)

Hypothesis bitmap_size : nr_clusters ≤ 8 * data_size.

(** The result of the search. *)
Definition loop_post (r : Z * alloc) : Prop :=
  (∃ l, al_ok l r.2) ∧ zones_ok nr_clusters (al_zones r.2) ∧
  (r.1 = 0 ∧ al_clusters r.2 = 0 ∨
   search_error data_size at_end r.1 ∨
   r.1 = ENOSPC ∧ 0 < al_clusters r.2 ∧ (full → in_use 0 nr_clusters (al_vol r.2))).

Lemma page_fuel_enough s :
  zone_end s - 8 * PAGE_SIZE * (bmp_pos s / (8 * PAGE_SIZE)) ≤ 8 * PAGE_SIZE * Z.of_nat (page_fuel s).
Proof.
  unfold page_fuel. pose proof PAGE_SIZE_range as HP. set (m := 8 * PAGE_SIZE). assert (0 < m) as Hm by lia.
  assert (bmp_pos s = m * (bmp_pos s / m) + bmp_pos s mod m ∧ 0 ≤ bmp_pos s mod m < m) as Hp
    by (split; [apply Z.div_mod|apply Z.mod_pos_bound]; lia).
  assert (zone_end s - bmp_pos s = m * ((zone_end s - bmp_pos s) / m) + (zone_end s - bmp_pos s) mod m ∧
    0 ≤ (zone_end s - bmp_pos s) mod m < m) as Hq by (split; [apply Z.div_mod|apply Z.mod_pos_bound]; lia).
  set (q := (zone_end s - bmp_pos s) / m) in *. nia.
Qed.

(** Pass 2 after pass 1. *)
Lemma second_pass_spec s k z v :
  zones_ok nr_clusters z → search_ok s k → pass s = 1 →
  runs (second_pass s z) (λ s', search_ok s' k ∧ rounds z s k = S (rounds z s' k) ∧
    (covered z s v → in_use (zone_start s) (zone_end s) v → covered z s' v)).
Proof.
  intros Hz [Ht _ Hpos Hst Hat Hend] Hp. pose proof Hz as [H1 H2 H3 H4 H5]. unfold second_pass.
  eapply (runs_bind _ _ (λ x, x = zone_lo z (search_zone s))).
  { destruct (turn_zone _ _ _ Ht) as [E|[E|E]]; rewrite E; by apply runs_Ret. }
  intros lo ->. apply runs_Ret.
  assert (0 ≤ zone_lo z (search_zone s) < nr_clusters) as Hlo by (unfold zone_lo; ztests; lia).
  split; [|split].
  - split; cbn; auto; try lia. case_match; lia.
  - unfold rounds. by rewrite Hp.
  - intros (C1 & _ & C3) Hu. split_and!; cbn; [done| |done]. intros _. split; [lia|]. rewrite <- C1 by done.
    intros i Hi. apply Hu. revert Hi. ztests; lia.
Qed.

Lemma alloc_loop_spec fuel s k l a :
  al_ok l a → 0 < al_clusters a → zones_ok nr_clusters (al_zones a) → search_ok s k →
  (full → covered (al_zones a) s (al_vol a)) → (rounds (al_zones a) s k ≤ fuel)%nat →
  runs (alloc_loop nr_clusters mft_lcn fuel zone start data_size s a) loop_post.
Proof.
  revert s k l a. induction fuel as [|fuel IH]; intros s k l a Hok Hcl Hz Hs Hcov Hf.
  { exfalso. unfold rounds in Hf. case_match; lia. }
  cbn [alloc_loop]. pose proof Hs as [Ht Hp Hpos Hst Hat Hend].
  eapply runs_bind.
  { apply (page_loop_spec nr_clusters mft_lcn data_size v0 start count (page_fuel s) s l a at_end); try done; try lia.
    - by eapply turn_zone.
    - rewrite Hpos. done.
    - unfold page_fuel. lia.
    - apply page_fuel_enough. }
  intros [e a1] ([l1 Hok1] & Hk1 & Hr). cbn [fst snd] in *. rewrite Hpos in Hr. destruct e.
  2: { destruct Hr as (Hc1 & tc & Htc & Eu). apply update_zone_pos_ok in Eu as [Hz1 _]; [|done..].
       apply runs_Ret. split; [by exists l1|]. split; [done|]. by left. }
  2: { destruct Hr as [Herr Hz1]. apply runs_Ret. split; [by exists l1|]. cbn. rewrite Hz1. auto. }
  destruct Hr as (Hcl1 & Hz1 & Hu1). rewrite <- Hz1 in *.
  assert (full → covered (al_zones a1) s (al_vol a1)) as Hcov1.
  { intros F. eapply covered_keeps; [done|lia|exact Hk1|by apply Hcov]. }
  destruct (Z.eqb_spec (pass s) 1) as [Ep|Ep].
  - eapply runs_bind; [by apply (second_pass_spec s k _ (al_vol a1))|]. intros s' (Hs' & Hr' & Hc'). rewrite Hr' in Hf.
    apply (IH s' k l1); try done; [auto|lia].
  - destruct Hp as [|Hp]; [done|]. eapply runs_bind.
    { apply (done_zones_check_spec 3 s k l1); try done; [apply turn_range in Ht; lia|]. intros F.
      destruct (Hcov1 F) as (_ & C2 & C3). split; [done|]. destruct C2 as [C2 C4]; [done|].
      intros i Hi. destruct (Z_lt_le_dec i (zone_end s)); [apply Hu1|apply C4]; lia. }
    intros [o a2] (Hok2 & [E1 E2] & Hz2 & Ho). cbn [fst snd] in *. destruct o as [s2|].
    + destruct Ho as (k2 & Hs2 & Hc2 & Hr2). apply (IH s2 k2 l1); try done; [lia|].
      unfold rounds in Hf at 1. rewrite Hp in Hf. cbn in Hf. lia.
    + apply runs_Ret. split; [by exists l1|]. split; [done|]. right. right. cbn. split; [done|]. split; [lia|done].
Qed.
End zones.
