(* ===== verification/LcnAllocSpec.v ===== *)
(** * Allocating clusters: the theorems

    [ntfs_cluster_alloc] returns a runlist of free clusters and takes them, finds them
    whenever there are enough, and what its rollback does otherwise. *)

From S2P Require Import Prelude Volume Runlist RunlistBuf RunlistQuery PageCache Bitmap Boot LcnFree LcnAlloc LcnScan LcnZones.

(** The zones that are set up when the volume is mounted satisfy the invariant. *)
Lemma setup_zones_ok page_size v multiplier fuel :
  geometry_ok page_size v → 0 ≤ Boot.mft_lcn v → (33 ≤ fuel)%nat →
  ∃ z, ntfs_setup_allocators fuel multiplier v = Some z ∧ zones_ok (Boot.nr_clusters v) z ∧
    0 ≤ Boot.mft_lcn v < Boot.nr_clusters v.
Proof.
  intros Hg H0 Hf. destruct (setup_allocators_zones page_size v multiplier fuel Hg H0 Hf) as (z & E & H1 & H2 & H3 & H4).
  exists z. split; [done|]. split; [split|]; lia.
Qed.

(** The search starts such that it covers all of the zone. *)
Definition covers (zone : NTFS_CLUSTER_ALLOCATION_ZONES) (start_lcn : Z) (z : zones) : Prop :=
  zone = DATA_ZONE ∨ start_lcn < 0 ∨ mft_zone_start z ≤ start_lcn < mft_zone_end z.

(** A request for [count] clusters on a consistent volume: $Bitmap has a bit for every cluster,
    and [start_lcn] is -1 or at most the end of the volume. *)
Record request_ok (nr_clusters mft_lcn data_size start_vcn count start_lcn : Z) (v : lcn_vol) : Prop := {
  req_vcn : 0 ≤ start_vcn;
  req_count : 0 < count;
  req_lcn : -1 ≤ start_lcn ≤ nr_clusters;
  req_mft : 0 ≤ mft_lcn < nr_clusters;
  req_bitmap : nr_clusters ≤ 8 * data_size;
  req_clusters : nr_clusters ≤ 2 ^ 63;
  req_zones : zones_ok nr_clusters (lv_zones v);
  req_free : 0 ≤ nr_free_clusters v ≤ nr_clusters
}.

Section alloc.
Context {PC : PageCache} {AL : Allocator} (nr_clusters mft_lcn data_size : Z).

Lemma first_search_spec zone start_lcn z v :
  0 ≤ mft_lcn < nr_clusters → start_lcn ≤ nr_clusters → zones_ok nr_clusters z →
  let s := first_search nr_clusters mft_lcn zone start_lcn z in
  ∃ k, search_ok nr_clusters zone (start_lcn = nr_clusters) s k ∧
    (covers zone start_lcn z → covered nr_clusters zone z s v) ∧ (rounds z s k ≤ 6 + shrinks z)%nat.
Proof.
  intros Hm Hl [H1 H2 H3 H4 H5] s. subst s. unfold first_search, mft_zone_first. destruct zone; cbn [is_mft_zone negb andb].
  - set (sp := if start_lcn <? 0 then _ else _).
    assert (0 ≤ sp.1 < nr_clusters ∧ (sp.2 = 1 ∨ sp.2 = 2) ∧ (covers MFT_ZONE start_lcn z → sp.2 = 2 → sp.1 ≤ mft_zone_start z))
      as (Hs & Hp & Hc).
    { unfold sp. destruct (Z.ltb_spec start_lcn 0); [|destruct (orb _ _) eqn:Eo]; cbn [fst snd].
      - split; [lia|]. split; [case_match; auto|]. intros _. destruct (Z.eqb_spec (mft_zone_pos z) 0); lia.
      - split; [ztests; lia|]. split; [auto|]. intros [|[]] _; [done|lia|]. zbool; lia.
      - apply orb_false_elim in Eo as [?%Z.ltb_ge ?%Z.leb_gt]. split_and!; [lia|lia|auto|]. intros _. lia. }
    destruct sp as [st p]. cbn [fst snd] in *. exists 2%nat. split; [split; cbn; [constructor|auto|done|lia|lia|lia]|].
    split; [|unfold rounds; cbn; case_match; lia]. intros Hcov. split_and!; cbn; [done| |].
    + intros Ep. split; [by apply Hc|]. intros i Hi. lia.
    + intros sz _ Hn. by rewrite Z.land_0_l in Hn.
  - set (sp := if start_lcn <? 0 then _ else _).
    assert (0 ≤ sp.1 ≤ nr_clusters ∧ (sp.2 = 1 ∨ sp.2 = 2) ∧ (sp.1 < nr_clusters ∨ start_lcn = nr_clusters) ∧
      (sp.1 < mft_zone_start z ∧ (sp.2 = 2 → sp.1 = 0) ∨ mft_zone_end z ≤ sp.1 ∧ (sp.2 = 2 → sp.1 = mft_zone_end z)))
      as (Hs & Hp & Hat & Hc).
    { unfold sp. destruct (Z.ltb_spec start_lcn 0); [|destruct (andb _ _) eqn:Ea]; cbn [fst snd].
      - split; [lia|]. split; [case_match; auto|]. split; [lia|]. right. split; [lia|].
        destruct (Z.eqb_spec (data1_zone_pos z) 0); lia.
      - split_and!; [lia|lia|auto|lia|]. right. lia.
      - split_and!; [lia|lia|auto|lia|]. apply andb_false_iff in Ea as [?%Z.leb_gt|?%Z.ltb_ge]; lia. }
    destruct sp as [st p]. cbn [fst snd] in *. exists 1%nat.
    assert (∀ w, done_in_use nr_clusters DATA_ZONE z 1 w) as Hd.
    { intros w sz [[_ [=]]|[->| ->]]; done. }
    destruct (Z.leb_spec (mft_zone_end z) st).
    + split; [split; cbn; [constructor|auto|done|lia|done|lia]|].
      split; [|unfold rounds; cbn; case_match; lia]. intros _. split_and!; cbn; [done| |done].
      intros Ep. split; [lia|]. intros i Hi. lia.
    + split; [split; cbn; [constructor|auto|done|lia|done|lia]|].
      split; [|unfold rounds; cbn; case_match; lia]. intros _. split_and!; cbn; [done| |done].
      intros Ep. split; [lia|]. intros i Hi. lia.
Qed.

(** ** The result *)

(** The runs [l] with a terminator, in the buffer of [a]; no buffer without runs. *)
Definition terminated (start stop : Z) (l : list ntfs_rl_element) (v : lcn_vol) (a : alloc) : Prop :=
  al_vol a = v ∧
  (l = [] ∧ stop = start ∧ al_rlcount a = 0%nat ∨
   l ≠ [] ∧ (0 < al_rlcount a)%nat ∧ ∃ t junk, al_rl a = (l ++ [t]) ++ junk ∧
     al_rlpos a = length l ∧ al_rlcount a = length (al_rl a) ∧ wf_rl start stop (l ++ [t])).

Lemma terminate_rl_spec v0 start count ext l a :
  al_ok nr_clusters v0 start count l a →
  runs (terminate_rl ext a) (terminated start (start + (count - al_clusters a)) l (al_vol a)).
Proof.
  intros ([[(junk & Hj) Hp Hc Hs _] Hr] & _ & _). unfold terminate_rl. rewrite Hp, Hj in *.
  destruct Hr as [H0|Hr].
  { rewrite H0. apply runs_Ret. split; [done|]. left. rewrite H0 in Hc. destruct l; [|done].
    split; [done|]. by apply seg_end_nil in Hs. }
  rewrite (proj2 (Nat.eqb_neq _ 0)) by lia. destruct l as [|e l _] using rev_ind; [cbn in Hr; lia|].
  destruct junk as [|x junk]; [len|].
  pose proof Hs as (m & _ & He)%seg_app_inv. apply seg_one in He as (<- & _ & E & _).
  rewrite length_app in *. cbn [length] in *. replace (length l + 1 - 1)%nat with (length l) by lia.
  rewrite <- (assoc_L (++)). cbn [app]. rewrite rd_middle. cbn [mbind outcome_bind]. rewrite <- E.
  change (l ++ e :: x :: junk) with (l ++ [e] ++ x :: junk). rewrite (assoc_L (++)).
  replace (length l + 1)%nat with (length (l ++ [e])) by len. do 3 (rewrite upd_middle; cbn [mbind outcome_bind]).
  apply runs_Ret. split; [done|]. right. cbn [al_rl al_rlpos al_rlcount]. split; [by destruct l|]. split; [lia|].
  exists (mk_rle (start + (count - al_clusters a)) (if ext then LCN_ENOENT else LCN_RL_NOT_MAPPED) 0), junk.
  split; [by rewrite <- (assoc_L (++) (l ++ [e]))|]. split; [done|]. split; [len|].
  eexists _, _. split; [reflexivity|]. split; [done|]. split; [done|]. split; [done|]. by destruct ext.
Qed.

(** The block [b] is passed to [buf_invalblkno]. *)
Definition invalidated (bs : list (Z * Z)) (b : Z) : Prop := Exists (λ r, r.1 ≤ b < r.2) bs.

(** The device blocks of the clusters of a runlist are invalidated. *)
Lemma inval_runs_spec sh a b l junk :
  wf_rl a b l → 0 ≤ sh →
  runs (inval_runs sh (l ++ junk)) (λ bs, ∀ x, invalidated bs x ↔
    ∃ w i, lcn_of l w = Some i ∧ 0 ≤ i ∧ Z.shiftl i sh ≤ x < Z.shiftl (i + 1) sh).
Proof.
  intros Hwf Hsh. revert a Hwf. induction l as [|e l IH]; intros a Hwf; [by apply wf_rl_not_nil in Hwf|].
  apply wf_rl_cons_inv in Hwf as (<- & [(Hlen & -> & _)|(Hlen & Hlcn & Hwf)]); cbn [app inval_runs].
  { rewrite Hlen. apply runs_Ret. intros x. split; [by intros ?%Exists_nil|]. intros (w & i & Hw & _).
    revert Hw. cbn. rewrite Hlen. ztests; done || lia. }
  rewrite (proj2 (Z.eqb_neq (rlen e) 0)) by lia. eapply runs_bind; [by eapply IH|]. cbv beta. intros bs Hbs.
  assert (∀ w i, lcn_of (e :: l) w = Some i ↔
    vcn e ≤ w < vcn e + rlen e ∧ i = run_lcn e w ∨ lcn_of l w = Some i) as Hlo.
  { intros w i. cbn. destruct (Z.leb_spec (vcn e) w), (Z.ltb_spec w (vcn e + rlen e)); cbn [andb].
    - rewrite (lcn_of_wf_lt _ _ _ _ Hwf) by lia. split; [intros [= <-]; auto|]. by intros [[_ ->]|[=]].
    - split; [by right|]. by intros [[]|]; [lia|].
    - rewrite (lcn_of_wf_lt _ _ _ _ Hwf) by lia. split; [done|]. by intros [[]|]; [lia|].
    - split; [by right|]. by intros [[]|]; [lia|]. }
  unfold run_lcn in Hlo. destruct (Z.ltb_spec (lcn e) 0) as [Hneg|Hpos]; apply runs_Ret; intros x.
  - rewrite Hbs. split; intros (w & i & Hw & Hi & Hx); exists w, i; (split; [|done]).
    + apply Hlo. by right.
    + apply Hlo in Hw as [[_ ->]|]; [|done]. revert Hi. zdec. lia.
  - unfold invalidated. rewrite Exists_cons. fold (invalidated bs x). rewrite Hbs. cbn [fst snd].
    rewrite !Z.shiftl_mul_pow2 by done. assert (0 < 2 ^ sh) as Hp by lia. split.
    + intros [Hx|(w & i & Hw & Hi & Hx)].
      * set (i := x / 2 ^ sh). exists (vcn e + (i - lcn e)), i. rewrite !Z.shiftl_mul_pow2 by done.
        assert (i * 2 ^ sh ≤ x < (i + 1) * 2 ^ sh) as Hi by (unfold i; pose proof (Z.div_mod x (2 ^ sh)); pose proof (Z.mod_pos_bound x (2 ^ sh)); nia).
        assert (lcn e ≤ i < lcn e + rlen e) as Hi' by nia. split; [|lia]. apply Hlo. left. zdec. lia.
      * exists w, i. split; [|done]. apply Hlo. by right.
    + intros (w & i & Hw & Hi & Hx). rewrite !Z.shiftl_mul_pow2 in Hx by done.
      apply Hlo in Hw as [[Hw ->]|Hw]; [left; revert Hx; zdec; nia|right; exists w, i; by rewrite !Z.shiftl_mul_pow2].
Qed.

(** ** The rollback *)

Lemma lcn_of_terminated a b l t w : wf_rl a b (l ++ [t]) → lcn_of (l ++ [t]) w = lcn_of l w.
Proof.
  intros (l' & t' & E & _ & Ht). apply app_inj_2 in E as [-> E]; [|done]. simplify_eq.
  rewrite lcn_of_app, (lcn_of_terminator _ _ _ Ht). by destruct (lcn_of l' w).
Qed.

Lemma taken_addressable v0 k start stop l v t :
  nr_clusters ≤ 2 ^ 63 → taken nr_clusters v0 k l v → seg start stop l → lcn t < 0 → addressable (l ++ [t]).
Proof.
  intros Hn Ht Hs Hneg. apply addressable_app. split.
  - eapply list.Forall_impl; [by eapply taken_runs|]. cbv beta. lia.
  - constructor; [lia|constructor].
Qed.

Lemma lcn_of_Some_in a b l w i : seg a b l → lcn_of l w = Some i → a ≤ w < b.
Proof.
  intros Hs Hw. destruct (Z_lt_le_dec w a); [by rewrite (lcn_of_lt _ _ _ _ Hs) in Hw by done|].
  destruct (Z_lt_le_dec w b); [lia|]. by rewrite (lcn_of_ge _ _ _ _ Hs) in Hw by done.
Qed.

(** The terminator is no run. *)
Lemma wf_rl_snoc a b l t : wf_rl a b (l ++ [t]) → seg a b l ∧ lcn t < 0.
Proof.
  intros (l' & t' & E & Hs & _ & _ & Hl). apply app_inj_2 in E as [-> E]; [|done]. simplify_eq.
  split; [done|]. unfold LCN_HOLE in Hl. lia.
Qed.

(** A runlist that begins behind VCN 0 is not rolled back. *)
Lemma rollback_skips start stop l v a : terminated start stop l v a → 0 < start → rollback nr_clusters a = Ret v.
Proof.
  intros [Ev [(-> & _ & H0)|(Hl & H0 & t & junk & Er & _ & _ & Hwf)]] Hst; unfold rollback; [by rewrite H0, Ev|].
  rewrite (proj2 (Nat.eqb_neq _ 0)), Er, Ev by lia. destruct (wf_rl_snoc _ _ _ _ Hwf) as [Hs _].
  destruct l as [|e l]; [done|]. apply seg_cons_inv in Hs as [Hv _]. cbn [app]. by rewrite cluster_free_before by lia.
Qed.

(** Whatever the page cache does, the rollback returns and leaves the zones alone. *)
Lemma rollback_runs v0 k start stop l v a :
  nr_clusters ≤ 2 ^ 63 → 0 ≤ start → taken nr_clusters v0 k l v → terminated start stop l v a →
  runs (rollback nr_clusters a) (λ v', lv_zones v' = lv_zones v).
Proof.
  intros Hn Hst Ht Hterm. destruct (decide (start = 0)) as [->|Hne].
  2: { rewrite (rollback_skips start stop l v a) by (done || lia). by apply runs_Ret. }
  destruct Hterm as [Ev [(-> & _ & H0)|(Hl & H0 & t & junk & Er & _ & _ & Hwf)]]; unfold rollback.
  { rewrite H0, Ev. by apply runs_Ret. }
  rewrite (proj2 (Nat.eqb_neq _ 0)), Er, Ev by lia. destruct (wf_rl_snoc _ _ _ _ Hwf) as [Hs Hneg].
  eapply (runs_bind _ _ (λ r, lv_zones r.2 = lv_zones v)).
  2: { intros [[err n] v'] Hz. apply runs_Ret. rewrite <- Hz. by destruct (err =? 0). }
  assert (0 < stop) as Hstop.
  { destruct l as [|e l]; [done|]. apply seg_cons_inv in Hs as (_ & ? & _ & Hrest%seg_le). lia. }
  eapply free_all_runs; [exact Hwf|lia|by eapply taken_addressable|]. rewrite (lcn_of_terminated _ _ _ _ _ Hwf).
  destruct (lcn_of_in _ _ _ 0 Hs) as [i Hi]; [lia|]. rewrite Hi. apply (taken_real _ _ _ _ _ Ht) in Hi. cbn.
  unfold LCN_HOLE. lia.
Qed.

(** The number of clusters of real runs. *)
Lemma nr_real_all from to a b l t :
  seg a b l → from ≤ a → b ≤ to → Forall (λ e, 0 ≤ lcn e) l → lcn t < 0 → nr_real from to (l ++ [t]) = b - a.
Proof.
  intros Hs Hf Ht Hl Hneg. induction Hs as [a|a b x n l Hn Hx Hs IH]; cbn [app]; rewrite nr_real_cons.
  - unfold real_in. zdec. cbn. lia.
  - apply list.Forall_cons in Hl as [Hx0 Hl]. cbn in Hx0. pose proof (seg_le _ _ _ Hs).
    rewrite IH by (done || lia). unfold real_in. cbn. zdec. lia.
Qed.

(** On a working page cache the clusters of a runlist that begins at VCN 0 are free again. *)
Lemma rollback_restores v0 k l v a :
  (∀ t ofs, page_map_errno t ofs = 0) → nr_clusters ≤ 2 ^ 63 → nr_free_clusters v ≤ nr_clusters →
  taken nr_clusters v0 k l v → terminated 0 k l v a → 0 ≤ k →
  runs (rollback nr_clusters a) (λ v', (∀ i, 0 ≤ i → bit_of (lv_bitmap v') i = bit_of (lv_bitmap v0) i) ∧
    nr_free_clusters v' = Z.min nr_clusters (nr_free_clusters v + k) ∧
    lv_errors v' = lv_errors v0).
Proof.
  intros Hmap Hn Hfree Ht [Ev [(-> & Estop & H0)|(Hl & H0 & t & junk & Er & _ & _ & Hwf)]] Hk; unfold rollback.
  { rewrite H0, Ev. apply runs_Ret. cbn. split_and!; [|lia|apply Ht]. intros i Hi. apply eq_true_iff_eq.
    rewrite (taken_bits _ _ _ _ _ Ht) by done. split; [by intros [|[? [=]]]|by left]. }
  rewrite (proj2 (Nat.eqb_neq _ 0)), Er, Ev by lia. destruct (wf_rl_snoc _ _ _ _ Hwf) as [Hs Hneg].
  assert (0 < k) as Hk0.
  { destruct l; [done|]. apply seg_cons_inv in Hs as (_ & ? & _ & Hle%seg_le). lia. }
  assert (∀ w i, lcn_of (l ++ [t]) w = Some i → 0 ≤ i) as Hreal.
  { intros w i. rewrite (lcn_of_terminated _ _ _ _ _ Hwf). intros Hw. by apply (taken_real _ _ _ _ _ Ht) in Hw as [[]]. }
  assert (all_mapped 0 k (l ++ [t])) as Hm.
  { intros w _ Hw. apply Hreal in Hw. unfold LCN_RL_NOT_MAPPED in Hw. lia. }
  destruct (cluster_free_works Hmap nr_clusters 0 k (l ++ [t]) junk 0 k (-1) v) as (v' & -> & (Hz & Hf & Hb) & He);
    [done|lia|lia|lia|by eapply taken_addressable|by left|done|by apply Hm; lia|].
  cbn [mbind outcome_bind Z.eqb negb]. apply runs_Ret. split_and!.
  - intros i Hi. rewrite Hb by done. apply eq_true_iff_eq.
    rewrite andb_true_iff, negb_true_iff, <- not_true_iff_false, (frees_lcn_of _ _ _ _ _ _ Hwf),
      (taken_bits _ _ _ _ _ Ht) by done. setoid_rewrite (lcn_of_terminated _ _ _ _ _ Hwf). split.
    + intros [[H|[w Hw]] Hno]; [done|]. destruct Hno. exists w. split; [|done].
      apply lcn_of_Some_in with (1 := Hs) in Hw. done.
    + intros H. split; [by left|]. intros (w & _ & Hw & _). apply (taken_real _ _ _ _ _ Ht) in Hw as [_ Hw]. congruence.
  - rewrite Hf. do 2 f_equal. rewrite (nr_real_all 0 k 0 k); [lia|done|lia|lia| |done].
    eapply list.Forall_impl; [by eapply taken_runs|]. cbv beta. lia.
  - rewrite He by done. apply Ht.
Qed.

(** ** The allocator *)

Lemma search_error_nonzero at_end err : search_error data_size at_end err → err ≠ 0.
Proof. by intros [[-> _]|[? _]]. Qed.

(** The search, and what follows it. *)
Lemma cluster_alloc_cases geo start_vcn count start_lcn zone ext r v :
  request_ok nr_clusters mft_lcn data_size start_vcn count start_lcn v →
  ∃ err l a a',
    al_ok nr_clusters v start_vcn count l a ∧ zones_ok nr_clusters (al_zones a) ∧
    (err = 0 ∧ al_clusters a = 0 ∨
     err ≠ 0 ∧ search_error data_size (start_lcn = nr_clusters) err ∨
     err = ENOSPC ∧ 0 < al_clusters a ∧ (covers zone start_lcn (lv_zones v) → in_use 0 nr_clusters (al_vol a))) ∧
    terminated start_vcn (start_vcn + (count - al_clusters a)) l (al_vol a) a' ∧
    ntfs_cluster_alloc nr_clusters mft_lcn geo 0 data_size start_vcn count start_lcn zone ext r v =
      if err =? 0 then
        bs ← (if (al_rlcount a' =? 0)%nat then Ret []
              else inval_runs (u8 (cluster_size_shift geo - sector_size_shift geo)) (al_rl a'));
        Ret (0, mk_runlist (al_rl a') (al_rlpos a' + 1) (al_rlcount a'), bs, al_vol a')
      else v' ← rollback nr_clusters a'; Ret (err, r, [], v').
Proof.
  intros [H1 H2 H3 H4 H5 H6 H7 H8]. set (a0 := mk_alloc v [] 0 0 0 0 count).
  assert (al_ok nr_clusters v start_vcn count [] a0) as Hok.
  { unfold al_ok. change (al_clusters a0) with count. rewrite Z.sub_diag, Z.add_0_r. split; [|split; [apply (taken_nil _ v); lia|lia]].
    split; [|by left]. split; try done; [by exists []|constructor|by intros [] ?]. }
  destruct (first_search_spec zone start_lcn (lv_zones v) v H4 (proj2 H3) H7) as (k & Hs & Hcov & Hr).
  destruct (alloc_loop_spec nr_clusters mft_lcn data_size v start_vcn count zone (start_lcn = nr_clusters)
    (covers zone start_lcn (lv_zones v)) H4 H5 (alloc_fuel (lv_zones v)) _ k [] a0 Hok H2 H7 Hs Hcov)
    as ([err a] & Eloop & [l Ha] & Hz & Hend); [pose proof (shrinks_fuel (lv_zones v)); unfold al_zones in *; cbn; lia|].
  destruct (terminate_rl_spec v start_vcn count ext l a Ha) as (a' & Eterm & Hterm).
  exists err, l, a, a'. split; [done|]. split; [done|]. split; [|split; [done|]].
  - destruct Hend as [?|[Herr|?]]; [by left| |by right; right]. right. left. split; [|done]. by eapply search_error_nonzero.
  - unfold ntfs_cluster_alloc. rewrite (proj2 (Z.ltb_ge start_vcn 0)), (proj2 (Z.ltb_ge count 0)),
      (proj2 (Z.ltb_ge start_lcn (-1))), (proj2 (Z.eqb_neq count 0)) by lia.
    change (negb (0 =? 0)) with false. cbv zeta. fold a0. rewrite Eloop. cbn [mbind outcome_bind]. by rewrite Eterm.
Qed.

(** ** Counting *)

(** The number of clusters of the volume that are not in use. *)
Definition nr_unused (v : lcn_vol) : Z :=
  Z.of_nat (length (filter (λ i, bit_of (lv_bitmap v) i = false) (seqZ 0 nr_clusters))).

(** The clusters of a runlist in order. *)
Definition clusters_of (start k : Z) (l : list ntfs_rl_element) : list Z :=
  (λ w, default 0 (lcn_of l w)) <$> seqZ start k.

Lemma elem_of_unused v i :
  i ∈ filter (λ i, bit_of (lv_bitmap v) i = false) (seqZ 0 nr_clusters) ↔ 0 ≤ i < nr_clusters ∧ bit_of (lv_bitmap v) i = false.
Proof. rewrite list_elem_of_filter, elem_of_seqZ. rewrite Z.add_0_l. tauto. Qed.

Lemma length_clusters_of start k l : length (clusters_of start k l) = Z.to_nat k.
Proof. unfold clusters_of. by rewrite length_fmap, length_seqZ. Qed.

Lemma elem_of_clusters_of start k l i :
  seg start (start + k) l → i ∈ clusters_of start k l ↔ ∃ w, lcn_of l w = Some i.
Proof.
  intros Hs. unfold clusters_of. rewrite list_elem_of_fmap. setoid_rewrite elem_of_seqZ. split.
  - intros (w & -> & Hw). exists w. by destruct (lcn_of_in _ _ _ w Hs Hw) as [i ->].
  - intros [w Hw]. exists w. rewrite Hw. split; [done|]. by eapply lcn_of_Some_in.
Qed.

(** The clusters taken are different ones that were not in use. *)
Lemma taken_le_unused v0 start k l v :
  taken nr_clusters v0 k l v → seg start (start + k) l → 0 ≤ k → k ≤ nr_unused v0.
Proof.
  intros Ht Hs Hk. pose proof (length_clusters_of start k l) as Hlen. unfold nr_unused.
  assert (clusters_of start k l ⊆+ filter (λ i, bit_of (lv_bitmap v0) i = false) (seqZ 0 nr_clusters)) as Hsub.
  { apply NoDup_submseteq.
    - unfold clusters_of. apply NoDup_fmap_2_strong; [|apply NoDup_seqZ].
      intros w1 w2 H1%elem_of_seqZ H2%elem_of_seqZ. destruct (lcn_of_in _ _ _ w1 Hs H1) as [i1 E1].
      destruct (lcn_of_in _ _ _ w2 Hs H2) as [i2 E2]. rewrite E1, E2. cbn. intros ->. by eapply (taken_inj _ _ _ _ _ Ht).
    - intros i Hi. apply elem_of_clusters_of in Hi as [w Hw]; [|done]. apply elem_of_unused.
      by apply (taken_real _ _ _ _ _ Ht) in Hw. }
  apply submseteq_length in Hsub. lia.
Qed.

(** When all clusters are in use, the clusters taken are all that were not. *)
Lemma unused_le_taken v0 start k l v :
  taken nr_clusters v0 k l v → seg start (start + k) l → 0 ≤ k → in_use 0 nr_clusters v → nr_unused v0 ≤ k.
Proof.
  intros Ht Hs Hk Hu. pose proof (length_clusters_of start k l) as Hlen. unfold nr_unused.
  assert (filter (λ i, bit_of (lv_bitmap v0) i = false) (seqZ 0 nr_clusters) ⊆+ clusters_of start k l) as Hsub.
  { apply NoDup_submseteq; [apply list.NoDup_filter, NoDup_seqZ|]. intros i [Hi Hb]%elem_of_unused.
    apply elem_of_clusters_of; [done|]. specialize (Hu i Hi). apply (taken_bits _ _ _ _ _ Ht) in Hu as [Hu|]; [|done..|lia].
    congruence. }
  apply submseteq_length in Hsub. lia.
Qed.

(** ** Theorems *)

(** [count] clusters of the volume [v] were allocated: the runlist [r] describes them from
    [start_vcn] on, they are different, were not in use and are the only ones whose state
    changed, and their device blocks are those in [bs]; a cluster has [2 ^ sh] blocks. *)
Record allocated (sh start_vcn count : Z) (v : lcn_vol) (r : ntfs_runlist) (bs : list (Z * Z)) (v' : lcn_vol) : Prop := {
  got_buf : buf_ok r;
  got_runs : wf_rl start_vcn (start_vcn + count) (used r);
  got_unused w : start_vcn ≤ w < start_vcn + count →
    ∃ i, lcn_of (used r) w = Some i ∧ 0 ≤ i < nr_clusters ∧ bit_of (lv_bitmap v) i = false;
  got_distinct w1 w2 i : lcn_of (used r) w1 = Some i → lcn_of (used r) w2 = Some i → w1 = w2;
  got_bits i : 0 ≤ i → bit_of (lv_bitmap v') i = true ↔ bit_of (lv_bitmap v) i = true ∨ ∃ w, lcn_of (used r) w = Some i;
  got_free : nr_free_clusters v' = Z.max 0 (nr_free_clusters v - count);
  got_blocks x : invalidated bs x ↔ ∃ w i, lcn_of (used r) w = Some i ∧ Z.shiftl i sh ≤ x < Z.shiftl (i + 1) sh
}.

Lemma allocated_intro sh start_vcn count v l v' a :
  0 ≤ sh → 0 < count → taken nr_clusters v count l v' → seg start_vcn (start_vcn + count) l →
  terminated start_vcn (start_vcn + count) l v' a →
  runs (if (al_rlcount a =? 0)%nat then Ret [] else inval_runs sh (al_rl a))
    (λ bs, allocated sh start_vcn count v (mk_runlist (al_rl a) (al_rlpos a + 1) (al_rlcount a)) bs v').
Proof.
  intros Hsh Hc Ht Hs [_ [(-> & Estop & _)|(_ & H0 & t & junk & Er & Ep & Ec & Hwf)]]; [lia|].
  rewrite (proj2 (Nat.eqb_neq _ 0)) by lia. rewrite (mk_used_eq _ _ _ (l ++ [t]) junk Er) by len. rewrite Er.
  eapply runs_mono; [by eapply inval_runs_spec|]. cbv beta. intros bs Hbs.
  assert (∀ w, lcn_of (l ++ [t]) w = lcn_of l w) as Hl by (intros w; by eapply lcn_of_terminated).
  split; rewrite ?used_mk_used; [apply buf_ok_mk_used|done|..|apply Ht|].
  - intros w Hw. destruct (lcn_of_in _ _ _ w Hs Hw) as [i Hi]. exists i. rewrite Hl. split; [done|].
    by apply (taken_real _ _ _ _ _ Ht w).
  - intros w1 w2 i. rewrite !Hl. apply Ht.
  - intros i Hi. setoid_rewrite Hl. by apply Ht.
  - intros x. rewrite Hbs. setoid_rewrite Hl. split; intros (w & i & Hw & Hx); exists w, i; [by split; [|apply Hx]|].
    split; [done|]. split; [by apply (taken_real _ _ _ _ _ Ht) in Hw as [[]]|done].
Qed.

(** C1: allocating clusters.  On a consistent volume, whatever the page cache and the memory
    allocator do, [ntfs_cluster_alloc] terminates without a panic or an access outside of a page
    or the runlist, and keeps the positions of the zones inside of the volume.  If it returns 0, the
    runlist describes exactly [count] different clusters from [start_vcn] on that were not in use
    before, these are now marked as used and no other bit of the bitmap has changed, the number of
    free clusters is less by [count], and the device blocks of the clusters were invalidated.
    Otherwise the runlist of the caller is as it was, and there was no space, no memory or a page
    of the bitmap could not be mapped. *)
Theorem ntfs_cluster_alloc_spec geo start_vcn count start_lcn zone ext r v :
  request_ok nr_clusters mft_lcn data_size start_vcn count start_lcn v →
  runs (ntfs_cluster_alloc nr_clusters mft_lcn geo 0 data_size start_vcn count start_lcn zone ext r v)
    (λ '(err, r', bs, v'), zones_ok nr_clusters (lv_zones v') ∧
      (err = 0 → allocated (u8 (cluster_size_shift geo - sector_size_shift geo)) start_vcn count v r' bs v') ∧
      (err ≠ 0 → r' = r ∧ (err = ENOSPC ∨ search_error data_size (start_lcn = nr_clusters) err))).
Proof.
  intros Hreq. destruct (cluster_alloc_cases geo start_vcn count start_lcn zone ext r v Hreq)
    as (err & l & a & a' & ([Hb _] & Ht & Hcl) & Hz & Hend & Hterm & ->). destruct (Z.eqb_spec err 0) as [->|Hne].
  - destruct Hend as [[_ E0]|[[[] _]|[? _]]]; [|done..]. rewrite E0, Z.sub_0_r in *.
    eapply runs_bind; [eapply allocated_intro; [apply uwrap_range; lia|apply Hreq|exact Ht|apply Hb|exact Hterm]|].
    intros bs Hgot. apply runs_Ret. destruct Hterm as [-> _]. done.
  - eapply runs_bind; [eapply rollback_runs; [apply Hreq|apply Hreq|exact Ht|exact Hterm]|]. cbv beta.
    intros v' Hv'. apply runs_Ret. rewrite Hv'. split; [done|]. split; [done|]. intros _. split; [done|].
    destruct Hend as [[]|[[_ ?]|[? _]]]; auto. done.
Qed.

(** C2: the allocator finds free clusters wherever they are.  When memory is available and the pages
    of the bitmap can be mapped, an allocation from the data zones, or one from the mft zone without
    a start LCN or with one in the zone, succeeds if and only if the volume has at least [count]
    clusters that are not in use; otherwise the result is ENOSPC. *)
Theorem ntfs_cluster_alloc_complete geo start_vcn count start_lcn zone ext r v :
  request_ok nr_clusters mft_lcn data_size start_vcn count start_lcn v → start_lcn < nr_clusters →
  covers zone start_lcn (lv_zones v) →
  (∀ t ofs, 0 ≤ ofs < data_size → page_map_errno t ofs = 0) → (∀ n, IONewData n ≠ None) →
  runs (ntfs_cluster_alloc nr_clusters mft_lcn geo 0 data_size start_vcn count start_lcn zone ext r v)
    (λ '(err, _, _, _), err = if count <=? nr_unused v then 0 else ENOSPC).
Proof.
  intros Hreq Hlcn Hcov Hmap Hmem. destruct (cluster_alloc_cases geo start_vcn count start_lcn zone ext r v Hreq)
    as (err & l & a & a' & ([Hb _] & Ht & Hcl) & Hz & Hend & Hterm & ->).
  pose proof (part_seg _ _ _ _ Hb) as Hs. destruct Hend as [[-> E0]|[[Hne Herr]|(-> & Hpos & Hu)]].
  - rewrite E0, Z.sub_0_r in *. cbn [Z.eqb]. pose proof (taken_le_unused v start_vcn count l _ Ht Hs ltac:(lia)) as Hle.
    eapply runs_bind; [eapply allocated_intro; [apply uwrap_range; lia|apply Hreq|exact Ht|done|exact Hterm]|].
    intros bs _. apply runs_Ret. by rewrite (proj2 (Z.leb_le _ _)).
  - exfalso. destruct Herr as [[_ [n Hn]]|(_ & t & ofs & E & H0 & [Hofs|Hofs])]; [by destruct (Hmem n)| |lia].
    by rewrite Hmap in E.
  - pose proof (unused_le_taken v start_vcn _ l _ Ht Hs ltac:(lia) (Hu Hcov)) as Hle. cbn [Z.eqb].
    eapply runs_bind; [eapply rollback_runs; [apply Hreq|apply Hreq|exact Ht|exact Hterm]|].
    intros v' _. apply runs_Ret. by rewrite (proj2 (Z.leb_gt _ _)) by lia.
Qed.

(** C20: the rollback of a failed allocation, on a working page cache.  For [start_vcn] 0 the bitmap is
    as it was before, no errors are noted on the volume, and the number of free clusters is restored
    if it was exact.  But for any other [start_vcn] nothing is freed: after an allocation from the data
    zones that failed for lack of space, every cluster of the volume is marked as used. *)
Theorem ntfs_cluster_alloc_rollback geo start_vcn count start_lcn zone ext r v :
  request_ok nr_clusters mft_lcn data_size start_vcn count start_lcn v → (∀ t ofs, page_map_errno t ofs = 0) →
  runs (ntfs_cluster_alloc nr_clusters mft_lcn geo 0 data_size start_vcn count start_lcn zone ext r v)
    (λ '(err, _, _, v'), err ≠ 0 →
      (start_vcn = 0 → (∀ i, 0 ≤ i → bit_of (lv_bitmap v') i = bit_of (lv_bitmap v) i) ∧ lv_errors v' = lv_errors v ∧
         (nr_free_clusters v = nr_unused v → nr_free_clusters v' = nr_free_clusters v)) ∧
      (0 < start_vcn → err = ENOSPC → covers zone start_lcn (lv_zones v) → in_use 0 nr_clusters v')).
Proof.
  intros Hreq Hmap. destruct (cluster_alloc_cases geo start_vcn count start_lcn zone ext r v Hreq)
    as (err & l & a & a' & ([Hb _] & Ht & Hcl) & Hz & Hend & Hterm & ->).
  pose proof (part_seg _ _ _ _ Hb) as Hs. destruct (Z.eqb_spec err 0) as [->|Hne].
  { destruct Hend as [[_ E0]|[[[] _]|[? _]]]; [|done..]. rewrite E0, Z.sub_0_r in *.
    eapply runs_bind; [eapply allocated_intro; [apply uwrap_range; lia|apply Hreq|exact Ht|done|exact Hterm]|].
    intros bs _. by apply runs_Ret. }
  pose proof (req_vcn _ _ _ _ _ _ _ Hreq) as Hst. pose proof (req_free _ _ _ _ _ _ _ Hreq) as Hfree.
  pose proof (taken_free _ _ _ _ _ Ht) as Hf. destruct (decide (start_vcn = 0)) as [->|Hne0].
  - pose proof (taken_le_unused v 0 _ l _ Ht Hs ltac:(lia)) as Hle.
    eapply runs_bind; [eapply rollback_restores; [done|apply Hreq| |exact Ht|exact Hterm|lia]; lia|]. cbv beta.
    intros v' (Hbits & Hfree' & Herrs). apply runs_Ret. intros _. split; [|lia]. intros _. split_and!; [done..|]. lia.
  - rewrite (rollback_skips start_vcn _ l (al_vol a) a') by (done || lia). apply runs_Ret. intros _. split; [done|].
    intros _ -> Hcov. destruct Hend as [[]|[[_ Herr]|(_ & _ & Hu)]]; [done| |by apply Hu]. exfalso.
    destruct Herr as [[]|(_ & t & ofs & E & _)]; [done|]. by rewrite Hmap in E.
Qed.
End alloc.

(** ** Running the allocator *)

(** A volume of 64 clusters, of which 0 to 15, 20 and 32 to 61 are in use, with the mft zone from 4
    to 24. *)
Definition sample_vol : lcn_vol :=
  mk_lcn_vol (mk_zones 24 4 24 4 24 0) 17 false
    (λ i, if i =? 0 then 0xff else if i =? 1 then 0xff else if i =? 2 then 0x10 else if i =? 3 then 0
          else if i <? 7 then 0xff else if i =? 7 then 0x3f else 0) 0.

Definition sample_alloc (start_vcn count start_lcn : Z) (zone : NTFS_CLUSTER_ALLOCATION_ZONES) :=
  @ntfs_cluster_alloc page_cache_4k zero_allocator 64 4 (volume_of 9 12) 0 8 start_vcn count start_lcn zone true
    ntfs_rl_init sample_vol.

Lemma sample_request start_vcn count start_lcn :
  0 ≤ start_vcn → 0 < count → -1 ≤ start_lcn ≤ 64 → request_ok 64 4 8 start_vcn count start_lcn sample_vol.
Proof. intros. split; cbn; try lia. split; cbn; lia. Qed.

Lemma ntfs_cluster_alloc_spec_witness :
  request_ok 64 4 8 5 14 (-1) sample_vol ∧
  runs (sample_alloc 5 14 (-1) DATA_ZONE)
    (λ '(err, r', bs, v'), zones_ok 64 (lv_zones v') ∧
      (err = 0 → allocated 64 (u8 (12 - 9)) 5 14 sample_vol r' bs v') ∧
      (err ≠ 0 → r' = ntfs_rl_init ∧ (err = ENOSPC ∨ @search_error page_cache_4k zero_allocator 8 (-1 = 64) err))).
Proof.
  split; [apply sample_request; lia|].
  apply (@ntfs_cluster_alloc_spec page_cache_4k zero_allocator 64 4 8 (volume_of 9 12) 5 14 (-1) DATA_ZONE true).
  apply sample_request; lia.
Defined.

Lemma ntfs_cluster_alloc_complete_witness :
  runs (sample_alloc 5 14 30 DATA_ZONE) (λ '(err, _, _, _), err = if 14 <=? nr_unused 64 sample_vol then 0 else ENOSPC).
Proof.
  apply (@ntfs_cluster_alloc_complete page_cache_4k zero_allocator 64 4 8 (volume_of 9 12) 5 14 30 DATA_ZONE true);
    [apply sample_request; lia|lia|by left|done|done].
Defined.

Lemma ntfs_cluster_alloc_rollback_witness :
  runs (sample_alloc 5 18 (-1) DATA_ZONE)
    (λ '(err, _, _, v'), err ≠ 0 →
      (5 = 0 → (∀ i, 0 ≤ i → bit_of (lv_bitmap v') i = bit_of (lv_bitmap sample_vol) i) ∧
         lv_errors v' = lv_errors sample_vol ∧
         (nr_free_clusters sample_vol = nr_unused 64 sample_vol → nr_free_clusters v' = nr_free_clusters sample_vol)) ∧
      (0 < 5 → err = ENOSPC → covers DATA_ZONE (-1) (lv_zones sample_vol) → in_use 0 64 v')).
Proof.
  apply (@ntfs_cluster_alloc_rollback page_cache_4k zero_allocator 64 4 8 (volume_of 9 12) 5 18 (-1) DATA_ZONE true);
    [apply sample_request; lia|done].
Defined.

(** What a run of the allocator shows: the errno, the runlist and the free clusters left. *)
Definition outline (m : outcome (Z * ntfs_runlist * list (Z * Z) * lcn_vol)) : option (Z * list ntfs_rl_element * Z * list Z) :=
  match m with
  | Ret (err, r, _, v) => Some (err, used r, nr_free_clusters v, filter (λ i, bit_of (lv_bitmap v) i = false) (seqZ 0 64))
  | _ => None
  end.

(** Data goes behind the mft zone first, and into the mft zone when nothing else is left. *)
Example sample_alloc_data :
  outline (sample_alloc 5 14 (-1) DATA_ZONE) =
    Some (0, [mk_rle 5 24 8; mk_rle 13 62 2; mk_rle 15 16 4; mk_rle 19 LCN_ENOENT 0], 3, [21; 22; 23]).
Proof. vm_compute. reflexivity. Qed.

(** One cluster too many: from VCN 0 on everything is undone, but when a file is extended all free
    clusters of the volume are lost. *)
Example sample_alloc_undone :
  outline (sample_alloc 0 18 (-1) DATA_ZONE) =
    Some (ENOSPC, [], 17, filter (λ i, bit_of (lv_bitmap sample_vol) i = false) (seqZ 0 64)).
Proof. vm_compute. reflexivity. Qed.

Example sample_alloc_leak : outline (sample_alloc 5 18 (-1) DATA_ZONE) = Some (ENOSPC, [], 0, []).
Proof. vm_compute. reflexivity. Qed.

(** An allocation from the mft zone with a start LCN outside of it begins at the mft, and the part of
    the zone in front of the mft is not searched: here the zone begins at 0 and the mft at 4, and the
    only free cluster is 2. *)
Example sample_alloc_mft_skips :
  let v := mk_lcn_vol (mk_zones 24 0 24 4 24 0) 1 false (λ i, if i =? 0 then 0xfb else 0xff) 0 in
  outline (@ntfs_cluster_alloc page_cache_4k zero_allocator 64 4 (volume_of 9 12) 0 8 0 1 40 MFT_ZONE true ntfs_rl_init v) =
    Some (ENOSPC, [], 1, [2]) ∧
  outline (@ntfs_cluster_alloc page_cache_4k zero_allocator 64 4 (volume_of 9 12) 0 8 0 1 (-1) MFT_ZONE true ntfs_rl_init v) =
    Some (0, [mk_rle 0 2 1; mk_rle 1 LCN_ENOENT 0], 0, []).
Proof. split; vm_compute; reflexivity. Qed.

(** The page cache of a bitmap of one page, in which [ntfs_page_map] refuses an offset at the end. *)
Definition page_cache_one : PageCache :=
  {| page_shift := 12; page_shift_range := ltac:(done);
     page_map_errno _ ofs := if 4096 <=? ofs then EINVAL else 0; page_grab_errno _ _ := 0 |}.

(** A request to continue a file that ends with the last cluster of the volume: the start LCN is the
    number of clusters, and when the bitmap fills its pages, the page behind it is asked for.  The
    allocation fails although the volume is empty. *)
Example sample_alloc_at_end :
  let v := mk_lcn_vol (mk_zones 24 4 24 4 24 0) 32768 false (λ _, 0) 0 in
  outline (@ntfs_cluster_alloc page_cache_one zero_allocator 32768 4 (volume_of 9 12) 0 4096 0 1 32768 DATA_ZONE true
    ntfs_rl_init v) = Some (EINVAL, [], 32768, seqZ 0 64).
Proof. vm_compute. reflexivity. Qed.
