(* ===== verification/MftAlloc.v ===== *)
(** * Free mft records

    [kext/ntfs_mft.c]: [ntfs_mft_bitmap_find_and_alloc_free_rec_nolock], the search for a free mft
    record in the mft bitmap. *)

From S2P Require Import Prelude PageCache Bitmap Boot.

(** The sizes of the mft and of its bitmap, and the default position of the allocator. *)
Record mft_zone := mk_mft_zone {
  mft_allocated_size : Z;
  mft_record_size_shift : Z;
  mftbmp_initialized_size : Z;
  mft_data_pos : Z
}.

Section search.
Context `{!PageCache}.

(** The [for] loop over the bytes of the page at [page]: the position of the byte in the page, the
    bit in it, and the number of the mft record. *)
Fixpoint free_rec_in_page (fuel : nat) (page page_ofs data_pos pass_end size bit : Z) (bm : bitmap)
    : outcome (option (Z * Z * Z)) :=
  match fuel with
  | O => Oob
  | S fuel =>
      if (bit <? size) && (data_pos + bit <? pass_end) then
        let pos := page_ofs + Z.shiftr bit 3 in
        byte ← page_get page pos bm;
        let next := free_rec_in_page fuel page page_ofs data_pos pass_end size (u32 (Z.land bit (Z.lnot 7) + 8)) bm in
        if byte =? 0xff then next else
        let b := u8 (ffs (u32 (Z.lnot byte)) - 1) in
        if (b <? 8) && (Z.land bit 7 <=? b) then Ret (Some (pos, b, data_pos + Z.land bit (Z.lnot 7) + b)) else next
      else Ret None
  end.

(** [do ... while (data_pos < pass_end)]: an errno or the number of the record, the bitmap and the
    number of requests. *)
Fixpoint find_free_rec (fuel : nat) (pass pass_start pass_end data_pos : Z) (bm : bitmap) (t : nat)
    : outcome ((Z + Z) * bitmap * nat) :=
  match fuel with
  | O => Oob
  | S fuel =>
      let again pass pass_start pass_end data_pos bm t :=
        if data_pos <? pass_end then find_free_rec fuel pass pass_start pass_end data_pos bm t
        else Ret (inl ENOSPC, bm, t) in
      let ofs := Z.shiftr data_pos 3 in
      let page_ofs := Z.land (u32 ofs) PAGE_MASK in
      let size := PAGE_SIZE - page_ofs in
      let ll := Z.shiftr (pass_end + 7) 3 - ofs in
      let size := if ll <? size then u32 ll else size in
      let size := u32 (Z.shiftl size 3) in
      if negb (size =? 0) then
        let page := Z.land ofs (Z.lnot PAGE_MASK) in
        let err := page_map_errno t page in
        if negb (err =? 0) then Ret (inl err, bm, S t) else
        let bit := Z.land (u32 data_pos) 7 in
        let data_pos := Z.land data_pos (Z.lnot 7) in
        r ← free_rec_in_page (S (Z.to_nat size)) page page_ofs data_pos pass_end size bit bm;
        match r with
        | Some (pos, b, ll) =>
            if Z.shiftl 1 32 <? ll then Ret (inl ENOSPC, bm, S t) else
            byte ← page_get page pos bm;
            bm ← page_put page pos (Z.lor byte (Z.shiftl 1 b)) bm;
            Ret (inr ll, bm, S t)
        | None => again pass pass_start pass_end (data_pos + size) bm (S t)
        end
      else if 2 <=? pass then Ret (inl ENOSPC, bm, t)
      else again (pass + 1) 24 pass_start 24 bm t
  end.

(** [base_mft_no] is the number of the base mft record when an extent mft record is allocated.
    Every round but the last one takes the rest of a page of the bitmap. *)
Definition ntfs_mft_bitmap_find_and_alloc_free_rec_nolock (z : mft_zone) (base_mft_no : option Z) (bm : bitmap) (t : nat)
    : outcome ((Z + Z) * bitmap * nat) :=
  let pass_end := Z.shiftr (mft_allocated_size z) (mft_record_size_shift z) in
  let ll := s64 (Z.shiftl (mftbmp_initialized_size z) 3) in
  let pass_end := if ll <? pass_end then ll else pass_end in
  let data_pos := match base_mft_no with None => mft_data_pos z | Some mft_no => mft_no + 1 end in
  let data_pos := if data_pos <? 24 then 24 else data_pos in
  let fuel := S (Z.to_nat (pass_end / (8 * PAGE_SIZE))) in
  if pass_end <=? data_pos then
    if pass_end <=? 24 then Ret (inl ENOSPC, bm, t) else find_free_rec fuel 2 24 pass_end 24 bm t
  else find_free_rec fuel 1 data_pos pass_end data_pos bm t.
End search.

(** ** The record that is found *)

(** The search looks at the first free record of each byte of the bitmap only. *)
Definition first_of_byte (bm : bitmap) (n : Z) : Prop :=
  bit_of bm n = false ∧ ∀ j, j / 8 = n / 8 → j < n → bit_of bm j = true.

(** The first such record from [a] on below [e]. *)
Definition first_rec (bm : bitmap) (a e n : Z) : Prop :=
  a ≤ n < e ∧ first_of_byte bm n ∧ ∀ i, a ≤ i < n → ¬ first_of_byte bm i.
Definition no_rec (bm : bitmap) (a e : Z) : Prop := ∀ i, a ≤ i < e → ¬ first_of_byte bm i.

Lemma no_rec_app bm a b e : no_rec bm a b → no_rec bm b e → no_rec bm a e.
Proof. intros H1 H2 i Hi. destruct (Z.ltb_spec i b); [apply H1|apply H2]; lia. Qed.
Lemma first_rec_app bm a b e n : a ≤ b → no_rec bm a b → first_rec bm b e n → first_rec bm a e n.
Proof. intros Hab H1 (H2 & H3 & H4). split; [lia|]. split; [done|]. intros i Hi. destruct (Z.ltb_spec i b); [apply H1|apply H4]; lia. Qed.

(** What one byte holds. *)
Lemma no_rec_full bm B a : bm B = 0xff → 8 * B ≤ a → no_rec bm a (8 * (B + 1)).
Proof. intros H Ha i Hi [Hb _]. rewrite full_byte in Hb; [done|]. replace (i / 8) with B by zdiv. done. Qed.

Lemma byte_first bm B : byte_contents bm → bm B ≠ 0xff → let b := u8 (ffs (u32 (Z.lnot (bm B))) - 1) in
  0 ≤ b < 8 ∧ first_of_byte bm (8 * B + b) ∧ ∀ i, i / 8 = B → first_of_byte bm i → i = 8 * B + b.
Proof.
  intros Hb Hne. destruct (first_zero _ (Hb B) Hne) as (H1 & H2 & H3). cbv zeta. set (b := u8 _) in *.
  assert (∀ j, 0 ≤ j < 8 → bit_of bm (8 * B + j) = Z.testbit (bm B) j) as Hj.
  { intros j Hj. unfold bit_of. replace ((8 * B + j) / 8) with B by zdiv. by replace ((8 * B + j) mod 8) with j by zdiv. }
  assert (first_of_byte bm (8 * B + b)) as Hf.
  { split; [by rewrite Hj|]. intros j Hd Hlt. replace ((8 * B + b) / 8) with B in Hd by zdiv. replace j with (8 * B + (j - 8 * B)) by lia. rewrite Hj by zdiv. apply H3. zdiv. }
  split; [done|]. split; [done|]. intros i Hi [F1 F2]. destruct Hf as [G1 G2]. assert ((8 * B + b) / 8 = B) as Hd by zdiv.
  destruct (Z.lt_trichotomy i (8 * B + b)) as [Hlt|[->|Hgt]]; [rewrite G2 in F1 by lia; done|done|rewrite F2 in G1 by lia; done].
Qed.

Section spec.
Context `{!PageCache}.

Definition rec_end (pass_end : Z) : Z := 8 * ((pass_end + 7) / 8).

(** ** The loops *)

Lemma free_rec_in_page_spec fuel : ∀ page page_ofs pass_end size bit bm D, byte_contents bm → page + page_ofs = D → 0 ≤ page_ofs →
  0 ≤ bit → bit mod 8 = 0 ∨ 8 * D + bit < pass_end → size mod 8 = 0 → 0 ≤ size ≤ 8 * (PAGE_SIZE - page_ofs) →
  8 * D + size ≤ rec_end pass_end → (Z.to_nat (size - bit) < fuel)%nat →
  ∃ r, free_rec_in_page fuel page page_ofs (8 * D) pass_end size bit bm = Ret r ∧
    match r with
    | None => no_rec bm (8 * D + bit) (8 * D + size)
    | Some (pos, b, ll) => first_rec bm (8 * D + bit) (8 * D + size) ll ∧ 0 ≤ pos < PAGE_SIZE ∧ 0 ≤ b < 8 ∧ ll = 8 * (page + pos) + b
    end.
Proof.
  induction fuel as [|fuel IH]; intros page page_ofs pass_end size bit bm D Hbm HD Hp0 Hbit Hal Hs8 Hs Hend Hfuel; [lia|]. cbn [free_rec_in_page].
  pose proof PAGE_SIZE_range as HP. change (Z.lnot 7) with (Z.lnot (2 ^ 3 - 1)). rewrite round_pow2 by lia. change (2 ^ 3) with 8.
  change 7 with (Z.ones 3). rewrite Z.land_ones, Z.shiftr_div_pow2 by lia. change (2 ^ 3) with 8. unfold rec_end in *.
  destruct (Z.ltb_spec bit size) as [Hlt|Hge]; cbn [andb]; [|eexists; split; [done|]; intros i Hi; lia].
  destruct (Z.ltb_spec (8 * D + bit) pass_end) as [Hpe|Hpe]; [|exfalso; zdiv].
  set (q := bit / 8) in *. assert (8 * q ≤ bit < 8 * q + 8 ∧ 0 ≤ q ∧ 8 * q + 8 ≤ size) as (Hq1 & Hq2 & Hq3) by (unfold q; zdiv).
  unfold page_get. rewrite (proj2 (Z.leb_le _ _)), (proj2 (Z.ltb_lt _ _)) by lia. cbn [andb mbind outcome_bind].
  replace (page + (page_ofs + q)) with (D + q) by lia. rewrite uwrap_id by lia.
  destruct (IH page page_ofs pass_end size (8 * q + 8) bm D) as (r & Er & Hr); [done|lia..|left; zdiv|done|lia|done|lia|].
  assert (no_rec bm (8 * D + bit) (8 * D + (8 * q + 8)) → ∃ r, free_rec_in_page fuel page page_ofs (8 * D) pass_end size (8 * q + 8) bm = Ret r ∧
    match r with
    | None => no_rec bm (8 * D + bit) (8 * D + size)
    | Some (pos, b, ll) => first_rec bm (8 * D + bit) (8 * D + size) ll ∧ 0 ≤ pos < PAGE_SIZE ∧ 0 ≤ b < 8 ∧ ll = 8 * (page + pos) + b
    end) as Hnext.
  { intros Hno. exists r. split; [done|]. destruct r as [[[pos b] ll]|]; [|by eapply no_rec_app]. destruct Hr as (H1 & H2). split; [|done]. eapply first_rec_app; [|exact Hno|done]. lia. }
  destruct (Z.eqb_spec (bm (D + q)) 0xff) as [Eff|Eff].
  { apply Hnext. replace (8 * D + (8 * q + 8)) with (8 * (D + q + 1)) by lia. apply no_rec_full; [done|lia]. }
  destruct (byte_first bm (D + q) Hbm Eff) as (Hb & Hf & Hu). cbv zeta in Hb, Hf, Hu. set (b := u8 _) in *. rewrite (proj2 (Z.ltb_lt b 8)) by lia. cbn [andb].
  assert (∀ i, 8 * (D + q) ≤ i < 8 * (D + q) + 8 → first_of_byte bm i → i = 8 * (D + q) + b) as Hu' by (intros i Hi; apply Hu; zdiv).
  destruct (Z.leb_spec (bit mod 8) b) as [Hle|Hgt].
  - eexists. split; [done|]. assert (bit = 8 * q + bit mod 8) as Em by (unfold q; zdiv). replace (8 * D + 8 * q + b) with (8 * (D + q) + b) by lia.
    split; [|split; [lia|split; [lia|lia]]]. split; [lia|]. split; [done|]. intros i Hi Hfi. apply Hu' in Hfi; lia.
  - apply Hnext. intros i Hi Hfi. apply Hu' in Hfi; [|lia]. assert (bit = 8 * q + bit mod 8) as Em by (unfold q; zdiv). lia.
Qed.

(** The result of the search from [a] to [e]. *)
Definition rec_post (bm : bitmap) (a e : Z) (r : Z + Z) (bm' : bitmap) : Prop :=
  match r with
  | inr n => first_rec bm a e n ∧ n ≤ 2 ^ 32 ∧ set_to true n 1 bm bm' ∧ byte_contents bm'
  | inl err => bm' = bm ∧ (map_failed err ∨ err = ENOSPC ∧ ∀ n, first_rec bm a e n → 2 ^ 32 < n)
  end.

Lemma first_rec_inj bm a e n m : first_rec bm a e n → first_rec bm a e m → n = m.
Proof. intros (H1 & H2 & H3) (G1 & G2 & G3). destruct (Z.lt_trichotomy n m) as [Hl|[?|Hg]]; [by destruct (G3 n ltac:(lia))|done|by destruct (H3 m ltac:(lia))]. Qed.

Lemma rec_post_app bm a b e r bm' : a ≤ b → no_rec bm a b → rec_post bm b e r bm' → rec_post bm a e r bm'.
Proof.
  intros Hab Hno. destruct r as [err|n]; cbn.
  - intros [-> [Hx|[-> Hx]]]; (split; [done|]); [by left|right]. split; [done|]. intros n (H1 & H2 & H3). apply Hx. destruct (Z.ltb_spec n b); [by destruct (Hno n ltac:(lia))|].
    split; [lia|]. split; [done|]. intros i Hi. apply H3. lia.
  - intros (H1 & H2 & H3). split; [by eapply first_rec_app|done].
Qed.

(** The number of bits of a round: up to the end of the page or of the pass. *)
Definition chunk (D E : Z) : Z := Z.min (E - D) (PAGE_SIZE - D mod PAGE_SIZE).
Lemma chunk_size data_pos pass_end : 0 ≤ data_pos < pass_end →
  let ofs := Z.shiftr data_pos 3 in let page_ofs := Z.land (u32 ofs) PAGE_MASK in let ll := Z.shiftr (pass_end + 7) 3 - ofs in
  let D := data_pos / 8 in let E := (pass_end + 7) / 8 in
  ofs = D ∧ page_ofs = D mod PAGE_SIZE ∧ u32 (Z.shiftl (if ll <? PAGE_SIZE - page_ofs then u32 ll else PAGE_SIZE - page_ofs) 3) = chunk D E * 8 ∧
  0 ≤ D < E ∧ 0 < chunk D E ≤ PAGE_SIZE ∧ Z.land (u32 data_pos) 7 = data_pos mod 8 ∧ Z.land data_pos (Z.lnot 7) = 8 * D.
Proof.
  intros Hpos ofs page_ofs ll D E. pose proof PAGE_SIZE_range as HP.
  assert (ofs = D) as Eo by (unfold ofs; by rewrite Z.shiftr_div_pow2). assert (page_ofs = D mod PAGE_SIZE) as Ep by (unfold page_ofs; by rewrite page_pos_u32, Eo).
  assert (ll = E - D) as El by (unfold ll; by rewrite Eo, Z.shiftr_div_pow2 by lia). assert (0 ≤ D < E) as HD by (unfold D, E; zdiv).
  assert (0 ≤ D mod PAGE_SIZE < PAGE_SIZE) as Hm by (apply Z.mod_pos_bound; lia). rewrite Ep, El, Z.shiftl_mul_pow2 by lia. change (2 ^ 3) with 8.
  assert ((if E - D <? PAGE_SIZE - D mod PAGE_SIZE then u32 (E - D) else PAGE_SIZE - D mod PAGE_SIZE) = chunk D E) as ->.
  { unfold chunk. ztests; rewrite ?uwrap_id by lia; lia. }
  assert (0 < chunk D E ≤ PAGE_SIZE) by (unfold chunk; lia). rewrite uwrap_id by lia. split_and!; try done; try lia.
  - change 7 with (Z.ones 3). rewrite Z.land_ones by lia. unfold uwrap. change (2 ^ 32) with (8 * 2 ^ 29). change (2 ^ 3) with 8.
    rewrite Z.rem_mul_r, Z.mul_comm, Z.mod_add, Z.mod_mod by lia. done.
  - change (Z.lnot 7) with (Z.lnot (2 ^ 3 - 1)). by rewrite round_pow2 by lia.
Qed.

Lemma find_free_rec_spec fuel : ∀ pass pass_start pass_end data_pos bm t, byte_contents bm → 0 ≤ data_pos < pass_end →
  (Z.to_nat (pass_end / (8 * PAGE_SIZE) - data_pos / (8 * PAGE_SIZE)) < fuel)%nat →
  ∃ r bm' t', find_free_rec fuel pass pass_start pass_end data_pos bm t = Ret (r, bm', t') ∧ rec_post bm data_pos (rec_end pass_end) r bm'.
Proof.
  induction fuel as [|fuel IH]; intros pass pass_start pass_end data_pos bm t Hbm Hpos Hfuel; [lia|]. cbn [find_free_rec].
  pose proof PAGE_SIZE_range as HP. destruct (chunk_size data_pos pass_end Hpos) as (-> & -> & -> & HD & Hs & -> & ->). rewrite page_round. set (P := PAGE_SIZE) in *.
  set (D := data_pos / 8) in *. set (E := (pass_end + 7) / 8) in *. set (s := chunk D E) in *. rewrite (proj2 (Z.eqb_neq (s * 8) 0)) by lia. cbn [negb].
  assert (s = Z.min (E - D) (P - D mod P)) as Es by done. assert (0 ≤ D mod P < P) as Hm by (apply Z.mod_pos_bound; lia).
  destruct (Z.eqb_spec (page_map_errno t (P * (D / P))) 0) as [E0|E0]; cbn [negb].
  2: { eexists _, _, _. split; [done|]. split; [done|]. left. split; [done|]. by eexists _, _. }
  assert (data_pos = 8 * D + data_pos mod 8) as Edp by (apply Z.div_mod; lia). pose proof (Z.mod_pos_bound data_pos 8 ltac:(lia)) as Hm8.
  destruct (free_rec_in_page_spec (S (Z.to_nat (s * 8))) (P * (D / P)) (D mod P) pass_end (s * 8) (data_pos mod 8) bm D) as (r & -> & Hr); [done|symmetry; apply Z.div_mod; lia|lia|lia|right; lia|by apply Z.mod_mul|fold P; lia|unfold rec_end; fold E; lia|lia|].
  rewrite <- Edp in Hr. cbn [mbind outcome_bind]. assert (8 * D + s * 8 ≤ rec_end pass_end) as Hle by (unfold rec_end; fold E; lia).
  destruct r as [[[pos b] ll]|].
  - destruct Hr as (Hf & Hpos' & Hb & ->). assert (first_rec bm data_pos (rec_end pass_end) (8 * (P * (D / P) + pos) + b)) as Hf' by (destruct Hf as (F1 & F2 & F3); split; [lia|done]).
    change (Z.shiftl 1 32) with (2 ^ 32). destruct (Z.ltb_spec (2 ^ 32) (8 * (P * (D / P) + pos) + b)) as [Hbig|Hsmall].
    + eexists _, _, _. split; [done|]. split; [done|]. right. split; [done|]. intros n Hn. by rewrite (first_rec_inj _ _ _ _ _ Hn Hf').
    + unfold page_get, page_put. fold P. rewrite (proj2 (Z.leb_le 0 pos)), (proj2 (Z.ltb_lt pos P)) by lia. cbn [andb mbind outcome_bind].
      eexists _, _, _. split; [done|]. split; [done|]. split; [done|]. assert (0 ≤ D / P) by (apply Z.div_pos; lia). split; [apply set_bit_byte; nia|].
      intros i. cbv beta. destruct (i =? _); [apply set_range; [apply Hbm|lia]|apply Hbm].
  - destruct (Z.ltb_spec (8 * D + s * 8) pass_end) as [Hlt|Hge].
    + assert (s = P - D mod P) as Es' by (assert (pass_end ≤ 8 * E) by (unfold E; clear; zdiv); lia).
      pose proof (Z.div_mod D P ltac:(lia)) as Hdm. assert (data_pos / (8 * P) = D / P) as Ed by (unfold D; by rewrite Z.div_div by lia).
      assert (8 * D + s * 8 = (8 * P) * (D / P + 1)) as Enext by (rewrite Es'; clear -Hdm; nia). assert (D / P + 1 ≤ pass_end / (8 * P)) as Hpg by (apply Z.div_le_lower_bound; [lia|rewrite <- Enext; lia]).
      destruct (IH pass pass_start pass_end (8 * D + s * 8) bm (S t)) as (r & bm' & t' & -> & Hr'); [done|lia| |].
      { rewrite Enext. rewrite (Z.mul_comm (8 * P)), Z.div_mul by lia. rewrite Ed in Hfuel. lia. }
      eexists _, _, _. split; [done|]. eapply rec_post_app; [|exact Hr|exact Hr']. lia.
    + eexists _, _, _. split; [done|]. split; [done|]. right. split; [done|]. intros n (H1 & H2 & _). exfalso. apply (Hr n); [|done]. unfold rec_end in H1. fold E in H1. assert (8 * E < pass_end + 8) by (unfold E; clear; zdiv). lia.
Qed.

(** With a position in front of the end, the search in the first pass is the one in the second pass,
    which no pass follows: the part of the bitmap in front of the position is never searched. *)
Lemma find_free_rec_one_pass fuel : ∀ pass pass' pass_start pass_start' pass_end data_pos bm t, 0 ≤ data_pos < pass_end →
  find_free_rec fuel pass pass_start pass_end data_pos bm t = find_free_rec fuel pass' pass_start' pass_end data_pos bm t.
Proof.
  induction fuel as [|fuel IH]; intros pass pass' pass_start pass_start' pass_end data_pos bm t Hpos; [done|]. cbn [find_free_rec].
  destruct (chunk_size data_pos pass_end Hpos) as (-> & -> & -> & HD & Hs & -> & ->). rewrite (proj2 (Z.eqb_neq (_ * 8) 0)) by lia. cbn [negb].
  destruct (negb _); [done|]. destruct (free_rec_in_page _ _ _ _ _ _ _ _) as [[[[pos b] ll]|]| |]; cbn [mbind outcome_bind]; try done.
  destruct (Z.ltb_spec (8 * (data_pos / 8) + chunk (data_pos / 8) ((pass_end + 7) / 8) * 8) pass_end) as [Hlt|]; [|done]. apply IH. lia.
Qed.

(** ** The function *)

(** The sizes are those of attributes. *)
Definition mft_zone_ok (z : mft_zone) : Prop :=
  0 ≤ mft_record_size_shift z ∧ 0 ≤ mft_allocated_size z < 2 ^ 63 ∧ 0 ≤ mftbmp_initialized_size z < 2 ^ 60.

(** The records that the mft and its bitmap have, and where the search starts. *)
Definition mft_records (z : mft_zone) : Z := Z.min (mft_allocated_size z / 2 ^ mft_record_size_shift z) (8 * mftbmp_initialized_size z).
Definition search_start (z : mft_zone) (base_mft_no : option Z) : Z :=
  let pos := Z.max 24 (from_option (λ mft_no, mft_no + 1) (mft_data_pos z) base_mft_no) in
  if pos <? mft_records z then pos else 24.

(** C40: the search for a free mft record terminates.  It finds the first record from the start of
    the search on that is the first free one of its byte in the bitmap, up to the end of the last
    byte of the bitmap that has records, and changes exactly its bit.  It fails with an error of the page cache, or
    with ENOSPC exactly when there is no such record with a number of at most 2^32, without a change of
    the bitmap; the records in front of the start are never searched. *)
Theorem ntfs_mft_bitmap_find_and_alloc_free_rec_nolock_spec z base_mft_no bm t : mft_zone_ok z → byte_contents bm →
  let a := search_start z base_mft_no in let e := rec_end (mft_records z) in
  ∃ r bm' t', ntfs_mft_bitmap_find_and_alloc_free_rec_nolock z base_mft_no bm t = Ret (r, bm', t') ∧
    match r with
    | inr n => first_rec bm a e n ∧ n ≤ 2 ^ 32 ∧ set_to true n 1 bm bm' ∧ byte_contents bm'
    | inl err => bm' = bm ∧ (map_failed err ∨ err = ENOSPC ∧ ∀ n, first_rec bm a e n → 2 ^ 32 < n)
    end.
Proof.
  intros (Hs & Ha & Hi) Hbm a e. unfold ntfs_mft_bitmap_find_and_alloc_free_rec_nolock. rewrite Z.shiftr_div_pow2, Z.shiftl_mul_pow2 by lia. change (2 ^ 3) with 8.
  rewrite swrap_id by lia. assert ((if mftbmp_initialized_size z * 8 <? mft_allocated_size z / 2 ^ mft_record_size_shift z then mftbmp_initialized_size z * 8
    else mft_allocated_size z / 2 ^ mft_record_size_shift z) = mft_records z) as -> by (unfold mft_records; ztests; lia).
  set (pos := if _ <? 24 then 24 else _). assert (pos = Z.max 24 (from_option (λ mft_no, mft_no + 1) (mft_data_pos z) base_mft_no)) as Epos.
  { unfold pos. destruct base_mft_no; cbn [from_option]; ztests; lia. }
  pose proof PAGE_SIZE_range as HP. assert (∀ p, 0 ≤ p → (Z.to_nat (mft_records z / (8 * PAGE_SIZE) - p / (8 * PAGE_SIZE)) < S (Z.to_nat (mft_records z / (8 * PAGE_SIZE))))%nat) as Hf.
  { intros p Hp. assert (0 ≤ p / (8 * PAGE_SIZE)) by (apply Z.div_pos; lia). lia. }
  unfold a, search_start. rewrite <- Epos. destruct (Z.leb_spec (mft_records z) pos) as [Hge|Hlt].
  - rewrite (proj2 (Z.ltb_ge _ _)) by lia. destruct (Z.leb_spec (mft_records z) 24) as [H24|H24].
    + eexists _, _, _. split; [done|]. split; [done|]. right. split; [done|]. intros n [Hn _]. unfold e, rec_end in Hn. zdiv.
    + apply find_free_rec_spec; [done|lia|apply Hf; lia].
  - rewrite (proj2 (Z.ltb_lt _ _)) by lia. apply find_free_rec_spec; [done|lia|apply Hf; lia].
Qed.
End spec.

(** A bitmap of 64 records of which only the record [n] is free, with the allocator at [pos]. *)
Definition one_free (n : Z) : bitmap := λ i, if i =? n / 8 then 255 - 2 ^ (n mod 8) else 0xff.
Definition sample_zone (pos : Z) : mft_zone := mk_mft_zone (64 * 1024) 10 8 pos.

Lemma one_free_bytes n : byte_contents (one_free n).
Proof.
  intros i. unfold one_free. destruct (i =? n / 8); [|lia]. assert (0 ≤ n mod 8 < 8) by zdiv. pose proof (Z.pow_le_mono_r 2 (n mod 8) 7 ltac:(lia) ltac:(lia)).
  pose proof (Z.pow_pos_nonneg 2 (n mod 8) ltac:(lia) ltac:(lia)). lia.
Qed.

Lemma ntfs_mft_bitmap_find_and_alloc_free_rec_nolock_spec_witness :
  (∃ bm', @ntfs_mft_bitmap_find_and_alloc_free_rec_nolock page_cache_4k (sample_zone 32) None (one_free 50) 0 = Ret (inr 50, bm', 1%nat)) ∧
  ∃ r bm' t', @ntfs_mft_bitmap_find_and_alloc_free_rec_nolock page_cache_4k (sample_zone 32) None (one_free 50) 0 = Ret (r, bm', t') ∧
    match r with
    | inr n => first_rec (one_free 50) (search_start (sample_zone 32) None) (rec_end (mft_records (sample_zone 32))) n ∧ n ≤ 2 ^ 32 ∧
        set_to true n 1 (one_free 50) bm' ∧ byte_contents bm'
    | inl err => bm' = one_free 50 ∧ (@map_failed page_cache_4k err ∨ err = ENOSPC ∧
        ∀ n, first_rec (one_free 50) (search_start (sample_zone 32) None) (rec_end (mft_records (sample_zone 32))) n → 2 ^ 32 < n)
    end.
Proof.
  split; [eexists; reflexivity|]. apply (@ntfs_mft_bitmap_find_and_alloc_free_rec_nolock_spec page_cache_4k); [by vm_compute|apply one_free_bytes].
Defined.

(** The free record 24 is in front of the position of the allocator: ENOSPC. *)
Example free_rec_in_front_missed :
  bit_of (one_free 24) 24 = false ∧ ∃ bm', @ntfs_mft_bitmap_find_and_alloc_free_rec_nolock page_cache_4k (sample_zone 32) None (one_free 24) 0 = Ret (inl ENOSPC, bm', 1%nat).
Proof. split; [done|]. eexists. reflexivity. Qed.

(** The record 31, which is behind the 30 records that are allocated. *)
Example free_rec_behind_end :
  ∃ bm', @ntfs_mft_bitmap_find_and_alloc_free_rec_nolock page_cache_4k (mk_mft_zone (30 * 1024) 10 8 24) None (one_free 31) 0 = Ret (inr 31, bm', 1%nat).
Proof. eexists. reflexivity. Qed.
