(* ===== verification/MftRecord.v ===== *)
(** * Attribute records in an mft record

    An mft record is an array of bytes: a header, attribute records one behind the other,
    an end marker, and unused space.  The functions of [kext/ntfs_attr.c] and
    [kext/ntfs_mft.c] that lay out a record and insert, delete and resize attribute
    records in it. *)

From S2P Require Import Prelude Bytes Mst.

(** ** Layout *)

Definition AT_END : Z := 0xffffffff.
Definition AT_FILENAME : Z := 0x30.
Definition AT_INDEX_ROOT : Z := 0x90.
Definition RESIDENT_ATTR_IS_INDEXED : Z := 1.
Definition magic_FILE : Z := 0x454c4946.

(** The name of the index of a directory, in characters: $I30; the flag of the last entry of an
    index. *)
Definition I30 : list Z := [0x24; 0x49; 0x33; 0x30].
Definition INDEX_ENTRY_END : Z := 2.

(** Offsets of the fields of [MFT_RECORD]. *)
Definition m_magic : nat := 0.
Definition m_usa_ofs : nat := 4.
Definition m_usa_count : nat := 6.
Definition m_sequence_number : nat := 16.
Definition m_attrs_offset : nat := 20.
Definition m_flags : nat := 22.
Definition m_bytes_in_use : nat := 24.
Definition m_bytes_allocated : nat := 28.
Definition m_next_attr_instance : nat := 40.
Definition m_mft_record_number : nat := 44.

(** [sizeof(MFT_RECORD)] and [sizeof(MFT_RECORD_OLD)]; the latter has 42 bytes of fields, but is
    aligned to 8 bytes. *)
Definition sizeof_MFT_RECORD : Z := 48.
Definition sizeof_MFT_RECORD_OLD : Z := 48.

(** Offsets of the fields of [ATTR_RECORD]. *)
Definition a_type : nat := 0.
Definition a_length : nat := 4.
Definition a_name_length : nat := 9.
Definition a_name_offset : nat := 10.
Definition a_instance : nat := 14.
Definition a_value_length : nat := 16.
Definition a_value_offset : nat := 20.
Definition a_resident_flags : nat := 22.

(** [offsetof(ATTR_RECORD, reservedR) + sizeof(a->reservedR)]. *)
Definition resident_header : Z := 24.

(** ** Operations *)

(** A byte count of [memmove]; a negative difference is a huge [size_t]. *)
Definition byte_count (n : Z) : outcome nat := if n <? 0 then Oob else Ret (Z.to_nat n).

(** [(size + 7) & ~7] in a [u32], when [size] is not aligned. *)
Definition align8 (size : Z) : Z :=
  if negb (Z.land size 7 =? 0) then Z.land (u32 (size + 7)) (Z.lnot 7) else size.

Definition ntfs_attr_record_is_only_one (m : list Z) (a : nat) : outcome bool :=
  first ← le16_at m m_attrs_offset;
  len ← le32_at m (a + a_length);
  if negb (Z.to_nat first =? a)%nat then Ret false else
  t ← le32_at m (a + Z.to_nat len + a_type);
  Ret (t =? AT_END).

Definition ntfs_attr_record_delete_internal (m : list Z) (a : nat) : outcome (list Z) :=
  muse ← le32_at m m_bytes_in_use;
  len ← le32_at m (a + a_length);
  let new_muse := u32 (muse - len) in
  n ← byte_count (new_muse - Z.of_nat a);
  m ← memmove m a (a + Z.to_nat len) n;
  put32 m m_bytes_in_use new_muse.

Definition ntfs_attr_record_make_space (m : list Z) (a : nat) (size : Z) : outcome (Z * list Z) :=
  muse ← le32_at m m_bytes_in_use;
  let size := align8 size in
  let new_muse := u32 (muse + size) in
  alloc ← le32_at m m_bytes_allocated;
  if alloc <? new_muse then Ret (ENOSPC, m) else
  n ← byte_count (muse - Z.of_nat a);
  m ← memmove m (a + Z.to_nat size) a n;
  m ← put32 m m_bytes_in_use new_muse;
  m ← memset m a 0 (Z.to_nat size);
  m ← put32 m (a + a_length) size;
  Ret (0, m).

Definition ntfs_attr_record_resize (m : list Z) (a : nat) (new_size : Z) : outcome (Z * list Z) :=
  old_size ← le32_at m (a + a_length);
  let new_size := align8 new_size in
  if negb (new_size =? old_size) then
    muse ← le32_at m m_bytes_in_use;
    let new_muse := u32 (muse - old_size + new_size) in
    alloc ← le32_at m m_bytes_allocated;
    if alloc <? new_muse then Ret (ENOSPC, m) else
    n ← byte_count (muse - Z.of_nat a - old_size);
    m ← memmove m (a + Z.to_nat new_size) (a + Z.to_nat old_size) n;
    m ← put32 m m_bytes_in_use new_muse;
    m ← (if 8 <=? new_size then put32 m (a + a_length) new_size else Ret m);
    Ret (0, m)
  else Ret (0, m).

(** The bytes of a name. *)
Fixpoint name_bytes (name : list Z) : list Z :=
  match name with
  | [] => []
  | c :: name => le_bytes 2 c ++ name_bytes name
  end.

(** The set-up of the zeroed attribute record. *)
Definition insert_fields (m : list Z) (a : nat) (type : Z) (name : list Z) (name_ofs val_ofs val_len : Z) : outcome (Z * list Z) :=
  let name_len := Z.of_nat (length name) in
  m ← put32 m (a + a_type) type;
  m ← put8 m (a + a_name_length) name_len;
  m ← put16 m (a + a_name_offset) name_ofs;
  instance ← le16_at m m_next_attr_instance;
  m ← put16 m (a + a_instance) instance;
  m ← put16 m m_next_attr_instance (Z.land (instance + 1) 0xffff);
  m ← put32 m (a + a_value_length) val_len;
  m ← put16 m (a + a_value_offset) val_ofs;
  m ← (if type =? AT_FILENAME then put8 m (a + a_resident_flags) RESIDENT_ATTR_IS_INDEXED else Ret m);
  m ← (if negb (name_len =? 0) then put m (a + Z.to_nat name_ofs) (name_bytes name) else Ret m);
  Ret (0, m).

Definition ntfs_resident_attr_record_insert_internal (m : list Z) (a : nat) (type : Z) (name : list Z) (val_len : Z)
    : outcome (Z * list Z) :=
  let name_len := Z.of_nat (length name) in
  let name_ofs := resident_header in
  let val_ofs := name_ofs + Z.land (Z.shiftl name_len 1 + 7) (Z.lnot 7) in
  '(err, m) ← ntfs_attr_record_make_space m a (u32 (val_ofs + val_len));
  if negb (err =? 0) then Ret (ENOSPC, m) else
  insert_fields m a type name name_ofs val_ofs val_len.

Definition ntfs_resident_attr_value_resize (m : list Z) (a : nat) (new_size : Z) : outcome (Z * list Z) :=
  old_size ← le32_at m (a + a_value_length);
  ofs ← le16_at m (a + a_value_offset);
  '(err, m) ← ntfs_attr_record_resize m a (u32 (ofs + new_size));
  if negb (err =? 0) then Ret (ENOSPC, m) else
  m ← (if old_size <? new_size then
         ofs ← le16_at m (a + a_value_offset);
         memset m (a + Z.to_nat ofs + Z.to_nat old_size) 0 (Z.to_nat (new_size - old_size))
       else Ret m);
  m ← put32 m (a + a_value_length) new_size;
  Ret (0, m).

(** [record_size] is [vol->mft_record_size]; [m] the destination buffer. *)
Definition ntfs_mft_record_lay_out (record_size major_ver minor_ver mft_no : Z) (m : list Z) : outcome (Z * list Z) :=
  if 2 ^ 32 <=? mft_no then Ret (ERANGE, m) else
  if record_size <? NTFS_BLOCK_SIZE then Panic else
  m ← memset m 0 0 (Z.to_nat record_size);
  m ← (if (major_ver <? 3) || (major_ver =? 3) && (minor_ver =? 0)
       then put16 m m_usa_ofs (Z.land (sizeof_MFT_RECORD_OLD + 1) (Z.lnot 1))
       else m ← put16 m m_usa_ofs (Z.land (sizeof_MFT_RECORD + 1) (Z.lnot 1));
            put32 m m_mft_record_number (u32 mft_no));
  m ← put32 m m_magic magic_FILE;
  m ← put16 m m_usa_count (1 + record_size / NTFS_BLOCK_SIZE);
  usa_ofs ← le16_at m m_usa_ofs;
  m ← put16 m (Z.to_nat usa_ofs) 1;
  m ← put16 m m_sequence_number 1;
  usa_ofs ← le16_at m m_usa_ofs;
  usa_count ← le16_at m m_usa_count;
  m ← put16 m m_attrs_offset (Z.land (usa_ofs + Z.shiftl usa_count 1 + 7) (Z.lnot 7));
  attrs_offset ← le16_at m m_attrs_offset;
  m ← put32 m m_bytes_in_use (attrs_offset + 8);
  m ← put32 m m_bytes_allocated record_size;
  attrs_offset ← le16_at m m_attrs_offset;
  m ← put32 m (Z.to_nat attrs_offset + a_type) AT_END;
  Ret (0, m).

(** ** The attribute records of an mft record *)

(** The parts of an mft record. *)
Record mft := mk_mft {
  m_head : list Z;
  m_attrs : list (list Z);
  m_fin : list Z;
  m_spare : list Z
}.

Definition mft_bytes (r : mft) : list Z := m_head r ++ concat (m_attrs r) ++ m_fin r ++ m_spare r.

(** An attribute record: its length field is its size, a multiple of 8, and it is no end marker. *)
Record attr_ok (a : list Z) : Prop := {
  attr_bytes : bytes a;
  attr_size : (24 ≤ length a)%nat;
  attr_length : get32 a a_length = Z.of_nat (length a);
  attr_aligned : Z.of_nat (length a) mod 8 = 0;
  attr_type : get32 a a_type ≠ AT_END
}.

(** The invariant of an mft record: the header describes the parts. *)
Record mft_ok (r : mft) : Prop := {
  ok_head : bytes (m_head r);
  ok_head_size : (48 ≤ length (m_head r))%nat;
  ok_attrs_offset : get16 (m_head r) m_attrs_offset = Z.of_nat (length (m_head r));
  ok_attrs : Forall attr_ok (m_attrs r);
  ok_fin : bytes (m_fin r);
  ok_fin_size : length (m_fin r) = 8%nat;
  ok_fin_type : get32 (m_fin r) a_type = AT_END;
  ok_spare : bytes (m_spare r);
  ok_in_use : get32 (m_head r) m_bytes_in_use = Z.of_nat (length (m_head r) + length (concat (m_attrs r)) + 8);
  ok_allocated : get32 (m_head r) m_bytes_allocated = Z.of_nat (length (mft_bytes r))
}.

(** The header with another number of bytes in use. *)
Definition set_use (h : list Z) (n : nat) : list Z := splice h m_bytes_in_use (le_bytes 4 (Z.of_nat n)).

(** Where the attribute record behind [l] begins. *)
Definition attr_ofs (r : mft) (l : list (list Z)) : nat := length (m_head r) + length (concat l).

Lemma bytes_app l1 l2 : bytes (l1 ++ l2) ↔ bytes l1 ∧ bytes l2.
Proof. apply list.Forall_app. Qed.

Lemma bytes_concat l : Forall attr_ok l → bytes (concat l).
Proof. induction 1 as [|a l Ha _ IH]; cbn; [constructor|]. apply bytes_app. split; [apply Ha|done]. Qed.

Lemma get8_range m i : bytes m → 0 ≤ get8 m i < 256.
Proof.
  intros Hm. unfold get8. rewrite nth_lookup. destruct (m !! i) as [x|] eqn:E; cbn; [|lia].
  exact (Forall_lookup_1 _ _ _ _ Hm E).
Qed.

Lemma get16_range m i : bytes m → 0 ≤ get16 m i < 2 ^ 16.
Proof. intros Hm. unfold get16. pose proof (get8_range m i Hm). pose proof (get8_range m (i + 1) Hm). lia. Qed.

Lemma get32_range m i : bytes m → 0 ≤ get32 m i < 2 ^ 32.
Proof. intros Hm. unfold get32. pose proof (get16_range m i Hm). pose proof (get16_range m (i + 2) Hm). lia. Qed.

Lemma mft_size r : mft_ok r → Z.of_nat (length (mft_bytes r)) < 2 ^ 32.
Proof. intros Hr. rewrite <- (ok_allocated _ Hr). apply get32_range, Hr. Qed.

Lemma length_mft_bytes r :
  mft_ok r → length (mft_bytes r) = (length (m_head r) + length (concat (m_attrs r)) + 8 + length (m_spare r))%nat.
Proof. intros Hr. unfold mft_bytes. rewrite !length_app, (ok_fin_size _ Hr). lia. Qed.

Lemma length_set_use h n : (48 ≤ length h)%nat → length (set_use h n) = length h.
Proof. intros Hh. unfold set_use. apply length_splice. rewrite le_bytes_length. unfold m_bytes_in_use. lia. Qed.

(** The invariant after a change of the attribute records. *)
Lemma mft_ok_update r attrs spare :
  mft_ok r → Forall attr_ok attrs → bytes spare →
  (length (concat attrs) + length spare = length (concat (m_attrs r)) + length (m_spare r))%nat →
  mft_ok (mk_mft (set_use (m_head r) (length (m_head r) + length (concat attrs) + 8)) attrs (m_fin r) spare).
Proof.
  intros Hr Ha Hs Hlen. pose proof (mft_size r Hr) as Hsize. rewrite (length_mft_bytes r Hr) in Hsize.
  pose proof (ok_head_size _ Hr) as Hh. pose proof Hr as [H1 H2 H3 H4 H5 H6 H7 H8 H9 H10].
  assert (∀ n, (m_bytes_in_use + length (le_bytes 4 (Z.of_nat n)) ≤ length (m_head r))%nat) as Hb
    by (intros n; rewrite le_bytes_length; unfold m_bytes_in_use; lia).
  split; cbn [m_head m_attrs m_fin m_spare]; rewrite ?length_set_use by done; try done.
  - apply bytes_splice; [done|apply bytes_le_bytes].
  - unfold set_use. rewrite get16_splice_other; [done|apply Hb|]. unfold m_attrs_offset, m_bytes_in_use. lia.
  - unfold set_use. rewrite get32_splice by (unfold m_bytes_in_use; lia). done.
  - unfold set_use at 1. rewrite get32_splice_other; [|apply Hb|rewrite le_bytes_length; unfold m_bytes_allocated, m_bytes_in_use; lia].
    rewrite H10. unfold mft_bytes. cbn [m_head m_attrs m_fin m_spare]. rewrite !length_app, length_set_use by done. lia.
Qed.

(** ** Accesses to the parts *)

(** [memmove] behind a prefix. *)
Lemma memmove_part (p x : list Z) d s n :
  (s + n ≤ length x)%nat → (d + n ≤ length x)%nat →
  memmove (p ++ x) (length p + d) (length p + s) n = Ret (p ++ take d x ++ take n (drop s x) ++ drop (d + n) x).
Proof.
  intros H1 H2. unfold memmove. rewrite memcpy_Ret by len. f_equal.
  rewrite take_app_ge by lia. rewrite (drop_app_ge p x (length p + s)) by lia. rewrite (drop_app_ge p x (length p + d + n)) by lia.
  replace (length p + d - length p)%nat with d by lia. replace (length p + s - length p)%nat with s by lia.
  replace (length p + d + n - length p)%nat with (d + n)%nat by lia. by rewrite <- (assoc_L (++)).
Qed.

Lemma bytes_in_use r :
  mft_ok r → le32_at (mft_bytes r) m_bytes_in_use = Ret (Z.of_nat (length (m_head r) + length (concat (m_attrs r)) + 8)).
Proof.
  intros Hr. pose proof (ok_head_size _ Hr). unfold mft_bytes. rewrite le32_head by (unfold m_bytes_in_use; lia).
  by rewrite (ok_in_use _ Hr).
Qed.

Lemma bytes_allocated r : mft_ok r → le32_at (mft_bytes r) m_bytes_allocated = Ret (Z.of_nat (length (mft_bytes r))).
Proof.
  intros Hr. pose proof (ok_head_size _ Hr). unfold mft_bytes at 1. rewrite le32_head by (unfold m_bytes_allocated; lia).
  by rewrite (ok_allocated _ Hr).
Qed.

Lemma put_bytes_in_use r q n :
  mft_ok r → put32 (m_head r ++ q) m_bytes_in_use (Z.of_nat n) = Ret (set_use (m_head r) n ++ q).
Proof.
  intros Hr. pose proof (ok_head_size _ Hr). unfold put32, set_use.
  rewrite put_head by (rewrite le_bytes_length; unfold m_bytes_in_use; lia). done.
Qed.

Lemma attr_ok_in r l1 a l2 : mft_ok r → m_attrs r = l1 ++ a :: l2 → attr_ok a.
Proof. intros Hr E. pose proof (ok_attrs _ Hr) as H. rewrite E in H. by apply list.Forall_app in H as [_ [H _]%list.Forall_cons]. Qed.

(** ** Deletion *)

Lemma delete_internal_spec r l1 a l2 :
  mft_ok r → m_attrs r = l1 ++ a :: l2 →
  ∃ r', ntfs_attr_record_delete_internal (mft_bytes r) (attr_ofs r l1) = Ret (mft_bytes r') ∧ mft_ok r' ∧
    m_attrs r' = l1 ++ l2 ∧ m_fin r' = m_fin r ∧
    m_head r' = set_use (m_head r) (length (m_head r) + length (concat (l1 ++ l2)) + 8).
Proof.
  intros Hr E. pose proof (attr_ok_in _ _ _ _ Hr E) as Ha. pose proof (mft_size r Hr) as Hsize.
  pose proof (length_mft_bytes r Hr) as Hlen. pose proof Hr as [_ Hh _ Hattrs _ Hf _ _ _ _].
  assert (length (concat (m_attrs r)) = (length (concat l1) + length a + length (concat l2))%nat) as Hcat
    by (rewrite E, concat_app; cbn; len).
  set (tail := concat l2 ++ m_fin r). set (spare := drop (length tail) (a ++ tail ++ m_spare r)).
  exists (mk_mft (set_use (m_head r) (length (m_head r) + length (concat (l1 ++ l2)) + 8)) (l1 ++ l2) (m_fin r) spare).
  assert (length tail = (length (concat l2) + 8)%nat) as Ht by (unfold tail; len).
  split; [|split; [|done]].
  - unfold ntfs_attr_record_delete_internal.
    assert (mft_bytes r = (m_head r ++ concat l1) ++ a ++ tail ++ m_spare r) as Em.
    { unfold mft_bytes, tail. rewrite E, concat_app. cbn [concat]. by app_norm. }
    rewrite (bytes_in_use r Hr). cbn [mbind outcome_bind].
    assert (attr_ofs r l1 = length (m_head r ++ concat l1)) as Eo by (unfold attr_ofs; len).
    rewrite Em, Eo, le32_part by (pose proof (attr_size _ Ha); unfold a_length; lia). cbn [mbind outcome_bind].
    rewrite (attr_length _ Ha), uwrap_id by lia. unfold byte_count. rewrite (proj2 (Z.ltb_ge _ _)) by len.
    cbn [mbind outcome_bind]. rewrite Nat2Z.id.
    replace (Z.to_nat _) with (length tail) by len.
    rewrite <- (Nat.add_0_r (length (m_head r ++ concat l1))) at 1. rewrite memmove_part by len.
    cbn [mbind outcome_bind take Nat.add app]. rewrite drop_app_length, take_app_length. fold spare.
    rewrite <- (assoc_L (++) (m_head r)).
    replace (_ - _) with (Z.of_nat (length (m_head r) + length (concat (l1 ++ l2)) + 8)) by (rewrite concat_app; len).
    rewrite put_bytes_in_use by done. unfold mft_bytes. cbn [m_head m_attrs m_fin m_spare]. unfold tail.
    rewrite concat_app. by app_norm.
  - apply mft_ok_update; [done| | |].
    + rewrite E in Hattrs. apply list.Forall_app in Hattrs as [H1 [_ H2]%list.Forall_cons]. by apply list.Forall_app.
    + apply list.Forall_drop. apply bytes_app. split; [apply Ha|]. apply bytes_app. split; [|apply Hr].
      apply bytes_app. split; [|apply Hr]. apply bytes_concat. rewrite E in Hattrs.
      by apply list.Forall_app in Hattrs as [_ [_ H2]%list.Forall_cons].
    + unfold spare. rewrite concat_app. len.
Qed.

(** ** Insertion *)

Definition round8 (size : Z) : Z := 8 * ((size + 7) / 8).

Lemma align8_round8 size : 0 ≤ size → size + 7 < 2 ^ 32 → align8 size = round8 size.
Proof.
  intros H0 H. unfold align8, round8. change 7 with (Z.ones 3) at 1. rewrite Z.land_ones by lia. change (2 ^ 3) with 8.
  destruct (Z.eqb_spec (size mod 8) 0) as [E|E]; cbn [negb]; [zdiv|]. rewrite uwrap_id by lia.
  change (Z.lnot 7) with (Z.lnot (Z.ones 3)). rewrite <- Z.ldiff_land, Z.ldiff_ones_r by lia.
  rewrite Z.shiftl_mul_pow2, Z.shiftr_div_pow2 by lia. change (2 ^ 3) with 8. lia.
Qed.

Lemma memset_part (p y q : list Z) x :
  memset (p ++ y ++ q) (length p) x (length y) = Ret (p ++ replicate (length y) x ++ q).
Proof.
  rewrite memset_Ret by len. f_equal. rewrite take_app_length. do 2 f_equal.
  rewrite <- drop_drop, drop_app_length. by rewrite drop_app_length.
Qed.

(** A cleared attribute record of [n] bytes. *)
Definition blank (n : nat) : list Z := splice (replicate n 0) a_length (le_bytes 4 (Z.of_nat n)).

Lemma length_blank n : (8 ≤ n)%nat → length (blank n) = n.
Proof. intros H. unfold blank. rewrite length_splice; rewrite length_replicate; [done|]. rewrite le_bytes_length. unfold a_length. lia. Qed.

Lemma bytes_replicate n : bytes (replicate n 0).
Proof. apply list.Forall_replicate. lia. Qed.

Lemma bytes_blank n : bytes (blank n).
Proof. apply bytes_splice; [apply bytes_replicate|apply bytes_le_bytes]. Qed.

Lemma make_space_spec r l1 l2 size :
  mft_ok r → m_attrs r = l1 ++ l2 → 0 < size → Z.of_nat (length (mft_bytes r)) + size + 7 < 2 ^ 32 →
  let n := Z.to_nat (round8 size) in
  (length (m_spare r) < n)%nat ∧ ntfs_attr_record_make_space (mft_bytes r) (attr_ofs r l1) size = Ret (ENOSPC, mft_bytes r) ∨
  (n ≤ length (m_spare r))%nat ∧ ntfs_attr_record_make_space (mft_bytes r) (attr_ofs r l1) size =
    Ret (0, mft_bytes (mk_mft (set_use (m_head r) (length (m_head r) + length (concat (m_attrs r)) + n + 8))
      (l1 ++ blank n :: l2) (m_fin r) (drop n (m_spare r)))).
Proof.
  intros Hr E Hs Hmax n. pose proof (length_mft_bytes r Hr) as Hlen. pose proof Hr as [_ Hh _ _ _ Hf _ _ _ _].
  assert (size ≤ round8 size < size + 8 ∧ round8 size = Z.of_nat n ∧ (8 ≤ n)%nat) as (Hround & En & Hn)
    by (unfold n, round8; split_and!; zdiv).
  unfold ntfs_attr_record_make_space. rewrite (bytes_in_use r Hr). cbn [mbind outcome_bind].
  rewrite align8_round8, En by lia. rewrite uwrap_id by lia. rewrite (bytes_allocated r Hr). cbn [mbind outcome_bind].
  destruct (Z.ltb_spec (Z.of_nat (length (mft_bytes r)))
    (Z.of_nat (length (m_head r) + length (concat (m_attrs r)) + 8) + Z.of_nat n)) as [Hlt|Hge].
  { left. split; [lia|done]. }
  right. split; [lia|]. set (tail := concat l2 ++ m_fin r).
  assert (length (concat (m_attrs r)) = (length (concat l1) + length (concat l2))%nat) as Hcat by (rewrite E, concat_app; len).
  assert (length tail = (length (concat l2) + 8)%nat) as Ht by (unfold tail; len).
  assert (mft_bytes r = (m_head r ++ concat l1) ++ tail ++ m_spare r) as Em.
  { unfold mft_bytes, tail. rewrite E, concat_app. by app_norm. }
  assert (attr_ofs r l1 = length (m_head r ++ concat l1)) as Eo by (unfold attr_ofs; len).
  unfold byte_count. rewrite (proj2 (Z.ltb_ge _ _)) by (rewrite Eo; len). cbn [mbind outcome_bind]. rewrite Nat2Z.id.
  replace (Z.to_nat _) with (length tail) by (rewrite Eo; len). rewrite Em, Eo.
  rewrite <- (Nat.add_0_r (length (m_head r ++ concat l1))) at 2. rewrite memmove_part by len. cbn [mbind outcome_bind].
  replace (drop (n + length tail) (tail ++ m_spare r)) with (drop n (m_spare r))
    by (rewrite Nat.add_comm, <- drop_drop, drop_app_length; done).
  rewrite drop_0, take_app_length, <- (assoc_L (++) (m_head r)).
  replace (Z.of_nat _ + Z.of_nat n) with (Z.of_nat (length (m_head r) + length (concat (m_attrs r)) + n + 8)) by lia.
  rewrite put_bytes_in_use by done. cbn [mbind outcome_bind]. set (h := set_use _ _).
  assert (length (m_head r ++ concat l1) = length (h ++ concat l1)) as -> by (unfold h; rewrite !length_app, length_set_use by done; done).
  rewrite (assoc_L (++) h). set (y := take n (tail ++ m_spare r)). assert (length y = n) as Ey by (unfold y; len).
  pose proof (memset_part (h ++ concat l1) y (tail ++ drop n (m_spare r)) 0) as Hms. rewrite Ey in Hms. rewrite Hms.
  cbn [mbind outcome_bind]. unfold put32.
  rewrite put_part by (rewrite length_replicate, le_bytes_length; unfold a_length; lia). cbn [mbind outcome_bind].
  unfold mft_bytes. cbn [m_head m_attrs m_fin m_spare]. fold (blank n). unfold tail. rewrite concat_app. cbn [concat]. by app_norm.
Qed.

(** ** Fields of attribute records *)

(** The name of an attribute record, and the value of a resident one. *)
Definition attr_name (a : list Z) : list Z :=
  (λ k, get16 a (Z.to_nat (get16 a a_name_offset) + 2 * k)) <$> seq 0 (Z.to_nat (get8 a a_name_length)).
Definition attr_value (a : list Z) : list Z :=
  take (Z.to_nat (get32 a a_value_length)) (drop (Z.to_nat (get16 a a_value_offset)) a).

Lemma get8_splice_other m i bs j :
  (i + length bs ≤ length m)%nat → (j < i ∨ i + length bs ≤ j)%nat → get8 (splice m i bs) j = get8 m j.
Proof. intros H Hj. rewrite get8_splice by done. by rewrite bool_decide_eq_false_2 by lia. Qed.

Lemma get8_put m i x : (i < length m)%nat → 0 ≤ x < 256 → get8 (splice m i (le_bytes 1 x)) i = x.
Proof.
  intros H Hx. rewrite get8_splice by (cbn; lia). rewrite bool_decide_eq_true_2 by (cbn; lia).
  replace (i - i)%nat with 0%nat by lia. cbn. zdiv.
Qed.

Lemma drop_splice m i bs n : (i + length bs ≤ n)%nat → (i + length bs ≤ length m)%nat → drop n (splice m i bs) = drop n m.
Proof.
  intros H1 H2. unfold splice. rewrite (assoc_L (++)), drop_app_ge by len. rewrite drop_drop. f_equal. len.
Qed.

Lemma length_name_bytes name : length (name_bytes name) = (2 * length name)%nat.
Proof. induction name as [|c name IH]; [done|]. cbn [name_bytes length]. rewrite length_app, le_bytes_length. lia. Qed.

Lemma bytes_name_bytes name : bytes (name_bytes name).
Proof. induction name; [constructor|]. cbn [name_bytes]. apply bytes_app. split; [apply bytes_le_bytes|done]. Qed.

Lemma get16_le_bytes c q : 0 ≤ c < 65536 → get16 (le_bytes 2 c ++ q) 0 = c.
Proof. intros H. unfold get16, get8. cbn. zdiv. Qed.

(** The characters of a stored name. *)
Lemma name_bytes_chars name :
  Forall (λ c, 0 ≤ c < 65536) name → (λ k, get16 (name_bytes name) (2 * k)) <$> seq 0 (length name) = name.
Proof.
  induction 1 as [|c name Hc Hname IH]; [done|]. cbn [length seq fmap list_fmap]. f_equal.
  - apply get16_le_bytes. done.
  - rewrite <- IH at 2. rewrite <- fmap_S_seq, <- list_fmap_compose. apply list_fmap_ext. intros i k Hk. cbn [compose].
    cbn [name_bytes].
    replace (2 * S k)%nat with (length (le_bytes 2 c) + 2 * k)%nat by (cbn; lia). apply get16_app_r.
Qed.

Lemma get16_splice_in m i bs j : (j + 2 ≤ length bs)%nat → (i + length bs ≤ length m)%nat → get16 (splice m i bs) (i + j) = get16 bs j.
Proof.
  intros H1 H2. unfold get16. rewrite !get8_splice by done. rewrite !bool_decide_eq_true_2 by lia.
  replace (i + j - i)%nat with j by lia. by replace (i + j + 1 - i)%nat with (j + 1)%nat by lia.
Qed.

(** The resident attribute record of the given type, instance and name, with a value of [val_len] zeroes. *)
Definition val_ofs (name : list Z) : Z := 24 + round8 (2 * Z.of_nat (length name)).
Definition resident_attr (type instance : Z) (name : list Z) (val_len : Z) : list Z :=
  let a := blank (Z.to_nat (round8 (val_ofs name + val_len))) in
  let a := splice a a_type (le_bytes 4 type) in
  let a := splice a a_name_length (le_bytes 1 (Z.of_nat (length name))) in
  let a := splice a a_name_offset (le_bytes 2 24) in
  let a := splice a a_instance (le_bytes 2 instance) in
  let a := splice a a_value_length (le_bytes 4 val_len) in
  let a := splice a a_value_offset (le_bytes 2 (val_ofs name)) in
  let a := if type =? AT_FILENAME then splice a a_resident_flags (le_bytes 1 RESIDENT_ATTR_IS_INDEXED) else a in
  splice a 24 (name_bytes name).

(** Read a field of a record that was built by stores, the stages of which are variables. *)
Ltac in_layout :=
  rewrite ?le_bytes_length, ?length_name_bytes;
  unfold a_type, a_length, a_name_length, a_name_offset, a_instance, a_value_length, a_value_offset, a_resident_flags; lia.
Ltac field_step :=
  first
  [ rewrite get32_splice by in_layout | rewrite get16_splice by in_layout | rewrite get8_put by in_layout
  | rewrite get32_splice_other by in_layout | rewrite get16_splice_other by in_layout
  | rewrite get8_splice_other by in_layout ].
Ltac stage :=
  match goal with E : ?a = splice _ _ _ |- context [?a] => rewrite E; field_step end.
Ltac store E a :=
  match goal with
  | |- context [splice ?m ?i ?bs] =>
      is_var m; let L := fresh "L" in remember (splice m i bs) as a eqn:E;
      assert (length a = length m) as L by (rewrite E; apply length_splice; in_layout)
  end.

Lemma resident_attr_fields type instance name val_len :
  0 ≤ type < 2 ^ 32 → 0 ≤ instance < 2 ^ 16 → Forall (λ c, 0 ≤ c < 65536) name → (length name ≤ 255)%nat →
  0 ≤ val_len → val_ofs name + val_len + 7 < 2 ^ 32 →
  let a := resident_attr type instance name val_len in
  length a = Z.to_nat (round8 (val_ofs name + val_len)) ∧ bytes a ∧
  get32 a a_type = type ∧ get32 a a_length = round8 (val_ofs name + val_len) ∧ get16 a a_instance = instance ∧
  attr_name a = name ∧ attr_value a = replicate (Z.to_nat val_len) 0 ∧ get16 a a_name_offset = 24 ∧
  get8 a a_name_length = Z.of_nat (length name) ∧ get16 a a_value_offset = val_ofs name ∧ get32 a a_value_length = val_len.
Proof.
  intros Ht Hi Hn Hl Hv Hmax a. subst a. unfold resident_attr.
  assert (24 + 2 * Z.of_nat (length name) ≤ val_ofs name < 600) as Hvo by (unfold val_ofs, round8; zdiv).
  assert (val_ofs name + val_len ≤ round8 (val_ofs name + val_len) < 2 ^ 32) as Hround by (unfold round8; zdiv).
  remember (Z.to_nat (round8 (val_ofs name + val_len))) as n eqn:En.
  pose proof (length_blank n ltac:(lia)) as L0. remember (blank n) as a0 eqn:E0.
  store E1 a1. store E2 a2. store E3 a3. store E4 a4. store E5 a5. store E6 a6.
  remember (if type =? AT_FILENAME then _ else a6) as a7 eqn:E7.
  assert (length a7 = n) as L7.
  { rewrite E7. case_match; [|lia]. rewrite length_splice; [lia|]. in_layout. }
  store E8 a8. assert (2 ^ 16 = 65536) as E16 by done.
  assert (drop (Z.to_nat (val_ofs name)) a8 = replicate (n - Z.to_nat (val_ofs name)) 0) as Hdrop.
  { transitivity (drop (Z.to_nat (val_ofs name)) a7); [rewrite E8; apply drop_splice; in_layout|].
    transitivity (drop (Z.to_nat (val_ofs name)) a6); [rewrite E7; case_match; [apply drop_splice; in_layout|done]|].
    rewrite E6, drop_splice, E5, drop_splice, E4, drop_splice, E3, drop_splice, E2, drop_splice, E1, drop_splice by in_layout.
    rewrite E0. unfold blank. rewrite drop_splice; [apply drop_replicate|..]; rewrite ?length_replicate; in_layout. }
  assert (bytes a8) as Hbytes.
  { assert (bytes a6) as H6 by (subst; repeat (apply bytes_splice; [|apply bytes_le_bytes]); apply bytes_replicate).
    rewrite E8. apply bytes_splice; [|apply bytes_name_bytes]. rewrite E7. case_match; [|done].
    apply bytes_splice; [done|apply bytes_le_bytes]. }
  assert (get32 a0 a_length = Z.of_nat n) as Hlen0.
  { rewrite E0. unfold blank. rewrite get32_splice; rewrite ?length_replicate; in_layout. }
  destruct (type =? AT_FILENAME); [|subst a7]; (split; [lia|]; split; [done|]; split_and!).
  all: try (by repeat stage).
  all: try (repeat stage; rewrite Hlen0; lia).
  1, 3: assert (get8 a8 a_name_length = Z.of_nat (length name)) as Hnl by (by repeat stage);
    assert (get16 a8 a_name_offset = 24) as Hno by (by repeat stage); unfold attr_name; rewrite Hnl, Hno, Nat2Z.id;
    rewrite <- (name_bytes_chars name Hn) at 2; apply list_fmap_ext; intros i k [-> Hk]%lookup_seq;
    rewrite E8; apply get16_splice_in; in_layout.
  all: assert (get32 a8 a_value_length = val_len) as Hvl by (by repeat stage);
    assert (get16 a8 a_value_offset = val_ofs name) as Hvof by (by repeat stage);
    unfold attr_value; rewrite Hvl, Hvof, Hdrop, take_replicate; f_equal; lia.
Qed.

Lemma resident_attr_ok type instance name val_len :
  0 ≤ type < AT_END → 0 ≤ instance < 2 ^ 16 → Forall (λ c, 0 ≤ c < 65536) name → (length name ≤ 255)%nat →
  0 ≤ val_len → val_ofs name + val_len + 7 < 2 ^ 32 → attr_ok (resident_attr type instance name val_len).
Proof.
  unfold AT_END. intros Ht Hi Hn Hl Hv Hmax.
  destruct (resident_attr_fields type instance name val_len) as (La & Ba & Ft & Fl & _); [lia|done..|].
  assert (24 ≤ val_ofs name) as Hvo by (unfold val_ofs, round8; zdiv).
  assert (val_ofs name + val_len ≤ round8 (val_ofs name + val_len) ∧ round8 (val_ofs name + val_len) mod 8 = 0)
    as [Hround Hmod] by (unfold round8; zdiv).
  split; [done|lia| | |unfold AT_END; lia]; rewrite La, Z2Nat.id by lia; done.
Qed.

Lemma le16_head_app h c q k : (k + 2 ≤ length h)%nat → le16_at ((h ++ c) ++ q) k = Ret (get16 h k).
Proof. intros H. rewrite <- (assoc_L (++)). apply (le16_part [] h (c ++ q) k H). Qed.

Lemma put_head' h c q k bs : (k + length bs ≤ length h)%nat → put ((h ++ c) ++ q) k bs = Ret ((splice h k bs ++ c) ++ q).
Proof. intros H. rewrite <- !(assoc_L (++)). apply (put_part [] h (c ++ q) k bs H). Qed.

Lemma splice_nil m i : splice m i [] = m.
Proof. unfold splice. cbn. rewrite Nat.add_0_r. apply take_drop. Qed.

(** Execute a store into the record at the head of the goal. *)
Ltac put_stage E a := rewrite put_part by in_layout; cbn [mbind outcome_bind]; store E a.

(** The invariant depends on no other field of the header than the offset of the attributes and the two sizes. *)
Lemma mft_ok_head r i bs :
  mft_ok r → bytes bs → (i + length bs ≤ length (m_head r))%nat → (i + length bs ≤ 20 ∨ 22 ≤ i ∧ i + length bs ≤ 24 ∨ 32 ≤ i)%nat →
  mft_ok (mk_mft (splice (m_head r) i bs) (m_attrs r) (m_fin r) (m_spare r)).
Proof.
  intros Hr Hbs Hb Hi. pose proof Hr as [H1 H2 H3 H4 H5 H6 H7 H8 H9 H10].
  pose proof (length_splice _ _ _ Hb) as HL.
  split; cbn [m_head m_attrs m_fin m_spare]; rewrite ?HL; try done.
  - by apply bytes_splice.
  - rewrite get16_splice_other; [done|done|]. unfold m_attrs_offset. lia.
  - rewrite get32_splice_other; [done|done|]. unfold m_bytes_in_use. lia.
  - rewrite get32_splice_other; [|done|unfold m_bytes_allocated; lia]. rewrite H10.
    unfold mft_bytes. cbn [m_head m_attrs m_fin m_spare]. by rewrite !length_app, HL.
Qed.

Lemma land_mod16 x : Z.land x 0xffff = x mod 2 ^ 16.
Proof. change 0xffff with (Z.ones 16). by apply Z.land_ones. Qed.

Lemma land_round8 x : 0 ≤ x → Z.land (x + 7) (Z.lnot 7) = round8 x.
Proof.
  intros Hx. change (Z.lnot 7) with (Z.lnot (Z.ones 3)). rewrite <- Z.ldiff_land, Z.ldiff_ones_r by lia.
  rewrite Z.shiftl_mul_pow2, Z.shiftr_div_pow2 by lia. unfold round8. change (2 ^ 3) with 8. lia.
Qed.

(** The set-up turns a blank record into the resident attribute record. *)
Lemma insert_fields_spec h c q type name val_len :
  (48 ≤ length h)%nat → Z.of_nat (length name) ≤ 255 → 0 ≤ val_len →
  let n := Z.to_nat (round8 (val_ofs name + val_len)) in
  let instance := get16 h m_next_attr_instance in
  insert_fields ((h ++ c) ++ blank n ++ q) (length (h ++ c)) type name resident_header (val_ofs name) val_len =
    Ret (0, (splice h m_next_attr_instance (le_bytes 2 ((instance + 1) mod 2 ^ 16)) ++ c) ++
      resident_attr type instance name val_len ++ q).
Proof.
  intros Hh Hl Hv n instance. unfold insert_fields, resident_header, resident_attr. fold n. unfold put32, put16, put8.
  assert (24 + 2 * Z.of_nat (length name) ≤ val_ofs name < 600) as Hvo by (unfold val_ofs, round8; zdiv).
  assert (val_ofs name + val_len ≤ Z.of_nat n) as Hvn by (unfold n, round8; zdiv).
  pose proof (length_blank n ltac:(lia)) as L0. remember (blank n) as a0 eqn:E0.
  put_stage F1 a1. put_stage F2 a2. put_stage F3 a3.
  rewrite le16_head_app by (unfold m_next_attr_instance; lia). cbn [mbind outcome_bind]. fold instance. rewrite land_mod16.
  put_stage F4 a4.
  rewrite put_head' by (rewrite le_bytes_length; unfold m_next_attr_instance; lia). cbn [mbind outcome_bind].
  remember (splice h m_next_attr_instance _) as h' eqn:Eh.
  assert (length (h ++ c) = length (h' ++ c)) as ->.
  { rewrite Eh, !length_app, length_splice; [done|]. rewrite le_bytes_length. unfold m_next_attr_instance. lia. }
  put_stage F5 a5. put_stage F6 a6.
  assert (∀ a7 : list Z, length a7 = n →
    ((if negb (Z.of_nat (length name) =? 0) then put ((h' ++ c) ++ a7 ++ q) (length (h' ++ c) + Z.to_nat 24) (name_bytes name)
      else Ret ((h' ++ c) ++ a7 ++ q)) ≫= λ m, Ret (0, m)) =
    Ret (0, (h' ++ c) ++ splice a7 24 (name_bytes name) ++ q)) as Hname.
  { intros a7 L7. destruct name as [|x name]; [cbn [length name_bytes]; by rewrite splice_nil|].
    rewrite (proj2 (Z.eqb_neq _ 0)) by (cbn [length]; lia). cbn [negb]. change (Z.to_nat 24) with 24%nat.
    rewrite put_part by in_layout. done. }
  destruct (type =? AT_FILENAME); [|cbn [mbind outcome_bind]; apply Hname; lia].
  put_stage F7 a7. apply Hname. lia.
Qed.

Lemma insert_internal_spec r l1 l2 type name val_len :
  mft_ok r → m_attrs r = l1 ++ l2 → 0 ≤ type < AT_END → Forall (λ c, 0 ≤ c < 65536) name → (length name ≤ 255)%nat →
  0 ≤ val_len → Z.of_nat (length (mft_bytes r)) + val_ofs name + val_len + 7 < 2 ^ 32 →
  let n := Z.to_nat (round8 (val_ofs name + val_len)) in
  let instance := get16 (m_head r) m_next_attr_instance in
  let m := ntfs_resident_attr_record_insert_internal (mft_bytes r) (attr_ofs r l1) type name val_len in
  (length (m_spare r) < n)%nat ∧ m = Ret (ENOSPC, mft_bytes r) ∨
  (n ≤ length (m_spare r))%nat ∧ ∃ r', m = Ret (0, mft_bytes r') ∧ mft_ok r' ∧
    m_attrs r' = l1 ++ resident_attr type instance name val_len :: l2 ∧ m_fin r' = m_fin r ∧
    get16 (m_head r') m_next_attr_instance = (instance + 1) mod 2 ^ 16 ∧ length (m_head r') = length (m_head r) ∧
    m_spare r' = drop n (m_spare r) ∧
    ∀ k, (k + 2 ≤ 24 ∨ 28 ≤ k ∧ k + 2 ≤ 40 ∨ 42 ≤ k)%nat → get16 (m_head r') k = get16 (m_head r) k.
Proof.
  intros Hr E Ht Hc Hl Hv Hmax n instance m. subst m. unfold AT_END in Ht. pose proof (ok_head_size _ Hr) as Hh.
  assert (24 + 2 * Z.of_nat (length name) ≤ val_ofs name < 600) as Hvo by (unfold val_ofs, round8; zdiv).
  assert (resident_header + Z.land (Z.shiftl (Z.of_nat (length name)) 1 + 7) (Z.lnot 7) = val_ofs name) as Evo.
  { rewrite Z.shiftl_mul_pow2 by lia. rewrite land_round8 by lia. unfold val_ofs, resident_header. do 2 f_equal. lia. }
  unfold ntfs_resident_attr_record_insert_internal. rewrite Evo, uwrap_id by lia.
  destruct (make_space_spec r l1 l2 (val_ofs name + val_len)) as [[Hsp ->]|[Hsp ->]]; [done|done|lia|lia|by left|right].
  split; [done|]. cbn [mbind outcome_bind Z.eqb negb]. fold n.
  pose proof (get16_range (m_head r) m_next_attr_instance (ok_head _ Hr)) as Hi. fold instance in Hi.
  assert (attr_ok (resident_attr type instance name val_len)) as Hattr by (apply resident_attr_ok; unfold AT_END; done || lia).
  destruct (resident_attr_fields type instance name val_len) as (La & _); [lia|done|done|done|done|lia|].
  set (h := set_use _ _). set (a := resident_attr type instance name val_len) in *.
  assert (length h = length (m_head r)) as Hlh by by apply length_set_use.
  set (r2 := mk_mft h (l1 ++ a :: l2) (m_fin r) (drop n (m_spare r))).
  assert (mft_ok r2) as Hr2.
  { assert (length (concat (l1 ++ a :: l2)) = (length (concat (m_attrs r)) + n)%nat) as Hcat
      by (rewrite E, !concat_app; cbn [concat]; len).
    unfold r2, h. replace (length (m_head r) + length (concat (m_attrs r)) + n + 8)%nat
      with (length (m_head r) + length (concat (l1 ++ a :: l2)) + 8)%nat by lia.
    apply mft_ok_update; [done| |apply list.Forall_drop, Hr|rewrite length_drop; lia].
    pose proof (ok_attrs _ Hr) as Hattrs. rewrite E in Hattrs. apply list.Forall_app in Hattrs as [H1 H2].
    apply list.Forall_app. split; [done|]. by constructor. }
  exists (mk_mft (splice h m_next_attr_instance (le_bytes 2 ((instance + 1) mod 2 ^ 16))) (l1 ++ a :: l2) (m_fin r) (drop n (m_spare r))).
  split_and!; [|apply (mft_ok_head r2); [done|apply bytes_le_bytes|rewrite le_bytes_length; unfold m_next_attr_instance; cbn [m_head r2]; lia..]|done|done| | |done|]; cbn [m_head].
  2: { rewrite get16_splice; [done|unfold m_next_attr_instance; lia|apply Z.mod_pos_bound; lia]. }
  2: { rewrite length_splice; [done|]. rewrite le_bytes_length. unfold m_next_attr_instance. lia. }
  2: { intros k Hk. unfold h, set_use in *. rewrite !get16_splice_other; [done|..]; rewrite ?le_bytes_length;
       unfold m_next_attr_instance, m_bytes_in_use in *; lia. }
  assert (attr_ofs r l1 = length (h ++ concat l1)) as Eo by (unfold attr_ofs; rewrite length_app; lia).
  assert (∀ h a, mft_bytes (mk_mft h (l1 ++ a :: l2) (m_fin r) (drop n (m_spare r))) =
    (h ++ concat l1) ++ a ++ concat l2 ++ m_fin r ++ drop n (m_spare r)) as Em.
  { intros h' a'. unfold mft_bytes. cbn [m_head m_attrs m_fin m_spare]. rewrite concat_app. cbn [concat]. by app_norm. }
  rewrite !Em, Eo. unfold n. rewrite insert_fields_spec by lia.
  assert (get16 h m_next_attr_instance = instance) as ->; [|done].
  unfold h, set_use. apply get16_splice_other; rewrite le_bytes_length; unfold m_bytes_in_use, m_next_attr_instance; lia.
Qed.

(** ** Resizing *)

(** [a'] is [a] resized: the common bytes are the same, apart from the length field. *)
Definition resized (a a' : list Z) : Prop :=
  ∀ j, (j < length a)%nat → (j < length a')%nat → (j < 4 ∨ 8 ≤ j)%nat → get8 a' j = get8 a j.

Lemma get32_ext a b k : (∀ j, (k ≤ j < k + 4)%nat → get8 a j = get8 b j) → get32 a k = get32 b k.
Proof. intros H. unfold get32, get16. by rewrite !H by lia. Qed.

(** The first [n] bytes of [x] as an attribute record of that size. *)
Definition cut (x : list Z) (n : nat) : list Z := splice (take n x) a_length (le_bytes 4 (Z.of_nat n)).

Lemma cut_ok a x n :
  attr_ok a → bytes x → (24 ≤ n ≤ length a + length x)%nat → Z.of_nat n < 2 ^ 32 → Z.of_nat n mod 8 = 0 →
  attr_ok (cut (a ++ x) n) ∧ length (cut (a ++ x) n) = n ∧ resized a (cut (a ++ x) n).
Proof.
  intros Ha Hx Hn Hmax Hmod. pose proof (attr_size _ Ha) as Hsa. unfold cut.
  assert (length (take n (a ++ x)) = n) as Hl by len.
  assert (∀ k, (a_length + length (le_bytes 4 k) ≤ length (take n (a ++ x)))%nat) as Hb by (intros k; rewrite Hl; in_layout).
  pose proof (length_splice _ _ _ (Hb (Z.of_nat n))) as Hls. rewrite Hl in Hls.
  assert (resized a (splice (take n (a ++ x)) a_length (le_bytes 4 (Z.of_nat n)))) as Hres.
  { intros j Hj1 Hj2 Hj. rewrite get8_splice_other by in_layout. rewrite Hls in Hj2.
    unfold get8. rewrite !nth_lookup, lookup_take_lt, lookup_app_l by lia. done. }
  split_and!; [split|done|done]; rewrite ?Hls; try done; try lia.
  - apply bytes_splice; [|apply bytes_le_bytes]. apply list.Forall_take, bytes_app. split; [apply Ha|done].
  - apply get32_splice; [rewrite Hl; in_layout|lia].
  - rewrite (get32_ext _ a); [apply Ha|]. unfold a_type. intros j Hj. apply Hres; lia.
Qed.

Lemma resize_move r l1 a l2 n :
  mft_ok r → m_attrs r = l1 ++ a :: l2 → (8 ≤ n ≤ length a + length (m_spare r))%nat →
  let x := a ++ (concat l2 ++ m_fin r) ++ m_spare r in
  let use := (length (m_head r) + length (concat l1) + n + length (concat l2) + 8)%nat in
  (m ← memmove (mft_bytes r) (attr_ofs r l1 + n) (attr_ofs r l1 + length a) (length (concat l2 ++ m_fin r));
   m ← put32 m m_bytes_in_use (Z.of_nat use);
   m ← put32 m (attr_ofs r l1 + a_length) (Z.of_nat n);
   Ret (0, m)) =
  Ret (0, mft_bytes (mk_mft (set_use (m_head r) use) (l1 ++ cut x n :: l2) (m_fin r) (drop (n + length (concat l2 ++ m_fin r)) x))).
Proof.
  intros Hr E Hn x use. pose proof Hr as [_ Hh _ _ _ Hf _ _ _ _]. set (tail := concat l2 ++ m_fin r) in *.
  assert (mft_bytes r = (m_head r ++ concat l1) ++ x) as Em.
  { unfold mft_bytes, x, tail. rewrite E, concat_app. cbn [concat]. by app_norm. }
  assert (attr_ofs r l1 = length (m_head r ++ concat l1)) as Eo by (unfold attr_ofs; len).
  assert (length x = (length a + length tail + length (m_spare r))%nat) as Hx by (unfold x; len).
  rewrite Em, Eo, memmove_part by lia. cbn [mbind outcome_bind].
  replace (take (length tail) (drop (length a) x)) with tail by (unfold x; by rewrite drop_app_length, take_app_length).
  rewrite <- (assoc_L (++) (m_head r)), put_bytes_in_use by done. cbn [mbind outcome_bind]. set (h := set_use _ _).
  assert (length (m_head r ++ concat l1) = length (h ++ concat l1)) as -> by (unfold h; rewrite !length_app, length_set_use by done; done).
  rewrite (assoc_L (++) h). unfold put32. rewrite put_part by (rewrite length_take; in_layout). cbn [mbind outcome_bind].
  unfold mft_bytes. cbn [m_head m_attrs m_fin m_spare]. fold (cut x n). unfold tail. rewrite concat_app. cbn [concat]. by app_norm.
Qed.

Lemma resize_spec r l1 a l2 size :
  mft_ok r → m_attrs r = l1 ++ a :: l2 → 24 ≤ size → Z.of_nat (length (mft_bytes r)) + size + 7 < 2 ^ 32 →
  let n := Z.to_nat (round8 size) in
  (length a + length (m_spare r) < n)%nat ∧ ntfs_attr_record_resize (mft_bytes r) (attr_ofs r l1) size = Ret (ENOSPC, mft_bytes r) ∨
  (n ≤ length a + length (m_spare r))%nat ∧ ∃ h a' spare,
    ntfs_attr_record_resize (mft_bytes r) (attr_ofs r l1) size = Ret (0, mft_bytes (mk_mft h (l1 ++ a' :: l2) (m_fin r) spare)) ∧
    mft_ok (mk_mft h (l1 ++ a' :: l2) (m_fin r) spare) ∧ length a' = n ∧ length h = length (m_head r) ∧ resized a a'.
Proof.
  intros Hr E Hs Hmax n. pose proof (length_mft_bytes r Hr) as Hlen. pose proof Hr as [_ Hh _ Hattrs _ Hf _ _ _ _].
  pose proof (attr_ok_in _ _ _ _ Hr E) as Ha. pose proof (attr_size _ Ha) as Hsa.
  assert (size ≤ round8 size < size + 8 ∧ round8 size = Z.of_nat n ∧ round8 size mod 8 = 0) as (Hround & En & Hmod)
    by (unfold n, round8; split_and!; zdiv).
  set (tail := concat l2 ++ m_fin r).
  assert (length (concat (m_attrs r)) = (length (concat l1) + length a + length (concat l2))%nat) as Hcat
    by (rewrite E, concat_app; cbn [concat]; len).
  assert (length tail = (length (concat l2) + 8)%nat) as Ht by (unfold tail; len).
  assert (mft_bytes r = (m_head r ++ concat l1) ++ a ++ tail ++ m_spare r) as Em.
  { unfold mft_bytes, tail. rewrite E, concat_app. cbn [concat]. by app_norm. }
  assert (attr_ofs r l1 = length (m_head r ++ concat l1)) as Eo by (unfold attr_ofs; len).
  assert (le32_at (mft_bytes r) (attr_ofs r l1 + a_length) = Ret (Z.of_nat (length a))) as Hlena.
  { rewrite Em, Eo, le32_part by in_layout. by rewrite (attr_length _ Ha). }
  unfold ntfs_attr_record_resize. rewrite Hlena. cbn [mbind outcome_bind]. rewrite align8_round8, En by lia.
  destruct (Z.eqb_spec (Z.of_nat n) (Z.of_nat (length a))) as [Eq|Ne]; cbn [negb].
  { right. split; [lia|]. exists (m_head r), a, (m_spare r). split_and!; [|by destruct r; cbn in *; subst|lia|done|done].
    do 2 f_equal. unfold mft_bytes. cbn [m_head m_attrs m_fin m_spare]. by rewrite E. }
  rewrite (bytes_in_use r Hr), (bytes_allocated r Hr). cbn [mbind outcome_bind]. rewrite uwrap_id by lia.
  destruct (Z.ltb_spec (Z.of_nat (length (mft_bytes r)))
    (Z.of_nat (length (m_head r) + length (concat (m_attrs r)) + 8) - Z.of_nat (length a) + Z.of_nat n)) as [Hlt|Hge].
  { left. split; [lia|done]. }
  right. split; [lia|]. unfold byte_count. rewrite (proj2 (Z.ltb_ge _ _)) by (unfold attr_ofs; lia). cbn [mbind outcome_bind].
  rewrite !Nat2Z.id, (proj2 (Z.leb_le 8 _)) by lia.
  assert (Z.to_nat (Z.of_nat (length (m_head r) + length (concat (m_attrs r)) + 8) - Z.of_nat (attr_ofs r l1) -
    Z.of_nat (length a)) = length tail) as -> by (unfold attr_ofs; lia).
  set (use := (length (m_head r) + length (concat l1) + n + length (concat l2) + 8)%nat).
  replace (_ - Z.of_nat (length a) + Z.of_nat n) with (Z.of_nat use) by (unfold use; lia).
  destruct (cut_ok a (tail ++ m_spare r) n) as (Hcut & Hlcut & Hres); [done| |len|lia|by rewrite <- En|].
  { apply bytes_app. split; [|apply Hr]. apply bytes_app. split; [|apply Hr]. apply bytes_concat.
    rewrite E in Hattrs. by apply list.Forall_app in Hattrs as [_ [_ ?]%list.Forall_cons]. }
  set (x := a ++ tail ++ m_spare r) in *.
  exists (set_use (m_head r) use), (cut x n), (drop (n + length tail) x).
  split; [by apply resize_move; [done|done|lia]|]. split_and!; [|done|by apply length_set_use|done].
  assert (length (concat (l1 ++ cut x n :: l2)) = (length (concat l1) + n + length (concat l2))%nat) as Hcat'
    by (rewrite concat_app; cbn [concat]; rewrite !length_app, Hlcut; lia).
  replace use with (length (m_head r) + length (concat (l1 ++ cut x n :: l2)) + 8)%nat by (unfold use; lia).
  assert (length x = (length a + length tail + length (m_spare r))%nat) as Hx by (unfold x; len).
  apply mft_ok_update; [done| | |rewrite length_drop, Hcat'; lia].
  - rewrite E in Hattrs. apply list.Forall_app in Hattrs as [H1 [_ H2]%list.Forall_cons].
    apply list.Forall_app. split; [done|by constructor].
  - apply list.Forall_drop. unfold x. apply bytes_app. split; [apply Ha|]. apply bytes_app. split; [|apply Hr].
    apply bytes_app. split; [|apply Hr]. apply bytes_concat.
    rewrite E in Hattrs. by apply list.Forall_app in Hattrs as [_ [_ ?]%list.Forall_cons].
Qed.

(** ** Resizing the value *)

(** The value lies inside of the record, behind the header. *)
Definition resident_ok (a : list Z) : Prop :=
  24 ≤ get16 a a_value_offset ∧ get16 a a_value_offset + get32 a a_value_length ≤ Z.of_nat (length a).

Lemma memset_splice p a q k x c :
  (k + c ≤ length a)%nat → memset (p ++ a ++ q) (length p + k) x c = Ret (p ++ splice a k (replicate c x) ++ q).
Proof.
  intros H. rewrite memset_Ret by len. f_equal. rewrite <- (splice_app_l a q), <- splice_app_r by (rewrite length_replicate; lia).
  unfold splice. by rewrite length_replicate.
Qed.

Lemma get8_take n m j : (j < n)%nat → get8 (take n m) j = get8 m j.
Proof. intros H. unfold get8. by rewrite !nth_lookup, lookup_take_lt. Qed.

Lemma get8_drop n m j : get8 (drop n m) j = get8 m (n + j).
Proof. unfold get8. by rewrite !nth_lookup, lookup_drop. Qed.

Lemma get8_replicate n j : get8 (replicate n 0) j = 0.
Proof. unfold get8. revert j. induction n as [|n IH]; intros [|j]; cbn; [done..|apply IH]. Qed.

Lemma bytes_eq (l1 l2 : list Z) :
  length l1 = length l2 → (∀ j, (j < length l1)%nat → get8 l1 j = get8 l2 j) → l1 = l2.
Proof. intros. by apply (nth_ext l1 l2 0 0). Qed.

(** The stores of [ntfs_resident_attr_value_resize]: the value is cut, or extended by zeroes. *)
Definition new_value (a : list Z) (old_size new_size : nat) : list Z :=
  let a := if (old_size <? new_size)%nat
           then splice a (Z.to_nat (get16 a a_value_offset) + old_size) (replicate (new_size - old_size) 0) else a in
  splice a a_value_length (le_bytes 4 (Z.of_nat new_size)).

Lemma new_value_spec a a1 new_size :
  attr_ok a1 → resident_ok a → resized a a1 → (24 ≤ length a)%nat → bytes a → Z.of_nat new_size < 2 ^ 32 →
  get16 a a_value_offset + Z.of_nat new_size ≤ Z.of_nat (length a1) →
  let a2 := new_value a1 (Z.to_nat (get32 a a_value_length)) new_size in
  attr_ok a2 ∧ length a2 = length a1 ∧ resident_ok a2 ∧
  attr_value a2 = take new_size (attr_value a ++ replicate new_size 0) ∧
  ∀ j, (j < Z.to_nat (get16 a a_value_offset))%nat → (j < 4 ∨ 8 ≤ j < 16 ∨ 20 ≤ j)%nat → get8 a2 j = get8 a j.
Proof.
  intros Ha1 [Hvo Hvl] Hres Hla Hba Hmax Hfit. pose proof (attr_size _ Ha1) as Hsa. unfold a_value_offset, a_value_length in *.
  pose proof (get32_range a 16 Hba) as Hr32. pose proof (get16_range a 20 Hba) as Hr16.
  set (vo := Z.to_nat (get16 a 20)) in *. set (old := Z.to_nat (get32 a 16)) in *.
  assert (get16 a1 20 = get16 a 20) as Evo by (unfold get16; rewrite !Hres by lia; done).
  unfold new_value, a_value_offset, a_value_length. rewrite Evo. fold vo.
  set (b := if (old <? new_size)%nat then _ else _).
  assert (length b = length a1 ∧ bytes b ∧ ∀ j, get8 b j = if bool_decide (vo + old ≤ j < vo + new_size)%nat then 0 else get8 a1 j)
    as (Lb & Bb & Gb).
  { unfold b. destruct (Nat.ltb_spec old new_size) as [Hlt|Hge].
    - split_and!; [apply length_splice; rewrite length_replicate; lia|apply bytes_splice; [apply Ha1|apply bytes_replicate]|].
      intros j. rewrite get8_splice, length_replicate by (rewrite length_replicate; lia).
      repeat case_bool_decide; try lia; try done; apply get8_replicate.
    - split_and!; [done|apply Ha1|]. intros j. by rewrite bool_decide_eq_false_2 by lia. }
  assert (∀ j, (j < 16 ∨ 20 ≤ j)%nat → get8 (splice b 16 (le_bytes 4 (Z.of_nat new_size))) j = get8 b j) as Gs.
  { intros j Hj. apply get8_splice_other; rewrite le_bytes_length; lia. }
  set (a2 := splice b 16 _) in *. assert (length a2 = length a1) as La2 by (unfold a2; rewrite length_splice; rewrite ?le_bytes_length; lia).
  assert (get32 a2 16 = Z.of_nat new_size) as Fvl by (apply get32_splice; lia).
  assert (∀ j, (j < vo)%nat → (j < 16 ∨ 20 ≤ j)%nat → get8 a2 j = get8 a1 j) as Glow.
  { intros j Hj Hj'. by rewrite Gs, Gb, bool_decide_eq_false_2 by lia. }
  assert (get16 a2 20 = get16 a 20) as Fvo by (rewrite <- Evo; unfold get16; by rewrite !Glow by lia).
  split_and!; [|done| | |].
  - split; rewrite ?La2; try apply Ha1; [apply bytes_splice; [done|apply bytes_le_bytes]| |].
    + rewrite (get32_ext _ a1); [apply Ha1|]. unfold a_length. intros j Hj. apply Glow; lia.
    + rewrite (get32_ext _ a1); [apply Ha1|]. unfold a_type. intros j Hj. apply Glow; lia.
  - split; unfold a_value_offset, a_value_length; rewrite Fvo, ?Fvl; lia.
  - unfold attr_value, a_value_offset, a_value_length. rewrite Fvo, Fvl, Nat2Z.id. fold vo old.
    apply bytes_eq; [len|]. intros j Hj. rewrite length_take, length_drop in Hj. rewrite !get8_take, get8_drop, Gs, Gb by lia.
    destruct (decide (j < old)%nat) as [Hjo|Hjo].
    + rewrite bool_decide_eq_false_2 by lia. rewrite get8_app_l by (rewrite length_take, length_drop; lia).
      rewrite get8_take, get8_drop by lia. apply Hres; lia.
    + rewrite bool_decide_eq_true_2 by lia. symmetry.
      assert (length (take old (drop vo a)) = old) as Lv by len.
      replace j with (length (take old (drop vo a)) + (j - old))%nat by lia. rewrite get8_app_r. apply get8_replicate.
  - intros j Hj Hj'. rewrite Glow by lia. apply Hres; lia.
Qed.

(** An attribute record is replaced by one of the same size. *)
Lemma mft_ok_replace h l1 a a' l2 fin spare :
  mft_ok (mk_mft h (l1 ++ a :: l2) fin spare) → attr_ok a' → length a' = length a →
  mft_ok (mk_mft h (l1 ++ a' :: l2) fin spare).
Proof.
  intros [H1 H2 H3 H4 H5 H6 H7 H8 H9 H10] Ha Hl. cbn [m_head m_attrs m_fin m_spare] in *.
  apply list.Forall_app in H4 as [H4 [_ H4']%list.Forall_cons].
  assert (length (concat (l1 ++ a' :: l2)) = length (concat (l1 ++ a :: l2))) as Hc
    by (rewrite !concat_app; cbn [concat]; rewrite !length_app, Hl; done).
  split; cbn [m_head m_attrs m_fin m_spare]; rewrite ?Hc; try done.
  - apply list.Forall_app. split; [done|by constructor].
  - rewrite H10. unfold mft_bytes. cbn [m_head m_attrs m_fin m_spare]. by rewrite !length_app, Hc.
Qed.

(** C29: resizing the value of a resident attribute: either the record has no space for it and is unchanged, or the
    record stays well formed, the attribute keeps its other fields and its name, the value is cut off or extended with zeroes, and
    the other attributes are unchanged. *)
Theorem ntfs_resident_attr_value_resize_spec r l1 a l2 new_size :
  mft_ok r → m_attrs r = l1 ++ a :: l2 → resident_ok a → 0 ≤ new_size →
  Z.of_nat (length (mft_bytes r)) + get16 a a_value_offset + new_size + 7 < 2 ^ 32 →
  let n := Z.to_nat (round8 (get16 a a_value_offset + new_size)) in
  let m := ntfs_resident_attr_value_resize (mft_bytes r) (attr_ofs r l1) new_size in
  (length a + length (m_spare r) < n)%nat ∧ m = Ret (ENOSPC, mft_bytes r) ∨
  (n ≤ length a + length (m_spare r))%nat ∧ ∃ r' a', m = Ret (0, mft_bytes r') ∧ mft_ok r' ∧
    m_attrs r' = l1 ++ a' :: l2 ∧ m_fin r' = m_fin r ∧ length a' = n ∧ resident_ok a' ∧
    attr_value a' = take (Z.to_nat new_size) (attr_value a ++ replicate (Z.to_nat new_size) 0) ∧
    ∀ j, (j < Z.to_nat (get16 a a_value_offset))%nat → (j < 4 ∨ 8 ≤ j < 16 ∨ 20 ≤ j)%nat → get8 a' j = get8 a j.
Proof.
  intros Hr E Hra H0 Hmax n m. subst m. pose proof (attr_ok_in _ _ _ _ Hr E) as Ha. pose proof (attr_size _ Ha) as Hsa.
  assert (mft_bytes r = (m_head r ++ concat l1) ++ a ++ concat l2 ++ m_fin r ++ m_spare r) as Em.
  { unfold mft_bytes. rewrite E, concat_app. cbn [concat]. by app_norm. }
  assert (attr_ofs r l1 = length (m_head r ++ concat l1)) as Eo by (unfold attr_ofs; len).
  assert (le32_at (mft_bytes r) (attr_ofs r l1 + a_value_length) = Ret (get32 a a_value_length) ∧
    le16_at (mft_bytes r) (attr_ofs r l1 + a_value_offset) = Ret (get16 a a_value_offset)) as [Evl Evo].
  { rewrite Em, Eo, le32_part, le16_part by in_layout. done. }
  unfold ntfs_resident_attr_value_resize. rewrite Evl, Evo. cbn [mbind outcome_bind].
  pose proof (get16_range a a_value_offset (attr_bytes _ Ha)) as Hr16. pose proof (get32_range a a_value_length (attr_bytes _ Ha)) as Hr32.
  destruct Hra as [Hvo Hvl]. rewrite uwrap_id by lia.
  destruct (resize_spec r l1 a l2 (get16 a a_value_offset + new_size)) as [[Hsp ->]|(Hsp & h & a1 & spare & -> & Hr1 & Hla1 & Hlh & Hres)];
    [done|done|lia|lia|by left|right]. split; [done|]. cbn [mbind outcome_bind Z.eqb negb].
  set (r1 := mk_mft h (l1 ++ a1 :: l2) (m_fin r) spare) in *. pose proof (attr_ok_in r1 _ _ _ Hr1 eq_refl) as Ha1.
  pose proof (attr_size _ Ha1) as Hsa1. fold n in Hla1.
  assert (get16 a a_value_offset + new_size ≤ Z.of_nat n) as Hfit by (unfold n, round8; zdiv).
  destruct (new_value_spec a a1 (Z.to_nat new_size)) as (Hok & Hl & Hro & Hval & Hkeep); [done..|apply Ha|lia|lia|].
  set (old := Z.to_nat (get32 a a_value_length)) in *. set (a2 := new_value a1 old (Z.to_nat new_size)) in *.
  set (q := concat l2 ++ m_fin r ++ spare).
  assert (∀ b, mft_bytes (mk_mft h (l1 ++ b :: l2) (m_fin r) spare) = (h ++ concat l1) ++ b ++ q) as Em1.
  { intros b. unfold mft_bytes, q. cbn [m_head m_attrs m_fin m_spare]. rewrite concat_app. cbn [concat]. by app_norm. }
  exists (mk_mft h (l1 ++ a2 :: l2) (m_fin r) spare), a2. split_and!; try done.
  - assert (attr_ofs r l1 = length (h ++ concat l1)) as Eo1 by (unfold attr_ofs; rewrite length_app; lia).
    unfold r1. rewrite !Em1, Eo1. unfold a2, new_value, put32.
    assert ((old <? Z.to_nat new_size)%nat = (get32 a a_value_length <? new_size)) as ->
      by (unfold old; destruct (Nat.ltb_spec (Z.to_nat (get32 a a_value_length)) (Z.to_nat new_size)), (Z.ltb_spec (get32 a a_value_length) new_size); done || lia).
    destruct (Z.ltb_spec (get32 a a_value_length) new_size) as [Hlt|Hge]; cbn [mbind outcome_bind].
    + assert (get16 a1 a_value_offset = get16 a a_value_offset) as Evo1
        by (unfold get16, a_value_offset in *; rewrite !Hres by lia; done).
      rewrite le16_part by in_layout. cbn [mbind outcome_bind]. rewrite Evo1, <- Nat.add_assoc, memset_splice by (unfold old; lia).
      cbn [mbind outcome_bind]. replace (Z.to_nat (new_size - _)) with (Z.to_nat new_size - old)%nat by (unfold old; lia).
      rewrite put_part by (rewrite length_splice; rewrite ?length_replicate; [in_layout|unfold old; lia]).
      cbn [mbind outcome_bind]. by rewrite Z2Nat.id.
    + rewrite put_part by in_layout. cbn [mbind outcome_bind]. by rewrite Z2Nat.id.
  - by eapply mft_ok_replace.
  - lia.
Qed.

(** ** Laying out a record *)

(** Where the attributes begin in a record of the given size. *)
Definition first_attr (record_size : Z) : Z := round8 (48 + 2 * (1 + record_size / 512)).

Lemma le16_head0 h q k : (k + 2 ≤ length h)%nat → le16_at (h ++ q) k = Ret (get16 h k).
Proof. apply (le16_part [] h q k). Qed.

Ltac in_header :=
  rewrite ?le_bytes_length;
  unfold m_magic, m_usa_ofs, m_usa_count, m_sequence_number, m_attrs_offset, m_flags, m_bytes_in_use, m_bytes_allocated,
    m_next_attr_instance, m_mft_record_number in *; lia.
Ltac store_head E a :=
  rewrite put_head by in_header; cbn [mbind outcome_bind];
  match goal with
  | |- context [splice ?m ?i ?bs] =>
      is_var m; let L := fresh "L" in remember (splice m i bs) as a eqn:E;
      assert (length a = length m) as L by (rewrite E; apply length_splice; in_header)
  end.
Ltac head_step :=
  first
  [ rewrite get32_splice by in_header | rewrite get16_splice by in_header
  | rewrite get32_splice_other by in_header | rewrite get16_splice_other by in_header ].
Ltac head_stage := match goal with E : ?a = splice _ _ _ |- context [?a] => rewrite E; head_step end.

(** The store of the offset of the update sequence array, and of the number of the record. *)
Lemma lay_out_start h0 q new mft_no :
  (56 ≤ length h0)%nat → bytes h0 → (∀ k, get16 h0 k = 0) →
  ∃ h1, (if new : bool then put (h0 ++ q) m_usa_ofs (le_bytes 2 48)
     else m ← put (h0 ++ q) m_usa_ofs (le_bytes 2 48); put m m_mft_record_number (le_bytes 4 mft_no)) = Ret (h1 ++ q) ∧
    length h1 = length h0 ∧ bytes h1 ∧ get16 h1 m_usa_ofs = 48 ∧ get16 h1 m_next_attr_instance = 0 ∧ get16 h1 m_flags = 0.
Proof.
  intros H56 B0 G0. rewrite put_head by in_header.
  pose proof (length_splice h0 m_usa_ofs (le_bytes 2 48) ltac:(in_header)) as L1.
  destruct new; cbn [mbind outcome_bind].
  - eexists. split; [done|]. split; [done|]. split; [apply bytes_splice; [done|apply bytes_le_bytes]|]. split_and!; head_step; done.
  - rewrite put_head by in_header. eexists. split; [done|].
    split; [rewrite length_splice; in_header|]. split; [repeat (apply bytes_splice; [|apply bytes_le_bytes]); done|].
    split_and!; head_step; head_step; done.
Qed.

Lemma lay_out_spec record_size major_ver minor_ver mft_no m :
  512 ≤ record_size ≤ 2 ^ 16 → mft_no < 2 ^ 32 → Z.of_nat (length m) = record_size →
  ∃ r, ntfs_mft_record_lay_out record_size major_ver minor_ver mft_no m = Ret (0, mft_bytes r) ∧ mft_ok r ∧
    m_attrs r = [] ∧ m_spare r = replicate (Z.to_nat (record_size - first_attr record_size - 8)) 0 ∧
    get16 (m_head r) m_next_attr_instance = 0 ∧ get16 (m_head r) m_usa_ofs = 48 ∧ get16 (m_head r) m_sequence_number = 1 ∧
    get16 (m_head r) 48 = 1 ∧ get16 (m_head r) m_flags = 0 ∧ length (m_head r) = Z.to_nat (first_attr record_size).
Proof.
  intros Hs Hno Hm. set (ao := Z.to_nat (first_attr record_size)).
  assert (56 ≤ first_attr record_size < 400 ∧ 2 * (1 + record_size / 512) + 48 ≤ first_attr record_size) as Hao
    by (unfold first_attr, round8; zdiv).
  set (n := Z.to_nat (record_size - first_attr record_size - 8)).
  assert (replicate (Z.to_nat record_size) 0 = replicate ao 0 ++ replicate 8 0 ++ replicate n 0) as Em.
  { rewrite <- !replicate_add. f_equal. unfold ao, n. lia. }
  unfold ntfs_mft_record_lay_out, NTFS_BLOCK_SIZE. rewrite (proj2 (Z.leb_gt _ _)), (proj2 (Z.ltb_ge _ _)) by lia.
  rewrite memset_Ret by lia. cbn [mbind outcome_bind take Nat.add app]. rewrite drop_ge, app_nil_r, Em by lia.
  set (q := replicate 8 0 ++ replicate n 0). pose proof (length_replicate ao 0) as L0.
  remember (replicate ao 0) as h0 eqn:E0. assert (56 ≤ length h0)%nat as H56 by (rewrite L0; unfold ao; lia).
  change (Z.land (sizeof_MFT_RECORD_OLD + 1) (Z.lnot 1)) with 48. change (Z.land (sizeof_MFT_RECORD + 1) (Z.lnot 1)) with 48.
  rewrite take_0. cbn [app]. unfold put32, put16.
  destruct (lay_out_start h0 q ((major_ver <? 3) || (major_ver =? 3) && (minor_ver =? 0)) (u32 mft_no))
    as (h1 & -> & L1 & B1 & F1 & G1 & K1);
    [done|rewrite E0; apply bytes_replicate|intros k; rewrite E0; unfold get16; by rewrite !get8_replicate|].
  cbn [mbind outcome_bind]. store_head E2 h2. store_head E3 h3.
  assert (0 ≤ 1 + record_size / 512 < 2 ^ 16) as Hcnt by zdiv.
  rewrite le16_head0 by in_header. cbn [mbind outcome_bind].
  assert (get16 h3 m_usa_ofs = 48) as -> by (repeat head_stage; done). change (Z.to_nat 48) with 48%nat.
  store_head E4 h4. store_head E5 h5. rewrite !le16_head0 by in_header. cbn [mbind outcome_bind].
  assert (get16 h5 m_usa_ofs = 48) as -> by (repeat head_stage; done).
  assert (get16 h5 m_usa_count = 1 + record_size / 512) as -> by (by repeat head_stage).
  rewrite Z.shiftl_mul_pow2, land_round8 by lia.
  replace (round8 (48 + (1 + record_size / 512) * 2 ^ 1)) with (first_attr record_size) by (unfold first_attr; f_equal; lia).
  store_head E6 h6. rewrite !le16_head0 by in_header. cbn [mbind outcome_bind].
  assert (get16 h6 m_attrs_offset = first_attr record_size) as -> by (by repeat head_stage).
  store_head E7 h7. store_head E8 h8. rewrite !le16_head0 by in_header. cbn [mbind outcome_bind].
  assert (get16 h8 m_attrs_offset = first_attr record_size) as Fao by (by repeat head_stage). rewrite Fao. fold ao.
  assert (length h8 = ao) as L8 by lia. rewrite <- L8. unfold q. rewrite put_part by (rewrite length_replicate; in_layout).
  cbn [mbind outcome_bind].
  exists (mk_mft h8 [] (splice (replicate 8 0) a_type (le_bytes 4 AT_END)) (replicate n 0)).
  split; [done|]. cbn [m_head m_attrs m_spare]. split_and!; [|done|done|by repeat head_stage..|done].
  split; cbn [m_head m_attrs m_fin m_spare]; try done; try lia.
  - rewrite E8, E7, E6, E5, E4, E3, E2. repeat (apply bytes_splice; [|apply bytes_le_bytes]). done.
  - apply bytes_splice; [apply bytes_replicate|apply bytes_le_bytes].
  - apply bytes_replicate.
  - assert (get32 h8 m_bytes_in_use = first_attr record_size + 8) as -> by (by repeat head_stage).
    rewrite L8. cbn. unfold ao. lia.
  - assert (get32 h8 m_bytes_allocated = record_size) as -> by (by repeat head_stage). unfold mft_bytes. cbn [m_head m_attrs m_fin m_spare concat app].
    rewrite !length_app, length_splice, !length_replicate, L8 by (rewrite length_replicate; in_layout). unfold ao, n. lia.
Qed.

(** ** A sample record *)

(** A record of 512 bytes with an attribute of type 0x10, an unnamed one of type 0x80, and one named b. *)
Definition sample_attrs : list (list Z) := [resident_attr 0x10 0 [] 48; resident_attr 0x80 1 [] 5; resident_attr 0x80 2 [98] 3].
Definition sample_head : list Z :=
  let h := splice (replicate 56 0) m_attrs_offset (le_bytes 2 56) in
  let h := splice h m_bytes_in_use (le_bytes 4 208) in
  let h := splice h m_bytes_allocated (le_bytes 4 512) in
  splice h m_next_attr_instance (le_bytes 2 3).
Definition sample_mft : mft := mk_mft sample_head sample_attrs (le_bytes 4 AT_END ++ replicate 4 0) (replicate 304 0).

Lemma sample_mft_ok : mft_ok sample_mft.
Proof.
  assert (∀ m, bool_decide (Forall (λ b, 0 ≤ b < 256) m) = true → bytes m) as Hb by (intros m; apply bool_decide_eq_true_1).
  split; try (by vm_compute); try (apply Hb; by vm_compute); [vm_compute; lia|].
  repeat constructor; try (by vm_compute); try (apply Hb; by vm_compute); vm_compute; lia.
Qed.

Lemma ntfs_resident_attr_value_resize_spec_witness :
  ∃ r' a', ntfs_resident_attr_value_resize (mft_bytes sample_mft) 128 20 = Ret (0, mft_bytes r') ∧ mft_ok r' ∧
    m_attrs r' = [resident_attr 0x10 0 [] 48; a'; resident_attr 0x80 2 [98] 3] ∧ attr_value a' = replicate 20 0.
Proof.
  destruct (ntfs_resident_attr_value_resize_spec sample_mft [resident_attr 0x10 0 [] 48] (resident_attr 0x80 1 [] 5)
    [resident_attr 0x80 2 [98] 3] 20 sample_mft_ok) as [[H _]|(_ & r' & a' & H1 & H2 & H3 & _ & _ & _ & H4 & _)];
    [done|split; by vm_compute|done|by vm_compute| |].
  - exfalso. revert H. vm_compute. lia.
  - exists r', a'. split; [exact H1|]. split; [exact H2|]. split; [exact H3|]. rewrite H4. by vm_compute.
Defined.
