(* ===== verification/AttrFind.v ===== *)
(** * Finding attributes in an mft record

    [ntfs_attr_find_in_mft_record] of [kext/ntfs_attr.c]: it walks over the attribute
    records, which are sorted by type, name and value. *)

From S2P Require Import Prelude Bytes Unistr Collate MftRecord.

(** ** Operations *)

Definition AT_UNUSED : Z := 0.

(** The name to look for: NULL, [AT_UNNAMED] or a name. *)
Inductive name_arg := any_name | AT_UNNAMED | some_name (name : list Z).

(** What a comparison says about an attribute record: it is the one, the search is over, it goes
    on, or the record is corrupt. *)
Inductive verdict := found | not_found | go_on | corrupt.

Section find.
Context (case_sensitive : bool) (upcase : list Z).

(** The order of the name to look for and the name [a_name], which is not equal. *)
Definition collate_verdict (name a_name : list Z) : verdict :=
  let rc := ntfs_collate_names name a_name 1 false upcase in
  if rc =? -1 then not_found else
  if negb (rc =? 0) then go_on else
  let rc := ntfs_collate_names name a_name 1 true upcase in
  if rc =? -1 then not_found else
  if negb (rc =? 0) then go_on else found.

(** The comparison with the name of the record at [a]. *)
Definition compare_name (name : list Z) (m : list Z) (a : nat) : outcome verdict :=
  len ← rd m (a + a_name_length);
  ofs ← le16_at m (a + a_name_offset);
  length ← le32_at m (a + a_length);
  if length <? ofs + len * 2 then Ret corrupt else
  a_name ← le16s_at m (a + Z.to_nat ofs) (Z.to_nat len);
  equal ← ntfs_are_names_equal name a_name case_sensitive upcase;
  Ret (if (equal : bool) then found else collate_verdict name a_name).

(** The comparison with the value of the record at [a]. *)
Definition compare_value (val : list Z) (m : list Z) (a : nat) : outcome verdict :=
  len ← le32_at m (a + a_value_length);
  ofs ← le16_at m (a + a_value_offset);
  length ← le32_at m (a + a_length);
  if length <? u32 (ofs + len) then Ret corrupt else
  let val_len := Z.of_nat (List.length val) in
  rc ← memcmp val (drop (a + Z.to_nat ofs) m) (Z.to_nat (if len <=? val_len then len else val_len));
  if rc =? 0 then
    if val_len =? len then Ret found else
    if val_len <? len then Ret not_found else Ret go_on
  else if rc <? 0 then Ret not_found else Ret go_on.

(** One round of the search, for the record at [a] and its type [t]. *)
Definition compare_attr (is_iteration : bool) (type : Z) (name : name_arg) (val : option (list Z)) (m : list Z) (a : nat)
    : outcome verdict :=
  t ← le32_at m (a + a_type);
  if (negb is_iteration || negb (type =? AT_UNUSED)) && (type <? t) || (t =? AT_END) then Ret not_found else
  length ← le32_at m (a + a_length);
  if length =? 0 then Ret corrupt else
  if is_iteration && ((type =? AT_UNUSED) || (type =? t)) then Ret found else
  if negb (t =? type) then Ret go_on else
  v ← match name with
      | any_name => Ret found
      | AT_UNNAMED => n ← rd m (a + a_name_length); Ret (if negb (n =? 0) then not_found else found)
      | some_name name => compare_name name m a
      end;
  match v, val with
  | found, Some val => compare_value val m a
  | _, _ => Ret v
  end.

(** The loop; the result is the errno and [ctx->a]. *)
Fixpoint find_loop (fuel : nat) (is_iteration : bool) (type : Z) (name : name_arg) (val : option (list Z)) (m : list Z)
    (a ctx_a : nat) : outcome (Z * nat) :=
  match fuel with
  | O => Oob
  | S fuel =>
      alloc ← le32_at m m_bytes_allocated;
      if alloc <? Z.of_nat a then Ret (EIO, ctx_a) else
      v ← compare_attr is_iteration type name val m a;
      match v with
      | found => Ret (0, a)
      | not_found => Ret (ENOENT, a)
      | corrupt => Ret (EIO, a)
      | go_on =>
          length ← le32_at m (a + a_length);
          find_loop fuel is_iteration type name val m (a + Z.to_nat length) a
      end
  end.

(** The search context: the attribute record, and whether the search begins with it. *)
Record search_ctx := mk_ctx { ctx_a : nat; is_first : bool; is_iteration : bool }.

(** The records have at least one byte, so there are no more rounds than bytes.  The result is the
    errno, the new context, and whether errors are noted on the volume. *)
Definition ntfs_attr_find_in_mft_record (type : Z) (name : name_arg) (val : option (list Z)) (m : list Z) (ctx : search_ctx)
    : outcome (Z * search_ctx * bool) :=
  a ← (if is_first ctx then Ret (ctx_a ctx)
       else length ← le32_at m (ctx_a ctx + a_length); Ret (ctx_a ctx + Z.to_nat length)%nat);
  alloc ← le32_at m m_bytes_allocated;
  '(err, a) ← find_loop (S (S (Z.to_nat alloc))) (is_iteration ctx) type name val m a (ctx_a ctx);
  Ret (err, mk_ctx a false (is_iteration ctx), err =? EIO).

Definition ntfs_attr_search_ctx_init (m : list Z) : outcome search_ctx :=
  attrs_offset ← le16_at m m_attrs_offset;
  Ret (mk_ctx (Z.to_nat attrs_offset) true false).

(** A search with a new context. *)
Definition find_first (type : Z) (name : name_arg) (val : option (list Z)) (m : list Z) : outcome (Z * search_ctx * bool) :=
  ctx ← ntfs_attr_search_ctx_init m;
  ntfs_attr_find_in_mft_record type name val m ctx.
End find.

(** Read the fields of the attribute record in the middle. *)
Ltac fields := rewrite ?rd_part, ?le16_part, ?le32_part by in_layout; cbn [mbind outcome_bind].

(** ** The order of the attributes *)

(** The characters of a name to look for are legal and not NUL. *)
Definition search_name (upcase name : list Z) : Prop :=
  legal_name upcase name ∧ Forall (λ c, c ≠ 0 ∧ upcase_char upcase c ≠ 0) name.

Lemma until_nul_id s : Forall (λ c, c ≠ 0) s → until_nul s = s.
Proof. induction 1 as [|c s Hc Hs IH]; cbn; [done|]. rewrite (proj2 (Z.eqb_neq c 0)) by done. by rewrite IH. Qed.

Lemma until_nul_full s : (length s ≤ length (until_nul s))%nat → until_nul s = s.
Proof.
  induction s as [|c s IH]; cbn; [done|]. destruct (c =? 0); cbn; [lia|]. intros H. rewrite IH by lia. done.
Qed.

Section order.
Context (case_sensitive : bool) (upcase : list Z).

(** How a name compares to the one of an attribute. *)
Definition name_order (name a_name : list Z) : Z :=
  let up s := ntfs_upcase_name s upcase in
  if case_sensitive then lex2 (up name) name (up a_name) a_name else lex (up name) (up a_name).

(** How the name and the value that are looked for compare to the attribute [a] of the same type. *)
Definition name_arg_order (name : name_arg) (a : list Z) : Z :=
  match name with
  | any_name => 0
  | AT_UNNAMED => match attr_name a with [] => 0 | _ => -1 end
  | some_name name => name_order name (attr_name a)
  end.
Definition key_order (name : name_arg) (val : option (list Z)) (a : list Z) : Z :=
  if name_arg_order name a =? 0 then
    match val with
    | None => 0
    | Some val => lex val (attr_value a)
    end
  else name_arg_order name a.

(** How the attribute that is looked for compares to [a]. *)
Definition target_order (is_iteration : bool) (type : Z) (name : name_arg) (val : option (list Z)) (a : list Z) : Z :=
  let t := get32 a a_type in
  if is_iteration && (type =? AT_UNUSED) then 0 else
  if type <? t then -1 else
  if t <? type then 1 else
  if is_iteration then 0 else key_order name val a.

Definition verdict_of (c : Z) : verdict := if c =? 0 then found else if c <? 0 then not_found else go_on.

(** The name lies inside of the record. *)
Definition name_ok (a : list Z) : Prop :=
  get16 a a_name_offset + 2 * get8 a a_name_length ≤ Z.of_nat (length a).

Lemma name_order_range name a_name :
  name_order name a_name = -1 ∨ name_order name a_name = 0 ∨ name_order name a_name = 1.
Proof. unfold name_order, lex2. repeat case_match; apply lex_range. Qed.

(** [ntfs_are_names_equal] decides whether the order is zero. *)
Lemma names_equal_order name a_name :
  search_name upcase name →
  ntfs_are_names_equal name a_name case_sensitive upcase = Ret (name_order name a_name =? 0).
Proof.
  intros [_ Hn]. destruct (ntfs_are_names_equal_spec name a_name case_sensitive upcase) as (b & -> & Hb). f_equal.
  apply eq_bool_prop_intro. rewrite !Is_true_true, Z.eqb_eq, Hb. unfold name_order.
  set (up s := if case_sensitive then s else ntfs_upcase_name s upcase).
  transitivity (up name = up a_name).
  2: { unfold up. destruct case_sensitive; [by rewrite (lex2_eq (λ s, ntfs_upcase_name s upcase))|by rewrite lex_eq]. }
  assert (∀ s, length (up s) = length s) as Hlen.
  { intros s. unfold up, ntfs_upcase_name. by destruct case_sensitive; rewrite ?length_fmap. }
  assert (until_nul (up name) = up name) as Hup.
  { apply until_nul_id. unfold up, ntfs_upcase_name.
    destruct case_sensitive; [|apply list.Forall_fmap]; (eapply list.Forall_impl; [done|]); cbn; tauto. }
  change (length name = length a_name ∧ until_nul (up name) = until_nul (up a_name) ↔ up name = up a_name).
  rewrite Hup. split.
  - intros [Hl E]. rewrite E. apply until_nul_full. rewrite <- E, !Hlen. lia.
  - intros E. rewrite <- E, Hup. split; [|done]. rewrite <- (Hlen name), <- (Hlen a_name). by rewrite E.
Qed.

(** The characters of the name are read from the record. *)
Lemma le16s_part p a q i n :
  (i + 2 * n ≤ length a)%nat →
  le16s_at (p ++ a ++ q) (length p + i) n = Ret ((λ k, get16 a (i + 2 * k)%nat) <$> seq 0 n).
Proof.
  revert i. induction n as [|n IH]; intros i Hi; [done|]. cbn [le16s_at].
  rewrite le16_part by lia. cbn [mbind outcome_bind]. rewrite <- Nat.add_assoc, IH by lia. cbn [mbind outcome_bind seq fmap list_fmap].
  rewrite <- fmap_S_seq, <- list_fmap_compose. do 2 f_equal; [f_equal; lia|]. apply list_fmap_ext. intros j k _. cbn. f_equal. lia.
Qed.

Lemma collate_verdict_spec name a_name : search_name upcase name → name_order name a_name ≠ 0 → collate_verdict upcase name a_name = verdict_of (name_order name a_name).
Proof.
  intros Hs Hne. unfold collate_verdict. pose proof (name_order_range name a_name) as Hrange. unfold verdict_of. rewrite (proj2 (Z.eqb_neq (name_order name a_name) 0)) by done.
  rewrite !collate_names_lex by apply Hs. unfold name_order, lex2 in *. cbv zeta in *.
  destruct (lex_range (ntfs_upcase_name name upcase) (ntfs_upcase_name a_name upcase)) as [H1|[H1|H1]];
    rewrite H1 in *; cbn [Z.eqb negb Z.ltb Z.compare]; [by destruct case_sensitive| |by destruct case_sensitive].
  destruct case_sensitive; [|done]. cbn [Z.eqb] in *. by destruct Hrange as [-> | [? | ->]].
Qed.
Lemma name_verdict_spec name a_name : search_name upcase name →
  (if name_order name a_name =? 0 then found else collate_verdict upcase name a_name) = verdict_of (name_order name a_name).
Proof. intros Hs. destruct (Z.eqb_spec (name_order name a_name) 0) as [E|E]; [by rewrite E|by apply collate_verdict_spec]. Qed.

Lemma compare_name_spec p a q name :
  attr_ok a → name_ok a → search_name upcase name →
  compare_name case_sensitive upcase name (p ++ a ++ q) (length p) = Ret (verdict_of (name_order name (attr_name a))).
Proof.
  intros Ha Hn Hs. pose proof (attr_size _ Ha) as Hsz. unfold name_ok in Hn.
  pose proof (get8_range a a_name_length (attr_bytes _ Ha)). pose proof (get16_range a a_name_offset (attr_bytes _ Ha)).
  unfold compare_name. fields. rewrite (attr_length _ Ha), (proj2 (Z.ltb_ge _ _)) by lia.
  rewrite le16s_part by lia. fold (attr_name a). cbn [mbind outcome_bind]. rewrite names_equal_order by done. cbn [mbind outcome_bind]. by rewrite name_verdict_spec.
Qed.

Lemma memcmp_app s v q n : (n ≤ length v)%nat → memcmp s (v ++ q) n = memcmp s v n.
Proof.
  revert s v. induction n as [|n IH]; intros s v Hn; [by destruct s|]. destruct v as [|y v]; cbn [length] in Hn; [lia|].
  destruct s as [|x s]; [done|]. cbn [app memcmp]. destruct (negb _); [done|]. apply IH. lia.
Qed.

Lemma length_attr_value a : bytes a → resident_ok a → Z.of_nat (length (attr_value a)) = get32 a a_value_length.
Proof.
  intros Hb [H1 H2]. pose proof (get32_range a a_value_length Hb). unfold attr_value. rewrite length_take, length_drop. lia.
Qed.

Lemma compare_value_spec p a q val :
  attr_ok a → resident_ok a →
  compare_value val (p ++ a ++ q) (length p) = Ret (verdict_of (lex val (attr_value a))).
Proof.
  intros Ha Hr. pose proof (attr_size _ Ha) as Hsz. pose proof (length_attr_value a (attr_bytes _ Ha) Hr) as Hv.
  destruct Hr as [Hofs Hin]. pose proof (get32_range a a_length (attr_bytes _ Ha)) as Hmax.
  pose proof (attr_length _ Ha) as Hal. pose proof (get32_range a a_value_length (attr_bytes _ Ha)). unfold compare_value.
  fields. rewrite uwrap_id, (proj2 (Z.ltb_ge _ _)) by lia.
  assert (drop (length p + Z.to_nat (get16 a a_value_offset)) (p ++ a ++ q) =
    attr_value a ++ drop (Z.to_nat (get32 a a_value_length)) (drop (Z.to_nat (get16 a a_value_offset)) a) ++ q) as ->.
  { rewrite drop_app_add, drop_app_le by lia. unfold attr_value. by rewrite (assoc_L (++)), take_drop. }
  rewrite <- Hv. destruct (memcmp_lex val (attr_value a)) as (rc & Hrc & Hlex).
  match goal with |- context [memcmp _ _ ?n] => replace n with (min (length val) (length (attr_value a))) by (ztests; lia) end.
  rewrite memcmp_app, Hrc by lia. cbn [mbind outcome_bind]. unfold verdict_of.
  destruct (Z.eqb_spec rc 0) as [-> |Hne]; rewrite Hlex.
  - destruct (Z.eqb_spec (Z.of_nat (length val)) (Z.of_nat (length (attr_value a)))), (Nat.ltb_spec (length val) (length (attr_value a)));
      try lia; destruct (Nat.eqb_spec (length val) (length (attr_value a))); try lia; ztests; done || lia.
  - destruct (Z.sgn_spec rc) as [[Hs ->]|[[Hs ->]|[Hs ->]]]; ztests; done || lia.
Qed.

(** What the search needs to know of the attribute [a]. *)
Definition searchable (type : Z) (name : name_arg) (val : option (list Z)) (a : list Z) : Prop :=
  get32 a a_type = type →
  match name with some_name name => name_ok a ∧ search_name upcase name | _ => True end ∧
  match val with Some _ => resident_ok a | None => True end.

Lemma key_order_verdict name val a v :
  (name_arg_order name a = -1 ∨ name_arg_order name a = 0 ∨ name_arg_order name a = 1) →
  (∀ x, val = Some x → v = Ret (verdict_of (lex x (attr_value a)))) →
  match verdict_of (name_arg_order name a), val with
  | found, Some _ => v
  | w, _ => Ret w
  end = Ret (verdict_of (key_order name val a)).
Proof.
  intros Hr Hv. unfold key_order. destruct Hr as [-> | [-> | ->]]; cbn; [by destruct val| |by destruct val].
  destruct val; [by apply Hv|done].
Qed.

Lemma compare_attr_spec is_iteration type name val p a q :
  attr_ok a → searchable type name val a →
  compare_attr case_sensitive upcase is_iteration type name val (p ++ a ++ q) (length p) =
    Ret (verdict_of (target_order is_iteration type name val a)).
Proof.
  intros Ha Hs. pose proof (attr_size _ Ha) as Hsz. pose proof (attr_type _ Ha) as Ht. unfold compare_attr, target_order.
  fields. rewrite (proj2 (Z.eqb_neq _ AT_END)), orb_false_r by done.
  fields. rewrite (attr_length _ Ha), (proj2 (Z.eqb_neq (Z.of_nat _) 0)) by lia.
  destruct is_iteration; cbn [negb orb andb].
  { destruct (Z.eqb_spec type AT_UNUSED); cbn [negb andb orb]; [done|]. ztests; done || lia. }
  destruct (Z.ltb_spec type (get32 a a_type)); [done|].
  destruct (Z.ltb_spec (get32 a a_type) type); [by rewrite (proj2 (Z.eqb_neq _ _)) by lia|].
  rewrite (proj2 (Z.eqb_eq _ _)) by lia. cbn [negb].
  destruct Hs as [Hn Hv]; [lia|].
  assert (∀ x, val = Some x → compare_value x (p ++ a ++ q) (length p) = Ret (verdict_of (lex x (attr_value a)))) as Hcv.
  { intros x ->. by apply compare_value_spec. }
  assert (name_arg_order name a = -1 ∨ name_arg_order name a = 0 ∨ name_arg_order name a = 1) as Hrange.
  { destruct name; cbn [name_arg_order]; [by right; left| |apply name_order_range].
    destruct (attr_name a); [by right; left|by left]. }
  rewrite <- (key_order_verdict name val a (match val with Some x => compare_value x (p ++ a ++ q) (length p) | None => Oob end) Hrange)
    by (intros x ->; by apply Hcv).
  assert (match name with any_name => Ret found
    | AT_UNNAMED => Ret (if negb (get8 a a_name_length =? 0) then not_found else found)
    | some_name name => compare_name case_sensitive upcase name (p ++ a ++ q) (length p) end =
    Ret (verdict_of (name_arg_order name a))) as ->; [|cbn [mbind outcome_bind]; by destruct (verdict_of _), val].
  destruct name; cbn [name_arg_order]; [done| |destruct Hn; by apply compare_name_spec].
  unfold attr_name.
  pose proof (get8_range a a_name_length (attr_bytes _ Ha)).
  destruct (Z.eqb_spec (get8 a a_name_length) 0) as [-> |]; [done|].
  by destruct (Z.to_nat (get8 a a_name_length)) eqn:?; [lia|].
Qed.
End order.

(** ** The search *)

(** The errno of the search in the list of attribute records, and the number of records before the one it ends at. *)
Fixpoint list_search (order : list Z → Z) (attrs : list (list Z)) : Z * nat :=
  match attrs with
  | [] => (ENOENT, 0%nat)
  | a :: attrs =>
      match verdict_of (order a) with
      | found => (0, 0%nat)
      | go_on => let '(err, k) := list_search order attrs in (err, S k)
      | _ => (ENOENT, 0%nat)
      end
  end.

Section walk.
Context (case_sensitive : bool) (upcase : list Z) (iteration : bool) (type : Z) (name : name_arg) (val : option (list Z)).
Abbreviation order := (target_order case_sensitive upcase iteration type name val).
Abbreviation loop fuel m := (find_loop case_sensitive upcase fuel iteration type name val m).

Lemma mft_bytes_split r l1 x l2 :
  m_attrs r = l1 ++ x :: l2 → mft_bytes r = (m_head r ++ concat l1) ++ x ++ concat l2 ++ m_fin r ++ m_spare r.
Proof. intros E. unfold mft_bytes. rewrite E, concat_app. cbn [concat]. by app_norm. Qed.

Lemma attr_ofs_length r l : attr_ofs r l = length (m_head r ++ concat l).
Proof. unfold attr_ofs. by rewrite length_app. Qed.

Lemma attr_ofs_snoc r l x : attr_ofs r (l ++ [x]) = (attr_ofs r l + length x)%nat.
Proof. unfold attr_ofs. rewrite concat_app, length_app. cbn [concat]. rewrite app_nil_r. lia. Qed.

Lemma attr_length_at r l1 x l2 :
  mft_ok r → m_attrs r = l1 ++ x :: l2 → le32_at (mft_bytes r) (attr_ofs r l1 + a_length) = Ret (Z.of_nat (length x)).
Proof.
  intros Hr E. pose proof (attr_ok_in _ _ _ _ Hr E) as Hx. pose proof (attr_size _ Hx).
  rewrite (mft_bytes_split r l1 x l2 E), attr_ofs_length. fields. by rewrite (attr_length _ Hx).
Qed.

(** The end marker ends every search. *)
Lemma compare_end r :
  mft_ok r →
  compare_attr case_sensitive upcase iteration type name val (mft_bytes r) (attr_ofs r (m_attrs r)) = Ret not_found.
Proof.
  intros Hr. pose proof (ok_fin_size _ Hr) as Hf. unfold compare_attr.
  assert (mft_bytes r = (m_head r ++ concat (m_attrs r)) ++ m_fin r ++ m_spare r) as -> by (unfold mft_bytes; by app_norm).
  rewrite attr_ofs_length. rewrite (le32_part _ _ _ a_type) by (unfold a_type; lia). cbn [mbind outcome_bind].
  by rewrite (ok_fin_type _ Hr), orb_true_r.
Qed.

Lemma loop_spec r l1 l2 fuel ctx_a :
  mft_ok r → m_attrs r = l1 ++ l2 → Forall (searchable upcase type name val) l2 → (length l2 < fuel)%nat →
  loop fuel (mft_bytes r) (attr_ofs r l1) ctx_a =
    Ret (fst (list_search order l2), attr_ofs r (l1 ++ take (snd (list_search order l2)) l2)).
Proof.
  intros Hr. revert l1 fuel ctx_a. induction l2 as [|x l2 IH]; intros l1 [|fuel] c E Hs Hfuel; try (cbn in Hfuel; lia).
  all: assert (attr_ofs r l1 ≤ length (mft_bytes r))%nat as Hin
    by (rewrite length_mft_bytes, E, concat_app by done; unfold attr_ofs; len).
  all: cbn [find_loop]; rewrite bytes_allocated by done; cbn [mbind outcome_bind]; rewrite (proj2 (Z.ltb_ge _ _)) by lia.
  - rewrite app_nil_r in E. rewrite <- E, compare_end by done. cbn. by rewrite app_nil_r.
  - apply list.Forall_cons in Hs as [Hx Hs]. rewrite (mft_bytes_split r l1 x l2 E) at 1. rewrite (attr_ofs_length r l1) at 1.
    rewrite compare_attr_spec by (done || by eapply attr_ok_in). cbn [mbind outcome_bind list_search].
    destruct (verdict_of (order x)) eqn:Hv; cbn [fst snd take]; rewrite ?app_nil_r; try done.
    + rewrite (attr_length_at r l1 x l2) by done. cbn [mbind outcome_bind]. rewrite Nat2Z.id, <- attr_ofs_snoc.
      rewrite IH; [|by rewrite <- (assoc_L (++))|done|cbn in Hfuel; lia].
      destruct (list_search order l2) as [err k]. cbn [fst snd take]. by rewrite <- (assoc_L (++)).
    + exfalso. revert Hv. unfold verdict_of. by repeat case_match.
Qed.

Lemma le32_at_range m i x : bytes m → le32_at m i = Ret x → 0 ≤ x < 2 ^ 32.
Proof.
  intros Hb H. destruct (decide (i + 4 ≤ length m)%nat) as [Hin|Hout].
  - rewrite le32_get in H by done. injection H as <-. by apply get32_range.
  - exfalso. revert H. unfold le32_at, le16_at.
    destruct (rd m i) eqn:E1; [cbn [mbind outcome_bind]|done..]. destruct (rd m (i + 1)) eqn:E2; [cbn [mbind outcome_bind]|done..].
    destruct (rd m (i + 2)) eqn:E3; [cbn [mbind outcome_bind]|done..]. destruct (rd m (i + 2 + 1)) eqn:E4; [|done..].
    apply rd_inv, lookup_lt_Some in E4. lia.
Qed.

(** A round that goes on has found a length that is not zero. *)
Lemma compare_go_on m a :
  compare_attr case_sensitive upcase iteration type name val m a = Ret go_on →
  ∃ length, le32_at m (a + a_length) = Ret length ∧ length ≠ 0.
Proof.
  unfold compare_attr. destruct (le32_at m (a + a_type)) as [t| |]; cbn [mbind outcome_bind]; [|done..].
  case_match; [done|]. destruct (le32_at m (a + a_length)) as [len| |]; cbn [mbind outcome_bind]; [|done..].
  destruct (Z.eqb_spec len 0); [done|]. by exists len.
Qed.

Lemma le16s_reads m i n : (i + 2 * n ≤ length m)%nat → ∃ s, le16s_at m i n = Ret s.
Proof.
  revert i. induction n as [|n IH]; intros i H; [by exists []|]. cbn [le16s_at]. rewrite le16_get by lia. cbn [mbind outcome_bind].
  destruct (IH (i + 2)%nat) as [s ->]; [lia|]. by eexists.
Qed.

Lemma memcmp_reads s1 s2 n : (n ≤ length s1)%nat → (n ≤ length s2)%nat → ∃ rc, memcmp s1 s2 n = Ret rc.
Proof.
  revert s1 s2. induction n as [|n IH]; intros s1 s2 H1 H2; [exists 0; by destruct s1|].
  destruct s1 as [|x s1], s2 as [|y s2]; cbn [length] in *; try lia. cbn [memcmp]. destruct (negb _); [by eexists|]. apply IH; lia.
Qed.

Lemma compare_name_reads s m a :
  bytes m → Z.of_nat a + 66045 ≤ Z.of_nat (length m) → ∃ v, compare_name case_sensitive upcase s m a = Ret v.
Proof.
  intros Hb Hm. unfold compare_name. pose proof (get8_range m (a + a_name_length) Hb). pose proof (get16_range m (a + a_name_offset) Hb).
  rewrite rd_get, le16_get, le32_get by in_layout. cbn [mbind outcome_bind]. case_match; [by eexists|].
  destruct (le16s_reads m (a + Z.to_nat (get16 m (a + a_name_offset))) (Z.to_nat (get8 m (a + a_name_length)))) as [t ->]; [lia|].
  cbn [mbind outcome_bind]. destruct (ntfs_are_names_equal_spec s t case_sensitive upcase) as (b & -> & _). by eexists.
Qed.

Lemma compare_value_reads x m a :
  bytes m → Z.of_nat (a + length x) + 66045 ≤ Z.of_nat (length m) → ∃ v, compare_value x m a = Ret v.
Proof.
  intros Hb Hm. unfold compare_value. pose proof (get32_range m (a + a_value_length) Hb). pose proof (get16_range m (a + a_value_offset) Hb).
  rewrite le16_get, !le32_get by in_layout. cbn [mbind outcome_bind]. case_match; [by eexists|].
  match goal with |- context [memcmp ?s ?t ?n] => destruct (memcmp_reads s t n) as [rc ->] end; [ztests; lia|rewrite length_drop; ztests; lia|].
  cbn [mbind outcome_bind]. repeat (case_match; try (by eexists)).
Qed.

(** A round reads less than 66045 bytes behind the start of the record, and those of the value that is looked for. *)
Lemma compare_attr_reads m a :
  bytes m → Z.of_nat (a + length (default [] val)) + 66045 ≤ Z.of_nat (length m) →
  ∃ v, compare_attr case_sensitive upcase iteration type name val m a = Ret v.
Proof.
  intros Hb Hm. unfold compare_attr. rewrite !le32_get by in_layout. cbn [mbind outcome_bind].
  case_match; [by eexists|]. case_match; [by eexists|]. case_match; [by eexists|]. case_match; [by eexists|].
  assert (∃ v, match name with any_name => Ret found
    | AT_UNNAMED => n ← rd m (a + a_name_length); Ret (if negb (n =? 0) then not_found else found)
    | some_name name => compare_name case_sensitive upcase name m a end = Ret v) as [v ->].
  { destruct name as [| |s]; [by eexists| |apply compare_name_reads; [done|lia]].
    rewrite rd_get by in_layout. cbn [mbind outcome_bind]. by eexists. }
  cbn [mbind outcome_bind]. destruct v, val as [x|]; try (by eexists). by apply compare_value_reads.
Qed.

(** The loop returns when there is a round for every byte. *)
Lemma loop_returns m alloc fuel a ctx_a :
  bytes m → le32_at m m_bytes_allocated = Ret alloc → alloc + 66045 + Z.of_nat (length (default [] val)) ≤ Z.of_nat (length m) →
  alloc + 1 < Z.of_nat a + Z.of_nat fuel → (0 < fuel)%nat → (ctx_a ≤ Z.to_nat alloc)%nat →
  ∃ err a', loop fuel m a ctx_a = Ret (err, a') ∧ (err = 0 ∨ err = ENOENT ∨ err = EIO) ∧ (a' ≤ Z.to_nat alloc)%nat.
Proof.
  intros Hb Halloc Hm. pose proof (le32_at_range _ _ _ Hb Halloc) as Hrange.
  revert a ctx_a. induction fuel as [|fuel IH]; intros a c Hf Hpos Hc; [lia|].
  cbn [find_loop]. rewrite Halloc. cbn [mbind outcome_bind]. destruct (Z.ltb_spec alloc (Z.of_nat a)); [by exists EIO, c; auto|].
  assert (a ≤ Z.to_nat alloc)%nat as Ha by lia.
  destruct (compare_attr_reads m a Hb ltac:(lia)) as [v Hv]. rewrite Hv. cbn [mbind outcome_bind].
  destruct v; [by exists 0, a; auto|by exists ENOENT, a; auto| |by exists EIO, a; auto].
  destruct (compare_go_on m a Hv) as (len & Hl & Hne). rewrite Hl. cbn [mbind outcome_bind].
  pose proof (le32_at_range m (a + a_length) len Hb Hl). destruct (decide (fuel = 0%nat)) as [-> |]; [lia|]. apply IH; lia.
Qed.
End walk.

(** Where a search that begins with the attribute behind [l1] begins. *)
Definition starts_at (r : mft) (l1 : list (list Z)) (ctx : search_ctx) : Prop :=
  if is_first ctx then ctx_a ctx = attr_ofs r l1 else ∃ l x, l1 = l ++ [x] ∧ ctx_a ctx = attr_ofs r l.

Lemma length_concat_ge (l : list (list Z)) : Forall attr_ok l → (length l ≤ length (concat l))%nat.
Proof. induction 1 as [|x l Hx Hl IH]; cbn; [done|]. pose proof (attr_size _ Hx). len. Qed.

Lemma find_spec case_sensitive upcase type name val r l1 l2 ctx :
  mft_ok r → m_attrs r = l1 ++ l2 → starts_at r l1 ctx → Forall (searchable upcase type name val) l2 →
  let '(err, k) := list_search (target_order case_sensitive upcase (is_iteration ctx) type name val) l2 in
  ntfs_attr_find_in_mft_record case_sensitive upcase type name val (mft_bytes r) ctx =
    Ret (err, mk_ctx (attr_ofs r (l1 ++ take k l2)) false (is_iteration ctx), false).
Proof.
  intros Hr E Hst Hs. unfold ntfs_attr_find_in_mft_record.
  assert ((if is_first ctx then Ret (ctx_a ctx) else
    length ← le32_at (mft_bytes r) (ctx_a ctx + a_length); Ret (ctx_a ctx + Z.to_nat length)%nat) = Ret (attr_ofs r l1)) as ->.
  { unfold starts_at in Hst. destruct (is_first ctx); [by rewrite Hst|]. destruct Hst as (l & x & -> & ->).
    rewrite (attr_length_at r l x l2) by (done || by rewrite E, <- (assoc_L (++))). cbn [mbind outcome_bind].
    by rewrite Nat2Z.id, attr_ofs_snoc. }
  rewrite bytes_allocated by done. cbn [mbind outcome_bind].
  pose proof (length_concat_ge _ (ok_attrs _ Hr)) as Hlen. rewrite E in Hlen at 1. rewrite length_app in Hlen.
  rewrite loop_spec with (l2 := l2); [|done|done|done|rewrite Nat2Z.id, length_mft_bytes by done; lia].
  assert ((fst (list_search (target_order case_sensitive upcase (is_iteration ctx) type name val) l2) =? EIO) = false) as He.
  { generalize (target_order case_sensitive upcase (is_iteration ctx) type name val). intros o. clear.
    induction l2 as [|x l2 IH]; cbn; [done|]. destruct (verdict_of (o x)); try done. by destruct (list_search o l2). }
  destruct (list_search _ l2) as [err k]. cbn [mbind outcome_bind fst snd] in *. by rewrite He.
Qed.

Lemma search_ctx_init r : mft_ok r → ntfs_attr_search_ctx_init (mft_bytes r) = Ret (mk_ctx (attr_ofs r []) true false).
Proof.
  intros Hr. pose proof (ok_head_size _ Hr) as Hh. unfold ntfs_attr_search_ctx_init, mft_bytes.
  rewrite le16_head0 by (unfold m_attrs_offset; lia). cbn [mbind outcome_bind]. rewrite (ok_attrs_offset _ Hr), Nat2Z.id.
  unfold attr_ofs. cbn. do 2 f_equal. lia.
Qed.

Lemma find_first_spec case_sensitive upcase type name val r :
  mft_ok r → Forall (searchable upcase type name val) (m_attrs r) →
  let '(err, k) := list_search (target_order case_sensitive upcase false type name val) (m_attrs r) in
  find_first case_sensitive upcase type name val (mft_bytes r) =
    Ret (err, mk_ctx (attr_ofs r (take k (m_attrs r))) false false, false).
Proof.
  intros Hr Hs. unfold find_first. rewrite search_ctx_init by done. cbn [mbind outcome_bind].
  apply (find_spec case_sensitive upcase type name val r [] (m_attrs r) (mk_ctx (attr_ofs r []) true false)); done.
Qed.

(** C27: on a well-formed mft record, the names and values of which lie inside of their attribute records where the search looks at
    them, [ntfs_attr_find_in_mft_record] is the search in the list of the attribute records behind
    the place the context says: the walk over the bytes stops at the first attribute that does not collate before what is looked
    for, returns zero if it is equal, by type, name and value, and [ENOENT] otherwise or at the end marker, and leaves the context there. *)
Theorem find_in_mft_record_search case_sensitive upcase type name val r l1 l2 ctx :
  mft_ok r → m_attrs r = l1 ++ l2 → starts_at r l1 ctx → Forall (searchable upcase type name val) l2 →
  let '(err, k) := list_search (target_order case_sensitive upcase (is_iteration ctx) type name val) l2 in
  ntfs_attr_find_in_mft_record case_sensitive upcase type name val (mft_bytes r) ctx =
    Ret (err, mk_ctx (attr_ofs r (l1 ++ take k l2)) false (is_iteration ctx), false).
Proof. apply find_spec. Qed.

(** The iteration over the attributes of type 0x80 goes on from the first to the second of them. *)
Lemma find_in_mft_record_search_witness :
  starts_at sample_mft (take 2 sample_attrs) (mk_ctx (attr_ofs sample_mft (take 1 sample_attrs)) false true) ∧
  ntfs_attr_find_in_mft_record true [] 0x80 any_name None (mft_bytes sample_mft)
    (mk_ctx (attr_ofs sample_mft (take 1 sample_attrs)) false true) =
    Ret (0, mk_ctx (attr_ofs sample_mft (take 2 sample_attrs)) false true, false).
Proof.
  assert (starts_at sample_mft (take 2 sample_attrs) (mk_ctx (attr_ofs sample_mft (take 1 sample_attrs)) false true)) as Hst.
  { exists (take 1 sample_attrs), (resident_attr 0x80 1 [] 5). split; reflexivity. }
  split; [exact Hst|].
  apply (find_in_mft_record_search true [] 0x80 any_name None sample_mft (take 2 sample_attrs) (drop 2 sample_attrs)
    (mk_ctx (attr_ofs sample_mft (take 1 sample_attrs)) false true) sample_mft_ok eq_refl Hst).
  constructor; [done|constructor].
Defined.


(** C30: on every record, however corrupt, [ntfs_attr_find_in_mft_record] ends and returns zero, [ENOENT] or [EIO], the last
    exactly when it notes errors on the volume, and leaves the context inside of the record, if the 66045 bytes behind the record, and as
    many as the value that is looked for has, can be read. *)
Theorem find_in_mft_record_returns case_sensitive upcase type name val m alloc ctx :
  bytes m → le32_at m m_bytes_allocated = Ret alloc → alloc + 66045 + Z.of_nat (length (default [] val)) ≤ Z.of_nat (length m) →
  (ctx_a ctx ≤ Z.to_nat alloc)%nat →
  ∃ err ctx', ntfs_attr_find_in_mft_record case_sensitive upcase type name val m ctx = Ret (err, ctx', err =? EIO) ∧
    (err = 0 ∨ err = ENOENT ∨ err = EIO) ∧ (ctx_a ctx' ≤ Z.to_nat alloc)%nat ∧ is_first ctx' = false.
Proof.
  intros Hb Halloc Hm Hc. pose proof (le32_at_range _ _ _ Hb Halloc) as Hrange. unfold ntfs_attr_find_in_mft_record.
  assert (∃ a, (if is_first ctx then Ret (ctx_a ctx) else
    length ← le32_at m (ctx_a ctx + a_length); Ret (ctx_a ctx + Z.to_nat length)%nat) = Ret a) as [a ->].
  { destruct (is_first ctx); [by eexists|]. rewrite le32_get by in_layout. by eexists. }
  rewrite Halloc. cbn [mbind outcome_bind].
  destruct (loop_returns case_sensitive upcase (is_iteration ctx) type name val m alloc (S (S (Z.to_nat alloc))) a (ctx_a ctx))
    as (err & a' & -> & He & Ha'); [done|done|done|lia|lia|done|].
  cbn [mbind outcome_bind]. by eexists _, _.
Qed.

(** A corrupt record of 64 bytes the only attribute of which has a length beyond the record. *)
Definition corrupt_mft : list Z :=
  let m := splice (replicate 64 0) m_attrs_offset (le_bytes 2 48) in
  let m := splice m m_bytes_allocated (le_bytes 4 64) in
  splice m (48 + a_length) (le_bytes 4 1000).

Lemma find_in_mft_record_returns_witness :
  ∃ err ctx', ntfs_attr_find_in_mft_record true [] 0x80 any_name None (corrupt_mft ++ replicate (Z.to_nat 66045) 0) (mk_ctx 48 true false) =
    Ret (err, ctx', err =? EIO) ∧ err = EIO.
Proof.
  assert (bytes (corrupt_mft ++ replicate (Z.to_nat 66045) 0)) as Hb.
  { apply bytes_app. split; [|apply bytes_replicate]. apply (bool_decide_eq_true_1 (Forall _ _)). by vm_compute. }
  destruct (find_in_mft_record_returns true [] 0x80 any_name None (corrupt_mft ++ replicate (Z.to_nat 66045) 0) 64 (mk_ctx 48 true false) Hb)
    as (err & ctx' & Hf & _).
  - by vm_compute.
  - rewrite length_app, length_replicate. change (length corrupt_mft) with 64%nat. cbn [default length]. lia.
  - cbn [ctx_a]. lia.
  - exists err, ctx'. split; [exact Hf|]. assert (ntfs_attr_find_in_mft_record true [] 0x80 any_name None
      (corrupt_mft ++ replicate (Z.to_nat 66045) 0) (mk_ctx 48 true false) = Ret (EIO, mk_ctx 48 false false, true)) as Hc by by vm_compute.
    rewrite Hc in Hf. by injection Hf.
Defined.

(** The walk does read behind the record: an attribute record that ends where the record ends leads it there. *)
Example find_reads_behind_record :
  ntfs_attr_find_in_mft_record true [] 0x80 any_name None (splice corrupt_mft (48 + a_length) (le_bytes 4 16)) (mk_ctx 48 true false) = Oob.
Proof. by vm_compute. Qed.
