(* ===== verification/AttrOrder.v ===== *)
(** * Sorted mft records

    The attributes of an mft record are sorted by type and name.  What
    [ntfs_attr_find_in_mft_record] finds in such a record, and how it works together with the insertion and the
    deletion of attribute records. *)

From Stdlib Require Import Sorted.
From S2P Require Import Prelude Bytes Unistr MftRecord AttrFind.

(** ** The order of the attribute records *)

Section order.
Context (case_sensitive : bool) (upcase : list Z).
Abbreviation up s := (ntfs_upcase_name s upcase).

Definition attr_le (a b : list Z) : Prop :=
  get32 a a_type < get32 b a_type ∨
  get32 a a_type = get32 b a_type ∧
    lex2 (up (attr_name a)) (attr_name a) (up (attr_name b)) (attr_name b) ≤ 0.

(** The attribute is of the type and has the name. *)
Definition matches (type : Z) (name : name_arg) (a : list Z) : Prop :=
  get32 a a_type = type ∧
  match name with
  | any_name => True
  | AT_UNNAMED => attr_name a = []
  | some_name name =>
      if case_sensitive then name = attr_name a
      else ntfs_upcase_name name upcase = ntfs_upcase_name (attr_name a) upcase
  end.

Abbreviation order := (target_order case_sensitive upcase false).

Lemma order_matches type name a : order type name None a = 0 ↔ matches type name a.
Proof.
  unfold target_order, matches, key_order. cbn [andb].
  destruct (Z.ltb_spec type (get32 a a_type)); [split; [done|lia]|].
  destruct (Z.ltb_spec (get32 a a_type) type); [split; [done|lia]|].
  assert (get32 a a_type = type) as -> by lia.
  transitivity (name_arg_order case_sensitive upcase name a = 0); [by destruct (Z.eqb_spec (name_arg_order case_sensitive upcase name a) 0)|].
  destruct name; cbn [name_arg_order]; [done| |].
  - destruct (attr_name a); [done|]. by split; [|intros []].
  - unfold name_order. destruct case_sensitive.
    + rewrite (lex2_eq (λ s, up s)). tauto.
    + rewrite lex_eq. tauto.
Qed.

Lemma lex2_lex (a1 a2 b1 b2 : list Z) : lex2 a1 a2 b1 b2 ≤ 0 → lex a1 b1 ≤ 0.
Proof. unfold lex2. destruct (Z.eqb_spec (lex a1 b1) 0); lia. Qed.

(** What is looked for stays before the attributes behind one that it is before. *)
Lemma name_order_le name a b :
  lex2 (ntfs_upcase_name a upcase) a (ntfs_upcase_name b upcase) b ≤ 0 →
  (name_order case_sensitive upcase name a ≤ 0 → name_order case_sensitive upcase name b ≤ 0) ∧
  (name_order case_sensitive upcase name a < 0 → name_order case_sensitive upcase name b < 0).
Proof.
  intros Hab. unfold name_order.
  destruct case_sensitive.
  - assert (lex2 (up name) name (up a) a ≤ 0 → lex2 (up name) name (up b) b ≤ 0) as Hle by (intros H; by eapply lex2_trans). cbv beta in *.
    split; [done|]. intros H. destruct (decide (lex2 (up name) name (up b) b = 0)) as [E|]; [|specialize (Hle ltac:(lia)); lia].
    apply (lex2_eq (λ s, up s)) in E as ->. pose proof (lex2_antisym (up a) a (up b) b). lia.
  - apply lex2_lex in Hab.
    assert (lex (up name) (up a) ≤ 0 → lex (up name) (up b) ≤ 0) as Hle by (intros H; by eapply lex_trans). cbv beta in *.
    split; [done|]. intros H. destruct (decide (lex (up name) (up b) = 0)) as [E|]; [|specialize (Hle ltac:(lia)); lia].
    apply lex_eq in E. rewrite <- E in Hab. rewrite lex_antisym in Hab. lia.
Qed.

Lemma unnamed_order a : name_arg_order case_sensitive upcase AT_UNNAMED a = name_order case_sensitive upcase [] (attr_name a).
Proof. cbn [name_arg_order]. unfold name_order, lex2. by destruct case_sensitive, (attr_name a). Qed.

Lemma order_le type name a b :
  attr_le a b →
  (order type name None a ≤ 0 → order type name None b ≤ 0) ∧ (order type name None a < 0 → order type name None b < 0).
Proof.
  intros Hab. unfold target_order. cbn [andb].
  destruct (Z.ltb_spec type (get32 b a_type)); [lia|]. destruct Hab as [Ht|[-> Hn]]; [ztests; lia|].
  destruct (Z.ltb_spec type (get32 b a_type)); [lia|]. destruct (Z.ltb_spec (get32 b a_type) type); [lia|].
  unfold key_order.
  assert (∀ z, (if z =? 0 then 0 else z) = z) as Hz by (intros z; by destruct (Z.eqb_spec z 0)). rewrite !Hz.
  destruct name; [done| |by apply name_order_le]. rewrite !unnamed_order. by apply name_order_le.
Qed.
End order.

(** ** The search in sorted records *)

(** The search ends at the first record that is not before what is looked for. *)
Lemma search_split (o : list Z → Z) l :
  ∃ l1 l2 err, l = l1 ++ l2 ∧ list_search o l = (err, length l1) ∧ Forall (λ a, 0 < o a) l1 ∧
    (err = 0 ∧ (∃ x l', l2 = x :: l' ∧ o x = 0) ∨ err = ENOENT ∧ match l2 with [] => True | x :: _ => o x < 0 end).
Proof.
  induction l as [|a l (l1 & l2 & err & -> & Hs & H1 & H2)]; [by exists [], [], ENOENT; split_and!; auto|].
  cbn [list_search]. unfold verdict_of. destruct (Z.eqb_spec (o a) 0); [|destruct (Z.ltb_spec (o a) 0)].
  - exists [], (a :: l1 ++ l2), 0. split_and!; [done..|]. left. split; [done|]. by eexists _, _.
  - exists [], (a :: l1 ++ l2), ENOENT. split_and!; [done..|]. by right.
  - exists (a :: l1), l2, err. rewrite Hs. split_and!; [done..| |done]. constructor; [lia|done].
Qed.

Lemma search_at (o : list Z → Z) l1 x l2 :
  Forall (λ a, 0 < o a) l1 → o x = 0 → list_search o (l1 ++ x :: l2) = (0, length l1).
Proof.
  intros H1 Hx. induction H1 as [|a l1 Ha H1 IH]; cbn [app list_search]; unfold verdict_of; [by rewrite Hx|].
  rewrite (proj2 (Z.eqb_neq (o a) 0)), (proj2 (Z.ltb_ge (o a) 0)), IH by lia. done.
Qed.

Lemma search_none (o : list Z → Z) l1 l2 :
  Forall (λ a, 0 < o a) l1 → Forall (λ a, o a < 0) l2 → list_search o (l1 ++ l2) = (ENOENT, length l1).
Proof.
  intros H1 H2. induction H1 as [|a l1 Ha H1 IH]; cbn [app].
  - destruct H2 as [|x l2 Hx _]; cbn [list_search]; [done|]. unfold verdict_of.
    by rewrite (proj2 (Z.eqb_neq (o x) 0)), (proj2 (Z.ltb_lt (o x) 0)) by lia.
  - cbn [list_search]. unfold verdict_of. by rewrite (proj2 (Z.eqb_neq (o a) 0)), (proj2 (Z.ltb_ge (o a) 0)), IH by lia.
Qed.

Section sorted.
Context (case_sensitive : bool) (upcase : list Z) (type : Z) (name : name_arg).
Abbreviation o := (target_order case_sensitive upcase false type name None).
Abbreviation sorted l := (StronglySorted (attr_le upcase) l).
Abbreviation find m ctx := (ntfs_attr_find_in_mft_record case_sensitive upcase type name None m ctx).
Abbreviation matching := (matches case_sensitive upcase type name).

Lemma sorted_app l1 l2 :
  sorted (l1 ++ l2) ↔ sorted l1 ∧ sorted l2 ∧ Forall (λ a, Forall (attr_le upcase a) l2) l1.
Proof.
  induction l1 as [|a l1 IH]; cbn [app].
  - split; [by intros H; split_and!; [constructor|done|constructor]|tauto].
  - split.
    + intros [Hs Ha]%StronglySorted_inv. apply IH in Hs as (H1 & H2 & H3). apply list.Forall_app in Ha as [Ha1 Ha2].
      split_and!; [by constructor|done|by constructor].
    + intros ([H1 Ha]%StronglySorted_inv & H2 & [H3 H4]%list.Forall_cons). constructor; [by apply IH|]. by apply list.Forall_app.
Qed.

Lemma sorted_tail x l :
  sorted (x :: l) → (o x ≤ 0 → Forall (λ a, o a ≤ 0) l) ∧ (o x < 0 → Forall (λ a, o a < 0) l).
Proof.
  intros [_ H]%StronglySorted_inv. split; intros Hx; (eapply list.Forall_impl; [exact H|]);
    intros a Ha; by apply (order_le case_sensitive upcase type name x a Ha).
Qed.

(** The search splits a sorted record. *)
Lemma search_sorted l :
  sorted l →
  ∃ l1 l2 err, l = l1 ++ l2 ∧ list_search o l = (err, length l1) ∧ Forall (λ a, 0 < o a) l1 ∧ Forall (λ a, o a ≤ 0) l2 ∧
    (err = 0 ∧ (∃ x l', l2 = x :: l' ∧ matching x) ∨ err = ENOENT ∧ Forall (λ a, o a < 0) l2).
Proof.
  intros Hs. destruct (search_split o l) as (l1 & l2 & err & -> & Hsearch & H1 & H2).
  apply sorted_app in Hs as (_ & Hs & _). exists l1, l2, err. do 3 (split; [done|]).
  destruct H2 as [[-> (x & l' & -> & Hx)]|[-> H2]].
  - split; [constructor; [lia|]; apply (sorted_tail x l'); [done|lia]|]. left. split; [done|]. exists x, l'. split; [done|].
    by apply order_matches.
  - destruct l2 as [|x l2]; [split; [constructor|right; by split]|]. destruct (sorted_tail x l2 Hs) as [Hle Hlt].
    split; [constructor; [lia|]; apply Hle; lia|]. right. split; [done|]. constructor; [done|by apply Hlt].
Qed.

Lemma order_no_match l : Forall (λ a, 0 < o a) l ∨ Forall (λ a, o a < 0) l → Forall (λ a, ¬ matching a) l.
Proof.
  intros [H|H]; (eapply list.Forall_impl; [exact H|]); cbv beta; intros a Ha Hm; apply order_matches in Hm; lia.
Qed.
End sorted.

(** In a well-formed mft record the attributes of which are sorted by type and name,
    [ntfs_attr_find_in_mft_record] with a new search context returns zero and the first attribute of the
    type and name, or there is no such attribute, and it returns [ENOENT] and the place to insert one: the attributes before
    it collate before the one that is looked for, and those behind it after. *)
Theorem find_in_sorted_mft_record case_sensitive upcase type name r :
  mft_ok r → StronglySorted (attr_le upcase) (m_attrs r) → Forall (searchable upcase type name None) (m_attrs r) →
  ∃ l1 l2 err, m_attrs r = l1 ++ l2 ∧
    find_first case_sensitive upcase type name None (mft_bytes r) = Ret (err, mk_ctx (attr_ofs r l1) false false, false) ∧
    Forall (λ a, ¬ matches case_sensitive upcase type name a ∧ 0 < target_order case_sensitive upcase false type name None a) l1 ∧
    (err = 0 ∧ (∃ x l, l2 = x :: l ∧ matches case_sensitive upcase type name x) ∨
     err = ENOENT ∧
       Forall (λ a, ¬ matches case_sensitive upcase type name a ∧ target_order case_sensitive upcase false type name None a < 0) l2).
Proof.
  intros Hr Hsorted Hs. pose proof (find_first_spec case_sensitive upcase type name None r Hr Hs) as Hf.
  destruct (search_sorted case_sensitive upcase type name (m_attrs r) Hsorted) as (l1 & l2 & err & E & Hsearch & H1 & _ & H2).
  rewrite Hsearch in Hf. rewrite E, take_app_length in Hf. exists l1, l2, err. split; [done|]. split; [done|].
  split; [apply list.Forall_and; split; [apply order_no_match; by left|done]|].
  destruct H2 as [H2|[He H2]]; [by left|right]. split; [done|]. apply list.Forall_and. split; [apply order_no_match; by right|done].
Qed.

(** ** Insertion and deletion *)

(** The name argument for the name of an attribute. *)
Definition arg_of (name : list Z) : name_arg := match name with [] => AT_UNNAMED | _ => some_name name end.

Lemma arg_of_order case_sensitive upcase name a :
  name_arg_order case_sensitive upcase (arg_of name) a = name_order case_sensitive upcase name (attr_name a).
Proof. destruct name as [|c name]; [apply unnamed_order|done]. Qed.

Lemma name_order_refl case_sensitive upcase name : name_order case_sensitive upcase name name = 0.
Proof.
  unfold name_order, lex2. destruct case_sensitive; [|by apply lex_eq]. case_match; by apply lex_eq.
Qed.

Section place.
Context (case_sensitive : bool) (upcase : list Z) (x : list Z).
Abbreviation o := (target_order case_sensitive upcase false (get32 x a_type) (arg_of (attr_name x)) None).

Lemma order_self : o x = 0.
Proof. unfold target_order, key_order. cbn [andb]. by rewrite Z.ltb_irrefl, arg_of_order, name_order_refl. Qed.

(** The record [x] belongs behind the records that are before it in the search, and before the others. *)
Lemma order_attr_le a : (0 < o a → attr_le upcase a x) ∧ (o a < 0 → attr_le upcase x a).
Proof.
  unfold target_order, key_order, attr_le. cbn [andb].
  destruct (Z.ltb_spec (get32 x a_type) (get32 a a_type)); [split; [done|by left]|].
  destruct (Z.ltb_spec (get32 a a_type) (get32 x a_type)); [split; [by left|done]|].
  rewrite arg_of_order. set (z := name_order _ _ _ _).
  replace (if z =? 0 then 0 else z) with z by (by destruct (Z.eqb_spec z 0)). unfold z, name_order.
  rewrite (lex2_antisym (ntfs_upcase_name (attr_name x) upcase) (attr_name x)). unfold lex2.
  split; intros Hz; right; (split; [lia|]); destruct case_sensitive; cbv zeta in Hz;
    destruct (Z.eqb_spec (lex (ntfs_upcase_name (attr_name x) upcase) (ntfs_upcase_name (attr_name a) upcase)) 0); lia.
Qed.

Lemma sorted_insert l1 l2 :
  StronglySorted (attr_le upcase) (l1 ++ l2) → Forall (λ a, 0 < o a) l1 → Forall (λ a, o a < 0) l2 →
  StronglySorted (attr_le upcase) (l1 ++ x :: l2).
Proof.
  intros (H1 & H2 & H12)%sorted_app B1 B2. apply sorted_app. split; [done|]. split.
  - constructor; [done|]. eapply list.Forall_impl; [exact B2|]. intros a. apply order_attr_le.
  - rewrite list.Forall_forall in *. intros a Ha. constructor; [|by apply H12]. by apply order_attr_le, B1.
Qed.
End place.

(** The inserted record can be searched. *)
Lemma resident_attr_searchable upcase type instance name val_len t arg :
  0 ≤ type < 2 ^ 32 → 0 ≤ instance < 2 ^ 16 → Forall (λ c, 0 ≤ c < 65536) name → (length name ≤ 255)%nat →
  0 ≤ val_len → val_ofs name + val_len + 7 < 2 ^ 32 →
  match arg with some_name s => search_name upcase s | _ => True end →
  searchable upcase t arg None (resident_attr type instance name val_len).
Proof.
  intros Ht Hi Hn Hl Hv Hmax Harg _.
  destruct (resident_attr_fields type instance name val_len) as (La & _ & _ & _ & _ & _ & _ & Ho & Hc & _); [done..|].
  split; [|done]. destruct arg; [done|done|]. split; [|done]. unfold name_ok. rewrite Ho, Hc, La.
  unfold val_ofs, round8 in *. zdiv.
Qed.

(** C7: a search with a new context that ends with [ENOENT] leaves the place at which
    [ntfs_resident_attr_record_insert_internal] has to insert the attribute: either there is no space and the record is
    unchanged, or the record stays well formed and sorted, has the new zeroed attribute with the next instance
    number besides the old ones, and the same search now finds it at that place. *)
Theorem find_insert_find case_sensitive upcase type name val_len r ctx :
  mft_ok r → StronglySorted (attr_le upcase) (m_attrs r) → Forall (searchable upcase type (arg_of name) None) (m_attrs r) →
  0 ≤ type < AT_END → Forall (λ c, 0 ≤ c < 65536) name → (length name ≤ 255)%nat → search_name upcase name →
  0 ≤ val_len → Z.of_nat (length (mft_bytes r)) + val_ofs name + val_len + 7 < 2 ^ 32 →
  find_first case_sensitive upcase type (arg_of name) None (mft_bytes r) = Ret (ENOENT, ctx, false) →
  let n := Z.to_nat (round8 (val_ofs name + val_len)) in
  let a := resident_attr type (get16 (m_head r) m_next_attr_instance) name val_len in
  let m := ntfs_resident_attr_record_insert_internal (mft_bytes r) (ctx_a ctx) type name val_len in
  (length (m_spare r) < n)%nat ∧ m = Ret (ENOSPC, mft_bytes r) ∨
  (n ≤ length (m_spare r))%nat ∧ ∃ r' l1 l2, m = Ret (0, mft_bytes r') ∧ mft_ok r' ∧
    m_attrs r = l1 ++ l2 ∧ m_attrs r' = l1 ++ a :: l2 ∧ StronglySorted (attr_le upcase) (m_attrs r') ∧
    find_first case_sensitive upcase type (arg_of name) None (mft_bytes r') = Ret (0, ctx, false).
Proof.
  intros Hr Hsorted Hs Ht Hc Hl Hname Hv Hmax Hfind n a m.
  pose proof (find_first_spec case_sensitive upcase type (arg_of name) None r Hr Hs) as Hf.
  destruct (search_sorted case_sensitive upcase type (arg_of name) (m_attrs r) Hsorted) as (l1 & l2 & err & E & Hsearch & H1 & _ & H2).
  rewrite Hsearch, Hfind, E, take_app_length in Hf. injection Hf as <- ->.
  destruct H2 as [[H2 _]|[_ H2]]; [by discriminate H2|]. cbn [ctx_a] in *.
  pose proof (get16_range (m_head r) m_next_attr_instance (ok_head _ Hr)) as Hi. unfold AT_END in Ht.
  destruct (resident_attr_fields type (get16 (m_head r) m_next_attr_instance) name val_len) as (_ & _ & Ft & _ & _ & Fn & _);
    [lia|done|done|done|done|lia|]. fold a in Ft, Fn.
  destruct (insert_internal_spec r l1 l2 type name val_len) as [H|(Hn & r' & Hm & Hr' & E' & _ & _ & Hh & _)];
    [done|done|unfold AT_END; lia|done|done|done|done|by left|right].
  split; [done|]. exists r', l1, l2. do 4 (split; [done|]). rewrite E'. fold a.
  split; [apply (sorted_insert case_sensitive); [by rewrite <- E|by rewrite Ft, Fn..]|].
  assert (Forall (searchable upcase type (arg_of name) None) (m_attrs r')) as Hs'.
  { rewrite E'. rewrite E in Hs. apply list.Forall_app in Hs as [Hs1 Hs2]. apply list.Forall_app. split; [done|].
    constructor; [|done]. apply resident_attr_searchable; try (done || lia). by destruct name. }
  pose proof (find_first_spec case_sensitive upcase type (arg_of name) None r' Hr' Hs') as Hf'.
  pose proof (order_self case_sensitive upcase a) as Ho. rewrite Ft, Fn in Ho.
  rewrite E' in Hf'. fold a in Hf'. rewrite search_at, take_app_length in Hf' by done. rewrite Hf'.
  unfold attr_ofs. by rewrite Hh.
Qed.

(** C28: deletion of the attribute that a search finds: when no other attribute of the record matches, the record stays well
    formed and sorted, keeps the other attributes, and the same search now ends with [ENOENT] at the same place. *)
Theorem find_delete_find case_sensitive upcase type name r l1 x l2 :
  mft_ok r → StronglySorted (attr_le upcase) (m_attrs r) → Forall (searchable upcase type name None) (m_attrs r) →
  m_attrs r = l1 ++ x :: l2 → matches case_sensitive upcase type name x →
  Forall (λ a, ¬ matches case_sensitive upcase type name a) (l1 ++ l2) →
  let ctx := mk_ctx (attr_ofs r l1) false false in
  find_first case_sensitive upcase type name None (mft_bytes r) = Ret (0, ctx, false) ∧
  ∃ r', ntfs_attr_record_delete_internal (mft_bytes r) (ctx_a ctx) = Ret (mft_bytes r') ∧ mft_ok r' ∧
    m_attrs r' = l1 ++ l2 ∧ StronglySorted (attr_le upcase) (m_attrs r') ∧
    find_first case_sensitive upcase type name None (mft_bytes r') = Ret (ENOENT, ctx, false).
Proof.
  intros Hr Hsorted Hs E Hx Hno ctx. set (o := target_order case_sensitive upcase false type name None).
  assert (o x = 0) as Hox by by apply order_matches.
  rewrite E in Hsorted. pose proof Hsorted as (S1 & [S2 Sx]%StronglySorted_inv & S12)%sorted_app.
  apply list.Forall_app in Hno as [No1 No2].
  assert (Forall (λ a, 0 < o a) l1) as B1.
  { rewrite list.Forall_forall in *. intros a Ha. specialize (S12 a Ha). apply list.Forall_cons in S12 as [Hax _].
    destruct (order_le case_sensitive upcase type name a x Hax) as [_ Hlt]. fold o in Hlt.
    destruct (decide (o a = 0)) as [Eo|]; [|lia]. by apply order_matches, (No1 a Ha) in Eo. }
  assert (Forall (λ a, o a < 0) l2) as B2.
  { rewrite list.Forall_forall in *. intros a Ha.
    destruct (order_le case_sensitive upcase type name x a (Sx a Ha)) as [Hle _]. fold o in Hle.
    destruct (decide (o a = 0)) as [Eo|]; [|lia]. by apply order_matches, (No2 a Ha) in Eo. }
  pose proof (find_first_spec case_sensitive upcase type name None r Hr Hs) as Hf. fold o in Hf.
  rewrite E, search_at, take_app_length in Hf by done. split; [done|].
  destruct (delete_internal_spec r l1 x l2 Hr E) as (r' & Hd & Hr' & E' & _ & Hh). exists r'. do 3 (split; [done|]).
  rewrite E'. split.
  { apply sorted_app. do 2 (split; [done|]). eapply list.Forall_impl; [exact S12|]. by intros a [_ Ha]%list.Forall_cons. }
  assert (Forall (searchable upcase type name None) (m_attrs r')) as Hs'.
  { rewrite E'. rewrite E in Hs. apply list.Forall_app in Hs as [Hs1 [_ Hs2]%list.Forall_cons]. by apply list.Forall_app. }
  pose proof (find_first_spec case_sensitive upcase type name None r' Hr' Hs') as Hf'. fold o in Hf'.
  rewrite E', search_none, take_app_length in Hf' by done. rewrite Hf'. unfold ctx, attr_ofs.
  by rewrite Hh, length_set_use by apply Hr.
Qed.

(** ** A sample record *)

(** The table that maps the lower case letters to the upper case ones. *)
Definition sample_upcase : list Z := seqZ 0 97 ++ seqZ 65 26.

Lemma sample_sorted : StronglySorted (attr_le sample_upcase) (m_attrs sample_mft).
Proof.
  repeat (apply SSorted_cons || apply SSorted_nil || apply list.Forall_nil_2 || (apply list.Forall_cons; split));
    first [left; by vm_compute|right; by vm_compute].
Qed.

Lemma sample_searchable type name :
  search_name sample_upcase name → Forall (searchable sample_upcase type (arg_of name) None) (m_attrs sample_mft).
Proof.
  intros Hn. repeat (constructor; [intros _; split; [|done]; destruct name; [done|]; split; [by vm_compute|done]|]). constructor.
Qed.

Lemma search_name_a : search_name sample_upcase [97].
Proof. split; repeat constructor; by vm_compute. Qed.

(** An attribute with the name a belongs between the two of type 0x80. *)
Lemma find_in_sorted_mft_record_witness :
  ∃ l1 l2, m_attrs sample_mft = l1 ++ l2 ∧ attr_ofs sample_mft l1 = 160%nat ∧
    find_first true sample_upcase 0x80 (some_name [97]) None (mft_bytes sample_mft) =
      Ret (ENOENT, mk_ctx (attr_ofs sample_mft l1) false false, false).
Proof.
  destruct (find_in_sorted_mft_record true sample_upcase 0x80 (arg_of [97]) sample_mft sample_mft_ok sample_sorted
    (sample_searchable 0x80 [97] search_name_a)) as (l1 & l2 & err & E & Hf & _).
  assert (find_first true sample_upcase 0x80 (arg_of [97]) None (mft_bytes sample_mft) = Ret (ENOENT, mk_ctx 160 false false, false))
    as Hc by by vm_compute.
  rewrite Hf in Hc. injection Hc as -> Ho. exists l1, l2. split; [exact E|]. split; [|exact Hf].
  unfold attr_ofs. rewrite Ho. by vm_compute.
Defined.

Lemma find_insert_find_witness :
  let ctx := mk_ctx 160 false false in
  ∃ r', ntfs_resident_attr_record_insert_internal (mft_bytes sample_mft) 160 0x80 [97] 10 = Ret (0, mft_bytes r') ∧ mft_ok r' ∧
    StronglySorted (attr_le sample_upcase) (m_attrs r') ∧
    find_first true sample_upcase 0x80 (some_name [97]) None (mft_bytes r') = Ret (0, ctx, false).
Proof.
  destruct (find_insert_find true sample_upcase 0x80 [97] 10 sample_mft (mk_ctx 160 false false) sample_mft_ok sample_sorted
    (sample_searchable 0x80 [97] search_name_a)) as [[H _]|(_ & r' & l1 & l2 & H1 & H2 & _ & _ & H3 & H4)];
    [by vm_compute|by repeat constructor|vm_compute; lia|apply search_name_a|done|by vm_compute|by vm_compute| |].
  - exfalso. revert H. vm_compute. lia.
  - exists r'. split; [exact H1|]. split; [exact H2|]. split; [exact H3|exact H4].
Defined.

Lemma find_delete_find_witness :
  let ctx := mk_ctx 160 false false in
  ∃ r', ntfs_attr_record_delete_internal (mft_bytes sample_mft) 160 = Ret (mft_bytes r') ∧ mft_ok r' ∧
    find_first true sample_upcase 0x80 (some_name [98]) None (mft_bytes r') = Ret (ENOENT, ctx, false).
Proof.
  assert (search_name sample_upcase [98]) as Hn by (split; repeat constructor; by vm_compute).
  destruct (find_delete_find true sample_upcase 0x80 (arg_of [98]) sample_mft
    [resident_attr 0x10 0 [] 48; resident_attr 0x80 1 [] 5] (resident_attr 0x80 2 [98] 3) [] sample_mft_ok sample_sorted
    (sample_searchable 0x80 [98] Hn)) as (_ & r' & H1 & H2 & _ & _ & H3); [done|by vm_compute| |].
  - repeat constructor; intros [H1 H2]; revert H1 H2; by vm_compute.
  - exists r'. split; [exact H1|]. split; [exact H2|exact H3].
Defined.
