(* ===== verification/MftMap.v ===== *)
(** * Mapping mft records

    [kext/ntfs_mft.c]: [ntfs_mft_record_map_ext], [ntfs_mft_record_unmap] and
    [ntfs_extent_mft_record_map_ext]; [kext/ntfs_inode.c]: [ntfs_extent_inode_get].  An mft record is
    in a buffer of the kernel while it is mapped.  The inodes of extent mft records are found through
    the inode cache and are attached to the inode of the base mft record. *)

From stdpp Require Import gmap.
From S2P Require Import Prelude Bytes PageCache Mst MftRecord.

(** ** Operations *)

(** What the kernel answers to the requests, which are numbered: [vnode_get], the allocation of
    memory, [buf_meta_bread], [buf_map] and [buf_unmap]. *)
Class MftEnv := {
  vnode_get_errno : nat → Z;
  memory_fails : nat → bool;
  buf_meta_bread_errno : nat → Z → Z;
  buf_map_errno : nat → Z;
  buf_unmap_errno : nat → Z
}.

(** The fields of the volume and the size of the mft. *)
Record mft_volume := mk_mft_volume {
  mv_sector_size : Z;
  mv_record_size : Z;
  mv_record_size_shift : Z;
  mv_records_per_sector_mask : Z;
  mv_data_size : Z
}.

(** An inode in the cache; [ni_mapped] stands for the fields [m], [m_buf] and [m_dbuf]. *)
Record mft_inode := mk_mft_inode { ni_seq_no : Z; ni_mapped : bool }.

(** The number of requests so far, whether errors are noted on the volume, the mft as the buffers
    hold it, after the multi sector transfer fixups, the inodes of mft records by their number, and
    of the base inode the numbers of the attached extents and [extent_alloc]. *)
Record mft_state := mk_mft_state {
  ms_clock : nat;
  ms_errors : bool;
  ms_mft : contents;
  ms_inodes : gmap Z mft_inode;
  ms_extents : list Z;
  ms_extent_alloc : Z
}.

Definition mio (A : Type) : Type := mft_state → outcome (A * mft_state).
#[global] Instance mio_ret : MRet mio := λ A a w, Ret (a, w).
#[global] Instance mio_bind : MBind mio := λ A B f m w, '(a, w) ← m w; f a w.
Definition mlift {A} (m : outcome A) : mio A := λ w, a ← m; Ret (a, w).
Definition get_state : mio mft_state := λ w, Ret (w, w).
Definition mrequest : mio nat := λ w,
  Ret (ms_clock w, mk_mft_state (S (ms_clock w)) (ms_errors w) (ms_mft w) (ms_inodes w) (ms_extents w) (ms_extent_alloc w)).
Definition set_errors : mio () := λ w,
  Ret ((), mk_mft_state (ms_clock w) true (ms_mft w) (ms_inodes w) (ms_extents w) (ms_extent_alloc w)).
Definition put_inodes (inodes : gmap Z mft_inode) : mio () := λ w,
  Ret ((), mk_mft_state (ms_clock w) (ms_errors w) (ms_mft w) inodes (ms_extents w) (ms_extent_alloc w)).
Definition put_extents (extents : list Z) (extent_alloc : Z) : mio () := λ w,
  Ret ((), mk_mft_state (ms_clock w) (ms_errors w) (ms_mft w) (ms_inodes w) extents extent_alloc).

(** The buffer of [n] bytes at the offset [ofs]. *)
Definition buf_bytes (f : contents) (ofs n : Z) : list Z := f <$> seqZ ofs n.

(** [MREF] and [MSEQNO]. *)
Definition MREF (x : Z) : Z := Z.land x 0xffffffffffff.
Definition MSEQNO (x : Z) : Z := Z.land (Z.shiftr x 48) 0xffff.

Section map.
Context {env : MftEnv} (vol : mft_volume).

(** A request that returns an errno. *)
Definition ask (errno : nat → Z) : mio Z := t ← mrequest; mret (errno t).

(** The inode with the number [mft_no]; it is in the cache while there are pointers to it. *)
Definition get_inode (mft_no : Z) : mio mft_inode := λ w,
  match ms_inodes w !! mft_no with Some ni => Ret (ni, w) | None => Oob end.
Definition put_inode (mft_no : Z) (ni : mft_inode) : mio () := λ w, put_inodes (<[mft_no := ni]> (ms_inodes w)) w.

(** The volume is not being unmounted.  The record is the part of the buffer that holds it. *)
Definition ntfs_mft_record_map_ext (mft_no : Z) : mio (Z + list Z) :=
  err ← ask vnode_get_errno;
  if negb (err =? 0) then mret (inl err) else
  if Z.shiftr (mv_data_size vol) (mv_record_size_shift vol) <? mft_no then mret (inl ENOENT) else
  let double := mv_record_size vol <? mv_sector_size vol in
  let mask := mv_records_per_sector_mask vol in
  let buf_mft_no := if double then Z.land mft_no (Z.lnot mask) else mft_no in
  let buf_mft_record := if double then Z.land mft_no mask else 0 in
  let buf_read_size := if double then mv_sector_size vol else mv_record_size vol in
  failed ← (if double then t ← mrequest; mret (memory_fails t) else mret false);
  if (failed : bool) then mret (inl ENOMEM) else
  err ← ask (λ t, buf_meta_bread_errno t buf_mft_no);
  if negb (err =? 0) then mret (inl err) else
  err ← ask buf_map_errno;
  if negb (err =? 0) then mret (inl err) else
  w ← get_state;
  let m := buf_bytes (ms_mft w) (Z.shiftl buf_mft_no (mv_record_size_shift vol)) buf_read_size in
  ni ← get_inode mft_no;
  if ni_mapped ni then mlift Panic else
  m ← mlift (if double then memcpy (replicate (Z.to_nat (mv_record_size vol)) 0) 0 m
               (Z.to_nat (buf_mft_record * mv_record_size vol)) (Z.to_nat (mv_record_size vol))
             else Ret m);
  magic ← mlift (le32_at m m_magic);
  bytes_allocated ← mlift (le32_at m m_bytes_allocated);
  if (magic =? magic_FILE) && (bytes_allocated <=? mv_record_size vol) then
    err ← (if double then ask buf_unmap_errno else mret 0);
    if negb (err =? 0) then mret (inl err) else
    _ ← put_inode mft_no (mk_mft_inode (ni_seq_no ni) true);
    mret (inr m)
  else
    _ ← set_errors;
    _ ← ask buf_unmap_errno;
    mret (inl EIO).

(** Nothing changes a mapped record here, so that there is nothing to write back.  The buffer that
    [buf_meta_bread] failed to read is still a buffer, which is unmapped; one that [buf_map] failed
    to map is released. *)
Definition ntfs_mft_record_unmap (mft_no : Z) : mio () :=
  ni ← get_inode mft_no;
  if negb (ni_mapped ni) then mlift Panic else
  _ ← (if mv_record_size vol <? mv_sector_size vol then
         err ← ask (λ t, buf_meta_bread_errno t (Z.land mft_no (Z.lnot (mv_records_per_sector_mask vol))));
         if negb (err =? 0) then _ ← ask buf_unmap_errno; mret () else
         err ← ask buf_map_errno;
         if negb (err =? 0) then mret () else _ ← ask buf_unmap_errno; mret ()
       else _ ← ask buf_unmap_errno; mret ());
  put_inode mft_no (mk_mft_inode (ni_seq_no ni) false).

(** An inode that is reclaimed leaves the cache. *)
Definition ntfs_inode_reclaim (mft_no : Z) : mio () := λ w, put_inodes (delete mft_no (ms_inodes w)) w.

(** [ntfs_inode_hash_get] either finds the inode in the cache or allocates one. *)
Definition ntfs_extent_inode_get (mref : Z) : mio Z :=
  let mft_no := MREF mref in
  let seq_no := MSEQNO mref in
  w ← get_state;
  match ms_inodes w !! mft_no with
  | Some ni =>
      if (seq_no =? 0) || (ni_seq_no ni =? seq_no) then mret 0 else
      _ ← ntfs_inode_reclaim mft_no; mret EIO
  | None =>
      t ← mrequest;
      if memory_fails t then mret ENOMEM else
      _ ← put_inode mft_no (mk_mft_inode seq_no false); mret 0
  end.

(** The extents with space for one more, in an array of [extent_alloc] bytes. *)
Definition sizeof_ptr : Z := 8.
Definition attach_extent (mft_no : Z) : mio Z :=
  w ← get_state;
  let extents := ms_extents w in
  let extent_alloc := ms_extent_alloc w in
  if extent_alloc <? (Z.of_nat (length extents) + 1) * sizeof_ptr then
    t ← mrequest;
    if memory_fails t then mret ENOMEM else
    _ ← put_extents (extents ++ [mft_no]) (extent_alloc + 4 * sizeof_ptr); mret 0
  else _ ← put_extents (extents ++ [mft_no]) extent_alloc; mret 0.

(** The number of the extent inode and its mapped record. *)
Definition ntfs_extent_mft_record_map_ext (mref : Z) : mio (Z + Z * list Z) :=
  let mft_no := MREF mref in
  let seq_no := MSEQNO mref in
  w ← get_state;
  if existsb (Z.eqb mft_no) (ms_extents w) then
    r ← ntfs_mft_record_map_ext mft_no;
    match r with
    | inl err => mret (inl err)
    | inr m =>
        sequence_number ← mlift (le16_at m m_sequence_number);
        if (seq_no =? 0) || (sequence_number =? seq_no) then mret (inr (mft_no, m)) else
        _ ← ntfs_mft_record_unmap mft_no; mret (inl EIO)
    end
  else
    err ← ntfs_extent_inode_get mref;
    if negb (err =? 0) then mret (inl err) else
    r ← ntfs_mft_record_map_ext mft_no;
    match r with
    | inl err => _ ← ntfs_inode_reclaim mft_no; mret (inl err)
    | inr m =>
        sequence_number ← mlift (le16_at m m_sequence_number);
        err ← (if negb (seq_no =? 0) then mret (if negb (sequence_number =? seq_no) then EIO else 0)
               else ni ← get_inode mft_no; _ ← put_inode mft_no (mk_mft_inode sequence_number (ni_mapped ni)); mret 0);
        err ← (if negb (err =? 0) then mret err else attach_extent mft_no);
        if negb (err =? 0) then _ ← ntfs_mft_record_unmap mft_no; _ ← ntfs_inode_reclaim mft_no; mret (inl err) else
        mret (inr (mft_no, m))
    end.
End map.

(** ** Records *)

(** Records of powers of two; a record is smaller than a sector, and then the mask is the number of
    records in a sector minus one, or it is not. *)
Record mft_volume_ok (vol : mft_volume) : Prop := {
  mv_shift : 0 ≤ mv_record_size_shift vol;
  mv_size : mv_record_size vol = 2 ^ mv_record_size_shift vol ∧ 48 ≤ mv_record_size vol;
  mv_sector : mv_record_size vol < mv_sector_size vol → ∃ k, mv_record_size_shift vol ≤ k ∧
    mv_sector_size vol = 2 ^ k ∧ mv_records_per_sector_mask vol = 2 ^ (k - mv_record_size_shift vol) - 1
}.

Definition record_at (vol : mft_volume) (f : contents) (mft_no : Z) : list Z :=
  buf_bytes f (mft_no * mv_record_size vol) (mv_record_size vol).

Lemma length_buf_bytes f ofs n : length (buf_bytes f ofs n) = Z.to_nat n.
Proof. unfold buf_bytes. by rewrite length_fmap, length_seqZ. Qed.
Lemma buf_bytes_app f ofs n k : 0 ≤ n → 0 ≤ k → buf_bytes f ofs (n + k) = buf_bytes f ofs n ++ buf_bytes f (ofs + n) k.
Proof. intros Hn Hk. unfold buf_bytes. by rewrite seqZ_app, fmap_app by lia. Qed.
Lemma length_record_at vol f n : length (record_at vol f n) = Z.to_nat (mv_record_size vol).
Proof. apply length_buf_bytes. Qed.
Lemma bytes_record_at vol f n : byte_contents f → bytes (record_at vol f n).
Proof. intros H. unfold bytes, record_at, buf_bytes. apply list.Forall_fmap, list.Forall_true. intros i. apply H. Qed.

(** The part of the sector that is copied is the record. *)
Lemma double_buffer vol f n :
  mft_volume_ok vol → 0 ≤ n → mv_record_size vol < mv_sector_size vol → let mask := mv_records_per_sector_mask vol in
  memcpy (replicate (Z.to_nat (mv_record_size vol)) 0) 0
    (buf_bytes f (Z.shiftl (Z.land n (Z.lnot mask)) (mv_record_size_shift vol)) (mv_sector_size vol))
    (Z.to_nat (Z.land n mask * mv_record_size vol)) (Z.to_nat (mv_record_size vol)) = Ret (record_at vol f n).
Proof.
  intros [Hsh [Hsz H48] Hsec] Hn Hlt mask. destruct (Hsec Hlt) as (k & Hk & Es & Em). unfold mask. rewrite Em. set (j := k - mv_record_size_shift vol) in *.
  rewrite round_pow2, Z.shiftl_mul_pow2, <- Hsz by lia. rewrite Z.sub_1_r, <- Z.ones_equiv, Z.land_ones by lia.
  set (S := mv_record_size vol) in *. assert (mv_sector_size vol = 2 ^ j * S) as Ess by (rewrite Es, Hsz, <- Z.pow_add_r by lia; f_equal; lia).
  assert (0 < 2 ^ j) as Hj by (apply Z.pow_pos_nonneg; lia). pose proof (Z.mod_pos_bound n (2 ^ j) Hj) as Hm. pose proof (Z.div_mod n (2 ^ j) ltac:(lia)) as Hd.
  set (r := n mod 2 ^ j) in *. set (q := n / 2 ^ j) in *.
  replace (mv_sector_size vol) with (r * S + (S + (2 ^ j - r - 1) * S)) by (rewrite Ess; ring).
  assert (0 ≤ r * S ∧ 0 ≤ (2 ^ j - r - 1) * S) as [Hr1 Hr2] by (split; apply Z.mul_nonneg_nonneg; lia). rewrite !buf_bytes_app by lia.
  replace (2 ^ j * q * S + r * S) with (n * S) by (rewrite Hd; ring). change (buf_bytes f (n * S) S) with (record_at vol f n).
  set (A := buf_bytes f (2 ^ j * q * S) (r * S)). assert (length A = Z.to_nat (r * S)) as LA by apply length_buf_bytes.
  rewrite memcpy_Ret by (rewrite ?length_app, ?LA, ?length_record_at, ?length_replicate; lia). f_equal.
  rewrite <- LA, drop_app_length, take_0, drop_ge by (rewrite length_replicate; lia). cbn [app]. rewrite app_nil_r.
  replace (Z.to_nat S) with (length (record_at vol f n)) by apply length_record_at. by rewrite take_app_length.
Qed.

(** The header of a record that can be mapped. *)
Definition record_valid (vol : mft_volume) (f : contents) (n : Z) : Prop :=
  0 ≤ n ≤ mv_data_size vol / mv_record_size vol ∧ get32 (record_at vol f n) m_magic = magic_FILE ∧ get32 (record_at vol f n) m_bytes_allocated ≤ mv_record_size vol.

(** ** Mapping *)

(** The kernel does not fail. *)
Definition quiet_mft_env (env : MftEnv) : Prop :=
  (∀ t, vnode_get_errno t = 0) ∧ (∀ t, memory_fails t = false) ∧ (∀ t n, buf_meta_bread_errno t n = 0) ∧ (∀ t, buf_map_errno t = 0) ∧ ∀ t, buf_unmap_errno t = 0.

(** What mapping and unmapping leave as it is. *)
Definition same_mft (w w' : mft_state) : Prop := ms_mft w' = ms_mft w ∧ (ms_errors w = true → ms_errors w' = true).
Definition same_extents (w w' : mft_state) : Prop := ms_extents w' = ms_extents w ∧ ms_extent_alloc w' = ms_extent_alloc w.

#[global] Instance same_mft_preorder : PreOrder same_mft.
Proof. split; [done|]. intros a b c [H1 H2] [H3 H4]. split; [by rewrite H3|auto]. Qed.
#[global] Instance same_extents_preorder : PreOrder same_extents.
Proof. split; [done|]. intros a b c [H1 H2] [H3 H4]. split; congruence. Qed.

Section spec.
Context {env : MftEnv} (vol : mft_volume) (Hvol : mft_volume_ok vol).

Lemma mio_step {A B} (c : mio A) (k : A → mio B) w a w' : c w = Ret (a, w') → (c ≫= k) w = k a w'.
Proof. intros H. unfold mbind, mio_bind. by rewrite H. Qed.
Lemma mlift_step {A B} (o : outcome A) (k : A → mio B) w a : o = Ret a → (mlift o ≫= k) w = k a w.
Proof. intros H. apply mio_step. unfold mlift. by rewrite H. Qed.

(** The state after a number of requests. *)
Definition tick (k : nat) (w : mft_state) : mft_state :=
  mk_mft_state (k + ms_clock w) (ms_errors w) (ms_mft w) (ms_inodes w) (ms_extents w) (ms_extent_alloc w).
Lemma tick_tick j k w : tick j (tick k w) = tick (j + k) w.
Proof. unfold tick. cbn. by rewrite Nat.add_assoc. Qed.
Lemma ask_step {B} errno (k : Z → mio B) w : (ask errno ≫= k) w = k (errno (ms_clock w)) (tick 1 w).
Proof. done. Qed.
Lemma request_step {B} (k : nat → mio B) w : (mrequest ≫= k) w = k (ms_clock w) (tick 1 w).
Proof. done. Qed.

Definition mapped_as (n : Z) (ni : mft_inode) (w w' : mft_state) (r : Z + list Z) : Prop :=
  same_mft w w' ∧ same_extents w w' ∧
  match r with
  | inl err => err ≠ 0 ∧ ms_inodes w' = ms_inodes w
  | inr m => m = record_at vol (ms_mft w) n ∧ ms_inodes w' = <[n := mk_mft_inode (ni_seq_no ni) true]> (ms_inodes w)
  end ∧
  (quiet_mft_env env → record_valid vol (ms_mft w) n → r = inr (record_at vol (ms_mft w) n)).

(** A step of the mapping that fails leaves everything as it was. *)
Lemma mapped_error n ni w k err : err ≠ 0 → (quiet_mft_env env → record_valid vol (ms_mft w) n → False) → mapped_as n ni w (tick k w) (inl err).
Proof. intros He Hq. split; [done|]. split; [done|]. split; [done|]. intros H1 H2. by destruct (Hq H1 H2). Qed.

Lemma memory_step double w : ∃ b k, (if (double : bool) then t ← mrequest; mret (memory_fails t) else mret false) w = Ret (b, tick k w) ∧ (quiet_mft_env env → b = false).
Proof. destruct double; [|by exists false, 0%nat; destruct w]. eexists _, 1%nat. split; [done|]. intros (_ & Q & _). apply Q. Qed.
Lemma unmap_step double w : ∃ err k, (if (double : bool) then ask buf_unmap_errno else mret 0) w = Ret (err, tick k w) ∧ (quiet_mft_env env → err = 0).
Proof. destruct double; [|by exists 0, 0%nat; destruct w]. eexists _, 1%nat. split; [done|]. intros (_ & _ & _ & _ & Q). apply Q. Qed.

Lemma map_ext_spec n ni w : byte_contents (ms_mft w) → 0 ≤ n → ms_inodes w !! n = Some ni → ni_mapped ni = false →
  ∃ r w', ntfs_mft_record_map_ext vol n w = Ret (r, w') ∧ mapped_as n ni w w' r.
Proof.
  intros Hb Hn Hni Hmap. pose proof (length_record_at vol (ms_mft w) n) as Hlen. destruct (mv_size _ Hvol) as [Hsz H48]. unfold ntfs_mft_record_map_ext. rewrite ask_step.
  destruct (Z.eqb_spec (vnode_get_errno (ms_clock w)) 0) as [E1|E1]; cbn [negb]; [|eexists _, _; split; [done|]; apply mapped_error; [done|intros (Q & _) _; apply E1, Q]].
  rewrite Z.shiftr_div_pow2, <- Hsz by (apply (mv_shift _ Hvol)). destruct (Z.ltb_spec (mv_data_size vol / mv_record_size vol) n) as [E2|E2].
  { eexists _, _. split; [done|]. apply mapped_error; [done|]. intros _ [? _]. lia. }
  destruct (memory_step (mv_record_size vol <? mv_sector_size vol) (tick 1 w)) as (b & k & Em & Hmem). rewrite (mio_step _ _ _ _ _ Em). clear Em.
  rewrite tick_tick. destruct b; [eexists _, _; split; [done|]; apply mapped_error; [done|intros Q _; by specialize (Hmem Q)]|].
  rewrite ask_step. set (no := if _ <? _ then Z.land _ _ else _). destruct (Z.eqb_spec (buf_meta_bread_errno (ms_clock (tick (k + 1) w)) no) 0) as [E3|E3]; cbn [negb].
  2: { eexists _, _. split; [done|]. rewrite !tick_tick. apply mapped_error; [done|]. intros (_ & _ & Q & _) _. apply E3, Q. }
  rewrite ask_step. destruct (Z.eqb_spec (buf_map_errno (ms_clock (tick 1 (tick (k + 1) w)))) 0) as [E4|E4]; cbn [negb].
  2: { eexists _, _. split; [done|]. rewrite !tick_tick. apply mapped_error; [done|]. intros (_ & _ & _ & Q & _) _. apply E4, Q. }
  rewrite !tick_tick. set (w1 := tick _ w). rewrite (mio_step get_state _ w1 w1 w1) by done.
  rewrite (mio_step (get_inode n) _ w1 ni w1) by (unfold get_inode; cbn; by rewrite Hni). rewrite Hmap.
  rewrite (mlift_step _ _ _ (record_at vol (ms_mft w) n)).
  2: { unfold no. destruct (Z.ltb_spec (mv_record_size vol) (mv_sector_size vol)); [by apply double_buffer|]. unfold record_at. by rewrite Z.shiftl_mul_pow2, <- Hsz by apply (mv_shift _ Hvol). }
  set (m := record_at vol (ms_mft w) n) in *. rewrite (mlift_step _ _ _ (get32 m m_magic)), (mlift_step _ _ _ (get32 m m_bytes_allocated)) by (apply le32_get; unfold m_magic, m_bytes_allocated; lia).
  destruct ((get32 m m_magic =? magic_FILE) && (get32 m m_bytes_allocated <=? mv_record_size vol)) eqn:Ev.
  - destruct (unmap_step (mv_record_size vol <? mv_sector_size vol) w1) as (err & j & Eu & Hq). rewrite (mio_step _ _ _ _ _ Eu). clear Eu.
    destruct (Z.eqb_spec err 0) as [->|E5]; cbn [negb].
    2: { eexists _, _. split; [done|]. unfold w1. rewrite tick_tick. apply mapped_error; [done|]. intros Q _. by apply E5, Hq. }
    eexists _, _. split; [done|]. by split_and!.
  - eexists _, _. split; [done|]. split; [done|]. split; [done|]. split; [done|]. intros _ (_ & V1 & V2). fold m in V1, V2. rewrite V1 in Ev. apply andb_false_iff in Ev as [Ev|Ev]; [done|]. apply Z.leb_gt in Ev. lia.
Qed.

(** ** The inodes of extent mft records *)

Context (base base_seq : Z).

(** The base mft record is mapped, and of the extents only [ext]; the inodes in the cache have the
    sequence numbers of their records. *)
Record cache_ok (ext : option Z) (w : mft_state) : Prop := {
  cache_bytes : byte_contents (ms_mft w);
  cache_base : ms_inodes w !! base = Some (mk_mft_inode base_seq true);
  cache_ext n : ext = Some n → n ≠ base ∧ is_Some (ms_inodes w !! n);
  cache_inode n ni : ms_inodes w !! n = Some ni → n ≠ base →
    ni = mk_mft_inode (get16 (record_at vol (ms_mft w) n) m_sequence_number) (bool_decide (ext = Some n));
  cache_extents : Forall (λ n, n ≠ base ∧ is_Some (ms_inodes w !! n)) (ms_extents w)
}.

Lemma inodes_insert (inodes : gmap Z mft_inode) (n : Z) ni l :
  Forall (λ k, k ≠ base ∧ is_Some (inodes !! k)) l → Forall (λ k, k ≠ base ∧ is_Some (<[n := ni]> inodes !! k)) l.
Proof.
  intros H. eapply list.Forall_impl; [exact H|]. intros k [Hk Hs]. split; [done|]. destruct (decide (k = n)) as [->|]; [rewrite lookup_insert_eq|rewrite lookup_insert_ne by done]; done.
Qed.

(** Marking the inode [n] as mapped, or the mapped one as not mapped. *)
Lemma cache_ok_map n w w' : cache_ok None w → n ≠ base → ms_mft w' = ms_mft w → ms_extents w' = ms_extents w →
  ms_inodes w' = <[n := mk_mft_inode (get16 (record_at vol (ms_mft w) n) m_sequence_number) true]> (ms_inodes w) → cache_ok (Some n) w'.
Proof.
  intros [H1 H2 _ H4 H5] Hn Em Ee Ei. split; rewrite ?Em, ?Ee, ?Ei; try done.
  - by rewrite lookup_insert_ne.
  - intros k [= <-]. by rewrite lookup_insert_eq.
  - intros k ni. destruct (decide (k = n)) as [->|Hk]; [rewrite lookup_insert_eq; intros [= <-] _; by rewrite bool_decide_eq_true_2|].
    rewrite lookup_insert_ne by done. intros Hni Hb. rewrite (H4 k ni Hni Hb). rewrite !bool_decide_eq_false_2 by congruence. done.
  - by apply inodes_insert.
Qed.
Lemma cache_ok_unmap n w w' : cache_ok (Some n) w → ms_mft w' = ms_mft w → ms_extents w' = ms_extents w →
  ms_inodes w' = <[n := mk_mft_inode (get16 (record_at vol (ms_mft w) n) m_sequence_number) false]> (ms_inodes w) → cache_ok None w'.
Proof.
  intros [H1 H2 H3 H4 H5] Em Ee Ei. destruct (H3 n eq_refl) as [Hn _]. split; rewrite ?Em, ?Ee, ?Ei; try done.
  - by rewrite lookup_insert_ne.
  - intros k ni. destruct (decide (k = n)) as [->|Hk]; [rewrite lookup_insert_eq; by intros [= <-] _|].
    rewrite lookup_insert_ne by done. intros Hni Hb. rewrite (H4 k ni Hni Hb). rewrite !bool_decide_eq_false_2 by congruence. done.
  - by apply inodes_insert.
Qed.
Lemma cache_ok_delete n w w' : cache_ok None w → n ≠ base → n ∉ ms_extents w → ms_mft w' = ms_mft w → ms_extents w' = ms_extents w →
  ms_inodes w' = delete n (ms_inodes w) → cache_ok None w'.
Proof.
  intros [H1 H2 H3 H4 H5] Hb Hn Em Ee Ei. split; rewrite ?Em, ?Ee, ?Ei; try done.
  - by rewrite lookup_delete_ne.
  - intros k ni [Hk Hni]%lookup_delete_Some. by apply H4.
  - apply list.Forall_forall. intros k Hk. rewrite list.Forall_forall in H5. destruct (H5 k Hk) as [Hkb Hs]. split; [done|]. rewrite lookup_delete_ne; [done|]. by intros <-.
Qed.
Lemma cache_ok_same ext w w' : cache_ok ext w → ms_mft w' = ms_mft w → ms_extents w' = ms_extents w → ms_inodes w' = ms_inodes w → cache_ok ext w'.
Proof. intros [H1 H2 H3 H4 H5] Em Ee Ei. split; rewrite ?Em, ?Ee, ?Ei; done. Qed.

Lemma unmap_inode n s w : ms_inodes w !! n = Some (mk_mft_inode s true) →
  ∃ w', ntfs_mft_record_unmap vol n w = Ret ((), w') ∧ same_mft w w' ∧ same_extents w w' ∧ ms_inodes w' = <[n := mk_mft_inode s false]> (ms_inodes w).
Proof.
  intros Hni. unfold ntfs_mft_record_unmap. rewrite (mio_step _ _ w (mk_mft_inode s true) w) by (unfold get_inode; by rewrite Hni). cbn [ni_mapped negb].
  match goal with |- context [(?c ≫= _) w] => assert (∃ k, c w = Ret ((), tick k w)) as (k & Ek) end.
  { destruct (_ <? _); [|by exists 1%nat]. rewrite ask_step. destruct (negb _); [by exists 2%nat|]. rewrite ask_step. destruct (negb _); [by exists 2%nat|]. by exists 3%nat. }
  rewrite (mio_step _ _ _ _ _ Ek). by eexists.
Qed.
Lemma unmap_spec n w : cache_ok (Some n) w → ∃ w', ntfs_mft_record_unmap vol n w = Ret ((), w') ∧ same_mft w w' ∧ cache_ok None w'.
Proof.
  intros H. destruct (cache_ext _ _ H n eq_refl) as [Hn [ni Hni]]. pose proof (cache_inode _ _ H n ni Hni Hn) as ->. rewrite bool_decide_eq_true_2 in Hni by done.
  destruct (unmap_inode _ _ _ Hni) as (w' & E & Hs & He & Ei). exists w'. split; [done|]. split; [done|]. eapply cache_ok_unmap; [done|apply Hs|apply He|done].
Qed.

(** The reference names the record: it has its sequence number, or none. *)
Definition ref_ok (f : contents) (mref : Z) : Prop := MSEQNO mref = 0 ∨ get16 (record_at vol f (MREF mref)) m_sequence_number = MSEQNO mref.

Definition ext_mapped (mref : Z) (w w' : mft_state) (r : Z + Z * list Z) : Prop :=
  same_mft w w' ∧
  match r with
  | inl err => err ≠ 0 ∧ cache_ok None w'
  | inr (n, m) => n = MREF mref ∧ m = record_at vol (ms_mft w) n ∧ cache_ok (Some n) w' ∧ ref_ok (ms_mft w) mref
  end ∧
  (quiet_mft_env env → record_valid vol (ms_mft w) (MREF mref) → ref_ok (ms_mft w) mref → ∃ x, r = inr x).

Lemma MREF_nonneg mref : 0 ≤ MREF mref.
Proof. unfold MREF. change 0xffffffffffff with (Z.ones 48). rewrite Z.land_ones by lia. apply Z.mod_pos_bound. lia. Qed.

Lemma seq_check f mref : (MSEQNO mref =? 0) || (get16 (record_at vol f (MREF mref)) m_sequence_number =? MSEQNO mref) = true ↔ ref_ok f mref.
Proof. unfold ref_ok. rewrite orb_true_iff, !Z.eqb_eq. done. Qed.

Lemma record_seq f n : le16_at (record_at vol f n) m_sequence_number = Ret (get16 (record_at vol f n) m_sequence_number).
Proof. apply le16_get. rewrite length_record_at. pose proof (proj2 (mv_size _ Hvol)). unfold m_sequence_number. lia. Qed.

(** An extent that is attached already. *)
Lemma attached_ext_spec mref w : cache_ok None w → MREF mref ∈ ms_extents w →
  ∃ r w', ntfs_extent_mft_record_map_ext vol mref w = Ret (r, w') ∧ ext_mapped mref w w' r.
Proof.
  intros H Hin. set (n := MREF mref) in *. pose proof (proj1 (list.Forall_forall _ _) (cache_extents _ _ H) n Hin) as [Hn [ni Hni]].
  pose proof (cache_inode _ _ H n ni Hni Hn) as Eni. unfold ntfs_extent_mft_record_map_ext. rewrite (mio_step get_state _ w w w) by done. fold n.
  rewrite (proj2 (existsb_exists _ _)) by (exists n; split; [by apply list_elem_of_In|apply Z.eqb_refl]).
  destruct (map_ext_spec n ni w (cache_bytes _ _ H) (MREF_nonneg mref) Hni) as (r & w1 & E & Hs & He & Hr & Hq); [by subst ni|]. rewrite (mio_step _ _ _ _ _ E).
  destruct r as [err|m].
  - destruct Hr as [Herr Ei]. eexists _, _. split; [done|]. split; [done|]. split; [split; [done|]; eapply cache_ok_same; [done|apply Hs|apply He|done]|].
    intros Q V _. by specialize (Hq Q V).
  - destruct Hr as [-> Ei]. rewrite (mlift_step _ _ _ _ (record_seq _ _)). subst ni. cbn [ni_seq_no] in Ei.
    assert (cache_ok (Some n) w1) as H1 by (eapply cache_ok_map; [done|done|apply Hs|apply He|done]).
    destruct ((MSEQNO mref =? 0) || _) eqn:Es.
    + eexists _, _. split; [done|]. split; [done|]. split; [split_and!; [done|done|done|by apply seq_check]|eauto].
    + destruct (unmap_spec n w1 H1) as (w2 & E2 & Hs2 & H2). rewrite (mio_step _ _ _ _ _ E2). eexists _, _. split; [done|]. split; [by etrans|]. split; [done|].
      intros _ _ R%seq_check. fold n in R. by rewrite Es in R.
Qed.

(** The inode of an extent that is not attached, from the cache or a new one. *)
Lemma extent_inode_get_spec mref w : cache_ok None w → MREF mref ≠ base → MREF mref ∉ ms_extents w → let n := MREF mref in
  ∃ err w', ntfs_extent_inode_get mref w = Ret (err, w') ∧ same_mft w w' ∧ same_extents w w' ∧
    (if err =? 0 then ∃ s, ms_inodes w' = <[n := mk_mft_inode s false]> (ms_inodes w) ∧ (MSEQNO mref ≠ 0 → s = MSEQNO mref) else cache_ok None w') ∧
    (quiet_mft_env env → ref_ok (ms_mft w) mref → err = 0).
Proof.
  intros H Hb Hnot n. unfold ntfs_extent_inode_get. rewrite (mio_step get_state _ w w w) by done. fold n. destruct (ms_inodes w !! n) as [ni|] eqn:Hni.
  - pose proof (cache_inode _ _ H n ni Hni Hb) as Eni. destruct ((MSEQNO mref =? 0) || (ni_seq_no ni =? MSEQNO mref)) eqn:Es.
    + eexists _, _. split; [done|]. split; [done|]. split; [done|]. split; [|done]. cbn [Z.eqb]. exists (ni_seq_no ni). split; [by rewrite Eni in Hni |- *; rewrite insert_id|].
      intros H0. apply orb_true_iff in Es as [Es%Z.eqb_eq|Es%Z.eqb_eq]; [done|done].
    + eexists _, _. split; [done|]. split; [done|]. split; [done|]. split; [cbn [Z.eqb]; by eapply (cache_ok_delete n)|].
      intros _ R%seq_check. fold n in R. subst ni. cbn [ni_seq_no] in Es. by rewrite Es in R.
  - rewrite request_step. destruct (memory_fails _) eqn:Em.
    + eexists _, _. split; [done|]. split; [done|]. split; [done|]. split; [cbn [Z.eqb]; by eapply cache_ok_same|]. intros (_ & Q & _) _. by rewrite Q in Em.
    + eexists _, _. split; [done|]. split; [done|]. split; [done|]. split; [|done]. cbn [Z.eqb]. by eexists.
Qed.

Lemma attach_extent_spec n w : ∃ err w', attach_extent n w = Ret (err, w') ∧ ms_mft w' = ms_mft w ∧ ms_errors w' = ms_errors w ∧ ms_inodes w' = ms_inodes w ∧
  ms_extents w' = (if err =? 0 then ms_extents w ++ [n] else ms_extents w) ∧ (quiet_mft_env env → err = 0).
Proof.
  unfold attach_extent. rewrite (mio_step get_state _ w w w) by done. destruct (_ <? _); [|by eexists _, _].
  rewrite request_step. destruct (memory_fails _) eqn:Em; [|by eexists _, _]. eexists _, _. split; [done|]. split_and!; try done. intros (_ & Q & _). by rewrite Q in Em.
Qed.

Lemma cache_ok_attach n w w' : cache_ok (Some n) w → ms_mft w' = ms_mft w → ms_inodes w' = ms_inodes w → ms_extents w' = ms_extents w ++ [n] → cache_ok (Some n) w'.
Proof.
  intros [H1 H2 H3 H4 H5] Em Ei Ee. split; rewrite ?Em, ?Ei, ?Ee; try done. apply list.Forall_app. split; [done|]. constructor; [by apply H3|done].
Qed.

(** The last part of the function: the sequence number, and the attachment to the base inode. *)
Lemma ext_seq_step {B} mref s w (k : Z → mio B) : let n := MREF mref in let seq := get16 (record_at vol (ms_mft w) n) m_sequence_number in
  ms_inodes w !! n = Some (mk_mft_inode s true) → (MSEQNO mref ≠ 0 → s = MSEQNO mref) →
  ∃ err w', ((if negb (MSEQNO mref =? 0) then mret (if negb (seq =? MSEQNO mref) then EIO else 0)
              else ni ← get_inode n; _ ← put_inode n (mk_mft_inode seq (ni_mapped ni)); mret 0) ≫= k) w = k err w' ∧
    same_mft w w' ∧ same_extents w w' ∧ (ref_ok (ms_mft w) mref → err = 0) ∧
    ∃ s', ms_inodes w' = <[n := mk_mft_inode s' true]> (ms_inodes w) ∧ (err = 0 → s' = seq ∧ ref_ok (ms_mft w) mref).
Proof.
  intros n seq Hni Hs. unfold ref_ok. fold n seq. destruct (Z.eqb_spec (MSEQNO mref) 0) as [E|E]; cbn [negb].
  - eexists 0, _. split; [unfold mbind, mio_bind, get_inode; rewrite Hni; reflexivity|]. split; [done|]. split; [done|]. split; [done|]. exists seq. split; [done|]. by split; [|left].
  - eexists _, w. split; [reflexivity|]. split; [done|]. split; [done|]. split; [intros [?|R]; [done|]; by rewrite R, Z.eqb_refl|]. exists s. split; [by rewrite insert_id|].
    destruct (Z.eqb_spec seq (MSEQNO mref)) as [R|R]; [|done]. intros _. split; [rewrite R; by apply Hs|by right].
Qed.

Lemma new_ext_spec mref w : cache_ok None w → MREF mref ≠ base → MREF mref ∉ ms_extents w →
  ∃ r w', ntfs_extent_mft_record_map_ext vol mref w = Ret (r, w') ∧ ext_mapped mref w w' r.
Proof.
  intros H Hb Hnot. pose proof (MREF_nonneg mref) as Hn0. destruct (extent_inode_get_spec mref w H Hb Hnot) as (err & w1 & E1 & Hs1 & He1 & Hr1 & Hq1). set (n := MREF mref) in *.
  unfold ntfs_extent_mft_record_map_ext. rewrite (mio_step get_state _ w w w) by done. fold n.
  destruct (existsb (Z.eqb n) (ms_extents w)) eqn:Ex; [exfalso; apply existsb_exists in Ex as (x & Hx & ->%Z.eqb_eq); by apply Hnot, list_elem_of_In|].
  rewrite (mio_step _ _ _ _ _ E1). clear E1. destruct (Z.eqb_spec err 0) as [->|Herr]; cbn [negb].
  2: { eexists _, _. split; [done|]. split; [done|]. split; [done|]. intros Q _ R. by destruct Herr; apply Hq1. }
  destruct Hr1 as (s & Ei1 & Hseq). assert (ms_mft w1 = ms_mft w) as Em1 by apply Hs1.
  destruct (map_ext_spec n (mk_mft_inode s false) w1) as (r & w2 & E2 & Hs2 & He2 & Hr2 & Hq2); [rewrite Em1; apply H|done|by rewrite Ei1, lookup_insert_eq|done|].
  rewrite (mio_step _ _ _ _ _ E2). clear E2. rewrite Em1 in *. assert (same_mft w w2) as Hs by by etrans. assert (same_extents w w2) as He by by etrans.
  destruct r as [err|m].
  { destruct Hr2 as [Herr Ei2]. eexists _, _. split; [done|]. split; [done|]. split; [split; [done|]|intros Q V _; by specialize (Hq2 Q V)].
    eapply (cache_ok_delete n); [done|done|done|apply Hs|apply He|]. cbn. by rewrite Ei2, Ei1, delete_insert_eq. }
  destruct Hr2 as [-> Ei2]. rewrite Ei1, insert_insert_eq in Ei2. cbn [ni_seq_no] in Ei2. rewrite (mlift_step _ _ _ _ (record_seq _ _)).
  assert (ms_mft w2 = ms_mft w) as Em2 by apply Hs. rewrite <- Em2.
  match goal with |- context [(_ ≫= ?k) w2] => destruct (ext_seq_step mref s w2 k) as (err & w3 & E3 & Hs3 & He3 & Hq3 & s' & Ei3 & Hseq3) end; [by rewrite Ei2, lookup_insert_eq|done|].
  fold n in E3. rewrite E3. clear E3. fold n in Ei3, Hseq3. rewrite Ei2, insert_insert_eq in Ei3. rewrite Em2 in *. assert (same_mft w w3) as Hs' by by etrans. assert (same_extents w w3) as He' by by etrans.
  assert (∃ err' w4, (if negb (err =? 0) then mret err else attach_extent n) w3 = Ret (err', w4) ∧ same_mft w w4 ∧ ms_inodes w4 = ms_inodes w3 ∧
    (err' = 0 → err = 0) ∧ ms_extents w4 = (if err' =? 0 then ms_extents w ++ [n] else ms_extents w) ∧ (quiet_mft_env env → err = 0 → err' = 0)) as (err' & w4 & E4 & Hs4 & Ei4 & H0 & Ee4 & Hq4).
  { destruct (Z.eqb_spec err 0) as [->|Hne]; cbn [negb].
    - destruct (attach_extent_spec n w3) as (e & w4 & E4 & A1 & A2 & A3 & A4 & A5). exists e, w4. split; [done|]. split; [split; [by rewrite A1; apply Hs'|rewrite A2; apply Hs']|].
      split; [done|]. split; [done|]. rewrite A4. split; [by rewrite (proj1 He')|auto].
    - eexists _, _. split; [done|]. split; [done|]. split; [done|]. split; [done|]. rewrite (proj2 (Z.eqb_neq err 0)) by done. split; [apply He'|done]. }
  rewrite (mio_step _ _ _ _ _ E4). clear E4. destruct (Z.eqb_spec err' 0) as [->|Hne]; cbn [negb].
  - destruct (Hseq3 (H0 eq_refl)) as [-> Href]. eexists _, _. split; [done|]. split; [done|]. split; [|eauto]. split; [done|]. split; [done|]. split; [|done].
    eapply (cache_ok_attach n (mk_mft_state (ms_clock w3) (ms_errors w3) (ms_mft w) (ms_inodes w3) (ms_extents w) (ms_extent_alloc w3))); [|apply Hs4|done|done].
    by eapply cache_ok_map.
  - destruct (unmap_inode n s' w4) as (w5 & E5 & Hs5 & He5 & Ei5); [by rewrite Ei4, Ei3, lookup_insert_eq|]. rewrite (mio_step _ _ _ _ _ E5). eexists _, _. split; [done|].
    assert (same_mft w w5) as Hs6 by by etrans. split; [exact Hs6|]. split; [split; [done|]|intros Q V R; destruct Hne; auto].
    eapply (cache_ok_delete n); [done|done|done|apply Hs6| |].
    + cbn. by rewrite (proj1 He5), Ee4.
    + cbn. by rewrite Ei5, Ei4, Ei3, !delete_insert_eq.
Qed.

Lemma ext_map_spec mref w : cache_ok None w → MREF mref ≠ base → ∃ r w', ntfs_extent_mft_record_map_ext vol mref w = Ret (r, w') ∧ ext_mapped mref w w' r.
Proof. intros H Hb. destruct (decide (MREF mref ∈ ms_extents w)); [by apply attached_ext_spec|by apply new_ext_spec]. Qed.
End spec.
