(* ===== verification/AttrList.v ===== *)
(** * Finding attributes through the attribute list

    [kext/ntfs_attr.c]: [ntfs_attr_lookup] and [ntfs_attr_find_in_attribute_list].  The attribute list
    of an inode has an entry for every attribute record of the base mft record and of the extent mft
    records, sorted by type, name and lowest VCN. *)

From stdpp Require Import gmap.
From S2P Require Import Prelude Bytes Unistr Collate PageCache Mst MftRecord AttrFind MftMap.

(** ** Operations *)

Definition AT_ATTRIBUTE_LIST : Z := 0x20.

(** Offsets of the fields of [ATTR_LIST_ENTRY], and one more of [ATTR_RECORD]. *)
Definition al_type : nat := 0.
Definition al_length : nat := 4.
Definition al_name_length : nat := 6.
Definition al_name_offset : nat := 7.
Definition al_lowest_vcn : nat := 8.
Definition al_mft_reference : nat := 16.
Definition al_instance : nat := 24.
Definition a_non_resident : nat := 8.

(** The search context: the inode and the mft record, the attribute record in it, the entry of the
    attribute list, and [base_m] and [base_a] once [base_ni] is set. *)
Record list_ctx := mk_list_ctx {
  lc_ni : Z;
  lc_m : list Z;
  lc_ctx : search_ctx;
  lc_al_entry : option nat;
  lc_base : option (list Z * nat)
}.
Definition set_a (a : nat) (c : search_ctx) : search_ctx := mk_ctx a (is_first c) (is_iteration c).

Section list.
Context {env : MftEnv} (vol : mft_volume) (case_sensitive : bool) (upcase : list Z).

(** The number of the base mft record and its attribute list. *)
Context (base : Z) (al : list Z).

Definition entry_name (e : nat) : outcome (list Z) :=
  len ← rd al (e + al_name_length);
  ofs ← rd al (e + al_name_offset);
  le16s_at al (e + Z.to_nat ofs) (Z.to_nat len).

(** The comparison of the type and the name with the entry at [e]. *)
Definition compare_entry (type : Z) (name : name_arg) (e : nat) : outcome verdict :=
  t ← le32_at al (e + al_type);
  if negb (t =? type) then Ret (if t <? type then go_on else not_found) else
  match name with
  | any_name => Ret found
  | AT_UNNAMED => len ← rd al (e + al_name_length); Ret (if negb (len =? 0) then not_found else found)
  | some_name name =>
      al_name ← entry_name e;
      equal ← ntfs_are_names_equal al_name name case_sensitive upcase;
      Ret (if (equal : bool) then found else collate_verdict upcase name al_name)
  end.

(** Whether the entry at [next] is one of the same attribute that [lowest_vcn] belongs to as well. *)
Definition next_fits (lowest_vcn : Z) (e next : nat) : outcome bool :=
  if lowest_vcn =? 0 then Ret false else
  if negb (next + 6 <? length al)%nat then Ret false else
  len ← le16_at al (next + al_length);
  if Z.of_nat (length al) <? Z.of_nat next + len then Ret false else
  vcn ← le64_at al (next + al_lowest_vcn);
  if lowest_vcn <? s64 vcn then Ret false else
  next_type ← le32_at al (next + al_type);
  type ← le32_at al (e + al_type);
  if negb (next_type =? type) then Ret false else
  next_len ← rd al (next + al_name_length);
  len ← rd al (e + al_name_length);
  if negb (next_len =? len) then Ret false else
  next_name ← entry_name next;
  name ← entry_name e;
  ntfs_are_names_equal next_name name case_sensitive upcase.

(** Whether the attribute record at [a] has the value. *)
Definition has_value (val : option (list Z)) (m : list Z) (a : nat) : outcome bool :=
  match val with
  | None => Ret true
  | Some val =>
      non_resident ← rd m (a + a_non_resident);
      if negb (non_resident =? 0) then Ret false else
      value_length ← le32_at m (a + a_value_length);
      if negb (value_length =? Z.of_nat (length val)) then Ret false else
      value_offset ← le16_at m (a + a_value_offset);
      rc ← memcmp (drop (a + Z.to_nat value_offset) m) val (length val);
      Ret (rc =? 0)
  end.

(** The name of the attribute record at [a] is the one of the entry at [e]; the names are compared
    only when they have the same length. *)
Definition record_has_name (m : list Z) (a e : nat) : outcome bool :=
  a_len ← rd m (a + a_name_length);
  len ← rd al (e + al_name_length);
  if negb (a_len =? len) then Ret false else
  a_ofs ← le16_at m (a + a_name_offset);
  a_name ← le16s_at m (a + Z.to_nat a_ofs) (Z.to_nat a_len);
  al_name ← entry_name e;
  ntfs_are_names_equal a_name al_name case_sensitive upcase.

(** [do_next_attr_loop]: the attribute record of the entry at [e] in the mft record [m] from [a] on.
    Attribute records have at least one byte. *)
Fixpoint next_attr_loop (fuel : nat) (val : option (list Z)) (m : list Z) (e a ctx_a : nat) : outcome (verdict * nat) :=
  match fuel with
  | O => Oob
  | S fuel =>
      alloc ← le32_at m m_bytes_allocated;
      if alloc <? Z.of_nat a then Ret (corrupt, ctx_a) else
      type ← le32_at m (a + a_type);
      if type =? AT_END then Ret (go_on, ctx_a) else
      length ← le32_at m (a + a_length);
      if length =? 0 then Ret (corrupt, ctx_a) else
      let next := next_attr_loop fuel val m e (a + Z.to_nat length) in
      instance ← le16_at m (a + a_instance);
      al_inst ← le16_at al (e + al_instance);
      if negb (al_inst =? instance) then next ctx_a else
      al_ty ← le32_at al (e + al_type);
      if negb (al_ty =? type) then Ret (corrupt, ctx_a) else
      same ← record_has_name m a e;
      if negb same then Ret (corrupt, ctx_a) else
      match_val ← has_value val m a;
      if (match_val : bool) then Ret (found, a) else next a
  end.

(** The record of the entry at [e]: [inl] ends the search with an error, [true] if [ni] is NULL. *)
Definition switch_record (e : nat) (ctx : list_ctx) : mio ((Z * bool) + list_ctx) :=
  mref ← mlift (le64_at al (e + al_mft_reference));
  if MREF mref =? lc_ni ctx then
    ni ← get_inode (lc_ni ctx);
    mret (if negb (MSEQNO mref =? ni_seq_no ni) then inl (EIO, false) else inr ctx)
  else
    _ ← (if negb (lc_ni ctx =? base) then ntfs_mft_record_unmap vol (lc_ni ctx) else mret ());
    if MREF mref =? base then
      match lc_base ctx with
      | None => mlift Panic
      | Some (base_m, _) => mret (inr (mk_list_ctx base base_m (lc_ctx ctx) (lc_al_entry ctx) (lc_base ctx)))
      end
    else
      r ← ntfs_extent_mft_record_map_ext vol mref;
      mret (match r with
            | inl err => inl (if err =? ENOENT then EIO else err, true)
            | inr (n, m) => inr (mk_list_ctx n m (lc_ctx ctx) (lc_al_entry ctx) (lc_base ctx))
            end).

(** How the loop over the entries ends: the attribute is found, it is not found, or there is an
    error, in which case [err] may be zero. *)
Inductive list_end := list_found | list_not_found | list_error (err : Z) (null : bool).

(** [for (;; al_entry = next_al_entry)]; entries have at least one byte. *)
Fixpoint entry_loop (fuel : nat) (type : Z) (name : name_arg) (lowest_vcn : Z) (val : option (list Z)) (e : nat) (ctx : list_ctx)
    : mio (list_end * list_ctx) :=
  match fuel with
  | O => mlift Oob
  | S fuel =>
      if (length al <? e)%nat then mret (list_error 0 false, ctx) else
      let ctx := mk_list_ctx (lc_ni ctx) (lc_m ctx) (lc_ctx ctx) (Some e) (lc_base ctx) in
      if (e =? length al)%nat then mret (list_not_found, ctx) else
      len ← mlift (le16_at al (e + al_length));
      if len =? 0 then mret (list_error 0 false, ctx) else
      if (length al <? e + 6)%nat || (Z.of_nat (length al) <? Z.of_nat e + len) then mret (list_error 0 false, ctx) else
      let next := (e + Z.to_nat len)%nat in
      let continue := entry_loop fuel type name lowest_vcn val next in
      v ← mlift (compare_entry type name e);
      match v with
      | go_on => continue ctx
      | not_found => mret (list_not_found, ctx)
      | corrupt => mret (list_error 0 false, ctx)
      | found =>
          fits ← mlift (next_fits lowest_vcn e next);
          if (fits : bool) then continue ctx else
          r ← switch_record e ctx;
          match r with
          | inl (err, null) => mret (list_error err null, ctx)
          | inr ctx =>
              attrs_offset ← mlift (le16_at (lc_m ctx) m_attrs_offset);
              alloc ← mlift (le32_at (lc_m ctx) m_bytes_allocated);
              let first := Z.to_nat attrs_offset in
              '(v, a) ← mlift (next_attr_loop (S (S (Z.to_nat alloc))) val (lc_m ctx) e first first);
              let ctx := mk_list_ctx (lc_ni ctx) (lc_m ctx) (set_a a (lc_ctx ctx)) (lc_al_entry ctx) (lc_base ctx) in
              match v with
              | found => mret (list_found, ctx)
              | go_on => continue ctx
              | _ => mret (list_error 0 false, ctx)
              end
          end
      end
  end.

(** [do ... while (!err)]: past all matches in the base mft record. *)
Fixpoint find_last (fuel : nat) (type : Z) (name : name_arg) (val : option (list Z)) (m : list Z) (ctx : search_ctx)
    : outcome (Z * search_ctx * bool) :=
  match fuel with
  | O => Oob
  | S fuel =>
      '(err, ctx, errors) ← ntfs_attr_find_in_mft_record case_sensitive upcase type name val m ctx;
      if err =? 0 then find_last fuel type name val m ctx else Ret (err, ctx, errors)
  end.

Definition note_errors (errors : bool) : mio () := if errors then set_errors else mret ().

(** The extent of the context is released, and the base mft record is the current one. *)
Definition back_to_base (ctx : list_ctx) : mio () :=
  if negb (lc_ni ctx =? base) then ntfs_mft_record_unmap vol (lc_ni ctx) else mret ().

Definition list_not_found_end (type : Z) (name : name_arg) (val : option (list Z)) (ctx : list_ctx) : mio (Z * list_ctx) :=
  _ ← back_to_base ctx;
  match lc_base ctx with
  | None => mlift Panic
  | Some (base_m, _) =>
      attrs_offset ← mlift (le16_at base_m m_attrs_offset);
      alloc ← mlift (le32_at base_m m_bytes_allocated);
      if type =? AT_END then
        '(err, c, errors) ← mlift (ntfs_attr_find_in_mft_record case_sensitive upcase AT_END any_name None base_m (mk_ctx (Z.to_nat attrs_offset) true false));
        _ ← note_errors errors;
        mret (err, mk_list_ctx base base_m c None None)
      else
        '(err, c, errors) ← mlift (find_last (S (S (Z.to_nat alloc))) type name val base_m (mk_ctx (Z.to_nat attrs_offset) true (is_iteration (lc_ctx ctx))));
        _ ← note_errors errors;
        mret (err, mk_list_ctx base base_m c (lc_al_entry ctx) (Some (base_m, ctx_a c)))
  end.

Definition ntfs_attr_find_in_attribute_list (type : Z) (name : name_arg) (lowest_vcn : Z) (val : option (list Z)) (ctx : list_ctx)
    : mio (Z * list_ctx) :=
  if is_iteration (lc_ctx ctx) then mlift Panic else
  let bases := match lc_base ctx with None => (lc_m ctx, ctx_a (lc_ctx ctx)) | Some b => b end in
  let bases := if lc_ni ctx =? base then (bases.1, ctx_a (lc_ctx ctx)) else bases in
  let ctx := mk_list_ctx (lc_ni ctx) (lc_m ctx) (lc_ctx ctx) (lc_al_entry ctx) (Some bases) in
  if type =? AT_END then list_not_found_end type name val ctx else
  let al_entry := match lc_al_entry ctx with None => 0%nat | Some e => e end in
  e ← mlift (if is_first (lc_ctx ctx) then Ret al_entry else len ← le16_at al (al_entry + al_length); Ret (al_entry + Z.to_nat len)%nat);
  let ctx := mk_list_ctx (lc_ni ctx) (lc_m ctx) (mk_ctx (ctx_a (lc_ctx ctx)) false false) (Some al_entry) (Some bases) in
  '(r, ctx) ← entry_loop (S (S (length al))) type name lowest_vcn val e ctx;
  match r with
  | list_found => mret (0, ctx)
  | list_not_found => list_not_found_end type name val ctx
  | list_error err null =>
      let err := if err =? 0 then EIO else err in
      _ ← (if null then mret () else back_to_base ctx);
      let ctx := if null || negb (lc_ni ctx =? base)
                 then mk_list_ctx base bases.1 (set_a bases.2 (lc_ctx ctx)) (lc_al_entry ctx) (Some bases) else ctx in
      _ ← note_errors (negb (err =? ENOMEM));
      mret (err, ctx)
  end.

(** [has_list] is [NInoAttrList(base_ni)]. *)
Definition ntfs_attr_lookup (has_list : bool) (type : Z) (name : name_arg) (lowest_vcn : Z) (val : option (list Z)) (ctx : list_ctx)
    : mio (Z * list_ctx) :=
  if negb has_list || (type =? AT_ATTRIBUTE_LIST) then
    '(err, c, errors) ← mlift (ntfs_attr_find_in_mft_record case_sensitive upcase type name val (lc_m ctx) (lc_ctx ctx));
    _ ← note_errors errors;
    mret (err, mk_list_ctx (lc_ni ctx) (lc_m ctx) c (lc_al_entry ctx) (lc_base ctx))
  else if is_iteration (lc_ctx ctx) then mlift Panic
  else ntfs_attr_find_in_attribute_list type name lowest_vcn val ctx.
End list.
