(* ===== verification/AttrListSpec.v ===== *)
(** * What a lookup through the attribute list finds

    The entries of an attribute list that fits the attribute records of its inode, and
    [ntfs_attr_lookup] ([AttrList]) as a search in the list of the entries. *)

From Stdlib Require Import Sorted.
From stdpp Require Import gmap.
From S2P Require Import Prelude Bytes Unistr Collate PageCache Mst MftRecord AttrFind AttrOrder MftMap AttrList.

(** ** Entries *)

Record entry_ok (e : list Z) : Prop := {
  entry_bytes : bytes e;
  entry_length : get16 e al_length = Z.of_nat (length e);
  entry_size : (26 ≤ length e)%nat;
  entry_name_in : get8 e al_name_offset + 2 * get8 e al_name_length ≤ Z.of_nat (length e)
}.
Definition e_type (e : list Z) : Z := get32 e al_type.
Definition e_name (e : list Z) : list Z :=
  (λ k, get16 e (Z.to_nat (get8 e al_name_offset) + 2 * k)%nat) <$> seq 0 (Z.to_nat (get8 e al_name_length)).
Definition e_lowest_vcn (e : list Z) : Z := s64 (get64 e al_lowest_vcn).
Definition e_ref (e : list Z) : Z := get64 e al_mft_reference.
Definition e_instance (e : list Z) : Z := get16 e al_instance.

Ltac in_list := unfold al_type, al_length, al_name_length, al_name_offset, al_lowest_vcn, al_mft_reference, al_instance in *; lia.
Ltac entry_fields := rewrite ?rd_part, ?le16_part, ?le32_part, ?le64_part by in_list; cbn [mbind outcome_bind].

Lemma e_name_length e : Z.of_nat (length (e_name e)) = Z.max 0 (get8 e al_name_length).
Proof. unfold e_name. rewrite length_fmap, length_seq. lia. Qed.

Lemma entry_name_part p e q : entry_ok e → entry_name (p ++ e ++ q) (length p) = Ret (e_name e).
Proof.
  intros He. pose proof (entry_size _ He). pose proof (entry_name_in _ He). pose proof (get8_range e al_name_length (entry_bytes _ He)).
  pose proof (get8_range e al_name_offset (entry_bytes _ He)). unfold entry_name. entry_fields. by rewrite le16s_part by lia.
Qed.

(** The fields of the entry at [length p]. *)
Lemma list_entry_at al p e q : entry_ok e → al = p ++ e ++ q →
  le16_at al (length p + al_length) = Ret (Z.of_nat (length e)) ∧ le32_at al (length p + al_type) = Ret (e_type e) ∧
  rd al (length p + al_name_length) = Ret (get8 e al_name_length) ∧ le64_at al (length p + al_lowest_vcn) = Ret (get64 e al_lowest_vcn) ∧
  entry_name al (length p) = Ret (e_name e) ∧ le64_at al (length p + al_mft_reference) = Ret (e_ref e) ∧ le16_at al (length p + al_instance) = Ret (e_instance e).
Proof.
  intros He ->. pose proof (entry_size _ He). rewrite entry_name_part by done. entry_fields. by rewrite (entry_length _ He).
Qed.

Section names.
Context (case_sensitive : bool) (upcase : list Z).

(** Whether two stored names are the same for the driver. *)
Definition fold_name (s : list Z) : list Z := until_nul (if case_sensitive then s else ntfs_upcase_name s upcase).
Definition same_name (s t : list Z) : bool := bool_decide (length s = length t ∧ fold_name s = fold_name t).

Lemma names_equal_same s t : ntfs_are_names_equal s t case_sensitive upcase = Ret (same_name s t).
Proof.
  destruct (ntfs_are_names_equal_spec s t case_sensitive upcase) as (b & -> & Hb). f_equal. unfold same_name, fold_name.
  destruct b; symmetry; [apply bool_decide_eq_true_2|apply bool_decide_eq_false_2]; [by apply Hb|]. intros H. apply Hb in H. done.
Qed.
Lemma same_name_sym s t : same_name s t = same_name t s.
Proof. unfold same_name. apply bool_decide_ext. split; intros []; done. Qed.
Lemma same_name_order name a_name : search_name upcase name → same_name a_name name = (name_order case_sensitive upcase name a_name =? 0).
Proof.
  intros Hs. pose proof (names_equal_order case_sensitive upcase name a_name Hs) as H. rewrite names_equal_same in H. rewrite same_name_sym. by injection H.
Qed.

(** How the attribute that is looked for compares to the entry. *)
Definition entry_order (type : Z) (name : name_arg) (e : list Z) : Z :=
  if type <? e_type e then -1 else if e_type e <? type then 1 else
  match name with
  | any_name => 0
  | AT_UNNAMED => match e_name e with [] => 0 | _ => -1 end
  | some_name name => name_order case_sensitive upcase name (e_name e)
  end.

Definition arg_ok (name : name_arg) : Prop := match name with some_name name => search_name upcase name | _ => True end.

Lemma compare_entry_spec p e q type name : entry_ok e → arg_ok name →
  compare_entry case_sensitive upcase (p ++ e ++ q) type name (length p) = Ret (verdict_of (entry_order type name e)).
Proof.
  intros He Hn. pose proof (entry_size _ He). pose proof (get8_range e al_name_length (entry_bytes _ He)). unfold compare_entry, entry_order. entry_fields. fold (e_type e).
  destruct (Z.eqb_spec (e_type e) type) as [E|E]; cbn [negb]; [|ztests; done || lia]. rewrite E, !Z.ltb_irrefl. destruct name as [| |name]; [done| |].
  - entry_fields. pose proof (e_name_length e). destruct (Z.eqb_spec (get8 e al_name_length) 0), (e_name e); cbn [length] in *; try lia; done.
  - rewrite entry_name_part by done. cbn [mbind outcome_bind]. rewrite names_equal_same, same_name_order by done. cbn [mbind outcome_bind]. by rewrite name_verdict_spec.
Qed.

(** The next entry belongs to the same attribute, and to [vcn] as well. *)
Definition fits (vcn : Z) (e : list Z) (l : list (list Z)) : bool :=
  negb (vcn =? 0) &&
  match l with
  | [] => false
  | e' :: _ => (e_lowest_vcn e' <=? vcn) && (e_type e' =? e_type e) && same_name (e_name e') (e_name e)
  end.

Lemma next_fits_spec p e l q vcn : entry_ok e → Forall entry_ok l → q = concat l →
  next_fits case_sensitive upcase (p ++ e ++ q) vcn (length p) (length p + length e) = Ret (fits vcn e l).
Proof.
  intros He Hl ->. pose proof (entry_size _ He). pose proof (get8_range e al_name_length (entry_bytes _ He)) as Hlen. unfold next_fits, fits. destruct (vcn =? 0); [done|]. cbn [negb andb]. destruct l as [|e' l].
  { cbn [concat]. rewrite (proj2 (Nat.ltb_ge _ _)); [done|]. rewrite !length_app. cbn [length]. lia. }
  apply list.Forall_cons in Hl as [He' Hl]. pose proof (entry_size _ He'). pose proof (entry_length _ He') as L'. cbn [concat].
  rewrite <- (length_app p e). remember (p ++ e ++ e' ++ concat l) as al eqn:Eal. assert (al = (p ++ e) ++ e' ++ concat l) as Eal' by (rewrite Eal; apply (assoc_L (++))).
  assert (Z.of_nat (length al) = Z.of_nat (length (p ++ e)) + Z.of_nat (length e') + Z.of_nat (length (concat l))) as Hal by (rewrite Eal', !length_app; lia).
  rewrite (proj2 (Nat.ltb_lt _ _)) by lia. cbn [negb].
  rewrite (proj1 (list_entry_at al _ _ _ He' Eal')). cbn [mbind outcome_bind]. rewrite (proj2 (Z.ltb_ge _ _)) by lia.
  destruct (list_entry_at al _ _ _ He Eal) as (_ & T1 & N1 & _ & Nm1 & _). destruct (list_entry_at al _ _ _ He' Eal') as (_ & T2 & N2 & V2 & Nm2 & _).
  rewrite V2. cbn [mbind outcome_bind]. fold (e_lowest_vcn e'). destruct (Z.ltb_spec vcn (e_lowest_vcn e')) as [Hv|Hv]; [by rewrite (proj2 (Z.leb_gt _ _))|].
  rewrite (proj2 (Z.leb_le _ _)) by done. cbn [andb]. rewrite T1, T2. cbn [mbind outcome_bind]. destruct (Z.eqb_spec (e_type e') (e_type e)) as [Et|Et]; cbn [negb andb]; [|done].
  rewrite N1, N2. cbn [mbind outcome_bind]. pose proof (e_name_length e). pose proof (e_name_length e').
  pose proof (get8_range e al_name_length (entry_bytes _ He)). pose proof (get8_range e' al_name_length (entry_bytes _ He')).
  destruct (Z.eqb_spec (get8 e' al_name_length) (get8 e al_name_length)) as [En|En]; cbn [negb].
  - rewrite Nm1, Nm2. cbn [mbind outcome_bind]. apply names_equal_same.
  - unfold same_name. rewrite bool_decide_eq_false_2; [done|]. intros [? _]. lia.
Qed.
End names.

(** ** The attribute record of an entry *)

(** The value is the one that is looked for. *)
Definition value_is (val : option (list Z)) (a : list Z) : bool :=
  match val with None => true | Some v => (get8 a a_non_resident =? 0) && bool_decide (attr_value a = v) end.
Definition value_ok (val : option (list Z)) (a : list Z) : Prop := val ≠ None → get8 a a_non_resident = 0 → resident_ok a.

Lemma memcmp_app_l v q t n : (n ≤ length v)%nat → memcmp (v ++ q) t n = memcmp v t n.
Proof.
  revert v t. induction n as [|n IH]; intros v t Hn; [by destruct v, q|]. destruct v as [|x v]; cbn [length] in Hn; [lia|].
  cbn [app memcmp]. destruct t as [|y t]; [done|]. destruct (negb _); [done|]. apply IH. lia.
Qed.

Lemma has_value_spec val p a q : attr_ok a → value_ok val a → has_value val (p ++ a ++ q) (length p) = Ret (value_is val a).
Proof.
  intros Ha Hv. destruct val as [v|]; [|done]. pose proof (attr_size _ Ha) as Hsz. unfold has_value, value_is.
  rewrite rd_part by (unfold a_non_resident; lia). cbn [mbind outcome_bind]. destruct (Z.eqb_spec (get8 a a_non_resident) 0) as [E|E]; cbn [negb andb]; [|done].
  pose proof (Hv ltac:(done) E) as Hr. pose proof (length_attr_value a (attr_bytes _ Ha) Hr) as HL. destruct Hr as [Hofs Hin]. fields.
  destruct (Z.eqb_spec (get32 a a_value_length) (Z.of_nat (length v))) as [El|El]; cbn [negb].
  2: { rewrite bool_decide_eq_false_2; [done|]. intros <-. lia. }
  fields. pose proof (get16_range a a_value_offset (attr_bytes _ Ha)). pose proof (get32_range a a_value_length (attr_bytes _ Ha)).
  assert (drop (length p + Z.to_nat (get16 a a_value_offset)) (p ++ a ++ q) =
    attr_value a ++ drop (Z.to_nat (get32 a a_value_length)) (drop (Z.to_nat (get16 a a_value_offset)) a) ++ q) as ->.
  { rewrite drop_app_add, drop_app_le by lia. unfold attr_value. by rewrite (assoc_L (++)), take_drop. }
  rewrite memcmp_app_l by lia. destruct (memcmp_lex (attr_value a) v) as (rc & Hrc & Hlex). replace (min (length (attr_value a)) (length v)) with (length v) in Hrc by lia.
  rewrite Hrc. cbn [mbind outcome_bind]. f_equal. rewrite (proj2 (Nat.ltb_ge _ _)), (proj2 (Nat.eqb_eq _ _)) in Hlex by lia. symmetry. destruct (Z.eqb_spec rc 0) as [E0|E0].
  - apply bool_decide_eq_true_2. by apply lex_eq.
  - apply bool_decide_eq_false_2. intros Hx%lex_eq. rewrite Hx in Hlex. lia.
Qed.

Section link.
Context (case_sensitive : bool) (upcase : list Z).

(** The attribute record [a] is the one of the entry [e]. *)
Record attr_of (e a : list Z) : Prop := {
  of_instance : get16 a a_instance = e_instance e;
  of_type : get32 a a_type = e_type e;
  of_name : attr_name a = e_name e;
  of_name_ok : name_ok a
}.

Lemma record_has_name_spec p a q al p' e q' : attr_ok a → entry_ok e → attr_of e a → al = p' ++ e ++ q' →
  record_has_name case_sensitive upcase al (p ++ a ++ q) (length p) (length p') = Ret true.
Proof.
  intros Ha He [Hi Ht Hn Hok] Eal. pose proof (attr_size _ Ha). unfold name_ok in Hok.
  pose proof (get8_range a a_name_length (attr_bytes _ Ha)). pose proof (get16_range a a_name_offset (attr_bytes _ Ha)). pose proof (get8_range e al_name_length (entry_bytes _ He)).
  destruct (list_entry_at al p' e q' He Eal) as (_ & _ & N & _ & Nm & _). unfold record_has_name. fields. rewrite N. cbn [mbind outcome_bind].
  assert (get8 a a_name_length = get8 e al_name_length) as El.
  { pose proof (f_equal length Hn) as E. unfold attr_name, e_name in E. rewrite !length_fmap, !length_seq in E. lia. }
  rewrite <- El, Z.eqb_refl. cbn [negb]. fields. rewrite le16s_part by lia. fold (attr_name a). cbn [mbind outcome_bind]. rewrite Nm. cbn [mbind outcome_bind].
  rewrite names_equal_same, Hn. f_equal. by apply bool_decide_eq_true_2.
Qed.

(** One round of the loop. *)
Lemma next_attr_step fuel val al p' e q' p a q ctx_a r : attr_ok a → entry_ok e → al = p' ++ e ++ q' → mft_ok r → mft_bytes r = p ++ a ++ q →
  (get16 a a_instance = e_instance e → attr_of e a ∧ value_ok val a) →
  next_attr_loop case_sensitive upcase al (S fuel) val (mft_bytes r) (length p') (length p) ctx_a =
    if get16 a a_instance =? e_instance e then
      if value_is val a then Ret (found, length p)
      else next_attr_loop case_sensitive upcase al fuel val (mft_bytes r) (length p') (length (p ++ a)) (length p)
    else next_attr_loop case_sensitive upcase al fuel val (mft_bytes r) (length p') (length (p ++ a)) ctx_a.
Proof.
  intros Ha He Eal Hr Em Hof. pose proof (attr_size _ Ha) as Hsz. pose proof (attr_type _ Ha). pose proof (attr_length _ Ha) as HL. cbn [next_attr_loop]. rewrite bytes_allocated by done. cbn [mbind outcome_bind].
  rewrite (proj2 (Z.ltb_ge _ _)) by (rewrite Em, !length_app; lia). rewrite Em. fields. rewrite (proj2 (Z.eqb_neq _ AT_END)) by done. fields. rewrite HL, (proj2 (Z.eqb_neq (Z.of_nat _) 0)) by lia.
  destruct (list_entry_at al p' e q' He Eal) as (_ & T & _ & _ & _ & _ & I). rewrite I. cbn [mbind outcome_bind].
  rewrite Nat2Z.id, <- length_app. rewrite (Z.eqb_sym (get16 a a_instance)). destruct (Z.eqb_spec (e_instance e) (get16 a a_instance)) as [Ei|Ei]; cbn [negb]; [|done].
  destruct (Hof (eq_sym Ei)) as [Hao Hv]. rewrite T. cbn [mbind outcome_bind]. rewrite (of_type _ _ Hao), Z.eqb_refl. cbn [negb].
  rewrite (record_has_name_spec p a q al p' e q') by done. cbn [mbind outcome_bind negb]. rewrite has_value_spec by done. done.
Qed.

Section loop.
Context (val : option (list Z)) (al p' e q' : list Z) (He : entry_ok e) (Eal : al = p' ++ e ++ q') (r : mft) (Hr : mft_ok r).
Abbreviation loop fuel := (next_attr_loop case_sensitive upcase al fuel val (mft_bytes r) (length p')).
Abbreviation other := (λ b : list Z, get16 b a_instance ≠ e_instance e).

Lemma next_attr_other l1 l2 l3 fuel ctx_a : m_attrs r = l1 ++ l2 ++ l3 → Forall other l2 →
  loop (length l2 + fuel) (attr_ofs r l1) ctx_a = loop fuel (attr_ofs r (l1 ++ l2)) ctx_a.
Proof.
  revert l1. induction l2 as [|b l2 IH]; intros l1 E Ho; [by rewrite app_nil_r|]. apply list.Forall_cons in Ho as [Hb Ho]. cbn [length Nat.add].
  rewrite (attr_ofs_length r l1). erewrite next_attr_step; try done; [|by eapply attr_ok_in|by apply mft_bytes_split|by intros ?].
  rewrite (proj2 (Z.eqb_neq _ _)) by done. rewrite (length_app (_ ++ _) b), <- attr_ofs_length, <- attr_ofs_snoc.
  rewrite IH by (done || by rewrite <- (assoc_L (++))). by rewrite <- (assoc_L (++)).
Qed.

Lemma next_attr_end fuel ctx_a : loop (S fuel) (attr_ofs r (m_attrs r)) ctx_a = Ret (go_on, ctx_a).
Proof.
  pose proof (ok_fin_size _ Hr) as Hf. cbn [next_attr_loop]. rewrite bytes_allocated by done. cbn [mbind outcome_bind].
  assert (mft_bytes r = (m_head r ++ concat (m_attrs r)) ++ m_fin r ++ m_spare r) as Em by (unfold mft_bytes; by app_norm).
  rewrite (proj2 (Z.ltb_ge _ _)) by (rewrite Em, !length_app; unfold attr_ofs; lia).
  rewrite Em, attr_ofs_length. rewrite (le32_part _ _ _ a_type) by (unfold a_type; lia). cbn [mbind outcome_bind]. by rewrite (ok_fin_type _ Hr), Z.eqb_refl.
Qed.

(** The loop finds the attribute record of the entry, and goes on with the next entry if the value is another one. *)
Lemma next_attr_loop_spec l1 a l2 fuel ctx_a : m_attrs r = l1 ++ a :: l2 → attr_of e a → value_ok val a → Forall other (l1 ++ l2) → (length (m_attrs r) < fuel)%nat →
  loop fuel (attr_ofs r []) ctx_a = Ret (if value_is val a then found else go_on, attr_ofs r l1).
Proof.
  intros E Ha Hv Ho Hfuel. apply list.Forall_app in Ho as [Ho1 Ho2]. rewrite E, length_app in Hfuel. cbn [length] in Hfuel.
  replace fuel with (length l1 + S (length l2 + S (fuel - length l1 - S (length l2) - 1)))%nat by lia. rewrite (next_attr_other [] l1 (a :: l2)) by done. cbn [app].
  rewrite (attr_ofs_length r l1). erewrite next_attr_step; try done; [|by eapply attr_ok_in|by apply mft_bytes_split]. rewrite (of_instance _ _ Ha), Z.eqb_refl.
  destruct (value_is val a); [done|]. rewrite (length_app (_ ++ _) a), <- attr_ofs_length, <- attr_ofs_snoc.
  rewrite (next_attr_other (l1 ++ [a]) l2 []) by (done || by rewrite app_nil_r, <- (assoc_L (++))). rewrite <- (assoc_L (++)). cbn [app]. rewrite <- E. apply next_attr_end.
Qed.
End loop.
End link.

(** ** The walk over the list *)

Section search.
Context {env : MftEnv} (vol : mft_volume) (Hvol : mft_volume_ok vol) (case_sensitive : bool) (upcase : list Z).

(** The base inode, the entries of its attribute list, the records of the inode, and the mft. *)
Context (base base_seq : Z) (E : list (list Z)) (rec : Z → mft) (f : contents).
Context (type : Z) (name : name_arg) (lowest_vcn : Z) (val : option (list Z)).

Abbreviation e_rec e := (rec (MREF (e_ref e))).

(** The entry names a record of the mft with its sequence number, and exactly one attribute record
    in it has the instance number, which also has the type and the name. *)
Record linked (e : list Z) : Prop := {
  link_entry : entry_ok e;
  link_valid : record_valid vol f (MREF (e_ref e));
  link_bytes : record_at vol f (MREF (e_ref e)) = mft_bytes (e_rec e);
  link_mft : mft_ok (e_rec e);
  link_seq : MSEQNO (e_ref e) = if MREF (e_ref e) =? base then base_seq else get16 (record_at vol f (MREF (e_ref e))) m_sequence_number;
  link_attr : ∃ l1 a l2, m_attrs (e_rec e) = l1 ++ a :: l2 ∧ attr_of e a ∧ value_ok val a ∧ Forall (λ b, get16 b a_instance ≠ e_instance e) (l1 ++ l2)
}.

(** The attribute record of the entry. *)
Definition entry_attr (e : list Z) : list Z :=
  from_option snd [] (list_find (λ a, get16 a a_instance = e_instance e) (m_attrs (e_rec e))).

Lemma entry_attr_eq e l1 a l2 : m_attrs (e_rec e) = l1 ++ a :: l2 → attr_of e a → Forall (λ b, get16 b a_instance ≠ e_instance e) (l1 ++ l2) → entry_attr e = a.
Proof.
  intros Ea Ha [Ho _]%list.Forall_app. unfold entry_attr. rewrite Ea, list_find_app_r.
  - cbn [list_find]. by rewrite decide_True by apply (of_instance _ _ Ha).
  - apply list_find_None. eapply list.Forall_impl; [exact Ho|]. done.
Qed.

(** The search in the list of the entries: whether there is an attribute, and the number of entries
    before the one where the search ends. *)
Fixpoint al_search (l : list (list Z)) : bool * nat :=
  match l with
  | [] => (false, 0%nat)
  | e :: l =>
      let next := let '(ok, k) := al_search l in (ok, S k) in
      match verdict_of (entry_order case_sensitive upcase type name e) with
      | found => if fits case_sensitive upcase lowest_vcn e l then next else if value_is val (entry_attr e) then (true, 0%nat) else next
      | go_on => next
      | _ => (false, 0%nat)
      end
  end.

Definition ext_of (n : Z) : option Z := if n =? base then None else Some n.

(** The context is at a record of the inode, which is mapped. *)
Record ctx_ok (ctx : list_ctx) (w : mft_state) : Prop := {
  ctx_cache : cache_ok vol base base_seq (ext_of (lc_ni ctx)) w;
  ctx_mft : ms_mft w = f;
  ctx_base : ∃ ba, lc_base ctx = Some (record_at vol f base, ba);
  ctx_rec : lc_m ctx = record_at vol f (lc_ni ctx)
}.

Lemma ext_of_base : ext_of base = None.
Proof. unfold ext_of. by rewrite Z.eqb_refl. Qed.
Lemma ext_of_other n : n ≠ base → ext_of n = Some n.
Proof. intros H. unfold ext_of. by rewrite (proj2 (Z.eqb_neq _ _)). Qed.

(** Releasing the extent. *)
Lemma back_to_base_spec ctx w : ctx_ok ctx w → ∃ w', back_to_base vol base ctx w = Ret ((), w') ∧ same_mft w w' ∧ cache_ok vol base base_seq None w'.
Proof.
  intros [Hc _ _ _]. unfold back_to_base. destruct (Z.eqb_spec (lc_ni ctx) base) as [Eb|Eb]; cbn [negb].
  - rewrite Eb, ext_of_base in Hc. by exists w.
  - rewrite ext_of_other in Hc by done. by apply unmap_spec.
Qed.

Definition move_ctx (n : Z) (ctx : list_ctx) : list_ctx := mk_list_ctx n (record_at vol f n) (lc_ctx ctx) (lc_al_entry ctx) (lc_base ctx).

Lemma switch_record_spec al p e q ctx w : linked e → al = p ++ e ++ q → ctx_ok ctx w →
  ∃ r w', switch_record vol base al (length p) ctx w = Ret (r, w') ∧ same_mft w w' ∧
    match r with
    | inr ctx' => ctx' = move_ctx (MREF (e_ref e)) ctx ∧ ctx_ok ctx' w'
    | inl (err, null) => null = true ∧ err ≠ 0 ∧ err ≠ ENOENT ∧ cache_ok vol base base_seq None w' ∧ ¬ quiet_mft_env env
    end.
Proof.
  intros [He Hv Hb Hm Hs _] Eal Hctx. pose proof Hctx as [Hc Hf (ba & Hba) Hrec]. destruct (list_entry_at al p e q He Eal) as (_ & _ & _ & _ & _ & R & _).
  unfold switch_record. rewrite (mlift_step _ _ _ _ R). set (n := MREF (e_ref e)) in *. destruct (Z.eqb_spec n (lc_ni ctx)) as [En|En].
  - assert (∃ ni, ms_inodes w !! lc_ni ctx = Some ni ∧ ni_seq_no ni = MSEQNO (e_ref e)) as (ni & Hni & Hseq).
    { rewrite Hs, <- En. destruct (Z.eqb_spec n base) as [Eb|Eb]; [rewrite Eb; eexists; split; [apply Hc|done]|].
      rewrite <- En, ext_of_other in Hc by done. destruct (cache_ext _ _ _ _ _ Hc n eq_refl) as [_ [ni Hni]]. exists ni. split; [done|]. rewrite (cache_inode _ _ _ _ _ Hc n ni Hni Eb), Hf. done. }
    rewrite (mio_step _ _ w ni w) by (unfold get_inode; by rewrite Hni). rewrite Hseq, Z.eqb_refl. cbn [negb]. eexists _, _. split; [done|]. split; [done|].
    split; [|done]. unfold move_ctx. rewrite En, <- Hrec. by destruct ctx.
  - destruct (back_to_base_spec ctx w Hctx) as (w1 & E1 & Hs1 & Hc1). unfold back_to_base in E1. rewrite (mio_step _ _ _ _ _ E1).
    assert (ms_mft w1 = f) as Hf1 by (rewrite (proj1 Hs1); done). destruct (Z.eqb_spec n base) as [Eb|Eb].
    + rewrite Hba. eexists _, _. split; [done|]. split; [done|]. unfold move_ctx. rewrite Eb, Hba. split; [done|]. split; cbn; [by rewrite ext_of_base|done|by eexists|done].
    + destruct (ext_map_spec vol Hvol base base_seq (e_ref e) w1 Hc1 Eb) as (r & w2 & E2 & Hs2 & Hr & Hq). rewrite (mio_step _ _ _ _ _ E2). eexists _, _. split; [done|]. split; [by etrans|].
      destruct r as [err|[n' m]].
      * destruct Hr as [Herr Hc2]. split; [done|]. split; [by destruct (err =? ENOENT)|]. split; [by destruct (Z.eqb_spec err ENOENT)|]. split; [done|]. intros Q.
        destruct (Hq Q) as [x Hx]; [by rewrite Hf1|right; by rewrite Hf1, Hs|done].
      * destruct Hr as (-> & -> & Hc2 & _). fold n in Hc2 |- *. rewrite Hf1. split; [done|]. split; cbn; [by rewrite ext_of_other|by rewrite (proj1 Hs2)|by eexists|done].
Qed.

(** The attribute record of the entry in its mft record. *)
Lemma attr_step al p e q : linked e → al = p ++ e ++ q → let m := record_at vol f (MREF (e_ref e)) in
  ∃ ofs alloc l1 l2, le16_at m m_attrs_offset = Ret ofs ∧ le32_at m m_bytes_allocated = Ret alloc ∧
    next_attr_loop case_sensitive upcase al (S (S (Z.to_nat alloc))) val m (length p) (Z.to_nat ofs) (Z.to_nat ofs) =
      Ret (if value_is val (entry_attr e) then found else go_on, attr_ofs (e_rec e) l1) ∧
    m_attrs (e_rec e) = l1 ++ entry_attr e :: l2 ∧ attr_of e (entry_attr e).
Proof.
  intros [He _ Hb Hm _ (l1 & a & l2 & Ea & Ha & Hv & Ho)] Eal m. unfold m. rewrite Hb, (entry_attr_eq e l1 a l2) by done.
  exists (Z.of_nat (length (m_head (e_rec e)))), (Z.of_nat (length (mft_bytes (e_rec e)))), l1, l2.
  pose proof (ok_head_size _ Hm) as Hh. split.
  { unfold mft_bytes. rewrite le16_head0 by (unfold m_attrs_offset; lia). by rewrite (ok_attrs_offset _ Hm). }
  split; [by apply bytes_allocated|]. split; [|done]. rewrite !Nat2Z.id.
  replace (length (m_head (e_rec e))) with (attr_ofs (e_rec e) []) by (unfold attr_ofs; cbn; lia). apply (next_attr_loop_spec case_sensitive upcase val al p e q He Eal _ Hm l1 a l2); try done.
  pose proof (length_concat_ge _ (ok_attrs _ Hm)). rewrite length_mft_bytes by done. lia.
Qed.

(** How the walk ends that started behind the entries [E1]. *)
Definition walk_end (E1 E2 : list (list Z)) (ctx : list_ctx) (r : list_end) (ctx' : list_ctx) (w' : mft_state) : Prop :=
  let '(ok, k) := al_search E2 in
  lc_base ctx' = lc_base ctx ∧ is_iteration (lc_ctx ctx') = is_iteration (lc_ctx ctx) ∧
  match r with
  | list_error err null => null = true ∧ err ≠ 0 ∧ err ≠ ENOENT ∧ cache_ok vol base base_seq None w' ∧ ¬ quiet_mft_env env
  | list_not_found => ok = false ∧ lc_al_entry ctx' = Some (length (concat (E1 ++ take k E2))) ∧ ctx_ok ctx' w'
  | list_found => ok = true ∧ lc_al_entry ctx' = Some (length (concat (E1 ++ take k E2))) ∧ ctx_ok ctx' w' ∧
      ∃ e l1 l2, E2 !! k = Some e ∧ lc_ni ctx' = MREF (e_ref e) ∧ m_attrs (e_rec e) = l1 ++ entry_attr e :: l2 ∧
        attr_of e (entry_attr e) ∧ ctx_a (lc_ctx ctx') = attr_ofs (e_rec e) l1
  end.

(** A walk that goes on behind the entry [e]. *)
Lemma walk_end_next E1 e E2 ctx0 ctx r ctx' w' : walk_end (E1 ++ [e]) E2 ctx r ctx' w' → lc_base ctx = lc_base ctx0 → is_iteration (lc_ctx ctx) = is_iteration (lc_ctx ctx0) →
  al_search (e :: E2) = (let '(ok, k) := al_search E2 in (ok, S k)) → walk_end E1 (e :: E2) ctx0 r ctx' w'.
Proof.
  unfold walk_end. intros Hw Hb Hi ->. destruct (al_search E2) as [ok k]. destruct Hw as (H1 & H2 & H3). split; [congruence|]. split; [congruence|].
  cbn [take]. rewrite <- (assoc_L (++)) in H3. cbn [app] in H3. destruct r; try done.
Qed.

Definition at_entry (e : nat) (ctx : list_ctx) : list_ctx := mk_list_ctx (lc_ni ctx) (lc_m ctx) (lc_ctx ctx) (Some e) (lc_base ctx).
Definition at_attr (a : nat) (ctx : list_ctx) : list_ctx := mk_list_ctx (lc_ni ctx) (lc_m ctx) (set_a a (lc_ctx ctx)) (lc_al_entry ctx) (lc_base ctx).
Lemma ctx_ok_at_entry e ctx w : ctx_ok ctx w → ctx_ok (at_entry e ctx) w.
Proof. by intros [? ? ? ?]. Qed.
Lemma ctx_ok_at_attr a ctx w : ctx_ok ctx w → ctx_ok (at_attr a ctx) w.
Proof. by intros [? ? ? ?]. Qed.

Lemma entry_loop_spec E2 : arg_ok upcase name → ∀ E1 fuel ctx w, E = E1 ++ E2 → Forall linked E2 → (length E2 < fuel)%nat → ctx_ok ctx w →
  ∃ r ctx' w', entry_loop vol case_sensitive upcase base (concat E) fuel type name lowest_vcn val (length (concat E1)) ctx w = Ret ((r, ctx'), w') ∧
    same_mft w w' ∧ walk_end E1 E2 ctx r ctx' w'.
Proof.
  intros Hn. induction E2 as [|e E2 IH]; intros E1 fuel ctx w EE Hl Hfuel Hctx; (destruct fuel as [|fuel]; [cbn in Hfuel; lia|]); cbn [entry_loop]; fold (at_entry (length (concat E1)) ctx).
  - rewrite app_nil_r in EE. subst E1. rewrite Nat.ltb_irrefl, Nat.eqb_refl. eexists _, _, _. split; [done|]. split; [done|]. unfold walk_end. cbn [al_search]. split; [done|]. split; [done|].
    split; [done|]. split; [cbn; by rewrite app_nil_r|by apply ctx_ok_at_entry].
  - apply list.Forall_cons in Hl as [He Hl]. pose proof (link_entry _ He) as Hok. pose proof (entry_size _ Hok) as Hsz.
    assert (concat E = concat E1 ++ e ++ concat E2) as Eal by (rewrite EE, concat_app; done). set (al := concat E) in *. set (P := concat E1) in *.
    assert (length al = length P + length e + length (concat E2))%nat as Hal by (rewrite Eal, !length_app; lia).
    rewrite (proj2 (Nat.ltb_ge (length al) _)), (proj2 (Nat.eqb_neq _ _)) by lia. destruct (list_entry_at al P e _ Hok Eal) as (L & _).
    rewrite (mlift_step _ _ _ _ L), (proj2 (Z.eqb_neq _ 0)), (proj2 (Nat.ltb_ge _ _)), (proj2 (Z.ltb_ge _ _)), Nat2Z.id by lia. cbn [orb].
    rewrite (mlift_step _ _ _ (verdict_of (entry_order case_sensitive upcase type name e))) by (rewrite Eal; by apply compare_entry_spec).
    assert (∀ ctx1 w1, ctx_ok ctx1 w1 → same_mft w w1 → lc_base ctx1 = lc_base ctx → is_iteration (lc_ctx ctx1) = is_iteration (lc_ctx ctx) →
      al_search (e :: E2) = (let '(ok, k) := al_search E2 in (ok, S k)) →
      ∃ r ctx' w', entry_loop vol case_sensitive upcase base al fuel type name lowest_vcn val (length P + length e) ctx1 w1 = Ret ((r, ctx'), w') ∧
        same_mft w w' ∧ walk_end E1 (e :: E2) ctx r ctx' w') as Hnext.
    { intros ctx1 w1 Hc1 Hs1 Hb1 Hi1 Hsearch. destruct (IH (E1 ++ [e]) fuel ctx1 w1) as (r & ctx' & w' & Er & Hs' & Hw); [by rewrite <- (assoc_L (++))|done|cbn in Hfuel; lia|done|].
      exists r, ctx', w'. rewrite concat_app, length_app in Er. cbn [concat] in Er. rewrite app_nil_r in Er. split; [done|]. split; [by etrans|]. by eapply walk_end_next. }
    destruct (verdict_of (entry_order case_sensitive upcase type name e)) eqn:Ev.
    + rewrite (mlift_step _ _ _ (fits case_sensitive upcase lowest_vcn e E2)).
      2: { rewrite Eal. apply next_fits_spec; [done| |done]. eapply list.Forall_impl; [exact Hl|]. intros x Hx. apply (link_entry _ Hx). }
      destruct (fits case_sensitive upcase lowest_vcn e E2) eqn:Ef.
      { apply Hnext; [by apply ctx_ok_at_entry|done|done|done|]. cbn [al_search]. by rewrite Ev, Ef. }
      destruct (switch_record_spec al P e (concat E2) (at_entry (length P) ctx) w He Eal (ctx_ok_at_entry _ _ _ Hctx)) as (r & w1 & E1' & Hs1 & Hr). rewrite (mio_step _ _ _ _ _ E1').
      destruct r as [[err null]|ctx1]; [eexists _, _, _; split; [done|]; split; [done|]; unfold walk_end; by destruct (al_search (e :: E2))|].
      destruct Hr as [-> Hc1]. destruct (attr_step al P e (concat E2) He Eal) as (ofs & alloc & l1 & l2 & A1 & A2 & A3 & A4 & A5). cbn [move_ctx lc_m].
      rewrite (mlift_step _ _ _ _ A1), (mlift_step _ _ _ _ A2), (mlift_step _ _ _ _ A3). fold (at_attr (attr_ofs (e_rec e) l1) (move_ctx (MREF (e_ref e)) (at_entry (length P) ctx))).
      destruct (value_is val (entry_attr e)) eqn:Evi.
      * eexists _, _, _. split; [done|]. split; [done|]. unfold walk_end. cbn [al_search]. rewrite Ev, Ef, Evi. split; [done|]. split; [done|]. split; [done|].
        cbn [take]. rewrite app_nil_r. split; [done|]. split; [by apply ctx_ok_at_attr|]. by exists e, l1, l2.
      * apply Hnext; [by apply ctx_ok_at_attr|done|done|done|]. cbn [al_search]. by rewrite Ev, Ef, Evi.
    + eexists _, _, _. split; [done|]. split; [done|]. unfold walk_end. cbn [al_search]. rewrite Ev. split; [done|]. split; [done|]. split; [done|]. cbn [take]. rewrite app_nil_r. split; [done|by apply ctx_ok_at_entry].
    + apply Hnext; [by apply ctx_ok_at_entry|done|done|done|]. cbn [al_search]. by rewrite Ev.
    + unfold verdict_of in Ev. by repeat case_match.
Qed.

(** ** The function *)

(** The place in the base mft record behind all attributes that match. *)
Definition base_order : list Z → Z := target_order case_sensitive upcase false type name val.

Lemma find_last_spec r fuel : mft_ok r → ∀ l1 l2 c, m_attrs r = l1 ++ l2 → starts_at r l1 c → is_iteration c = false → Forall (searchable upcase type name val) l2 → (length l2 < fuel)%nat →
  ∃ l3 l4, l2 = l3 ++ l4 ∧ Forall (λ a, 0 ≤ base_order a) l3 ∧ match l4 with [] => True | x :: _ => base_order x < 0 end ∧
    find_last case_sensitive upcase fuel type name val (mft_bytes r) c = Ret (ENOENT, mk_ctx (attr_ofs r (l1 ++ l3)) false false, false).
Proof.
  intros Hr. induction fuel as [|fuel IH]; intros l1 l2 c El Hst Hit Hs Hfuel; [lia|]. cbn [find_last].
  pose proof (find_spec case_sensitive upcase type name val r l1 l2 c Hr El Hst Hs) as Hf. rewrite Hit in Hf. fold base_order in Hf.
  destruct (search_split base_order l2) as (la & lb & err & -> & Hsearch & Ha & Hend). rewrite Hsearch, take_app_length in Hf. rewrite Hf. cbn [mbind outcome_bind].
  assert (Forall (λ a, 0 ≤ base_order a) la) as Ha' by (eapply list.Forall_impl; [exact Ha|]; intros x Hx; cbn in *; lia).
  destruct Hend as [[-> (x & l' & -> & Hx)]|[-> Hend]]; cbn [Z.eqb]; [|by exists la, lb].
  apply list.Forall_app in Hs as [_ [_ Hs]%list.Forall_cons]. rewrite length_app in Hfuel. cbn [length] in Hfuel.
  destruct (IH (l1 ++ la ++ [x]) l' (mk_ctx (attr_ofs r (l1 ++ la)) false false)) as (l3 & l4 & -> & H3 & H4 & E3); [by rewrite El, <- !(assoc_L (++))| |done|done|lia|].
  { exists (l1 ++ la), x. by rewrite (assoc_L (++)). }
  exists (la ++ x :: l3), l4. split; [by rewrite <- (assoc_L (++))|]. split; [apply list.Forall_app; split; [done|]; constructor; [lia|done]|]. split; [done|].
  rewrite E3. by rewrite <- !(assoc_L (++)).
Qed.

(** The base mft record, which the search for the place walks through. *)
Record base_ok : Prop := {
  base_bytes : record_at vol f base = mft_bytes (rec base);
  base_mft : mft_ok (rec base);
  base_searchable : Forall (searchable upcase type name val) (m_attrs (rec base))
}.

Definition base_ctx (a : nat) (al_entry : option nat) : list_ctx :=
  mk_list_ctx base (record_at vol f base) (mk_ctx a false false) al_entry (Some (record_at vol f base, a)).

Lemma not_found_end_spec ctx w : base_ok → ctx_ok ctx w → is_iteration (lc_ctx ctx) = false → type ≠ AT_END →
  ∃ w' l3 l4, list_not_found_end vol case_sensitive upcase base type name val ctx w = Ret ((ENOENT, base_ctx (attr_ofs (rec base) l3) (lc_al_entry ctx)), w') ∧
    same_mft w w' ∧ cache_ok vol base base_seq None w' ∧
    m_attrs (rec base) = l3 ++ l4 ∧ Forall (λ a, 0 ≤ base_order a) l3 ∧ match l4 with [] => True | x :: _ => base_order x < 0 end.
Proof.
  intros [Hb Hm Hs] Hctx Hit Ht. destruct (back_to_base_spec ctx w Hctx) as (w1 & E1 & Hs1 & Hc1). pose proof Hctx as [_ _ (ba & Hba) _].
  unfold list_not_found_end. rewrite (mio_step _ _ _ _ _ E1), Hba, Hb. pose proof (ok_head_size _ Hm) as Hh.
  rewrite (mlift_step _ _ _ (Z.of_nat (length (m_head (rec base))))) by (unfold mft_bytes; rewrite le16_head0 by (unfold m_attrs_offset; lia); by rewrite (ok_attrs_offset _ Hm)).
  rewrite (mlift_step _ _ _ _ (bytes_allocated _ Hm)), (proj2 (Z.eqb_neq _ _)), !Nat2Z.id, Hit by done.
  replace (length (m_head (rec base))) with (attr_ofs (rec base) []) by (unfold attr_ofs; cbn; lia).
  destruct (find_last_spec (rec base) (S (S (length (mft_bytes (rec base))))) Hm [] (m_attrs (rec base)) (mk_ctx (attr_ofs (rec base) []) true false)) as (l3 & l4 & El & H3 & H4 & Ef); try done.
  { pose proof (length_concat_ge _ (ok_attrs _ Hm)). rewrite length_mft_bytes by done. lia. }
  rewrite (mlift_step _ _ _ _ Ef). cbn [app note_errors]. eexists _, l3, l4. split; [|done]. unfold base_ctx. by rewrite Hb.
Qed.

(** A context before the first search, or behind the last one of the entries [E1]. *)
Definition starts_behind (E1 : list (list Z)) (ctx : list_ctx) : Prop :=
  if is_first (lc_ctx ctx) then E1 = [] ∧ default 0%nat (lc_al_entry ctx) = 0%nat
  else ∃ E0 e, E1 = E0 ++ [e] ∧ default 0%nat (lc_al_entry ctx) = length (concat E0).
Definition search_start (ctx : list_ctx) (w : mft_state) : Prop :=
  cache_ok vol base base_seq (ext_of (lc_ni ctx)) w ∧ ms_mft w = f ∧ lc_m ctx = record_at vol f (lc_ni ctx) ∧ is_iteration (lc_ctx ctx) = false ∧
  match lc_base ctx with None => lc_ni ctx = base | Some (m, _) => m = record_at vol f base end.

Definition lookup_end (E1 E2 : list (list Z)) (err : Z) (ctx' : list_ctx) (w' : mft_state) : Prop :=
  let '(ok, k) := al_search E2 in
  let al_entry := Some (length (concat (E1 ++ take k E2))) in
  (err = 0 ∧ ok = true ∧ lc_al_entry ctx' = al_entry ∧ ctx_ok ctx' w' ∧
    ∃ e l1 l2, E2 !! k = Some e ∧ lc_ni ctx' = MREF (e_ref e) ∧ m_attrs (e_rec e) = l1 ++ entry_attr e :: l2 ∧
      attr_of e (entry_attr e) ∧ ctx_a (lc_ctx ctx') = attr_ofs (e_rec e) l1) ∨
  (err = ENOENT ∧ ok = false ∧ cache_ok vol base base_seq None w' ∧
    ∃ l3 l4, ctx' = base_ctx (attr_ofs (rec base) l3) al_entry ∧ m_attrs (rec base) = l3 ++ l4 ∧
      Forall (λ a, 0 ≤ base_order a) l3 ∧ match l4 with [] => True | x :: _ => base_order x < 0 end) ∨
  (err ≠ 0 ∧ err ≠ ENOENT ∧ ¬ quiet_mft_env env ∧ lc_ni ctx' = base ∧ cache_ok vol base base_seq None w').

Lemma list_entries_count : Forall linked E → (length E ≤ length (concat E))%nat.
Proof. induction 1 as [|e l He Hl IH]; cbn; [done|]. pose proof (entry_size _ (link_entry _ He)). rewrite length_app. lia. Qed.

Lemma find_in_attribute_list_spec E1 E2 ctx w : E = E1 ++ E2 → Forall linked E → base_ok → arg_ok upcase name → type ≠ AT_END → starts_behind E1 ctx → search_start ctx w →
  ∃ err ctx' w', ntfs_attr_find_in_attribute_list vol case_sensitive upcase base (concat E) type name lowest_vcn val ctx w = Ret ((err, ctx'), w') ∧
    same_mft w w' ∧ lookup_end E1 E2 err ctx' w'.
Proof.
  intros EE Hl Hbase Hn Ht Hst (Hc & Hf & Hm & Hit & Hb). pose proof (list_entries_count Hl) as Hcount. unfold ntfs_attr_find_in_attribute_list. rewrite Hit, (proj2 (Z.eqb_neq _ _)) by done. cbn [lc_ctx lc_al_entry lc_ni].
  set (bases := if lc_ni ctx =? base then _ else _). assert (∃ ba, bases = (record_at vol f base, ba)) as (ba & Eb).
  { unfold bases. destruct (lc_base ctx) as [[m a]|]; [rewrite Hb; destruct (_ =? _); by eexists|]. rewrite Hm, Hb, Z.eqb_refl. by eexists. }
  clearbody bases. subst bases. cbn [fst snd].
  assert ((if is_first (lc_ctx ctx) then Ret (match lc_al_entry ctx with None => 0%nat | Some e => e end)
    else len ← le16_at (concat E) (match lc_al_entry ctx with None => 0%nat | Some e => e end + al_length); Ret (match lc_al_entry ctx with None => 0%nat | Some e => e end + Z.to_nat len)%nat)
    = Ret (length (concat E1))) as Est.
  { replace (match lc_al_entry ctx with None => 0%nat | Some e => e end) with (default 0%nat (lc_al_entry ctx)) by done. unfold starts_behind in Hst.
    destruct (is_first (lc_ctx ctx)); [destruct Hst as [-> ->]; done|]. destruct Hst as (E0 & e & -> & ->). rewrite EE in Hl. apply list.Forall_app in Hl as [[_ Hl]%list.Forall_app _].
    apply list.Forall_cons in Hl as [He _]. destruct (list_entry_at (concat E) (concat E0) e (concat E2) (link_entry _ He)) as (L & _); [by rewrite EE, <- (assoc_L (++)), concat_app|].
    rewrite L. cbn [mbind outcome_bind]. rewrite Nat2Z.id, concat_app, length_app. cbn [concat]. by rewrite app_nil_r. }
  rewrite (mlift_step _ _ _ _ Est). clear Est. set (ctx0 := mk_list_ctx _ _ _ _ _).
  destruct (entry_loop_spec E2 Hn E1 (S (S (length (concat E)))) ctx0 w EE) as (r & ctx1 & w1 & Er & Hs1 & Hw).
  { rewrite EE in Hl. by apply list.Forall_app in Hl as [_ Hl]. }
  { assert (length E2 ≤ length E)%nat by (rewrite EE, length_app; lia). lia. }
  { split; [done|done|by eexists|done]. }
  rewrite (mio_step _ _ _ _ _ Er). unfold walk_end in Hw. unfold lookup_end. destruct (al_search E2) as [ok k]. destruct Hw as (Hb1 & Hi1 & Hw). destruct r as [| |err null].
  - eexists _, _, _. split; [done|]. split; [done|]. left. by destruct Hw as (-> & ? & ? & ?).
  - destruct Hw as (-> & Hal & Hctx1). destruct (not_found_end_spec ctx1 w1 Hbase Hctx1 Hi1 Ht) as (w2 & l3 & l4 & E2' & Hs2 & Hc2 & Hl2 & Hplace).
    eexists _, _, _. split; [exact E2'|]. split; [by etrans|]. right. left. rewrite Hal. split; [done|]. split; [done|]. split; [done|]. by exists l3, l4.
  - destruct Hw as (-> & Herr & Hen & Hc2 & Hq). rewrite (proj2 (Z.eqb_neq err 0)) by done. cbn [orb]. rewrite (mio_step (mret ()) _ w1 () w1) by done.
    destruct (negb (err =? ENOMEM)).
    + eexists _, _, _. split; [reflexivity|]. split; [by etrans; [exact Hs1|]|]. right. right. split_and!; try done. by eapply cache_ok_same.
    + eexists _, _, _. split; [reflexivity|]. split; [done|]. right. right. by split_and!.
Qed.
End search.

(** ** Sorted lists *)

Section sorted.
Context (case_sensitive : bool) (upcase : list Z).
Abbreviation up s := (ntfs_upcase_name s upcase).

(** The entries are sorted by type, name and lowest VCN. *)
Definition entry_le (e e' : list Z) : Prop :=
  e_type e < e_type e' ∨ e_type e = e_type e' ∧
    (lex2 (up (e_name e)) (e_name e) (up (e_name e')) (e_name e') < 0 ∨ e_name e = e_name e' ∧ e_lowest_vcn e ≤ e_lowest_vcn e').

(** No two attributes of the list have names that only the case tells apart, when it does not matter. *)
Definition distinct_names (l : list (list Z)) : Prop :=
  ∀ e e', e ∈ l → e' ∈ l → same_name case_sensitive upcase (e_name e) (e_name e') = true → e_name e = e_name e'.

Context (type : Z) (name : name_arg) (lowest_vcn : Z).
Abbreviation o := (entry_order case_sensitive upcase type name).

Lemma entry_unnamed_order e : (match e_name e with [] => 0 | _ => -1 end) = name_order case_sensitive upcase [] (e_name e).
Proof. unfold name_order, lex2. by destruct case_sensitive, (e_name e). Qed.

Lemma entry_order_le a b : entry_le a b → (o a ≤ 0 → o b ≤ 0) ∧ (o a < 0 → o b < 0).
Proof.
  intros Hab. unfold entry_order. destruct (Z.ltb_spec type (e_type b)); [lia|]. destruct Hab as [Ht|[Et Hn]]; [ztests; lia|].
  rewrite <- Et. destruct (Z.ltb_spec type (e_type a)); [lia|]. destruct (Z.ltb_spec (e_type a) type); [lia|].
  assert (lex2 (up (e_name a)) (e_name a) (up (e_name b)) (e_name b) ≤ 0) as Hle.
  { destruct Hn as [Hn|[-> _]]; [lia|]. unfold lex2. rewrite (proj2 (lex_eq _ _)) by done. cbn. by rewrite (proj2 (lex_eq _ _)). }
  destruct name as [| |s]; [done| |by apply name_order_le]. rewrite !entry_unnamed_order. by apply name_order_le.
Qed.

(** Entries with the type and the name have the same name. *)
Lemma matching_same a b : arg_ok upcase name → name ≠ any_name → o a = 0 → e_type b = e_type a → same_name case_sensitive upcase (e_name b) (e_name a) = true ↔ o b = 0.
Proof.
  intros Hn Hany Ha Et. unfold entry_order in *. rewrite Et. destruct (Z.ltb_spec type (e_type a)); [done|]. destruct (Z.ltb_spec (e_type a) type); [done|].
  destruct name as [| |s]; [done| |].
  - destruct (e_name a) as [|]; [|done]. unfold same_name. rewrite bool_decide_eq_true. destruct (e_name b); cbn [length]; [done|]. by split; [intros [? _]|].
  - assert (same_name case_sensitive upcase (e_name a) s = true) as Sa by (rewrite same_name_order by done; by rewrite Ha).
    transitivity (same_name case_sensitive upcase (e_name b) s = true); [|rewrite same_name_order by done; apply Z.eqb_eq].
    unfold same_name in *. apply bool_decide_eq_true in Sa as [L F]. rewrite !bool_decide_eq_true, L, F. tauto.
Qed.
Lemma matching_type a b : o a = 0 → o b = 0 → e_type b = e_type a.
Proof. unfold entry_order. ztests; lia. Qed.

(** The entry [k] is the one for [lowest_vcn]: the first one that matches for 0, and else the last
    one the lowest VCN of which is not greater. *)
Definition selects (l : list (list Z)) (k : nat) (e : list Z) : Prop :=
  l !! k = Some e ∧ o e = 0 ∧ (lowest_vcn = 0 → Forall (λ x, o x ≠ 0) (take k l)) ∧
  (lowest_vcn ≠ 0 → Forall (λ x, o x = 0 → lowest_vcn < e_lowest_vcn x) (drop (S k) l) ∧ (e_lowest_vcn e ≤ lowest_vcn ∨ Forall (λ x, o x ≠ 0) (take k l))).

Lemma selects_cons x l k e : selects l k e → o x ≠ 0 → selects (x :: l) (S k) e.
Proof. intros (H1 & H2 & H3 & H4) Hx. split; [done|]. split; [done|]. cbn [take drop]. split; [intros Hv; constructor; auto|]. intros Hv. destruct (H4 Hv) as [H5 [H6|H6]]; (split; [done|]); [by left|right; by constructor]. Qed.

Lemma distinct_tail x l : distinct_names (x :: l) → distinct_names l.
Proof. intros H a b Ha Hb. apply H; by constructor. Qed.

Definition in_order (rec : Z → mft) (l : list (list Z)) : Prop :=
  let '(ok, k) := al_search case_sensitive upcase rec type name lowest_vcn None l in
  if (ok : bool) then ∃ e, selects l k e else Forall (λ x, 0 < o x) (take k l) ∧ Forall (λ x, o x < 0) (drop k l).

(** An entry that matches, with the entries behind it. *)
Lemma selects_head rec e l : arg_ok upcase name → name ≠ any_name → o e = 0 → StronglySorted entry_le (e :: l) → distinct_names (e :: l) →
  fits case_sensitive upcase lowest_vcn e l = false → selects (e :: l) 0 e ∧ al_search case_sensitive upcase rec type name lowest_vcn None (e :: l) = (true, 0%nat).
Proof.
  intros Hn Hany He [Hs Hle]%StronglySorted_inv Hd Hf. split; [|cbn [al_search]; by rewrite He, Hf]. split; [done|]. split; [done|]. split; [by constructor|]. intros Hv. split; [|by right; constructor].
  cbn [drop]. apply list.Forall_forall. intros x Hx Hox. destruct l as [|e' l]; [by apply elem_of_nil in Hx|].
  unfold fits in Hf. rewrite (proj2 (Z.eqb_neq _ _)) in Hf by done. cbn [negb andb] in Hf.
  apply StronglySorted_inv in Hs as [_ Hle']. apply list.Forall_cons in Hle as [Hee' _].
  assert (o e' = 0) as He'.
  { destruct (entry_order_le _ _ Hee') as [M1 _]. apply elem_of_cons in Hx as [->|Hx]; [done|]. rewrite list.Forall_forall in Hle'. destruct (entry_order_le _ _ (Hle' x Hx)) as [_ M2]. lia. }
  rewrite (matching_type e e' He He'), Z.eqb_refl, (proj2 (matching_same e e' Hn Hany He (matching_type e e' He He')) He'), !andb_true_r in Hf. apply Z.leb_gt in Hf.
  apply elem_of_cons in Hx as [->|Hx]; [lia|]. rewrite list.Forall_forall in Hle'. pose proof (matching_type e' x He' Hox) as Et.
  destruct (Hle' x Hx) as [Hlt|[_ [Hlt|[_ Hlv]]]]; [lia| |lia]. exfalso.
  assert (e_name x = e_name e') as En. { apply Hd; [by do 2 constructor|by constructor; constructor|]. by apply matching_same. }
  rewrite En in Hlt. unfold lex2 in Hlt. rewrite !(proj2 (lex_eq _ _)) in Hlt by done. done.
Qed.

Lemma al_search_match rec l e : arg_ok upcase name → name ≠ any_name → o e = 0 → StronglySorted entry_le (e :: l) → distinct_names (e :: l) →
  ∃ k x, al_search case_sensitive upcase rec type name lowest_vcn None (e :: l) = (true, k) ∧ selects (e :: l) k x.
Proof.
  intros Hn Hany. revert e. induction l as [|e' l IH]; intros e He Hs Hd.
  { destruct (selects_head rec e [] Hn Hany He Hs Hd) as [H1 H2]; [unfold fits; by rewrite andb_false_r|]. eauto. }
  destruct (fits case_sensitive upcase lowest_vcn e (e' :: l)) eqn:Ef; [|destruct (selects_head rec e (e' :: l) Hn Hany He Hs Hd Ef); eauto].
  pose proof Ef as Hfit. unfold fits in Hfit. apply andb_true_iff in Hfit as [Hv [[Hle%Z.leb_le Ht%Z.eqb_eq]%andb_true_iff Hnm]%andb_true_iff].
  apply (matching_same e e' Hn Hany He Ht) in Hnm as He'. apply StronglySorted_inv in Hs as [Hs _].
  destruct (IH e' He' Hs (distinct_tail _ _ Hd)) as (k & x & Hk & H1 & H2 & H3 & H4). exists (S k), x. split.
  { change (al_search case_sensitive upcase rec type name lowest_vcn None (e :: e' :: l)) with
      (let next := let '(ok, k) := al_search case_sensitive upcase rec type name lowest_vcn None (e' :: l) in (ok, S k) in
       match verdict_of (o e) with
       | found => if fits case_sensitive upcase lowest_vcn e (e' :: l) then next else if value_is None (entry_attr rec e) then (true, 0%nat) else next
       | go_on => next | _ => (false, 0%nat) end). rewrite Hk, He, Ef. done. }
  split; [done|]. split; [done|]. apply negb_true_iff, Z.eqb_neq in Hv. split; [done|]. intros _. destruct (H4 Hv) as [H5 H6]. split; [done|]. left.
  destruct H6 as [H6|H6]; [done|]. destruct k as [|k]; [injection H1 as <-; done|]. apply list.Forall_cons in H6 as [H6 _]. done.
Qed.

Lemma al_search_sorted rec l : arg_ok upcase name → name ≠ any_name → StronglySorted entry_le l → distinct_names l → in_order rec l.
Proof.
  intros Hn Hany. induction l as [|e l IH]; intros Hs Hd; unfold in_order; [by split; constructor|]. destruct (decide (o e = 0)) as [He|He].
  { destruct (al_search_match rec l e Hn Hany He Hs Hd) as (k & x & -> & Hx). by exists x. }
  pose proof Hs as [Hs' Hle]%StronglySorted_inv. specialize (IH Hs' (distinct_tail _ _ Hd)). unfold in_order in IH. cbn [al_search]. unfold verdict_of. rewrite (proj2 (Z.eqb_neq _ _)) by done.
  destruct (Z.ltb_spec (o e) 0) as [Hlt|Hge].
  - cbn [take drop]. split; [constructor|]. constructor; [done|]. eapply list.Forall_impl; [exact Hle|]. intros x Hx. by apply (entry_order_le e x).
  - destruct (al_search _ _ _ _ _ _ _ l) as [[] k]; cbn [take drop].
    + destruct IH as [x Hx]. exists x. by apply selects_cons.
    + destruct IH as [H1 H2]. split; [constructor; [lia|done]|done].
Qed.
End sorted.

(** ** The lookup *)

Section lookup.
Context {env : MftEnv} (vol : mft_volume) (Hvol : mft_volume_ok vol) (case_sensitive : bool) (upcase : list Z).

(** An inode with an attribute list: the entries are sorted and name the attribute records of the
    base mft record and of the extent mft records. *)
Record list_inode (base base_seq : Z) (E : list (list Z)) (rec : Z → mft) (f : contents) : Prop := {
  li_linked : Forall (linked vol base base_seq rec f None) E;
  li_sorted : StronglySorted (entry_le upcase) E;
  li_names : distinct_names case_sensitive upcase E;
  li_base : record_at vol f base = mft_bytes (rec base) ∧ mft_ok (rec base) ∧ Forall name_ok (m_attrs (rec base))
}.

(** A new search context. *)
Definition new_ctx (base : Z) (m : list Z) : list_ctx := mk_list_ctx base m (mk_ctx (Z.to_nat (get16 m m_attrs_offset)) true false) None None.

(** C8: [ntfs_attr_lookup] for an inode with an attribute list and a new search context, whatever the
    kernel does and whatever inodes are cached.  It terminates without a panic, and never maps a record twice or unmaps one
    that is not mapped.  When it returns 0, the context is at the attribute record of the entry for the type, the name
    and the VCN, in its mft record, which is mapped: for the VCN 0 the first entry of the attribute, and else
    the last extent with a lowest VCN that is not greater.  When it returns ENOENT, no entry of the list
    has the type and the name, and the context has the places for a new entry in the list and for a new attribute record in the
    base mft record, and no extent is mapped.  Any other errno is a failure of the kernel; then the context is
    at the base mft record and no extent is mapped. *)
Theorem ntfs_attr_lookup_list_correct base base_seq E rec f type name lowest_vcn w :
  list_inode base base_seq E rec f → arg_ok upcase name → name ≠ any_name → type ≠ AT_END → type ≠ AT_ATTRIBUTE_LIST →
  cache_ok vol base base_seq None w → ms_mft w = f →
  let o := entry_order case_sensitive upcase type name in
  ∃ err ctx' w',
    ntfs_attr_lookup vol case_sensitive upcase base (concat E) true type name lowest_vcn None (new_ctx base (record_at vol f base)) w = Ret ((err, ctx'), w') ∧
    ms_mft w' = f ∧
    ((err = 0 ∧ ∃ k e l1 a l2, selects case_sensitive upcase type name lowest_vcn E k e ∧ lc_al_entry ctx' = Some (length (concat (take k E))) ∧
        lc_ni ctx' = MREF (e_ref e) ∧ lc_m ctx' = mft_bytes (rec (MREF (e_ref e))) ∧ m_attrs (rec (MREF (e_ref e))) = l1 ++ a :: l2 ∧ attr_of e a ∧
        ctx_a (lc_ctx ctx') = attr_ofs (rec (MREF (e_ref e))) l1 ∧ cache_ok vol base base_seq (ext_of base (MREF (e_ref e))) w') ∨
     (err = ENOENT ∧ cache_ok vol base base_seq None w' ∧ ∃ E1 E2 l1 l2, E = E1 ++ E2 ∧ Forall (λ e, 0 < o e) E1 ∧ Forall (λ e, o e < 0) E2 ∧
        lc_al_entry ctx' = Some (length (concat E1)) ∧ lc_ni ctx' = base ∧ lc_m ctx' = mft_bytes (rec base) ∧ m_attrs (rec base) = l1 ++ l2 ∧
        ctx_a (lc_ctx ctx') = attr_ofs (rec base) l1 ∧ Forall (λ a, 0 ≤ target_order case_sensitive upcase false type name None a) l1 ∧
        match l2 with [] => True | a :: _ => target_order case_sensitive upcase false type name None a < 0 end) ∨
     (err ≠ 0 ∧ err ≠ ENOENT ∧ ¬ quiet_mft_env env ∧ lc_ni ctx' = base ∧ cache_ok vol base base_seq None w')).
Proof.
  intros [Hl Hs Hd (Hb & Hm & Hno)] Hn Hany Ht Hal Hc Hf o. unfold ntfs_attr_lookup. rewrite (proj2 (Z.eqb_neq type AT_ATTRIBUTE_LIST)) by done. cbn [negb orb new_ctx lc_ctx is_iteration].
  assert (base_ok vol upcase base rec f type name None) as Hbase.
  { split; [done|done|]. eapply list.Forall_impl; [exact Hno|]. intros a Ha _. split; [|done]. by destruct name. }
  destruct (find_in_attribute_list_spec vol Hvol case_sensitive upcase base base_seq E rec f type name lowest_vcn None [] E (new_ctx base (record_at vol f base)) w) as (err & ctx' & w' & Er & Hsm & Hend); try done.
  { split_and!; try done. cbn. by rewrite ext_of_base. }
  exists err, ctx', w'. split; [exact Er|]. split; [by rewrite (proj1 Hsm)|]. unfold lookup_end in Hend. pose proof (al_search_sorted case_sensitive upcase type name lowest_vcn rec E Hn Hany Hs Hd) as Hin. unfold in_order in Hin.
  destruct (al_search _ _ _ _ _ _ _ E) as [ok k]. cbn [app] in Hend.
  destruct Hend as [(-> & -> & He & [C1 _ _ C4] & e & l1 & l2 & Hk & Hni & Hat & Hof & Ha)|[(-> & -> & Hc' & l3 & l4 & -> & Hl34 & H3 & H4)|Hend]]; [left|right; left|by right; right].
  - split; [done|]. destruct Hin as [e' Hsel]. pose proof (proj1 Hsel) as Hk'. assert (e' = e) as -> by congruence. exists k, e, l1, (entry_attr rec e), l2. rewrite Hni in C1, C4.
    assert (linked vol base base_seq rec f None e) as Hlk by (rewrite list.Forall_forall in Hl; apply Hl; by eapply list_elem_of_lookup_2). rewrite (link_bytes _ _ _ _ _ _ _ Hlk) in C4. by split_and!.
  - split; [done|]. split; [done|]. destruct Hin as [I1 I2]. exists (take k E), (drop k E), l3, l4. rewrite take_drop. cbn. by rewrite <- Hb.
Qed.
End lookup.

(** ** A sample inode *)

(** Records of 128 bytes: the base mft record 0 and the extent mft record 1. *)
Definition list_head (seq in_use instance : Z) : list Z :=
  let h := splice (replicate 48 0) m_magic (le_bytes 4 magic_FILE) in
  let h := splice h m_sequence_number (le_bytes 2 seq) in
  let h := splice h m_attrs_offset (le_bytes 2 48) in
  let h := splice h m_bytes_in_use (le_bytes 4 in_use) in
  let h := splice h m_bytes_allocated (le_bytes 4 128) in
  splice h m_next_attr_instance (le_bytes 2 instance).
Definition list_record (n : Z) : mft :=
  if n =? 0 then mk_mft (list_head 5 88 1) [resident_attr 0x10 0 [] 5] (le_bytes 4 AT_END ++ replicate 4 0) (replicate 40 0)
  else mk_mft (list_head 7 128 2) [resident_attr 0x80 0 [] 5; resident_attr 0x80 1 [98] 3] (le_bytes 4 AT_END ++ replicate 4 0) [].
Definition sample_entry (type lowest_vcn ref instance : Z) (name : list Z) : list Z :=
  le_bytes 4 type ++ le_bytes 2 32 ++ [Z.of_nat (length name); 26] ++ le_bytes 8 lowest_vcn ++ le_bytes 8 ref ++ le_bytes 2 instance ++
    name_bytes name ++ replicate (6 - 2 * length name) 0.
Definition sample_list : list (list Z) :=
  [sample_entry 0x10 0 (5 * 2 ^ 48) 0 []; sample_entry 0x80 0 (7 * 2 ^ 48 + 1) 0 []; sample_entry 0x80 0 (7 * 2 ^ 48 + 1) 1 [98]].

Definition contents_of (l : list Z) : contents := λ i, if i <? 0 then 0 else nth (Z.to_nat i) l 0.
Definition sample_vol : mft_volume := mk_mft_volume 128 128 7 0 256.
Definition sample_mft_contents : contents := contents_of (mft_bytes (list_record 0) ++ mft_bytes (list_record 1)).
Definition quiet_mft : MftEnv :=
  {| vnode_get_errno _ := 0; memory_fails _ := false; buf_meta_bread_errno _ _ := 0; buf_map_errno _ := 0; buf_unmap_errno _ := 0 |}.
Definition sample_state : mft_state := mk_mft_state 0 false sample_mft_contents {[0 := mk_mft_inode 5 true]} [] 0.

Lemma contents_of_bytes p a q ofs n : ofs = Z.of_nat (length p) → n = Z.of_nat (length a) → buf_bytes (contents_of (p ++ a ++ q)) ofs n = a.
Proof.
  intros -> ->. apply list_eq. intros i. unfold buf_bytes. rewrite list_lookup_fmap. destruct (Nat.ltb_spec i (length a)) as [Hi|Hi].
  - rewrite lookup_seqZ_lt by lia. cbn. unfold contents_of. rewrite (proj2 (Z.ltb_ge _ _)) by lia. rewrite nth_lookup.
    replace (Z.to_nat (Z.of_nat (length p) + Z.of_nat i)) with (length p + i)%nat by lia. rewrite lookup_app_r by lia. replace (length p + i - length p)%nat with i by lia.
    rewrite lookup_app_l by lia. destruct (lookup_lt_is_Some_2 a i Hi) as [x Hx]. by rewrite Hx.
  - rewrite lookup_seqZ_ge, lookup_ge_None_2 by lia. done.
Qed.
Lemma contents_of_range l : bytes l → byte_contents (contents_of l).
Proof. intros Hl i. unfold contents_of. destruct (i <? 0); [lia|]. apply (get8_range l (Z.to_nat i) Hl). Qed.

Lemma list_record_ok n : mft_ok (list_record n) ∧ length (mft_bytes (list_record n)) = 128%nat ∧ bytes (mft_bytes (list_record n)) ∧ Forall name_ok (m_attrs (list_record n)).
Proof.
  unfold list_record. destruct (n =? 0); (split; [|split; [by vm_compute|split; [by apply bytes_decide|cbn [m_attrs]; repeat (apply list.Forall_cons_2; [by vm_compute|]); by apply list.Forall_nil_2]]]);
    (split; cbn [m_attrs]; try (repeat (apply list.Forall_cons_2; [apply resident_attr_ok; first [done|by vm_compute|by repeat constructor|cbn; lia]|]); by apply list.Forall_nil_2);
     first [by apply bytes_decide|by vm_compute|vm_compute; lia]).
Qed.

Lemma sample_record_at n : n = 0 ∨ n = 1 → record_at sample_vol sample_mft_contents n = mft_bytes (list_record n).
Proof.
  destruct (list_record_ok 0) as (_ & L0 & _). destruct (list_record_ok 1) as (_ & L1 & _). intros [-> | ->]; unfold record_at, sample_mft_contents; cbn [sample_vol mv_record_size].
  - apply (contents_of_bytes []); [done|by rewrite L0].
  - rewrite <- (app_nil_r (mft_bytes (list_record 1))) at 1. apply contents_of_bytes; [by rewrite L0|by rewrite L1].
Qed.

Lemma sample_linked e n l1 a l2 : entry_ok e → MREF (e_ref e) = n → n = 0 ∨ n = 1 → MSEQNO (e_ref e) = (if n =? 0 then 5 else 7) →
  m_attrs (list_record n) = l1 ++ a :: l2 → attr_of e a → Forall (λ b, get16 b a_instance ≠ e_instance e) (l1 ++ l2) →
  linked sample_vol 0 5 list_record sample_mft_contents None e.
Proof.
  intros He Hn H01 Hs Ha Hof Ho. destruct (list_record_ok n) as (Hm & _). split; rewrite ?Hn; try done.
  - split; [|rewrite sample_record_at by done; destruct H01 as [-> | ->]; by vm_compute]. destruct H01 as [-> | ->]; by vm_compute.
  - by apply sample_record_at.
  - rewrite Hs, sample_record_at by done. destruct H01 as [-> | ->]; by vm_compute.
  - by exists l1, a, l2.
Qed.

Ltac sample_entry_ok := split; first [by apply bytes_decide|by vm_compute|vm_compute; lia].

Lemma sample_list_inode : list_inode sample_vol true sample_upcase 0 5 sample_list list_record sample_mft_contents.
Proof.
  split.
  - apply list.Forall_cons_2; [|apply list.Forall_cons_2; [|apply list.Forall_cons_2; [|by apply list.Forall_nil_2]]].
    + apply (sample_linked _ 0 [] (resident_attr 0x10 0 [] 5) []); [sample_entry_ok|done|by left|done|done|by split|by constructor].
    + apply (sample_linked _ 1 [] (resident_attr 0x80 0 [] 5) [resident_attr 0x80 1 [98] 3]); [sample_entry_ok|done|by right|done|done|by split|by repeat constructor].
    + apply (sample_linked _ 1 [resident_attr 0x80 0 [] 5] (resident_attr 0x80 1 [98] 3) []); [sample_entry_ok|done|by right|done|done|by split|by repeat constructor].
  - repeat (apply SSorted_cons || apply SSorted_nil || apply list.Forall_nil_2 || (apply list.Forall_cons_2)); first [left; by vm_compute|right; split; [by vm_compute|left; by vm_compute]].
  - intros e e' He He' Hs. unfold same_name in Hs. apply bool_decide_eq_true_1 in Hs as [Hl Hf]. unfold sample_list in *. set_unfold.
    destruct He as [-> |[-> |[-> |[]]]], He' as [-> |[-> |[-> |[]]]]; first [done|by vm_compute in Hl|by vm_compute in Hf].
  - destruct (list_record_ok 0) as (? & _ & _ & ?). split; [apply sample_record_at; by left|done].
Qed.

Lemma sample_cache_ok : cache_ok sample_vol 0 5 None sample_state.
Proof.
  destruct (list_record_ok 0) as (_ & _ & B0 & _). destruct (list_record_ok 1) as (_ & _ & B1 & _). split; try done.
  - apply contents_of_range. by rewrite bytes_app.
  - intros n ni Hn Hb. cbn in Hn. apply lookup_singleton_Some in Hn as [<- _]. done.
Qed.

(** The entry of the unnamed attribute of the type 0x80 and its attribute record. *)
Lemma sample_match k e : sample_list !! k = Some e → entry_order true sample_upcase 0x80 AT_UNNAMED e = 0 → e = sample_entry 0x80 0 (7 * 2 ^ 48 + 1) 0 [].
Proof.
  intros Hk Ho. destruct k as [|[|[|k]]]; [| |  |discriminate Hk]; injection Hk as Hk.
  - subst e. exfalso. revert Ho. vm_compute. discriminate.
  - by symmetry.
  - subst e. exfalso. revert Ho. vm_compute. discriminate.
Qed.
Lemma sample_first l1 a l2 : m_attrs (list_record 1) = l1 ++ a :: l2 → get16 a a_instance = 0 → l1 = [].
Proof.
  intros Hat Hi. destruct l1 as [|b [|c l1]]; [done| |]; cbn [list_record m_attrs Z.eqb app] in Hat.
  - injection Hat as _ Hat _. subst a. revert Hi. vm_compute. discriminate.
  - injection Hat as _ _ Hat. by destruct l1.
Qed.

(** The unnamed attribute of the type 0x80 is in the extent. *)
Lemma ntfs_attr_lookup_list_correct_witness :
  ∃ ctx' w', @ntfs_attr_lookup quiet_mft sample_vol true sample_upcase 0 (concat sample_list) true 0x80 AT_UNNAMED 0 None
      (new_ctx 0 (record_at sample_vol sample_mft_contents 0)) sample_state = Ret ((0, ctx'), w') ∧ lc_ni ctx' = 1 ∧ ctx_a (lc_ctx ctx') = 48%nat.
Proof.
  destruct (@ntfs_attr_lookup_list_correct quiet_mft sample_vol ltac:(split; done) true sample_upcase 0 5 sample_list list_record sample_mft_contents 0x80 AT_UNNAMED 0 sample_state
    sample_list_inode I ltac:(done) ltac:(done) ltac:(done) sample_cache_ok eq_refl) as (err & ctx' & w' & Er & _ & Hr).
  destruct Hr as [(-> & k & e & l1 & a & l2 & (Hk & Ho & _) & _ & Hni & _ & Hat & Hof & Ha & _)|[(-> & _ & E1 & E2 & _ & _ & EE & H1 & H2 & _)|(_ & _ & Hq & _)]].
  - exists ctx', w'. split; [exact Er|]. apply (sample_match k e Hk) in Ho. subst e.
    assert (MREF (e_ref (sample_entry 0x80 0 (7 * 2 ^ 48 + 1) 0 [])) = 1) as Hm by (vm_compute; reflexivity). rewrite Hm in Hni, Hat, Ha.
    rewrite (sample_first l1 a l2 Hat) in Ha; [split; [exact Hni|rewrite Ha; vm_compute; reflexivity]|]. rewrite (of_instance _ _ Hof). vm_compute. reflexivity.
  - exfalso. assert (sample_entry 0x80 0 (7 * 2 ^ 48 + 1) 0 [] ∈ E1 ++ E2) as Hin by (rewrite <- EE; right; left).
    rewrite list.Forall_forall in H1, H2. apply elem_of_app in Hin as [Hin|Hin]; [apply H1 in Hin|apply H2 in Hin]; revert Hin; vm_compute; discriminate.
  - exfalso. apply Hq. split_and!; intros; reflexivity.
Defined.
