(* ===== verification/Secure.v ===== *)
(** * Default security descriptors

    [ntfs_security_hash] of [kext/ntfs_secure.h], and the default $SDS entries of
    [kext/ntfs_secure.c], the security descriptors of which new files and directories get. *)

From S2P Require Import Prelude Bytes.

(** ** Operations *)

Definition ntfs_rol32 (x n : Z) : Z := Z.lor (u32 (Z.shiftl x n)) (Z.shiftr x (32 - n)).

(** The loop over [n] words from [pos] on. *)
Fixpoint hash_loop (n : nat) (sd : list Z) (pos : nat) (hash : Z) : outcome Z :=
  match n with
  | O => Ret hash
  | S n => w ← le32_at sd pos; hash_loop n sd (pos + 4) (u32 (w + ntfs_rol32 hash 3))
  end.

Definition ntfs_security_hash (m : list Z) (sd : nat) (length : Z) : outcome Z :=
  hash_loop (Z.to_nat (length / 4)) m sd 0.

(** The sizes of the structures, and the flags. *)
Definition sizeof_SDS_ENTRY_HEADER : nat := 20.
Definition sizeof_SECURITY_DESCRIPTOR_RELATIVE : nat := 20.
Definition sizeof_ACL : nat := 8.
Definition sizeof_ACCESS_ALLOWED_ACE : nat := 20.
Definition sizeof_SID : nat := 12.
Definition SE_SELF_RELATIVE : Z := 0x8000.
Definition SE_DACL_PROTECTED : Z := 0x1000.
Definition SE_DACL_AUTO_INHERITED : Z := 0x0400.
Definition SE_DACL_PRESENT : Z := 0x0004.
Definition CONTAINER_INHERIT_ACE : Z := 2.
Definition OBJECT_INHERIT_ACE : Z := 1.
(** [STANDARD_RIGHTS_ALL] and the rights of files. *)
Definition ace_rights : Z :=
  foldr Z.lor 0 [0x1f0000; 0x100; 0x80; 0x40; 0x20; 0x10; 0x8; 0x4; 0x2; 0x1].

(** [sds] is the offset of the entry in [m]. *)
Definition ntfs_default_sds_entry_init (m : list Z) (sds : nat) (dir old : bool) : outcome (list Z) :=
  let sd := (sds + sizeof_SDS_ENTRY_HEADER)%nat in
  m ← put8 m sd 1;
  m ← put16 m (sd + 2) (Z.lor (Z.lor (Z.lor SE_SELF_RELATIVE SE_DACL_PROTECTED) SE_DACL_AUTO_INHERITED) SE_DACL_PRESENT);
  m ← (if old then
         control ← le16_at m (sd + 2);
         put16 m (sd + 2) (Z.land control (Z.lnot (Z.lor SE_DACL_PROTECTED SE_DACL_AUTO_INHERITED)))
       else Ret m);
  m ← put32 m (sd + 16) (Z.of_nat sizeof_SECURITY_DESCRIPTOR_RELATIVE);
  sd_dacl ← le32_at m (sd + 16);
  let dacl := (sd + Z.to_nat sd_dacl)%nat in
  m ← put8 m dacl 2;
  m ← put16 m (dacl + 4) 1;
  let ace := (dacl + sizeof_ACL)%nat in
  m ← put8 m ace 0;
  m ← put8 m (ace + 1) (if dir then Z.lor CONTAINER_INHERIT_ACE OBJECT_INHERIT_ACE else 0);
  m ← put16 m (ace + 2) (Z.of_nat sizeof_ACCESS_ALLOWED_ACE);
  m ← put32 m (ace + 4) ace_rights;
  let sid := (ace + 8)%nat in
  m ← put8 m sid 1;
  m ← put8 m (sid + 1) 1;
  m ← put8 m (sid + 2) 0;
  m ← put8 m (sid + 3) 0;
  m ← put8 m (sid + 4) 0;
  m ← put8 m (sid + 5) 0;
  m ← put8 m (sid + 6) 0;
  m ← put8 m (sid + 7) 1;
  m ← put32 m (sid + 8) 0;
  ace_size ← le16_at m (ace + 2);
  m ← put16 m (dacl + 2) (Z.of_nat sizeof_ACL + ace_size);
  sd_dacl ← le32_at m (sd + 16);
  dacl_size ← le16_at m (dacl + 2);
  m ← put32 m (sd + 4) (sd_dacl + dacl_size);
  owner ← le32_at m (sd + 4);
  m ← memcpy m (sd + Z.to_nat owner) m sid sizeof_SID;
  owner ← le32_at m (sd + 4);
  m ← put32 m (sd + 8) (owner + Z.of_nat sizeof_SID);
  group ← le32_at m (sd + 8);
  m ← memcpy m (sd + Z.to_nat group) m sid sizeof_SID;
  group ← le32_at m (sd + 8);
  let sd_len := group + Z.of_nat sizeof_SID in
  hash ← ntfs_security_hash m sd sd_len;
  m ← put32 m sds hash;
  put32 m (sds + 16) (Z.of_nat sizeof_SDS_ENTRY_HEADER + sd_len).

(** The offsets of the entries in the buffer. *)
Record sds_entries := mk_entries { file_sds : nat; dir_sds : nat; file_sds_old : nat; dir_sds_old : nat }.

(** [buf] is the memory that [IOMallocData] returns, if any. *)
Definition ntfs_default_sds_entries_init (buf : option (list Z)) : outcome (Z * option (list Z * sds_entries)) :=
  match buf with
  | None => Ret (ENOMEM, None)
  | Some m =>
      let next (m : list Z) (sds : nat) : outcome nat :=
        len ← le32_at m (sds + 16); Ret (sds + Z.to_nat (Z.land (len + 15) (Z.lnot 15)))%nat in
      m ← ntfs_default_sds_entry_init m 0 false false;
      s1 ← next m 0%nat;
      m ← ntfs_default_sds_entry_init m s1 true false;
      s2 ← next m s1;
      m ← ntfs_default_sds_entry_init m s2 false true;
      s3 ← next m s2;
      m ← ntfs_default_sds_entry_init m s3 true true;
      Ret (0, Some (m, mk_entries 0 s1 s2 s3))
  end.

(** ** The contents of the entries *)

(** The SID of everyone, S-1-1-0. *)
Definition everyone : list Z := [1; 1; 0; 0; 0; 0; 0; 1; 0; 0; 0; 0].

(** The security descriptor; the bytes [u] are those that no field is stored to. *)
Definition default_sd (dir old : bool) (u : nat → Z) : list Z :=
  [1; u 1%nat] ++ le_bytes 2 (if old then 0x8004 else 0x9404) ++ le_bytes 4 48 ++ le_bytes 4 60 ++
  [u 12%nat; u 13%nat; u 14%nat; u 15%nat] ++ le_bytes 4 20 ++
  [2; u 21%nat; 28; 0; 1; 0; u 26%nat; u 27%nat] ++
  [0; if dir then 3 else 0; 20; 0] ++ le_bytes 4 0x1f01ff ++ everyone ++ everyone ++ everyone.

(** The hash of a list of bytes. *)
Fixpoint hash_of (sd : list Z) (hash : Z) : Z :=
  match sd with
  | b0 :: b1 :: b2 :: b3 :: sd => hash_of sd (u32 (get32 [b0; b1; b2; b3] 0 + ntfs_rol32 hash 3))
  | _ => hash
  end.

Lemma memcpy_part (p a q : list Z) d s n :
  (d + n ≤ length a)%nat → (s + n ≤ length a)%nat →
  memcpy (p ++ a ++ q) (length p + d) (p ++ a ++ q) (length p + s) n = Ret (p ++ splice a d (take n (drop s a)) ++ q).
Proof.
  intros H1 H2. rewrite memcpy_Ret by len.
  rewrite (drop_app_add p (a ++ q) s), (drop_app_le a q s), (take_app_le _ q n) by (rewrite ?length_drop; lia).
  assert (length (take n (drop s a)) = n) as L by (rewrite length_take, length_drop; lia).
  rewrite <- splice_app_l by lia. rewrite <- splice_app_r. unfold splice. by rewrite L.
Qed.

Lemma hash_loop_of n p a q h :
  length a = (4 * n)%nat → hash_loop n (p ++ a ++ q) (length p) h = Ret (hash_of a h).
Proof.
  revert p a h. induction n as [|n IH]; intros p a h Ha; [by destruct a|].
  destruct a as [|b0 [|b1 [|b2 [|b3 a]]]]; cbn [length] in Ha; try lia. cbn [hash_loop hash_of].
  rewrite <- (Nat.add_0_r (length p)), le32_part by (cbn; lia). cbn [mbind outcome_bind].
  replace (length p + 0 + 4)%nat with (length (p ++ [b0; b1; b2; b3])) by (rewrite length_app; cbn; lia).
  change ((b0 :: b1 :: b2 :: b3 :: a) ++ q) with ([b0; b1; b2; b3] ++ a ++ q). rewrite (assoc_L (++) p), IH by lia. done.
Qed.

(** Evaluate an access to the explicit list of bytes in the middle. *)
Ltac eval_in f := let v := eval vm_compute in f in change f with v.
Ltac entry_step :=
  rewrite <- ?Nat.add_assoc;
  first
  [ rewrite put_part by (apply Nat.leb_le; vm_compute; reflexivity); match goal with |- context [splice ?a ?k ?bs] => eval_in (splice a k bs) end
  | rewrite le32_part by (apply Nat.leb_le; vm_compute; reflexivity); match goal with |- context [get32 ?a ?k] => eval_in (get32 a k) end
  | rewrite le16_part by (apply Nat.leb_le; vm_compute; reflexivity); match goal with |- context [get16 ?a ?k] => eval_in (get16 a k) end
  | rewrite memcpy_part by (apply Nat.leb_le; vm_compute; reflexivity); match goal with |- context [splice ?a ?k ?bs] => eval_in (splice a k bs) end ];
  cbn [mbind outcome_bind].

(** The hash and the length of the entry. *)
Lemma sds_entry_finish p e q :
  length e = 92%nat →
  (hash ← ntfs_security_hash (p ++ e ++ q) (length p + sizeof_SDS_ENTRY_HEADER) (60 + Z.of_nat sizeof_SID);
   m ← put (p ++ e ++ q) (length p) (le_bytes 4 hash);
   put m (length p + 16) (le_bytes 4 (Z.of_nat sizeof_SDS_ENTRY_HEADER + (60 + Z.of_nat sizeof_SID)))) =
  Ret (p ++ (le_bytes 4 (hash_of (drop 20 e) 0) ++ take 12 (drop 4 e) ++ le_bytes 4 92 ++ drop 20 e) ++ q).
Proof.
  intros He. unfold ntfs_security_hash, sizeof_SDS_ENTRY_HEADER.
  change (Z.to_nat ((60 + Z.of_nat sizeof_SID) / 4)) with 18%nat.
  assert (p ++ e ++ q = (p ++ take 20 e) ++ drop 20 e ++ q) as E by (by rewrite <- (assoc_L (++) p), (assoc_L (++) (take 20 e)), take_drop).
  replace (length p + 20)%nat with (length (p ++ take 20 e)) by (rewrite length_app, length_take; lia).
  rewrite E at 1. rewrite hash_loop_of by (rewrite length_drop; lia). cbn [mbind outcome_bind].
  set (h := hash_of (drop 20 e) 0). rewrite <- (Nat.add_0_r (length p)) at 1.
  rewrite put_part by (rewrite le_bytes_length; lia). cbn [mbind outcome_bind].
  rewrite put_part by (rewrite length_splice; rewrite le_bytes_length; lia). do 3 f_equal.
  do 92 (destruct e as [|? e]; [discriminate He|]). destruct e; [|discriminate He].
  unfold splice at 2. cbn [take app]. rewrite le_bytes_length. cbn [drop Nat.add].
  generalize (le_bytes_length 4 h). intros L. destruct (le_bytes 4 h) as [|? [|? [|? [|? [|? ?]]]]]; done.
Qed.

Lemma sds_entry_init p e q dir old :
  length e = 92%nat →
  let sd := default_sd dir old (λ k, get8 e (20 + k)) in
  ntfs_default_sds_entry_init (p ++ e ++ q) (length p) dir old =
    Ret (p ++ (le_bytes 4 (hash_of sd 0) ++ take 12 (drop 4 e) ++ le_bytes 4 92 ++ sd) ++ q).
Proof.
  intros He. do 92 (destruct e as [|? e]; [discriminate He|]). destruct e; [|discriminate He]. clear He. cbv zeta.
  unfold ntfs_default_sds_entry_init, put8, put16, put32. cbv zeta.
  destruct old, dir; repeat entry_step; (etransitivity; [by apply sds_entry_finish|]); reflexivity.
Qed.

(** The entry, with the bytes [u] in the fields that are not set. *)
Definition entry_of (dir old : bool) (u : nat → Z) : list Z :=
  let sd := default_sd dir old (λ k, u (20 + k)%nat) in
  le_bytes 4 (hash_of sd 0) ++ (u <$> seq 4 12) ++ le_bytes 4 92 ++ sd.

Lemma length_entry_of dir old u : length (entry_of dir old u) = 92%nat.
Proof. unfold entry_of. rewrite !length_app, !le_bytes_length. done. Qed.

Lemma entry_of_sd dir old u : drop 20 (entry_of dir old u) = default_sd dir old (λ k, u (20 + k)%nat).
Proof. unfold entry_of. rewrite !(assoc_L (++)), drop_app_length'; [done|]. by rewrite !length_app, !le_bytes_length. Qed.

Lemma default_sd_ext dir old u v :
  (∀ k, (k < 72)%nat → u k = v k) → default_sd dir old u = default_sd dir old v.
Proof. intros H. unfold default_sd. by rewrite !H by lia. Qed.

Lemma entry_of_ext dir old u v : (∀ k, (k < 92)%nat → u k = v k) → entry_of dir old u = entry_of dir old v.
Proof.
  intros H. unfold entry_of. cbn [seq fmap list_fmap]. rewrite !H by lia.
  by rewrite (default_sd_ext dir old (λ k, u (20 + k)%nat) (λ k, v (20 + k)%nat)) by (intros k Hk; apply H; lia).
Qed.

(** An entry is set up in front of [q]. *)
Lemma sds_entry_init_of p e q dir old n m :
  m = p ++ e ++ q → length e = 92%nat → n = length p →
  ntfs_default_sds_entry_init m n dir old = Ret (p ++ entry_of dir old (get8 e) ++ q).
Proof.
  intros -> He ->. rewrite sds_entry_init by done. do 2 f_equal. unfold entry_of. do 2 f_equal.
  by do 92 (destruct e as [|? e]; [discriminate He|]).
Qed.

Lemma next_entry p dir old u q n :
  n = length p → le32_at (p ++ entry_of dir old u ++ q) (n + 16) = Ret 92.
Proof. intros ->. by rewrite le32_part by (rewrite length_entry_of; lia). Qed.

(** An entry in front of [q], in terms of the whole memory. *)
Lemma entry_at p e q dir old n m buf :
  m = p ++ entry_of dir old (get8 e) ++ q → n = length p → length e = 92%nat →
  (∀ j, (j < 92)%nat → get8 e j = get8 buf (n + j)) → take 92 (drop n m) = entry_of dir old (λ k, get8 buf (n + k)).
Proof.
  intros -> -> He H. rewrite drop_app_length, take_app_le, take_ge by (rewrite length_entry_of; lia). by apply entry_of_ext.
Qed.

(** The default $SDS entries fit into the buffer, at the offsets 0, 0x60, 0xc0 and 0x120, each of
    0x5c bytes with the length and the hash of its descriptor, which is the one that gives full access to everyone, with the
    inheritance flags of directories and the control flags of NT4 or of Windows 2000.  The security_id, the offset, the system
    ACL and the alignment bytes keep what the allocated memory happens to contain, and the hash depends on the latter two. *)
Lemma sds_entries_init_spec buf :
  length buf = 0x180%nat →
  ∃ m, ntfs_default_sds_entries_init (Some buf) = Ret (0, Some (m, mk_entries 0 0x60 0xc0 0x120)) ∧ length m = 0x180%nat ∧
    Forall (λ '(sds, dir, old), take 92 (drop sds m) = entry_of dir old (λ k, get8 buf (sds + k)))
      [(0x0%nat, false, false); (0x60%nat, true, false); (0xc0%nat, false, true); (0x120%nat, true, true)].
Proof.
  intros Hlen. set (e k := take 92 (drop (96 * k) buf)). set (g k := take 4 (drop (96 * k + 92) buf)).
  assert (∀ k, (k < 4)%nat → length (e k) = 92%nat ∧ length (g k) = 4%nat) as L
    by (intros k Hk; unfold e, g; rewrite !length_take, !length_drop; lia).
  assert (∀ k n, (k < 4)%nat → n = (96 * k)%nat → drop n buf = e k ++ g k ++ drop (n + 96) buf) as Hs.
  { intros k n Hk ->. unfold e, g. rewrite <- (take_drop 92 (drop (96 * k) buf)) at 1. f_equal. rewrite drop_drop.
    rewrite <- (take_drop 4 (drop (96 * k + 92) buf)) at 1. f_equal. rewrite drop_drop. f_equal. lia. }
  assert (buf = e 0%nat ++ g 0%nat ++ e 1%nat ++ g 1%nat ++ e 2%nat ++ g 2%nat ++ e 3%nat ++ g 3%nat) as E.
  { transitivity (drop 0 buf); [done|]. rewrite (Hs 0%nat 0%nat), (Hs 1%nat), (Hs 2%nat), (Hs 3%nat), drop_ge, app_nil_r by lia. done. }
  destruct (L 0%nat) as [Le0 Lg0], (L 1%nat) as [Le1 Lg1], (L 2%nat) as [Le2 Lg2], (L 3%nat) as [Le3 Lg3]; [lia..|].
  set (E0 := entry_of false false (get8 (e 0%nat))). set (E1 := entry_of true false (get8 (e 1%nat))).
  set (E2 := entry_of false true (get8 (e 2%nat))). set (E3 := entry_of true true (get8 (e 3%nat))).
  exists (E0 ++ g 0%nat ++ E1 ++ g 1%nat ++ E2 ++ g 2%nat ++ E3 ++ g 3%nat).
  assert (length E0 = 92 ∧ length E1 = 92 ∧ length E2 = 92 ∧ length E3 = 92)%nat as (L0 & L1 & L2 & L3) by (split_and!; apply length_entry_of).
  assert (∀ k j, (k < 4)%nat → (j < 92)%nat → get8 (e k) j = get8 buf (96 * k + j)) as Hget.
  { intros k j Hk Hj. unfold e, get8. rewrite !nth_lookup, lookup_take_lt, lookup_drop by done. done. }
  split; [|split; [rewrite !length_app; lia|]].
  - unfold ntfs_default_sds_entries_init. rewrite E.
    rewrite (sds_entry_init_of [] (e 0%nat) (g 0%nat ++ e 1%nat ++ g 1%nat ++ e 2%nat ++ g 2%nat ++ e 3%nat ++ g 3%nat)) by done.
    cbn [mbind outcome_bind]. rewrite next_entry by done. cbn [mbind outcome_bind]. change (0 + Z.to_nat _)%nat with 96%nat. fold E0.
    rewrite (sds_entry_init_of (E0 ++ g 0%nat) (e 1%nat) (g 1%nat ++ e 2%nat ++ g 2%nat ++ e 3%nat ++ g 3%nat)) by (by app_norm || len).
    cbn [mbind outcome_bind]. rewrite next_entry by len. cbn [mbind outcome_bind]. change (96 + Z.to_nat _)%nat with 192%nat. fold E1.
    rewrite (sds_entry_init_of (E0 ++ g 0%nat ++ E1 ++ g 1%nat) (e 2%nat) (g 2%nat ++ e 3%nat ++ g 3%nat)) by (by app_norm || len).
    cbn [mbind outcome_bind]. rewrite next_entry by len. cbn [mbind outcome_bind]. change (192 + Z.to_nat _)%nat with 288%nat. fold E2.
    rewrite (sds_entry_init_of (E0 ++ g 0%nat ++ E1 ++ g 1%nat ++ E2 ++ g 2%nat) (e 3%nat) (g 3%nat)) by (by app_norm || len).
    cbn [mbind outcome_bind]. fold E3. by app_norm.
  - repeat (apply list.Forall_cons; split); [..|constructor].
    + apply (entry_at [] (e 0%nat) (g 0%nat ++ E1 ++ g 1%nat ++ E2 ++ g 2%nat ++ E3 ++ g 3%nat)); [done..|]. intros j Hj. by apply Hget; lia.
    + apply (entry_at (E0 ++ g 0%nat) (e 1%nat) (g 1%nat ++ E2 ++ g 2%nat ++ E3 ++ g 3%nat)); [by app_norm|len|done|].
      intros j Hj. by apply Hget; lia.
    + apply (entry_at (E0 ++ g 0%nat ++ E1 ++ g 1%nat) (e 2%nat) (g 2%nat ++ E3 ++ g 3%nat)); [by app_norm|len|done|].
      intros j Hj. by apply Hget; lia.
    + apply (entry_at (E0 ++ g 0%nat ++ E1 ++ g 1%nat ++ E2 ++ g 2%nat) (e 3%nat) (g 3%nat)); [by app_norm|len|done|].
      intros j Hj. by apply Hget; lia.
Qed.

(** The descriptor and its hash depend on what the memory contained. *)
Example sds_entry_uninitialised :
  (m ← ntfs_default_sds_entry_init (replicate 96 0) 0 false false; le32_at m 32) = Ret 0 ∧
  (m ← ntfs_default_sds_entry_init (replicate 96 0xff) 0 false false; le32_at m 32) = Ret 0xffffffff ∧
  (m ← ntfs_default_sds_entry_init (replicate 96 0) 0 false false; le32_at m 0) = Ret 0x38b02a3 ∧
  (m ← ntfs_default_sds_entry_init (replicate 96 0xff) 0 false false; le32_at m 0) = Ret 0xfb98eeaa.
Proof. by vm_compute. Qed.
