(* ===== verification/NewInode.v ===== *)
(** * The mft record of a new inode

    The parts of [ntfs_mft_record_alloc] of [kext/ntfs_mft.c] that fill in an allocated mft record: formatting
    it again, and, for a base mft record, inserting the attributes of the new file or directory. *)

From Stdlib Require Import Sorted.
From S2P Require Import Prelude Bytes Unistr Collate Time MftRecord AttrFind AttrOrder Secure.

(** ** Operations *)


Definition AT_STANDARD_INFORMATION : Z := 0x10.
Definition AT_SECURITY_DESCRIPTOR : Z := 0x50.
Definition AT_DATA : Z := 0x80.

(** The fields of [STANDARD_INFORMATION]. *)
Definition sizeof_STANDARD_INFORMATION : Z := 72.
Definition sizeof_STANDARD_INFORMATION_12 : Z := 48.

Definition ntfs_standard_info_attribute_insert (m : list Z) (a : nat) (file_attrs security_id : Z) (create_time : timespec)
    : outcome (list Z) :=
  let size := if negb (security_id =? 0) then sizeof_STANDARD_INFORMATION else sizeof_STANDARD_INFORMATION_12 in
  '(err, m) ← ntfs_resident_attr_record_insert_internal m a AT_STANDARD_INFORMATION [] size;
  if negb (err =? 0) then Panic else
  ofs ← le16_at m (a + a_value_offset);
  let si := (a + Z.to_nat ofs)%nat in
  m ← put64 m si (utc2ntfs create_time);
  m ← put64 m (si + 8) (utc2ntfs create_time);
  m ← put64 m (si + 16) (utc2ntfs create_time);
  m ← put64 m (si + 24) (utc2ntfs create_time);
  m ← put32 m (si + 32) file_attrs;
  if negb (security_id =? 0) then put32 m (si + 52) security_id else Ret m.

(** The types of new inodes. *)
Inductive vtype := VREG | VDIR | VBLK | VCHR | VLNK | VSOCK | VFIFO.

#[export] Instance vtype_eq_dec : EqDecision vtype.
Proof. solve_decision. Defined.

(** [sds_buf] is the memory of the default $SDS entries, and [entries] says where in it they are. *)
Definition ntfs_sd_attribute_insert (sds_buf : list Z) (entries : sds_entries) (major_ver : Z) (va_type : vtype) (m : list Z) (a : nat)
    : outcome (list Z) :=
  let sds :=
    if 1 <? major_ver then (if va_type is VDIR then dir_sds entries else file_sds entries)
    else (if va_type is VDIR then dir_sds_old entries else file_sds_old entries) in
  length ← le32_at sds_buf (sds + 16);
  let sd_size := u32 (length - Z.of_nat sizeof_SDS_ENTRY_HEADER) in
  '(err, m) ← ntfs_resident_attr_record_insert_internal m a AT_SECURITY_DESCRIPTOR [] sd_size;
  if negb (err =? 0) then Panic else
  ofs ← le16_at m (a + a_value_offset);
  memcpy m (a + Z.to_nat ofs) sds_buf (sds + sizeof_SDS_ENTRY_HEADER) (Z.to_nat sd_size).

Definition sizeof_INDEX_ROOT : nat := 32.
Definition sizeof_INDEX_HEADER : nat := 16.
Definition sizeof_INDEX_ENTRY_HEADER : nat := 16.

Definition ntfs_index_root_attribute_insert (index_block_size blocks_per_index_block : Z) (m : list Z) (a : nat)
    : outcome (list Z) :=
  '(err, m) ← ntfs_resident_attr_record_insert_internal m a AT_INDEX_ROOT I30
    (Z.of_nat (sizeof_INDEX_ROOT + sizeof_INDEX_ENTRY_HEADER));
  if negb (err =? 0) then Panic else
  ofs ← le16_at m (a + a_value_offset);
  let ir := (a + Z.to_nat ofs)%nat in
  m ← put32 m ir AT_FILENAME;
  m ← put32 m (ir + 4) COLLATION_FILENAME;
  m ← put32 m (ir + 8) index_block_size;
  m ← put8 m (ir + 12) blocks_per_index_block;
  m ← put32 m (ir + 16) (Z.of_nat sizeof_INDEX_HEADER);
  m ← put32 m (ir + 20) (Z.of_nat (sizeof_INDEX_HEADER + sizeof_INDEX_ENTRY_HEADER));
  m ← put32 m (ir + 24) (Z.of_nat (sizeof_INDEX_HEADER + sizeof_INDEX_ENTRY_HEADER));
  let ieh := (ir + sizeof_INDEX_ROOT)%nat in
  m ← put16 m (ieh + 8) (Z.of_nat sizeof_INDEX_ENTRY_HEADER);
  put16 m (ieh + 12) INDEX_ENTRY_END.

(** Formatting a mft record that was free, in [ntfs_mft_record_alloc]. *)
Definition reformat_mft_record (record_size major_ver minor_ver mft_no : Z) (m : list Z) : outcome (Z * list Z) :=
  seq_no ← le16_at m m_sequence_number;
  usa_ofs ← le16_at m m_usa_ofs;
  usn ← (if usa_ofs <? 512 - 2 then le16_at m (Z.to_nat usa_ofs) else Ret 0);
  '(err, m) ← ntfs_mft_record_lay_out record_size major_ver minor_ver mft_no m;
  if negb (err =? 0) then Ret (err, m) else
  m ← (if negb (seq_no =? 0) then put16 m m_sequence_number seq_no else Ret m);
  m ← (if negb (usn =? 0) && negb (usn =? 0xffff)
       then usa_ofs ← le16_at m m_usa_ofs; put16 m (Z.to_nat usa_ofs) usn else Ret m);
  Ret (0, m).

Definition MFT_RECORD_IN_USE : Z := 1.
Definition MFT_RECORD_IS_DIRECTORY : Z := 2.
Definition FILE_ATTR_SYSTEM : Z := 0x4.
Definition FILE_ATTR_ARCHIVE : Z := 0x20.
Definition FILE_ATTR_SPARSE_FILE : Z := 0x200.
Definition FILE_ATTR_COMPRESSED : Z := 0x800.
Definition FILE_ATTR_NOT_CONTENT_INDEXED : Z := 0x2000.
Definition FILE_ATTR_ENCRYPTED : Z := 0x4000.

Definition or_flags (m : list Z) (flags : Z) : outcome (list Z) :=
  f ← le16_at m m_flags; put16 m m_flags (Z.lor f flags).

(** The file attributes of the new inode, from those of the parent directory. *)
Definition new_file_attrs (va_type : vtype) (parent_attrs : Z) : Z :=
  let file_attrs := Z.land parent_attrs
    (Z.lor (Z.lor (Z.lor FILE_ATTR_ENCRYPTED FILE_ATTR_NOT_CONTENT_INDEXED) FILE_ATTR_COMPRESSED) FILE_ATTR_SPARSE_FILE) in
  let mask := Z.lnot (Z.lor FILE_ATTR_ENCRYPTED FILE_ATTR_COMPRESSED) in
  match va_type with
  | VDIR => file_attrs
  | VSOCK | VFIFO | VBLK | VCHR =>
      Z.land (Z.lor (Z.land (Z.lor file_attrs FILE_ATTR_SYSTEM) mask) FILE_ATTR_ARCHIVE) mask
  | _ => Z.land (Z.lor file_attrs FILE_ATTR_ARCHIVE) mask
  end.

Definition INTX_BLOCK_DEVICE : Z := 0x004B4C4278746E49.
Definition INTX_CHAR_DEVICE : Z := 0x0052484378746E49.

Definition data_len (va_type : vtype) : Z :=
  match va_type with VBLK | VCHR => 8 + 16 | VSOCK => 1 | _ => 0 end.

(** The $DATA attribute of a new file; [major] and [minor] are those of [va_rdev]. *)
Definition data_attribute_insert (va_type : vtype) (file_attrs major minor : Z) (m : list Z) (a : nat) : outcome (list Z) :=
  if negb (Z.land file_attrs FILE_ATTR_ENCRYPTED =? 0) then Panic else
  '(err, m) ← ntfs_resident_attr_record_insert_internal m a AT_DATA [] (data_len va_type);
  if negb (err =? 0) then Panic else
  let device (magic : Z) :=
    ofs ← le16_at m (a + a_value_offset);
    let ix := (a + Z.to_nat ofs)%nat in
    m ← put64 m ix magic;
    m ← put64 m (ix + 8) major;
    put64 m (ix + 16) minor in
  match va_type with
  | VBLK => device INTX_BLOCK_DEVICE
  | VCHR => device INTX_CHAR_DEVICE
  | _ => Ret m
  end.

(** The attributes of a base mft record, in [ntfs_mft_record_alloc]; [security_id] is the one that was chosen for the inode, zero for
    a security descriptor attribute. *)
Definition init_base_mft_record (major_ver index_block_size blocks_per_index_block : Z) (sds_buf : list Z) (entries : sds_entries)
    (va_type : vtype) (parent_attrs security_id : Z) (create_time : timespec) (major minor : Z) (m : list Z) : outcome (list Z) :=
  let file_attrs := new_file_attrs va_type parent_attrs in
  m ← (if va_type is VDIR then or_flags m MFT_RECORD_IS_DIRECTORY else Ret m);
  attrs_offset ← le16_at m m_attrs_offset;
  let a := Z.to_nat attrs_offset in
  m ← ntfs_standard_info_attribute_insert m a file_attrs security_id create_time;
  length ← le32_at m (a + a_length);
  let a := (a + Z.to_nat length)%nat in
  '(m, a) ← (if security_id =? 0 then
               m ← ntfs_sd_attribute_insert sds_buf entries major_ver va_type m a;
               length ← le32_at m (a + a_length);
               Ret (m, a + Z.to_nat length)%nat
             else Ret (m, a));
  if va_type is VDIR then ntfs_index_root_attribute_insert index_block_size blocks_per_index_block m a
  else data_attribute_insert va_type file_attrs major minor m a.

(** A record that was free becomes the base mft record of a new inode. *)
Definition new_base_mft_record (record_size major_ver minor_ver mft_no index_block_size blocks_per_index_block : Z) (sds_buf : list Z)
    (entries : sds_entries) (va_type : vtype) (parent_attrs security_id : Z) (create_time : timespec) (major minor : Z) (m : list Z)
    : outcome (Z * list Z) :=
  '(err, m) ← reformat_mft_record record_size major_ver minor_ver mft_no m;
  if negb (err =? 0) then Ret (err, m) else
  m ← or_flags m MFT_RECORD_IN_USE;
  m ← init_base_mft_record major_ver index_block_size blocks_per_index_block sds_buf entries va_type parent_attrs security_id create_time
    major minor m;
  Ret (0, m).

(** ** Inserted attributes and their values *)

(** The attribute record with its type, name and value. *)
Record attr_is (a : list Z) (type : Z) (name value : list Z) : Prop := {
  is_ok : attr_ok a;
  is_type : get32 a a_type = type;
  is_name_offset : get16 a a_name_offset = 24;
  is_name_length : get8 a a_name_length = Z.of_nat (length name);
  is_name : attr_name a = name;
  is_value_offset : get16 a a_value_offset = val_ofs name;
  is_value_length : get32 a a_value_length = Z.of_nat (length value);
  is_value : attr_value a = value;
  is_size : length a = Z.to_nat (round8 (val_ofs name + Z.of_nat (length value)))
}.

Lemma val_ofs_bound name : 24 + 2 * Z.of_nat (length name) ≤ val_ofs name.
Proof. unfold val_ofs, round8. zdiv. Qed.

Lemma round8_ge x : x ≤ round8 x.
Proof. unfold round8. zdiv. Qed.

Lemma resident_attr_is type instance name n :
  0 ≤ type < AT_END → 0 ≤ instance < 2 ^ 16 → Forall (λ c, 0 ≤ c < 65536) name → (length name ≤ 255)%nat →
  val_ofs name + Z.of_nat n + 7 < 2 ^ 32 →
  attr_is (resident_attr type instance name (Z.of_nat n)) type name (replicate n 0).
Proof.
  intros Ht Hi Hn Hl Hmax. pose proof (resident_attr_ok type instance name (Z.of_nat n) Ht Hi Hn Hl ltac:(lia) Hmax) as Hok.
  unfold AT_END in Ht.
  destruct (resident_attr_fields type instance name (Z.of_nat n)) as (La & _ & Ft & _ & _ & Fn & Fv & Fo & Fc & Fvo & Fvl); [lia|done|done|done|lia|done|].
  rewrite Nat2Z.id in Fv. by split; rewrite ?length_replicate.
Qed.

Lemma take_drop_splice (a : list Z) n m k bs :
  (n + m ≤ length a)%nat → (k + length bs ≤ m)%nat →
  take m (drop n (splice a (n + k) bs)) = splice (take m (drop n a)) k bs.
Proof.
  intros Hn Hk. assert (length (take n a) = n) as Ln by (rewrite length_take; lia).
  assert (length (take m (drop n a)) = m) as Lm by (rewrite length_take, length_drop; lia).
  assert (splice a (n + k) bs = take n a ++ splice (take m (drop n a)) k bs ++ drop m (drop n a)) as ->.
  { by rewrite <- splice_app_l, take_drop, <- splice_app_r, take_drop, Ln by lia. }
  rewrite drop_app_length', take_app_length'; [done| |done]. rewrite length_splice; lia.
Qed.

(** A store into the value. *)
Lemma attr_is_splice a type name value k bs :
  attr_is a type name value → bytes bs → (k + length bs ≤ length value)%nat →
  attr_is (splice a (Z.to_nat (val_ofs name) + k) bs) type name (splice value k bs).
Proof.
  intros [Hok Ht Hno Hnl Hn Hvo Hvl Hv Hs] Hbs Hk. pose proof (val_ofs_bound name) as Hvb.
  pose proof (round8_ge (val_ofs name + Z.of_nat (length value))) as Hr.
  assert (Z.to_nat (val_ofs name) + k + length bs ≤ length a)%nat as Hin by lia.
  pose proof (length_splice a _ bs Hin) as HL. set (a' := splice a _ bs) in *.
  assert (∀ j, (j < Z.to_nat (val_ofs name))%nat → get8 a' j = get8 a j) as Hlow.
  { intros j Hj. unfold a'. apply get8_splice_other; [done|lia]. }
  assert (∀ j, (j + 1 < Z.to_nat (val_ofs name))%nat → get16 a' j = get16 a j) as Hlow16
    by (intros j Hj; unfold get16; by rewrite !Hlow by lia).
  assert (∀ j, (j + 3 < Z.to_nat (val_ofs name))%nat → get32 a' j = get32 a j) as Hlow32
    by (intros j Hj; unfold get32; by rewrite !Hlow16 by lia).
  assert (24 ≤ Z.to_nat (val_ofs name))%nat as H24 by lia.
  assert (attr_value a' = splice value k bs) as Hv'.
  { unfold attr_value. rewrite Hlow32, Hlow16, Hvo, Hvl, Nat2Z.id by in_layout. unfold a'. rewrite take_drop_splice by lia.
    f_equal. transitivity (attr_value a); [|done]. unfold attr_value. by rewrite Hvo, Hvl, Nat2Z.id. }
  split; rewrite ?length_splice by done; try done; rewrite ?Hlow, ?Hlow16, ?Hlow32 by in_layout; try done.
  - destruct Hok as [O1 O2 O3 O4 O5]. split; rewrite ?HL, ?Hlow32 by in_layout; try done. by apply bytes_splice.
  - rewrite <- Hn. unfold attr_name. rewrite Hlow, Hlow16, Hno, Hnl by in_layout. apply list_fmap_ext.
    intros i x [-> Hi]%lookup_seq. apply Hlow16. lia.
  - by rewrite HL.
Qed.

(** ** Stores into the last attribute *)

(** The record is [r] with another attribute at the end. *)
Record grown (r r' : mft) (type : Z) (name value : list Z) : Prop := {
  grown_ok : mft_ok r';
  grown_attr : ∃ a, m_attrs r' = m_attrs r ++ [a] ∧ attr_is a type name value;
  grown_head : length (m_head r') = length (m_head r);
  grown_spare : m_spare r' = drop (Z.to_nat (round8 (val_ofs name + Z.of_nat (length value)))) (m_spare r);
  grown_fields k : (k + 2 ≤ 24 ∨ 28 ≤ k ∧ k + 2 ≤ 40 ∨ 42 ≤ k)%nat → get16 (m_head r') k = get16 (m_head r) k
}.

Lemma insert_grows r type name n :
  mft_ok r → 0 ≤ type < AT_END → Forall (λ c, 0 ≤ c < 65536) name → (length name ≤ 255)%nat →
  Z.of_nat (length (mft_bytes r)) + val_ofs name + Z.of_nat n + 7 < 2 ^ 32 →
  (Z.to_nat (round8 (val_ofs name + Z.of_nat n)) ≤ length (m_spare r))%nat →
  ∃ r', ntfs_resident_attr_record_insert_internal (mft_bytes r) (attr_ofs r (m_attrs r)) type name (Z.of_nat n) = Ret (0, mft_bytes r') ∧
    grown r r' type name (replicate n 0).
Proof.
  intros Hr Ht Hn Hl Hmax Hsp. pose proof (get16_range (m_head r) m_next_attr_instance (ok_head _ Hr)) as Hi.
  destruct (insert_internal_spec r (m_attrs r) [] type name (Z.of_nat n)) as [[H _]|(_ & r' & Hm & Hr' & E & _ & _ & Hh & Hs & Hf)];
    [done|by rewrite app_nil_r|done|done|done|lia|done|lia|].
  exists r'. split; [done|]. split; rewrite ?length_replicate; try done.
  eexists. split; [exact E|]. apply resident_attr_is; done || lia.
Qed.

Lemma put_grown r r' type name value k bs :
  grown r r' type name value → bytes bs → (k + length bs ≤ length value)%nat →
  ∃ r2, put (mft_bytes r') (attr_ofs r (m_attrs r) + Z.to_nat (val_ofs name) + k) bs = Ret (mft_bytes r2) ∧
    grown r r2 type name (splice value k bs).
Proof.
  intros [Hok (a & E & Ha) Hh Hs Hf] Hbs Hk. pose proof (attr_is_splice _ _ _ _ _ _ Ha Hbs Hk) as Ha2.
  set (a2 := splice a _ bs) in *. pose proof (val_ofs_bound name) as Hvb.
  pose proof (round8_ge (val_ofs name + Z.of_nat (length value))) as Hr8. pose proof (is_size _ _ _ _ Ha) as Hsz.
  assert (length a2 = length a) as HL by (apply length_splice; lia).
  exists (mk_mft (m_head r') (m_attrs r ++ [a2]) (m_fin r') (m_spare r')). split.
  - rewrite (mft_bytes_split r' (m_attrs r) a [] E).
    replace (attr_ofs r (m_attrs r)) with (length (m_head r' ++ concat (m_attrs r))) by (unfold attr_ofs; rewrite length_app, Hh; done).
    rewrite <- Nat.add_assoc, put_part by lia. f_equal.
    symmetry. apply (mft_bytes_split (mk_mft _ _ _ _) (m_attrs r) a2 [] eq_refl).
  - split; cbn [m_head m_attrs m_fin m_spare]; rewrite ?length_splice by done; try done; [|by eexists].
    apply (mft_ok_replace (m_head r') (m_attrs r) a a2 []); [|apply Ha2|done]. rewrite <- E. by destruct r'.
Qed.

Lemma put_grown_start r r' type name value bs :
  grown r r' type name value → bytes bs → (length bs ≤ length value)%nat →
  ∃ r2, put (mft_bytes r') (attr_ofs r (m_attrs r) + Z.to_nat (val_ofs name)) bs = Ret (mft_bytes r2) ∧
    grown r r2 type name (splice value 0 bs).
Proof. intros H Hbs Hk. rewrite <- (Nat.add_0_r (_ + Z.to_nat _)). by apply (put_grown r r' type name value 0 bs). Qed.

Lemma grown_value_offset r r' type name value :
  grown r r' type name value → le16_at (mft_bytes r') (attr_ofs r (m_attrs r) + a_value_offset) = Ret (val_ofs name).
Proof.
  intros [Hok (a & E & Ha) Hh Hs Hf]. pose proof (attr_size _ (is_ok _ _ _ _ Ha)) as Hsz.
  rewrite (mft_bytes_split r' (m_attrs r) a [] E).
  replace (attr_ofs r (m_attrs r)) with (length (m_head r' ++ concat (m_attrs r))) by (unfold attr_ofs; rewrite length_app, Hh; done).
  rewrite le16_part by in_layout. by rewrite (is_value_offset _ _ _ _ Ha).
Qed.

(** The next attribute begins behind the last one. *)
Lemma grown_next r r' type name value :
  grown r r' type name value →
  ∃ n, le32_at (mft_bytes r') (attr_ofs r (m_attrs r) + a_length) = Ret n ∧
    (attr_ofs r (m_attrs r) + Z.to_nat n)%nat = attr_ofs r' (m_attrs r').
Proof.
  intros [Hok (a & E & Ha) Hh Hs Hf]. assert (∀ l, attr_ofs r l = attr_ofs r' l) as Ho by (intros l; unfold attr_ofs; by rewrite Hh).
  exists (Z.of_nat (length a)). rewrite !Ho, (attr_length_at r' (m_attrs r) a []) by done. split; [done|]. by rewrite Nat2Z.id, E, attr_ofs_snoc.
Qed.

Lemma grown_size r r' type name value :
  mft_ok r → grown r r' type name value → (Z.to_nat (round8 (val_ofs name + Z.of_nat (length value))) ≤ length (m_spare r))%nat →
  length (mft_bytes r') = length (mft_bytes r).
Proof.
  intros Hr [Hok (a & E & Ha) Hh Hs Hf] Hsp. rewrite !length_mft_bytes by done. rewrite E, Hs, Hh, concat_app, length_drop.
  cbn [concat]. pose proof (is_size _ _ _ _ Ha). len.
Qed.

Lemma memcpy_put m i s j n : (j + n ≤ length s)%nat → memcpy m i s j n = put m i (take n (drop j s)).
Proof.
  intros Hn. unfold put, memcpy. assert (length (take n (drop j s)) = n) as L by (rewrite length_take, length_drop; lia).
  rewrite L, (proj2 (Nat.leb_le (j + n) (length s))), (proj2 (Nat.leb_le (0 + n) n)) by lia. cbn [drop andb].
  by rewrite drop_0, take_take, Nat.min_id.
Qed.

(** Store [bs] at [k] in the value of the attribute that was inserted. *)
Ltac store_value H k bs r2 H2 :=
  destruct (put_grown _ _ _ _ _ k bs H) as (r2 & -> & H2); [apply bytes_le_bytes|cbn; lia|]; cbn [mbind outcome_bind].

Ltac store_start H bs r2 H2 :=
  destruct (put_grown_start _ _ _ _ _ bs H) as (r2 & -> & H2); [apply bytes_le_bytes|cbn; lia|]; cbn [mbind outcome_bind].

(** ** The attributes of a new inode *)

(** The value of the standard information attribute. *)
Definition si_value (file_attrs security_id time : Z) : list Z :=
  le_bytes 8 time ++ le_bytes 8 time ++ le_bytes 8 time ++ le_bytes 8 time ++ le_bytes 4 file_attrs ++
  if security_id =? 0 then replicate 12 0 else replicate 16 0 ++ le_bytes 4 security_id ++ replicate 16 0.

Lemma standard_info_spec r file_attrs security_id create_time :
  mft_ok r → Z.of_nat (length (mft_bytes r)) ≤ 2 ^ 16 → (96 ≤ length (m_spare r))%nat →
  ∃ r', ntfs_standard_info_attribute_insert (mft_bytes r) (attr_ofs r (m_attrs r)) file_attrs security_id create_time =
      Ret (mft_bytes r') ∧
    grown r r' AT_STANDARD_INFORMATION [] (si_value file_attrs security_id (utc2ntfs create_time)).
Proof.
  intros Hr Hmax Hsp. unfold ntfs_standard_info_attribute_insert, si_value.
  assert (val_ofs [] = 24) as Hv0 by done. set (t := utc2ntfs create_time). unfold put64, put32.
  destruct (security_id =? 0); cbn [negb].
  - destruct (insert_grows r AT_STANDARD_INFORMATION [] 48) as (r0 & Hi & H0);
      [done|done|done|cbn; lia|lia|change (Z.to_nat _) with 72%nat; lia|].
    change sizeof_STANDARD_INFORMATION_12 with (Z.of_nat 48). rewrite Hi. cbn [mbind outcome_bind Z.eqb negb].
    rewrite (grown_value_offset _ _ _ _ _ H0). cbn [mbind outcome_bind].
    store_start H0 (le_bytes 8 t) r1 H1. store_value H1 8%nat (le_bytes 8 t) r2 H2.
    store_value H2 16%nat (le_bytes 8 t) r3 H3. store_value H3 24%nat (le_bytes 8 t) r4 H4.
    store_value H4 32%nat (le_bytes 4 file_attrs) r5 H5. exists r5. split; [done|exact H5].
  - destruct (insert_grows r AT_STANDARD_INFORMATION [] 72) as (r0 & Hi & H0);
      [done|done|done|cbn; lia|lia|change (Z.to_nat _) with 96%nat; lia|].
    change sizeof_STANDARD_INFORMATION with (Z.of_nat 72). rewrite Hi. cbn [mbind outcome_bind Z.eqb negb].
    rewrite (grown_value_offset _ _ _ _ _ H0). cbn [mbind outcome_bind].
    store_start H0 (le_bytes 8 t) r1 H1. store_value H1 8%nat (le_bytes 8 t) r2 H2.
    store_value H2 16%nat (le_bytes 8 t) r3 H3. store_value H3 24%nat (le_bytes 8 t) r4 H4.
    store_value H4 32%nat (le_bytes 4 file_attrs) r5 H5. store_value H5 52%nat (le_bytes 4 security_id) r6 H6.
    exists r6. split; [done|exact H6].
Qed.

(** The default $SDS entries, set up in memory that contained [buf]. *)
Definition default_entries (buf sds_buf : list Z) (entries : sds_entries) : Prop :=
  ntfs_default_sds_entries_init (Some buf) = Ret (0, Some (sds_buf, entries)) ∧ length buf = 0x180%nat.

(** The entry for the inode in that memory. *)
Definition entry_ofs (major_ver : Z) (va_type : vtype) : nat :=
  if 1 <? major_ver then (if va_type is VDIR then 0x60 else 0)%nat else (if va_type is VDIR then 0x120 else 0xc0)%nat.
Definition sd_value (major_ver : Z) (va_type : vtype) (buf : list Z) : list Z :=
  default_sd (if va_type is VDIR then true else false) (negb (1 <? major_ver)) (λ k, get8 buf (entry_ofs major_ver va_type + (20 + k))).

Lemma bytes_default_sd dir old u : (∀ k, 0 ≤ u k < 256) → bytes (default_sd dir old u).
Proof.
  intros Hu. unfold default_sd, everyone. repeat apply list.Forall_app_2; try apply bytes_le_bytes;
    repeat (apply list.Forall_cons; split); try apply Hu; try lia; try apply list.Forall_nil_2; destruct dir; lia.
Qed.

Lemma sd_attribute_spec r buf sds_buf entries major_ver va_type :
  mft_ok r → Z.of_nat (length (mft_bytes r)) ≤ 2 ^ 16 → (96 ≤ length (m_spare r))%nat →
  default_entries buf sds_buf entries → bytes buf →
  ∃ r', ntfs_sd_attribute_insert sds_buf entries major_ver va_type (mft_bytes r) (attr_ofs r (m_attrs r)) = Ret (mft_bytes r') ∧
    grown r r' AT_SECURITY_DESCRIPTOR [] (sd_value major_ver va_type buf).
Proof.
  intros Hr Hmax Hsp [He Hb] Hbytes. assert (val_ofs [] = 24) as Hv0 by done.
  destruct (sds_entries_init_spec buf Hb) as (m & Hm & Lm & Hent). rewrite He in Hm. injection Hm as -> ->.
  unfold ntfs_sd_attribute_insert. cbv zeta. cbn [dir_sds file_sds dir_sds_old file_sds_old].
  set (sds := if 1 <? major_ver then _ else _).
  assert (sds = entry_ofs major_ver va_type) as Es by (unfold sds, entry_ofs; by repeat case_match). rewrite Es. clear sds Es.
  set (sds := entry_ofs major_ver va_type). set (sd := sd_value major_ver va_type buf).
  assert (sds + 92 ≤ length m)%nat as Hin by (rewrite Lm; unfold sds, entry_ofs; repeat case_match; lia).
  assert (take 92 (drop sds m) = entry_of (if va_type is VDIR then true else false) (negb (1 <? major_ver)) (λ k, get8 buf (sds + k))) as Hentry.
  { rewrite !list.Forall_cons in Hent. destruct Hent as (H1 & H2 & H3 & H4 & _).
    unfold sds, entry_ofs. destruct (1 <? major_ver), va_type; done. }
  assert (m = take sds m ++ take 92 (drop sds m) ++ drop (sds + 92) m) as Em by (by rewrite <- drop_drop, !take_drop).
  assert (length (take sds m) = sds) as Ls by (rewrite length_take; lia).
  assert (length sd = 72%nat) as Lsd by done.
  assert (take 72 (drop (sds + 20) m) = sd) as Hsd.
  { rewrite Em, Hentry. rewrite <- Ls at 1. rewrite drop_app_add.
    rewrite drop_app_le, entry_of_sd by (rewrite length_entry_of; lia). by rewrite take_app_length'. }
  assert (le32_at m (sds + 16) = Ret 92) as -> by (rewrite Em, Hentry; apply next_entry; lia).
  cbn [mbind outcome_bind]. change (u32 _) with (Z.of_nat 72).
  destruct (insert_grows r AT_SECURITY_DESCRIPTOR [] 72) as (r0 & -> & H0);
    [done|done|done|cbn; lia|lia|change (Z.to_nat _) with 96%nat; lia|].
  cbn [mbind outcome_bind Z.eqb negb]. rewrite (grown_value_offset _ _ _ _ _ H0). cbn [mbind outcome_bind].
  change (Z.to_nat (Z.of_nat 72)) with 72%nat. change sizeof_SDS_ENTRY_HEADER with 20%nat.
  rewrite memcpy_put, Hsd by lia.
  destruct (put_grown_start _ _ _ _ _ sd H0) as (r1 & -> & H1); [|rewrite Lsd; cbn; lia|].
  - apply bytes_default_sd. intros k. by apply get8_range.
  - exists r1. split; [done|]. replace (splice (replicate 72 0) 0 sd) with sd in H1; [done|].
    unfold splice. rewrite take_0, drop_ge by (rewrite length_replicate; lia). by rewrite app_nil_r.
Qed.

(** The value of the index root attribute of an empty directory. *)
Definition index_root_value (index_block_size blocks_per_index_block : Z) : list Z :=
  le_bytes 4 AT_FILENAME ++ le_bytes 4 COLLATION_FILENAME ++ le_bytes 4 index_block_size ++ le_bytes 1 blocks_per_index_block ++ [0; 0; 0] ++
  le_bytes 4 16 ++ le_bytes 4 32 ++ le_bytes 4 32 ++ [0; 0; 0; 0] ++
  replicate 8 0 ++ le_bytes 2 16 ++ le_bytes 2 0 ++ le_bytes 2 INDEX_ENTRY_END ++ le_bytes 2 0.

Lemma index_root_spec r index_block_size blocks_per_index_block :
  mft_ok r → Z.of_nat (length (mft_bytes r)) ≤ 2 ^ 16 → (80 ≤ length (m_spare r))%nat →
  ∃ r', ntfs_index_root_attribute_insert index_block_size blocks_per_index_block (mft_bytes r) (attr_ofs r (m_attrs r)) = Ret (mft_bytes r') ∧
    grown r r' AT_INDEX_ROOT I30 (index_root_value index_block_size blocks_per_index_block).
Proof.
  intros Hr Hmax Hsp. unfold ntfs_index_root_attribute_insert. assert (val_ofs I30 = 32) as Hv0 by done.
  destruct (insert_grows r AT_INDEX_ROOT I30 48) as (r0 & Hi & H0);
    [done|done|by repeat constructor|cbn; lia|lia|change (Z.to_nat _) with 80%nat; lia|].
  change (Z.of_nat (sizeof_INDEX_ROOT + sizeof_INDEX_ENTRY_HEADER)) with (Z.of_nat 48). rewrite Hi. cbn [mbind outcome_bind Z.eqb negb].
  rewrite (grown_value_offset _ _ _ _ _ H0). cbn [mbind outcome_bind]. unfold put32, put16, put8, sizeof_INDEX_ROOT.
  rewrite <- !(Nat.add_assoc (attr_ofs r (m_attrs r) + Z.to_nat (val_ofs I30)) 32).
  store_start H0 (le_bytes 4 AT_FILENAME) r1 H1. store_value H1 4%nat (le_bytes 4 COLLATION_FILENAME) r2 H2.
  store_value H2 8%nat (le_bytes 4 index_block_size) r3 H3. store_value H3 12%nat (le_bytes 1 blocks_per_index_block) r4 H4.
  store_value H4 16%nat (le_bytes 4 (Z.of_nat sizeof_INDEX_HEADER)) r5 H5.
  store_value H5 20%nat (le_bytes 4 (Z.of_nat (sizeof_INDEX_HEADER + sizeof_INDEX_ENTRY_HEADER))) r6 H6.
  store_value H6 24%nat (le_bytes 4 (Z.of_nat (sizeof_INDEX_HEADER + sizeof_INDEX_ENTRY_HEADER))) r7 H7.
  store_value H7 (32 + 8)%nat (le_bytes 2 (Z.of_nat sizeof_INDEX_ENTRY_HEADER)) r8 H8.
  store_value H8 (32 + 12)%nat (le_bytes 2 INDEX_ENTRY_END) r9 H9.
  exists r9. split; [done|exact H9].
Qed.

(** The value of the $DATA attribute. *)
Definition data_value (va_type : vtype) (major minor : Z) : list Z :=
  match va_type with
  | VBLK => le_bytes 8 INTX_BLOCK_DEVICE ++ le_bytes 8 major ++ le_bytes 8 minor
  | VCHR => le_bytes 8 INTX_CHAR_DEVICE ++ le_bytes 8 major ++ le_bytes 8 minor
  | VSOCK => [0]
  | _ => []
  end.

(** The encrypted bit is not inherited by files. *)
Lemma not_encrypted va_type parent_attrs :
  va_type ≠ VDIR → Z.land (new_file_attrs va_type parent_attrs) FILE_ATTR_ENCRYPTED = 0.
Proof.
  intros Hd. unfold new_file_attrs. set (x := Z.land parent_attrs _).
  assert (∀ y, Z.land (Z.land y (Z.lnot (Z.lor FILE_ATTR_ENCRYPTED FILE_ATTR_COMPRESSED))) FILE_ATTR_ENCRYPTED = 0) as H.
  { intros y. rewrite <- Z.land_assoc. change (Z.land (Z.lnot _) _) with 0. apply Z.land_0_r. }
  destruct va_type; try done; apply H.
Qed.

Lemma data_attribute_spec r va_type file_attrs major minor :
  mft_ok r → Z.of_nat (length (mft_bytes r)) ≤ 2 ^ 16 → (48 ≤ length (m_spare r))%nat → Z.land file_attrs FILE_ATTR_ENCRYPTED = 0 →
  ∃ r', data_attribute_insert va_type file_attrs major minor (mft_bytes r) (attr_ofs r (m_attrs r)) = Ret (mft_bytes r') ∧
    grown r r' AT_DATA [] (data_value va_type major minor).
Proof.
  intros Hr Hmax Hsp Hf. unfold data_attribute_insert. rewrite Hf. cbn [Z.eqb negb]. assert (val_ofs [] = 24) as Hv0 by done.
  assert (0 ≤ data_len va_type ≤ 24) as Hlen by (by destruct va_type).
  destruct (insert_grows r AT_DATA [] (Z.to_nat (data_len va_type))) as (r0 & Hi & H0); [done|done|done|cbn; lia|lia| |].
  { transitivity 48%nat; [|done]. by apply Nat.leb_le; destruct va_type. }
  replace (Z.of_nat (Z.to_nat (data_len va_type))) with (data_len va_type) in Hi by (by destruct va_type).
  rewrite Hi. cbn [mbind outcome_bind Z.eqb negb]. unfold put64.
  destruct va_type; try (exists r0; split; [done|exact H0]);
    rewrite (grown_value_offset _ _ _ _ _ H0); cbn [mbind outcome_bind]; change (Z.to_nat (data_len _)) with 24%nat in H0.
  - store_start H0 (le_bytes 8 INTX_BLOCK_DEVICE) r1 H1. store_value H1 8%nat (le_bytes 8 major) r2 H2.
    store_value H2 16%nat (le_bytes 8 minor) r3 H3. exists r3. split; [done|exact H3].
  - store_start H0 (le_bytes 8 INTX_CHAR_DEVICE) r1 H1. store_value H1 8%nat (le_bytes 8 major) r2 H2.
    store_value H2 16%nat (le_bytes 8 minor) r3 H3. exists r3. split; [done|exact H3].
Qed.

(** ** The header *)

Lemma head_field r i : mft_ok r → (i + 2 ≤ length (m_head r))%nat → le16_at (mft_bytes r) i = Ret (get16 (m_head r) i).
Proof. intros Hr Hi. unfold mft_bytes. by rewrite le16_head0. Qed.

(** The record [r'] is [r] with the field at [i] of the header set to [x]. *)
Record head_set (r r' : mft) (i : nat) (x : Z) : Prop := {
  set_ok : mft_ok r';
  set_attrs : m_attrs r' = m_attrs r;
  set_spare : m_spare r' = m_spare r;
  set_length : length (m_head r') = length (m_head r);
  set_field : get16 (m_head r') i = x;
  set_other k : (k + 2 ≤ i ∨ i + 2 ≤ k)%nat → get16 (m_head r') k = get16 (m_head r) k
}.

Lemma put_head_set r i x :
  mft_ok r → 0 ≤ x < 2 ^ 16 → (i + 2 ≤ length (m_head r))%nat → (i + 2 ≤ 20 ∨ i = 22 ∨ 32 ≤ i)%nat →
  ∃ r', put16 (mft_bytes r) i x = Ret (mft_bytes r') ∧ head_set r r' i x.
Proof.
  intros Hr Hx Hb Hi. pose proof (le_bytes_length 2 x) as L.
  assert (i + length (le_bytes 2 x) ≤ length (m_head r))%nat as Hin by lia.
  exists (mk_mft (splice (m_head r) i (le_bytes 2 x)) (m_attrs r) (m_fin r) (m_spare r)). split.
  - unfold put16, mft_bytes. by rewrite put_head.
  - split; cbn [m_head m_attrs m_spare]; try done.
    + apply mft_ok_head; [done|apply bytes_le_bytes|done|lia].
    + by apply length_splice.
    + by apply get16_splice.
    + intros k Hk. apply get16_splice_other; [done|lia].
Qed.

Lemma put_head_set_if r i x (b : bool) :
  mft_ok r → 0 ≤ x < 2 ^ 16 → (i + 2 ≤ length (m_head r))%nat → (i + 2 ≤ 20 ∨ i = 22 ∨ 32 ≤ i)%nat →
  ∃ r', (if b then put16 (mft_bytes r) i x else Ret (mft_bytes r)) = Ret (mft_bytes r') ∧
    head_set r r' i (if b then x else get16 (m_head r) i).
Proof. intros Hr Hx Hb Hi. destruct b; [by apply put_head_set|]. exists r. by split. Qed.

Lemma lor_range a b n : 0 ≤ n → 0 ≤ a < 2 ^ n → 0 ≤ b < 2 ^ n → 0 ≤ Z.lor a b < 2 ^ n.
Proof.
  intros Hn Ha Hb. assert (Z.lor a b = Z.land (Z.lor a b) (Z.ones n)) as ->.
  { by rewrite Z.land_lor_distr_l, !Z.land_ones, !Z.mod_small by done. }
  rewrite Z.land_ones by done. apply Z.mod_pos_bound. lia.
Qed.

Lemma or_flags_spec r flags :
  mft_ok r → 0 ≤ flags < 2 ^ 16 →
  ∃ r', or_flags (mft_bytes r) flags = Ret (mft_bytes r') ∧ head_set r r' m_flags (Z.lor (get16 (m_head r) m_flags) flags).
Proof.
  intros Hr Hfl. pose proof (ok_head_size _ Hr) as Hh. unfold or_flags. rewrite head_field by (done || unfold m_flags; lia).
  pose proof (get16_range (m_head r) m_flags (ok_head _ Hr)) as Hf.
  cbn [mbind outcome_bind]. apply put_head_set; [done|by apply lor_range|unfold m_flags; lia..].
Qed.

Lemma head_set_size r r' i x : mft_ok r → head_set r r' i x → length (mft_bytes r') = length (mft_bytes r).
Proof. intros Hr [Hr' E1 E2 E3 _ _]. rewrite !length_mft_bytes by done. by rewrite E1, E2, E3. Qed.

Lemma reformat_spec record_size major_ver minor_ver mft_no m :
  512 ≤ record_size ≤ 2 ^ 16 → mft_no < 2 ^ 32 → Z.of_nat (length m) = record_size → bytes m →
  let seq_no := get16 m m_sequence_number in
  let usn := if get16 m m_usa_ofs <? 510 then get16 m (Z.to_nat (get16 m m_usa_ofs)) else 0 in
  ∃ r, reformat_mft_record record_size major_ver minor_ver mft_no m = Ret (0, mft_bytes r) ∧ mft_ok r ∧ m_attrs r = [] ∧
    Z.of_nat (length (mft_bytes r)) = record_size ∧ (248 ≤ length (m_spare r))%nat ∧ get16 (m_head r) m_flags = 0 ∧
    get16 (m_head r) m_sequence_number = (if seq_no =? 0 then 1 else seq_no) ∧
    get16 (m_head r) m_usa_ofs = 48 ∧ get16 (m_head r) 48 = (if (usn =? 0) || (usn =? 0xffff) then 1 else usn).
Proof.
  intros Hs Hno Hm Hb seq_no usn. unfold reformat_mft_record.
  destruct (lay_out_spec record_size major_ver minor_ver mft_no m Hs Hno Hm) as (r0 & Hlay & Hr0 & Ha0 & Hsp & _ & Fu & Fs & Fn & Ff & Lh).
  assert (56 ≤ first_attr record_size < 400 ∧ first_attr record_size ≤ 60 + record_size / 256) as Hao by (unfold first_attr, round8; zdiv).
  pose proof (get16_range m m_usa_ofs Hb) as Hu. pose proof (get16_range m m_sequence_number Hb) as Hq. fold seq_no in Hq.
  rewrite !le16_get by in_header. cbn [mbind outcome_bind]. fold seq_no.
  assert ((if get16 m m_usa_ofs <? 512 - 2 then le16_at m (Z.to_nat (get16 m m_usa_ofs)) else Ret 0) = Ret usn) as ->.
  { unfold usn. change (512 - 2) with 510. destruct (Z.ltb_spec (get16 m m_usa_ofs) 510); [|done]. apply le16_get. lia. }
  assert (0 ≤ usn < 2 ^ 16) as Husn by (unfold usn; case_match; [by apply get16_range|lia]).
  cbn [mbind outcome_bind]. rewrite Hlay. cbn [mbind outcome_bind Z.eqb negb].
  destruct (put_head_set_if r0 m_sequence_number seq_no (negb (seq_no =? 0))) as (r1 & -> & H1);
    [done|done|unfold m_sequence_number; lia..|]. cbn [mbind outcome_bind]. pose proof (set_length _ _ _ _ H1) as L1.
  pose proof (set_other _ _ _ _ H1) as O1. unfold m_sequence_number in O1.
  rewrite head_field by (apply H1 || unfold m_usa_ofs; lia). rewrite O1, Fu by (unfold m_usa_ofs; lia). cbn [mbind outcome_bind]. change (Z.to_nat 48) with 48%nat.
  destruct (put_head_set_if r1 48 usn (negb (usn =? 0) && negb (usn =? 65535))) as (r2 & -> & H2); [apply H1|done|lia|lia|].
  pose proof (set_other _ _ _ _ H2) as O2. cbn [mbind outcome_bind]. exists r2. split; [done|]. split; [apply H2|].
  split; [by rewrite (set_attrs _ _ _ _ H2), (set_attrs _ _ _ _ H1)|].
  assert (length (mft_bytes r2) = length (mft_bytes r0)) as ->
    by (rewrite (head_set_size _ _ _ _ (set_ok _ _ _ _ H1) H2); by apply (head_set_size _ _ _ _ Hr0 H1)).
  assert (m_spare r2 = m_spare r0) as -> by (by rewrite (set_spare _ _ _ _ H2), (set_spare _ _ _ _ H1)).
  split; [rewrite length_mft_bytes, Ha0, Hsp, Lh, length_replicate by done; cbn; zdiv|].
  split; [rewrite Hsp, length_replicate; zdiv|].
  split; [by rewrite O2, O1 by (unfold m_flags; lia)|].
  split; [rewrite O2, (set_field _ _ _ _ H1), Fs by (unfold m_sequence_number; lia); by destruct (seq_no =? 0)|].
  split; [by rewrite O2, O1 by (unfold m_usa_ofs; lia)|].
  rewrite (set_field _ _ _ _ H2), O1, Fn by lia. by destruct (usn =? 0), (usn =? 65535).
Qed.

(** ** The record of a new inode *)

(** The types, names and values of the attributes. *)
Definition new_attrs (major_ver index_block_size blocks_per_index_block : Z) (buf : list Z) (va_type : vtype)
    (parent_attrs security_id : Z) (create_time : timespec) (major minor : Z) : list (Z * list Z * list Z) :=
  (AT_STANDARD_INFORMATION, [], si_value (new_file_attrs va_type parent_attrs) security_id (utc2ntfs create_time)) ::
  (if security_id =? 0 then [(AT_SECURITY_DESCRIPTOR, [], sd_value major_ver va_type buf)] else []) ++
  [if va_type is VDIR then (AT_INDEX_ROOT, I30, index_root_value index_block_size blocks_per_index_block)
   else (AT_DATA, [], data_value va_type major minor)].

Definition attrs_are (l : list (list Z)) (e : list (Z * list Z * list Z)) : Prop :=
  Forall2 (λ a '(type, name, value), attr_is a type name value) l e.

Lemma attrs_are_snoc l e r' r type name value :
  grown r r' type name value → attrs_are (m_attrs r) e → l = m_attrs r' → attrs_are l (e ++ [(type, name, value)]).
Proof. intros [_ (a & E & Ha) _ _ _] H ->. rewrite E. apply Forall2_app; [done|]. by constructor. Qed.

(** Attributes with ascending types are sorted. *)
Lemma sorted_types upcase l e :
  attrs_are l e → StronglySorted (λ x y, x.1.1 < y.1.1) e → StronglySorted (attr_le upcase) l.
Proof.
  induction 1 as [|a [[type name] value] l e Ha Hl IH]; intros Hs; [constructor|]. apply StronglySorted_inv in Hs as [Hs Hx].
  constructor; [by apply IH|]. clear IH Hs. induction Hl as [|b [[t n] v] l e Hb Hl IH]; [constructor|].
  apply list.Forall_cons in Hx as [Hx Hxs]. constructor; [|by apply IH]. left.
  rewrite (is_type _ _ _ _ Ha), (is_type _ _ _ _ Hb). exact Hx.
Qed.

Lemma new_attrs_sorted major_ver ibs bpib buf va_type parent_attrs security_id create_time major minor :
  StronglySorted (λ x y, x.1.1 < y.1.1)
    (new_attrs major_ver ibs bpib buf va_type parent_attrs security_id create_time major minor).
Proof.
  unfold new_attrs. destruct (security_id =? 0), va_type; cbn [app]; repeat constructor.
Qed.

Lemma last_attribute_spec r index_block_size blocks_per_index_block va_type parent_attrs major minor :
  mft_ok r → Z.of_nat (length (mft_bytes r)) ≤ 2 ^ 16 → (80 ≤ length (m_spare r))%nat →
  ∃ r' type name value,
    (if va_type is VDIR then ntfs_index_root_attribute_insert index_block_size blocks_per_index_block (mft_bytes r) (attr_ofs r (m_attrs r))
     else data_attribute_insert va_type (new_file_attrs va_type parent_attrs) major minor (mft_bytes r) (attr_ofs r (m_attrs r))) =
      Ret (mft_bytes r') ∧ grown r r' type name value ∧
    (type, name, value) = if va_type is VDIR then (AT_INDEX_ROOT, I30, index_root_value index_block_size blocks_per_index_block)
      else (AT_DATA, [], data_value va_type major minor).
Proof.
  intros Hr Hmax Hsp. destruct (decide (va_type = VDIR)) as [-> |Hd].
  - destruct (index_root_spec r index_block_size blocks_per_index_block) as (r' & -> & H); [done..|]. by eexists _, _, _, _.
  - destruct (data_attribute_spec r va_type (new_file_attrs va_type parent_attrs) major minor) as (r' & Hi & H);
      [done|done|lia|by apply not_encrypted|].
    exists r', AT_DATA, [], (data_value va_type major minor). by destruct va_type.
Qed.

(** The fields of the header that the insertion of attributes does not change. *)
Definition same_fields (r r' : mft) : Prop :=
  get16 (m_head r') m_flags = get16 (m_head r) m_flags ∧
  get16 (m_head r') m_sequence_number = get16 (m_head r) m_sequence_number ∧
  get16 (m_head r') m_usa_ofs = get16 (m_head r) m_usa_ofs ∧ get16 (m_head r') 48 = get16 (m_head r) 48.

#[export] Instance same_fields_trans : Transitive same_fields.
Proof. intros r1 r2 r3 (A1 & A2 & A3 & A4) (B1 & B2 & B3 & B4). unfold same_fields. by rewrite B1, B2, B3, B4. Qed.

Lemma grown_same_fields r r' type name value : grown r r' type name value → same_fields r r'.
Proof. intros [_ _ _ _ H]. split_and!; apply H; unfold m_flags, m_sequence_number, m_usa_ofs; lia. Qed.

(** The security descriptor attribute is inserted if there is no security_id. *)
Lemma sd_stage r e buf sds_buf entries major_ver va_type security_id :
  mft_ok r → Z.of_nat (length (mft_bytes r)) ≤ 2 ^ 16 → ((if (security_id =? 0)%Z then 176 else 80) ≤ length (m_spare r))%nat →
  default_entries buf sds_buf entries → bytes buf → attrs_are (m_attrs r) e →
  ∃ r', (if security_id =? 0 then
           m ← ntfs_sd_attribute_insert sds_buf entries major_ver va_type (mft_bytes r) (attr_ofs r (m_attrs r));
           length ← le32_at m (attr_ofs r (m_attrs r) + a_length);
           Ret (m, attr_ofs r (m_attrs r) + Z.to_nat length)%nat
         else Ret (mft_bytes r, attr_ofs r (m_attrs r))) = Ret (mft_bytes r', attr_ofs r' (m_attrs r')) ∧
    mft_ok r' ∧ length (mft_bytes r') = length (mft_bytes r) ∧ (80 ≤ length (m_spare r'))%nat ∧ same_fields r r' ∧
    attrs_are (m_attrs r') (e ++ if security_id =? 0 then [(AT_SECURITY_DESCRIPTOR, [], sd_value major_ver va_type buf)] else []).
Proof.
  intros Hr Hmax Hsp Hent Hbuf He. destruct (security_id =? 0).
  - destruct (sd_attribute_spec r buf sds_buf entries major_ver va_type) as (r' & -> & H); [done|done|lia|done|done|].
    cbn [mbind outcome_bind]. destruct (grown_next _ _ _ _ _ H) as (n & -> & Hn). cbn [mbind outcome_bind]. rewrite Hn.
    exists r'. split; [done|]. split; [apply H|].
    assert (Z.to_nat (round8 (val_ofs [] + Z.of_nat (length (sd_value major_ver va_type buf)))) = 96%nat) as H96 by done.
    split; [apply (grown_size _ _ _ _ _ Hr H); rewrite H96; lia|].
    split; [rewrite (grown_spare _ _ _ _ _ H), H96, length_drop; lia|].
    split; [by eapply grown_same_fields|]. by eapply attrs_are_snoc.
  - exists r. rewrite app_nil_r. by split_and!.
Qed.

Lemma init_base_spec r buf sds_buf entries major_ver ibs bpib va_type parent_attrs security_id create_time major minor :
  mft_ok r → m_attrs r = [] → Z.of_nat (length (mft_bytes r)) ≤ 2 ^ 16 → (248 ≤ length (m_spare r))%nat →
  default_entries buf sds_buf entries → bytes buf →
  ∃ r', init_base_mft_record major_ver ibs bpib sds_buf entries va_type parent_attrs security_id create_time major minor (mft_bytes r) =
      Ret (mft_bytes r') ∧ mft_ok r' ∧
    attrs_are (m_attrs r') (new_attrs major_ver ibs bpib buf va_type parent_attrs security_id create_time major minor) ∧
    get16 (m_head r') m_flags = Z.lor (get16 (m_head r) m_flags) (if va_type is VDIR then MFT_RECORD_IS_DIRECTORY else 0) ∧
    get16 (m_head r') m_sequence_number = get16 (m_head r) m_sequence_number ∧
    get16 (m_head r') m_usa_ofs = get16 (m_head r) m_usa_ofs ∧ get16 (m_head r') 48 = get16 (m_head r) 48.
Proof.
  intros Hr Hnil Hmax Hsp Hent Hbuf. unfold init_base_mft_record.
  assert (∃ r1, (if va_type is VDIR then or_flags (mft_bytes r) MFT_RECORD_IS_DIRECTORY else Ret (mft_bytes r)) = Ret (mft_bytes r1) ∧
    head_set r r1 m_flags (Z.lor (get16 (m_head r) m_flags) (if va_type is VDIR then MFT_RECORD_IS_DIRECTORY else 0))) as (r1 & -> & H1).
  { destruct (decide (va_type = VDIR)) as [-> |Hd]; [by apply or_flags_spec|]. exists r. split; [by destruct va_type|].
    split; try done. replace (if va_type is VDIR then MFT_RECORD_IS_DIRECTORY else 0) with 0 by (by destruct va_type). by rewrite Z.lor_0_r. }
  cbn [mbind outcome_bind].
  pose proof (set_ok _ _ _ _ H1) as Hr1. pose proof (head_set_size _ _ _ _ Hr H1) as S1.
  pose proof (set_attrs _ _ _ _ H1) as A1. rewrite Hnil in A1. pose proof (set_spare _ _ _ _ H1) as P1. pose proof (ok_head_size _ Hr1) as Hh.
  rewrite head_field, (ok_attrs_offset _ Hr1) by (done || unfold m_attrs_offset; lia). cbn [mbind outcome_bind]. rewrite Nat2Z.id.
  replace (length (m_head r1)) with (attr_ofs r1 (m_attrs r1)) by (unfold attr_ofs; rewrite A1; cbn; lia).
  destruct (standard_info_spec r1 (new_file_attrs va_type parent_attrs) security_id create_time) as (r2 & -> & H2);
    [done|lia|rewrite P1; lia|]. cbn [mbind outcome_bind].
  destruct (grown_next _ _ _ _ _ H2) as (n & -> & Hn). cbn [mbind outcome_bind]. rewrite Hn. clear n Hn.
  set (si := si_value _ _ _) in *. pose proof (grown_ok _ _ _ _ _ H2) as Hr2.
  assert (Z.to_nat (round8 (val_ofs [] + Z.of_nat (length si))) = if security_id =? 0 then 72%nat else 96%nat) as Hsz
    by (unfold si, si_value; by destruct (security_id =? 0)).
  assert (length (mft_bytes r2) = length (mft_bytes r)) as S2.
  { rewrite <- S1. apply (grown_size _ _ _ _ _ Hr1 H2). rewrite P1, Hsz. case_match; lia. }
  destruct (sd_stage r2 [(AT_STANDARD_INFORMATION, [], si)] buf sds_buf entries major_ver va_type security_id)
    as (r3 & -> & Hr3 & S3 & P3 & F3 & E3); [done|lia| |done|done| |].
  { rewrite (grown_spare _ _ _ _ _ H2), Hsz, length_drop, P1. case_match; lia. }
  { apply (attrs_are_snoc _ [] _ _ _ _ _ H2); [rewrite A1; constructor|done]. }
  cbn [mbind outcome_bind].
  destruct (last_attribute_spec r3 ibs bpib va_type parent_attrs major minor) as (r4 & type & name & value & -> & H4 & E4); [done|lia|done|].
  exists r4. split; [done|]. split; [apply H4|].
  split; [unfold new_attrs; rewrite <- E4; by apply (attrs_are_snoc _ _ _ _ _ _ _ H4 E3)|].
  destruct (transitivity (transitivity (grown_same_fields _ _ _ _ _ H2) F3) (grown_same_fields _ _ _ _ _ H4)) as (-> & -> & -> & ->).
  split; [apply H1|]. split_and!; apply H1; unfold m_flags, m_sequence_number, m_usa_ofs; lia.
Qed.

(** C6: [ntfs_mft_record_alloc] can fill in every free mft record of 512 bytes up to 64 KiB as the base record of a new file, directory or
    special file: none of the insertions that cannot fail panics, whatever the record contained.  The record is well
    formed, marked as in use, and as a directory for directories, and keeps its sequence number and its update sequence number unless they are not
    valid; its attributes are sorted and are the standard information, the default security descriptor if there is no security_id, and the
    index root of an empty directory or the data attribute, with their values. *)
Theorem new_base_mft_record_spec record_size major_ver minor_ver mft_no ibs bpib buf sds_buf entries va_type
    parent_attrs security_id create_time major minor upcase m :
  512 ≤ record_size ≤ 2 ^ 16 → mft_no < 2 ^ 32 → Z.of_nat (length m) = record_size → bytes m →
  default_entries buf sds_buf entries → bytes buf →
  let seq_no := get16 m m_sequence_number in
  let usn := if get16 m m_usa_ofs <? 510 then get16 m (Z.to_nat (get16 m m_usa_ofs)) else 0 in
  ∃ r, new_base_mft_record record_size major_ver minor_ver mft_no ibs bpib sds_buf entries va_type parent_attrs security_id create_time
      major minor m = Ret (0, mft_bytes r) ∧ mft_ok r ∧
    attrs_are (m_attrs r) (new_attrs major_ver ibs bpib buf va_type parent_attrs security_id create_time major minor) ∧
    StronglySorted (attr_le upcase) (m_attrs r) ∧
    get16 (m_head r) m_flags = Z.lor MFT_RECORD_IN_USE (if va_type is VDIR then MFT_RECORD_IS_DIRECTORY else 0) ∧
    get16 (m_head r) m_sequence_number = (if seq_no =? 0 then 1 else seq_no) ∧
    get16 (m_head r) m_usa_ofs = 48 ∧ get16 (m_head r) 48 = (if (usn =? 0) || (usn =? 0xffff) then 1 else usn).
Proof.
  intros Hs Hno Hm Hb Hent Hbuf seq_no usn. unfold new_base_mft_record.
  destruct (reformat_spec record_size major_ver minor_ver mft_no m Hs Hno Hm Hb) as (r0 & -> & Hr0 & A0 & S0 & P0 & F1 & F2 & F3 & F4).
  cbn [mbind outcome_bind Z.eqb negb].
  destruct (or_flags_spec r0 MFT_RECORD_IN_USE Hr0) as (r1 & -> & H1); [done|]. cbn [mbind outcome_bind].
  pose proof (head_set_size _ _ _ _ Hr0 H1) as S1.
  destruct (init_base_spec r1 buf sds_buf entries major_ver ibs bpib va_type parent_attrs security_id create_time major minor)
    as (r2 & -> & Hr2 & E2 & G1 & G2 & G3 & G4);
    [apply H1|by rewrite (set_attrs _ _ _ _ H1)|lia|by rewrite (set_spare _ _ _ _ H1)|done|done|].
  cbn [mbind outcome_bind]. exists r2. split; [done|]. split; [done|]. split; [done|].
  split; [by eapply sorted_types, new_attrs_sorted|].
  pose proof (set_other _ _ _ _ H1) as O. unfold m_flags in O.
  rewrite G1, G2, G3, G4, (set_field _ _ _ _ H1), F1. split; [done|].
  rewrite !O by (unfold m_sequence_number, m_usa_ofs; lia). done.
Qed.

(** A directory on a volume without security_ids, in a record of zeroes. *)
Lemma new_base_mft_record_spec_witness :
  ∃ sds_buf entries r, default_entries (replicate 0x180 7) sds_buf entries ∧
    new_base_mft_record 1024 3 1 40 4096 1 sds_buf entries VDIR 0 0 (mk_ts 1700000000 0) 0 0 (replicate 1024 0) = Ret (0, mft_bytes r) ∧
    length (m_attrs r) = 3%nat ∧ get16 (m_head r) m_flags = 3 ∧ get16 (m_head r) m_sequence_number = 1.
Proof.
  destruct (sds_entries_init_spec (replicate 0x180 7) eq_refl) as (sds_buf & Hent & _).
  assert (bytes (replicate 0x180 7)) as Hb by (apply list.Forall_replicate; lia).
  destruct (new_base_mft_record_spec 1024 3 1 40 4096 1 (replicate 0x180 7) sds_buf (mk_entries 0 0x60 0xc0 0x120) VDIR 0 0
    (mk_ts 1700000000 0) 0 0 sample_upcase (replicate 1024 0)) as (r & H1 & _ & H2 & _ & H3 & H4 & _);
    [lia|lia|reflexivity|apply list.Forall_replicate; lia|exact (conj Hent eq_refl)|exact Hb|].
  exists sds_buf, (mk_entries 0 0x60 0xc0 0x120), r. split; [exact (conj Hent eq_refl)|]. split; [exact H1|].
  split; [exact (Forall2_length H2)|]. split; [exact H3|]. rewrite H4. by vm_compute.
Defined.
