(* ===== verification/IndexNode.v ===== *)
(** * Index nodes

    [kext/ntfs_index.c]: the entries of one node of an index, which lies in the index root
    attribute of an mft record or in an index block of a page: how they are gathered
    ([ntfs_index_get_entries]) and how a key is searched among them
    ([ntfs_index_lookup_in_node]). *)

From Stdlib Require Import Sorted.
From S2P Require Import Prelude Bytes Unistr Collate MftRecord AttrFind.

(** ** Operations *)

(** The fields of an [INDEX_ENTRY]. *)
Definition ie_data_offset : nat := 0.
Definition ie_data_length : nat := 2.
Definition ie_length : nat := 8.
Definition ie_key_length : nat := 10.
Definition ie_flags : nat := 12.
Definition ie_key : nat := 16.
Definition sizeof_INDEX_ENTRY_HEADER : Z := 16.
Definition INDEX_ENTRY_NODE : Z := 1.

(** The fields of an [INDEX_HEADER], and the flag of a node with children. *)
Definition ih_entries_offset : nat := 0.
Definition ih_index_length : nat := 4.
Definition ih_allocated_size : nat := 8.
Definition ih_flags : nat := 12.
Definition INDEX_NODE : Z := 1.

Definition has (flags flag : Z) : bool := negb (Z.land flags flag =? 0).

(** The inode of an index and its volume, as far as lookups use them. *)
Record index_inode := mk_index_inode {
  idx_name : list Z;
  collation_rule : Z;
  block_size : Z;
  vcn_size_shift : Z;
  index_alloc_present : bool;
  vol_upcase : list Z;
  vol_case_sensitive : bool;
  vol_mft_record_size : Z
}.

Definition is_view (ni : index_inode) : bool := negb (bool_decide (idx_name ni = I30)).

(** The entry at [ie] of the buffer [b], in an index between [start] and [end_]. *)
Definition ntfs_is_index_entry_valid (b : list Z) (ie start : nat) (end_ : Z) : outcome bool :=
  if (ie <? start)%nat then Ret false else
  length ← le16_at b (ie + ie_length);
  if length <? sizeof_INDEX_ENTRY_HEADER then Ret false else
  if end_ <? Z.of_nat ie + length then Ret false else
  key_length ← le16_at b (ie + ie_key_length);
  Ret (sizeof_INDEX_ENTRY_HEADER + key_length <=? length).

Section node.
Context (ni : index_inode).

(** The further bounds checks for view indexes. *)
Definition view_data_bad (b : list Z) (ie : nat) : outcome bool :=
  if is_view ni then
    key_length ← le16_at b (ie + ie_key_length);
    data_offset ← le16_at b (ie + ie_data_offset);
    data_length ← le16_at b (ie + ie_data_length);
    length ← le16_at b (ie + ie_length);
    Ret ((data_offset <? sizeof_INDEX_ENTRY_HEADER + key_length) || (length <? data_offset + data_length))
  else Ret false.

(** The loop of [ntfs_index_get_entries]; [None] is the jump to [err]. *)
Fixpoint entries_loop (fuel : nat) (max_entries : Z) (b : list Z) (start : nat) (end_ : Z) (ie : nat) (entries : list nat)
    : outcome (option (list nat)) :=
  match fuel with
  | O => Panic
  | S fuel =>
      valid ← ntfs_is_index_entry_valid b ie start end_;
      if negb valid then Ret None else
      if max_entries <=? Z.of_nat (length entries) then Panic else
      let entries := entries ++ [ie] in
      flags ← le16_at b (ie + ie_flags);
      if has flags INDEX_ENTRY_END then Ret (Some entries) else
      bad ← view_data_bad b ie;
      if (bad : bool) then Ret None else
      length ← le16_at b (ie + ie_length);
      entries_loop fuel max_entries b start end_ (ie + Z.to_nat length) entries
  end.

(** The walk over the entries of the index with its header at [index]: there is no round after
    the panic, thus there are at most [max_entries + 1] rounds. *)
Definition gather_entries (max_entries : Z) (b : list Z) (index : nat) : outcome (option (list nat)) :=
  index_length ← le32_at b (index + ih_index_length);
  entries_offset ← le32_at b (index + ih_entries_offset);
  entries_loop (S (Z.to_nat max_entries)) max_entries b index (Z.of_nat index + index_length)
    (index + Z.to_nat entries_offset) [].

(** The [n] bytes at [i]. *)
Definition slice (b : list Z) (i : nat) (n : Z) : outcome (list Z) :=
  if Z.of_nat i + n <=? Z.of_nat (length b) then Ret (take (Z.to_nat n) (drop i b)) else Oob.

(** The part of the key of the entry at [ie] that exact matches compare, where it is and its
    length. *)
Definition entry_match_key (b : list Z) (ie : nat) : outcome (nat * Z) :=
  if negb (is_view ni) then
    n ← rd b (ie + ie_key + ofs_filename_length);
    Ret ((ie + ie_key + sizeof_FILENAME_ATTR)%nat, Z.shiftl n 1)
  else
    key_length ← le16_at b (ie + ie_key_length);
    Ret ((ie + ie_key)%nat, key_length).

Definition exact_match (b match_key : list Z) (match_key_len : Z) (ie : nat) : outcome bool :=
  '(ofs, len) ← entry_match_key b ie;
  if match_key_len =? len then
    rc ← memcmp match_key (drop ofs b) (Z.to_nat len);
    Ret (rc =? 0)
  else Ret false.

Definition collate_entry (b key : list Z) (ie : nat) : outcome Z :=
  key_length ← le16_at b (ie + ie_key_length);
  ie_key ← slice b (ie + ie_key) key_length;
  ntfs_collate (vol_upcase ni) (collation_rule ni) key ie_key.

(** The binary search: whether the key is found, and the number of the entry. *)
Fixpoint search_loop (fuel : nat) (b : list Z) (entries : list nat) (match_key : list Z) (match_key_len : Z) (key : list Z)
    (min_left max_right cur_entry : Z) : outcome (bool * Z) :=
  match fuel with
  | O => Panic
  | S fuel =>
      let loop := search_loop fuel b entries match_key match_key_len key in
      ie ← rd entries (Z.to_nat cur_entry);
      hit ← exact_match b match_key match_key_len ie;
      if (hit : bool) then Ret (true, cur_entry) else
      rc ← collate_entry b key ie;
      if rc =? -1 then
        if cur_entry =? min_left then Ret (false, cur_entry) else
        let max_right := u32 (cur_entry - 1) in
        loop min_left max_right (u32 (min_left + max_right) / 2)
      else if rc =? 0 then Ret (true, cur_entry)
      else
        if cur_entry =? max_right then Ret (false, u32 (cur_entry + 1)) else
        let min_left := u32 (cur_entry + 1) in
        loop min_left max_right (u32 (min_left + max_right) / 2)
  end.

(** The range shrinks in every round, thus there are at most as many rounds as entries. *)
Definition ntfs_index_lookup_in_node (b : list Z) (entries : list nat) (match_key : list Z) (match_key_len : Z) (key : list Z)
    : outcome (bool * Z) :=
  let nr_entries := Z.of_nat (length entries) in
  if nr_entries =? 1 then Ret (false, 0) else
  let max_right := u32 (nr_entries - 2) in
  search_loop (S (length entries)) b entries match_key match_key_len key 0 max_right (max_right / 2).

(** The part of the key to look for that exact matches compare, as [ntfs_index_lookup] passes it. *)
Definition match_key_of (key : list Z) : outcome (list Z * Z) :=
  if negb (is_view ni) then
    n ← rd key ofs_filename_length;
    Ret (drop sizeof_FILENAME_ATTR key, Z.shiftl n 1)
  else Ret (key, Z.of_nat (length key)).
End node.

(** ** Well-formed nodes *)

(** The fields of an entry are read from its bytes. *)
Ltac in_entry :=
  unfold ie_data_offset, ie_data_length, ie_length, ie_key_length, ie_flags, ie_key, ih_entries_offset, ih_index_length,
    ih_allocated_size, ih_flags, sizeof_INDEX_ENTRY_HEADER, sizeof_FILENAME_ATTR, ofs_filename_length in *; lia.
Ltac entry_fields := rewrite ?rd_part, ?le16_part, ?le32_part by in_entry; cbn [mbind outcome_bind].

(** An entry, as the array of its bytes. *)
Definition e_flags (e : list Z) : Z := get16 e ie_flags.
Definition e_key (e : list Z) : list Z := take (Z.to_nat (get16 e ie_key_length)) (drop ie_key e).
Definition is_end (e : list Z) : bool := has (e_flags e) INDEX_ENTRY_END.
Definition is_node (e : list Z) : bool := has (e_flags e) INDEX_ENTRY_NODE.

Record entry_ok (e : list Z) : Prop := {
  entry_bytes : bytes e;
  entry_length : get16 e ie_length = Z.of_nat (length e);
  entry_header : (16 ≤ length e)%nat;
  entry_key_in : 16 + get16 e ie_key_length ≤ Z.of_nat (length e)
}.

(** The data of an entry of a view index follow the key. *)
Definition data_ok (ni : index_inode) (e : list Z) : Prop :=
  is_view ni = true →
  16 + get16 e ie_key_length ≤ get16 e ie_data_offset ∧
  get16 e ie_data_offset + get16 e ie_data_length ≤ Z.of_nat (length e).

(** Where the entries are if the first one is at [o]. *)
Fixpoint offsets (o : nat) (es : list (list Z)) : list nat :=
  match es with
  | [] => []
  | e :: es => o :: offsets (o + length e) es
  end.

Lemma length_offsets o es : length (offsets o es) = length es.
Proof. revert o. induction es as [|e es IH]; intros o; cbn; [done|]. by rewrite IH. Qed.

Lemma offsets_lookup o es1 e es2 :
  offsets o (es1 ++ e :: es2) !! length es1 = Some (o + length (concat es1))%nat.
Proof.
  revert o. induction es1 as [|x es1 IH]; intros o; cbn; [f_equal; lia|]. rewrite IH. f_equal. rewrite length_app. lia.
Qed.

(** A node in a buffer: what precedes the index header, the header, what lies between it and
    the first entry, the entries with a key, the end entry, and the rest. *)
Record node := mk_node {
  n_pre : list Z;
  n_head : list Z;
  n_gap : list Z;
  n_entries : list (list Z);
  n_end : list Z;
  n_rest : list Z
}.
Definition node_first (n : node) : nat := length (n_pre n ++ n_head n ++ n_gap n).
Definition node_all (n : node) : list (list Z) := n_entries n ++ [n_end n].
Definition node_bytes (n : node) : list Z :=
  (n_pre n ++ n_head n ++ n_gap n) ++ concat (node_all n) ++ n_rest n.

Record node_ok (ni : index_inode) (n : node) : Prop := {
  node_is_bytes : bytes (node_bytes n);
  node_head : length (n_head n) = 16%nat;
  node_offset : get32 (n_head n) ih_entries_offset = Z.of_nat (16 + length (n_gap n));
  node_length : get32 (n_head n) ih_index_length = Z.of_nat (16 + length (n_gap n) + length (concat (node_all n)));
  node_entries : Forall (λ e, entry_ok e ∧ is_end e = false ∧ data_ok ni e) (n_entries n);
  node_end : entry_ok (n_end n) ∧ is_end (n_end n) = true
}.

Section gather.
Context (ni : index_inode).

Lemma view_data_good p e q :
  entry_ok e → data_ok ni e → view_data_bad ni (p ++ e ++ q) (length p) = Ret false.
Proof.
  intros [_ Hl Hh _] Hd. unfold view_data_bad. destruct (is_view ni) eqn:Ev; [|done]. destruct (Hd Ev) as [H1 H2].
  entry_fields. rewrite Hl. f_equal. apply orb_false_intro; apply Z.ltb_ge; in_entry.
Qed.

Lemma valid_entry p e q start end_ :
  entry_ok e → (start ≤ length p)%nat → Z.of_nat (length p + length e) ≤ end_ →
  ntfs_is_index_entry_valid (p ++ e ++ q) (length p) start end_ = Ret true.
Proof.
  intros [_ Hl Hh Hk] Hs He. unfold ntfs_is_index_entry_valid. rewrite (proj2 (Nat.ltb_ge _ _)) by lia.
  entry_fields. rewrite Hl, !(proj2 (Z.ltb_ge _ _)) by in_entry. f_equal. apply Z.leb_le. in_entry.
Qed.

(** The walk visits the entries in order. *)
Lemma entries_loop_spec fuel max p es fin q start end_ acc :
  Forall (λ e, entry_ok e ∧ is_end e = false ∧ data_ok ni e) es → entry_ok fin → is_end fin = true →
  (start ≤ length p)%nat → Z.of_nat (length p + length (concat (es ++ [fin]))) ≤ end_ →
  Z.of_nat (length acc + length es) < max → (length es < fuel)%nat →
  entries_loop ni fuel max (p ++ concat (es ++ [fin]) ++ q) start end_ (length p) acc =
    Ret (Some (acc ++ offsets (length p) (es ++ [fin]))).
Proof.
  intros Hes Hfin Hend. revert fuel p acc. induction Hes as [|e es (He & Hne & Hd) _ IH];
    intros fuel p acc Hs Hin Hmax Hfuel; (destruct fuel as [|fuel]; [cbn in Hfuel; lia|]); cbn [entries_loop].
  - cbn [app concat] in *. rewrite app_nil_r in *. pose proof (entry_header _ Hfin).
    rewrite (valid_entry p fin q) by (done || lia). cbn [mbind outcome_bind negb].
    rewrite (proj2 (Z.leb_gt _ _)) by (cbn in *; lia). entry_fields. fold (e_flags fin) (is_end fin). by rewrite Hend.
  - cbn [app concat length offsets] in *. rewrite length_app in Hin. rewrite <- (assoc_L (++) e). pose proof (entry_header _ He).
    rewrite (valid_entry p e) by (done || lia). cbn [mbind outcome_bind negb].
    rewrite (proj2 (Z.leb_gt _ _)) by lia. entry_fields. fold (e_flags e) (is_end e). rewrite Hne.
    rewrite view_data_good by done. cbn [mbind outcome_bind]. entry_fields. rewrite (entry_length _ He), Nat2Z.id.
    specialize (IH fuel (p ++ e) (acc ++ [length p])). rewrite !length_app in IH. rewrite <- !(assoc_L (++)) in IH.
    rewrite IH by (cbn in *; lia). done.
Qed.

Lemma gather_entries_spec max n :
  node_ok ni n → Z.of_nat (length (node_all n)) ≤ max →
  gather_entries ni max (node_bytes n) (length (n_pre n)) = Ret (Some (offsets (node_first n) (node_all n))).
Proof.
  intros Hn Hmax. unfold gather_entries, node_bytes. destruct Hn as [_ Hh Ho Hl He [Hf Hfe]].
  rewrite <- !(assoc_L (++)). rewrite !le32_part by in_entry. cbn [mbind outcome_bind]. rewrite Ho, Hl, Nat2Z.id.
  rewrite !(assoc_L (++)), <- (assoc_L (++) (n_pre n)), <- (assoc_L (++) (_ ++ _)).
  replace (length (n_pre n) + (16 + length (n_gap n)))%nat with (length (n_pre n ++ n_head n ++ n_gap n)) by (rewrite !length_app; lia).
  unfold node_all in *. rewrite length_app in Hmax. cbn in Hmax.
  rewrite entries_loop_spec; try done; rewrite ?length_app; cbn [length]; lia.
Qed.
End gather.

(** ** Arbitrary contents *)

(** The entry at [ie] and its key end before [end_]. *)
Definition in_bounds (b : list Z) (end_ : Z) (ie : nat) : Prop :=
  16 ≤ get16 b (ie + ie_length) ∧ Z.of_nat ie + get16 b (ie + ie_length) ≤ end_ ∧
  16 + get16 b (ie + ie_key_length) ≤ get16 b (ie + ie_length).

(** Entries that follow each other up to the first one that is marked as the last one. *)
Inductive entry_chain (ni : index_inode) (b : list Z) (end_ : Z) : nat → list nat → Prop :=
| chain_end ie :
    in_bounds b end_ ie → has (get16 b (ie + ie_flags)) INDEX_ENTRY_END = true → entry_chain ni b end_ ie [ie]
| chain_next ie es :
    in_bounds b end_ ie → has (get16 b (ie + ie_flags)) INDEX_ENTRY_END = false →
    (is_view ni = true →
     16 + get16 b (ie + ie_key_length) ≤ get16 b (ie + ie_data_offset) ∧
     get16 b (ie + ie_data_offset) + get16 b (ie + ie_data_length) ≤ get16 b (ie + ie_length)) →
    entry_chain ni b end_ (ie + Z.to_nat (get16 b (ie + ie_length))) es → entry_chain ni b end_ ie (ie :: es).

Lemma valid_bounds b ie start end_ :
  (start ≤ ie)%nat → (ie + 10 ≤ length b)%nat → end_ ≤ Z.of_nat (length b) →
  ntfs_is_index_entry_valid b ie start end_ = Ret (bool_decide (in_bounds b end_ ie)).
Proof.
  intros Hs Hi He. unfold ntfs_is_index_entry_valid, in_bounds. rewrite (proj2 (Nat.ltb_ge _ _)) by lia.
  rewrite (le16_get b (ie + ie_length)) by in_entry. cbn [mbind outcome_bind].
  destruct (Z.ltb_spec (get16 b (ie + ie_length)) sizeof_INDEX_ENTRY_HEADER);
    [rewrite bool_decide_eq_false_2; [done|in_entry]|].
  destruct (Z.ltb_spec end_ (Z.of_nat ie + get16 b (ie + ie_length))); [rewrite bool_decide_eq_false_2; [done|in_entry]|].
  rewrite le16_get by in_entry. cbn [mbind outcome_bind]. f_equal.
  apply eq_bool_prop_intro. rewrite bool_decide_spec, Is_true_true, Z.leb_le. in_entry.
Qed.

Section bounds.
Context (ni : index_inode) (b : list Z) (start : nat) (end_ : Z).
Hypothesis (Hend : end_ + 10 ≤ Z.of_nat (length b)).

Lemma view_bounds ie :
  in_bounds b end_ ie →
  view_data_bad ni b ie = Ret (is_view ni && negb (bool_decide
    (16 + get16 b (ie + ie_key_length) ≤ get16 b (ie + ie_data_offset) ∧
     get16 b (ie + ie_data_offset) + get16 b (ie + ie_data_length) ≤ get16 b (ie + ie_length)))).
Proof.
  intros (H1 & H2 & _). unfold view_data_bad. destruct (is_view ni); [|done]. rewrite !le16_get by in_entry.
  cbn [mbind outcome_bind andb]. f_equal. case_bool_decide; cbn [negb]; [apply orb_false_intro; apply Z.ltb_ge; in_entry|].
  apply orb_true_iff. rewrite !Z.ltb_lt. in_entry.
Qed.

Lemma entries_loop_bounds max first fuel ie acc :
  (start ≤ ie)%nat → (first + 16 * length acc ≤ ie)%nat → (ie + 10 ≤ length b)%nat →
  Z.of_nat (length acc) ≤ max → Z.of_nat (fuel + length acc) = max + 1 →
  let r := entries_loop ni fuel max b start end_ ie acc in
  (r = Panic ∧ Z.of_nat first + 16 * (max + 1) ≤ end_) ∨ r = Ret None ∨
  ∃ es, r = Ret (Some (acc ++ es)) ∧ entry_chain ni b end_ ie es ∧ Z.of_nat (length acc + length es) ≤ max.
Proof.
  revert ie acc. induction fuel as [|fuel IH]; intros ie acc Hs Hf Hi Hmax Hfuel; [lia|]. cbn [entries_loop]. cbv zeta.
  rewrite valid_bounds by lia. cbn [mbind outcome_bind]. case_bool_decide as Hin; cbn [negb]; [|by right; left].
  pose proof Hin as (H1 & H2 & H3). destruct (Z.leb_spec max (Z.of_nat (length acc))); [left; split; [done|lia]|].
  rewrite (le16_get b (ie + ie_flags)) by in_entry. cbn [mbind outcome_bind].
  destruct (has _ _) eqn:Hfl.
  { do 2 right. exists [ie]. split; [done|]. split; [by constructor|cbn; lia]. }
  rewrite view_bounds by done. cbn [mbind outcome_bind]. destruct (is_view ni && _) eqn:Hv; [by right; left|].
  rewrite (le16_get b (ie + ie_length)) by in_entry. cbn [mbind outcome_bind].
  destruct (IH (ie + Z.to_nat (get16 b (ie + ie_length)))%nat (acc ++ [ie])) as [[-> ?]|[-> |(es & -> & Hc & Hl)]];
    [lia|rewrite length_app; cbn; lia|lia|rewrite length_app; cbn; lia|rewrite length_app; cbn; lia|by left|by right; left|].
  do 2 right. exists (ie :: es). rewrite <- (assoc_L (++)). split; [done|]. rewrite length_app in Hl. cbn in Hl.
  split; [|cbn; lia]. constructor; [done|done| |done]. intros Ev. rewrite Ev in Hv. cbn [andb] in Hv.
  apply negb_false_iff, bool_decide_eq_true in Hv. done.
Qed.
End bounds.

(** C14: on arbitrary contents of the buffer the walk over the entries of an index never leaves the
    buffer, provided that the first entry and the end of the index leave room for the two fields
    that are read before they are checked: it either panics, which takes an index of more than
    [max_entries] entries, or reports corruption, or returns at most [max_entries] entries that
    follow each other, that lie inside of the index together with their keys and data, and of which
    the last one and no other one is the end entry. *)
Theorem gather_entries_bounds ni max_entries b index :
  0 ≤ max_entries → (index + 16 ≤ length b)%nat →
  let first := (index + Z.to_nat (get32 b (index + ih_entries_offset)))%nat in
  let end_ := Z.of_nat index + get32 b (index + ih_index_length) in
  (first + 10 ≤ length b)%nat → end_ + 10 ≤ Z.of_nat (length b) →
  let r := gather_entries ni max_entries b index in
  (r = Panic ∧ Z.of_nat first + 16 * (max_entries + 1) ≤ end_) ∨ r = Ret None ∨
  ∃ es, r = Ret (Some es) ∧ entry_chain ni b end_ first es ∧ Z.of_nat (length es) ≤ max_entries.
Proof.
  intros Hmax Hi first end_ Hf He. cbv zeta. unfold gather_entries. rewrite !le32_get by in_entry. cbn [mbind outcome_bind].
  destruct (entries_loop_bounds ni b index end_ He max_entries first (S (Z.to_nat max_entries)) first []) as [H|[H|H]];
    unfold first, end_ in *; cbn [length] in *; try lia; auto.
Qed.

(** ** The search in a node *)

(** The search from left to right. *)
Fixpoint linear_search (cmp : list Z → Z) (es : list (list Z)) : bool * nat :=
  match es with
  | [] => (false, 0%nat)
  | e :: es =>
      if cmp e =? 0 then (true, 0%nat) else
      if cmp e <? 0 then (false, 0%nat) else
      let '(hit, n) := linear_search cmp es in (hit, S n)
  end.

Lemma linear_search_found cmp l1 e l2 :
  Forall (λ x, 0 < cmp x) l1 → cmp e = 0 → linear_search cmp (l1 ++ e :: l2) = (true, length l1).
Proof.
  intros H He. induction H as [|x l1 Hx _ IH]; cbn; [by rewrite He|]. rewrite (proj2 (Z.eqb_neq _ _)), (proj2 (Z.ltb_ge _ _)) by lia.
  by rewrite IH.
Qed.

Lemma linear_search_missing cmp l1 l2 :
  Forall (λ x, 0 < cmp x) l1 → Forall (λ x, cmp x < 0) l2 → linear_search cmp (l1 ++ l2) = (false, length l1).
Proof.
  intros H H2. induction H as [|x l1 Hx _ IH]; cbn.
  - destruct H2 as [|y l2 Hy _]; cbn; [done|]. by rewrite (proj2 (Z.eqb_neq _ _)), (proj2 (Z.ltb_lt _ _)) by lia.
  - rewrite (proj2 (Z.eqb_neq _ _)), (proj2 (Z.ltb_ge _ _)) by lia. by rewrite IH.
Qed.

Lemma memcmp_zero s1 s2 n j : memcmp s1 s2 n = Ret 0 → (j < n)%nat → s1 !! j = s2 !! j.
Proof.
  revert s1 s2 j. induction n as [|n IH]; intros [|x s1] [|y s2] j; cbn; try (lia || done).
  destruct (Z.eqb_spec x y) as [-> |]; cbn [negb]; [|intros [= ?]; lia]. destruct j; [done|]. intros H Hj. exact (IH s1 s2 j H ltac:(lia)).
Qed.

Lemma le16s_at_ext d1 d2 i n :
  (∀ j, (j < 2 * n)%nat → d1 !! (i + j)%nat = d2 !! (i + j)%nat) → le16s_at d1 i n = le16s_at d2 i n.
Proof.
  revert i. induction n as [|n IH]; intros i H; [done|]. cbn [le16s_at].
  assert (le16_at d1 i = le16_at d2 i) as ->.
  { pose proof (H 0%nat ltac:(lia)) as H0. rewrite Nat.add_0_r in H0. unfold le16_at, rd. by rewrite H0, (H 1%nat) by lia. }
  destruct (le16_at d2 i); [|done..]. cbn [mbind outcome_bind]. rewrite IH; [done|]. intros j Hj.
  rewrite <- !Nat.add_assoc. apply H. lia.
Qed.

Lemma le16s_length d i n s : le16s_at d i n = Ret s → (0 < n)%nat → (i + 2 * n ≤ length d)%nat.
Proof.
  revert i s. induction n as [|n IH]; intros i s; [lia|]. cbn [le16s_at]. intros H _.
  apply bind_Ret_inv in H as (c & Hc & H). apply bind_Ret_inv in H as (s' & Hs & _).
  unfold le16_at in Hc. apply bind_Ret_inv in Hc as (b0 & _ & Hc). apply bind_Ret_inv in Hc as (b1 & Hb1%rd_inv%lookup_lt_Some & _).
  destruct n; [lia|]. specialize (IH _ _ Hs). lia.
Qed.

(** The length of the name in a key, and where it ends. *)
Lemma fn_name_inv d name :
  fn_name d = Ret name → bytes d → (66 ≤ length d)%nat →
  rd d 64 = Ret (get8 d 64) ∧ (66 + 2 * Z.to_nat (get8 d 64) ≤ length d)%nat ∧ le16s_at d 66 (Z.to_nat (get8 d 64)) = Ret name.
Proof.
  intros H Hd Hl. unfold fn_name, ofs_filename_length, sizeof_FILENAME_ATTR in H. rewrite rd_get in H by lia. cbn [mbind outcome_bind] in H.
  split; [apply rd_get; lia|]. split; [|done].
  destruct (decide (Z.to_nat (get8 d 64) = 0%nat)) as [E|E]; [rewrite E; lia|]. eapply le16s_length; [done|lia].
Qed.

Lemma sorted_lookup {A} (R : A → A → Prop) l i j x y :
  StronglySorted R l → l !! i = Some x → l !! j = Some y → (i < j)%nat → R x y.
Proof.
  intros Hs. revert i j. induction Hs as [|z l Hl IH Hz]; intros i j; [done|]. destruct i as [|i], j as [|j]; cbn; try lia.
  - intros [= <-] Hj _. by eapply Forall_lookup_1.
  - intros Hi Hj ?. apply (IH i j); [done..|lia].
Qed.

(** The rules of the indexes that can be searched: those whose comparisons are -1, 0 or 1. *)
Definition rule_ok (ni : index_inode) : Prop :=
  (is_view ni = false → collation_rule ni = COLLATION_FILENAME) ∧
  collation_rule ni ≠ COLLATION_BINARY ∧ collation_rule ni ≠ COLLATION_NTOFS_SID.
Definition index_key (ni : index_inode) (k : list Z) : Prop := bytes k ∧ valid_key (vol_upcase ni) (collation_rule ni) k.

(** The order of the entries. *)
Definition entry_cmp (ni : index_inode) (k e : list Z) : Z := key_cmp (vol_upcase ni) (collation_rule ni) k (e_key e).
Definition entry_lt (ni : index_inode) (e1 e2 : list Z) : Prop := entry_cmp ni (e_key e1) e2 < 0.

Section search.
Context (ni : index_inode) (key match_key : list Z) (match_key_len : Z).
Hypothesis (Hrule : rule_ok ni) (Hkey : index_key ni key) (Hmatch : match_key_of ni key = Ret (match_key, match_key_len)).
Abbreviation cmp := (entry_cmp ni key).

Lemma same_key_cmp k : index_key ni k → same_key (collation_rule ni) key k → key_cmp (vol_upcase ni) (collation_rule ni) key k = 0.
Proof.
  intros [_ Hk] Hs. pose proof (same_key_lex _ _ _ _ (proj2 Hkey) Hk) as H. unfold key_cmp.
  destruct (collate_keys _ _ key), (collate_keys _ _ k). by apply H.
Qed.

Lemma length_e_key e : entry_ok e → Z.of_nat (length (e_key e)) = get16 e ie_key_length.
Proof.
  intros [Hb _ Hh Hk]. pose proof (get16_range e ie_key_length Hb). unfold e_key. rewrite length_take, length_drop. in_entry.
Qed.

Lemma lookup_e_key p e q j :
  entry_ok e → (j < length (e_key e))%nat → (p ++ e ++ q) !! (length p + 16 + j)%nat = e_key e !! j.
Proof.
  intros He Hj. pose proof (length_e_key e He). pose proof (entry_key_in _ He). unfold e_key in *. rewrite length_take in Hj.
  rewrite lookup_take_lt, lookup_drop by in_entry. rewrite <- Nat.add_assoc, lookup_app_r, lookup_app_l by in_entry. f_equal. in_entry.
Qed.

Lemma exact_match_view p e q :
  is_view ni = true → entry_ok e → index_key ni (e_key e) →
  ∃ hit, exact_match ni (p ++ e ++ q) match_key match_key_len (length p) = Ret hit ∧ (hit = true → cmp e = 0).
Proof.
  intros Hv He Hk. pose proof (length_e_key e He) as Hl. pose proof (entry_header _ He). pose proof (entry_key_in _ He).
  unfold match_key_of in Hmatch. rewrite Hv in Hmatch. injection Hmatch as <- <-. unfold exact_match, entry_match_key. rewrite Hv.
  cbn [negb]. entry_fields. destruct (Z.eqb_spec (Z.of_nat (length key)) (get16 e ie_key_length)) as [E|]; [|by exists false].
  destruct (memcmp_reads key (drop (length p + ie_key) (p ++ e ++ q)) (Z.to_nat (get16 e ie_key_length))) as (rc & Hrc);
    [lia|rewrite length_drop, !length_app; in_entry|]. rewrite Hrc. cbn [mbind outcome_bind].
  eexists. split; [done|]. rewrite Z.eqb_eq. intros ->. apply same_key_cmp; [done|].
  assert (key = e_key e) as <- by (apply list_eq_same_length with (length key); [lia|done|]; intros j x y Hj Hx Hy;
    pose proof (memcmp_zero _ _ _ j Hrc ltac:(lia)) as Hz; rewrite Hx, lookup_drop in Hz;
    change ie_key with 16%nat in Hz; rewrite lookup_e_key in Hz by (done || lia); congruence).
  unfold same_key. by case_match.
Qed.

Lemma filename_key k :
  collation_rule ni = COLLATION_FILENAME → index_key ni k → (66 ≤ length k)%nat ∧ ∃ name, fn_name k = Ret name.
Proof.
  intros E [_ H]. rewrite E in H. destruct H as [(_ & H & name & Hn & _)|[?|[?|[[?|[?|?]] _]]]]; [|done..].
  split; [exact H|by exists name].
Qed.

Lemma exact_match_name p e q :
  is_view ni = false → entry_ok e → index_key ni (e_key e) →
  ∃ hit, exact_match ni (p ++ e ++ q) match_key match_key_len (length p) = Ret hit ∧ (hit = true → cmp e = 0).
Proof.
  intros Hv He Hk. pose proof (proj1 Hrule Hv) as Hcr. pose proof (length_e_key e He) as Hl. pose proof (entry_key_in _ He).
  destruct (filename_key key Hcr Hkey) as (Hk1 & s1 & Hs1), (filename_key (e_key e) Hcr Hk) as (Hk2 & s2 & Hs2).
  destruct (fn_name_inv _ _ Hs1 (proj1 Hkey) Hk1) as (R1 & L1 & N1), (fn_name_inv _ _ Hs2 (proj1 Hk) Hk2) as (R2 & L2 & N2).
  pose proof (get8_range key 64 (proj1 Hkey)) as G1. pose proof (get8_range (e_key e) 64 (proj1 Hk)) as G2.
  unfold match_key_of, ofs_filename_length, sizeof_FILENAME_ATTR in Hmatch. rewrite Hv, R1 in Hmatch. cbn in Hmatch. injection Hmatch as <- <-.
  unfold exact_match, entry_match_key. rewrite Hv. cbn [negb].
  assert (rd (p ++ e ++ q) (length p + ie_key + ofs_filename_length) = Ret (get8 (e_key e) 64)) as ->.
  { apply rd_Ret. change (length p + ie_key + ofs_filename_length)%nat with (length p + 16 + 64)%nat.
    rewrite lookup_e_key by (done || lia). by apply rd_inv. }
  cbn [mbind outcome_bind]. rewrite !Z.shiftl_mul_pow2 by done.
  destruct (Z.eqb_spec (get8 key 64 * 2 ^ 1) (get8 (e_key e) 64 * 2 ^ 1)) as [E|]; [|by exists false].
  assert (get8 key 64 = get8 (e_key e) 64) as En by lia. rewrite <- En in *. set (n := get8 key 64) in *.
  destruct (memcmp_reads (drop 66 key) (drop (length p + ie_key + sizeof_FILENAME_ATTR) (p ++ e ++ q)) (Z.to_nat (n * 2 ^ 1)))
    as (rc & Hrc); [rewrite length_drop; lia|rewrite length_drop, !length_app; in_entry|]. rewrite Hrc. cbn [mbind outcome_bind].
  eexists. split; [done|]. rewrite Z.eqb_eq. intros ->. apply same_key_cmp; [done|]. unfold same_key. rewrite Hcr. cbn [Z.eqb Pos.eqb COLLATION_FILENAME].
  rewrite Hs1, Hs2, <- N1, <- N2. apply le16s_at_ext. intros j Hj. pose proof (memcmp_zero _ _ _ j Hrc ltac:(lia)) as Hz.
  rewrite !lookup_drop in Hz. rewrite Hz.
  replace (length p + ie_key + sizeof_FILENAME_ATTR + j)%nat with (length p + 16 + (66 + j))%nat by in_entry. apply lookup_e_key; [done|lia].
Qed.

Lemma exact_match_spec p e q :
  entry_ok e → index_key ni (e_key e) →
  ∃ hit, exact_match ni (p ++ e ++ q) match_key match_key_len (length p) = Ret hit ∧ (hit = true → cmp e = 0).
Proof. destruct (is_view ni) eqn:Hv; [by apply exact_match_view|by apply exact_match_name]. Qed.

Lemma collate_entry_spec p e q :
  entry_ok e → index_key ni (e_key e) → collate_entry ni (p ++ e ++ q) key (length p) = Ret (cmp e).
Proof.
  intros He [_ Hk]. pose proof (entry_header _ He). pose proof (entry_key_in _ He). unfold collate_entry. entry_fields. unfold slice.
  rewrite (proj2 (Z.leb_le _ _)) by (rewrite !length_app; in_entry). cbn [mbind outcome_bind].
  rewrite drop_app_add, drop_app_le, take_app_le by (rewrite ?length_drop; in_entry). fold (e_key e).
  apply collate_cmp; [apply Hrule..|apply Hkey|done].
Qed.

Lemma node_entry_at p es q c e :
  es !! c = Some e →
  ∃ p' q', p ++ concat es ++ q = p' ++ e ++ q' ∧ offsets (length p) es !! c = Some (length p').
Proof.
  intros H. apply list_elem_of_split_length in H as (es1 & es2 & -> & ->).
  exists (p ++ concat es1), (concat es2 ++ q). rewrite offsets_lookup, length_app. split; [|done].
  rewrite concat_app. cbn [concat]. by rewrite <- !(assoc_L (++)).
Qed.

(** The search in a sorted node ends at the entry with the key, or at the first one after it. *)
Definition search_result (es : list (list Z)) (r : bool * Z) : Prop :=
  ∃ l1 l2, es = l1 ++ l2 ∧ r.2 = Z.of_nat (length l1) ∧ Forall (λ e, 0 < cmp e) l1 ∧
    (if r.1 then ∃ e l, l2 = e :: l ∧ cmp e = 0 ∧ Forall (λ e, cmp e < 0) l else Forall (λ e, cmp e < 0) l2).

Section loop.
Context (p q : list Z) (es : list (list Z)) (fin : list Z).
Hypothesis (Hes : Forall (λ e, entry_ok e ∧ index_key ni (e_key e)) es) (Hsorted : StronglySorted (entry_lt ni) es).
Hypothesis (Hsize : Z.of_nat (length es) < 2 ^ 31).
Abbreviation b := (p ++ concat (es ++ [fin]) ++ q).
Abbreviation entries := (offsets (length p) (es ++ [fin])).

Lemma before_pos i j e1 e2 : es !! i = Some e1 → es !! j = Some e2 → (i ≤ j)%nat → 0 < cmp e2 → 0 < cmp e1.
Proof.
  intros H1 H2 Hij Hc. destruct (decide (i = j)) as [-> |]; [congruence|].
  pose proof (sorted_lookup _ _ i j e1 e2 Hsorted H1 H2 ltac:(lia)) as Hlt. unfold entry_lt, entry_cmp in *.
  pose proof (key_cmp_antisym (vol_upcase ni) (collation_rule ni) (e_key e1) key).
  pose proof (key_cmp_antisym (vol_upcase ni) (collation_rule ni) (e_key e2) key).
  pose proof (key_cmp_trans_lt (vol_upcase ni) (collation_rule ni) (e_key e1) (e_key e2) key Hlt ltac:(lia)). lia.
Qed.

Lemma after_neg i j e1 e2 : es !! i = Some e1 → es !! j = Some e2 → (i ≤ j)%nat → cmp e1 < 0 → cmp e2 < 0.
Proof.
  intros H1 H2 Hij Hc. destruct (decide (i = j)) as [-> |]; [congruence|].
  pose proof (sorted_lookup _ _ i j e1 e2 Hsorted H1 H2 ltac:(lia)) as Hlt. unfold entry_lt, entry_cmp in *.
  apply (key_cmp_trans_lt _ _ _ (e_key e1)); lia.
Qed.

Lemma around_zero i j e1 e2 : es !! i = Some e1 → es !! j = Some e2 → (i < j)%nat → (cmp e2 = 0 → 0 < cmp e1) ∧ (cmp e1 = 0 → cmp e2 < 0).
Proof.
  intros H1 H2 Hij. pose proof (sorted_lookup _ _ i j e1 e2 Hsorted H1 H2 ltac:(lia)) as Hlt. unfold entry_lt, entry_cmp in *.
  pose proof (key_cmp_antisym (vol_upcase ni) (collation_rule ni) (e_key e1) key).
  pose proof (key_cmp_antisym (vol_upcase ni) (collation_rule ni) (e_key e2) key). split; intros Hz.
  - pose proof (key_cmp_trans_lt (vol_upcase ni) (collation_rule ni) (e_key e1) (e_key e2) key Hlt ltac:(lia)). lia.
  - apply (key_cmp_trans_lt' _ _ _ (e_key e1)); lia.
Qed.

Lemma search_end_found i e : es !! i = Some e → cmp e = 0 → search_result es (true, Z.of_nat i).
Proof.
  intros He Hz. pose proof He as Hsplit. apply list_elem_of_split_length in Hsplit as (l1 & l2 & E & Hlen).
  exists l1, (e :: l2). split; [done|]. split; [cbn; lia|]. split.
  - apply Forall_lookup. intros j x Hx. apply (around_zero j i x e); [by rewrite E; apply lookup_app_l_Some|done| |done].
    apply lookup_lt_Some in Hx. lia.
  - cbn. exists e, l2. split; [done|]. split; [done|]. apply Forall_lookup. intros j x Hx.
    apply (around_zero i (i + S j) e x); [done| |lia|done]. rewrite E, Hlen, lookup_app_r by lia.
    by replace (_ + S j - _)%nat with (S j) by lia.
Qed.

Lemma search_end_missing c :
  0 ≤ c ≤ Z.of_nat (length es) → (∀ i e, es !! i = Some e → Z.of_nat i < c → 0 < cmp e) →
  (∀ i e, es !! i = Some e → c ≤ Z.of_nat i → cmp e < 0) → search_result es (false, c).
Proof.
  intros Hc H1 H2. exists (take (Z.to_nat c) es), (drop (Z.to_nat c) es). split; [by rewrite take_drop|].
  split; [cbn; rewrite length_take; lia|]. split; apply Forall_lookup; intros i x Hx.
  - apply lookup_take_Some in Hx as [Hx Hi]. apply (H1 i x Hx). lia.
  - rewrite lookup_drop in Hx. apply (H2 _ x Hx). lia.
Qed.

Lemma search_loop_spec fuel min_left max_right cur :
  0 ≤ min_left ≤ cur → cur ≤ max_right < Z.of_nat (length es) → max_right - min_left < Z.of_nat fuel →
  (∀ i e, es !! i = Some e → Z.of_nat i < min_left → 0 < cmp e) → (∀ i e, es !! i = Some e → max_right < Z.of_nat i → cmp e < 0) →
  ∃ r, search_loop ni fuel b entries match_key match_key_len key min_left max_right cur = Ret r ∧ search_result es r.
Proof.
  revert min_left max_right cur. induction fuel as [|fuel IH]; intros min_left max_right cur Hmin Hmax Hfuel Hl Hr; [lia|].
  cbn [search_loop]. destruct (lookup_lt_is_Some_2 es (Z.to_nat cur)) as [e He]; [lia|].
  destruct (node_entry_at p (es ++ [fin]) q (Z.to_nat cur) e) as (p' & q' & Hb & Ho); [rewrite lookup_app_l; [done|lia]|].
  rewrite (rd_Ret _ _ _ Ho). cbn [mbind outcome_bind]. destruct (Forall_lookup_1 _ _ _ _ Hes He) as [Hok Hk].
  destruct (exact_match_spec p' e q' Hok Hk) as (hit & Hm & Hhit). pose proof (collate_entry_spec p' e q' Hok Hk) as Hcol.
  rewrite <- Hb in Hm, Hcol. rewrite Hm, Hcol. cbn [mbind outcome_bind].
  pose proof (search_end_found _ _ He) as Hfound. rewrite Z2Nat.id in Hfound by lia.
  destruct hit; [eauto|]. pose proof (key_cmp_range (vol_upcase ni) (collation_rule ni) key (e_key e)) as Hrange.
  fold (cmp e) in Hrange. destruct (Z.eqb_spec (cmp e) (-1)) as [Hc|Hc]; [|destruct (Z.eqb_spec (cmp e) 0) as [|Hz]; [eauto|]].
  - assert (∀ i x, es !! i = Some x → cur ≤ Z.of_nat i → cmp x < 0) as Hright.
    { intros i x Hx Hi. apply (after_neg (Z.to_nat cur) i e x); [done..|lia|lia]. }
    destruct (Z.eqb_spec cur min_left) as [-> |]; [eexists; split; [done|]; by apply search_end_missing; [lia|..]|].
    rewrite (uwrap_id 32 (cur - 1)), uwrap_id by lia. apply IH; try (zdiv || done). intros i x Hx Hi. apply (Hright i x Hx). lia.
  - assert (∀ i x, es !! i = Some x → Z.of_nat i ≤ cur → 0 < cmp x) as Hleft.
    { intros i x Hx Hi. apply (before_pos i (Z.to_nat cur) x e); [done..|lia|lia]. }
    rewrite (uwrap_id 32 (cur + 1)) by lia. destruct (Z.eqb_spec cur max_right) as [-> |].
    { eexists. split; [done|]. apply search_end_missing; [lia| |]; intros i x Hx Hi; [apply (Hleft i x Hx)|apply (Hr i x Hx)]; lia. }
    rewrite uwrap_id by lia. apply IH; try (zdiv || done). intros i x Hx Hi. apply (Hleft i x Hx). lia.
Qed.

Lemma lookup_in_node_end :
  ∃ r, ntfs_index_lookup_in_node ni b entries match_key match_key_len key = Ret r ∧ search_result es r.
Proof.
  unfold ntfs_index_lookup_in_node. rewrite length_offsets, length_app. cbn [length].
  destruct (Z.eqb_spec (Z.of_nat (length es + 1)) 1) as [E|E].
  - exists (false, 0). split; [done|]. apply search_end_missing; [lia| |]; intros i e He%lookup_lt_Some; lia.
  - rewrite uwrap_id by lia. apply search_loop_spec; try zdiv. intros i e He%lookup_lt_Some. lia.
Qed.
End loop.
End search.

(** C13: in a sorted node with valid keys, under any collation rule but COLLATION_BINARY and
    COLLATION_NTOFS_SID ([rule_ok]), the binary search of [ntfs_index_lookup_in_node] for a valid key
    returns what a search from left to right returns: the entry with the key, or otherwise the first entry with a greater key or
    the end entry. *)
Theorem ntfs_index_lookup_in_node_linear ni n key match_key match_key_len :
  node_ok ni n → Forall (λ e, index_key ni (e_key e)) (n_entries n) → StronglySorted (entry_lt ni) (n_entries n) →
  Z.of_nat (length (n_entries n)) < 2 ^ 31 → rule_ok ni → index_key ni key →
  match_key_of ni key = Ret (match_key, match_key_len) →
  ntfs_index_lookup_in_node ni (node_bytes n) (offsets (node_first n) (node_all n)) match_key match_key_len key =
    Ret (let '(hit, k) := linear_search (entry_cmp ni key) (n_entries n) in (hit, Z.of_nat k)).
Proof.
  intros Hn Hk Hs Hl Hr Hkey Hm. unfold node_bytes, node_first, node_all.
  destruct (lookup_in_node_end ni key match_key match_key_len Hr Hkey Hm (n_pre n ++ n_head n ++ n_gap n) (n_rest n) (n_entries n) (n_end n))
    as ([hit c] & -> & l1 & l2 & -> & Hc & H1 & H2); [|done|done|].
  - apply list.Forall_and. split; [|done]. eapply list.Forall_impl; [apply (node_entries _ _ Hn)|]. by intros e (? & _).
  - cbn in Hc, H2. subst c. destruct hit.
    + destruct H2 as (e & l & -> & He & _). by rewrite linear_search_found.
    + by rewrite linear_search_missing.
Qed.

(** A node of the index $Q of quotas by owner. *)
Definition sample_view : index_inode := mk_index_inode [0x24; 0x51] COLLATION_NTOFS_ULONG 4096 12 true [] true 1024.
Definition sample_entry (owner_id : Z) : list Z :=
  le_bytes 2 20 ++ le_bytes 2 0 ++ le_bytes 4 0 ++ le_bytes 2 24 ++ le_bytes 2 4 ++ le_bytes 4 0 ++ le_bytes 4 owner_id ++ le_bytes 4 0.
Definition sample_end : list Z := replicate 8 0 ++ le_bytes 2 16 ++ le_bytes 2 0 ++ le_bytes 2 2 ++ le_bytes 2 0.
Definition sample_index_head (len : Z) : list Z := le_bytes 4 16 ++ le_bytes 4 len ++ le_bytes 4 len ++ replicate 4 0.
Definition sample_node : node :=
  mk_node (replicate 8 0) (sample_index_head 128) [] (sample_entry <$> [1; 0x100; 0x102; 0x10000]) sample_end (replicate 20 0).

Lemma sample_entry_ok k : entry_ok (sample_entry k).
Proof.
  split; [|done|cbn; lia|done]. repeat (apply bytes_app; split); apply bytes_le_bytes.
Qed.

Lemma sample_entry_key k : index_key sample_view (e_key (sample_entry k)).
Proof.
  change (e_key (sample_entry k)) with (le_bytes 4 k). split; [apply bytes_le_bytes|]. do 3 right. split; [by left|].
  split; [apply bytes_le_bytes|by exists 1%nat].
Qed.

Lemma sample_node_ok : node_ok sample_view sample_node.
Proof.
  split; try done.
  - apply list.Forall_app; split; [by apply (bool_decide_unpack _); vm_compute|]. by apply (bool_decide_unpack _); vm_compute.
  - repeat constructor; try (apply sample_entry_ok || done).
  - split; [|done]. split; [|done|cbn; lia|done]. by apply (bool_decide_unpack _); vm_compute.
Qed.

Lemma gather_entries_bounds_witness :
  let b := node_bytes sample_node in
  let r := gather_entries sample_view 50 b 8 in
  (r = Panic ∧ 24 + 16 * (50 + 1) ≤ 136) ∨ r = Ret None ∨
  ∃ es, r = Ret (Some es) ∧ entry_chain sample_view b 136 24 es ∧ Z.of_nat (length es) ≤ 50.
Proof. apply (gather_entries_bounds sample_view 50 (node_bytes sample_node) 8); vm_compute; lia || done. Defined.

Lemma ntfs_index_lookup_in_node_linear_witness :
  ntfs_index_lookup_in_node sample_view (node_bytes sample_node) (offsets (node_first sample_node) (node_all sample_node))
    (le_bytes 4 0x102) 4 (le_bytes 4 0x102) =
    Ret (let '(hit, k) := linear_search (entry_cmp sample_view (le_bytes 4 0x102)) (n_entries sample_node) in (hit, Z.of_nat k)).
Proof.
  apply ntfs_index_lookup_in_node_linear; [exact sample_node_ok| | |done|by split| |done].
  - repeat (apply list.Forall_cons; split; [apply sample_entry_key|]). constructor.
  - repeat constructor.
  - exact (sample_entry_key 0x102).
Defined.

(** The result of the binary rules is not -1 but the difference of two bytes, which sends the search
    to the right: the first of three keys is not found. *)
Example binary_rule_misses :
  let ni := mk_index_inode [0x24; 0x4f] COLLATION_NTOFS_SID 4096 12 true [] true 1024 in
  let key := le_bytes 4 1 in
  let n := mk_node (replicate 8 0) (sample_index_head 104) [] (sample_entry <$> [1; 11; 21]) sample_end (replicate 20 0) in
  ntfs_index_lookup_in_node ni (node_bytes n) (offsets (node_first n) (node_all n)) key 4 key = Ret (false, 3).
Proof. by vm_compute. Qed.

(** An index of entries without keys has more entries than there is room for. *)
Example gather_entries_panics :
  let e := replicate 8 0 ++ le_bytes 2 16 ++ replicate 6 0 in
  let n := mk_node [] (sample_index_head 96) [] (replicate 4 e) sample_end (replicate 20 0) in
  gather_entries (mk_index_inode I30 COLLATION_FILENAME 4096 12 true [] true 1024) 1 (node_bytes n) 0 = Panic.
Proof. by vm_compute. Qed.

(** The fields of the first entry are read wherever the offset in the header points to. *)
Example gather_entries_leaves_buffer :
  gather_entries sample_view 50 (le_bytes 4 100000 ++ le_bytes 4 80 ++ le_bytes 4 80 ++ replicate 84 0) 0 = Oob.
Proof. by vm_compute. Qed.
