(* ===== verification/IndexLookup.v ===== *)
(** * Lookups in an index

    [kext/ntfs_index.c]: an index is a B-tree whose root is the value of the index root attribute
    in the mft record of its inode and whose other nodes are the index blocks of the index
    allocation attribute, which the page cache holds.  A lookup leaves the path from the root to
    the node it ends in as a list of index contexts. *)

From S2P Require Import Prelude Bytes Unistr Collate PageCache MftRecord AttrFind IndexNode.

(** ** State and errors *)

(** What the index code asks the kernel for: pages, memory, and the mapping of the mft record; the
    requests are numbered. *)
Class IndexEnv := {
  index_pages :: PageCache;
  alloc_fails : nat → bool;
  mft_map_errno : nat → Z
}.

(** The number of requests so far, whether errors are noted on the volume, the mft record of the
    index, and its index allocation attribute (as the page cache holds it, after the multi sector
    transfer fixups). *)
Record world := mk_world {
  w_clock : nat;
  w_errors : bool;
  w_mft : list Z;
  w_ia : contents
}.

Definition io (A : Type) : Type := world → outcome (A * world).
#[global] Instance io_ret : MRet io := λ A a w, Ret (a, w).
#[global] Instance io_bind : MBind io := λ A B f m w, '(a, w) ← m w; f a w.
Definition lift {A} (m : outcome A) : io A := λ w, a ← m; Ret (a, w).
Definition panic {A} : io A := λ _, Panic.
Definition get_world : io world := λ w, Ret (w, w).
Definition request : io nat := λ w, Ret (w_clock w, mk_world (S (w_clock w)) (w_errors w) (w_mft w) (w_ia w)).
Definition NVolSetErrors : io () := λ w, Ret ((), mk_world (w_clock w) true (w_mft w) (w_ia w)).

(** Functions that return an errno or a value. *)
Definition fail {A} (err : Z) : io (Z + A) := mret (inl err).
Definition try {A B} (m : io (Z + A)) (f : A → io (Z + B)) : io (Z + B) :=
  r ← m; match r with inl err => fail err | inr a => f a end.
Notation "x ←! m ; k" := (try m (λ x, k)) (at level 20, m at level 100, k at level 200, only parsing).
Notation "' x ←! m ; k" := (try m (λ x, k)) (at level 20, x pattern, m at level 100, k at level 200, only parsing).

(** ** Index contexts *)

(** [ic_actx] is where the index root attribute is, [ic_upl_ofs] where the page is; [ic_index],
    [ic_entry] and [ic_entries] are offsets in the mft record or in the page. *)
Record ntfs_index_context := mk_ictx {
  ic_is_root : bool;
  ic_is_locked : bool;
  ic_is_match : bool;
  ic_vcn : Z;
  ic_upl_ofs : Z;
  ic_actx : nat;
  ic_index : nat;
  ic_bytes_free : Z;
  ic_entry : nat;
  ic_entry_nr : Z;
  ic_entries : list nat;
  ic_max_entries : Z
}.
Definition nr_entries (c : ntfs_index_context) : Z := Z.of_nat (length (ic_entries c)).

Definition ntfs_index_ctx_init : ntfs_index_context := mk_ictx false false false 0 0 0 0 0 0 0 [] 0.

Definition set_locked (l : bool) (c : ntfs_index_context) : ntfs_index_context :=
  mk_ictx (ic_is_root c) l (ic_is_match c) (ic_vcn c) (ic_upl_ofs c) (ic_actx c) (ic_index c) (ic_bytes_free c) (ic_entry c) (ic_entry_nr c)
    (ic_entries c) (ic_max_entries c).
Definition set_match (m : bool) (c : ntfs_index_context) : ntfs_index_context :=
  mk_ictx (ic_is_root c) (ic_is_locked c) m (ic_vcn c) (ic_upl_ofs c) (ic_actx c) (ic_index c) (ic_bytes_free c) (ic_entry c) (ic_entry_nr c)
    (ic_entries c) (ic_max_entries c).
Definition set_entry (entry : nat) (entry_nr : Z) (c : ntfs_index_context) : ntfs_index_context :=
  mk_ictx (ic_is_root c) (ic_is_locked c) (ic_is_match c) (ic_vcn c) (ic_upl_ofs c) (ic_actx c) (ic_index c) (ic_bytes_free c) entry entry_nr
    (ic_entries c) (ic_max_entries c).
Definition set_entries (entries : list nat) (c : ntfs_index_context) : ntfs_index_context :=
  mk_ictx (ic_is_root c) (ic_is_locked c) (ic_is_match c) (ic_vcn c) (ic_upl_ofs c) (ic_actx c) (ic_index c) (ic_bytes_free c) (ic_entry c)
    (ic_entry_nr c) entries (ic_max_entries c).

(** [ictx->entry = ictx->entries[nr]; ictx->entry_nr = nr]. *)
Definition goto_entry (nr : Z) (c : ntfs_index_context) : outcome ntfs_index_context :=
  entry ← rd (ic_entries c) (Z.to_nat nr); Ret (set_entry entry nr c).

(** A path through the tree; the first context is the bottom one, [up] is the rest. *)
Definition path : Type := list ntfs_index_context.

(** ** Operations *)

Definition magic_INDX : Z := 0x58444e49.
Definition sizeof_INDEX_ROOT : Z := 32.
Definition sizeof_INDEX_BLOCK : Z := 40.
Definition sizeof_SID : Z := 12.

(** The fields of an [INDEX_BLOCK], and of [INDEX_ROOT] the index header. *)
Definition ia_magic : nat := 0.
Definition ia_index_block_vcn : nat := 16.
Definition ia_index : nat := 24.
Definition ir_index : nat := 16.

Definition ntfs_is_collation_rule_supported (cr : Z) : bool :=
  if cr =? COLLATION_UNICODE_STRING then false else
  let i := s32 cr in ((0 <=? i) && (i <=? 0x02)) || ((0x10 <=? i) && (i <=? 0x13)).

Section lookup.
Context {env : IndexEnv} (ni : index_inode).

(** The bytes of the page at [ofs]. *)
Definition page_bytes (f : contents) (ofs : Z) : list Z := (λ i, f (ofs + Z.of_nat i)) <$> seq 0 (Z.to_nat PAGE_SIZE).

(** The memory that the pointers of a context point into. *)
Definition node_buf (w : world) (c : ntfs_index_context) : list Z :=
  if ic_is_root c then w_mft w else page_bytes (w_ia w) (ic_upl_ofs c).

Definition corrupt_index {A} : io (Z + A) := _ ← NVolSetErrors; fail EIO.

Definition ntfs_index_get_entries (c : ntfs_index_context) : io (Z + ntfs_index_context) :=
  if negb (ic_is_locked c) then panic else
  t ← request;
  if alloc_fails t then fail ENOMEM else
  w ← get_world;
  let b := node_buf w c in
  r ← lift (gather_entries ni (ic_max_entries c) b (ic_index c));
  match r with
  | None => corrupt_index
  | Some entries =>
      flags ← lift (rd b (ic_index c + ih_flags));
      if (Z.of_nat (length entries) <? 2) && negb (ic_is_root c) && negb (has flags INDEX_NODE) then corrupt_index
      else mret (inr (set_entries entries c))
  end.

(** The search of the index root attribute with a new search context, in an inode without an
    attribute list: the errno, and where the attribute is. *)
Definition find_index_root (m : list Z) : outcome (Z * nat * bool) :=
  '(err, ctx, corrupted) ← find_first (vol_case_sensitive ni) (vol_upcase ni) AT_INDEX_ROOT (some_name (idx_name ni)) None m;
  Ret (err, ctx_a ctx, corrupted).

(** Map the mft record of the index and look up its index root. *)
Definition map_index_root : io (Z + (Z * nat)) :=
  t ← request;
  if negb (mft_map_errno t =? 0) then fail (mft_map_errno t) else
  t ← request;
  if alloc_fails t then fail ENOMEM else
  w ← get_world;
  '(err, a, corrupted) ← lift (find_index_root (w_mft w));
  _ ← (if (corrupted : bool) then NVolSetErrors else mret ());
  mret (inr (err, a)).

(** The largest number of entries there can be in a node. *)
Definition index_max_entries (m : list Z) (key_len : Z) : outcome Z :=
  let min_entry_size :=
    if negb (collation_rule ni =? COLLATION_FILENAME) then
      if collation_rule ni =? COLLATION_NTOFS_SID then sizeof_INDEX_ENTRY_HEADER + sizeof_SID
      else u32 (sizeof_INDEX_ENTRY_HEADER + key_len)
    else sizeof_INDEX_ENTRY_HEADER + Z.of_nat sizeof_FILENAME_ATTR in
  let max_entries := u32 (1 + u64 (block_size ni - sizeof_INDEX_BLOCK - sizeof_INDEX_ENTRY_HEADER) / min_entry_size) in
  if block_size ni <? vol_mft_record_size ni then
    attrs_offset ← le16_at m m_attrs_offset;
    let max_root_entries := u32 (1 + u64 (vol_mft_record_size ni - attrs_offset - resident_header - sizeof_INDEX_ROOT -
      sizeof_INDEX_ENTRY_HEADER) / min_entry_size) in
    Ret (if max_entries <? max_root_entries then max_root_entries else max_entries)
  else Ret max_entries.

(** Where the index header of the attribute at [a] is, and the free space of the mft record. *)
Definition root_index (m : list Z) (a : nat) : outcome nat :=
  value_offset ← le16_at m (a + a_value_offset); Ret (a + Z.to_nat value_offset + ir_index)%nat.
Definition mft_bytes_free (m : list Z) : outcome Z :=
  alloc ← le32_at m m_bytes_allocated; use ← le32_at m m_bytes_in_use; Ret (u32 (alloc - use)).

(** If there is no index root, the function returns 0 with the context unchanged. *)
Definition ntfs_index_lookup_init (c : ntfs_index_context) (key_len : Z) : io (Z + ntfs_index_context) :=
  if negb (ic_max_entries c =? 0) then panic else
  if negb (ntfs_is_collation_rule_supported (collation_rule ni)) then fail ENOTSUP else
  '(err, a) ←! map_index_root;
  if err =? ENOENT then mret (inr c) else
  if negb (err =? 0) then fail err else
  w ← get_world;
  max_entries ← lift (index_max_entries (w_mft w) key_len);
  index ← lift (root_index (w_mft w) a);
  c ←! ntfs_index_get_entries (mk_ictx true true (ic_is_match c) (ic_vcn c) (ic_upl_ofs c) a index (ic_bytes_free c)
    (ic_entry c) (ic_entry_nr c) (ic_entries c) max_entries);
  bytes_free ← lift (mft_bytes_free (w_mft w));
  mret (inr (mk_ictx true true (ic_is_match c) (ic_vcn c) (ic_upl_ofs c) a index bytes_free (ic_entry c) (ic_entry_nr c)
    (ic_entries c) max_entries)).

(** Move the pointers of a context that was unlocked to where the node is now. *)
Definition move_context (a index : nat) (bytes_free : Z) (c : ntfs_index_context) : ntfs_index_context :=
  let move (p : nat) : nat := Z.to_nat (Z.of_nat p + (Z.of_nat index - Z.of_nat (ic_index c))) in
  mk_ictx (ic_is_root c) true (ic_is_match c) (ic_vcn c) (ic_upl_ofs c) a index bytes_free (move (ic_entry c)) (ic_entry_nr c)
    (move <$> ic_entries c) (ic_max_entries c).

Definition ntfs_index_ctx_relock (c : ntfs_index_context) : io (Z + ntfs_index_context) :=
  if ic_is_locked c then panic else
  if ic_is_root c then
    '(err, a) ←! map_index_root;
    if err =? ENOENT then panic else
    if negb (err =? 0) then fail err else
    w ← get_world;
    bytes_free ← lift (mft_bytes_free (w_mft w));
    index ← lift (root_index (w_mft w) a);
    mret (inr (move_context a index bytes_free c))
  else
    t ← request;
    if negb (page_map_errno t (ic_upl_ofs c) =? 0) then fail (page_map_errno t (ic_upl_ofs c)) else
    mret (inr (set_locked true c)).

(** The checks of the index block at [ia] of the page. *)
Definition check_index_block (b : list Z) (ia vcn : Z) : outcome bool :=
  if (ia <? 0) || (PAGE_SIZE <? ia) then Ret false else
  let i := Z.to_nat ia in
  magic ← le32_at b (i + ia_magic);
  if negb (magic =? magic_INDX) then Ret false else
  index_block_vcn ← le64_at b (i + ia_index_block_vcn);
  if negb (s64 index_block_vcn =? vcn) then Ret false else
  allocated_size ← le32_at b (i + ia_index + ih_allocated_size);
  if negb (Z.of_nat ia_index + allocated_size =? block_size ni) then Ret false else
  if PAGE_SIZE <? ia + block_size ni then Panic else
  index_length ← le32_at b (i + ia_index + ih_index_length);
  Ret (negb (ia + block_size ni <? ia + Z.of_nat ia_index + index_length)).

(** Map the page at [ofs] unless it is the one of the context. *)
Definition get_page (c : ntfs_index_context) (ofs : Z) : io Z :=
  if negb (ic_is_root c) && (ofs =? ic_upl_ofs c) then mret 0
  else t ← request; mret (page_map_errno t ofs).

(** The context of the index block at [vcn], of which the page is mapped. *)
Definition new_block_context (max_entries vcn pos : Z) : io (Z + ntfs_index_context) :=
  w ← get_world;
  let ofs := Z.land pos (Z.lnot PAGE_MASK) in
  let ia := Z.land (u32 pos) PAGE_MASK in
  let b := page_bytes (w_ia w) ofs in
  good ← lift (check_index_block b ia vcn);
  if negb good then corrupt_index else
  t ← request;
  if alloc_fails t then fail ENOMEM else
  let index := (Z.to_nat ia + ia_index)%nat in
  allocated_size ← lift (le32_at b (index + ih_allocated_size));
  index_length ← lift (le32_at b (index + ih_index_length));
  ntfs_index_get_entries (mk_ictx false true false vcn ofs 0 index (u32 (allocated_size - index_length)) 0 0 [] max_entries).

(** The VCN in the last bytes of the entry at [ie]. *)
Definition child_vcn (b : list Z) (ie : nat) : outcome Z :=
  length ← le16_at b (ie + ie_length);
  vcn ← le64_at b (Z.to_nat (Z.of_nat ie + length - 8));
  Ret (s64 vcn).

Definition ntfs_index_descend_into_child_node (p : path) : io (Z + path) :=
  match p with
  | [] => panic
  | c :: up =>
      if negb (ic_is_locked c) then panic else
      w ← get_world;
      let b := node_buf w c in
      flags ← lift (le16_at b (ic_entry c + ie_flags));
      if negb (has flags INDEX_ENTRY_NODE) then panic else
      index_flags ← lift (rd b (ic_index c + ih_flags));
      if negb (has index_flags INDEX_NODE) then corrupt_index else
      vcn ← lift (child_vcn b (ic_entry c));
      if vcn <? 0 then corrupt_index else
      let pos := s64 (Z.shiftl vcn (vcn_size_shift ni)) in
      if ic_is_root c && negb (index_alloc_present ni) then corrupt_index else
      err ← get_page c (Z.land pos (Z.lnot PAGE_MASK));
      if negb (err =? 0) then fail err else
      new ←! new_block_context (ic_max_entries c) vcn pos;
      mret (inr (new :: set_locked false c :: up))
  end.

(** The loops below follow the child pointers, which may form a cycle on a corrupt volume: they run
    for at most [fuel] rounds, [None] is a loop that has not ended. *)
Definition still_running {A} : io (option (Z + A)) := mret None.
Definition ended {A} (r : Z + A) : io (option (Z + A)) := mret (Some r).
Definition then_ {A B} (m : io (option (Z + A))) (f : A → io (option (Z + B))) : io (option (Z + B)) :=
  r ← m; match r with None => still_running | Some (inl err) => ended (inl err) | Some (inr a) => f a end.
Definition once {A} (m : io (Z + A)) : io (option (Z + A)) := r ← m; ended r.
Notation "x ←? m ; k" := (then_ m (λ x, k)) (at level 20, m at level 100, k at level 200, only parsing).

Fixpoint lookup_loop (fuel : nat) (match_key : list Z) (match_key_len : Z) (key : list Z) (p : path)
    : io (option (Z + (bool * path))) :=
  match fuel, p with
  | O, _ => still_running
  | _, [] => panic
  | S fuel, c :: up =>
      w ← get_world;
      '(hit, nr) ← lift (ntfs_index_lookup_in_node ni (node_buf w c) (ic_entries c) match_key match_key_len key);
      c ← lift (goto_entry nr c);
      if (hit : bool) then ended (inr (true, set_match true c :: up)) else
      flags ← lift (le16_at (node_buf w c) (ic_entry c + ie_flags));
      if negb (has flags INDEX_ENTRY_NODE) then ended (inr (false, c :: up)) else
      p ←? once (ntfs_index_descend_into_child_node (c :: up));
      lookup_loop fuel match_key match_key_len key p
  end.

(** [true] is the return value 0, [false] is [ENOENT]. *)
Definition ntfs_index_lookup (fuel : nat) (key : list Z) : io (option (Z + (bool * path))) :=
  if Z.of_nat (length key) <=? 0 then panic else
  '(match_key, match_key_len) ← lift (match_key_of ni key);
  c ←? once (ntfs_index_lookup_init ntfs_index_ctx_init (Z.of_nat (length key)));
  lookup_loop fuel match_key match_key_len key [c].

(** [while (ictx->entry->flags & INDEX_ENTRY_NODE)]: descend to the first entry of the child. *)
Fixpoint descend_first (fuel : nat) (p : path) : io (option (Z + path)) :=
  match fuel, p with
  | O, _ => still_running
  | _, [] => panic
  | S fuel, c :: up =>
      w ← get_world;
      flags ← lift (le16_at (node_buf w c) (ic_entry c + ie_flags));
      if negb (has flags INDEX_ENTRY_NODE) then ended (inr (c :: up)) else
      p ←? once (ntfs_index_descend_into_child_node (c :: up));
      match p with
      | [] => panic
      | c :: up => c ← lift (goto_entry 0 c); descend_first fuel (c :: up)
      end
  end.

(** Move up until a node that is not at its end entry; [None] if there is none. *)
Fixpoint climb (p : path) : option path :=
  match p with
  | c :: ((c' :: _) as up) =>
      if ic_is_root c then None
      else if ic_entry_nr c' =? nr_entries c' - 1 then climb up else Some up
  | _ => None
  end.

(** The next entry of a path, with the climbed node locked again. *)
Definition relock_top (p : path) : io (Z + path) :=
  match p with
  | [] => panic
  | c :: up => c ←! ntfs_index_ctx_relock c; mret (inr (c :: up))
  end.

Definition mark_match (p : path) : path :=
  match p with [] => [] | c :: up => set_match true c :: up end.

Fixpoint position_loop (fuel : nat) (pos current_pos : Z) (p : path) : io (option (Z + path)) :=
  match fuel with
  | O => still_running
  | S fuel' =>
      p ←? descend_first fuel p;
      match p with
      | [] => panic
      | c :: up =>
          if pos <? current_pos + nr_entries c - 1 then
            if current_pos <? pos then
              let nr := ic_entry_nr c + (pos - current_pos) in
              if nr_entries c - 1 <=? nr then panic else
              c ← lift (goto_entry nr c);
              ended (inr (set_match true c :: up))
            else if pos <? current_pos then panic
            else ended (inr (set_match true c :: up))
          else
            let current_pos := current_pos + nr_entries c - 1 in
            match climb (c :: up) with
            | None => ended (inl ENOENT)
            | Some p =>
                p ←? once (relock_top p);
                match p with
                | [] => panic
                | c :: up =>
                    if current_pos =? pos then ended (inr (set_match true c :: up)) else
                    c ← lift (goto_entry (ic_entry_nr c + 1) c);
                    position_loop fuel' pos (current_pos + 1) (c :: up)
                end
            end
      end
  end.

Definition ntfs_index_lookup_by_position (fuel : nat) (pos key_len : Z) : io (option (Z + path)) :=
  if pos <? 0 then panic else
  c ←? once (ntfs_index_lookup_init ntfs_index_ctx_init key_len);
  c ← lift (goto_entry 0 c);
  position_loop fuel pos 0 [c].

Definition ntfs_index_lookup_next (fuel : nat) (p : path) : io (option (Z + path)) :=
  match p with
  | [] => panic
  | c :: up =>
      if ic_max_entries c =? 0 then panic else
      if nr_entries c <? 2 then panic else
      w ← get_world;
      flags ← lift (le16_at (node_buf w c) (ic_entry c + ie_flags));
      if negb (has flags INDEX_ENTRY_NODE) then
        if ic_entry_nr c <? nr_entries c - 2 then
          c ← lift (goto_entry (ic_entry_nr c + 1) c);
          ended (inr (c :: up))
        else
          match climb (c :: up) with
          | None => ended (inl ENOENT)
          | Some p => p ←? once (relock_top p); ended (inr (mark_match p))
          end
      else
        c ← lift (goto_entry (ic_entry_nr c + 1) (set_match false c));
        p ←? descend_first fuel (c :: up);
        ended (inr (mark_match p))
  end.

Fixpoint predecessor_loop (fuel : nat) (p : path) : io (option (Z + path)) :=
  match fuel with
  | O => still_running
  | S fuel =>
      p ←? once (ntfs_index_descend_into_child_node p);
      match p with
      | [] => panic
      | c :: up =>
          w ← get_world;
          flags ← lift (rd (node_buf w c) (ic_index c + ih_flags));
          if negb (has flags INDEX_NODE) then ended (inr (c :: up)) else
          c ← lift (goto_entry (nr_entries c - 1) c);
          predecessor_loop fuel (c :: up)
      end
  end.

Definition ntfs_index_lookup_predecessor (fuel : nat) (p : path) : io (option (Z + path)) :=
  match p with
  | [] => panic
  | c :: up =>
      w ← get_world;
      flags ← lift (le16_at (node_buf w c) (ic_entry c + ie_flags));
      if negb (has flags INDEX_ENTRY_NODE) then panic else
      p ←? predecessor_loop fuel p;
      match p with
      | [] => panic
      | c :: up =>
          if nr_entries c <? 2 then panic else
          c ← lift (goto_entry (nr_entries c - 2) c);
          ended (inr (set_match true c :: up))
      end
  end.
End lookup.
