(* ===== verification/IndexTree.v ===== *)
(** * Index trees

    The B-tree that an index stores: what the lookups of [IndexLookup] return in terms of the
    sequence of the entries from left to right. *)

From Stdlib Require Import Sorted.
From S2P Require Import Prelude Bytes Unistr Collate PageCache MftRecord AttrFind IndexNode IndexLookup.

(** ** Trees *)

(** A node with its entries, its end entry, and its children: none in a leaf, otherwise one for
    every entry. *)
#[local] Unset Elimination Schemes.
Inductive btree := Node (es : list (list Z)) (fin : list Z) (kids : list btree).
#[local] Set Elimination Schemes.

Section btree_ind.
Context (P : btree → Prop).
Hypothesis (step : ∀ es fin kids, Forall P kids → P (Node es fin kids)).

Fixpoint btree_all (t : btree) : P t :=
  match t with
  | Node es fin kids =>
      step es fin kids ((fix go (kids : list btree) : Forall P kids :=
        match kids with
        | [] => List.Forall_nil _
        | k :: kids => List.Forall_cons _ _ _ (btree_all k) (go kids)
        end) kids)
  end.
End btree_ind.

(** The entries [es] with the sequences [ls] of their children in between; a leaf has no [ls]. *)
Fixpoint interleave {A} (es : list A) (ls : list (list A)) : list A :=
  match es with
  | [] => hd [] ls
  | e :: es => hd [] ls ++ e :: interleave es (tl ls)
  end.
(** What precedes the child [k], and what follows it. *)
Fixpoint before {A} (k : nat) (es : list A) (ls : list (list A)) : list A :=
  match k, es with
  | S k, e :: es => hd [] ls ++ e :: before k es (tl ls)
  | _, _ => []
  end.
Fixpoint after {A} (k : nat) (es : list A) (ls : list (list A)) : list A :=
  match k, es with
  | O, e :: es => e :: interleave es (tl ls)
  | S k, _ :: es => after k es (tl ls)
  | _, [] => []
  end.

(** The entries of a tree from left to right. *)
Fixpoint inorder (t : btree) : list (list Z) :=
  match t with Node es _ kids => interleave es (inorder <$> kids) end.
Fixpoint height (t : btree) : nat :=
  match t with Node _ _ kids => S (foldr max 0%nat (height <$> kids)) end.

Lemma interleave_split {A} k (es : list A) ls :
  (k ≤ length es)%nat → interleave es ls = before k es ls ++ nth k ls [] ++ after k es ls.
Proof.
  revert es ls. induction k as [|k IH]; intros [|e es] ls H; cbn [length] in H; try lia.
  - cbn. rewrite app_nil_r. by destruct ls.
  - cbn. by destruct ls.
  - cbn [interleave before after]. rewrite (IH es (tl ls)) by lia. rewrite <- (assoc_L (++)). cbn [app]. do 3 f_equal.
    destruct ls; [by destruct k|done].
Qed.

Lemma interleave_leaf {A} (es : list A) : interleave es [] = es.
Proof. induction es as [|e es IH]; cbn; [done|]. by rewrite IH. Qed.

Lemma before_leaf {A} k (es : list A) : before k es [] = take k es.
Proof. revert es. induction k as [|k IH]; intros [|e es]; cbn; try done. by rewrite IH. Qed.

Lemma after_leaf {A} k (es : list A) : after k es [] = drop k es.
Proof. revert es. induction k as [|k IH]; intros [|e es]; cbn; try done. by rewrite interleave_leaf. Qed.

Lemma after_end {A} (es : list A) ls : after (length es) es ls = [].
Proof. revert ls. induction es as [|e es IH]; intros ls; cbn; [done|apply IH]. Qed.

Lemma after_cons {A} k (es : list A) ls e :
  es !! k = Some e → after k es ls = e :: nth (S k) ls [] ++ after (S k) es ls.
Proof.
  revert es ls. induction k as [|k IH]; intros [|x es] ls; cbn [lookup list_lookup]; try done.
  - intros [= ->]. cbn [after]. rewrite (interleave_split 0 es (tl ls)) by lia. by destruct ls.
  - intros H. cbn [after]. rewrite (IH es (tl ls) H). destruct ls; [by destruct k|done].
Qed.

Lemma before_snoc {A} k (es : list A) ls e :
  es !! k = Some e → before (S k) es ls = before k es ls ++ nth k ls [] ++ [e].
Proof.
  revert es ls. induction k as [|k IH]; intros [|x es] ls; cbn [lookup list_lookup]; try done.
  - intros [= ->]. cbn. by destruct ls.
  - intros H. change (before (S (S k)) (x :: es) ls) with (hd [] ls ++ x :: before (S k) es (tl ls)). rewrite (IH es (tl ls) H).
    cbn [before]. rewrite <- (assoc_L (++)). cbn [app]. destruct ls; [by destruct k|done].
Qed.

Lemma height_kid es fin kids k kid : kids !! k = Some kid → (height kid < height (Node es fin kids))%nat.
Proof.
  intros H. cbn [height]. revert k H. induction kids as [|x kids IH]; intros k; [done|]. destruct k as [|k]; cbn.
  - intros [= ->]. lia.
  - intros H%IH. lia.
Qed.

(** ** The tree in the mft record and in the index blocks *)

Definition e_vcn (e : list Z) : Z := s64 (get64 e (length e - 8)).

Section stored.
Context {env : IndexEnv} (ni : index_inode) (max_entries : Z) (root : nat) (m : list Z) (f : contents).

(** The node [n] of the buffer holds the root of the tree [t]. *)
Record stored_node (b : list Z) (index : nat) (n : node) (t : btree) : Prop := {
  stored_bytes : node_bytes n = b;
  stored_at : length (n_pre n) = index;
  stored_ok : node_ok ni n;
  stored_max : Z.of_nat (length (node_all n)) ≤ max_entries;
  stored_entries : match t with Node es fin kids =>
    n_entries n = es ∧ n_end n = fin ∧
    (kids = [] ∨ length kids = S (length es)) ∧
    has (get8 (n_head n) ih_flags) INDEX_NODE = bool_decide (kids ≠ []) ∧
    Forall (λ e, is_node e = bool_decide (kids ≠ [])) (es ++ [fin]) end
}.

(** The page of the index block [v], and where it is in the page. *)
Definition block_pos (v : Z) : Z := s64 (Z.shiftl v (vcn_size_shift ni)).
Definition block_page (v : Z) : Z := Z.land (block_pos v) (Z.lnot PAGE_MASK).
Definition block_ofs (v : Z) : Z := Z.land (u32 (block_pos v)) PAGE_MASK.

(** The index block [v] holds the tree [t]. *)
Fixpoint stored_block (t : btree) (v : Z) {struct t} : Prop :=
  match t with
  | Node es fin kids =>
      0 ≤ v ∧ (kids = [] → es ≠ []) ∧
      check_index_block ni (page_bytes f (block_page v)) (block_ofs v) v = Ret true ∧
      (∃ n, stored_node (page_bytes f (block_page v)) (Z.to_nat (block_ofs v) + ia_index) n t) ∧
      (fix children (es : list (list Z)) (kids : list btree) {struct kids} : Prop :=
         match kids, es with
         | k :: kids, e :: es => stored_block k (e_vcn e) ∧ children es kids
         | _, _ => True
         end) (es ++ [fin]) kids
  end.

Definition stored_children (es : list (list Z)) (kids : list btree) : Prop :=
  ∀ k e kid, es !! k = Some e → kids !! k = Some kid → stored_block kid (e_vcn e).

Lemma stored_block_children es fin kids v :
  stored_block (Node es fin kids) v → stored_children (es ++ [fin]) kids.
Proof.
  intros (_ & _ & _ & _ & H). revert H. generalize (es ++ [fin]). intros l. revert kids.
  induction l as [|e l IH]; intros [|kid kids] H k e' kid' He Hk; try done. destruct H as [H1 H2].
  destruct k as [|k]; cbn in *; [by injection He as <-; injection Hk as <-|]. by apply (IH kids H2 k).
Qed.

(** A context describes the root of the tree [t]. *)
Record describes (c : ntfs_index_context) (t : btree) : Prop := {
  describes_node : ∃ n, stored_node (if ic_is_root c then m else page_bytes f (ic_upl_ofs c)) (ic_index c) n t ∧
    ic_entries c = offsets (node_first n) (node_all n);
  describes_max : ic_max_entries c = max_entries;
  describes_alloc : match t with Node _ _ kids => ic_is_root c = true → kids ≠ [] → index_alloc_present ni = true end;
  describes_leaf : match t with Node es _ kids => ic_is_root c = false → kids = [] → es ≠ [] end;
  describes_children : match t with Node es fin kids => stored_children (es ++ [fin]) kids end
}.

(** Its entry has the number [k]. *)
Definition entry_is (c : ntfs_index_context) (k : nat) : Prop :=
  ic_entry_nr c = Z.of_nat k ∧ ic_entries c !! k = Some (ic_entry c).

(** A context is the one of the index block [v]. *)
Record block_context (c : ntfs_index_context) (v : Z) : Prop := {
  block_context_vcn : ic_vcn c = v;
  block_context_page : ic_upl_ofs c = block_page v;
  block_context_index : ic_index c = (Z.to_nat (block_ofs v) + ia_index)%nat;
  block_context_free : ∃ alloc len, le32_at (page_bytes f (ic_upl_ofs c)) (ic_index c + ih_allocated_size) = Ret alloc ∧
    le32_at (page_bytes f (ic_upl_ofs c)) (ic_index c + ih_index_length) = Ret len ∧ ic_bytes_free c = u32 (alloc - len)
}.

(** A context is the one of the index root. *)
Definition root_fields (c : ntfs_index_context) : Prop :=
  find_index_root ni m = Ret (0, ic_actx c, false) ∧ mft_bytes_free m = Ret (ic_bytes_free c).

(** A path in the tree [T] to the root of the subtree [t], where [pre] and [post] are the entries
    of [T] before and after those of [t]. *)
Inductive path_to (T : btree) : path → btree → list (list Z) → list (list Z) → Prop :=
| path_root c :
    describes c T → ic_is_root c = true → ic_index c = root → root_fields c → path_to T [c] T [] []
| path_down c c' up k es fin kids kid e pre post :
    path_to T (c' :: up) (Node es fin kids) pre post → entry_is c' k → kids !! k = Some kid →
    ic_is_locked c' = false → describes c kid → ic_is_root c = false → (es ++ [fin]) !! k = Some e → block_context c (e_vcn e) →
    path_to T (c :: c' :: up) kid (pre ++ before k es (inorder <$> kids)) (after k es (inorder <$> kids) ++ post).

(** The path [p] leads to an entry, [None] for the end entry of a node; [l1] and [l2] are the
    entries of [T] before and after it. *)
Definition at_entry (T : btree) (p : path) (l1 : list (list Z)) (o : option (list Z)) (l2 : list (list Z)) : Prop :=
  ∃ c up k es fin kids pre post,
    p = c :: up ∧ path_to T p (Node es fin kids) pre post ∧ entry_is c k ∧ ic_is_locked c = true ∧
    l1 = pre ++ before k es (inorder <$> kids) ++ nth k (inorder <$> kids) [] ∧ o = es !! k ∧
    l2 = tl (after k es (inorder <$> kids)) ++ post.

(** The index: its root is found in the mft record, and its other nodes in the index blocks. *)
Record stored_index (T : btree) : Prop := {
  index_root : ∃ a, find_index_root ni m = Ret (0, a, false) ∧ root_index m a = Ret root;
  index_free : ∃ free, mft_bytes_free m = Ret free;
  index_node : ∃ n, stored_node m root n T;
  index_alloc : match T with Node _ _ kids => kids ≠ [] → index_alloc_present ni = true end;
  index_children : match T with Node es fin kids => stored_children (es ++ [fin]) kids end;
  index_rule : ntfs_is_collation_rule_supported (collation_rule ni) = true;
  index_max : max_entries < 2 ^ 31
}.
End stored.

(** ** Functions that only read the index *)

Section reading.
Context {env : IndexEnv} (errors : bool) (m : list Z) (f : contents).
Abbreviation W t := (mk_world t errors m f).

Definition reads {A} (c : io A) (Q : A → Prop) : Prop := ∀ t, ∃ a t', c (W t) = Ret (a, W t') ∧ Q a.

(** The errnos of the kernel. *)
Definition env_err (err : Z) : Prop :=
  ∃ t, (alloc_fails t = true ∧ err = ENOMEM) ∨ (∃ ofs, page_map_errno t ofs = err ∧ err ≠ 0) ∨ (mft_map_errno t = err ∧ err ≠ 0).

Lemma reads_ret {A} (a : A) (Q : A → Prop) : Q a → reads (mret a) Q.
Proof. intros H t. by exists a, t. Qed.

Lemma reads_bind {A B} (c : io A) (k : A → io B) (P : A → Prop) (Q : B → Prop) :
  reads c P → (∀ a, P a → reads (k a) Q) → reads (c ≫= k) Q.
Proof.
  intros Hc Hk t. destruct (Hc t) as (a & t' & E & Ha). destruct (Hk a Ha t') as (b & t'' & E' & Hb).
  exists b, t''. split; [|done]. unfold mbind, io_bind. by rewrite E.
Qed.

Lemma reads_mono {A} (c : io A) (P Q : A → Prop) : reads c P → (∀ a, P a → Q a) → reads c Q.
Proof. intros Hc H t. destruct (Hc t) as (a & t' & E & Ha). exists a, t'. auto. Qed.

Lemma reads_lift {A B} (o : outcome A) a (k : A → io B) (Q : B → Prop) :
  o = Ret a → reads (k a) Q → reads (lift o ≫= k) Q.
Proof. intros -> H. apply (reads_bind _ _ (λ x, x = a)); [|by intros x ->]. intros t. by exists a, t. Qed.

Lemma reads_world {B} (k : world → io B) (Q : B → Prop) :
  (∀ t, reads (k (W t)) Q) → reads (get_world ≫= k) Q.
Proof. intros H t. destruct (H t t) as (b & t' & E & Hb). exists b, t'. by split. Qed.

Lemma reads_request {B} (k : nat → io B) (Q : B → Prop) : (∀ t, reads (k t) Q) → reads (request ≫= k) Q.
Proof. intros H t. destruct (H t (S t)) as (b & t' & E & Hb). exists b, t'. by split. Qed.

Lemma reads_try {A B} (c : io (Z + A)) (k : A → io (Z + B)) (P : Z + A → Prop) (Q : Z + B → Prop) :
  reads c P → (∀ err, P (inl err) → Q (inl err)) → (∀ a, P (inr a) → reads (k a) Q) → reads (try c k) Q.
Proof.
  intros Hc Herr Hk. apply (reads_bind _ _ P); [done|]. intros [err|a] H; [|by apply Hk]. apply reads_ret. by apply Herr.
Qed.

Lemma reads_then {A B} (c : io (option (Z + A))) (k : A → io (option (Z + B))) (P : Z + A → Prop) (Q : option (Z + B) → Prop) :
  reads c (λ r, match r with None => False | Some r => P r end) → (∀ err, P (inl err) → Q (Some (inl err))) →
  (∀ a, P (inr a) → reads (k a) Q) → reads (then_ c k) Q.
Proof.
  intros Hc Herr Hk. eapply reads_bind; [apply Hc|]. intros [[err|a]|] H; [|by apply Hk|done]. apply reads_ret. by apply Herr.
Qed.

Lemma reads_once {A} (c : io (Z + A)) (P : Z + A → Prop) :
  reads c P → reads (once c) (λ r, match r with None => False | Some r => P r end).
Proof. intros H. eapply reads_bind; [apply H|]. intros r Hr. by apply reads_ret. Qed.

(** A failed request. *)
Lemma reads_alloc {A} (k : io (Z + A)) t (Q : Z + A → Prop) :
  (∀ err, env_err err → Q (inl err)) → reads k Q → reads (if alloc_fails t then fail ENOMEM else k) Q.
Proof. intros H Hk. destruct (alloc_fails t) eqn:E; [|done]. apply reads_ret, H. exists t. by left. Qed.
End reading.

(** ** The nodes of a path *)

Section walk.
Context {env : IndexEnv} (ni : index_inode) (max_entries : Z) (root : nat) (m : list Z) (f : contents) (errors : bool).
Abbreviation reads := (reads errors m f).
Abbreviation stored_node := (stored_node ni max_entries).
Abbreviation describes := (describes ni max_entries m f).
Abbreviation block_context := (block_context ni f).
Abbreviation root_fields := (root_fields ni m).
Abbreviation stored_block := (stored_block ni max_entries f).
Abbreviation path_to := (path_to ni max_entries root m f).
Abbreviation at_entry := (at_entry ni max_entries root m f).
Abbreviation buf c := (if ic_is_root c then m else page_bytes f (ic_upl_ofs c)).

Lemma node_flags b index n t : stored_node b index n t → rd b (index + ih_flags) = Ret (get8 (n_head n) ih_flags).
Proof.
  intros [<- <- Hok _ _]. pose proof (node_head _ _ Hok). unfold node_bytes. rewrite <- !(assoc_L (++)). apply rd_part. in_entry.
Qed.

Lemma node_head32 b index n t k : stored_node b index n t → (k + 4 ≤ 16)%nat → le32_at b (index + k) = Ret (get32 (n_head n) k).
Proof.
  intros [<- <- Hok _ _] Hk. pose proof (node_head _ _ Hok). unfold node_bytes. rewrite <- !(assoc_L (++)). apply le32_part. lia.
Qed.

Lemma node_entry b index n es fin kids k e :
  stored_node b index n (Node es fin kids) → (es ++ [fin]) !! k = Some e →
  entry_ok e ∧ is_node e = bool_decide (kids ≠ []) ∧
  ∃ p q, b = p ++ e ++ q ∧ offsets (node_first n) (node_all n) !! k = Some (length p).
Proof.
  intros [<- _ Hok _ (<- & <- & _ & _ & Hnode)] He. split; [|split].
  - destruct Hok as [_ _ _ _ He1 [He2 _]]. apply list_elem_of_lookup_2 in He. apply elem_of_app in He as [He|He].
    + rewrite list.Forall_forall in He1. by apply He1.
    + apply list_elem_of_singleton in He as ->. done.
  - exact (Forall_lookup_1 _ _ _ _ Hnode He).
  - apply (node_entry_at (n_pre n ++ n_head n ++ n_gap n) (node_all n) (n_rest n) k e He).
Qed.

Lemma get_entries_reads c n t :
  stored_node (buf c) (ic_index c) n t → ic_is_locked c = true → ic_max_entries c = max_entries →
  (ic_is_root c = false → match t with Node es _ kids => kids = [] → es ≠ [] end) →
  reads (ntfs_index_get_entries ni c) (λ r, match r with
    | inl err => env_err err
    | inr c' => c' = set_entries (offsets (node_first n) (node_all n)) c end).
Proof.
  intros Hn Hl Hmax Hleaf. unfold ntfs_index_get_entries. rewrite Hl. cbn [negb]. apply reads_request. intros t1.
  apply reads_alloc; [done|]. apply reads_world. intros t2. change (node_buf _ c) with (buf c).
  apply reads_lift with (Some (offsets (node_first n) (node_all n))).
  { destruct Hn as [<- <- Hok Hm _]. rewrite Hmax. by apply gather_entries_spec. }
  eapply reads_lift; [by eapply node_flags|]. rewrite length_offsets.
  destruct (_ && _ && _) eqn:E; [|by apply reads_ret]. exfalso.
  apply andb_prop in E as [[E1%Z.ltb_lt E2%negb_true_iff]%andb_prop E3%negb_true_iff].
  destruct t as [es fin kids]. specialize (Hleaf E2). destruct Hn as [_ _ _ _ (<- & <- & _ & Hf & _)]. rewrite E3 in Hf.
  symmetry in Hf. apply bool_decide_eq_false in Hf. apply dec_stable in Hf. unfold node_all in E1. rewrite length_app in E1. cbn in E1.
  apply (Hleaf Hf). apply nil_length_inv. lia.
Qed.

(** The entry of a context that is positioned. *)
Lemma positioned_entry c k es fin kids :
  describes c (Node es fin kids) → entry_is c k →
  (k ≤ length es)%nat ∧ ∃ e, (es ++ [fin]) !! k = Some e ∧ entry_ok e ∧ is_node e = bool_decide (kids ≠ []) ∧
    ∃ p q, buf c = p ++ e ++ q ∧ ic_entry c = length p.
Proof.
  intros [(n & Hn & Hes) _ _ _ _] [Hk He]. assert (k < length (es ++ [fin]))%nat as Hlt.
  { rewrite Hes in He. apply lookup_lt_Some in He. rewrite length_offsets in He. by destruct Hn as [_ _ _ _ (<- & <- & _)]. }
  split; [rewrite length_app in Hlt; cbn in Hlt; lia|]. destruct (lookup_lt_is_Some_2 _ _ Hlt) as [e Hent]. exists e. split; [done|].
  destruct (node_entry _ _ _ _ _ _ _ _ Hn Hent) as (Hok & Hnode & p & q & Hb & Ho). split; [done|]. split; [done|].
  exists p, q. split; [done|]. rewrite Hes in He. congruence.
Qed.

Lemma goto_entry_spec c k es fin kids :
  describes c (Node es fin kids) → (k ≤ length es)%nat →
  ∃ ie, goto_entry (Z.of_nat k) c = Ret (set_entry ie (Z.of_nat k) c) ∧ entry_is (set_entry ie (Z.of_nat k) c) k.
Proof.
  intros [(n & Hn & Hes) _ _ _ _] Hk. destruct (lookup_lt_is_Some_2 (ic_entries c) k) as [ie Hie].
  { rewrite Hes, length_offsets. destruct Hn as [_ _ _ _ (<- & <- & _)]. unfold node_all. rewrite length_app. cbn. lia. }
  exists ie. unfold goto_entry. rewrite Nat2Z.id, (rd_Ret _ _ _ Hie). by split.
Qed.

(** The node at the head of a path may be replaced by a context with the same node. *)
Lemma path_to_head T c c2 up t pre post :
  path_to T (c :: up) t pre post → describes c2 t → ic_is_root c2 = ic_is_root c → ic_index c2 = ic_index c →
  (ic_is_root c = false → ∀ v, block_context c v → block_context c2 v) → (ic_is_root c = true → root_fields c → root_fields c2) →
  path_to T (c2 :: up) t pre post.
Proof.
  intros H Hd Hr Hi Hbc Hrf. inversion H; subst; [constructor; try congruence; by apply Hrf|]. eapply path_down; try done; [congruence|]. by apply Hbc.
Qed.

Lemma path_to_describes T c up t pre post : path_to T (c :: up) t pre post → describes c t.
Proof. by inversion 1. Qed.

(** The entries of the tree, by the subtree of a path. *)
Lemma path_to_inorder T p t pre post : path_to T p t pre post → inorder T = pre ++ inorder t ++ post.
Proof.
  induction 1 as [c|c c' up k es fin kids kid e pre post Hp IH Hk Hkid Hl Hd Hr He Hbc]; [by rewrite app_nil_r|].
  rewrite IH. cbn [inorder]. destruct (positioned_entry c' k es fin kids) as [Hle _]; [by eapply path_to_describes|done|].
  rewrite (interleave_split k) by done. rewrite <- !(assoc_L (++)). do 3 f_equal.
  rewrite nth_lookup, list_lookup_fmap, Hkid. done.
Qed.

Lemma after_option {A} k (es : list A) ls : after k es ls = option_list (es !! k) ++ tl (after k es ls).
Proof.
  destruct (es !! k) as [e|] eqn:He; cbn; [by rewrite (after_cons _ _ _ _ He)|]. apply lookup_ge_None in He.
  revert es ls He. induction k as [|k IH]; intros [|x es] ls; cbn; try done; [lia|]. intros H. apply IH. lia.
Qed.

Lemma at_entry_inorder T p l1 o l2 : at_entry T p l1 o l2 → inorder T = l1 ++ option_list o ++ l2.
Proof.
  intros (c & up & k & es & fin & kids & pre & post & -> & Hp & Hk & _ & -> & -> & ->).
  rewrite (path_to_inorder _ _ _ _ _ Hp). cbn [inorder].
  destruct (positioned_entry c k es fin kids) as [Hle _]; [by eapply path_to_describes|done|].
  rewrite (interleave_split k) by done. rewrite (after_option k es _) at 1. by rewrite <- !(assoc_L (++)).
Qed.

(** The bytes of the entry are where the context points to. *)
Lemma at_entry_bytes T p l1 e l2 :
  at_entry T p l1 (Some e) l2 → ∃ c up p0 q0, p = c :: up ∧ buf c = p0 ++ e ++ q0 ∧ ic_entry c = length p0.
Proof.
  intros (c & up & k & es & fin & kids & pre & post & -> & Hp & Hk & _ & _ & He & _). exists c, up.
  destruct (positioned_entry c k es fin kids) as (_ & e' & He' & _ & _ & p0 & q0 & Hb & Hi); [by eapply path_to_describes|done|].
  exists p0, q0. rewrite lookup_app_l in He' by (by eapply lookup_lt_Some). split; [done|]. split; [congruence|done].
Qed.

(** ** Moving down and up *)

Lemma new_block_context_reads kid v :
  stored_block kid v →
  reads (new_block_context ni max_entries v (block_pos ni v)) (λ r, match r with
    | inl err => env_err err
    | inr c => describes c kid ∧ ic_is_root c = false ∧ ic_is_locked c = true ∧ ic_is_match c = false ∧ block_context c v end).
Proof.
  destruct kid as [es fin kids]. intros Hb. pose proof (stored_block_children _ _ _ _ _ _ _ Hb) as Hkids.
  destruct Hb as (_ & Hleaf & Hcheck & (n & Hn) & _). unfold new_block_context. apply reads_world. intros t1.
  eapply reads_lift; [exact Hcheck|]. cbn [negb]. apply reads_request. intros t2. apply reads_alloc; [done|].
  eapply reads_lift; [apply (node_head32 _ _ _ _ _ Hn); in_entry|]. eapply reads_lift; [apply (node_head32 _ _ _ _ _ Hn); in_entry|].
  eapply reads_mono; [eapply get_entries_reads; [exact Hn|done..]|]. intros [err|c]; [done|]. intros ->.
  split; [split; try done; by exists n|]. do 3 (split; [done|]). split; [done|done|done|]. eexists _, _.
  split; [apply (node_head32 _ _ _ _ _ Hn); in_entry|]. split; [apply (node_head32 _ _ _ _ _ Hn); in_entry|done].
Qed.

Lemma child_vcn_spec p e q : entry_ok e → child_vcn (p ++ e ++ q) (length p) = Ret (e_vcn e).
Proof.
  intros [_ Hl Hh _]. unfold child_vcn. entry_fields. rewrite Hl.
  replace (Z.to_nat (Z.of_nat (length p) + Z.of_nat (length e) - 8)) with (length p + (length e - 8))%nat by lia.
  rewrite le64_part by lia. done.
Qed.

(** The context that results is at the bottom of the path; its entry is not set yet. *)
Lemma descend_reads T c up k es fin kids kid pre post :
  path_to T (c :: up) (Node es fin kids) pre post → entry_is c k → ic_is_locked c = true → kids !! k = Some kid →
  reads (ntfs_index_descend_into_child_node ni (c :: up)) (λ r, match r with
    | inl err => env_err err
    | inr p => ∃ c', p = c' :: set_locked false c :: up ∧ ic_is_locked c' = true ∧ ic_is_match c' = false ∧
        path_to T p kid (pre ++ before k es (inorder <$> kids)) (after k es (inorder <$> kids) ++ post) end).
Proof.
  intros Hp Hk Hl Hkid. pose proof (path_to_describes _ _ _ _ _ _ Hp) as Hd.
  destruct (positioned_entry _ _ _ _ _ Hd Hk) as (Hle & e & He & Hok & Hnode & p & q & Hb & Hie).
  pose proof (entry_header _ Hok). assert (kids ≠ []) as Hne by (by intros ->). rewrite bool_decide_eq_true_2 in Hnode by done.
  cbn [ntfs_index_descend_into_child_node]. rewrite Hl. cbn [negb]. apply reads_world. intros t1. change (node_buf _ c) with (buf c). rewrite Hb, Hie.
  eapply reads_lift; [apply le16_part; in_entry|]. fold (e_flags e) (is_node e). rewrite Hnode. cbn [negb].
  destruct Hd as [(n & Hn & Hes) Hmax Halloc Hlf Hkids]. rewrite <- Hb. eapply reads_lift; [by eapply node_flags|].
  assert (has (get8 (n_head n) ih_flags) INDEX_NODE = true) as ->.
  { destruct Hn as [_ _ _ _ (_ & _ & _ & -> & _)]. by rewrite bool_decide_eq_true_2. }
  cbn [negb]. rewrite Hb. eapply reads_lift; [by apply child_vcn_spec|]. pose proof (Hkids k e kid He Hkid) as Hkid'.
  assert (0 ≤ e_vcn e) as Hv by (destruct kid; apply Hkid'). rewrite (proj2 (Z.ltb_ge _ _)) by done.
  fold (block_pos ni (e_vcn e)). fold (block_page ni (e_vcn e)).
  assert (ic_is_root c && negb (index_alloc_present ni) = false) as ->.
  { destruct (ic_is_root c) eqn:Hr; [|done]. by rewrite (Halloc eq_refl Hne). }
  apply reads_bind with (λ err, err = 0 ∨ env_err err).
  { unfold get_page. destruct (negb _ && _); [apply reads_ret; by left|]. apply reads_request. intros t2. apply reads_ret.
    destruct (decide (page_map_errno t2 (block_page ni (e_vcn e)) = 0)); [by left|right]. exists t2. right. left. by eexists. }
  intros err Herr. destruct (Z.eqb_spec err 0) as [-> |]; cbn [negb]; [|apply reads_ret; tauto].
  rewrite Hmax. eapply reads_try; [by apply new_block_context_reads|done|]. intros c' (Hd' & Hr' & Hl' & Hm' & Hbc'). apply reads_ret.
  exists c'. do 3 (split; [done|]). eapply path_down; try done.
  eapply path_to_head; [done|by split; [exists n|..]|done|done| |done]. intros _ v [? ? ? ?]. by split.
Qed.

Lemma map_root_found a :
  find_index_root ni m = Ret (0, a, false) →
  reads (map_index_root ni) (λ r, match r with inl err => env_err err | inr (err, a') => err = 0 ∧ a' = a end).
Proof.
  intros Hfind. unfold map_index_root. apply reads_request. intros t1.
  destruct (Z.eqb_spec (mft_map_errno t1) 0) as [E|E]; cbn [negb]; [|apply reads_ret; exists t1; by right; right].
  apply reads_request. intros t2. apply reads_alloc; [done|]. apply reads_world. intros t3. eapply reads_lift; [exact Hfind|].
  eapply reads_bind; [by apply reads_ret with (Q := λ _, True)|]. intros _ _. by apply reads_ret.
Qed.

Section root.
Context (T : btree) (HT : stored_index ni max_entries root m f T).

Lemma map_root_reads :
  reads (map_index_root ni) (λ r, match r with
    | inl err => env_err err
    | inr (err, a) => err = 0 ∧ root_index m a = Ret root ∧ find_index_root ni m = Ret (0, a, false) end).
Proof.
  destruct (index_root _ _ _ _ _ _ HT) as (a & Hfind & Hroot). eapply reads_mono; [by apply map_root_found|]. intros [err|[err a']]; [done|]. by intros [-> ->].
Qed.

Lemma move_context_describes c t a free :
  describes c t → describes (move_context a (ic_index c) free c) t ∧
    ic_entries (move_context a (ic_index c) free c) = ic_entries c ∧ ic_entry (move_context a (ic_index c) free c) = ic_entry c.
Proof.
  intros [(n & Hn & Hes) Hmax Ha Hlf Hk].
  assert (ic_entries (move_context a (ic_index c) free c) = ic_entries c) as E.
  { cbn. rewrite <- (list_fmap_id (ic_entries c)) at 2. apply list_fmap_ext. intros i x _. cbn. lia. }
  split; [|split; [done|cbn; lia]]. split; try done. exists n. split; [done|]. by rewrite E.
Qed.

Lemma relock_reads c up t pre post :
  path_to T (c :: up) t pre post → ic_is_locked c = false →
  reads (ntfs_index_ctx_relock ni c) (λ r, match r with
    | inl err => env_err err
    | inr c' => path_to T (c' :: up) t pre post ∧ ic_is_locked c' = true ∧
        ic_entry_nr c' = ic_entry_nr c ∧ ic_entries c' = ic_entries c ∧ ic_entry c' = ic_entry c end).
Proof.
  intros Hp Hl. pose proof (path_to_describes _ _ _ _ _ _ Hp) as Hd. unfold ntfs_index_ctx_relock. rewrite Hl.
  destruct (ic_is_root c) eqn:Hr.
  - eapply reads_try; [exact map_root_reads|done|]. intros [err a] (-> & Ha & Hfa). cbn [Z.eqb ENOENT negb]. apply reads_world. intros t1.
    destruct (index_free _ _ _ _ _ _ HT) as [free Hfree]. eapply reads_lift; [exact Hfree|]. eapply reads_lift; [exact Ha|].
    apply reads_ret. assert (root = ic_index c) as Hi by (inversion Hp; congruence).
    replace (move_context a root free c) with (move_context a (ic_index c) free c) by (by rewrite Hi).
    destruct (move_context_describes c t a free Hd) as (Hd' & E1 & E2). split; [|done]. eapply path_to_head; try done. by rewrite Hr.
  - apply reads_request. intros t1. destruct (Z.eqb_spec (page_map_errno t1 (ic_upl_ofs c)) 0); cbn [negb].
    + apply reads_ret. split; [|done]. eapply path_to_head; [done| |done|done|by intros _ v [? ? ? ?]|done]. destruct Hd as [Hn ? ? ? ?]. by split.
    + apply reads_ret. exists t1. right. left. by eexists.
Qed.

(** ** Sorted trees *)

Lemma sublist_interleave {A} (es : list A) ls : sublist es (interleave es ls).
Proof.
  revert ls. induction es as [|e es IH]; intros ls; cbn; [apply sublist_nil_l|].
  apply sublist_inserts_l. constructor. apply IH.
Qed.

Lemma sublist_sorted {A} (R : A → A → Prop) l1 l2 : sublist l1 l2 → StronglySorted R l2 → StronglySorted R l1.
Proof.
  induction 1 as [|x l1 l2 Hl IH|x l1 l2 Hl IH]; [done| |]; intros [Hs Hx]%StronglySorted_inv; [|by apply IH].
  constructor; [by apply IH|]. apply list.Forall_forall. intros y Hy. rewrite list.Forall_forall in Hx. apply Hx.
  eapply elem_of_submseteq; [done|by apply sublist_submseteq].
Qed.

Lemma sorted_middle {A} (R : A → A → Prop) l1 x l2 :
  StronglySorted R (l1 ++ x :: l2) → Forall (λ y, R y x) l1 ∧ Forall (R x) l2.
Proof.
  induction l1 as [|y l1 IH]; cbn; intros [Hs Hx]%StronglySorted_inv; [done|]. destruct (IH Hs) as [H1 H2]. split; [|done].
  constructor; [|done]. apply list.Forall_app in Hx as [_ Hx]. by apply list.Forall_cons in Hx as [Hx _].
Qed.

Section key.
Context (key match_key : list Z) (match_key_len : Z).
Hypothesis (Hrule : rule_ok ni) (Hkey : index_key ni key) (Hmatch : match_key_of ni key = Ret (match_key, match_key_len)).
Hypothesis (Hkeys : Forall (λ e, index_key ni (e_key e)) (inorder T)) (Hsorted : StronglySorted (entry_lt ni) (inorder T)).
Abbreviation cmp := (entry_cmp ni key).

Lemma cmp_before l1 x l2 : inorder T = l1 ++ x :: l2 → 0 ≤ cmp x → Forall (λ e, 0 < cmp e) l1.
Proof.
  intros E Hx. rewrite E in Hsorted. destruct (sorted_middle _ _ _ _ Hsorted) as [H _]. eapply list.Forall_impl; [exact H|].
  intros e He. unfold entry_lt, entry_cmp in *. pose proof (key_cmp_antisym (vol_upcase ni) (collation_rule ni) (e_key e) key).
  pose proof (key_cmp_antisym (vol_upcase ni) (collation_rule ni) (e_key x) key).
  pose proof (key_cmp_trans_lt _ _ (e_key e) (e_key x) key He ltac:(lia)). lia.
Qed.

Lemma cmp_after l1 x l2 : inorder T = l1 ++ x :: l2 → cmp x ≤ 0 → Forall (λ e, cmp e < 0) l2.
Proof.
  intros E Hx. rewrite E in Hsorted. destruct (sorted_middle _ _ _ _ Hsorted) as [_ H]. eapply list.Forall_impl; [exact H|].
  intros e He. by eapply key_cmp_trans_lt'.
Qed.

(** The entries of one node of the tree. *)
Lemma node_sorted p es fin kids pre post :
  path_to T p (Node es fin kids) pre post →
  Forall (λ e, index_key ni (e_key e)) es ∧ StronglySorted (entry_lt ni) es.
Proof.
  intros Hp%path_to_inorder. cbn [inorder] in Hp. assert (sublist es (inorder T)) as Hs.
  { rewrite Hp. apply sublist_inserts_l, sublist_inserts_r, sublist_interleave. }
  split; [|by eapply sublist_sorted]. apply list.Forall_forall. intros e He. rewrite list.Forall_forall in Hkeys. apply Hkeys.
  eapply elem_of_submseteq; [done|by apply sublist_submseteq].
Qed.

(** Where a lookup ends. *)
Definition lookup_end (hit : bool) (p : path) : Prop :=
  ∃ l1 o l2, at_entry T p l1 o l2 ∧ Forall (λ e, 0 < cmp e) l1 ∧ Forall (λ e, cmp e < 0) l2 ∧
    if hit then (∃ e, o = Some e ∧ cmp e = 0) ∧ ∃ c up, p = c :: up ∧ ic_is_match c = true
    else Forall (λ e, cmp e < 0) (option_list o) ∧ ∃ c up es fin, p = c :: up ∧ describes c (Node es fin []).

Lemma node_search c up es fin kids pre post :
  path_to T (c :: up) (Node es fin kids) pre post →
  ∃ hit k, ntfs_index_lookup_in_node ni (buf c) (ic_entries c) match_key match_key_len key = Ret (hit, Z.of_nat k) ∧
    (k ≤ length es)%nat ∧
    if hit then ∃ e, es !! k = Some e ∧ cmp e = 0
    else (∀ e, es !! k = Some e → cmp e < 0) ∧ (∀ j e, k = S j → es !! j = Some e → 0 < cmp e).
Proof.
  intros Hp. destruct (node_sorted _ _ _ _ _ _ Hp) as [Hk Hs]. destruct (path_to_describes _ _ _ _ _ _ Hp) as [(n & Hn & Hes) _ _ _ _].
  rewrite Hes. destruct Hn as [<- _ Hok Hm (E & _ & _)]. subst es. pose proof (index_max _ _ _ _ _ _ HT) as Hmax.
  destruct (lookup_in_node_end ni key match_key match_key_len Hrule Hkey Hmatch (n_pre n ++ n_head n ++ n_gap n) (n_rest n) (n_entries n) (n_end n))
    as ([hit k] & Heq & l1 & l2 & E & Hr & H1 & H2); [|done| |].
  - apply list.Forall_and. split; [|done]. eapply list.Forall_impl; [apply (node_entries _ _ Hok)|]. by intros e (? & _).
  - unfold node_all in Hm. rewrite length_app in Hm. cbn in Hm. lia.
  - cbn in Hr, H2. subst k. exists hit, (length l1). split; [exact Heq|]. rewrite E, length_app. split; [lia|]. destruct hit.
    + destruct H2 as (e & l & -> & He & _). exists e. by rewrite list_lookup_middle.
    + split.
      * intros e He. rewrite lookup_app_r, Nat.sub_diag in He by lia. exact (Forall_lookup_1 _ _ _ _ H2 He).
      * intros j e Hj He. rewrite lookup_app_l in He by lia. exact (Forall_lookup_1 _ _ _ _ H1 He).
Qed.

(** The search in a node splits the whole sequence. *)
Lemma search_splits c up es fin kids pre post k :
  path_to T (c :: up) (Node es fin kids) pre post → (k ≤ length es)%nat →
  (∀ e, es !! k = Some e → cmp e < 0) → (∀ j e, k = S j → es !! j = Some e → 0 < cmp e) →
  Forall (λ e, 0 < cmp e) pre → Forall (λ e, cmp e < 0) post →
  Forall (λ e, 0 < cmp e) (pre ++ before k es (inorder <$> kids)) ∧ Forall (λ e, cmp e < 0) (after k es (inorder <$> kids) ++ post).
Proof.
  intros Hp Hk Hneg Hpos Hpre Hpost. pose proof (path_to_inorder _ _ _ _ _ Hp) as E. cbn [inorder] in E.
  rewrite (interleave_split k) in E by done. set (ls := inorder <$> kids) in *. split.
  - destruct k as [|j]; [cbn; by rewrite app_nil_r|]. destruct (lookup_lt_is_Some_2 es j) as [e He]; [lia|].
    pose proof (Hpos j e eq_refl He) as Hc. rewrite (before_snoc _ _ _ _ He) in *. rewrite <- !(assoc_L (++)) in E.
    rewrite !(assoc_L (++)). apply list.Forall_app. split; [|by constructor].
    apply (cmp_before _ e (nth (S j) ls [] ++ after (S j) es ls ++ post)); [|lia]. by rewrite E, <- !(assoc_L (++)).
  - destruct (decide (k = length es)) as [-> |]; [by rewrite after_end|]. destruct (lookup_lt_is_Some_2 es k) as [e He]; [lia|].
    pose proof (Hneg e He) as Hc. rewrite (after_cons _ _ _ _ He) in *. cbn [app]. constructor; [done|].
    apply (cmp_after (pre ++ before k es ls ++ nth k ls []) e); [|lia]. rewrite E. by app_norm.
Qed.

Lemma lookup_loop_reads fuel c up t pre post :
  path_to T (c :: up) t pre post → ic_is_locked c = true → (height t ≤ fuel)%nat →
  Forall (λ e, 0 < cmp e) pre → Forall (λ e, cmp e < 0) post →
  reads (lookup_loop ni fuel match_key match_key_len key (c :: up)) (λ r, match r with
    | None => False
    | Some (inl err) => env_err err
    | Some (inr (hit, p)) => lookup_end hit p end).
Proof.
  revert c up t pre post. induction fuel as [|fuel IH]; intros c up [es fin kids] pre post Hp Hl Hfuel Hpre Hpost; [cbn in Hfuel; lia|].
  cbn [lookup_loop]. apply reads_world. intros t1. change (node_buf _ c) with (buf c).
  pose proof (path_to_describes _ _ _ _ _ _ Hp) as Hd.
  destruct (node_search _ _ _ _ _ _ _ Hp) as (hit & k & Hs & Hk & Hhit). eapply reads_lift; [exact Hs|].
  destruct (goto_entry_spec _ k _ _ _ Hd Hk) as (ie & Hg & He). eapply reads_lift; [exact Hg|]. set (c2 := set_entry ie (Z.of_nat k) c) in *.
  assert (path_to T (c2 :: up) (Node es fin kids) pre post) as Hp2.
  { eapply path_to_head; [exact Hp| |done|done|by intros _ v [? ? ? ?]|done]. destruct Hd as [? ? ? ? ?]. by split. }
  destruct hit.
  - destruct Hhit as (e & He' & Hc). apply reads_ret. pose proof (path_to_inorder _ _ _ _ _ Hp) as E. cbn [inorder] in E.
    rewrite (interleave_split k), (after_cons _ _ _ _ He') in E by done. eexists _, _, _. split.
    { exists (set_match true c2), up, k, es, fin, kids, pre, post. split; [done|]. split; [|by split_and!].
      eapply path_to_head; [exact Hp2| |done|done|by intros _ v [? ? ? ?]|done]. destruct Hd as [? ? ? ? ?]. by split. }
    split; [|split; [|split; [by exists e|by eexists _, _]]].
    2: { rewrite (after_cons _ _ _ _ He'). cbn [tl]. apply (cmp_after (pre ++ before k es (inorder <$> kids) ++ nth k (inorder <$> kids) []) e); [|lia].
      rewrite E. by app_norm. }
    set (ls := inorder <$> kids) in *. apply (cmp_before _ e ((nth (S k) ls [] ++ after (S k) es ls) ++ post)); [|lia].
    rewrite E. by app_norm.
  - destruct Hhit as [Hneg Hpos]. destruct (search_splits _ _ _ _ _ _ _ k Hp Hk Hneg Hpos Hpre Hpost) as [Hl1 Hl2].
    destruct (positioned_entry c2 k es fin kids) as (_ & e & Hent & Hok & Hnode & p & q & Hb & Hie); [by eapply path_to_describes|done|].
    pose proof (entry_header _ Hok). change (node_buf _ c2) with (buf c2). rewrite Hb, Hie.
    eapply reads_lift; [apply le16_part; in_entry|]. fold (e_flags e) (is_node e). rewrite Hnode.
    destruct (decide (kids = [])) as [-> |Hne].
    { rewrite bool_decide_eq_false_2 by auto. apply reads_ret. eexists _, _, _. split.
      { exists c2, up, k, es, fin, [], pre, post. by split_and!. }
      replace (nth k (inorder <$> []) []) with (@nil (list Z)) by (by destruct k). rewrite app_nil_r. split; [done|].
      rewrite (after_option k) in Hl2. rewrite <- (assoc_L (++)), list.Forall_app in Hl2. destruct Hl2 as [Ho Hl2]. split; [done|]. split; [done|].
      exists c2, up, es, fin. split; [done|]. by eapply path_to_describes. }
    rewrite bool_decide_eq_true_2 by done. cbn [negb].
    assert (∃ kid, kids !! k = Some kid) as [kid Hkid].
    { apply lookup_lt_is_Some_2. destruct Hd as [(n & Hn & _) _ _ _ _]. destruct Hn as [_ _ _ _ (_ & _ & [?| ->] & _)]; [done|lia]. }
    eapply reads_then; [apply reads_once; eapply descend_reads; [exact Hp2|done|done|exact Hkid]|done|].
    intros p' (c' & -> & Hl' & _ & Hp'). eapply IH; [exact Hp'|done| |done..].
    pose proof (height_kid es fin kids k kid Hkid). lia.
Qed.
End key.

Lemma lookup_init_reads key_len :
  index_max_entries ni m key_len = Ret max_entries →
  reads (ntfs_index_lookup_init ni ntfs_index_ctx_init key_len) (λ r, match r with
    | inl err => env_err err
    | inr c => path_to T [c] T [] [] ∧ ic_is_locked c = true end).
Proof.
  intros Hmax. unfold ntfs_index_lookup_init. cbn [ic_max_entries ntfs_index_ctx_init Z.eqb negb].
  rewrite (index_rule _ _ _ _ _ _ HT). cbn [negb]. eapply reads_try; [exact map_root_reads|done|]. intros [err a] (-> & Ha & Hfa).
  cbn [Z.eqb ENOENT negb]. apply reads_world. intros t1. eapply reads_lift; [exact Hmax|]. eapply reads_lift; [exact Ha|].
  destruct (index_node _ _ _ _ _ _ HT) as [n Hn].
  eapply reads_try; [eapply get_entries_reads; [exact Hn|done..]|done|]. intros c ->.
  destruct (index_free _ _ _ _ _ _ HT) as [free Hfree]. eapply reads_lift; [exact Hfree|]. apply reads_ret. split; [|done].
  apply path_root; [|done..]. split; [by exists n|done| |by destruct T|].
  - pose proof (index_alloc _ _ _ _ _ _ HT). by destruct T.
  - apply (index_children _ _ _ _ _ _ HT).
Qed.

Lemma match_key_exists key :
  rule_ok ni → index_key ni key → ∃ match_key match_key_len, match_key_of ni key = Ret (match_key, match_key_len).
Proof.
  intros [Hr _] Hk. unfold match_key_of. destruct (is_view ni) eqn:Hv; cbn [negb]; [by eexists _, _|].
  destruct (filename_key ni key (Hr eq_refl) Hk) as [Hl _]. rewrite rd_get by in_entry. by eexists _, _.
Qed.

(** C5: [ntfs_index_lookup] of a valid key in an index whose entries have valid keys and are sorted, for
    any collation rule but COLLATION_BINARY and COLLATION_NTOFS_SID ([rule_ok]), returns, whatever the
    shape of the tree and whatever requests the kernel refuses: either with an errno of the kernel, or with
    the answer whether some entry has the key, in which case the path leads to this entry, and
    otherwise to the place in a leaf between all the entries with smaller keys and all the ones with
    greater keys.  The number of rounds is at most the height of the tree. *)
Theorem ntfs_index_lookup_correct key fuel :
  rule_ok ni → index_key ni key → key ≠ [] →
  Forall (λ e, index_key ni (e_key e)) (inorder T) → StronglySorted (entry_lt ni) (inorder T) →
  index_max_entries ni m (Z.of_nat (length key)) = Ret max_entries → (height T ≤ fuel)%nat →
  reads (ntfs_index_lookup ni fuel key) (λ r, match r with
    | None => False
    | Some (inl err) => env_err err
    | Some (inr (hit, p)) =>
        (hit = true ↔ Exists (λ e, entry_cmp ni key e = 0) (inorder T)) ∧ lookup_end key hit p end).
Proof.
  intros Hrule Hkey Hne Hkeys Hsorted Hmax Hfuel. unfold ntfs_index_lookup.
  rewrite (proj2 (Z.leb_gt _ _)) by (destruct key; cbn; [done|lia]).
  destruct (match_key_exists key Hrule Hkey) as (mk & mlen & Hmk). eapply reads_lift; [exact Hmk|].
  eapply reads_then; [apply reads_once, lookup_init_reads, Hmax|done|]. intros c [Hp Hl].
  eapply reads_mono; [eapply lookup_loop_reads; try done|]. intros [[err|[hit p]]|]; [done| |done]. intros Hend. split; [|done].
  destruct Hend as (l1 & o & l2 & Hat%at_entry_inorder & H1 & H2 & H3). rewrite Hat, !Exists_app. destruct hit; split; try done.
  - intros _. right. left. destruct H3 as [(e & -> & He) _]. by constructor.
  - destruct H3 as [H3 _]. rewrite list.Forall_forall in H1, H2, H3.
    intros [H|[H|H]]; exfalso; apply list.Exists_exists in H as (e & Hin & He);
      [specialize (H1 e Hin)|specialize (H3 e Hin)|specialize (H2 e Hin)]; cbv beta in *; lia.
Qed.

(** ** Walks over the entries *)

Lemma path_to_height p t pre post : path_to T p t pre post → (height t ≤ height T)%nat.
Proof.
  induction 1 as [c|c c' up k es fin kids kid e pre post Hp IH Hk Hkid Hl Hd Hr He Hbc]; [done|].
  pose proof (height_kid es fin kids k kid Hkid). lia.
Qed.

(** The flags of the entry tell whether the node has children. *)
Lemma entry_flags_reads {B} c up k es fin kids pre post (cont : Z → io B) Q :
  path_to T (c :: up) (Node es fin kids) pre post → entry_is c k →
  (∀ flags, has flags INDEX_ENTRY_NODE = bool_decide (kids ≠ []) → reads (cont flags) Q) →
  reads (lift (le16_at (buf c) (ic_entry c + ie_flags)) ≫= cont) Q.
Proof.
  intros Hp Hk Hc. pose proof (path_to_describes _ _ _ _ _ _ Hp) as Hd.
  destruct (positioned_entry _ _ _ _ _ Hd Hk) as (_ & e & He & Hok & Hnode & p & q & Hb & Hie). pose proof (entry_header _ Hok).
  rewrite Hb, Hie. eapply reads_lift; [apply le16_part; in_entry|]. by apply Hc.
Qed.

Lemma kid_exists c k es fin kids : describes c (Node es fin kids) → kids ≠ [] → (k ≤ length es)%nat → ∃ kid, kids !! k = Some kid.
Proof.
  intros [(n & Hn & _) _ _ _ _] Hne Hk. apply lookup_lt_is_Some_2. destruct Hn as [_ _ _ _ (_ & _ & [?| ->] & _)]; [done|lia].
Qed.

Lemma set_entry_path c up t pre post ie nr : path_to T (c :: up) t pre post → path_to T (set_entry ie nr c :: up) t pre post.
Proof.
  intros Hp. eapply path_to_head; [exact Hp| |done|done|by intros _ v [? ? ? ?]|done]. apply path_to_describes in Hp. destruct Hp as [? ? ? ? ?]. by split.
Qed.

Lemma set_match_path c up t pre post b : path_to T (c :: up) t pre post → path_to T (set_match b c :: up) t pre post.
Proof.
  intros Hp. eapply path_to_head; [exact Hp| |done|done|by intros _ v [? ? ? ?]|done]. apply path_to_describes in Hp. destruct Hp as [? ? ? ? ?]. by split.
Qed.

(** The descent ends at the first entry of a leaf. *)
Definition first_leaf (inner : Prop) (pre : list (list Z)) (r : Z + path) : Prop :=
  match r with
  | inl err => env_err err
  | inr p => ∃ c up es fin post, p = c :: up ∧ path_to T p (Node es fin []) pre post ∧
      entry_is c 0 ∧ ic_is_locked c = true ∧ (inner → es ≠ [])
  end.

Lemma descend_first_reads fuel c up k es fin kids pre post :
  path_to T (c :: up) (Node es fin kids) pre post → entry_is c k → ic_is_locked c = true → (kids = [] → k = 0%nat) →
  (height (Node es fin kids) ≤ fuel)%nat →
  reads (descend_first ni fuel (c :: up)) (λ r, match r with
    | None => False
    | Some r => first_leaf (ic_is_root c = false ∨ kids ≠ []) (pre ++ before k es (inorder <$> kids)) r end).
Proof.
  revert c up k es fin kids pre post. induction fuel as [|fuel IH]; intros c up k es fin kids pre post Hp Hk Hl H0 Hfuel; [cbn in Hfuel; lia|].
  cbn [descend_first]. apply reads_world. intros t1. change (node_buf _ c) with (buf c). eapply entry_flags_reads; [exact Hp|done|].
  intros flags ->. destruct (decide (kids = [])) as [-> |Hne].
  { rewrite bool_decide_eq_false_2 by auto. apply reads_ret. rewrite (H0 eq_refl) in *. exists c, up, es, fin, post. cbn [before].
    rewrite app_nil_r. split_and!; try done. intros [Hr|?]; [|done]. by apply (describes_leaf _ _ _ _ _ _ (path_to_describes _ _ _ _ _ _ Hp)). }
  rewrite bool_decide_eq_true_2 by done. cbn [negb]. pose proof (path_to_describes _ _ _ _ _ _ Hp) as Hd.
  destruct (positioned_entry _ _ _ _ _ Hd Hk) as (Hle & _). destruct (kid_exists _ k _ _ _ Hd Hne Hle) as [kid Hkid].
  eapply reads_then; [apply reads_once; by eapply descend_reads|done|]. intros p (c' & -> & Hl' & _ & Hp'). destruct kid as [es' fin' kids'].
  pose proof (path_to_describes _ _ _ _ _ _ Hp') as Hd'. destruct (goto_entry_spec c' 0 _ _ _ Hd' ltac:(lia)) as (ie & Hg & He).
  eapply reads_lift; [exact Hg|]. pose proof (height_kid es fin kids k _ Hkid).
  eapply reads_mono; [eapply IH; [by apply set_entry_path|done..|lia]|]. intros [[err|p]|]; [done| |done].
  intros (c2 & up2 & es2 & fin2 & post2 & -> & Hp2 & He2 & Hl2 & Hes2). exists c2, up2, es2, fin2, post2. cbn [before] in Hp2.
  rewrite app_nil_r in Hp2. split_and!; try done. intros _. apply Hes2. left. by inversion Hp'.
Qed.

Lemma nr_entries_spec c es fin kids : describes c (Node es fin kids) → nr_entries c = Z.of_nat (length es) + 1.
Proof.
  intros [(n & Hn & Hes) _ _ _ _]. unfold nr_entries. rewrite Hes, length_offsets. destruct Hn as [_ _ _ _ (<- & _)].
  unfold node_all. rewrite length_app. cbn. lia.
Qed.

(** From the end of a subtree the climb leads to the next entry. *)
Lemma climb_spec p t pre post :
  path_to T p t pre post →
  match climb p with
  | None => post = []
  | Some p' => ∃ c up k es fin kids kid pre' post', p' = c :: up ∧ path_to T p' (Node es fin kids) pre' post' ∧ entry_is c k ∧
      ic_is_locked c = false ∧ (k < length es)%nat ∧ kids !! k = Some kid ∧
      pre' ++ before k es (inorder <$> kids) ++ inorder kid = pre ++ inorder t ∧ after k es (inorder <$> kids) ++ post' = post
  end.
Proof.
  induction 1 as [c|c c' up k es fin kids kid e pre post Hp IH Hk Hkid Hl Hd Hr He Hbc]; [done|]. cbn [climb]. rewrite Hr.
  pose proof (path_to_describes _ _ _ _ _ _ Hp) as Hd'. destruct (positioned_entry _ _ _ _ _ Hd' Hk) as (Hle & _).
  rewrite (nr_entries_spec _ _ _ _ Hd'), (proj1 Hk). destruct (Z.eqb_spec (Z.of_nat k) (Z.of_nat (length es) + 1 - 1)) as [E|E].
  - assert (k = length es) as -> by lia. rewrite after_end. cbn [app].
    assert (pre ++ inorder (Node es fin kids) = (pre ++ before (length es) es (inorder <$> kids)) ++ inorder kid) as E'.
    { cbn [inorder]. rewrite (interleave_split (length es)), after_end, app_nil_r, <- (assoc_L (++)) by done.
      by rewrite nth_lookup, list_lookup_fmap, Hkid. }
    rewrite <- E'. exact IH.
  - exists c', up, k, es, fin, kids, kid, pre, post. split_and!; try done; [apply Hk..|lia|]. by rewrite (assoc_L (++)).
Qed.

(** A walk that looks for the position [pos]. *)
Definition position_end (pos : Z) (r : option (Z + path)) : Prop :=
  match r with
  | None => False
  | Some (inl err) => env_err err ∨ (err = ENOENT ∧ Z.of_nat (length (inorder T)) ≤ pos)
  | Some (inr p) => ∃ l1 e l2 c up, at_entry T p l1 (Some e) l2 ∧ Z.of_nat (length l1) = pos ∧ p = c :: up ∧ ic_is_match c = true
  end.

Lemma position_here c up k es fin kids pre post e :
  path_to T (c :: up) (Node es fin kids) pre post → entry_is c k → ic_is_locked c = true → es !! k = Some e →
  position_end (Z.of_nat (length (pre ++ before k es (inorder <$> kids) ++ nth k (inorder <$> kids) []))) (Some (inr (set_match true c :: up))).
Proof.
  intros Hp Hk Hl He. eexists _, e, _, _, up. split; [|done]. exists (set_match true c), up, k, es, fin, kids, pre, post.
  split; [done|]. split; [by apply set_match_path|]. by split_and!.
Qed.

(** The position in a leaf. *)
Lemma position_leaf c up es fin pre post k :
  path_to T (c :: up) (Node es fin []) pre post → entry_is c k → ic_is_locked c = true → (k < length es)%nat →
  position_end (Z.of_nat (length pre + k)) (Some (inr (set_match true c :: up))).
Proof.
  intros Hp Hk Hl Hlt. destruct (lookup_lt_is_Some_2 es k Hlt) as [e He].
  pose proof (position_here c up k es fin [] pre post e Hp Hk Hl He) as H. cbn [fmap list_fmap] in H.
  rewrite before_leaf, (nth_overflow []), app_nil_r, length_app, length_take in H by (cbn; lia). by rewrite Nat.min_l in H by lia.
Qed.

(** Continue at the first ancestor that is not finished. *)
Lemma relock_top_reads c up t pre post :
  path_to T (c :: up) t pre post → ic_is_locked c = false →
  reads (relock_top ni (c :: up)) (λ r, match r with
    | inl err => env_err err
    | inr p => ∃ c', p = c' :: up ∧ path_to T p t pre post ∧ ic_is_locked c' = true ∧ ∀ k, entry_is c k → entry_is c' k end).
Proof.
  intros Hp Hl. cbn [relock_top]. eapply reads_try; [by eapply relock_reads|done|]. intros c' (Hp' & Hl' & E1 & E2 & E3). apply reads_ret.
  exists c'. split_and!; try done. unfold entry_is. intros k. by rewrite E1, E2, E3.
Qed.

Lemma position_bound c up k es fin kids pre post :
  path_to T (c :: up) (Node es fin kids) pre post → entry_is c k →
  (length (pre ++ before k es (inorder <$> kids)) ≤ length (inorder T))%nat.
Proof.
  intros Hp Hk. destruct (positioned_entry c k es fin kids) as [Hle _]; [by eapply path_to_describes|done|].
  rewrite (path_to_inorder _ _ _ _ _ Hp). cbn [inorder]. rewrite (interleave_split k), !length_app by done. lia.
Qed.

Lemma position_loop_reads fuel pos cur c up k es fin kids pre post :
  path_to T (c :: up) (Node es fin kids) pre post → entry_is c k → ic_is_locked c = true → (kids = [] → k = 0%nat) →
  cur = Z.of_nat (length (pre ++ before k es (inorder <$> kids))) → cur ≤ pos →
  Z.of_nat (height T + length (inorder T)) < Z.of_nat fuel + cur →
  reads (position_loop ni fuel pos cur (c :: up)) (position_end pos).
Proof.
  revert cur c up k es fin kids pre post.
  induction fuel as [|fuel IH]; intros cur c up k es fin kids pre post Hp Hk Hl H0 Hcur Hpos Hfuel;
    pose proof (position_bound _ _ _ _ _ _ _ _ Hp Hk) as Hb; [lia|].
  cbn [position_loop]. pose proof (path_to_height _ _ _ _ Hp) as Hh.
  eapply reads_then; [eapply descend_first_reads; try done; lia|by left|].
  intros p (c1 & up1 & es1 & fin1 & post1 & -> & Hp1 & Hk1 & Hl1 & _). pose proof (path_to_describes _ _ _ _ _ _ Hp1) as Hd1.
  rewrite (nr_entries_spec _ _ _ _ Hd1), (proj1 Hk1). set (pre1 := pre ++ before k es (inorder <$> kids)) in *.
  destruct (Z.ltb_spec pos (cur + (Z.of_nat (length es1) + 1) - 1)) as [Hin|Hin].
  - destruct (Z.ltb_spec cur pos) as [Hlt|Hge].
    + rewrite (proj2 (Z.leb_gt _ _)) by lia. replace (Z.of_nat 0 + (pos - cur)) with (Z.of_nat (Z.to_nat (pos - cur))) by lia.
      destruct (goto_entry_spec c1 (Z.to_nat (pos - cur)) _ _ _ Hd1 ltac:(lia)) as (ie & Hg & He). eapply reads_lift; [exact Hg|].
      apply reads_ret. replace pos with (Z.of_nat (length pre1 + Z.to_nat (pos - cur))) at 1 by lia.
      eapply position_leaf; [by apply set_entry_path|done|done|lia].
    + rewrite (proj2 (Z.ltb_ge _ _)) by lia. apply reads_ret. replace pos with (Z.of_nat (length pre1 + 0)) by lia.
      eapply position_leaf; [done|done|done|lia].
  - pose proof (climb_spec _ _ _ _ Hp1) as Hclimb. pose proof (path_to_inorder _ _ _ _ _ Hp1) as Ein. cbn [inorder fmap list_fmap] in Ein, Hclimb.
    rewrite interleave_leaf in Ein, Hclimb. destruct (climb (c1 :: up1)) as [p'|].
    + destruct Hclimb as (c2 & up2 & k2 & es2 & fin2 & kids2 & kid2 & pre2 & post2 & -> & Hp2 & Hk2 & Hl2 & Hlt2 & Hkid2 & E1 & E2).
      eapply reads_then; [apply reads_once; by eapply relock_top_reads|by left|]. intros p (c3 & -> & Hp3 & Hl3 & Hk3).
      specialize (Hk3 _ Hk2). destruct (lookup_lt_is_Some_2 es2 k2 Hlt2) as [e He].
      assert (nth k2 (inorder <$> kids2) [] = inorder kid2) as En by (by rewrite nth_lookup, list_lookup_fmap, Hkid2).
      assert (length (pre2 ++ before k2 es2 (inorder <$> kids2) ++ nth k2 (inorder <$> kids2) []) = length pre1 + length es1)%nat as El.
      { by rewrite En, E1, length_app. }
      destruct (Z.eqb_spec (cur + (Z.of_nat (length es1) + 1) - 1) pos) as [Heq|Hne].
      * apply reads_ret. replace pos with (Z.of_nat (length pre1 + length es1)) by lia. rewrite <- El. by eapply position_here.
      * rewrite (proj1 Hk3). replace (Z.of_nat k2 + 1) with (Z.of_nat (S k2)) by lia. pose proof (path_to_describes _ _ _ _ _ _ Hp3) as Hd3.
        destruct (goto_entry_spec c3 (S k2) _ _ _ Hd3 Hlt2) as (ie & Hg & He3). eapply reads_lift; [exact Hg|].
        eapply IH; [by apply set_entry_path|exact He3|done|by intros ->| |lia|lia].
        rewrite (before_snoc _ _ _ _ He), !(assoc_L (++)), length_app, <- (assoc_L (++)), El. cbn. lia.
    + subst post1. apply reads_ret. right. split; [done|]. rewrite Ein, app_nil_r, length_app. lia.
Qed.

(** C11: [ntfs_index_lookup_by_position] returns, with an errno of the kernel or with the answer: the
    entry with the given number in the sequence of all the entries of the tree from left to right,
    and [ENOENT] only if there are not so many entries.  The number of rounds is at most the height
    of the tree plus the number of its entries. *)
Theorem ntfs_index_lookup_by_position_correct pos key_len fuel :
  0 ≤ pos → index_max_entries ni m key_len = Ret max_entries → (height T + length (inorder T) < fuel)%nat →
  reads (ntfs_index_lookup_by_position ni fuel pos key_len) (position_end pos).
Proof.
  intros Hpos Hmax Hfuel. unfold ntfs_index_lookup_by_position. rewrite (proj2 (Z.ltb_ge _ _)) by lia.
  eapply reads_then; [apply reads_once, lookup_init_reads, Hmax|by left|]. intros c [Hp Hl].
  assert (∃ es fin kids, T = Node es fin kids) as (es & fin & kids & ET) by (destruct T; eauto).
  pose proof (path_to_describes _ _ _ _ _ _ Hp) as Hd. rewrite ET in Hd.
  destruct (goto_entry_spec c 0 es fin kids Hd ltac:(lia)) as (ie & Hg & He). eapply reads_lift; [exact Hg|].
  eapply (position_loop_reads fuel pos 0 _ _ 0 es fin kids [] []); [|exact He|done|done|done|done|lia].
  apply set_entry_path. rewrite <- ET. exact Hp.
Qed.

(** The step from an entry to the next one. *)
Definition next_end (l1 : list (list Z)) (e : list Z) (l2 : list (list Z)) (r : option (Z + path)) : Prop :=
  match r with
  | None => False
  | Some (inl err) => env_err err ∨ (err = ENOENT ∧ l2 = [])
  | Some (inr p) => ∃ e' l, l2 = e' :: l ∧ at_entry T p (l1 ++ [e]) (Some e') l
  end.

Lemma at_entry_here c up k es fin kids pre post e :
  path_to T (c :: up) (Node es fin kids) pre post → entry_is c k → ic_is_locked c = true → es !! k = Some e →
  at_entry T (c :: up) (pre ++ before k es (inorder <$> kids) ++ nth k (inorder <$> kids) []) (Some e)
    (nth (S k) (inorder <$> kids) [] ++ after (S k) es (inorder <$> kids) ++ post).
Proof.
  intros Hp Hk Hl He. exists c, up, k, es, fin, kids, pre, post. split_and!; try done.
  rewrite (after_cons _ _ _ _ He). cbn [tl]. by rewrite (assoc_L (++)).
Qed.

(** The rest of a sequence, by its first part. *)
Lemma next_end_at l1 e l2 p l1' e' l' :
  inorder T = l1 ++ e :: l2 → at_entry T p l1' (Some e') l' → l1' = l1 ++ [e] → next_end l1 e l2 (Some (inr p)).
Proof.
  intros E Hat ->. exists e', l'. split; [|done]. apply at_entry_inorder in Hat. rewrite E in Hat. rewrite <- (assoc_L (++)) in Hat.
  apply app_inv_head in Hat. by injection Hat.
Qed.

Lemma at_entry_leaf c up k es fin pre post e :
  path_to T (c :: up) (Node es fin []) pre post → entry_is c k → ic_is_locked c = true → es !! k = Some e →
  ∃ l, at_entry T (c :: up) (pre ++ take k es) (Some e) l.
Proof.
  intros Hp Hk Hl He. eexists. pose proof (at_entry_here _ _ _ _ _ _ _ _ _ Hp Hk Hl He) as H. cbn [fmap list_fmap] in H.
  rewrite before_leaf, (nth_overflow [] _ (n := k)), app_nil_r in H by (cbn; lia). exact H.
Qed.

(** The last entry of a leaf: the next one is found further up. *)
Lemma next_up c up es fin pre post l1 e l2 :
  path_to T (c :: up) (Node es fin []) pre post → inorder T = l1 ++ e :: l2 → l1 ++ [e] = pre ++ es →
  reads (match climb (c :: up) with
    | None => ended (inl ENOENT)
    | Some p => then_ (once (relock_top ni p)) (λ p, ended (inr (mark_match p)))
    end) (next_end l1 e l2).
Proof.
  intros Hp E El. pose proof (climb_spec _ _ _ _ Hp) as Hclimb. pose proof (path_to_inorder _ _ _ _ _ Hp) as Ein.
  cbn [inorder fmap list_fmap] in Ein, Hclimb. rewrite interleave_leaf in Ein, Hclimb. destruct (climb (c :: up)) as [p'|].
  - destruct Hclimb as (c2 & up2 & k2 & es2 & fin2 & kids2 & kid2 & pre2 & post2 & -> & Hp2 & Hk2 & Hl2 & Hlt2 & Hkid2 & E1 & E2).
    eapply reads_then; [apply reads_once; by eapply relock_top_reads|by left|]. intros p (c3 & -> & Hp3 & Hl3 & Hk3).
    apply reads_ret. destruct (lookup_lt_is_Some_2 es2 k2 Hlt2) as [e' He']. cbn [mark_match].
    eapply next_end_at; [exact E|eapply (at_entry_here (set_match true c3)); [by apply set_match_path|by apply Hk3|done|exact He']|].
    rewrite nth_lookup, list_lookup_fmap, Hkid2. cbn. by rewrite E1.
  - subst post. apply reads_ret. right. split; [done|]. rewrite E in Ein. rewrite app_nil_r, <- El in Ein.
    apply app_inv_head in Ein. by injection Ein.
Qed.

(** C10: [ntfs_index_lookup_next] on the path to an entry returns, with an errno of the kernel or with
    the path to the entry that follows in the sequence of all the entries, and [ENOENT] only for the
    last entry. *)
Theorem ntfs_index_lookup_next_correct fuel p l1 e l2 :
  at_entry T p l1 (Some e) l2 → 0 < max_entries → (height T ≤ fuel)%nat →
  reads (ntfs_index_lookup_next ni fuel p) (next_end l1 e l2).
Proof.
  intros Hat Hmax Hfuel. pose proof (at_entry_inorder _ _ _ _ _ Hat) as E. cbn [option_list app] in E.
  destruct Hat as (c & up & k & es & fin & kids & pre & post & -> & Hp & Hk & Hl & -> & He & _). symmetry in He.
  pose proof (path_to_describes _ _ _ _ _ _ Hp) as Hd. pose proof (lookup_lt_Some _ _ _ He) as Hlt.
  assert ((pre ++ before k es (inorder <$> kids) ++ nth k (inorder <$> kids) []) ++ [e] = pre ++ before (S k) es (inorder <$> kids)) as El.
  { rewrite (before_snoc _ _ _ _ He). by rewrite <- !(assoc_L (++)). }
  set (l1 := pre ++ before k es (inorder <$> kids) ++ nth k (inorder <$> kids) []) in *.
  cbn [ntfs_index_lookup_next]. rewrite (describes_max _ _ _ _ _ _ Hd), (nr_entries_spec _ _ _ _ Hd).
  rewrite (proj2 (Z.eqb_neq _ _)), (proj2 (Z.ltb_ge _ _)) by lia. apply reads_world. intros t1. change (node_buf _ c) with (buf c).
  eapply entry_flags_reads; [exact Hp|done|]. intros flags ->. destruct (decide (kids = [])) as [-> |Hne].
  - rewrite bool_decide_eq_false_2 by auto. cbn [negb]. rewrite (proj1 Hk). cbn [fmap list_fmap] in El. rewrite before_leaf in El.
    destruct (Z.ltb_spec (Z.of_nat k) (Z.of_nat (length es) + 1 - 2)) as [Hin|Hin].
    + replace (Z.of_nat k + 1) with (Z.of_nat (S k)) by lia.
      destruct (goto_entry_spec c (S k) _ _ _ Hd ltac:(lia)) as (ie & Hg & Hk'). eapply reads_lift; [exact Hg|]. apply reads_ret.
      destruct (lookup_lt_is_Some_2 es (S k)) as [e' He']; [lia|].
      destruct (at_entry_leaf (set_entry ie (Z.of_nat (S k)) c) up (S k) es fin pre post e') as [l Hl']; [by apply set_entry_path|done..|].
      by eapply next_end_at.
    + rewrite take_ge in El by lia. eapply next_up; [exact Hp|done|done].
  - rewrite bool_decide_eq_true_2 by done. cbn [negb ic_entry_nr set_match]. rewrite (proj1 Hk).
    replace (Z.of_nat k + 1) with (Z.of_nat (S k)) by lia. pose proof (set_match_path _ _ _ _ _ false Hp) as Hp0.
    destruct (goto_entry_spec (set_match false c) (S k) _ _ _ (path_to_describes _ _ _ _ _ _ Hp0) Hlt) as (ie & Hg & Hk').
    eapply reads_lift; [exact Hg|]. pose proof (path_to_height _ _ _ _ Hp) as Hh.
    eapply reads_then; [eapply (descend_first_reads fuel _ _ (S k) es fin kids); [by apply set_entry_path|done|done|done|lia]|by left|].
    intros p (c1 & up1 & es1 & fin1 & post1 & -> & Hp1 & Hk1 & Hl1 & Hes1). apply reads_ret. cbn [mark_match].
    destruct es1 as [|e' es1]; [by destruct Hes1; auto|].
    destruct (at_entry_leaf (set_match true c1) up1 0 (e' :: es1) fin1 (pre ++ before (S k) es (inorder <$> kids)) post1 e')
      as [l Hl']; [by apply set_match_path|done..|]. eapply next_end_at; [exact E|exact Hl'|]. cbn [take]. by rewrite app_nil_r, El.
Qed.
(** The last leaf of a child, which ends with the sequence [l] and is followed by [post]. *)
Definition last_leaf (l post : list (list Z)) (r : Z + path) : Prop :=
  match r with
  | inl err => env_err err
  | inr p => ∃ c up es fin pre, p = c :: up ∧ ic_is_locked c = true ∧ es ≠ [] ∧ path_to T p (Node es fin []) pre post ∧ pre ++ es = l
  end.

Lemma predecessor_loop_reads fuel c up k es fin kids kid pre post :
  path_to T (c :: up) (Node es fin kids) pre post → entry_is c k → ic_is_locked c = true → kids !! k = Some kid →
  (height kid ≤ fuel)%nat →
  reads (predecessor_loop ni fuel (c :: up)) (λ r, match r with
    | None => False
    | Some r => last_leaf (pre ++ before k es (inorder <$> kids) ++ inorder kid) (after k es (inorder <$> kids) ++ post) r end).
Proof.
  revert c up k es fin kids kid pre post. induction fuel as [|fuel IH]; intros c up k es fin kids [es1 fin1 kids1] pre post Hp Hk Hl Hkid Hfuel;
    [cbn in Hfuel; lia|]. cbn [predecessor_loop].
  eapply reads_then; [apply reads_once; by eapply descend_reads|done|]. intros p (c1 & -> & Hl1 & _ & Hp1).
  pose proof (path_to_describes _ _ _ _ _ _ Hp1) as Hd1. assert (ic_is_root c1 = false) as Hr1 by (by inversion Hp1).
  apply reads_world. intros t1. change (node_buf _ c1) with (buf c1). pose proof Hd1 as [(n & Hn & _) _ _ Hleaf _].
  eapply reads_lift; [by eapply node_flags|].
  assert (has (get8 (n_head n) ih_flags) INDEX_NODE = bool_decide (kids1 ≠ [])) as -> by (by destruct Hn as [_ _ _ _ (_ & _ & _ & ? & _)]).
  destruct (decide (kids1 = [])) as [-> |Hne].
  { rewrite bool_decide_eq_false_2 by auto. apply reads_ret. exists c1, (set_locked false c :: up), es1, fin1, (pre ++ before k es (inorder <$> kids)).
    split_and!; try done; [by apply Hleaf|]. cbn [inorder fmap list_fmap]. by rewrite interleave_leaf, (assoc_L (++)). }
  rewrite bool_decide_eq_true_2 by done. cbn [negb]. rewrite (nr_entries_spec _ _ _ _ Hd1).
  replace (Z.of_nat (length es1) + 1 - 1) with (Z.of_nat (length es1)) by lia.
  destruct (goto_entry_spec c1 (length es1) _ _ _ Hd1 ltac:(lia)) as (ie & Hg & Hk1). eapply reads_lift; [exact Hg|].
  destruct (kid_exists _ (length es1) _ _ _ Hd1 Hne ltac:(lia)) as [kid1 Hkid1].
  pose proof (height_kid es1 fin1 kids1 _ _ Hkid1). eapply reads_mono; [eapply IH; [by apply set_entry_path|done|done|done|lia]|].
  intros [[err|p]|]; [done| |done]. intros (c2 & up2 & es2 & fin2 & pre2 & -> & Hl2 & Hne2 & Hp2 & E2). rewrite after_end in Hp2.
  exists c2, up2, es2, fin2, pre2. split_and!; try done. rewrite E2. cbn [inorder]. rewrite (interleave_split (length es1)) by done.
  rewrite after_end, app_nil_r, (nth_lookup (inorder <$> kids1)), list_lookup_fmap, Hkid1. cbn. by rewrite <- !(assoc_L (++)).
Qed.

(** C12: for an entry of a node with children [ntfs_index_lookup_predecessor] returns, with an errno of
    the kernel or with the path to the entry right before it in the sequence of all the entries,
    which is in a leaf. *)
Theorem ntfs_index_lookup_predecessor_correct fuel p l1 e l2 :
  at_entry T p l1 (Some e) l2 → is_node e = true → (height T ≤ fuel)%nat →
  reads (ntfs_index_lookup_predecessor ni fuel p) (λ r, match r with
    | None => False
    | Some (inl err) => env_err err
    | Some (inr p) => ∃ l e', l1 = l ++ [e'] ∧ at_entry T p l (Some e') (e :: l2) ∧ is_node e' = false end).
Proof.
  intros Hat He Hfuel. pose proof (at_entry_inorder _ _ _ _ _ Hat) as E. cbn [option_list app] in E.
  destruct Hat as (c & up & k & es & fin & kids & pre & post & -> & Hp & Hk & Hl & El1 & Hek & El2). symmetry in Hek.
  pose proof (path_to_describes _ _ _ _ _ _ Hp) as Hd. pose proof (lookup_lt_Some _ _ _ Hek) as Hlt.
  assert (kids ≠ []) as Hne.
  { destruct (positioned_entry _ _ _ _ _ Hd Hk) as (_ & e2 & He2 & _ & Hn2 & _). rewrite lookup_app_l in He2 by done.
    assert (e2 = e) as -> by congruence. rewrite He in Hn2. symmetry in Hn2. by apply bool_decide_eq_true in Hn2. }
  cbn [ntfs_index_lookup_predecessor]. apply reads_world. intros t1. change (node_buf _ c) with (buf c).
  eapply entry_flags_reads; [exact Hp|done|]. intros flags ->. rewrite bool_decide_eq_true_2 by done. cbn [negb].
  destruct (kid_exists _ k _ _ _ Hd Hne ltac:(lia)) as [kid Hkid]. pose proof (height_kid es fin kids k _ Hkid).
  pose proof (path_to_height _ _ _ _ Hp).
  eapply reads_then; [eapply predecessor_loop_reads; [exact Hp|done|done|exact Hkid|lia]|done|].
  intros p (c1 & up1 & es1 & fin1 & pre1 & -> & Hl1 & Hne1 & Hp1 & E1). pose proof (path_to_describes _ _ _ _ _ _ Hp1) as Hd1.
  destruct (exists_last Hne1) as (es2 & e' & ->). rewrite (nr_entries_spec _ _ _ _ Hd1), length_app. cbn [length].
  rewrite (proj2 (Z.ltb_ge _ _)) by lia. replace (_ - 2) with (Z.of_nat (length es2)) by lia.
  destruct (goto_entry_spec c1 (length es2) _ _ _ Hd1) as (ie & Hg & Hk1); [rewrite length_app; lia|]. eapply reads_lift; [exact Hg|].
  apply reads_ret. set (c2 := set_match true _). exists (pre1 ++ es2), e'.
  assert (path_to T (c2 :: up1) (Node (es2 ++ [e']) fin1 []) pre1 (after k es (inorder <$> kids) ++ post)) as Hp2
    by (by apply set_match_path, set_entry_path).
  assert (l1 = (pre1 ++ es2) ++ [e']) as El.
  { rewrite El1, <- (assoc_L (++)), E1, nth_lookup, list_lookup_fmap, Hkid. done. }
  destruct (at_entry_leaf c2 up1 (length es2) (es2 ++ [e']) fin1 pre1 (after k es (inorder <$> kids) ++ post) e') as [l Hat'];
    [done|done|done|by apply list_lookup_middle|]. rewrite take_app_length in Hat'. split; [done|].
  pose proof (at_entry_inorder _ _ _ _ _ Hat') as E'. rewrite E, El in E'. rewrite <- !(assoc_L (++)) in E'. cbn [app option_list] in E'.
  do 2 apply app_inv_head in E'. injection E' as <-. split; [exact Hat'|].
  destruct (positioned_entry c2 (length es2) (es2 ++ [e']) fin1 []) as (_ & e2 & He2 & _ & Hn2 & _); [by eapply path_to_describes|done|].
  rewrite <- (assoc_L (++)) in He2. cbn [app] in He2. rewrite list_lookup_middle in He2 by done. injection He2 as <-. by rewrite Hn2.
Qed.

End root.
End walk.

(** ** An index of two levels *)

(** A kernel that refuses nothing. *)
Definition quiet_env : IndexEnv :=
  {| index_pages := page_cache_4k; alloc_fails _ := false; mft_map_errno _ := 0 |}.

(** The index $Q with index blocks of 512 bytes, of which eight are in a page. *)
Definition quota_index : index_inode := mk_index_inode [0x24; 0x51] COLLATION_NTOFS_ULONG 512 9 true [] true 1024.
Definition inner_entry (owner_id vcn : Z) : list Z :=
  le_bytes 2 20 ++ le_bytes 2 0 ++ le_bytes 4 0 ++ le_bytes 2 32 ++ le_bytes 2 4 ++ le_bytes 2 1 ++ le_bytes 2 0 ++
  le_bytes 4 owner_id ++ le_bytes 4 0 ++ le_bytes 8 vcn.
Definition inner_end (vcn : Z) : list Z := replicate 8 0 ++ le_bytes 2 24 ++ le_bytes 2 0 ++ le_bytes 2 3 ++ le_bytes 2 0 ++ le_bytes 8 vcn.

(** The node in a buffer whose header is at [index] and is followed by the entries. *)
Definition node_in (b : list Z) (index : nat) (es : list (list Z)) (fin : list Z) : node :=
  mk_node (take index b) (take 16 (drop index b)) [] es fin (drop (index + 16 + length (concat (es ++ [fin]))) b).

Definition leaf_block (vcn : Z) (es : list (list Z)) : list Z :=
  let len := Z.of_nat (16 + length (concat es) + 16) in
  let used := le_bytes 4 magic_INDX ++ replicate 12 0 ++ le_bytes 8 vcn ++ le_bytes 4 16 ++ le_bytes 4 len ++ le_bytes 4 488 ++
    replicate 4 0 ++ concat es ++ sample_end in
  used ++ replicate (512 - length used) 0.
Definition leaf0 : list (list Z) := sample_entry <$> [1; 2].
Definition leaf1 : list (list Z) := sample_entry <$> [0x200; 0x300].
Definition sample_blocks : list Z := leaf_block 0 leaf0 ++ leaf_block 1 leaf1.
Definition sample_ia : contents := λ i, nth (Z.to_nat i) sample_blocks 0.

Definition root_entries : list (list Z) := [inner_entry 0x100 0].
Definition root_end : list Z := inner_end 1.
Definition root_value : list Z :=
  le_bytes 4 0 ++ le_bytes 4 COLLATION_NTOFS_ULONG ++ le_bytes 4 512 ++ le_bytes 4 1 ++
  le_bytes 4 16 ++ le_bytes 4 72 ++ le_bytes 4 72 ++ le_bytes 4 1 ++ concat root_entries ++ root_end.
Definition root_attr : list Z :=
  let a := resident_attr AT_INDEX_ROOT 3 [0x24; 0x51] (Z.of_nat (length root_value)) in
  splice a (Z.to_nat (get16 a a_value_offset)) root_value.
Definition index_record : mft :=
  mk_mft (set_use sample_head 256) [resident_attr 0x10 0 [] 48; root_attr] (le_bytes 4 AT_END ++ replicate 4 0) (replicate 256 0).
Definition index_mft : list Z := mft_bytes index_record.
Definition sample_tree : btree := Node root_entries root_end [Node leaf0 sample_end []; Node leaf1 sample_end []].
Definition sample_root : nat := 176.

Lemma sample_end_ok : entry_ok sample_end.
Proof. split; [by apply bytes_decide|done|cbn; lia|done]. Qed.

(** A leaf in the first page, decided by evaluation. *)
Definition node_decide (n : node) : bool :=
  bool_decide (Forall (λ x, 0 ≤ x < 256) (node_bytes n)) && (length (n_head n) =? 16)%nat &&
  (get32 (n_head n) ih_entries_offset =? Z.of_nat (16 + length (n_gap n))) &&
  (get32 (n_head n) ih_index_length =? Z.of_nat (16 + length (n_gap n) + length (concat (node_all n)))).

Lemma node_decide_ok ni n :
  node_decide n = true → Forall (λ e, entry_ok e ∧ is_end e = false ∧ data_ok ni e) (n_entries n) →
  entry_ok (n_end n) ∧ is_end (n_end n) = true → node_ok ni n.
Proof.
  unfold node_decide. rewrite !andb_true_iff, !Z.eqb_eq, Nat.eqb_eq. intros [[[H1 H2] H3] H4] H5 H6.
  split; [by apply bytes_decide|done..].
Qed.

Lemma leaf_stored b f v es :
  page_bytes (env := quiet_env) f 0 = b → (v = 0 ∨ v = 1) → es ≠ [] → (length es < 45)%nat →
  let n := node_in b (Z.to_nat (512 * v) + 24) es sample_end in
  node_bytes n = b → length (n_pre n) = (Z.to_nat (512 * v) + 24)%nat → node_decide n = true →
  Forall (λ e, entry_ok e ∧ is_end e = false ∧ data_ok quota_index e) es → Forall (λ e, is_node e = false) es →
  check_index_block (env := quiet_env) quota_index b (512 * v) v = Ret true → has (get8 (n_head n) ih_flags) INDEX_NODE = false →
  stored_block (env := quiet_env) quota_index 45 f (Node es sample_end []) v.
Proof.
  intros Hb Hv Hne Hl n Hn Hpre Hd Hes Hleaf Hc Hf.
  assert (block_page (env := quiet_env) quota_index v = 0) as E1 by (destruct Hv as [-> | ->]; vm_compute; reflexivity).
  assert (block_ofs (env := quiet_env) quota_index v = 512 * v) as E2 by (destruct Hv as [-> | ->]; vm_compute; reflexivity).
  cbn [stored_block]. rewrite E1, E2, Hb. split; [lia|]. split; [intros _; exact Hne|]. split; [exact Hc|]. split; [|exact I].
  exists n. split; [exact Hn|exact Hpre| | |].
  - apply node_decide_ok; [exact Hd|exact Hes|]. split; [exact sample_end_ok|reflexivity].
  - unfold node_all. rewrite length_app. unfold n, node_in. cbn [n_entries length]. lia.
  - split; [reflexivity|]. split; [reflexivity|]. split; [left; reflexivity|]. split; [exact Hf|]. apply list.Forall_app.
    split; [exact Hleaf|]. constructor; [reflexivity|constructor].
Qed.

Definition sample_page : list Z := Eval vm_compute in page_bytes (env := quiet_env) sample_ia 0.
Lemma sample_page_bytes : page_bytes (env := quiet_env) sample_ia 0 = sample_page.
Proof. vm_compute. reflexivity. Qed.

Lemma sample_leaf_entries ks :
  Forall (λ e, entry_ok e ∧ is_end e = false ∧ data_ok quota_index e) (sample_entry <$> ks) ∧
  Forall (λ e, is_node e = false) (sample_entry <$> ks).
Proof.
  split; apply list.Forall_fmap, list.Forall_true; intros k; [|reflexivity].
  split; [apply sample_entry_ok|]. split; [reflexivity|]. intros _. split; vm_compute; intros H; discriminate H.
Qed.

Lemma sample_leaf v ks :
  (v = 0 ∧ ks = [1; 2]) ∨ (v = 1 ∧ ks = [0x200; 0x300]) →
  stored_block (env := quiet_env) quota_index 45 sample_ia (Node (sample_entry <$> ks) sample_end []) v.
Proof.
  intros H. destruct (sample_leaf_entries ks) as [H1 H2].
  apply (leaf_stored sample_page); [exact sample_page_bytes|tauto| | | | | |exact H1|exact H2| |];
    destruct H as [[-> ->]|[-> ->]]; try done; vm_compute; reflexivity || lia.
Qed.

Lemma root_entry_ok : entry_ok (inner_entry 0x100 0).
Proof. split; [by apply bytes_decide; vm_compute|done|cbn; lia|done]. Qed.
Lemma root_end_ok : entry_ok root_end.
Proof. split; [by apply bytes_decide; vm_compute|done|cbn; lia|done]. Qed.

Lemma sample_root_stored :
  stored_node quota_index 45 index_mft sample_root (node_in index_mft sample_root root_entries root_end) sample_tree.
Proof.
  split; [vm_compute; reflexivity..| | |].
  - apply node_decide_ok; [vm_compute; reflexivity| |split; [exact root_end_ok|reflexivity]].
    constructor; [|constructor]. split; [exact root_entry_ok|]. split; [reflexivity|].
    intros _. split; vm_compute; intros H; discriminate H.
  - vm_compute. intros H. discriminate H.
  - split; [reflexivity|]. split; [reflexivity|]. split; [right; reflexivity|]. split; [vm_compute; reflexivity|].
    constructor; [reflexivity|]. constructor; [reflexivity|constructor].
Qed.

Lemma sample_index_stored :
  stored_index (env := quiet_env) quota_index 45 sample_root index_mft sample_ia sample_tree.
Proof.
  split.
  - exists 128%nat. split; vm_compute; reflexivity.
  - exists 256. vm_compute. reflexivity.
  - exists (node_in index_mft sample_root root_entries root_end). exact sample_root_stored.
  - intros _. reflexivity.
  - intros k e kid He Hk. destruct k as [|[|k]]; [| |discriminate He]; injection He as <-; injection Hk as <-;
      apply sample_leaf; [left|right]; (split; [vm_compute; reflexivity|reflexivity]).
  - vm_compute. reflexivity.
  - vm_compute. reflexivity.
Qed.

Lemma sample_tree_sorted :
  Forall (λ e, index_key quota_index (e_key e)) (inorder sample_tree) ∧ StronglySorted (entry_lt quota_index) (inorder sample_tree).
Proof.
  change (inorder sample_tree) with (leaf0 ++ inner_entry 0x100 0 :: leaf1). split.
  - apply list.Forall_app. split; [|apply list.Forall_cons; split; [exact (sample_entry_key 0x100)|]];
      apply list.Forall_fmap, list.Forall_true; exact sample_entry_key.
  - repeat constructor.
Qed.

Lemma ntfs_index_lookup_correct_witness :
  reads false index_mft sample_ia (ntfs_index_lookup (env := quiet_env) quota_index 2 (le_bytes 4 0x300)) (λ r, match r with
    | None => False
    | Some (inl err) => env_err (env := quiet_env) err
    | Some (inr (hit, p)) =>
        (hit = true ↔ Exists (λ e, entry_cmp quota_index (le_bytes 4 0x300) e = 0) (inorder sample_tree)) ∧
        lookup_end (env := quiet_env) quota_index 45 sample_root index_mft sample_ia sample_tree (le_bytes 4 0x300) hit p end).
Proof.
  destruct sample_tree_sorted as [Hk Hs].
  apply (ntfs_index_lookup_correct (env := quiet_env)); [exact sample_index_stored|by split|exact (sample_entry_key 0x300)|done|exact Hk|exact Hs| |].
  - vm_compute. reflexivity.
  - vm_compute. lia.
Defined.

Lemma ntfs_index_lookup_by_position_correct_witness :
  reads false index_mft sample_ia (ntfs_index_lookup_by_position (env := quiet_env) quota_index 8 3 4)
    (position_end (env := quiet_env) quota_index 45 sample_root index_mft sample_ia sample_tree 3).
Proof.
  apply (ntfs_index_lookup_by_position_correct (env := quiet_env)); [exact sample_index_stored|lia| |].
  - vm_compute. reflexivity.
  - vm_compute. lia.
Defined.

(** The path to the entry of the root. *)
Definition sample_path : path := [mk_ictx true true true 0 0 128 176 256 192 0 [192; 224]%nat 45].

Lemma sample_at_entry :
  at_entry (env := quiet_env) quota_index 45 sample_root index_mft sample_ia sample_tree sample_path leaf0 (Some (inner_entry 0x100 0)) leaf1.
Proof.
  eexists _, [], 0%nat, root_entries, root_end, [Node leaf0 sample_end []; Node leaf1 sample_end []], [], [].
  split; [reflexivity|]. split; [|by split_and!]. apply path_root; [|reflexivity|reflexivity|split; vm_compute; reflexivity]. split; [|reflexivity|reflexivity|done|].
  - exists (node_in index_mft sample_root root_entries root_end). split; [exact sample_root_stored|vm_compute; reflexivity].
  - exact (index_children _ _ _ _ _ _ sample_index_stored).
Qed.

Lemma ntfs_index_lookup_next_correct_witness :
  reads false index_mft sample_ia (ntfs_index_lookup_next (env := quiet_env) quota_index 2 sample_path)
    (next_end (env := quiet_env) quota_index 45 sample_root index_mft sample_ia sample_tree leaf0 (inner_entry 0x100 0) leaf1).
Proof.
  apply (ntfs_index_lookup_next_correct (env := quiet_env)); [exact sample_index_stored|exact sample_at_entry|lia|vm_compute; lia].
Defined.

Lemma ntfs_index_lookup_predecessor_correct_witness :
  reads false index_mft sample_ia (ntfs_index_lookup_predecessor (env := quiet_env) quota_index 2 sample_path) (λ r, match r with
    | None => False
    | Some (inl err) => env_err (env := quiet_env) err
    | Some (inr p) => ∃ l e', leaf0 = l ++ [e'] ∧
        at_entry (env := quiet_env) quota_index 45 sample_root index_mft sample_ia sample_tree p l (Some e') (inner_entry 0x100 0 :: leaf1) ∧
        is_node e' = false end).
Proof.
  apply (ntfs_index_lookup_predecessor_correct (env := quiet_env)); [exact sample_at_entry|reflexivity|vm_compute; lia].
Defined.

(** ** Corrupt indexes *)

(** The index block 1 is its own child. *)
Definition cyclic_blocks : list Z :=
  let used := le_bytes 4 magic_INDX ++ replicate 12 0 ++ le_bytes 8 1 ++ le_bytes 4 16 ++ le_bytes 4 40 ++ le_bytes 4 488 ++
    le_bytes 4 1 ++ inner_end 1 in
  leaf_block 0 leaf0 ++ used ++ replicate (512 - length used) 0.
Definition cyclic_ia : contents := λ i, nth (Z.to_nat i) cyclic_blocks 0.
Definition cyclic_context : ntfs_index_context := mk_ictx false true false 1 0 0 536 448 0 0 [552%nat] 45.
Abbreviation cyclic_world t := (mk_world t false index_mft cyclic_ia).

Lemma lift_bind {A B} (o : outcome A) a (k : A → io B) w : o = Ret a → (lift o ≫= k) w = k a w.
Proof. by intros ->. Qed.
Lemma then_once_bind {A B} (c : io (Z + A)) (k : A → io (option (Z + B))) w a w' : c w = Ret (inr a, w') → then_ (once c) k w = k a w'.
Proof. intros H. unfold then_, once, mbind, io_bind. by rewrite H. Qed.

Lemma cyclic_descent up t :
  ntfs_index_descend_into_child_node (env := quiet_env) quota_index (set_entry 552 0 cyclic_context :: up) (cyclic_world t) =
    Ret (inr (cyclic_context :: set_locked false (set_entry 552 0 cyclic_context) :: up), cyclic_world (S (S t))).
Proof. vm_compute. reflexivity. Qed.

Lemma cyclic_round fuel match_key match_key_len key up t :
  lookup_loop (env := quiet_env) quota_index (S fuel) match_key match_key_len key (cyclic_context :: up) (cyclic_world t) =
    lookup_loop (env := quiet_env) quota_index fuel match_key match_key_len key
      (cyclic_context :: set_locked false (set_entry 552 0 cyclic_context) :: up) (cyclic_world (S (S t))).
Proof.
  cbn [lookup_loop]. change ((get_world ≫= ?k) ?w) with (k w w). cbv beta.
  rewrite (lift_bind _ (false, 0)) by reflexivity. rewrite (lift_bind _ (set_entry 552 0 cyclic_context)) by reflexivity. cbv iota.
  rewrite (lift_bind _ 3) by (vm_compute; reflexivity). change (negb (has 3 INDEX_ENTRY_NODE)) with false. cbv iota.
  by rewrite (then_once_bind _ _ _ _ _ (cyclic_descent up t)).
Qed.

Lemma cyclic_rounds fuel match_key match_key_len key up t :
  fst <$> lookup_loop (env := quiet_env) quota_index fuel match_key match_key_len key (cyclic_context :: up) (cyclic_world t) = Ret None.
Proof. revert up t. induction fuel as [|fuel IH]; intros up t; [reflexivity|]. rewrite cyclic_round. apply IH. Qed.

(** The context of the index root, from which the lookup descends into the index block. *)
Definition cyclic_root : ntfs_index_context := mk_ictx true true false 0 0 128 176 256 0 0 [192; 224]%nat 45.

Lemma cyclic_init :
  ntfs_index_lookup_init (env := quiet_env) quota_index ntfs_index_ctx_init 4 (cyclic_world 0) = Ret (inr cyclic_root, cyclic_world 3).
Proof. vm_compute. reflexivity. Qed.

Lemma cyclic_first_descent :
  ntfs_index_descend_into_child_node (env := quiet_env) quota_index [set_entry 224 1 cyclic_root] (cyclic_world 3) =
    Ret (inr [cyclic_context; set_locked false (set_entry 224 1 cyclic_root)], cyclic_world 6).
Proof. vm_compute. reflexivity. Qed.

(** No number of rounds is enough for a lookup in this index: the path grows forever. *)
Example lookup_never_ends fuel :
  fst <$> ntfs_index_lookup (env := quiet_env) quota_index fuel (le_bytes 4 0x300) (cyclic_world 0) = Ret None.
Proof.
  unfold ntfs_index_lookup. change (Z.of_nat (length (le_bytes 4 0x300)) <=? 0) with false. cbv iota.
  rewrite (lift_bind _ (le_bytes 4 0x300, 4)) by reflexivity. cbv iota. rewrite (then_once_bind _ _ _ _ _ cyclic_init).
  destruct fuel as [|fuel]; [reflexivity|]. cbn [lookup_loop]. change ((get_world ≫= ?k) ?w) with (k w w). cbv beta.
  rewrite (lift_bind _ (false, 1)) by (vm_compute; reflexivity). cbv iota.
  rewrite (lift_bind _ (set_entry 224 1 cyclic_root)) by reflexivity. cbv iota.
  rewrite (lift_bind _ 3) by (vm_compute; reflexivity). change (negb (has 3 INDEX_ENTRY_NODE)) with false. cbv iota.
  rewrite (then_once_bind _ _ _ _ _ cyclic_first_descent). apply cyclic_rounds.
Qed.

(** Without an index root the preparation of a lookup succeeds and leaves the context uninitialised. *)
Example lookup_init_no_root :
  let w := mk_world 0 false (mft_bytes sample_mft) sample_ia in
  (fst <$> ntfs_index_lookup_init (env := quiet_env) quota_index ntfs_index_ctx_init 4 w) = Ret (inr ntfs_index_ctx_init).
Proof. vm_compute. reflexivity. Qed.
