(* ===== verification/IndexModify.v ===== *)
(** * Changes of an index

    [kext/ntfs_index.c]: the operations that change one node of an index: an empty index block is
    laid out, an entry is inserted where a lookup has ended, removed, or replaced.  The node lies in
    a page of the index allocation or in the mft record.  The functions return [None] where
    the code goes on to split a full node, which is the subject of [IndexSplit], or to a deletion that
    moves entries between nodes, which is not modelled. *)

From Stdlib Require Import Sorted.
From S2P Require Import Prelude Bytes Unistr Collate PageCache Mst MftRecord AttrFind IndexNode IndexLookup.

(** ** Operations *)

Definition ia_usa_ofs : nat := 4.
Definition ia_usa_count : nat := 6.
Definition ie_indexed_file : nat := 0.

(** Lay out the index block at [ia] of the buffer. *)
Definition ntfs_index_block_lay_out (block_size vcn : Z) (b : list Z) (ia : nat) : outcome (list Z) :=
  b ← memset b ia 0 (Z.to_nat block_size);
  b ← put32 b (ia + ia_magic) magic_INDX;
  b ← put16 b (ia + ia_usa_ofs) sizeof_INDEX_BLOCK;
  b ← put16 b (ia + ia_usa_count) (1 + block_size / NTFS_BLOCK_SIZE);
  usa_ofs ← le16_at b (ia + ia_usa_ofs);
  b ← put16 b (ia + Z.to_nat usa_ofs) 1;
  b ← put64 b (ia + ia_index_block_vcn) vcn;
  usa_count ← le16_at b (ia + ia_usa_count);
  let ih := (ia + ia_index)%nat in
  let ie_ofs := u32 (Z.land (16 + Z.shiftl usa_count 1 + 7) (Z.lnot 7)) in
  b ← put32 b (ih + ih_entries_offset) ie_ofs;
  b ← put32 b (ih + ih_index_length) (ie_ofs + sizeof_INDEX_ENTRY_HEADER);
  b ← put32 b (ih + ih_allocated_size) (block_size - Z.of_nat ia_index);
  b ← put8 b (ih + ih_flags) 0;
  let ie := (ih + Z.to_nat ie_ofs)%nat in
  b ← put16 b (ie + ie_length) sizeof_INDEX_ENTRY_HEADER;
  put16 b (ie + ie_flags) INDEX_ENTRY_END.

(** Make space for [ie_size] bytes in front of the entry at [ie]. *)
Definition ntfs_index_block_make_space (b : list Z) (index ie : nat) (ie_size : Z) : outcome (Z * list Z) :=
  ilen ← le32_at b (index + ih_index_length);
  let new_ilen := u32 (ilen + ie_size) in
  allocated_size ← le32_at b (index + ih_allocated_size);
  if new_ilen <=? allocated_size then
    n ← byte_count (ilen - (Z.of_nat ie - Z.of_nat index));
    b ← memmove b (ie + Z.to_nat ie_size) ie n;
    b ← put32 b (index + ih_index_length) new_ilen;
    Ret (0, b)
  else Ret (ENOSPC, b).

(** The sizes of the mft record, of the attribute at [a] and of the index in its value. *)
Definition root_resized (m : list Z) (a index : nat) (muse change : Z) : outcome (list Z) :=
  m ← put32 m m_bytes_in_use (u32 (muse + change));
  length ← le32_at m (a + a_length);
  m ← put32 m (a + a_length) (u32 (length + change));
  value_length ← le32_at m (a + a_value_length);
  m ← put32 m (a + a_value_length) (u32 (value_length + change));
  index_length ← le32_at m (index + ih_index_length);
  m ← put32 m (index + ih_index_length) (u32 (index_length + change));
  put32 m (index + ih_allocated_size) (u32 (index_length + change)).

Definition ntfs_index_root_make_space (m : list Z) (a index ie : nat) (ie_size : Z) : outcome (Z * list Z) :=
  muse ← le32_at m m_bytes_in_use;
  allocated ← le32_at m m_bytes_allocated;
  if u32 (muse + ie_size) <=? allocated then
    n ← byte_count (muse - Z.of_nat ie);
    m ← memmove m (ie + Z.to_nat ie_size) ie n;
    m ← root_resized m a index muse ie_size;
    Ret (0, m)
  else Ret (ENOSPC, m).

Definition ntfs_index_node_make_space (c : ntfs_index_context) (b : list Z) (ie_size : Z) : outcome (Z * list Z) :=
  if ic_is_root c then ntfs_index_root_make_space b (ic_actx c) (ic_index c) (ic_entry c) ie_size
  else ntfs_index_block_make_space b (ic_index c) (ic_entry c) ie_size.

(** The offset of the data and the size of a new entry; [sdh] tells the index $SDH of $Secure. *)
Definition new_entry_size (view sdh : bool) (index_flags key_len data_len : Z) : Z * Z :=
  let entry_size := u32 (sizeof_INDEX_ENTRY_HEADER + key_len) in
  let data_ofs := if view then u32 (Z.land (entry_size + 4) (Z.lnot 4)) else 0 in
  let entry_size := if view then u32 (data_ofs + data_len + (if sdh then 4 else 0)) else entry_size in
  (data_ofs, u32 (u32 (Z.land (entry_size + 7) (Z.lnot 7)) + (if has index_flags INDEX_NODE then 8 else 0))).

(** Create an entry in the [entry_size] bytes at [entry]. *)
Definition create_entry (view : bool) (b : list Z) (entry : nat) (data_ofs entry_size : Z) (key data : list Z) : outcome (list Z) :=
  b ← memset b entry 0 (Z.to_nat entry_size);
  b ← (if negb view then memcpy b (entry + ie_indexed_file) data 0 8
       else
         b ← put16 b (entry + ie_data_offset) data_ofs;
         b ← put16 b (entry + ie_data_length) (Z.of_nat (length data));
         put b (entry + Z.to_nat data_ofs) data);
  b ← put16 b (entry + ie_key_length) (Z.of_nat (length key));
  b ← put b (entry + ie_key) key;
  put16 b (entry + ie_length) entry_size.

(** Remove the entry at [ie]. *)
Definition simple_delete_block (b : list Z) (index ie : nat) : outcome (list Z) :=
  ie_size ← le16_at b (ie + ie_length);
  index_length ← le32_at b (index + ih_index_length);
  let new_ilen := u32 (index_length - ie_size) in
  n ← byte_count (new_ilen - (Z.of_nat ie - Z.of_nat index));
  b ← memmove b ie (ie + Z.to_nat ie_size) n;
  put32 b (index + ih_index_length) new_ilen.

Definition simple_delete_root (m : list Z) (a index ie : nat) : outcome (list Z) :=
  ie_size ← le16_at m (ie + ie_length);
  muse ← le32_at m m_bytes_in_use;
  n ← byte_count (muse - (Z.of_nat ie + ie_size));
  m ← memmove m ie (ie + Z.to_nat ie_size) n;
  root_resized m a index muse (- ie_size).

(** Resize the entry at [ie] of a node with children to [new_ie_size] bytes: its last eight bytes,
    the VCN of its child, and all that follows them move. *)
Definition ntfs_index_block_prepare_replace (b : list Z) (index ie : nat) (new_ie_size : Z) : outcome (Z * list Z) :=
  ilen ← le32_at b (index + ih_index_length);
  ie_size ← le16_at b (ie + ie_length);
  let new_ilen := u32 (ilen + new_ie_size - ie_size) in
  allocated_size ← le32_at b (index + ih_allocated_size);
  if new_ilen <=? allocated_size then
    let vcn_addr := Z.of_nat ie + ie_size - 8 in
    n ← byte_count (ilen - (vcn_addr - Z.of_nat index));
    b ← memmove b (Z.to_nat (Z.of_nat ie + new_ie_size - 8)) (Z.to_nat vcn_addr) n;
    b ← put32 b (index + ih_index_length) new_ilen;
    Ret (0, b)
  else Ret (ENOSPC, b).

Definition ntfs_index_root_prepare_replace (m : list Z) (a index ie : nat) (new_ie_size : Z) : outcome (Z * list Z) :=
  muse ← le32_at m m_bytes_in_use;
  ie_size ← le16_at m (ie + ie_length);
  let size_change := s32 (new_ie_size - ie_size) in
  allocated ← le32_at m m_bytes_allocated;
  if u32 (muse + size_change) <=? allocated then
    let vcn_addr := Z.of_nat ie + ie_size - 8 in
    n ← byte_count (muse - vcn_addr);
    m ← memmove m (Z.to_nat (Z.of_nat ie + new_ie_size - 8)) (Z.to_nat vcn_addr) n;
    m ← root_resized m a index muse size_change;
    Ret (0, m)
  else Ret (ENOSPC, m).

(** Store the buffer of a context. *)
Definition page_store (f : contents) (ofs : Z) (b : list Z) : contents :=
  λ i, if (ofs <=? i) && (i <? ofs + Z.of_nat (length b)) then nth (Z.to_nat (i - ofs)) b 0 else f i.
Definition store_buf (c : ntfs_index_context) (b : list Z) : io () := λ w,
  Ret ((), if ic_is_root c then mk_world (w_clock w) (w_errors w) b (w_ia w)
           else mk_world (w_clock w) (w_errors w) (w_mft w) (page_store (w_ia w) (ic_upl_ofs c) b)).

Section modify.
Context {env : IndexEnv} (ni : index_inode) (sdh : bool).

(** [ntfs_index_entry_add_or_node_split] for an entry that fits into its leaf; [None] if the node has to
    be split. *)
Definition entry_add_without_split (c : ntfs_index_context) (key data : list Z) : io (option ()) :=
  if negb (ic_is_locked c) then panic else
  w ← get_world;
  let b := node_buf w c in
  flags ← lift (rd b (ic_index c + ih_flags));
  let '(data_ofs, entry_size) :=
    new_entry_size (is_view ni) sdh flags (Z.of_nat (length key)) (if is_view ni then Z.of_nat (length data) else 0) in
  if ic_bytes_free c <? entry_size then mret None else
  '(err, b) ← lift (ntfs_index_node_make_space c b entry_size);
  if negb (err =? 0) then panic else
  b ← lift (create_entry (is_view ni) b (ic_entry c) data_ofs entry_size key data);
  flags ← lift (rd b (ic_index c + ih_flags));
  if has flags INDEX_NODE then panic else
  _ ← store_buf c b;
  mret (Some ()).

(** [ntfs_index_entry_delete] of an entry that can simply be removed: one of a leaf that keeps other
    entries, or of an index root without children.  [None] stands where the code goes on to replace
    the entry or to free the leaf, which is not part of this definition. *)
Definition entry_delete_in_leaf (c : ntfs_index_context) : io (option ()) :=
  if negb (ic_is_locked c) then panic else
  w ← get_world;
  let b := node_buf w c in
  flags ← lift (le16_at b (ic_entry c + ie_flags));
  if has flags INDEX_ENTRY_END then panic else
  if has flags INDEX_ENTRY_NODE then mret None else
  if (2 <? nr_entries c) || ic_is_root c then
    b ← lift (if ic_is_root c then simple_delete_root b (ic_actx c) (ic_index c) (ic_entry c)
              else simple_delete_block b (ic_index c) (ic_entry c));
    _ ← store_buf c b;
    mret (Some ())
  else mret None.

(** Replace the entry of a node with children by the leaf entry of another context. *)
Definition ntfs_index_entry_replace (c new : ntfs_index_context) : io Z :=
  w ← get_world;
  let new_b := node_buf w new in
  new_length ← lift (le16_at new_b (ic_entry new + ie_length));
  let new_ie_size := new_length + 8 in
  if negb (ic_is_match c) || negb (ic_is_match new) then panic else
  let b := node_buf w c in
  flags ← lift (le16_at b (ic_entry c + ie_flags));
  if negb (has flags INDEX_ENTRY_NODE) then panic else
  new_flags ← lift (le16_at new_b (ic_entry new + ie_flags));
  if has new_flags INDEX_ENTRY_NODE then panic else
  '(err, b) ← lift (if ic_is_root c then ntfs_index_root_prepare_replace b (ic_actx c) (ic_index c) (ic_entry c) new_ie_size
                    else ntfs_index_block_prepare_replace b (ic_index c) (ic_entry c) new_ie_size);
  if negb (err =? 0) then mret err else
  let new_b := if negb (ic_is_root c) && negb (ic_is_root new) && (ic_upl_ofs c =? ic_upl_ofs new) then b else new_b in
  b ← lift (memcpy b (ic_entry c) new_b (ic_entry new) (Z.to_nat (new_ie_size - 8)));
  b ← lift (put16 b (ic_entry c + ie_length) new_ie_size);
  flags ← lift (le16_at b (ic_entry c + ie_flags));
  b ← lift (put16 b (ic_entry c + ie_flags) (Z.lor flags INDEX_ENTRY_NODE));
  _ ← store_buf c b;
  mret 0.
End modify.

(** ** A new entry *)

Lemma land_lnot_4 x : x ≤ Z.land (x + 4) (Z.lnot 4) ≤ x + 4.
Proof.
  rewrite <- Z.ldiff_land. set (y := x + 4).
  assert (Z.ldiff y 4 + Z.land y 4 = y) as Hsum.
  { rewrite <- Z.add_lor_land, Z.lor_ldiff_and.
    assert (Z.land (Z.ldiff y 4) (Z.land y 4) = 0) as ->; [|lia]. apply Z.bits_inj'. intros n _.
    rewrite !Z.land_spec, Z.ldiff_spec, Z.bits_0. by destruct (Z.testbit y n), (Z.testbit 4 n). }
  assert (Z.land y 4 = if Z.testbit y 2 then 4 else 0) as H4.
  { apply Z.bits_inj'. intros n Hn. rewrite Z.land_spec. change 4 with (2 ^ 2) at 1. rewrite Z.pow2_bits_eqb by lia.
    destruct (Z.eqb_spec 2 n) as [<- |Hne]; [by destruct (Z.testbit y 2)|]. rewrite andb_false_r.
    destruct (Z.testbit y 2); [|by rewrite Z.bits_0]. change 4 with (2 ^ 2). rewrite Z.pow2_bits_eqb by lia. symmetry. by apply Z.eqb_neq. }
  destruct (Z.testbit y 2); lia.
Qed.

(** The bytes of the entry that [create_entry] creates. *)
Definition entry_data (view : bool) (data_ofs entry_size : Z) (data : list Z) : list Z :=
  let e := replicate (Z.to_nat entry_size) 0 in
  if view then splice (splice (splice e ie_data_offset (le_bytes 2 data_ofs)) ie_data_length (le_bytes 2 (Z.of_nat (length data))))
                 (Z.to_nat data_ofs) data
  else splice e ie_indexed_file (take 8 data).
Definition new_entry (view : bool) (data_ofs entry_size : Z) (key data : list Z) : list Z :=
  splice (splice (splice (entry_data view data_ofs entry_size data) ie_key_length (le_bytes 2 (Z.of_nat (length key)))) ie_key key)
    ie_length (le_bytes 2 entry_size).

(** The sizes of the parts of an entry. *)
Definition entry_fits (view : bool) (data_ofs entry_size : Z) (key data : list Z) : Prop :=
  bytes key ∧ bytes data ∧ 16 + Z.of_nat (length key) ≤ entry_size < 2 ^ 16 ∧
  if view then 16 + Z.of_nat (length key) ≤ data_ofs ∧ data_ofs + Z.of_nat (length data) ≤ entry_size
  else (8 ≤ length data)%nat.

Ltac splice_len := rewrite ?length_splice by splice_len; rewrite ?length_replicate, ?le_bytes_length, ?length_take; unfold ie_indexed_file in *; in_entry.

Lemma create_entry_part view p x q data_ofs entry_size key data :
  entry_fits view data_ofs entry_size key data → length x = Z.to_nat entry_size →
  create_entry view (p ++ x ++ q) (length p) data_ofs entry_size key data = Ret (p ++ new_entry view data_ofs entry_size key data ++ q).
Proof.
  intros (_ & _ & Hs & Hd) Hx. unfold create_entry, put16. rewrite <- Hx at 1. rewrite memset_part. cbn [mbind outcome_bind]. rewrite Hx.
  set (e0 := replicate (Z.to_nat entry_size) 0). assert (length e0 = Z.to_nat entry_size) as L0 by apply length_replicate.
  unfold new_entry, entry_data. fold e0.
  destruct view; cbn [negb].
  - rewrite put_part by splice_len. cbn [mbind outcome_bind]. rewrite put_part by splice_len. cbn [mbind outcome_bind].
    rewrite put_part by splice_len. cbn [mbind outcome_bind]. rewrite put_part by splice_len. cbn [mbind outcome_bind].
    rewrite put_part by splice_len. cbn [mbind outcome_bind]. by rewrite put_part by splice_len.
  - assert (memcpy (p ++ e0 ++ q) (length p + ie_indexed_file) data 0 8 = put (p ++ e0 ++ q) (length p + ie_indexed_file) (take 8 data)) as ->.
    { unfold put. rewrite !memcpy_Ret by (rewrite ?length_app, ?length_take; unfold ie_indexed_file; lia).
      rewrite length_take, Nat.min_l by lia. by rewrite !drop_0, take_take. }
    rewrite put_part by splice_len. cbn [mbind outcome_bind]. rewrite put_part by splice_len. cbn [mbind outcome_bind].
    rewrite put_part by splice_len. cbn [mbind outcome_bind]. by rewrite put_part by splice_len.
Qed.

Lemma get16_replicate n k : get16 (replicate n 0) k = 0.
Proof. unfold get16. by rewrite !get8_replicate. Qed.

Lemma entry_data_fields view data_ofs entry_size key data :
  entry_fits view data_ofs entry_size key data → let e := entry_data view data_ofs entry_size data in
  length e = Z.to_nat entry_size ∧ bytes e ∧ get16 e ie_flags = 0 ∧
  (view = true → get16 e ie_data_offset = data_ofs ∧ get16 e ie_data_length = Z.of_nat (length data)).
Proof.
  intros (_ & Hdb & Hs & Hd). cbv zeta. unfold entry_data. set (e0 := replicate _ 0).
  assert (length e0 = Z.to_nat entry_size) as L0 by apply length_replicate. assert (bytes e0) as B0 by apply bytes_replicate.
  assert (get16 e0 ie_flags = 0) as F0 by apply get16_replicate. clearbody e0. destruct view.
  - rewrite (get16_splice_other _ (Z.to_nat data_ofs)), !(get16_splice_other _ _ _ ie_flags) by splice_len.
    split_and!; [splice_len|repeat apply bytes_splice; auto using bytes_le_bytes|done|]. intros _.
    rewrite !(get16_splice_other _ (Z.to_nat data_ofs)) by splice_len.
    rewrite (get16_splice_other _ ie_data_length _ ie_data_offset), !get16_splice by splice_len. done.
  - split_and!; [splice_len|apply bytes_splice; [done|by apply list.Forall_take]| |done]. by rewrite get16_splice_other by splice_len.
Qed.

Lemma length_new_entry view data_ofs entry_size key data :
  entry_fits view data_ofs entry_size key data → length (new_entry view data_ofs entry_size key data) = Z.to_nat entry_size.
Proof.
  intros Hf. pose proof (entry_data_fields _ _ _ _ _ Hf) as (L & _). destruct Hf as (_ & _ & Hs & _). unfold new_entry. splice_len.
Qed.

Lemma slice_splice m i bs : (i + length bs ≤ length m)%nat → take (length bs) (drop i (splice m i bs)) = bs.
Proof. intros H. unfold splice. rewrite drop_app_length' by len. by rewrite take_app_length. Qed.

Lemma new_entry_fields view data_ofs entry_size key data :
  entry_fits view data_ofs entry_size key data → let e := new_entry view data_ofs entry_size key data in
  bytes e ∧ get16 e ie_length = entry_size ∧ get16 e ie_key_length = Z.of_nat (length key) ∧ get16 e ie_flags = 0 ∧ e_key e = key ∧
  (view = true → get16 e ie_data_offset = data_ofs ∧ get16 e ie_data_length = Z.of_nat (length data)).
Proof.
  intros Hf. destruct (entry_data_fields _ _ _ _ _ Hf) as (L1 & B1 & F1 & D1). destruct Hf as (Hk & _ & Hs & _). cbv zeta.
  unfold e_key, new_entry. set (e1 := entry_data _ _ _ _) in *. clearbody e1.
  assert (∀ k, (k + 2 ≤ 8 ∨ k = 12)%nat → get16 (splice (splice (splice e1 ie_key_length (le_bytes 2 (Z.of_nat (length key)))) ie_key key)
    ie_length (le_bytes 2 entry_size)) k = get16 e1 k) as Hother.
  { intros k Hk'. by rewrite !get16_splice_other by splice_len. }
  assert (get16 (splice (splice (splice e1 ie_key_length (le_bytes 2 (Z.of_nat (length key)))) ie_key key) ie_length (le_bytes 2 entry_size))
    ie_key_length = Z.of_nat (length key)) as Hkl.
  { rewrite !(get16_splice_other _ _ _ ie_key_length), get16_splice by splice_len. done. }
  split_and!.
  - repeat apply bytes_splice; auto using bytes_le_bytes.
  - apply get16_splice; splice_len.
  - exact Hkl.
  - rewrite Hother by in_entry. done.
  - rewrite Hkl, Nat2Z.id, drop_splice by splice_len. apply slice_splice. splice_len.
  - intros Hv. rewrite !Hother by in_entry. auto.
Qed.

(** The data of an entry: the mft reference in a directory. *)
Definition e_data (view : bool) (e : list Z) : list Z :=
  if view then take (Z.to_nat (get16 e ie_data_length)) (drop (Z.to_nat (get16 e ie_data_offset)) e) else take 8 e.

Lemma take_splice_before m i bs n : (n ≤ i)%nat → (i ≤ length m)%nat → take n (splice m i bs) = take n m.
Proof. intros H1 H2. unfold splice. rewrite take_app_le by len. by rewrite take_take, Nat.min_l by lia. Qed.

Lemma new_entry_data view data_ofs entry_size key data :
  entry_fits view data_ofs entry_size key data →
  e_data view (new_entry view data_ofs entry_size key data) = if view then data else take 8 data.
Proof.
  intros Hf. destruct (new_entry_fields _ _ _ _ _ Hf) as (_ & _ & _ & _ & _ & Hd). pose proof (entry_data_fields _ _ _ _ _ Hf) as (L & _).
  unfold e_data. cbv zeta in Hd, L. destruct Hf as (_ & _ & Hs & Hv). destruct view.
  - destruct (Hd eq_refl) as [-> ->]. rewrite Nat2Z.id. unfold new_entry. rewrite !drop_splice by splice_len. unfold entry_data.
    apply slice_splice. splice_len.
  - unfold new_entry. rewrite !take_splice_before by splice_len. unfold entry_data.
    pose proof (slice_splice (replicate (Z.to_nat entry_size) 0) ie_indexed_file (take 8 data)) as E.
    rewrite length_take, Nat.min_l in E by lia. apply E. splice_len.
Qed.

Lemma new_entry_ok ni data_ofs entry_size key data :
  entry_fits (is_view ni) data_ofs entry_size key data → let e := new_entry (is_view ni) data_ofs entry_size key data in
  entry_ok e ∧ is_end e = false ∧ is_node e = false ∧ data_ok ni e ∧ e_key e = key.
Proof.
  intros Hf. pose proof (length_new_entry _ _ _ _ _ Hf) as HL. destruct (new_entry_fields _ _ _ _ _ Hf) as (B & Hl & Hkl & Hfl & Hk & Hd).
  destruct Hf as (_ & _ & Hs & Hv). cbv zeta in *. set (e := new_entry _ _ _ _ _) in *. split_and!; [|by unfold is_end, is_node, e_flags; rewrite Hfl..| |done].
  - split; [done|rewrite Hl; lia|lia|lia].
  - intros E. rewrite E in Hv. destruct (Hd E) as [-> ->]. rewrite Hkl. lia.
Qed.

(** The size computed for a new entry of a leaf is enough. *)
Lemma new_entry_size_fits view sdh flags key data :
  bytes key → bytes data → has flags INDEX_NODE = false → Z.of_nat (length key + length data) < 2 ^ 15 → (view = false → length data = 8%nat) →
  let '(data_ofs, entry_size) := new_entry_size view sdh flags (Z.of_nat (length key)) (if view then Z.of_nat (length data) else 0) in
  entry_fits view data_ofs entry_size key data ∧ entry_size mod 8 = 0.
Proof.
  intros Hk Hd Hf Hs Hv. unfold new_entry_size. rewrite Hf. unfold sizeof_INDEX_ENTRY_HEADER.
  rewrite (uwrap_id 32 (16 + Z.of_nat (length key))) by lia. pose proof (land_lnot_4 (16 + Z.of_nat (length key))) as H4.
  set (d := Z.land (16 + Z.of_nat (length key) + 4) (Z.lnot 4)) in *. rewrite (uwrap_id 32 d) by lia.
  set (x := if view then u32 ((if view then d else 0) + (if view then Z.of_nat (length data) else 0) + (if sdh then 4 else 0)) else 16 + Z.of_nat (length key)).
  assert (16 + Z.of_nat (length key) ≤ x < 2 ^ 15 + 100 ∧ (view = true → d + Z.of_nat (length data) ≤ x)) as [Hx Hx'].
  { unfold x. destruct view; [|lia]. rewrite uwrap_id by (destruct sdh; lia). destruct sdh; lia. }
  clearbody x. rewrite land_round8 by lia. unfold round8.
  assert (x ≤ 8 * ((x + 7) / 8) < 2 ^ 16) as Hr by (split; [zdiv|]; assert (8 * ((x + 7) / 8) ≤ x + 7) by zdiv; lia).
  assert ((8 * ((x + 7) / 8)) mod 8 = 0) as Hmod by zdiv. set (y := 8 * ((x + 7) / 8)) in *. clearbody y.
  rewrite Z.add_0_r, !(uwrap_id 32 y) by (rewrite ?uwrap_id; lia). split; [|done].
  split_and!; [done|done|lia|lia|]. destruct view; [specialize (Hx' eq_refl); lia|rewrite Hv by done; lia].
Qed.

(** ** One node in a block *)

Section block.
Context (ni : index_inode).

(** The node with other entries and the length that belongs to them. *)
Definition resized_head (n : node) (es : list (list Z)) : list Z :=
  splice (n_head n) ih_index_length (le_bytes 4 (Z.of_nat (16 + length (n_gap n) + length (concat (es ++ [n_end n]))))).
Definition with_entries (n : node) (es : list (list Z)) (rest : list Z) : node :=
  mk_node (n_pre n) (resized_head n es) (n_gap n) es (n_end n) rest.

(** The part of the buffer that belongs to the block. *)
Definition block_room (n : node) : Prop :=
  Z.of_nat (length (n_pre n)) + get32 (n_head n) ih_allocated_size ≤ Z.of_nat (length (node_bytes n)).

Lemma head_fields n es :
  node_ok ni n → Z.of_nat (16 + length (n_gap n) + length (concat (es ++ [n_end n]))) < 2 ^ 32 → let h := resized_head n es in
  length h = 16%nat ∧ bytes h ∧ get32 h ih_entries_offset = Z.of_nat (16 + length (n_gap n)) ∧
  get32 h ih_index_length = Z.of_nat (16 + length (n_gap n) + length (concat (es ++ [n_end n]))) ∧
  get32 h ih_allocated_size = get32 (n_head n) ih_allocated_size ∧ get8 h ih_flags = get8 (n_head n) ih_flags.
Proof.
  intros [Hb Hh Ho Hl _ _] Hs. cbv zeta. unfold resized_head. split_and!.
  - by rewrite length_splice by splice_len.
  - apply bytes_splice; [|apply bytes_le_bytes]. unfold node_bytes in Hb. rewrite !bytes_app in Hb. tauto.
  - by rewrite get32_splice_other by splice_len.
  - apply get32_splice; [in_entry|lia].
  - by rewrite get32_splice_other by splice_len.
  - by rewrite get8_splice_other by splice_len.
Qed.

Lemma with_entries_ok n es rest :
  node_ok ni n → bytes rest → Z.of_nat (16 + length (n_gap n) + length (concat (es ++ [n_end n]))) < 2 ^ 32 →
  Forall (λ e, entry_ok e ∧ is_end e = false ∧ data_ok ni e) es → node_ok ni (with_entries n es rest).
Proof.
  intros Hn Hr Hs He. destruct (head_fields n es Hn Hs) as (H1 & H2 & H3 & H4 & _). pose proof Hn as [Hb _ _ _ _ Hf].
  unfold node_bytes in Hb. rewrite !bytes_app in Hb. split; try done. unfold node_bytes, node_all. cbn [n_pre n_head n_gap n_entries n_end n_rest with_entries].
  rewrite !bytes_app. split_and!; try tauto. unfold bytes. apply Forall_concat, list.Forall_app. split.
  - eapply list.Forall_impl; [exact He|]. intros e (Hok & _). apply (entry_bytes _ Hok).
  - constructor; [apply (entry_bytes _ (proj1 Hf))|constructor].
Qed.

Lemma node_bytes_at n es1 es2 :
  n_entries n = es1 ++ es2 →
  node_bytes n = ((n_pre n ++ n_head n ++ n_gap n) ++ concat es1) ++ concat (es2 ++ [n_end n]) ++ n_rest n.
Proof. intros E. unfold node_bytes, node_all. rewrite E, <- (assoc_L (++) es1), concat_app. by rewrite <- !(assoc_L (++)). Qed.

Lemma node_head_bytes n : node_ok ni n → bytes (n_head n) ∧ bytes (n_rest n).
Proof. intros Hn. pose proof (node_is_bytes _ _ Hn) as H. unfold node_bytes in H. rewrite !bytes_app in H. tauto. Qed.

Lemma block_make_space_spec n es1 es2 size :
  node_ok ni n → block_room n → n_entries n = es1 ++ es2 → 0 ≤ size →
  get32 (n_head n) ih_index_length + size ≤ get32 (n_head n) ih_allocated_size →
  ∃ y, length y = Z.to_nat size ∧
    ntfs_index_block_make_space (node_bytes n) (length (n_pre n)) (node_first n + length (concat es1)) size =
      Ret (0, ((n_pre n ++ splice (n_head n) ih_index_length (le_bytes 4 (get32 (n_head n) ih_index_length + size)) ++ n_gap n) ++ concat es1) ++
        y ++ concat (es2 ++ [n_end n]) ++ drop (Z.to_nat size) (n_rest n)) ∧ (Z.to_nat size ≤ length (n_rest n))%nat.
Proof.
  intros Hn Hroom E Hs Hfit. destruct (node_head_bytes n Hn) as [Bh Br]. pose proof (node_head _ _ Hn) as Hh.
  pose proof (get32_range (n_head n) ih_allocated_size Bh). pose proof (get32_range (n_head n) ih_index_length Bh).
  pose proof (node_length _ _ Hn) as HL. unfold block_room in Hroom. rewrite (node_bytes_at n es1 es2 E) in *.
  unfold node_all in HL. rewrite E, <- (assoc_L (++) es1), concat_app in HL.
  set (P := (n_pre n ++ n_head n ++ n_gap n) ++ concat es1) in *. set (X := concat (es2 ++ [n_end n])) in *. rewrite !length_app in *.
  assert (length P = length (n_pre n) + 16 + length (n_gap n) + length (concat es1))%nat as LP.
  { unfold P. rewrite !length_app. lia. }
  exists (take (Z.to_nat size) (X ++ n_rest n)). split; [rewrite length_take, length_app; lia|]. split; [|lia].
  unfold ntfs_index_block_make_space.
  assert (∀ k, (k + 4 ≤ 16)%nat → le32_at (P ++ X ++ n_rest n) (length (n_pre n) + k) = Ret (get32 (n_head n) k)) as Hrd.
  { intros k Hk. unfold P. rewrite <- !(assoc_L (++)). apply le32_part. lia. }
  rewrite !Hrd by in_entry. cbn [mbind outcome_bind]. rewrite uwrap_id, (proj2 (Z.leb_le _ _)) by lia.
  unfold node_first, byte_count. rewrite !length_app. rewrite (proj2 (Z.ltb_ge _ _)) by lia. cbn [mbind outcome_bind].
  replace (Z.to_nat (_ - _)) with (length X) by lia.
  replace (length (n_pre n) + (length (n_head n) + length (n_gap n)) + length (concat es1))%nat with (length P + 0)%nat by lia.
  replace (length P + 0 + Z.to_nat size)%nat with (length P + Z.to_nat size)%nat by lia.
  rewrite memmove_part by (rewrite length_app; lia). cbn [mbind outcome_bind]. rewrite drop_0, take_app_length.
  rewrite (drop_app_ge X) by lia. replace (Z.to_nat size + length X - length X)%nat with (Z.to_nat size) by lia.
  unfold P, put32. rewrite <- !(assoc_L (++)). rewrite put_part by splice_len. done.
Qed.

(** A new entry between [es1] and [es2]. *)
Lemma block_insert_spec n es1 es2 data_ofs size key data :
  node_ok ni n → block_room n → n_entries n = es1 ++ es2 → entry_fits (is_view ni) data_ofs size key data →
  get32 (n_head n) ih_index_length + size ≤ get32 (n_head n) ih_allocated_size →
  let e := new_entry (is_view ni) data_ofs size key data in
  let n' := with_entries n (es1 ++ e :: es2) (drop (Z.to_nat size) (n_rest n)) in
  ∃ b, ntfs_index_block_make_space (node_bytes n) (length (n_pre n)) (node_first n + length (concat es1)) size = Ret (0, b) ∧
    create_entry (is_view ni) b (node_first n + length (concat es1)) data_ofs size key data = Ret (node_bytes n') ∧
    node_ok ni n' ∧ length (node_bytes n') = length (node_bytes n).
Proof.
  intros Hn Hroom E Hf Hfit e n'. pose proof Hf as (_ & _ & Hs & _). pose proof (length_new_entry _ _ _ _ _ Hf) as He. fold e in He.
  destruct (new_entry_ok ni _ _ _ _ Hf) as (Hok & Hend & _ & Hdata & _). fold e in Hok, Hend, Hdata.
  destruct (block_make_space_spec n es1 es2 size Hn Hroom E ltac:(lia) Hfit) as (y & Hy & Hms & Hrest).
  pose proof (node_length _ _ Hn) as HL. destruct (node_head_bytes n Hn) as [Bh Br].
  pose proof (get32_range (n_head n) ih_allocated_size Bh). pose proof (node_head _ _ Hn) as Hh.
  assert (Z.of_nat (16 + length (n_gap n) + length (concat ((es1 ++ e :: es2) ++ [n_end n]))) = get32 (n_head n) ih_index_length + size) as HL'.
  { rewrite HL. unfold node_all. rewrite E, <- !(assoc_L (++)). cbn [app]. rewrite !concat_app. cbn [concat]. rewrite !concat_app. cbn [concat].
    rewrite !length_app. lia. }
  assert (node_ok ni n') as Hn'.
  { apply with_entries_ok; [done|by apply list.Forall_drop|lia|]. pose proof (node_entries _ _ Hn) as Hes. rewrite E in Hes.
    apply list.Forall_app in Hes as [H1 H2]. apply list.Forall_app. split; [done|]. by constructor. }
  eexists. split; [exact Hms|]. split; [|split; [done|]].
  - replace (node_first n + length (concat es1))%nat with
      (length ((n_pre n ++ splice (n_head n) ih_index_length (le_bytes 4 (get32 (n_head n) ih_index_length + size)) ++ n_gap n) ++ concat es1))
      by (unfold node_first; rewrite !length_app, length_splice by splice_len; lia).
    rewrite create_entry_part by done. f_equal. unfold n'. rewrite (node_bytes_at _ es1 (e :: es2)) by done.
    cbn [with_entries n_pre n_head n_gap n_end n_rest]. unfold resized_head. rewrite HL'. cbn [app concat]. by rewrite <- !(assoc_L (++)).
  - unfold n'. rewrite (node_bytes_at _ es1 (e :: es2)), (node_bytes_at n es1 es2) by done. cbn [with_entries n_pre n_head n_gap n_end n_rest].
    unfold resized_head. cbn [app concat]. rewrite !length_app, length_splice, length_drop by splice_len. lia.
Qed.

(** Where the changes are. *)
Lemma with_entries_length n es rest :
  node_ok ni (with_entries n es rest) → get32 (n_head (with_entries n es rest)) ih_index_length = Z.of_nat (16 + length (n_gap n) + length (concat (es ++ [n_end n]))).
Proof. intros Hn. exact (node_length _ _ Hn). Qed.

Lemma insert_shape n es1 es2 e :
  node_ok ni n → n_entries n = es1 ++ es2 → (length e ≤ length (n_rest n))%nat →
  let n' := with_entries n (es1 ++ e :: es2) (drop (length e) (n_rest n)) in
  ∃ x x' tail, node_bytes n = n_pre n ++ x ++ tail ∧ node_bytes n' = n_pre n ++ x' ++ tail ∧
    Z.of_nat (length x) = get32 (n_head n) ih_index_length + Z.of_nat (length e).
Proof.
  intros Hn E Hl n'. exists (n_head n ++ n_gap n ++ concat (node_all n) ++ take (length e) (n_rest n)),
    (resized_head n (es1 ++ e :: es2) ++ n_gap n ++ concat (node_all n')), (drop (length e) (n_rest n)). split_and!.
  - unfold node_bytes. rewrite <- (take_drop (length e) (n_rest n)) at 1. by rewrite <- !(assoc_L (++)).
  - unfold node_bytes. cbn [with_entries n' n_pre n_head n_gap n_rest]. by rewrite <- !(assoc_L (++)).
  - rewrite (node_length _ _ Hn), !length_app, length_take, (node_head _ _ Hn). lia.
Qed.
End block.
