(* ===== verification/IndexUpdate.v ===== *)
(** * Changes of a leaf of an index tree

    The changes of one index block by [IndexModify], seen from the whole tree of [IndexTree]: the
    other blocks are left alone, and the sequence of the entries changes at one place. *)

From Stdlib Require Import Sorted.
From S2P Require Import Prelude Bytes Unistr Collate PageCache MftRecord AttrFind IndexNode IndexLookup IndexTree IndexModify.

(** ** Reads that do not see a change *)

Lemma le16_at_ext b b' i : (∀ j, (j < 2)%nat → b' !! (i + j)%nat = b !! (i + j)%nat) → le16_at b' i = le16_at b i.
Proof.
  intros H. pose proof (H 0%nat ltac:(lia)) as H0. rewrite Nat.add_0_r in H0. unfold le16_at, rd. by rewrite H0, (H 1%nat) by lia.
Qed.

Lemma le32_at_ext b b' i : (∀ j, (j < 4)%nat → b' !! (i + j)%nat = b !! (i + j)%nat) → le32_at b' i = le32_at b i.
Proof.
  intros H. unfold le32_at. rewrite (le16_at_ext b b' i), (le16_at_ext b b' (i + 2)); [done| |].
  - intros j Hj. rewrite <- Nat.add_assoc. apply H. lia.
  - intros j Hj. apply H. lia.
Qed.

Lemma le64_at_ext b b' i : (∀ j, (j < 8)%nat → b' !! (i + j)%nat = b !! (i + j)%nat) → le64_at b' i = le64_at b i.
Proof.
  intros H. unfold le64_at. rewrite (le32_at_ext b b' i), (le32_at_ext b b' (i + 4)); [done| |].
  - intros j Hj. rewrite <- Nat.add_assoc. apply H. lia.
  - intros j Hj. apply H. lia.
Qed.

Section blocks.
Context {env : IndexEnv} (ni : index_inode) (max_entries : Z).
Hypothesis (Hbs : 64 ≤ block_size ni).

Lemma length_page_bytes f ofs : length (page_bytes f ofs) = Z.to_nat PAGE_SIZE.
Proof. unfold page_bytes. by rewrite length_fmap, length_seq. Qed.

Lemma lookup_page_bytes f ofs i : (i < Z.to_nat PAGE_SIZE)%nat → page_bytes f ofs !! i = Some (f (ofs + Z.of_nat i)).
Proof. intros H. unfold page_bytes. rewrite list_lookup_fmap, lookup_seq_lt by done. done. Qed.

(** The page of a block and its place in the page. *)
Lemma block_place v : block_page ni v + block_ofs ni v = block_pos ni v ∧ 0 ≤ block_ofs ni v < PAGE_SIZE.
Proof.
  unfold block_page, block_ofs. rewrite page_round, page_pos_u32. pose proof PAGE_SIZE_pos. split; [|by apply Z.mod_pos_bound].
  symmetry. apply Z.div_mod. lia.
Qed.

(** The checks that a block passes. *)
Record block_checked (b : list Z) (ia v : Z) : Prop := {
  checked_place : 0 ≤ ia ∧ ia + block_size ni ≤ PAGE_SIZE;
  checked_magic : le32_at b (Z.to_nat ia + ia_magic) = Ret magic_INDX;
  checked_vcn : ∃ x, le64_at b (Z.to_nat ia + ia_index_block_vcn) = Ret x ∧ s64 x = v;
  checked_alloc : le32_at b (Z.to_nat ia + ia_index + ih_allocated_size) = Ret (block_size ni - 24);
  checked_length : ∃ l, le32_at b (Z.to_nat ia + ia_index + ih_index_length) = Ret l ∧ 24 + l ≤ block_size ni
}.

Lemma check_index_block_iff b ia v : check_index_block ni b ia v = Ret true ↔ block_checked b ia v.
Proof.
  unfold check_index_block. change (Z.of_nat ia_index) with 24. split.
  - destruct (Z.ltb_spec ia 0); cbn [orb]; [done|]. destruct (Z.ltb_spec PAGE_SIZE ia); [done|]. intros H1.
    apply bind_Ret_inv in H1 as (magic & Hm & H1). destruct (Z.eqb_spec magic magic_INDX) as [-> |]; cbn [negb] in H1; [|done].
    apply bind_Ret_inv in H1 as (x & Hx & H1). destruct (Z.eqb_spec (s64 x) v) as [Ev|]; cbn [negb] in H1; [|done].
    apply bind_Ret_inv in H1 as (al & Ha & H1). destruct (Z.eqb_spec (24 + al) (block_size ni)) as [Ea|]; cbn [negb] in H1; [|done].
    destruct (Z.ltb_spec PAGE_SIZE (ia + block_size ni)); [done|]. apply bind_Ret_inv in H1 as (l & Hl & H1).
    destruct (Z.ltb_spec (ia + block_size ni) (ia + 24 + l)); [done|]. split; try done; [by exists x| |].
    + rewrite Ha. f_equal. lia.
    + exists l. split; [done|lia].
  - intros [[H1 H2] Hm (x & Hx & Ev) Ha (l & Hl & Hle)]. rewrite (proj2 (Z.ltb_ge ia 0)), (proj2 (Z.ltb_ge PAGE_SIZE ia)) by lia.
    cbn [orb]. rewrite Hm. cbn [mbind outcome_bind]. rewrite Z.eqb_refl. cbn [negb]. rewrite Hx. cbn [mbind outcome_bind].
    rewrite Ev, Z.eqb_refl. cbn [negb]. rewrite Ha. cbn [mbind outcome_bind]. rewrite (proj2 (Z.eqb_eq (24 + _) _)) by lia. cbn [negb].
    rewrite (proj2 (Z.ltb_ge PAGE_SIZE _)) by lia. rewrite Hl. cbn [mbind outcome_bind]. by rewrite (proj2 (Z.ltb_ge _ _)) by lia.
Qed.

(** A block is read the same if its bytes are the same. *)
Lemma block_checked_ext b b' ia v :
  (∀ i, ia ≤ Z.of_nat i < ia + block_size ni → b' !! i = b !! i) → block_checked b ia v → block_checked b' ia v.
Proof.
  intros Hext [[H1 H2] Hm (x & Hx & Ev) Ha (l & Hl & Hle)].
  split; [done| |exists x; split; [|done]| |exists l; split; [|done]]; [rewrite (le32_at_ext b)|rewrite (le64_at_ext b)|rewrite (le32_at_ext b)..]; try done;
    intros j Hj; apply Hext; unfold ia_magic, ia_index_block_vcn, ia_index, ih_allocated_size, ih_index_length; lia.
Qed.

(** A node in the buffer [b], whose block has the same bytes in [b']. *)
Lemma stored_node_ext b b' ia v n t :
  bytes b' → length b' = length b → block_checked b ia v → (∀ i, ia ≤ Z.of_nat i < ia + block_size ni → b' !! i = b !! i) →
  stored_node ni max_entries b (Z.to_nat ia + ia_index) n t → ∃ n', stored_node ni max_entries b' (Z.to_nat ia + ia_index) n' t.
Proof.
  intros Hb' Hlen Hc Hext Hn. pose proof Hn as [Eb Hpre Hok Hm He]. pose proof Hc as [[Hia _] _ _ _ (l & Hl & Hle)].
  pose proof (node_length _ _ Hok) as HL. pose proof (node_head _ _ Hok) as Hh.
  assert (l = get32 (n_head n) ih_index_length) as -> by (rewrite (node_head32 _ _ _ _ _ _ _ Hn) in Hl by in_entry; congruence).
  set (mid := n_head n ++ n_gap n ++ concat (node_all n)).
  assert (b = n_pre n ++ mid ++ n_rest n) as Eb2 by (rewrite <- Eb; unfold node_bytes, mid; by rewrite <- !(assoc_L (++))).
  assert (Z.of_nat (length mid) = get32 (n_head n) ih_index_length) as Lm by (rewrite HL; unfold mid; rewrite !length_app; lia).
  set (o := (Z.to_nat ia + ia_index)%nat) in *. unfold ia_index in *.
  assert (take (length mid) (drop o b') = mid) as Emid.
  { apply list_eq. intros i. destruct (decide (i < length mid)%nat) as [Hi|Hi].
    - rewrite lookup_take_lt, lookup_drop, Hext by lia. rewrite Eb2, lookup_app_r, lookup_app_l by lia. f_equal. lia.
    - rewrite lookup_take_ge, lookup_ge_None_2 by lia. done. }
  exists (mk_node (take o b') (n_head n) (n_gap n) (n_entries n) (n_end n) (drop (o + length mid) b')).
  assert (length b = o + length mid + length (n_rest n))%nat as Lb by (rewrite Eb2, !length_app; lia).
  assert (take o b' ++ mid ++ drop (o + length mid) b' = b') as Eb'.
  { rewrite <- (take_drop o b') at 3. f_equal. rewrite <- Emid at 1. by rewrite <- drop_drop, take_drop. }
  assert (node_bytes (mk_node (take o b') (n_head n) (n_gap n) (n_entries n) (n_end n) (drop (o + length mid) b')) = b') as En.
  { rewrite <- Eb' at 3. unfold node_bytes, mid. cbn [n_pre n_head n_gap n_rest]. change (node_all (mk_node _ _ _ _ _ _)) with (node_all n).
    by rewrite <- !(assoc_L (++)). }
  split; [exact En| | |exact Hm|exact He].
  - cbn [n_pre]. rewrite length_take. lia.
  - destruct Hok. split; try done. by rewrite En.
Qed.

(** ** The blocks of a tree *)

Fixpoint blocks (t : btree) (v : Z) {struct t} : list Z :=
  match t with
  | Node es fin kids =>
      v :: (fix go (es : list (list Z)) (kids : list btree) {struct kids} : list Z :=
        match kids, es with
        | k :: kids, e :: es => blocks k (e_vcn e) ++ go es kids
        | _, _ => []
        end) (es ++ [fin]) kids
  end.
Fixpoint kid_blocks (es : list (list Z)) (kids : list btree) {struct kids} : list Z :=
  match kids, es with
  | k :: kids, e :: es => blocks k (e_vcn e) ++ kid_blocks es kids
  | _, _ => []
  end.

Lemma blocks_node es fin kids v : blocks (Node es fin kids) v = v :: kid_blocks (es ++ [fin]) kids.
Proof. reflexivity. Qed.

Lemma kid_blocks_elem es kids k e kid u :
  es !! k = Some e → kids !! k = Some kid → u ∈ blocks kid (e_vcn e) → u ∈ kid_blocks es kids.
Proof.
  revert es k. induction kids as [|kid' kids IH]; intros [|e' es] [|k]; cbn; try done.
  - intros [= ->] [= ->] Hu. apply elem_of_app. by left.
  - intros He Hk Hu. apply elem_of_app. right. by eapply IH.
Qed.

(** Two contents have the same bytes in the block [v]. *)
Definition agree (f f' : contents) (v : Z) : Prop := ∀ i, block_pos ni v ≤ i < block_pos ni v + block_size ni → f' i = f i.

Lemma bytes_page f ofs : byte_contents f → bytes (page_bytes f ofs).
Proof. intros H. unfold bytes, page_bytes. apply list.Forall_fmap, list.Forall_true. intros i. apply H. Qed.

Lemma agree_page f f' v i :
  agree f f' v → block_ofs ni v + block_size ni ≤ PAGE_SIZE → block_ofs ni v ≤ Z.of_nat i < block_ofs ni v + block_size ni →
  page_bytes f' (block_page ni v) !! i = page_bytes f (block_page ni v) !! i.
Proof.
  intros Ha Hin Hi. destruct (block_place v) as [Hp _]. rewrite !lookup_page_bytes by lia. f_equal. apply Ha. lia.
Qed.

(** A tree is still stored if its blocks have not changed. *)
Lemma stored_block_frame f f' t v :
  byte_contents f' → stored_block ni max_entries f t v → (∀ u, u ∈ blocks t v → agree f f' u) → stored_block ni max_entries f' t v.
Proof.
  intros Hb'. revert v. induction t as [es fin kids IH] using btree_all. intros v Hs Ha.
  destruct Hs as (Hv & Hleaf & Hc & (n & Hn) & Hkids). apply check_index_block_iff in Hc. pose proof (checked_place _ _ _ Hc) as [_ Hin].
  assert (∀ i, block_ofs ni v ≤ Z.of_nat i < block_ofs ni v + block_size ni →
    page_bytes f' (block_page ni v) !! i = page_bytes f (block_page ni v) !! i) as Hext.
  { intros i Hi. apply agree_page; [|done|done]. apply Ha. rewrite blocks_node. left. }
  cbn [stored_block]. split; [done|]. split; [done|]. split; [apply check_index_block_iff; by eapply block_checked_ext|].
  split; [eapply stored_node_ext; [by apply bytes_page|by rewrite !length_page_bytes|done..]|].
  assert (∀ u, u ∈ kid_blocks (es ++ [fin]) kids → agree f f' u) as Ha'.
  { intros u Hu. apply Ha. rewrite blocks_node. by right. }
  clear -IH Hkids Ha'. revert Hkids Ha'. generalize (es ++ [fin]). induction IH as [|k kids Hk _ IHk]; intros [|e l] Hkids Ha'; [done..|].
  destruct Hkids as [H1 H2]. split.
  - apply Hk; [done|]. intros u Hu. apply Ha'. cbn. apply elem_of_app. by left.
  - apply IHk; [done|]. intros u Hu. apply Ha'. cbn. apply elem_of_app. by right.
Qed.

(** The blocks of one child and the ones of the other children. *)
Lemma kid_blocks_split es kids k e kid :
  es !! k = Some e → kids !! k = Some kid →
  ∃ L R, (∀ kid', kid_blocks es (<[k := kid']> kids) = L ++ blocks kid' (e_vcn e) ++ R) ∧
    ∀ j e' kid', j ≠ k → es !! j = Some e' → kids !! j = Some kid' → ∀ u, u ∈ blocks kid' (e_vcn e') → u ∈ L ++ R.
Proof.
  revert es k. induction kids as [|x kids IH]; intros [|y es] [|k]; cbn; try done.
  - intros [= ->] [= ->]. exists [], (kid_blocks es kids). split; [done|]. intros [|j] e' kid' Hj; cbn; [done|]. intros He Hk u Hu.
    by eapply kid_blocks_elem.
  - intros He Hk. destruct (IH es k He Hk) as (L & R & H1 & H2). exists (blocks x (e_vcn y) ++ L), R. split.
    + intros kid'. by rewrite H1, <- !(assoc_L (++)).
    + intros [|j] e' kid' Hj; cbn.
      * intros [= <-] [= <-] u Hu. rewrite <- (assoc_L (++)). apply elem_of_app. by left.
      * intros He' Hk' u Hu. rewrite <- (assoc_L (++)). apply elem_of_app. right. apply (H2 j e' kid'); [lia|done..].
Qed.

Lemma before_insert {A} k (es : list A) ls x : before k es (<[k := x]> ls) = before k es ls.
Proof.
  revert es ls. induction k as [|k IH]; intros [|e es] [|l ls]; try done. cbn. by rewrite IH.
Qed.

Lemma after_insert {A} k (es : list A) ls x : after k es (<[k := x]> ls) = after k es ls.
Proof. revert es ls. induction k as [|k IH]; intros [|e es] [|l ls]; try done. cbn. apply IH. Qed.

Lemma inorder_insert es fin kids k kid :
  (k ≤ length es)%nat → (k < length kids)%nat →
  inorder (Node es fin (<[k := kid]> kids)) = before k es (inorder <$> kids) ++ inorder kid ++ after k es (inorder <$> kids).
Proof.
  intros Hk Hl. cbn [inorder]. rewrite list_fmap_insert, (interleave_split k), before_insert, after_insert by done. do 2 f_equal.
  rewrite nth_lookup, list_lookup_insert_eq by (by rewrite length_fmap). done.
Qed.

(** The blocks of an index: the root is not one of them. *)
Definition all_blocks (T : btree) : list Z := match T with Node es fin kids => kid_blocks (es ++ [fin]) kids end.

Lemma stored_block_intro f es fin kids v :
  0 ≤ v → (kids = [] → es ≠ []) → check_index_block ni (page_bytes f (block_page ni v)) (block_ofs ni v) v = Ret true →
  (∃ n, stored_node ni max_entries (page_bytes f (block_page ni v)) (Z.to_nat (block_ofs ni v) + ia_index) n (Node es fin kids)) →
  stored_children ni max_entries f (es ++ [fin]) kids → stored_block ni max_entries f (Node es fin kids) v.
Proof.
  intros H1 H2 H3 H4 Hch. cbn [stored_block]. do 4 (split; [done|]). clear -Hch. revert Hch. generalize (es ++ [fin]).
  induction kids as [|k kids IH]; intros [|e l] H; [done..|]. split; [by apply (H 0%nat)|]. apply IH. intros j e' k'. apply (H (S j)).
Qed.

(** The node does not depend on what the children are. *)
Lemma stored_node_kids b index n es fin kids kids' :
  length kids' = length kids → stored_node ni max_entries b index n (Node es fin kids) →
  stored_node ni max_entries b index n (Node es fin kids').
Proof.
  intros Hl [H1 H2 H3 H4 (H5 & H6 & H7 & H8 & H9)].
  assert (bool_decide (kids' ≠ []) = bool_decide (kids ≠ [])) as E.
  { apply bool_decide_ext. by destruct kids, kids'. }
  split; try done. rewrite E. split_and!; try done. destruct H7 as [-> |H7]; [left; by apply nil_length_inv|right; lia].
Qed.

(** New children of a node whose block has not changed. *)
Lemma replace_node f f' es fin kids kids' v :
  stored_block ni max_entries f (Node es fin kids) v → byte_contents f' → length kids' = length kids →
  stored_children ni max_entries f' (es ++ [fin]) kids' → agree f f' v → stored_block ni max_entries f' (Node es fin kids') v.
Proof.
  intros (Hv & Hleaf & Hc & (n & Hn) & _) Hb' Hl Hch Ha. apply check_index_block_iff in Hc. pose proof (checked_place _ _ _ Hc) as [_ Hin].
  assert (∀ i, block_ofs ni v ≤ Z.of_nat i < block_ofs ni v + block_size ni →
    page_bytes f' (block_page ni v) !! i = page_bytes f (block_page ni v) !! i) as Hext by (intros i Hi; by apply agree_page).
  apply stored_block_intro; [done| | | |done].
  - intros ->. apply Hleaf. by apply nil_length_inv.
  - apply check_index_block_iff. by eapply block_checked_ext.
  - destruct (stored_node_ext _ (page_bytes f' (block_page ni v)) _ _ _ _ (bytes_page _ _ Hb') ltac:(by rewrite !length_page_bytes) Hc Hext Hn) as [n' Hn'].
    exists n'. by eapply stored_node_kids.
Qed.

Section update.
Context (root : nat) (m : list Z) (f f' : contents) (T : btree) (v : Z).
Hypothesis (HT : stored_index ni max_entries root m f T) (Hbytes : byte_contents f') (Hdup : NoDup (all_blocks T)).
Hypothesis (Hagree : ∀ u, u ∈ all_blocks T → u ≠ v → agree f f' u).
Abbreviation path_to := (path_to ni max_entries root m f).

(** The block that a path leads to. *)
Lemma path_block p t pre post :
  path_to T p t pre post →
  (t = T ∧ ∃ c, p = [c]) ∨
  ∃ c up w L R, p = c :: up ∧ block_context ni f c w ∧ stored_block ni max_entries f t w ∧ all_blocks T = L ++ blocks t w ++ R.
Proof.
  induction 1 as [c|c c' up k es fin kids kid e pre post Hp IH Hk Hkid Hl Hd Hr He Hbc]; [left; eauto|]. right.
  pose proof (path_to_describes _ _ _ _ _ _ _ _ _ _ _ Hp) as [_ _ _ _ Hch]. pose proof (Hch k e kid He Hkid) as Hs.
  destruct (kid_blocks_split _ _ k e kid He Hkid) as (L & R & Hkb & _). specialize (Hkb kid). rewrite list_insert_id in Hkb by done.
  exists c, (c' :: up), (e_vcn e). destruct IH as [[ET _]|(c1 & up1 & w1 & L1 & R1 & _ & _ & _ & E1)].
  - exists L, R. split_and!; try done. unfold all_blocks. rewrite <- ET. done.
  - exists (L1 ++ w1 :: L), (R ++ R1). split_and!; try done. rewrite E1, blocks_node, Hkb. cbn [app]. by rewrite <- !(assoc_L (++)).
Qed.

(** The blocks below a node of the tree. *)
Lemma path_kid_blocks p es fin kids pre post :
  path_to T p (Node es fin kids) pre post →
  NoDup (kid_blocks (es ++ [fin]) kids) ∧ ∀ u, u ∈ kid_blocks (es ++ [fin]) kids → u ∈ all_blocks T.
Proof.
  clear HT Hagree Hbytes. intros Hp. destruct (path_block _ _ _ _ Hp) as [[ET _]|(? & ? & w & L1 & R1 & _ & _ & _ & E1)].
  - unfold all_blocks in *. rewrite <- ET in *. by split.
  - rewrite blocks_node in E1. split; [|intros u Hu; rewrite E1, !elem_of_app, elem_of_cons; tauto].
    rewrite E1 in Hdup. apply list.NoDup_app in Hdup as (_ & _ & Hx). apply list.NoDup_app in Hx as (Hx & _).
    by apply list.NoDup_cons in Hx as [_ Hx].
Qed.

(** The children of a node if the one with the block [v] is replaced. *)
Lemma new_children c up es fin kids pre post k e kid kid' :
  path_to T (c :: up) (Node es fin kids) pre post → (es ++ [fin]) !! k = Some e → kids !! k = Some kid → v ∈ blocks kid (e_vcn e) →
  stored_block ni max_entries f' kid' (e_vcn e) → stored_children ni max_entries f' (es ++ [fin]) (<[k := kid']> kids).
Proof.
  intros Hp He Hkid Hv Hs. pose proof (path_to_describes _ _ _ _ _ _ _ _ _ _ _ Hp) as [_ _ _ _ Hch]. destruct (path_kid_blocks _ _ _ _ _ _ Hp) as [Hnd Hsub].
  destruct (kid_blocks_split _ _ k e _ He Hkid) as (L & R & Hsplit & Hothers). specialize (Hsplit kid). rewrite list_insert_id in Hsplit by done.
  rewrite Hsplit in Hnd. apply list.NoDup_app in Hnd as (_ & HndL & Hnd). apply list.NoDup_app in Hnd as (_ & HndR & _).
  assert (∀ u, u ∈ L ++ R → u ≠ v) as HLR.
  { intros u [Hu|Hu]%elem_of_app ->; [apply (HndL v Hu)|by apply (HndR v Hv)]. rewrite elem_of_app. by left. }
  intros j e' kid2 He' Hk'. destruct (decide (j = k)) as [-> |Hj].
  - rewrite list_lookup_insert_eq in Hk' by (by eapply lookup_lt_Some). injection Hk' as <-. by assert (e' = e) as -> by congruence.
  - rewrite list_lookup_insert_ne in Hk' by done. eapply stored_block_frame; [done|by apply (Hch j)|].
    intros u Hu. apply Hagree; [|eapply HLR, Hothers; done]. apply Hsub. by eapply kid_blocks_elem.
Qed.

(** New children of a node on the path to [v]. *)
Lemma replace_kids p t pre post :
  path_to T p t pre post → match t with Node es fin kids => ∀ kids',
    v ∈ kid_blocks (es ++ [fin]) kids → length kids' = length kids → stored_children ni max_entries f' (es ++ [fin]) kids' →
    kid_blocks (es ++ [fin]) kids' = kid_blocks (es ++ [fin]) kids →
    ∃ T', stored_index ni max_entries root m f' T' ∧ inorder T' = pre ++ inorder (Node es fin kids') ++ post ∧ all_blocks T' = all_blocks T end.
Proof.
  intros Hpath. induction Hpath as [c Hd Hr Hi|c c' up k es0 fin0 kids0 kid e pre post Hp IH Hk Hkid Hl Hd Hr He Hbc].
  - destruct T as [es fin kids] eqn:ET. intros kids' _ Hlen Hch Hkb. exists (Node es fin kids'). split; [|split; [by rewrite app_nil_r|exact Hkb]].
    destruct HT as [H1 H2 (n & Hn) H4 H5 H6 H7]. split; try done; [exists n; by eapply stored_node_kids|].
    intros Hne. apply H4. intros ->. by destruct kids'.
  - destruct kid as [es fin kids]. intros kids' Hv Hlen Hch Hkb. pose proof (path_to_describes _ _ _ _ _ _ _ _ _ _ _ Hp) as Hd0.
    destruct (path_kid_blocks _ _ _ _ _ _ Hp) as [Hnd Hsub]. destruct (kid_blocks_split _ _ k e _ He Hkid) as (L & R & Hsplit & _).
    pose proof (Hsplit (Node es fin kids)) as E0. rewrite list_insert_id in E0 by done. rewrite blocks_node in E0.
    assert (e_vcn e ≠ v) as Hne.
    { rewrite E0 in Hnd. apply list.NoDup_app in Hnd as (_ & _ & Hx). apply list.NoDup_app in Hx as (Hx & _).
      apply list.NoDup_cons in Hx as [Hx _]. by intros E; rewrite E in Hx. }
    destruct (IH (<[k := Node es fin kids']> kids0)) as (T' & HT' & Ein & Eall).
    + eapply kid_blocks_elem; [exact He|exact Hkid|]. rewrite blocks_node. by right.
    + apply length_insert.
    + eapply new_children; [exact Hp|done|exact Hkid|rewrite blocks_node; by right|].
      eapply replace_node; [by eapply (describes_children _ _ _ _ _ _ Hd0)|done|done|done|]. apply Hagree; [|done]. apply Hsub. rewrite E0. apply elem_of_app. right. left.
    + rewrite Hsplit, blocks_node, Hkb. by rewrite <- E0.
    + exists T'. split; [done|]. split; [|done]. rewrite Ein. destruct (positioned_entry _ _ _ _ _ _ _ _ _ Hd0 Hk) as [Hle _].
      rewrite inorder_insert by (done || by eapply lookup_lt_Some). by rewrite <- !(assoc_L (++)).
Qed.

(** New entries of the leaf in the block [v]. *)
Lemma replace_leaf c up es fin kids k e l fin1 l' pre post :
  path_to T (c :: up) (Node es fin kids) pre post → (k ≤ length es)%nat → (es ++ [fin]) !! k = Some e → kids !! k = Some (Node l fin1 []) →
  e_vcn e = v → stored_block ni max_entries f' (Node l' fin1 []) v →
  ∃ T', stored_index ni max_entries root m f' T' ∧ all_blocks T' = all_blocks T ∧
    inorder T' = (pre ++ before k es (inorder <$> kids)) ++ l' ++ after k es (inorder <$> kids) ++ post.
Proof.
  intros Hp Hle He Hkid Ev Hs. pose proof (replace_kids _ _ _ _ Hp (<[k := Node l' fin1 []]> kids)) as Hr. rewrite <- Ev in Hs.
  destruct (kid_blocks_split _ _ k e _ He Hkid) as (L & R & Hsplit & _).
  assert (v ∈ blocks (Node l fin1 []) (e_vcn e)) as Hin by (rewrite Ev; left).
  destruct Hr as (T' & HT' & Ein & Eall).
  - by eapply kid_blocks_elem.
  - apply length_insert.
  - by eapply new_children.
  - rewrite Hsplit. pose proof (Hsplit (Node l fin1 [])) as E0. rewrite list_insert_id in E0 by done. by rewrite E0.
  - exists T'. split; [done|]. split; [done|]. rewrite Ein, inorder_insert by (done || by eapply lookup_lt_Some). cbn [inorder fmap list_fmap].
    by rewrite interleave_leaf, <- !(assoc_L (++)).
Qed.
End update.

(** ** A change of one block *)

(** Different blocks of the tree are different places of the index allocation. *)
Record blocks_ok (T : btree) : Prop := {
  blocks_nodup : NoDup (all_blocks T);
  blocks_aligned : Forall (λ v, block_pos ni v mod block_size ni = 0) (all_blocks T);
  blocks_apart : ∀ u v, u ∈ all_blocks T → v ∈ all_blocks T → u ≠ v → block_pos ni u ≠ block_pos ni v
}.

Lemma page_bytes_store f ofs b : Z.of_nat (length b) = PAGE_SIZE → page_bytes (page_store f ofs b) ofs = b.
Proof.
  intros Hl. apply list_eq. intros i. destruct (decide (i < length b)%nat) as [Hi|Hi].
  - rewrite lookup_page_bytes by lia. unfold page_store. rewrite (proj2 (Z.leb_le _ _)), (proj2 (Z.ltb_lt _ _)) by lia. cbn [andb].
    replace (Z.to_nat (ofs + Z.of_nat i - ofs)) with i by lia. rewrite nth_lookup. by destruct (lookup_lt_is_Some_2 b i Hi) as [x ->].
  - rewrite !lookup_ge_None_2; [done|lia|]. rewrite length_page_bytes. lia.
Qed.

Lemma byte_contents_store f ofs b : byte_contents f → bytes b → byte_contents (page_store f ofs b).
Proof.
  intros Hf Hb i. unfold page_store. destruct (_ && _); [|apply Hf]. apply (get8_range b _ Hb).
Qed.

(** Only a part of the page is changed. *)
Lemma page_store_other f ofs p x x' q i :
  page_bytes f ofs = p ++ x ++ q → length x' = length x → ¬ (ofs + Z.of_nat (length p) ≤ i < ofs + Z.of_nat (length p + length x)) →
  page_store f ofs (p ++ x' ++ q) i = f i.
Proof.
  intros E Hl Hi. unfold page_store. destruct (Z.leb_spec ofs i); [|done]. cbn [andb]. destruct (Z.ltb_spec i (ofs + Z.of_nat (length (p ++ x' ++ q)))) as [Hin|]; [|done].
  set (j := Z.to_nat (i - ofs)). assert (i = ofs + Z.of_nat j) as Hj by lia.
  assert (length (p ++ x' ++ q) = length (p ++ x ++ q)) as Hlen by (rewrite !length_app; lia).
  assert (j < Z.to_nat PAGE_SIZE)%nat as Hlt by (rewrite <- (length_page_bytes f ofs), E, <- Hlen; lia).
  pose proof (lookup_page_bytes f ofs j Hlt) as Hf. rewrite E, <- Hj in Hf. rewrite nth_lookup.
  assert ((p ++ x' ++ q) !! j = (p ++ x ++ q) !! j) as ->; [|by rewrite Hf].
  destruct (decide (j < length p)%nat); [by rewrite !lookup_app_l by lia|]. rewrite !(lookup_app_r p) by lia.
  rewrite !(lookup_app_r _ q) by lia. by rewrite Hl.
Qed.

Lemma aligned_apart a b n i : 0 < n → a mod n = 0 → b mod n = 0 → a ≠ b → a ≤ i < a + n → b ≤ i < b + n → False.
Proof.
  intros Hn [p ->]%Z.mod_divide [q ->]%Z.mod_divide Hne H1 H2; [|lia..]. assert (p < q + 1) by (apply (Z.mul_lt_mono_pos_r n); lia).
  assert (q < p + 1) by (apply (Z.mul_lt_mono_pos_r n); lia). apply Hne. f_equal. lia.
Qed.

(** The other blocks keep their bytes. *)
Lemma agree_others f T v p x x' q :
  blocks_ok T → v ∈ all_blocks T → page_bytes f (block_page ni v) = p ++ x ++ q → length x' = length x →
  Z.of_nat (length p) = block_ofs ni v + 24 → Z.of_nat (length p + length x) ≤ block_ofs ni v + block_size ni →
  ∀ u, u ∈ all_blocks T → u ≠ v → agree f (page_store f (block_page ni v) (p ++ x' ++ q)) u.
Proof.
  intros [_ Hal Hapart] Hv E Hl Hp Hx u Hu Hne i Hi. eapply page_store_other; [exact E|done|]. intros Hi'.
  destruct (block_place v) as [Hpos _]. rewrite list.Forall_forall in Hal.
  eapply (aligned_apart (block_pos ni u) (block_pos ni v) (block_size ni) i); [lia|by apply Hal..|by apply Hapart|done|lia].
Qed.

(** A leaf with other entries. *)
Lemma changed_leaf f n l fin1 v l' rest :
  stored_node ni max_entries (page_bytes f (block_page ni v)) (Z.to_nat (block_ofs ni v) + ia_index) n (Node l fin1 []) →
  node_ok ni (with_entries n l' rest) → Forall (λ e, is_node e = false) l' → Z.of_nat (length l' + 1) ≤ max_entries →
  stored_node ni max_entries (node_bytes (with_entries n l' rest)) (Z.to_nat (block_ofs ni v) + ia_index) (with_entries n l' rest) (Node l' fin1 []) ∧
  get32 (n_head (with_entries n l' rest)) ih_allocated_size = get32 (n_head n) ih_allocated_size.
Proof.
  intros [Eb Hpre Hok _ (El & Efin & _ & Hflags & Hnodes)] Hn' Hleaf Hmax.
  destruct (head_fields ni n l' Hok) as (_ & _ & _ & _ & Ha & Hf).
  { pose proof (node_length _ _ Hn') as HL. destruct (node_head_bytes _ _ Hn') as [Bh _].
    pose proof (get32_range _ ih_index_length Bh) as Hr. rewrite HL in Hr. apply Hr. }
  split; [|exact Ha]. split; [done|exact Hpre|done| |].
  - unfold node_all. rewrite length_app. exact Hmax.
  - cbn [with_entries n_entries n_end n_head]. split; [done|]. split; [done|]. split; [by left|]. split; [by rewrite Hf|].
    apply list.Forall_app. split; [done|]. apply list.Forall_app in Hnodes as [_ Hnodes]. done.
Qed.

(** The block [v] is changed in its page: the entries of its leaf become [l']. *)
Lemma change_leaf root m f T c up es fin kids k e l fin1 pre post n l' rest x x' tail :
  stored_index ni max_entries root m f T → blocks_ok T → byte_contents f →
  path_to ni max_entries root m f T (c :: up) (Node es fin kids) pre post → (k ≤ length es)%nat → (es ++ [fin]) !! k = Some e →
  kids !! k = Some (Node l fin1 []) → let v := e_vcn e in
  stored_node ni max_entries (page_bytes f (block_page ni v)) (Z.to_nat (block_ofs ni v) + ia_index) n (Node l fin1 []) →
  let n' := with_entries n l' rest in
  node_ok ni n' → length (node_bytes n') = length (node_bytes n) → l' ≠ [] → Forall (λ e, is_node e = false) l' →
  Z.of_nat (length l' + 1) ≤ max_entries → get32 (n_head n') ih_index_length ≤ get32 (n_head n) ih_allocated_size →
  node_bytes n = n_pre n ++ x ++ tail → node_bytes n' = n_pre n ++ x' ++ tail → Z.of_nat (length x) ≤ get32 (n_head n) ih_allocated_size →
  let f' := page_store f (block_page ni v) (node_bytes n') in
  byte_contents f' ∧ ∃ T', stored_index ni max_entries root m f' T' ∧ blocks_ok T' ∧
    inorder T' = (pre ++ before k es (inorder <$> kids)) ++ l' ++ after k es (inorder <$> kids) ++ post.
Proof.
  intros HT Hblocks Hbytes Hp Hle He Hkid v Hn n' Hn' Hlen Hne Hleaf Hmax Hfit E E' Hx f'.
  pose proof Hn as [Eb Hpre Hok _ (El & Efin & _ & Hflags & Hnodes)].
  pose proof (path_to_describes _ _ _ _ _ _ _ _ _ _ _ Hp) as [_ _ _ _ Hch]. pose proof (Hch k e _ He Hkid) as Hs. fold v in Hs.
  destruct Hs as (Hv & _ & Hcheck & _ & _). apply check_index_block_iff in Hcheck. pose proof Hcheck as [[Hia Hin] Hmagic Hvcn Halloc Hilen].
  assert (get32 (n_head n) ih_allocated_size = block_size ni - 24) as Ea.
  { pose proof (node_head32 _ _ _ _ _ _ ih_allocated_size Hn ltac:(in_entry)) as Hx'. rewrite Halloc in Hx'. congruence. }
  assert (length x' = length x) as Lx.
  { rewrite E, E' in Hlen. rewrite !length_app in Hlen. lia. }
  assert (Z.of_nat (length (node_bytes n')) = PAGE_SIZE) as Lb.
  { rewrite Hlen, Eb, length_page_bytes. pose proof PAGE_SIZE_pos. lia. }
  assert (byte_contents f') as Hbytes' by (apply byte_contents_store; [done|apply Hn']). split; [done|].
  assert (page_bytes f' (block_page ni v) = node_bytes n') as Ep by (by apply page_bytes_store).
  assert (v ∈ all_blocks T) as Hvin.
  { apply (path_kid_blocks root m f T (blocks_nodup _ Hblocks) _ _ _ _ _ _ Hp). eapply kid_blocks_elem; [exact He|exact Hkid|]. left. }
  destruct (changed_leaf f n l fin1 v l' rest Hn Hn' Hleaf Hmax) as [Hstored Ea'].
  assert (stored_block ni max_entries f' (Node l' fin1 []) v) as Hnew.
  { apply stored_block_intro; [done|done| |rewrite Ep; by exists n'|done]. apply check_index_block_iff. rewrite Ep.
    assert (∀ i, Z.of_nat i < block_ofs ni v + 24 → node_bytes n' !! i = page_bytes f (block_page ni v) !! i) as Hext.
    { intros i Hi. rewrite E', <- Eb, E. unfold ia_index in Hpre. by rewrite !lookup_app_l by lia. }
    split; [done| | | |].
    - rewrite (le32_at_ext (page_bytes f (block_page ni v))); [done|]. intros j Hj. apply Hext. unfold ia_magic. lia.
    - destruct Hvcn as (y & Hy & Ey). exists y. split; [|done]. rewrite (le64_at_ext (page_bytes f (block_page ni v))); [done|].
      intros j Hj. apply Hext. unfold ia_index_block_vcn. lia.
    - rewrite (node_head32 _ _ _ _ _ _ _ Hstored) by in_entry. unfold n'. by rewrite Ea', Ea.
    - eexists. split; [apply (node_head32 _ _ _ _ _ _ _ Hstored); in_entry|]. fold n'. lia. }
  destruct (replace_leaf root m f f' T v HT Hbytes' (blocks_nodup _ Hblocks)) with (c := c) (up := up) (es := es) (fin := fin) (kids := kids)
    (k := k) (e := e) (l := l) (fin1 := fin1) (l' := l') (pre := pre) (post := post) as (T' & HT' & Eall & Ein); try done.
  - unfold f'. rewrite E'. apply (agree_others f T v (n_pre n) x x' tail); try done; [by rewrite <- Eb|unfold ia_index in Hpre; lia..].
  - exists T'. split; [done|]. split; [|done]. destruct Hblocks. split; by rewrite Eall.
Qed.

(** ** Insertions *)

Lemma sorted_insert_middle {A} (R : A → A → Prop) l1 x l2 :
  StronglySorted R (l1 ++ l2) → Forall (λ y, R y x) l1 → Forall (R x) l2 → StronglySorted R (l1 ++ x :: l2).
Proof.
  induction l1 as [|y l1 IH]; cbn; intros Hs H1 H2; [by constructor|]. apply StronglySorted_inv in Hs as [Hs Hy]. apply list.Forall_cons in H1 as [Hx H1].
  constructor; [by apply IH|]. apply list.Forall_app in Hy as [Hy1 Hy2]. apply list.Forall_app. split; [done|]. by constructor.
Qed.

Lemma sorted_remove_middle {A} (R : A → A → Prop) l1 x l2 : StronglySorted R (l1 ++ x :: l2) → StronglySorted R (l1 ++ l2).
Proof. apply sublist_sorted. apply sublist_app; [done|]. by constructor. Qed.

Section leaf.
Context (root : nat) (m : list Z) (f : contents) (T : btree).
Hypothesis (HT : stored_index ni max_entries root m f T) (Hblocks : blocks_ok T) (Hbytes : byte_contents f).
Abbreviation path_to := (path_to ni max_entries root m f).
Abbreviation at_entry := (at_entry ni max_entries root m f).
Abbreviation W t errors f := (mk_world t errors m f).

(** What the path to a leaf other than the root says about the block of the leaf. *)
Record leaf_at (c : ntfs_index_context) (es : list (list Z)) (fin : list Z) (k : nat) (pre post : list (list Z)) (n : node) : Prop := {
  leaf_not_root : ic_is_root c = false;
  leaf_node : stored_node ni max_entries (page_bytes f (ic_upl_ofs c)) (ic_index c) n (Node es fin []);
  leaf_nr : nr_entries c = Z.of_nat (length es + 1);
  leaf_entry : ic_entry c = (node_first n + length (concat (take k es)))%nat;
  leaf_length : get32 (n_head n) ih_index_length ≤ get32 (n_head n) ih_allocated_size;
  leaf_free : ic_bytes_free c = get32 (n_head n) ih_allocated_size - get32 (n_head n) ih_index_length;
  leaf_room : block_room n;
  leaf_change l' rest x x' tail : let n' := with_entries n l' rest in
    node_ok ni n' → length (node_bytes n') = length (node_bytes n) → l' ≠ [] → Forall (λ e, is_node e = false) l' →
    Z.of_nat (length l' + 1) ≤ max_entries → get32 (n_head n') ih_index_length ≤ get32 (n_head n) ih_allocated_size →
    node_bytes n = n_pre n ++ x ++ tail → node_bytes n' = n_pre n ++ x' ++ tail → Z.of_nat (length x) ≤ get32 (n_head n) ih_allocated_size →
    let f' := page_store f (ic_upl_ofs c) (node_bytes n') in
    byte_contents f' ∧ ∃ T', stored_index ni max_entries root m f' T' ∧ blocks_ok T' ∧ inorder T' = pre ++ l' ++ post
}.

Lemma leaf_at_path c c' up es fin pre post k :
  path_to T (c :: c' :: up) (Node es fin []) pre post → entry_is c k → (k ≤ length es)%nat → ∃ n, leaf_at c es fin k pre post n.
Proof.
  intros Hp Hk Hle. inversion Hp as [|? ? ? k0 es0 fin0 kids0 ? e pre0 post0 Hp0 Hk0 Hkid0 Hl0 Hd Hr He Hbc]; subst.
  pose proof Hd as [(n & Hn & Hes) _ _ _ _]. rewrite Hr in Hn. destruct Hbc as [_ Hpg Hix (al & len & Hal & Hlen & Hfree)].
  pose proof (path_to_describes _ _ _ _ _ _ _ _ _ _ _ Hp0) as Hd0. pose proof Hd0 as [_ _ _ _ Hch0].
  pose proof (Hch0 k0 e _ He Hkid0) as (_ & _ & Hc & _). apply check_index_block_iff in Hc. destruct Hc as [[Hia Hin] _ _ Hca (l & Hcl & Hle')].
  rewrite <- Hpg, <- Hix in Hca. rewrite <- Hpg, <- Hix in Hcl.
  rewrite (node_head32 _ _ _ _ _ _ _ Hn) in Hal by in_entry. rewrite (node_head32 _ _ _ _ _ _ _ Hn) in Hlen by in_entry. rewrite (node_head32 _ _ _ _ _ _ _ Hn) in Hca by in_entry. rewrite (node_head32 _ _ _ _ _ _ _ Hn) in Hcl by in_entry.
  injection Hal as <-. injection Hlen as <-. injection Hcl as <-. injection Hca as Hca.
  destruct (positioned_entry _ _ _ _ _ _ _ _ _ Hd0 Hk0) as [Hle0 _].
  pose proof Hn as [Eb Hpre Hok _ (El & Ef & _)]. destruct (node_head_bytes _ _ Hok) as [Bh _].
  pose proof (get32_range _ ih_index_length Bh). pose proof (get32_range _ ih_allocated_size Bh). exists n. split; try done.
  - unfold nr_entries. rewrite Hes. unfold node_all. rewrite El, Ef. by rewrite length_offsets, length_app.
  - destruct Hk as [_ Hk]. rewrite Hes in Hk. unfold node_all in Hk. rewrite El, Ef in Hk.
    assert (∃ y l2, es ++ [fin] = take k es ++ y :: l2) as (y & l2 & E).
    { destruct (drop k es ++ [fin]) as [|y l2] eqn:E; [by destruct (drop k es)|]. exists y, l2. by rewrite <- E, (assoc_L (++)), take_drop. }
    rewrite E in Hk. pose proof (offsets_lookup (node_first n) (take k es) y l2) as Ho. rewrite length_take, Nat.min_l in Ho by lia. congruence.
  - lia.
  - rewrite Hfree. apply uwrap_id. lia.
  - unfold block_room. rewrite Eb, Hpre, length_page_bytes, Hix. unfold ia_index. lia.
  - intros l' rest x x' tail n' H1 H2 H3 H4 H5 H6 H7 H8 H9. rewrite Hpg.
    eapply (change_leaf root m f T c' up es0 fin0 kids0 k0 e es fin pre0 post0 n l' rest x x' tail); try done. by rewrite <- Hpg, <- Hix.
Qed.

Lemma leaf_flags c es fin k pre post n :
  leaf_at c es fin k pre post n → has (get8 (n_head n) ih_flags) INDEX_NODE = false.
Proof. intros Hl. pose proof (leaf_node _ _ _ _ _ _ _ Hl) as [_ _ _ _ (_ & _ & _ & -> & _)]. done. Qed.

Lemma with_entries_flags n es rest :
  node_ok ni n → node_ok ni (with_entries n es rest) →
  rd (node_bytes (with_entries n es rest)) (length (n_pre n) + ih_flags) = Ret (get8 (n_head n) ih_flags).
Proof.
  intros Hn Hn'. pose proof (node_length _ _ Hn') as HL. pose proof (node_head_bytes _ _ Hn') as [Bh _].
  pose proof (get32_range _ ih_index_length Bh) as Hr.
  destruct (head_fields ni n es Hn) as (Hlen & _ & _ & _ & _ & Hfl); [unfold node_all in HL; cbn [n_entries n_end n_gap with_entries] in HL; lia|].
  rewrite <- Hfl. unfold node_bytes. cbn [n_pre n_head with_entries]. rewrite <- !(assoc_L (++)). apply rd_part. in_entry.
Qed.

(** The tree with the block of the leaf after an insertion. *)
Lemma leaf_inserted c es fin k pre post n e : let n' := with_entries n (take k es ++ e :: drop k es) (drop (length e) (n_rest n)) in
  leaf_at c es fin k pre post n → nr_entries c < max_entries → Z.of_nat (length e) ≤ ic_bytes_free c → is_node e = false →
  node_ok ni n' → length (node_bytes n') = length (node_bytes n) →
  let f' := page_store f (ic_upl_ofs c) (node_bytes n') in
  byte_contents f' ∧ ∃ T', stored_index ni max_entries root m f' T' ∧ blocks_ok T' ∧ inorder T' = pre ++ (take k es ++ e :: drop k es) ++ post.
Proof.
  intros n' [Hr Hn Hnr' He Hlen Hfree Hroom Hch] Hnr Hsize Hnode Hok' HL. pose proof Hn as [_ _ Hok _ (El & Ef & _ & _ & Hnodes)].
  pose proof (node_length _ _ Hok) as Hilen. pose proof (node_head _ _ Hok) as Hh. pose proof Hroom as Hroom'. unfold block_room, node_bytes in Hroom'. rewrite !length_app in Hroom'.
  rewrite <- (take_drop k es) in El. destruct (insert_shape ni n _ _ e Hok El) as (x & x' & tail & E1 & E2 & Hx); [lia|].
  apply (Hch _ _ x x' tail); try done.
  - by destruct (take k es).
  - apply list.Forall_app in Hnodes as [Hnodes _]. rewrite <- (take_drop k es) in Hnodes. apply list.Forall_app in Hnodes as [H1 H2].
    apply list.Forall_app. split; [done|]. by constructor.
  - rewrite length_app. cbn [length]. rewrite Hnr' in Hnr. rewrite <- (take_drop k es), length_app in Hnr. lia.
  - rewrite (with_entries_length ni) by done. unfold node_all in Hilen. rewrite El in Hilen. rewrite !concat_app in *. cbn [concat] in *.
    rewrite !length_app in *. lia.
  - lia.
Qed.

Lemma leaf_insert c es fin k pre post n sdh key data t errors : let flags := get8 (n_head n) ih_flags in
  leaf_at c es fin k pre post n → ic_is_locked c = true → nr_entries c < max_entries → (k ≤ length es)%nat →
  bytes key → bytes data → Z.of_nat (length key + length data) < 2 ^ 15 → (is_view ni = false → length data = 8%nat) →
  let size := snd (new_entry_size (is_view ni) sdh flags (Z.of_nat (length key)) (if is_view ni then Z.of_nat (length data) else 0)) in
  if ic_bytes_free c <? size then entry_add_without_split ni sdh c key data (W t errors f) = Ret (None, W t errors f)
  else ∃ e f' T', e_key e = key ∧ e_data (is_view ni) e = data ∧
    entry_add_without_split ni sdh c key data (W t errors f) = Ret (Some (), W t errors f') ∧
    byte_contents f' ∧ stored_index ni max_entries root m f' T' ∧ blocks_ok T' ∧
    inorder T' = pre ++ (take k es ++ e :: drop k es) ++ post.
Proof.
  intros flags Hl Hlock Hnr Hk Bk Bd Hsz Hdata. pose proof (leaf_flags _ _ _ _ _ _ _ Hl) as Hfl. fold flags in Hfl.
  pose proof (new_entry_size_fits (is_view ni) sdh flags key data Bk Bd Hfl Hsz Hdata) as Hf.
  unfold entry_add_without_split. rewrite Hlock. cbn [negb]. unfold get_world, mbind, io_bind, lift. cbn [mbind outcome_bind].
  pose proof Hl as Hleaf. destruct Hl as [Hr Hn Hnr' He Hlen Hfree Hroom _]. unfold node_buf. rewrite Hr. cbn [w_ia w_mft w_clock w_errors]. rewrite (node_flags _ _ _ _ _ _ Hn). cbn [mbind outcome_bind]. fold flags.
  destruct (new_entry_size _ _ _ _ _) as [data_ofs size]. cbn [snd]. destruct Hf as [Hf _].
  destruct (Z.ltb_spec (ic_bytes_free c) size) as [Hno|Hyes]; [done|].
  pose proof Hn as [Eb Hpre Hok _ (El & Ef & _ & _ & Hnode)]. rewrite <- (take_drop k es) in El. rewrite <- Eb. 
  destruct (block_insert_spec ni n _ _ data_ofs size key data Hok Hroom El Hf ltac:(lia)) as (b & Hmake & Hcreate & Hok' & HL').
  set (e := new_entry (is_view ni) data_ofs size key data) in *. pose proof (length_new_entry _ _ _ _ _ Hf) as Le. fold e in Le.
  unfold ntfs_index_node_make_space. rewrite Hr, He, <- Hpre, Hmake. cbn [mbind outcome_bind negb Z.eqb]. rewrite Hcreate. cbn [mbind outcome_bind].
  rewrite (with_entries_flags _ _ _ Hok Hok'). cbn [mbind outcome_bind]. fold flags. rewrite Hfl. unfold store_buf. rewrite Hr. cbn [mbind outcome_bind w_clock w_errors w_mft w_ia].
  destruct (new_entry_ok ni _ _ _ _ Hf) as (_ & _ & Hnn & _ & Hke). fold e in Hnn, Hke. rewrite <- Le in Hok', HL'. rewrite <- Le.
  destruct (leaf_inserted c es fin k pre post n e Hleaf Hnr ltac:(destruct Hf as (_ & _ & ? & _); lia) Hnn Hok' HL') as (Hb' & T' & HT' & HB' & Hin).
  eexists e, _, T'. split_and!; [done| |done..]. unfold e. rewrite (new_entry_data _ _ _ _ _ Hf). destruct (is_view ni); [done|]. by rewrite take_ge by (rewrite Hdata; lia).
Qed.
(** ** The sorted index after a change *)

Definition sorted_index (T : btree) : Prop :=
  Forall (λ e, index_key ni (e_key e)) (inorder T) ∧ StronglySorted (entry_lt ni) (inorder T).

(** A later state of the world, with the index [T'] in the contents. *)
Definition index_becomes (f' : contents) (T' : btree) : Prop :=
  byte_contents f' ∧ stored_index ni max_entries root m f' T' ∧ blocks_ok T' ∧ sorted_index T'.

(** The node where a failed lookup ends is a leaf. *)
Lemma describes_leaf_only c es fin kids es' fin' :
  describes ni max_entries m f c (Node es fin kids) → describes ni max_entries m f c (Node es' fin' []) → kids = [].
Proof.
  intros [(n & Hn & _) _ _ _ _] [(n' & Hn' & _) _ _ _ _]. pose proof (node_flags _ _ _ _ _ _ Hn) as H1. rewrite (node_flags _ _ _ _ _ _ Hn') in H1. injection H1 as H1.
  destruct Hn as [_ _ _ _ (_ & _ & _ & Hf & _)], Hn' as [_ _ _ _ (_ & _ & _ & Hf' & _)]. rewrite H1, Hf in Hf'. by apply bool_decide_eq_false, dec_stable in Hf'.
Qed.

Lemma at_leaf c c' up l1 o l2 es0 fin0 :
  at_entry T (c :: c' :: up) l1 o l2 → describes ni max_entries m f c (Node es0 fin0 []) →
  ∃ es fin k pre post n, leaf_at c es fin k pre post n ∧ (k ≤ length es)%nat ∧ ic_is_locked c = true ∧
    o = es !! k ∧ l1 = pre ++ take k es ∧ option_list o ++ l2 = drop k es ++ post.
Proof.
  intros (c0 & up0 & k & es & fin & kids & pre & post & [= <- <-] & Hp & Hk & Hlock & E1 & Eo & E2) Hd0.
  pose proof (path_to_describes _ _ _ _ _ _ _ _ _ _ _ Hp) as Hd. rewrite (describes_leaf_only _ _ _ _ _ _ Hd Hd0) in *.
  destruct (positioned_entry _ _ _ _ _ _ _ _ _ Hd Hk) as [Hle _]. destruct (leaf_at_path _ _ _ _ _ _ _ _ Hp Hk Hle) as [n Hl].
  exists es, fin, k, pre, post, n. split_and!; try done.
  - rewrite E1. cbn [fmap list_fmap]. rewrite before_leaf. replace (nth k [] []) with (@nil (list Z)) by (by destruct k). by rewrite app_nil_r.
  - rewrite E2, Eo. cbn [fmap list_fmap]. rewrite (assoc_L (++)), <- after_option. by rewrite after_leaf.
Qed.

Lemma sorted_index_insert key l1 e l2 T' :
  sorted_index T → index_key ni key → inorder T = l1 ++ l2 → e_key e = key → inorder T' = l1 ++ e :: l2 →
  Forall (λ e, 0 < entry_cmp ni key e) l1 → Forall (λ e, entry_cmp ni key e < 0) l2 → sorted_index T'.
Proof.
  intros [Hkeys Hs] Hkey E He E' H1 H2. unfold sorted_index. rewrite E' in *. rewrite E in Hkeys, Hs. apply list.Forall_app in Hkeys as [K1 K2]. split.
  - apply list.Forall_app. split; [done|]. constructor; [by rewrite He|done].
  - apply sorted_insert_middle; [done| |].
    + eapply list.Forall_impl; [exact H1|]. intros x Hx. unfold entry_lt, entry_cmp in *. rewrite He.
      pose proof (key_cmp_antisym (vol_upcase ni) (collation_rule ni) (e_key x) key). lia.
    + unfold entry_lt. by rewrite He.
Qed.

(** Adding an entry to an index after a lookup that did not find its key, where the leaf found is
    an index block: when the entry does not fit, nothing is changed (and the code goes on to split
    the node); when it fits, the blocks hold a tree with the same entries and the new one between
    the smaller and the greater keys, with the key and the data given.  The new index satisfies
    everything that the operations on indexes need, so that lookups, walks and further changes are
    correct on it. *)
Theorem entry_add_without_split_correct c c' up sdh key data t errors :
  index_key ni key → sorted_index T → lookup_end ni max_entries root m f T key false (c :: c' :: up) →
  nr_entries c < max_entries → bytes data → Z.of_nat (length key + length data) < 2 ^ 15 → (is_view ni = false → length data = 8%nat) →
  let size := snd (new_entry_size (is_view ni) sdh 0 (Z.of_nat (length key)) (if is_view ni then Z.of_nat (length data) else 0)) in
  if ic_bytes_free c <? size then entry_add_without_split ni sdh c key data (W t errors f) = Ret (None, W t errors f)
  else ∃ l1 e l2 f' T', entry_add_without_split ni sdh c key data (W t errors f) = Ret (Some (), W t errors f') ∧
    e_key e = key ∧ e_data (is_view ni) e = data ∧ inorder T = l1 ++ l2 ∧ inorder T' = l1 ++ e :: l2 ∧ index_becomes f' T'.
Proof.
  intros Hkey Hsorted (l1 & o & l2 & Hat & H1 & H2 & H3 & c0 & up0 & es0 & fin0 & [= <- <-] & Hd0) Hnr Bd Hsz Hdata size.
  pose proof (at_entry_inorder _ _ _ _ _ _ _ _ _ _ Hat) as Hin. destruct (at_leaf _ _ _ _ _ _ _ _ Hat Hd0) as (es & fin & k & pre & post & n & Hl & Hle & Hlock & _ & -> & E2).
  pose proof (leaf_insert _ _ _ _ _ _ _ sdh key data t errors Hl Hlock Hnr Hle (proj1 Hkey) Bd Hsz Hdata) as H. cbv zeta in H.
  assert (∀ a b, new_entry_size (is_view ni) sdh (get8 (n_head n) ih_flags) a b = new_entry_size (is_view ni) sdh 0 a b) as E.
  { intros a b. unfold new_entry_size. by rewrite (leaf_flags _ _ _ _ _ _ _ Hl). }
  rewrite E in H. fold size in H. destruct (ic_bytes_free c <? size); [done|]. destruct H as (e & f' & T' & He & Hed & Hrun & Hb' & HT' & HB' & Hin').
  assert (inorder T' = (pre ++ take k es) ++ e :: option_list o ++ l2) as Hin2 by (by rewrite Hin', E2; app_norm).
  exists (pre ++ take k es), e, (option_list o ++ l2), f', T'. split_and!; try done. split_and!; try done.
  apply (sorted_index_insert key (pre ++ take k es) e (option_list o ++ l2)); try done. by apply list.Forall_app.
Qed.

(** An entry of a leaf has no child, and an entry of another node has one. *)
Lemma at_entry_no_child c up l1 e l2 :
  at_entry T (c :: up) l1 (Some e) l2 → is_node e = false → ∃ es fin, describes ni max_entries m f c (Node es fin []).
Proof.
  intros (c0 & up0 & k & es & fin & kids & pre & post & [= <- <-] & Hp & Hk & _ & _ & Ho & _) Hnode.
  pose proof (path_to_describes _ _ _ _ _ _ _ _ _ _ _ Hp) as Hd. destruct (positioned_entry _ _ _ _ _ _ _ _ _ Hd Hk) as (_ & e' & He & _ & Hn & _).
  rewrite (lookup_app_l_Some _ _ _ e (eq_sym Ho)) in He. injection He as <-. rewrite Hnode in Hn. symmetry in Hn. apply bool_decide_eq_false, dec_stable in Hn.
  rewrite Hn in Hd. by eexists _, _.
Qed.
End leaf.
End blocks.

(** ** The sample index *)

(** The context of the index root, at the end of the root. *)
Definition sample_root_context : ntfs_index_context := mk_ictx true false false 0 0 128 176 256 224 1 [192; 224]%nat 45.
