(* ===== verification/IndexEntry.v ===== *)
(** * Index entries with and without a child

    The bytes of an index entry when it is copied between a leaf and a node with children, and when
    the VCN of its child changes ([kext/ntfs_index.c], [ntfs_index_entry_add_or_node_split]): what
    the entry says, its key and its data, stays the same. *)

From S2P Require Import Prelude Bytes MftRecord IndexNode IndexTree IndexModify.

Lemma lookup_splice m i bs j :
  (i + length bs ≤ length m)%nat → splice m i bs !! j = if bool_decide (i ≤ j < i + length bs)%nat then bs !! (j - i)%nat else m !! j.
Proof.
  intros H. unfold splice. case_bool_decide as Hj.
  - rewrite lookup_app_r, lookup_app_l by (rewrite length_take; lia). f_equal. rewrite length_take. lia.
  - destruct (decide (j < i)%nat); [by rewrite lookup_app_l, lookup_take_lt by (rewrite ?length_take; lia)|].
    rewrite !lookup_app_r, lookup_drop by (rewrite length_take; lia). f_equal. rewrite length_take. lia.
Qed.

Lemma lookup_splice_ne m i bs j : (i + length bs ≤ length m)%nat → (j < i ∨ i + length bs ≤ j)%nat → splice m i bs !! j = m !! j.
Proof. intros H Hj. rewrite lookup_splice by done. by rewrite bool_decide_eq_false_2 by lia. Qed.

Lemma get16_ext e e' i : e' !! i = e !! i → e' !! (i + 1)%nat = e !! (i + 1)%nat → get16 e' i = get16 e i.
Proof. intros H1 H2. unfold get16, get8. by rewrite !nth_lookup, H1, H2. Qed.

Lemma get64_splice m i x : (i + 8 ≤ length m)%nat → 0 ≤ x < 2 ^ 64 → get64 (splice m i (le_bytes 8 x)) i = x.
Proof.
  intros H Hx. assert (∀ j, (j < 8)%nat → get8 (splice m i (le_bytes 8 x)) (i + j) = nth j (le_bytes 8 x) 0) as Hj.
  { intros j Hj. rewrite get8_splice, bool_decide_eq_true_2 by (rewrite le_bytes_length; lia). unfold get8. f_equal. lia. }
  pose proof (Hj 0%nat ltac:(lia)) as H0. rewrite Nat.add_0_r in H0.
  unfold get64, get32, get16. rewrite <- !Nat.add_assoc. cbn [Nat.add]. rewrite H0, !Hj by lia. cbn. zdiv.
Qed.

Lemma slice_ext (e e' : list Z) i n : (∀ j, (i ≤ j < i + n)%nat → e' !! j = e !! j) → take n (drop i e') = take n (drop i e).
Proof.
  intros H. apply list_eq. intros j. destruct (decide (j < n)%nat); [|by rewrite !lookup_take_ge by lia].
  rewrite !lookup_take_lt, !lookup_drop by done. apply H. lia.
Qed.

Section entry.
Context (ni : index_inode).

(** What an entry says. *)
Definition e_item (e : list Z) : list Z * list Z := (e_key e, e_data (is_view ni) e).

(** The size of the VCN of the child. *)
Definition e_tail (e : list Z) : Z := if is_node e then 8 else 0.

(** The key and the data leave room for [n] bytes at the end. *)
Record leaves_room (e : list Z) (n : Z) : Prop := {
  room_ok : entry_ok e;
  room_not_end : is_end e = false;
  room_key : 16 + get16 e ie_key_length + n ≤ Z.of_nat (length e);
  room_data : is_view ni = true → 16 + get16 e ie_key_length ≤ get16 e ie_data_offset ∧
    get16 e ie_data_offset + get16 e ie_data_length + n ≤ Z.of_nat (length e)
}.
Definition entry_wf (e : list Z) : Prop := leaves_room e (e_tail e).
Definition fin_wf (e : list Z) : Prop := entry_ok e ∧ is_end e = true ∧ 16 + e_tail e ≤ Z.of_nat (length e).

Lemma entry_wf_data e : entry_wf e → data_ok ni e.
Proof. intros [_ _ _ H] Hv. destruct (H Hv). unfold e_tail in *. destruct (is_node e); lia. Qed.

(** Entries with the same bytes but for the length, the flags and the end. *)
Definition same_upto (l : Z) (e e' : list Z) : Prop :=
  ∀ i, (i < 8 ∨ 10 ≤ i < 12 ∨ 16 ≤ i)%nat → (i < 12)%nat ∨ Z.of_nat i < l → e' !! i = e !! i.

Lemma same_upto_fields l e e' :
  same_upto l e e' → get16 e' ie_key_length = get16 e ie_key_length ∧ get16 e' ie_data_offset = get16 e ie_data_offset ∧
  get16 e' ie_data_length = get16 e ie_data_length.
Proof. intros H. split_and!; apply get16_ext; apply H; in_entry. Qed.

Lemma same_upto_item n e e' :
  leaves_room e n → 0 ≤ n → same_upto (Z.of_nat (length e) - n) e e' → e_item e' = e_item e.
Proof.
  intros [Hok _ Hk Hd] Hn H. destruct (same_upto_fields _ _ _ H) as (E1 & E2 & E3). pose proof (entry_bytes _ Hok) as Hb.
  pose proof (get16_range e ie_key_length Hb). pose proof (get16_range e ie_data_offset Hb). pose proof (get16_range e ie_data_length Hb).
  unfold e_item, e_key, e_data. rewrite E1, E2, E3. f_equal.
  - apply slice_ext. intros j Hj. apply H; in_entry.
  - destruct (is_view ni) eqn:Ev.
    + destruct (Hd eq_refl). apply slice_ext. intros j Hj. apply H; in_entry.
    + pose proof (slice_ext e e' 0 8) as Hs. rewrite !drop_0 in Hs. apply Hs. intros j Hj. apply H; lia.
Qed.

(** The VCN of an entry. *)
Definition set_vcn (e : list Z) (v : Z) : list Z := splice e (length e - 8) (le_bytes 8 v).

Lemma set_vcn_bytes e v :
  entry_ok e → 24 ≤ Z.of_nat (length e) → 0 ≤ v < 2 ^ 63 →
  entry_ok (set_vcn e v) ∧ e_flags (set_vcn e v) = e_flags e ∧ e_vcn (set_vcn e v) = v ∧ length (set_vcn e v) = length e ∧
  same_upto (Z.of_nat (length e) - 8) e (set_vcn e v).
Proof.
  intros [Hb Hl Hh Hk] H24 Hv. assert (length (set_vcn e v) = length e) as HL by (unfold set_vcn; by rewrite length_splice by splice_len).
  assert (∀ k, (k + 2 ≤ 16)%nat → get16 (set_vcn e v) k = get16 e k) as Hg.
  { intros k Hk'. unfold set_vcn. apply get16_splice_other; splice_len. }
  split_and!; try done.
  - split; rewrite ?HL, ?Hg by in_entry; try done. apply bytes_splice; [done|apply bytes_le_bytes].
  - apply Hg. in_entry.
  - unfold e_vcn. rewrite HL. unfold set_vcn. rewrite get64_splice by lia. apply swrap_id; lia.
  - intros i Hi Hi'. apply lookup_splice_ne; splice_len.
Qed.

Lemma same_flags e e' : e_flags e' = e_flags e → is_node e' = is_node e ∧ is_end e' = is_end e ∧ e_tail e' = e_tail e.
Proof. intros H. unfold e_tail, is_node, is_end. by rewrite H. Qed.

Lemma set_vcn_wf e v :
  entry_wf e → is_node e = true → 0 ≤ v < 2 ^ 63 → let e' := set_vcn e v in
  entry_wf e' ∧ is_node e' = true ∧ e_item e' = e_item e ∧ e_vcn e' = v ∧ length e' = length e.
Proof.
  intros Hwf Hn Hv e'. pose proof Hwf as [Hok Hend Hk Hd]. unfold e_tail in Hk, Hd. rewrite Hn in Hk, Hd.
  pose proof (get16_range e ie_key_length (entry_bytes _ Hok)).
  destruct (set_vcn_bytes e v Hok ltac:(lia) Hv) as (Hok' & Hf & Hvcn & HL & Hs). destruct (same_flags e e' Hf) as (En & Ee & Et).
  destruct (same_upto_fields _ _ _ Hs) as (E1 & E2 & E3). split_and!; try done.
  - unfold entry_wf. rewrite Et. unfold e_tail. rewrite Hn. split; [done|by rewrite Ee|unfold e'; by rewrite E1, HL|unfold e'; by rewrite E1, E2, E3, HL].
  - by rewrite En.
  - apply (same_upto_item 8); [by split|lia|done].
Qed.

Lemma set_vcn_fin e v :
  fin_wf e → is_node e = true → 0 ≤ v < 2 ^ 63 → let e' := set_vcn e v in
  fin_wf e' ∧ is_node e' = true ∧ e_vcn e' = v ∧ length e' = length e.
Proof.
  intros (Hok & Hend & H16) Hn Hv e'. unfold e_tail in H16. rewrite Hn in H16.
  destruct (set_vcn_bytes e v Hok ltac:(lia) Hv) as (Hok' & Hf & Hvcn & HL & _). destruct (same_flags e e' Hf) as (En & Ee & Et).
  split_and!; try done; [|by rewrite En]. split_and!; [done|by rewrite Ee|]. rewrite Et. unfold e', e_tail. rewrite Hn, HL. lia.
Qed.

(** An entry becomes one with a child. *)
Definition as_node (e : list Z) (v : Z) : list Z := set_vcn (splice e ie_flags (le_bytes 2 (Z.lor (get16 e ie_flags) INDEX_ENTRY_NODE))) v.

Lemma lor_node x : 0 ≤ x < 2 ^ 16 → let y := Z.lor x INDEX_ENTRY_NODE in 0 ≤ y < 2 ^ 16 ∧ has y INDEX_ENTRY_NODE = true ∧ has y INDEX_ENTRY_END = has x INDEX_ENTRY_END.
Proof.
  intros Hx y. assert (y mod 2 ^ 16 = y) as E.
  { apply Z.bits_inj. intros i. destruct (Z.ltb_spec i 0); [by rewrite !Z.testbit_neg_r by lia|]. destruct (Z.ltb_spec i 16).
    - by rewrite Z.mod_pow2_bits_low by lia.
    - rewrite Z.mod_pow2_bits_high by lia. unfold y, INDEX_ENTRY_NODE. rewrite Z.lor_spec, <- (Z.mod_small x (2 ^ 16)), Z.mod_pow2_bits_high by lia.
      symmetry. apply Z.bits_above_log2; [lia|cbn; lia]. }
  pose proof (Z.mod_pos_bound y (2 ^ 16) ltac:(lia)). split_and!; [lia..| |]; unfold has, y, INDEX_ENTRY_NODE, MftRecord.INDEX_ENTRY_END.
  - rewrite Z.land_lor_distr_l, Z.land_diag. destruct (Z.eqb_spec (Z.lor (Z.land x 1) 1) 0) as [Hz|]; [|done].
    apply Z.lor_eq_0_iff in Hz as [_ Hz]. done.
  - by rewrite Z.land_lor_distr_l, Z.lor_0_r.
Qed.

Lemma as_node_wf e v :
  leaves_room e 8 → 0 ≤ v < 2 ^ 63 → let e' := as_node e v in
  entry_wf e' ∧ is_node e' = true ∧ e_item e' = e_item e ∧ e_vcn e' = v ∧ length e' = length e.
Proof.
  intros Hroom Hv e'. pose proof Hroom as [Hok Hend Hk Hd]. pose proof (entry_bytes _ Hok) as Hb. pose proof (entry_header _ Hok) as Hh.
  pose proof (get16_range e ie_key_length Hb). pose proof (get16_range e ie_flags Hb) as Hf. destruct (lor_node _ Hf) as (Hy & Hyn & Hye).
  unfold e', as_node. set (e1 := splice e ie_flags (le_bytes 2 (Z.lor (get16 e ie_flags) INDEX_ENTRY_NODE))).
  assert (length e1 = length e) as HL by (unfold e1; by rewrite length_splice by splice_len).
  assert (∀ k, (k + 2 ≤ 12)%nat → get16 e1 k = get16 e k) as Hg by (intros k Hk'; unfold e1; apply get16_splice_other; splice_len).
  assert (e_flags e1 = Z.lor (get16 e ie_flags) INDEX_ENTRY_NODE) as Hf1 by (unfold e_flags, e1; apply get16_splice; [in_entry|done]).
  assert (is_node e1 = true) as Hn1 by (unfold is_node; by rewrite Hf1).
  assert (entry_wf e1) as Hwf1.
  { unfold entry_wf, e_tail. rewrite Hn1. split; [split|..]; rewrite ?HL, ?Hg by in_entry; try done.
    - apply bytes_splice; [done|apply bytes_le_bytes].
    - apply (entry_length _ Hok).
    - apply (entry_key_in _ Hok).
    - unfold is_end. by rewrite Hf1, Hye. }
  destruct (set_vcn_wf e1 v Hwf1 Hn1 Hv) as (H1 & H2 & H3 & H4 & H5). split_and!; try done; [|lia]. rewrite H3.
  apply (same_upto_item 8); [done|lia|]. intros i Hi Hi'. apply lookup_splice_ne; splice_len.
Qed.

(** The copy of an entry into space with the bytes [y], with room for a VCN. *)
Definition copied (e y : list Z) : list Z := splice (e ++ drop (length e) y) ie_length (le_bytes 2 (Z.of_nat (length y))).

Lemma copied_room e y :
  entry_wf e → bytes y → Z.of_nat (length y) = Z.of_nat (length e) + 8 - e_tail e → Z.of_nat (length y) < 2 ^ 16 →
  leaves_room (copied e y) 8 ∧ e_item (copied e y) = e_item e ∧ length (copied e y) = length y.
Proof.
  intros Hwf By Hy Hlt. pose proof Hwf as [Hok Hend Hk Hd]. pose proof (entry_bytes _ Hok) as Be. pose proof (entry_header _ Hok) as Hh.
  assert (0 ≤ e_tail e ≤ 8) as Ht by (unfold e_tail; destruct (is_node e); lia). pose proof (get16_range e ie_key_length Be).
  unfold copied. set (e1 := e ++ drop (length e) y). assert (length e1 = length y) as L1 by (unfold e1; rewrite length_app, length_drop; lia).
  assert (bytes e1) as B1 by (unfold e1; apply bytes_app; split; [done|by apply list.Forall_drop]).
  set (e2 := splice e1 _ _). assert (length e2 = length y) as L2 by (unfold e2; by rewrite length_splice by splice_len).
  assert (∀ i, (i < 8 ∨ 10 ≤ i < length e)%nat → e2 !! i = e !! i) as Hi.
  { intros i Hi. unfold e2. rewrite lookup_splice_ne by splice_len. unfold e1. apply lookup_app_l. lia. }
  assert (∀ k, (k + 2 ≤ 8 ∨ 10 ≤ k ∧ k + 2 ≤ 16)%nat → get16 e2 k = get16 e k) as Hg by (intros k Hk'; apply get16_ext; apply Hi; lia).
  split_and!; [|apply (same_upto_item (e_tail e)); [done|lia|intros i Hi1 Hi2; apply Hi; lia]|done].
  split; [split|..]; rewrite ?L2, ?Hg by in_entry.
  - apply bytes_splice; [done|apply bytes_le_bytes].
  - unfold e2. apply get16_splice; [splice_len|lia].
  - lia.
  - lia.
  - unfold is_end, e_flags. by rewrite Hg by in_entry.
  - lia.
  - intros Hv. destruct (Hd Hv). lia.
Qed.

(** A new entry. *)
Lemma new_entry_room data_ofs size key data n :
  entry_fits (is_view ni) data_ofs (size - n) key data → 0 ≤ n → size < 2 ^ 16 → (is_view ni = false → length data = 8%nat) →
  let e := new_entry (is_view ni) data_ofs size key data in
  leaves_room e n ∧ e_item e = (key, data) ∧ Z.of_nat (length e) = size ∧ is_node e = false ∧ entry_fits (is_view ni) data_ofs size key data.
Proof.
  intros Hfit Hn Hs Hdata e. pose proof Hfit as (Bk & Bd & H16 & Hview).
  assert (entry_fits (is_view ni) data_ofs size key data) as Hf by (split_and!; try done; destruct (is_view ni); lia).
  destruct (new_entry_ok ni _ _ _ _ Hf) as (Hok & Hend & Hnode & _ & Hkey). fold e in Hok, Hend, Hnode, Hkey.
  destruct (new_entry_fields _ _ _ _ _ Hf) as (_ & _ & Hkl & _ & _ & Hd). fold e in Hkl, Hd.
  pose proof (length_new_entry _ _ _ _ _ Hf) as HL. fold e in HL. split_and!; try done; [|unfold e_item|lia].
  - split; [done|done|lia|]. intros Hv. rewrite Hv in Hview. destruct (Hd Hv) as [-> ->]. lia.
  - rewrite Hkey. f_equal. unfold e. rewrite new_entry_data by done. destruct (is_view ni); [done|]. apply take_ge. by rewrite Hdata.
Qed.
End entry.
