(* ===== verification/IndexSplit.v ===== *)
(** * Insertion with node splits

    [kext/ntfs_index.c]: [ntfs_index_entry_add_or_node_split].  When the entry does not fit into
    its leaf, the nodes on the path are split from the leaf up to the first node with enough space.
    The function first plans all splits and allocates the index blocks for them, and then works from
    the top-most node down to the leaf. *)

From Stdlib Require Import Sorted.
From S2P Require Import Prelude Bytes Unistr Collate PageCache Boot Mst Bitmap MftRecord AttrFind IndexNode IndexLookup IndexModify.

(** ** Contexts *)

(** An index context with the fields that splits use.  The contexts of a path are in an array, with
    the node that the function is called for as number 0 and the root as the last one;
    [sc_insert_ictx] is such a number. *)
Record split_context := mk_sctx {
  sc_ctx : ntfs_index_context;
  sc_split_node : bool;
  sc_promote_inserted : bool;
  sc_promote_entry_nr : Z;
  sc_insert_to_add : bool;
  sc_insert_ictx : option nat;
  sc_insert_entry_nr : Z;
  sc_insert_entry_size : Z;
  sc_right_vcn : Z;
  sc_right_upl_ofs : Z;
  sc_right_ia : nat;
  sc_right_is_locked : bool
}.

Definition set_ctx (c : ntfs_index_context) (s : split_context) : split_context :=
  mk_sctx c (sc_split_node s) (sc_promote_inserted s) (sc_promote_entry_nr s) (sc_insert_to_add s) (sc_insert_ictx s)
    (sc_insert_entry_nr s) (sc_insert_entry_size s) (sc_right_vcn s) (sc_right_upl_ofs s) (sc_right_ia s) (sc_right_is_locked s).
Definition set_right (vcn upl_ofs : Z) (ia : nat) (locked : bool) (s : split_context) : split_context :=
  mk_sctx (sc_ctx s) (sc_split_node s) (sc_promote_inserted s) (sc_promote_entry_nr s) (sc_insert_to_add s) (sc_insert_ictx s)
    (sc_insert_entry_nr s) (sc_insert_entry_size s) vcn upl_ofs ia locked.

(** The context after its node was exchanged for another one in the index allocation. *)
Definition move_to_block (vcn upl_ofs : Z) (index entry : nat) (c : ntfs_index_context) : ntfs_index_context :=
  mk_ictx (ic_is_root c) (ic_is_locked c) (ic_is_match c) vcn upl_ofs (ic_actx c) index (ic_bytes_free c) entry (ic_entry_nr c)
    (ic_entries c) (ic_max_entries c).

Section split.
Context {env : IndexEnv} (ni : index_inode).

(** Change the node of a context, or a page of the index allocation. *)
Definition on_node {A} (c : ntfs_index_context) (g : list Z → outcome (A * list Z)) : io A := λ w,
  '(a, b) ← g (node_buf w c); '(_, w) ← store_buf c b w; Ret (a, w).
Definition on_page {A} (ofs : Z) (g : list Z → outcome (A * list Z)) : io A := λ w,
  '(a, b) ← g (page_bytes (w_ia w) ofs);
  Ret (a, mk_world (w_clock w) (w_errors w) (w_mft w) (page_store (w_ia w) ofs b)).

Definition ntfs_index_ctx_unlock (c : ntfs_index_context) : outcome ntfs_index_context :=
  if negb (ic_is_locked c) then Panic else Ret (set_locked false c).

(** [a] and [b] after both are locked; contexts that share a page share the lock of [a].  The
    pointers of a context are offsets in its page, so that they need not be revalidated. *)
Definition ntfs_index_ctx_lock_two (a b : ntfs_index_context) : io (Z + (ntfs_index_context * ntfs_index_context)) :=
  if ic_is_locked b then panic else
  let lock_rest a :=
    b ←! ntfs_index_ctx_relock ni b;
    if ic_is_locked a then mret (inr (a, b)) else
    a ←! ntfs_index_ctx_relock ni a;
    mret (inr (a, b)) in
  let locked a := if ic_is_locked a then mret (inr a) else ntfs_index_ctx_relock ni a in
  if ic_is_root a then lock_rest (if ic_is_locked a then set_locked false a else a)
  else if ic_is_root b then a ←! locked a; lock_rest a
  else if ic_upl_ofs a =? ic_upl_ofs b then a ←! locked a; mret (inr (a, b))
  else if ic_is_locked a then lock_rest (if ic_upl_ofs b <? ic_upl_ofs a then set_locked false a else a)
  else if ic_upl_ofs a <? ic_upl_ofs b then a ←! ntfs_index_ctx_relock ni a; lock_rest a
  else lock_rest a.

(** ** The insertion of an entry *)

(** The VCNs of the inserted entry at [entry], whose child is the left half, and of the entry behind
    it, whose child is the right half, in a node with children. *)
Definition set_child_vcns (b : list Z) (index entry : nat) (entry_size : Z) (child : option (Z * Z)) : outcome (list Z) :=
  index_flags ← rd b (index + ih_flags);
  if negb (has index_flags INDEX_NODE) then Ret b else
  match child with
  | None => Panic
  | Some (vcn, right_vcn) =>
      flags ← le16_at b (entry + ie_flags);
      if has flags INDEX_ENTRY_END then Panic else
      b ← put16 b (entry + ie_flags) (Z.lor flags INDEX_ENTRY_NODE);
      b ← put64 b (Z.to_nat (Z.of_nat entry + entry_size - 8)) vcn;
      let entry := (entry + Z.to_nat entry_size)%nat in
      flags ← le16_at b (entry + ie_flags);
      if negb (has flags INDEX_ENTRY_NODE) then Panic else
      length ← le16_at b (entry + ie_length);
      put64 b (Z.to_nat (Z.of_nat entry + length - 8)) right_vcn
  end.

(** What is inserted: the new entry, or a copy of the entry at [entry] of another node. *)
Definition fill_entry (split_only : bool) (key data : list Z) (data_ofs : Z) (l : list split_context) (s : split_context) : io () :=
  let c := sc_ctx s in
  let entry_size := sc_insert_entry_size s in
  if negb (sc_insert_to_add s) then
    j ← lift (from_option Ret Panic (sc_insert_ictx s));
    src ← lift (rd l j);
    w ← get_world;
    let from := node_buf w (sc_ctx src) in
    entry ← lift (rd (ic_entries (sc_ctx src)) (Z.to_nat (sc_insert_entry_nr s)));
    length ← lift (le16_at from (entry + ie_length));
    on_node c (λ b,
      b ← memcpy b (ic_entry c) from entry (Z.to_nat length);
      b ← put16 b (ic_entry c + ie_length) entry_size; Ret ((), b))
  else if split_only then panic
  else on_node c (λ b, b ← create_entry (is_view ni) b (ic_entry c) data_ofs entry_size key data; Ret ((), b)).

(** Make space in the node of the context [s] and insert the entry; [child] is the context of the
    child that is split. *)
Definition insert_entry (split_only : bool) (key data : list Z) (data_ofs : Z) (l : list split_context) (s : split_context)
    (child : option split_context) : io () :=
  let c := sc_ctx s in
  err ← on_node c (λ b, ntfs_index_node_make_space c b (sc_insert_entry_size s));
  if negb (err =? 0) then panic else
  _ ← fill_entry split_only key data data_ofs l s;
  on_node c (λ b,
    b ← set_child_vcns b (ic_index c) (ic_entry c) (sc_insert_entry_size s)
      ((λ s, (ic_vcn (sc_ctx s), sc_right_vcn s)) <$> child);
    Ret ((), b)).

(** ** Splits *)

(** Copy the entries from the offset [entry] of the left block to the end to the right block with its
    header at [right_index]; the result is where they are. *)
Definition copy_right (s : split_context) (entry end_entry : nat) : io nat :=
  let c := sc_ctx s in
  let right_index := (sc_right_ia s + ia_index)%nat in
  w ← get_world;
  let b := node_buf w c in
  index_flags ← lift (rd b (ic_index c + ih_flags));
  end_length ← lift (le16_at b (end_entry + ie_length));
  let u := u32 (Z.of_nat end_entry - Z.of_nat entry + end_length) in
  on_page (sc_right_upl_ofs s) (λ rb,
    entries_offset ← le32_at rb (right_index + ih_entries_offset);
    let right_entry := (right_index + Z.to_nat entries_offset)%nat in
    rb ← memcpy rb right_entry b entry (Z.to_nat u);
    rb ← put32 rb (right_index + ih_index_length) (u32 (entries_offset + u));
    rb ← put8 rb (right_index + ih_flags) index_flags;
    Ret (right_entry, rb)).

(** Move the end entry of the left block to [entry]. *)
Definition truncate_left (index entry end_entry : nat) (b : list Z) : outcome (list Z) :=
  if (entry =? end_entry)%nat then Ret b else
  u ← le16_at b (end_entry + ie_length);
  b ← memmove b entry end_entry (Z.to_nat u);
  put32 b (index + ih_index_length) (u32 (u + (Z.of_nat entry - Z.of_nat index))).

(** The VCN of the entry at [entry]. *)
Definition put_vcn (b : list Z) (entry : nat) (vcn : Z) : outcome (list Z) :=
  length ← le16_at b (entry + ie_length);
  put64 b (Z.to_nat (Z.of_nat entry + length - 8)) vcn.

(** The VCN of the new end entry of the left block at [entry], and of the first entry of the right
    block at [right_entry] if its child is split; the result is the child and the variable [vcn] of
    the function. *)
Definition fix_vcns (s : split_context) (below : option (nat * split_context)) (vcn : Z) (entry right_entry : nat)
    : io (option nat * Z) :=
  let c := sc_ctx s in
  w ← get_world;
  let b := node_buf w c in
  flags ← lift (le16_at b (entry + ie_flags));
  if negb (has flags INDEX_ENTRY_NODE) then mret (None, vcn) else
  _ ← (if from_option (λ child, ic_is_root (sc_ctx child.2)) false below then panic else mret ());
  vcn ← (if sc_promote_inserted s then
           match below with
           | None => panic
           | Some (_, child) =>
               _ ← on_page (sc_right_upl_ofs s) (λ rb, rb ← put_vcn rb right_entry (sc_right_vcn child); Ret ((), rb));
               mret (ic_vcn (sc_ctx child))
           end
         else mret vcn);
  w ← get_world;
  index_flags ← lift (rd (node_buf w c) (ic_index c + ih_flags));
  if negb (has index_flags INDEX_NODE) then panic else
  _ ← on_node c (λ b, b ← put_vcn b entry vcn; Ret ((), b));
  mret (fst <$> below, vcn).

(** If the entry has to be inserted into the right half, the context describes that one from now
    on. *)
Definition choose_half (s : split_context) : io split_context :=
  let c := sc_ctx s in
  if negb (sc_promote_inserted s) && (sc_promote_entry_nr s <? ic_entry_nr c) then
    w ← get_world;
    let right_index := (sc_right_ia s + ia_index)%nat in
    entries_offset ← lift (le32_at (page_bytes (w_ia w) (sc_right_upl_ofs s)) (right_index + ih_entries_offset));
    entry ← lift (rd (ic_entries c) (Z.to_nat (sc_promote_entry_nr s + 1)));
    let to := Z.of_nat right_index + entries_offset + (Z.of_nat (ic_entry c) - Z.of_nat entry) in
    mret (set_right (ic_vcn c) (ic_upl_ofs c) (sc_right_ia s) (sc_right_is_locked s)
      (set_ctx (move_to_block (sc_right_vcn s) (sc_right_upl_ofs s) right_index (Z.to_nat to) c) s))
  else mret s.

(** Split the node of the context [s]; [below] is the next context of the path. *)
Definition split_node (s : split_context) (below : option (nat * split_context)) (vcn : Z)
    : io (split_context * option nat * Z) :=
  let c := sc_ctx s in
  w ← get_world;
  let b := node_buf w c in
  promote ← lift (rd (ic_entries c) (Z.to_nat (sc_promote_entry_nr s)));
  '(vcn, first) ← (if sc_promote_inserted s then mret (vcn, promote) else
    flags ← lift (le16_at b (promote + ie_flags));
    vcn ← (if has flags INDEX_ENTRY_NODE then
             index_flags ← lift (rd b (ic_index c + ih_flags));
             if negb (has index_flags INDEX_NODE) then panic else lift (child_vcn b promote)
           else mret vcn);
    next ← lift (rd (ic_entries c) (Z.to_nat (sc_promote_entry_nr s + 1)));
    mret (vcn, next));
  end_entry ← lift (rd (ic_entries c) (Z.to_nat (nr_entries c - 1)));
  flags ← lift (le16_at b (end_entry + ie_flags));
  if negb (has flags INDEX_ENTRY_END) then panic else
  right_entry ← copy_right s first end_entry;
  _ ← on_node c (λ b, b ← truncate_left (ic_index c) promote end_entry b; Ret ((), b));
  '(child, vcn) ← fix_vcns s below vcn promote right_entry;
  s ← choose_half s;
  mret (set_right (sc_right_vcn s) (sc_right_upl_ofs s) (sc_right_ia s) false s, child, vcn).

(** ** The work *)

(** [relock_err]: the index is left corrupt. *)
Definition relock_err {A} (err : Z) : io (Z + A) := _ ← NVolSetErrors; fail err.
Definition relocked {A} (m : io (Z + A)) : io (Z + A) :=
  r ← m; match r with inl err => relock_err err | inr a => mret (inr a) end.

(** Lock the node that the entry to insert is in. *)
Definition lock_insert_ictx (l : list split_context) (i : nat) (s : split_context) : io (Z + list split_context) :=
  if sc_insert_to_add s then mret (inr l) else
  j ← lift (from_option Ret Panic (sc_insert_ictx s));
  src ← lift (rd l j);
  if ic_is_root (sc_ctx s) then if negb (ic_is_locked (sc_ctx src)) then panic else mret (inr l) else
  '(c, c') ←! relocked (ntfs_index_ctx_lock_two (sc_ctx s) (sc_ctx src));
  mret (inr (<[j := set_ctx c' src]> (<[i := set_ctx c s]> l))).

(** Unlock the node that the inserted entry was in, and the current node. *)
Definition unlock_done (l : list split_context) (i : nat) (s : split_context) : outcome (list split_context) :=
  l ← (match sc_insert_ictx s with
       | None => Ret l
       | Some j => src ← rd l j; Ret (if ic_is_locked (sc_ctx src) then <[j := set_ctx (set_locked false (sc_ctx src)) src]> l else l)
       end);
  s ← rd l i;
  c ← ntfs_index_ctx_unlock (sc_ctx s);
  Ret (<[i := set_ctx c s]> l).

(** Lock the node to split and its right half, in the order of their pages. *)
Definition lock_halves (s : split_context) : io (Z + split_context) :=
  let c := sc_ctx s in
  if ic_is_locked c then panic else
  if sc_right_is_locked s then panic else
  c ←! (if ic_upl_ofs c <=? sc_right_upl_ofs s then relocked (ntfs_index_ctx_relock ni c) else mret (inr c));
  s ←! (if ic_upl_ofs c =? sc_right_upl_ofs s then mret (inr s)
        else
          t ← request;
          let err := page_map_errno t (sc_right_upl_ofs s) in
          if negb (err =? 0) then relock_err err
          else mret (inr (set_right (sc_right_vcn s) (sc_right_upl_ofs s) (sc_right_ia s) true s)));
  c ←! (if ic_is_locked c then mret (inr c) else relocked (ntfs_index_ctx_relock ni c));
  mret (inr (set_ctx c s)).

(** [do ... while (child_ictx || !split_only)]: the current context is the one with the number [i],
    [child] is the number of the child that has to be split.  The number of the current context
    decreases in every round. *)
Fixpoint work_loop (fuel : nat) (split_only : bool) (key data : list Z) (data_ofs : Z) (vcn : Z) (i : nat) (child : option nat)
    (l : list split_context) : io (Z + ()) :=
  match fuel with
  | O => panic
  | S fuel =>
      s ← lift (rd l i);
      if negb (ic_is_locked (sc_ctx s)) then panic else
      child_s ← lift (match child with None => Ret None | Some j => s ← rd l j; Ret (Some s) end);
      l ←! (if sc_promote_inserted s then mret (inr l) else
        l ←! lock_insert_ictx l i s;
        s ← lift (rd l i);
        _ ← insert_entry split_only key data data_ofs l s child_s;
        mret (inr l));
      match child, child_s with
      | Some j, Some child_s =>
          if negb (sc_split_node child_s) then panic else
          s ← lift (rd l i);
          l ← lift (unlock_done l i s);
          s ← lift (rd l j);
          s ←! lock_halves s;
          below ← lift (match j with O => Ret None | S j => s ← rd l j; Ret (Some (j, s)) end);
          '(s, child, vcn) ← split_node s below vcn;
          let l := <[j := s]> l in
          if match child with None => split_only | Some _ => false end then mret (inr ())
          else work_loop fuel split_only key data data_ofs vcn j child l
      | _, _ => mret (inr ())
      end
  end.
End split.

(** ** The index bitmap *)

(** Whether the inode of the index bitmap can be got. *)
Class BitmapInode := { attr_inode_errno : nat → Z }.

(** The state with the contents of the index bitmap and the last set bit that the index inode
    caches. *)
Record index_state := mk_istate {
  st_world : world;
  st_bmp : bitmap;
  st_last_set_bit : Z
}.

(** The sizes of the bitmap and of the index allocation. *)
Record index_sizes := mk_isizes {
  bmp_initialized_size : Z;
  idx_data_size : Z;
  idx_initialized_size : Z;
  block_size_shift : Z
}.

Definition sio (A : Type) : Type := index_state → outcome (A * index_state).
#[global] Instance sio_ret : MRet sio := λ A a w, Ret (a, w).
#[global] Instance sio_bind : MBind sio := λ A B f m w, '(a, w) ← m w; f a w.
Definition in_world {A} (m : io A) : sio A := λ w,
  '(a, w') ← m (st_world w); Ret (a, mk_istate w' (st_bmp w) (st_last_set_bit w)).
Definition check {A} (m : outcome A) : sio A := λ w, a ← m; Ret (a, w).
Definition get_bmp : sio bitmap := λ w, Ret (st_bmp w, w).
Definition put_bmp (bm : bitmap) : sio () := λ w, Ret ((), mk_istate (st_world w) bm (st_last_set_bit w)).

(** How the allocation of a block ends: with an error, with a block, or with an extension of the
    bitmap or of the index allocation, which is not modelled. *)
Inductive alloc_end (A : Type) := alloc_err (err : Z) | alloc_ok (a : A) | alloc_extend.
Arguments alloc_err {A}.
Arguments alloc_ok {A}.
Arguments alloc_extend {A}.

Section alloc.
Context {env : IndexEnv} {inode : BitmapInode} (ni : index_inode) (sizes : index_sizes).

(** The first zero bit in [n] bytes of the page at [ofs] from [pos] on. *)
Fixpoint zero_in_page (n : nat) (ofs pos : Z) (bm : bitmap) : outcome (option (Z * Z)) :=
  match n with
  | O => Ret None
  | S n =>
      byte ← page_get ofs pos bm;
      if byte =? 0xff then zero_in_page n ofs (pos + 1) bm else
      let bit := u8 (ffs (u32 (Z.lnot byte)) - 1) in
      if bit <? 8 then Ret (Some (pos, bit)) else zero_in_page n ofs (pos + 1) bm
  end.

(** The search over the pages; a page is a round. *)
Fixpoint find_zero_bit (fuel : nat) (bmp_pos : Z) : sio (Z + option (Z * Z)) :=
  match fuel with
  | O => check Oob
  | S fuel =>
      if negb (bmp_pos <? bmp_initialized_size sizes) then mret (inr None) else
      t ← in_world request;
      let err := page_map_errno t bmp_pos in
      if negb (err =? 0) then mret (inl err) else
      bm ← get_bmp;
      let len := if bmp_initialized_size sizes <? bmp_pos + PAGE_SIZE then bmp_initialized_size sizes - bmp_pos else PAGE_SIZE in
      r ← check (zero_in_page (Z.to_nat len) bmp_pos 0 bm);
      match r with
      | Some (pos, bit) =>
          byte ← check (page_get bmp_pos pos bm);
          bm ← check (page_put bmp_pos pos (Z.lor byte (Z.shiftl 1 bit)) bm);
          _ ← put_bmp bm;
          mret (inr (Some (bmp_pos + pos, bit)))
      | None => find_zero_bit fuel (bmp_pos + len)
      end
  end.

(** Clear the bit of an index block; errors are only noted on the volume. *)
Definition clear_block_bit (bit : Z) : sio () := λ w,
  '(err, marked, bm, t) ← ntfs_bitmap_clear_bit bit (st_bmp w) (w_clock (st_world w));
  let w' := st_world w in
  Ret ((), mk_istate (mk_world t (w_errors w' || marked || negb (err =? 0)) (w_mft w') (w_ia w')) bm (st_last_set_bit w)).

(** Lay out the block at [ia] of the page, with the update sequence number it had. *)
Definition lay_out_block (vcn : Z) (ia : nat) (b : list Z) : outcome (list Z) :=
  usa_ofs ← le16_at b (ia + ia_usa_ofs);
  usn ← (if usa_ofs <? NTFS_BLOCK_SIZE - 2 then le16_at b (ia + Z.to_nat usa_ofs) else Ret 0);
  b ← ntfs_index_block_lay_out (block_size ni) vcn b ia;
  if negb (usn =? 0) && negb (usn =? 0xffff) then
    usa_ofs ← le16_at b (ia + ia_usa_ofs); put16 b (ia + Z.to_nat usa_ofs) usn
  else Ret b.

(** The VCN of the block, the offset of its page, and where it is in the page. *)
Definition ntfs_index_block_alloc : sio (alloc_end (Z * Z * nat)) :=
  t ← in_world request;
  let err := attr_inode_errno t in
  if negb (err =? 0) then mret (alloc_err err) else
  r ← find_zero_bit (S (Z.to_nat (bmp_initialized_size sizes))) 0;
  match r with
  | inl err => mret (alloc_err err)
  | inr None => mret alloc_extend
  | inr (Some (bmp_pos, bit)) =>
      let bmp_pos := Z.shiftl bmp_pos 3 + bit in
      _ ← (λ w, Ret ((), mk_istate (st_world w) (st_bmp w)
             (if (0 <=? st_last_set_bit w) && (st_last_set_bit w <? bmp_pos) then bmp_pos else st_last_set_bit w)));
      if Z.shiftr (idx_data_size sizes) (block_size_shift sizes) <=? bmp_pos then mret alloc_extend else
      let pos := s64 (Z.shiftl bmp_pos (block_size_shift sizes)) in
      let upl_ofs := Z.land pos (Z.lnot PAGE_MASK) in
      t ← in_world request;
      let err := page_map_errno t upl_ofs in
      if negb (err =? 0) then _ ← clear_block_bit bmp_pos; mret (alloc_err err) else
      if Z.shiftr (idx_initialized_size sizes) (block_size_shift sizes) <=? bmp_pos then mret alloc_extend else
      let ia := Z.to_nat (Z.land (u32 (Z.shiftl (u32 bmp_pos) (block_size_shift sizes))) PAGE_MASK) in
      let vcn := Z.shiftr pos (vcn_size_shift ni) in
      _ ← in_world (on_page upl_ofs (λ b, b ← lay_out_block vcn ia b; Ret ((), b)));
      mret (alloc_ok (vcn, upl_ofs, ia))
  end.

(** ** The plan *)

(** The entry to promote from the node of the context [s] with the number [i]: its number, whether
    it is the inserted entry, and the entry to insert into the parent: whether it is the new one,
    its number, its size and its context. *)
Definition choose_promotion (split_only : bool) (i : nat) (s : split_context) (b : list Z)
    : outcome (Z * bool * (bool * Z * Z * option nat)) :=
  let c := sc_ctx s in
  let median_entry_nr := u32 (nr_entries c - 1) / 2 in
  let entry_nr := ic_entry_nr c in
  '(median_entry_nr, inserted, (to_add, nr, size, src)) ←
    (if (entry_nr =? median_entry_nr) && (negb split_only || negb (i =? 0)%nat) then
       Ret (median_entry_nr, true, (sc_insert_to_add s, sc_insert_entry_nr s, sc_insert_entry_size s, sc_insert_ictx s))
     else
       median_entry_nr ←
         (if entry_nr <? median_entry_nr then Ret (u32 (median_entry_nr - 1))
          else if entry_nr =? median_entry_nr then
            if negb split_only then Panic else if negb (i =? 0)%nat then Panic else
            if nr_entries c <? 2 then Panic else Ret (u32 (nr_entries c - 2) / 2)
          else Ret median_entry_nr);
       entry ← rd (ic_entries c) (Z.to_nat median_entry_nr);
       length ← le16_at b (entry + ie_length);
       Ret (median_entry_nr, false, (false, median_entry_nr, length, Some i)));
  index_flags ← rd b (ic_index c + ih_flags);
  let size := if (i =? 0)%nat && negb (has index_flags INDEX_NODE) then u32 (size + 8) else size in
  Ret (median_entry_nr, inserted, (to_add, nr, size, src)).

Definition set_promotion (nr : Z) (inserted : bool) (s : split_context) : split_context :=
  mk_sctx (sc_ctx s) true inserted nr (sc_insert_to_add s) (sc_insert_ictx s)
    (sc_insert_entry_nr s) (sc_insert_entry_size s) (sc_right_vcn s) (sc_right_upl_ofs s) (sc_right_ia s) (sc_right_is_locked s).
Definition set_insertion (to_add : bool) (nr size : Z) (src : option nat) (s : split_context) : split_context :=
  mk_sctx (sc_ctx s) (sc_split_node s) (sc_promote_inserted s) (sc_promote_entry_nr s) to_add src nr size
    (sc_right_vcn s) (sc_right_upl_ofs s) (sc_right_ia s) (sc_right_is_locked s).

(** How the plan ends: with the number of the top-most node to change, or an error at a node; the
    contexts below it that have a right half are the ones with smaller numbers.  [plan_grow] is
    an extension of the tree that is not modelled: the root does not fit, or there is no free
    index block. *)
Inductive plan_end := plan_ready (i : nat) (l : list split_context) | plan_err (err : Z) (i : nat) (l : list split_context) | plan_grow.

(** Lock the node of the entry to insert into the root before the root itself. *)
Definition lock_parent (l : list split_context) (i : nat) (src : option nat) : io (Z + list split_context) :=
  s ← lift (rd l i);
  if ic_is_locked (sc_ctx s) then panic else
  l ←! (if ic_is_root (sc_ctx s) then
          match src with
          | None => mret (inr l)
          | Some j =>
              from ← lift (rd l j);
              if ic_is_root (sc_ctx from) || ic_is_locked (sc_ctx from) then panic else
              c ←! ntfs_index_ctx_relock ni (sc_ctx from);
              mret (inr (<[j := set_ctx c from]> l))
          end
        else mret (inr l));
  c ←! ntfs_index_ctx_relock ni (sc_ctx s);
  mret (inr (<[i := set_ctx c s]> l)).

(** [while (cur_ictx->insert_entry_size > cur_ictx->bytes_free)]; the number of the current context
    increases in every round. *)
Fixpoint plan_loop (fuel : nat) (split_only : bool) (i : nat) (l : list split_context) : sio plan_end :=
  match fuel with
  | O => check Panic
  | S fuel =>
      s ← check (rd l i);
      let c := sc_ctx s in
      if sc_insert_entry_size s <=? ic_bytes_free c then mret (plan_ready i l) else
      if negb (ic_is_locked c) then check Panic else
      if ic_is_root c then mret plan_grow else
      w ← (λ w, Ret (st_world w, w));
      '(nr, inserted, (to_add, insert_nr, size, src)) ← check (choose_promotion split_only i s (node_buf w c));
      c ← check (ntfs_index_ctx_unlock c);
      let s := set_ctx c (set_promotion nr inserted s) in
      r ← ntfs_index_block_alloc;
      match r with
      | alloc_extend => mret plan_grow
      | alloc_err err => mret (plan_err err i (<[i := s]> l))
      | alloc_ok (vcn, upl_ofs, ia) =>
          let l := <[i := set_right vcn upl_ofs ia false s]> l in
          r ← in_world (lock_parent l (S i) src);
          match r with
          | inl err => mret (plan_err err (S i) l)
          | inr l =>
              s ← check (rd l (S i));
              plan_loop fuel split_only (S i) (<[S i := set_insertion to_add insert_nr size src s]> l)
          end
      end
  end.

(** [err]: free the blocks of the contexts below [i]. *)
Fixpoint free_right_halves (i : nat) (l : list split_context) : sio () :=
  match i with
  | O => mret ()
  | S i =>
      s ← check (rd l i);
      if sc_right_vcn s <? 0 then check Panic else
      _ ← clear_block_bit (Z.shiftr (s64 (Z.shiftl (sc_right_vcn s) (vcn_size_shift ni))) (block_size_shift sizes));
      free_right_halves i l
  end.
Definition undo_plan (err : Z) (i : nat) (l : list split_context) : sio Z :=
  if negb (index_alloc_present ni) then mret err else
  t ← in_world request;
  if negb (attr_inode_errno t =? 0) then _ ← in_world NVolSetErrors; mret err else
  _ ← free_right_halves i l;
  mret err.

(** ** The function *)

Definition start_context (c : ntfs_index_context) : split_context := mk_sctx c false false 0 false None 0 0 0 0 0 false.

(** The result is the errno, [None] if the tree has to be extended. *)
Definition ntfs_index_entry_add_or_node_split (sdh split_only : bool) (entry_size : Z) (key data : list Z) (p : path) : sio (option Z) :=
  match p with
  | [] => check Panic
  | c :: up =>
      if negb (ic_is_locked c) then check Panic else
      '(data_ofs, entry_size) ←
        (if split_only then mret (0, entry_size) else
         w ← (λ w, Ret (st_world w, w));
         index_flags ← check (rd (node_buf w c) (ic_index c + ih_flags));
         mret (new_entry_size (is_view ni) sdh index_flags (Z.of_nat (length key)) (if is_view ni then Z.of_nat (length data) else 0)));
      let l := set_insertion true 0 entry_size None (start_context c) :: (start_context <$> up) in
      r ← plan_loop (S (length up)) split_only 0 l;
      match r with
      | plan_grow => mret None
      | plan_err err i l => err ← undo_plan err i l; mret (Some err)
      | plan_ready i l =>
          if (i =? 0)%nat && split_only then mret (Some 0) else
          let child := match i with O => None | S j => Some j end in
          _ ← check (match child with None => Ret () | Some j => s ← rd l j; if ic_is_root (sc_ctx s) then Panic else Ret () end);
          r ← in_world (work_loop ni (S i) split_only key data data_ofs 0 i child l);
          mret (Some (match r with inl err => err | inr _ => 0 end))
      end
  end.
End alloc.
