(* ===== verification/IndexBlock.v ===== *)
(** * Index blocks in their pages

    The changes of single index blocks that the insertion with splits ([IndexSplit]) makes, as
    operations on the entries of the blocks.  Several blocks may share a page. *)

From Stdlib Require Import Sorted.
From S2P Require Import Prelude Bytes Unistr Collate PageCache Mst MftRecord AttrFind IndexNode IndexLookup IndexTree IndexModify IndexUpdate IndexEntry IndexSplit.

(** Steps of the monad. *)
Lemma io_step {A B} (c : io A) (k : A → io B) w a w' : c w = Ret (a, w') → (c ≫= k) w = k a w'.
Proof. intros H. unfold mbind, io_bind. by rewrite H. Qed.
Lemma io_world {B} (k : world → io B) w : (get_world ≫= k) w = k w w.
Proof. done. Qed.

Section block.
Context {env : IndexEnv} (ni : index_inode).
Hypothesis (Hbs : 64 ≤ block_size ni).
Abbreviation block_page := (block_page ni).
Abbreviation block_ofs := (block_ofs ni).
Abbreviation block_pos := (block_pos ni).

(** ** The part of a page that belongs to a block *)

(** Where the index header of the block [v] is in its page. *)
Definition index_at (v : Z) : nat := (Z.to_nat (block_ofs v) + ia_index)%nat.

(** The bytes of the block [v] from its index header on. *)
Definition at_block (f : contents) (v : Z) (b : list Z) : Prop :=
  Z.of_nat (length b) = block_size ni - 24 ∧
  ∃ p q, page_bytes f (block_page v) = p ++ b ++ q ∧ length p = index_at v.

(** Only those bytes are changed. *)
Definition only (f f' : contents) (v : Z) : Prop := ∀ i, ¬ (block_pos v + 24 ≤ i < block_pos v + block_size ni) → f' i = f i.

Lemma on_page_block {A} f v b b' (g : list Z → outcome (A * list Z)) a t errors m :
  byte_contents f → at_block f v b → (∀ p q, length p = index_at v → g (p ++ b ++ q) = Ret (a, p ++ b' ++ q)) → length b' = length b → bytes b' →
  ∃ f', on_page (block_page v) g (mk_world t errors m f) = Ret (a, mk_world t errors m f') ∧ byte_contents f' ∧ only f f' v ∧ at_block f' v b'.
Proof.
  intros Hf [Hl (p & q & Hpage & Hp)] Hg Hl' Hb. unfold on_page. cbn [w_ia w_clock w_errors w_mft]. rewrite Hpage, Hg by done. cbn [mbind outcome_bind].
  assert (Z.of_nat (length (p ++ b' ++ q)) = PAGE_SIZE) as Hlen.
  { pose proof (length_page_bytes f (block_page v)) as H. rewrite Hpage in H. rewrite !length_app in *. pose proof PAGE_SIZE_pos. lia. }
  eexists. split; [done|]. split; [|split].
  - apply byte_contents_store; [done|]. pose proof (bytes_page f (block_page v) Hf) as H. rewrite Hpage, !bytes_app in H.
    rewrite !bytes_app. tauto.
  - intros i Hi. eapply page_store_other; [exact Hpage|done|]. unfold index_at, ia_index in Hp. destruct (block_place ni v) as [E Ho]. lia.
  - split; [lia|]. exists p, q. split; [by apply page_bytes_store|done].
Qed.

Lemma node_buf_page c ofs t errors m f : ic_is_root c = false → ic_upl_ofs c = ofs → node_buf (mk_world t errors m f) c = page_bytes f ofs.
Proof. intros H <-. unfold node_buf. by rewrite H. Qed.
Lemma on_node_page {A} c (g : list Z → outcome (A * list Z)) w : ic_is_root c = false → on_node c g w = on_page (ic_upl_ofs c) g w.
Proof. intros H. unfold on_node, on_page, node_buf, store_buf. rewrite H. by destruct (g _) as [[??]| |]. Qed.

(** ** The bytes of the steps of an insertion *)

Record head_ok (h : list Z) (g : nat) (len flags : Z) : Prop := {
  head_bytes : bytes h;
  head_length : length h = 16%nat;
  head_offset : get32 h ih_entries_offset = Z.of_nat (16 + g);
  head_index_length : get32 h ih_index_length = len;
  head_allocated : get32 h ih_allocated_size = block_size ni - 24;
  head_flags : get8 h ih_flags = flags
}.

Lemma head_resize h g len flags len' :
  head_ok h g len flags → 0 ≤ len' ≤ block_size ni - 24 → head_ok (splice h ih_index_length (le_bytes 4 len')) g len' flags.
Proof.
  intros [B L H1 H2 H3 H4] Hl. pose proof (get32_range h ih_allocated_size B). split.
  - apply bytes_splice; [done|apply bytes_le_bytes].
  - by rewrite length_splice by splice_len.
  - rewrite get32_splice_other by splice_len. done.
  - apply get32_splice; [splice_len|lia].
  - rewrite get32_splice_other by splice_len. done.
  - rewrite get8_splice by splice_len. rewrite bool_decide_eq_false_2 by splice_len. done.
Qed.

Lemma make_space_bytes p h gap A Y r q flags size : let len := Z.of_nat (16 + length gap + length A + length Y) in
  head_ok h (length gap) len flags → 0 ≤ size → len + size ≤ block_size ni - 24 → (Z.to_nat size ≤ length r)%nat →
  ntfs_index_block_make_space (p ++ (h ++ gap ++ A ++ Y ++ r) ++ q) (length p) (length p + 16 + length gap + length A) size =
    Ret (0, p ++ (splice h ih_index_length (le_bytes 4 (len + size)) ++ gap ++ A ++ take (Z.to_nat size) (Y ++ r) ++ Y ++ drop (Z.to_nat size) r) ++ q).
Proof.
  intros len Hh Hs Hfit Hr. destruct Hh as [B L H1 H2 H3 H4]. pose proof (get32_range h ih_allocated_size B). unfold ntfs_index_block_make_space.
  assert (∀ k, (k + 4 ≤ 16)%nat → le32_at (p ++ (h ++ gap ++ A ++ Y ++ r) ++ q) (length p + k) = Ret (get32 h k)) as Hrd.
  { intros k Hk. rewrite <- !(assoc_L (++)). apply le32_part. lia. }
  rewrite !Hrd by in_entry. cbn [mbind outcome_bind]. rewrite H2, H3, uwrap_id, (proj2 (Z.leb_le _ _)) by lia.
  unfold byte_count. rewrite (proj2 (Z.ltb_ge _ _)) by lia. cbn [mbind outcome_bind].
  replace (Z.to_nat (len - _)) with (length Y) by lia. set (P := p ++ h ++ gap ++ A).
  assert (length P = length p + 16 + length gap + length A)%nat as LP by (unfold P; rewrite !length_app; lia).
  replace (p ++ (h ++ gap ++ A ++ Y ++ r) ++ q) with (P ++ Y ++ r ++ q) by (unfold P; by rewrite <- !(assoc_L (++))). rewrite <- LP.
  replace (length P + Z.to_nat size)%nat with (length P + (Z.to_nat size))%nat by lia. rewrite <- (Nat.add_0_r (length P)) at 2.
  rewrite memmove_part by (rewrite !length_app; lia). cbn [mbind outcome_bind]. rewrite drop_0, take_app_length.
  rewrite (assoc_L (++) Y r q), take_app_le, (drop_app_le _ q) by (rewrite length_app; lia). rewrite (drop_app_ge Y r) by lia.
  replace (Z.to_nat size + length Y - length Y)%nat with (Z.to_nat size) by lia.
  unfold P, put32. rewrite <- !(assoc_L (++)). by rewrite put_part by splice_len.
Qed.

Lemma copy_bytes P y Q e p' q' :
  entry_ok e → (length e ≤ length y)%nat →
  (b ← memcpy (P ++ y ++ Q) (length P) (p' ++ e ++ q') (length p') (length e);
   b ← put16 b (length P + ie_length) (Z.of_nat (length y)); Ret ((), b)) = Ret ((), P ++ copied e y ++ Q).
Proof.
  intros He Hl. pose proof (entry_header _ He). rewrite <- (take_drop (length e) y) at 1. rewrite <- (assoc_L (++) (take _ y)).
  rewrite (memcpy_parts P (take (length e) y)) by (rewrite ?length_take; lia). cbn [mbind outcome_bind]. rewrite (assoc_L (++) e).
  unfold put16, copied. by rewrite put_part by (rewrite length_app, length_drop, le_bytes_length; in_entry).
Qed.

Lemma child_vcns_bytes P X e Q index flags lv rv :
  rd (P ++ X ++ e ++ Q) (index + ih_flags) = Ret flags → has flags INDEX_NODE = true → leaves_room ni X 8 →
  entry_ok e → is_node e = true → (24 ≤ length e)%nat →
  set_child_vcns (P ++ X ++ e ++ Q) index (length P) (Z.of_nat (length X)) (Some (lv, rv)) = Ret (P ++ as_node X lv ++ set_vcn e rv ++ Q).
Proof.
  intros Hrd Hf HX He Hn H24. destruct HX as [Hok Hend Hk _]. pose proof (entry_header _ Hok). pose proof (get16_range X ie_key_length (entry_bytes _ Hok)).
  unfold set_child_vcns. rewrite Hrd. cbn [mbind outcome_bind]. rewrite Hf. cbn [negb]. rewrite le16_part by in_entry. cbn [mbind outcome_bind].
  fold (e_flags X). fold (is_end X). rewrite Hend. unfold put16, put64. rewrite put_part by splice_len. cbn [mbind outcome_bind].
  set (X1 := splice X ie_flags _). assert (length X1 = length X) as L1 by (unfold X1; by rewrite length_splice by splice_len).
  replace (Z.to_nat (Z.of_nat (length P) + Z.of_nat (length X) - 8)) with (length P + (length X1 - 8))%nat by lia.
  rewrite put_part by splice_len. cbn [mbind outcome_bind]. set (X2 := splice X1 _ _).
  assert (X2 = as_node X lv) as E2 by done. assert (length X2 = length X) as L2 by (unfold X2; rewrite length_splice by splice_len; done).
  rewrite Nat2Z.id, <- L2, <- length_app, (assoc_L (++) P X2). rewrite !le16_part by in_entry. cbn [mbind outcome_bind].
  fold (e_flags e). fold (is_node e). rewrite Hn. cbn [negb]. rewrite (entry_length _ He).
  replace (Z.to_nat (Z.of_nat (length (P ++ X2)) + Z.of_nat (length e) - 8)) with (length (P ++ X2) + (length e - 8))%nat by lia.
  rewrite put_part by splice_len. rewrite E2, <- (assoc_L (++) P). done.
Qed.

(** ** The entries of a node *)

(** What an entry says and how long it is. *)
Definition e_info (e : list Z) : (list Z * list Z) * nat := (e_item ni e, length e).

Record entries_wf (flags : Z) (es : list (list Z)) (fin : list Z) : Prop := {
  wf_entries : Forall (entry_wf ni) es;
  wf_fin : fin_wf fin;
  wf_nodes : Forall (λ e, is_node e = has flags INDEX_NODE) (es ++ [fin])
}.

(** The entries after [X] is inserted between [es1] and [es2]. *)
Definition inserted (flags : Z) (X : list Z) (lv rv : Z) (es1 es2 : list (list Z)) (fin : list Z) : list (list Z) * list Z :=
  if has flags INDEX_NODE then
    match es2 with
    | [] => (es1 ++ [as_node X lv], set_vcn fin rv)
    | e :: l => (es1 ++ as_node X lv :: set_vcn e rv :: l, fin)
    end
  else (es1 ++ X :: es2, fin).

Definition is_vcn (v : Z) : Prop := 0 ≤ v < 2 ^ 63.

Lemma inserted_wf flags X lv rv es1 es2 fin : let '(es', fin') := inserted flags X lv rv es1 es2 fin in
  entries_wf flags (es1 ++ es2) fin → leaves_room ni X (if has flags INDEX_NODE then 8 else 0) →
  (has flags INDEX_NODE = false → is_node X = false) → (has flags INDEX_NODE = true → is_vcn lv ∧ is_vcn rv) →
  entries_wf flags es' fin' ∧ length fin' = length fin ∧
  e_info <$> es' = (e_info <$> es1) ++ (e_item ni X, length X) :: (e_info <$> es2) ∧
  (has flags INDEX_NODE = true → e_vcn <$> es' ++ [fin'] = (e_vcn <$> es1) ++ lv :: rv :: tail (e_vcn <$> es2 ++ [fin])).
Proof.
  unfold inserted. destruct (has flags INDEX_NODE) eqn:En.
  - destruct es2 as [|e l]; intros [Hes Hfin Hns] HX _ Hv; destruct (Hv eq_refl) as [Hlv Hrv]; destruct (as_node_wf ni X lv HX Hlv) as (A1 & A2 & A3 & A4 & A5);
      assert (e_info (as_node X lv) = (e_item ni X, length X)) as A6 by (unfold e_info; by rewrite A3, A5).
    + rewrite app_nil_r in *. apply list.Forall_app in Hns as [Hn1 Hn2]. rewrite list.Forall_singleton in Hn2. rewrite En in Hn2.
      destruct (set_vcn_fin fin rv Hfin Hn2 Hrv) as (F1 & F2 & F3 & F4). split_and!; try done.
      * split; [apply list.Forall_app; by rewrite list.Forall_singleton|done|]. rewrite En. rewrite !list.Forall_app, !list.Forall_singleton. rewrite En in Hn1. done.
      * by rewrite fmap_app, fmap_cons, A6.
      * intros _. rewrite <- (assoc_L (++)), fmap_app. cbn [app]. by rewrite !fmap_cons, A4, F3.
    + apply list.Forall_app in Hes as [H1 H2]. apply list.Forall_cons in H2 as [He Hl]. rewrite <- (assoc_L (++)) in Hns.
      apply list.Forall_app in Hns as [Hn1 Hn2]. cbn [app] in Hn2. apply list.Forall_cons in Hn2 as [Hn Hn2]. rewrite En in Hn.
      destruct (set_vcn_wf ni e rv He Hn Hrv) as (F1 & F2 & F3 & F4 & F5). split_and!; try done.
      * split; [apply list.Forall_app; by rewrite !list.Forall_cons|done|]. rewrite En in *. rewrite <- (assoc_L (++)).
        apply list.Forall_app. cbn [app]. by rewrite !list.Forall_cons.
      * assert (e_info (set_vcn e rv) = e_info e) as F6 by (unfold e_info; by rewrite F3, F5). by rewrite !fmap_app, !fmap_cons, A6, F6.
      * intros _. rewrite <- (assoc_L (++)), fmap_app. cbn [app]. by rewrite !fmap_cons, A4, F4.
  - intros [Hes Hfin Hns] HX Hx _. rewrite En in *. specialize (Hx eq_refl). apply list.Forall_app in Hes as [H1 H2]. rewrite <- (assoc_L (++)) in Hns.
    apply list.Forall_app in Hns as [Hn1 Hn2]. split_and!; try done; [|by rewrite fmap_app].
    split; [|done|].
    + apply list.Forall_app. split; [done|]. constructor; [|done]. unfold entry_wf, e_tail. by rewrite Hx.
    + rewrite En, <- (assoc_L (++)). apply list.Forall_app. split; [done|]. by constructor.
Qed.

Lemma inserted_bytes flags X lv rv es1 es2 fin P Q index child : let '(es', fin') := inserted flags X lv rv es1 es2 fin in
  entries_wf flags (es1 ++ es2) fin → leaves_room ni X (if has flags INDEX_NODE then 8 else 0) →
  rd (P ++ X ++ concat (es2 ++ [fin]) ++ Q) (index + ih_flags) = Ret flags → (has flags INDEX_NODE = true → child = Some (lv, rv)) →
  ∃ B, set_child_vcns (P ++ X ++ concat (es2 ++ [fin]) ++ Q) index (length P) (Z.of_nat (length X)) child = Ret (P ++ B ++ Q) ∧
    concat (es' ++ [fin']) = concat es1 ++ B ∧ length B = (length X + length (concat (es2 ++ [fin])))%nat.
Proof.
  unfold inserted. destruct (has flags INDEX_NODE) eqn:En.
  - destruct es2 as [|e l]; intros [Hes Hfin Hns] HX Hrd Hc; rewrite (Hc eq_refl).
    + rewrite app_nil_r in *. apply list.Forall_app in Hns as [_ Hn]. rewrite list.Forall_singleton in Hn. rewrite En in Hn.
      destruct Hfin as (Hok & _ & H24). unfold e_tail in H24. rewrite Hn in H24. cbn [app concat] in *. rewrite app_nil_r in *.
      rewrite (child_vcns_bytes P X fin Q index flags) by (done || lia). eexists. split; [by rewrite (assoc_L (++) (as_node X lv))|].
      split; [rewrite <- (assoc_L (++)), concat_app; cbn [app concat]; by rewrite app_nil_r|].
      pose proof (entry_header _ Hok). pose proof (entry_header _ (room_ok _ _ _ HX)).
      rewrite length_app. unfold as_node, set_vcn. rewrite !length_splice; [done|splice_len..].
    + apply list.Forall_app in Hes as [_ He]. apply list.Forall_cons in He as [He _].
      rewrite <- (assoc_L (++)) in Hns. apply list.Forall_app in Hns as [_ Hn]. cbn [app] in Hn. apply list.Forall_cons in Hn as [Hn _]. rewrite En in Hn.
      destruct He as [Hok _ H24 _]. unfold e_tail in H24. rewrite Hn in H24. pose proof (get16_range e ie_key_length (entry_bytes _ Hok)).
      cbn [app concat] in *. rewrite <- !(assoc_L (++)) in *. rewrite (child_vcns_bytes P X e _ index flags) by (done || lia).
      eexists. split; [by rewrite (assoc_L (++) (set_vcn e rv)), (assoc_L (++) (as_node X lv))|].
      split; [by rewrite concat_app|].
      pose proof (entry_header _ Hok). pose proof (entry_header _ (room_ok _ _ _ HX)).
      rewrite !length_app. unfold as_node, set_vcn. rewrite !length_splice; [done|splice_len..].
  - intros _ _ Hrd _. unfold set_child_vcns. rewrite Hrd. cbn [mbind outcome_bind]. rewrite En. eexists. split; [by rewrite (assoc_L (++) X)|].
    rewrite <- (assoc_L (++)), concat_app. cbn [app concat]. by rewrite !length_app.
Qed.

Lemma concat_bytes flags es fin : entries_wf flags es fin → bytes (concat (es ++ [fin])).
Proof.
  intros [We [Wf _] _]. rewrite concat_app. apply bytes_app. cbn. rewrite app_nil_r. split; [|apply Wf].
  clear -We. induction We as [|e es [[He _ _ _] _ _ _]]; [constructor|]. cbn. by apply bytes_app.
Qed.

(** ** The entries of a block *)

(** The block [v] has the entries [es] and the end entry [fin]; there are [g] bytes between the
    index header and the entries. *)
Definition block_is (f : contents) (v : Z) (g : nat) (flags : Z) (es : list (list Z)) (fin : list Z) : Prop :=
  entries_wf flags es fin ∧ ∃ h gap r, length gap = g ∧ head_ok h g (Z.of_nat (16 + g + length (concat (es ++ [fin])))) flags ∧
    at_block f v (h ++ gap ++ concat (es ++ [fin]) ++ r).

(** The context describes the entry [k] of the block. *)
Record node_context (c : ntfs_index_context) (v : Z) (g : nat) (es : list (list Z)) (k : nat) : Prop := {
  context_root : ic_is_root c = false;
  context_page : ic_upl_ofs c = block_page v;
  context_index : ic_index c = index_at v;
  context_entry : ic_entry c = (index_at v + 16 + g + length (concat (take k es)))%nat
}.

(** The fields of the block before the index header. *)
Record block_header (f : contents) (v : Z) : Prop := {
  header_magic : le32_at (page_bytes f (block_page v)) (Z.to_nat (block_ofs v) + ia_magic) = Ret magic_INDX;
  header_vcn : ∃ x, le64_at (page_bytes f (block_page v)) (Z.to_nat (block_ofs v) + ia_index_block_vcn) = Ret x ∧ s64 x = v
}.

Lemma only_trans f f' f'' v : only f f' v → only f' f'' v → only f f'' v.
Proof. intros H1 H2 i Hi. by rewrite H2, H1. Qed.

Lemma at_block_bytes f v b : byte_contents f → at_block f v b → bytes b.
Proof. intros Hf [_ (p & q & H & _)]. pose proof (bytes_page f (block_page v) Hf) as B. rewrite H, !bytes_app in B. tauto. Qed.

Lemma on_node_block {A} c f v b b' (g : list Z → outcome (A * list Z)) a t errors m :
  ic_is_root c = false → ic_upl_ofs c = block_page v → byte_contents f → at_block f v b →
  (∀ p q, length p = index_at v → g (p ++ b ++ q) = Ret (a, p ++ b' ++ q)) → length b' = length b → bytes b' →
  ∃ f', on_node c g (mk_world t errors m f) = Ret (a, mk_world t errors m f') ∧ byte_contents f' ∧ only f f' v ∧ at_block f' v b'.
Proof. intros Hr Hp. rewrite on_node_page, Hp by done. apply on_page_block. Qed.

Lemma block_is_entries f v g flags es fin : block_is f v g flags es fin → entries_wf flags es fin ∧ Z.of_nat (16 + g + length (concat (es ++ [fin]))) ≤ block_size ni - 24.
Proof. intros (Hwf & h & gap & r & Hg & Hh & [Hl _]). split; [done|]. rewrite !length_app in Hl. pose proof (head_length _ _ _ _ Hh). lia. Qed.

(** The entries of the node after the entry [X] is filled in and its children are set. *)
Lemma inserted_entry flags es fin k X child x : let n := if has flags INDEX_NODE then 8 else 0 in
  entries_wf flags es fin → (k ≤ length es)%nat → leaves_room ni X n → e_item ni X = x → (n = 0 → is_node X = false) →
  (has flags INDEX_NODE = true → ∃ cs, child = Some cs ∧ is_vcn (ic_vcn (sc_ctx cs)) ∧ is_vcn (sc_right_vcn cs)) →
  ∃ es' fin' B, entries_wf flags es' fin' ∧ length fin' = length fin ∧
    e_info <$> es' = take k (e_info <$> es) ++ (x, length X) :: drop k (e_info <$> es) ∧
    (∀ cs, has flags INDEX_NODE = true → child = Some cs →
      e_vcn <$> es' ++ [fin'] = take k (e_vcn <$> es ++ [fin]) ++ ic_vcn (sc_ctx cs) :: sc_right_vcn cs :: drop (S k) (e_vcn <$> es ++ [fin])) ∧
    concat (es' ++ [fin']) = concat (take k es) ++ B ∧ length B = (length X + length (concat (drop k es ++ [fin])))%nat ∧
    ∀ P Q index, rd (P ++ X ++ concat (drop k es ++ [fin]) ++ Q) (index + ih_flags) = Ret flags →
      set_child_vcns (P ++ X ++ concat (drop k es ++ [fin]) ++ Q) index (length P) (Z.of_nat (length X))
        ((λ cs, (ic_vcn (sc_ctx cs), sc_right_vcn cs)) <$> child) = Ret (P ++ B ++ Q).
Proof.
  intros n Hwf Hk HX Hx Hn Hchild. set (es1 := take k es) in *. set (es2 := drop k es) in *. assert (es = es1 ++ es2) as E by (symmetry; apply take_drop).
  set (lv := from_option (λ cs, ic_vcn (sc_ctx cs)) 0 child). set (rv := from_option sc_right_vcn 0 child).
  pose proof (inserted_wf flags X lv rv es1 es2 fin) as Hins. pose proof (inserted_bytes flags X lv rv es1 es2 fin) as Hbytes.
  destruct (inserted flags X lv rv es1 es2 fin) as [es' fin']. rewrite E in Hwf.
  destruct Hins as (Hwf' & Hfin' & Hinfo & Hvcn); [done|done|by intros En; unfold n in Hn; rewrite En in Hn; apply Hn| |].
  { intros En. destruct (Hchild En) as (cs & -> & ?). done. }
  assert (∀ P Q index, rd (P ++ X ++ concat (es2 ++ [fin]) ++ Q) (index + ih_flags) = Ret flags → ∃ B,
    set_child_vcns (P ++ X ++ concat (es2 ++ [fin]) ++ Q) index (length P) (Z.of_nat (length X)) ((λ cs, (ic_vcn (sc_ctx cs), sc_right_vcn cs)) <$> child) =
      Ret (P ++ B ++ Q) ∧ concat (es' ++ [fin']) = concat es1 ++ B ∧ length B = (length X + length (concat (es2 ++ [fin])))%nat) as Hset.
  { intros P Q index Hrd. apply Hbytes; try done. intros En. by destruct (Hchild En) as (cs & -> & ?). }
  exists es', fin', (drop (length (concat es1)) (concat (es' ++ [fin']))).
  destruct (Hset (replicate 12 0 ++ [flags]) [] 0%nat) as (B & _ & EB & LB); [by rewrite <- (assoc_L (++)); apply (rd_part (replicate 12 0) [flags] _ 0); cbn; lia|].
  rewrite EB, drop_app_length. split_and!; try done.
  - rewrite Hinfo, Hx. unfold es1, es2. by rewrite fmap_take, fmap_drop.
  - intros cs En Ecs. rewrite (Hvcn En). unfold lv, rv. rewrite Ecs. cbn [from_option].
    replace (e_vcn <$> es ++ [fin]) with ((e_vcn <$> es1) ++ (e_vcn <$> es2 ++ [fin])) by (by rewrite E, <- (assoc_L (++)), <- fmap_app).
    assert (length (e_vcn <$> es1) = k) as L1 by (rewrite length_fmap; unfold es1; rewrite length_take; lia).
    rewrite take_app_length', <- (Nat.add_1_r k), <- drop_drop, drop_app_length' by done. by destruct (e_vcn <$> es2 ++ [fin]).
  - intros P Q index Hrd. destruct (Hset P Q index Hrd) as (B' & -> & EB' & _). rewrite EB in EB'. by apply app_inv_head in EB' as ->.
Qed.

(** ** The entry to insert *)

Section insert.
Context (key data : list Z) (data_ofs : Z).
Hypothesis (Hdata : is_view ni = false → length data = 8%nat).

(** The entry that the context [s] describes says [x]; it has room for [n] bytes, which is the VCN in
    a node with children. *)
Definition item_source (f : contents) (n : Z) (l : list split_context) (s : split_context) (x : list Z * list Z) : Prop :=
  let size := sc_insert_entry_size s in
  0 ≤ n ∧ size < 2 ^ 16 ∧
  if sc_insert_to_add s then x = (key, data) ∧ entry_fits (is_view ni) data_ofs (size - n) key data
  else n = 8 ∧ ∃ j src e p q, sc_insert_ictx s = Some j ∧ l !! j = Some src ∧ ic_is_root (sc_ctx src) = false ∧
    page_bytes f (ic_upl_ofs (sc_ctx src)) = p ++ e ++ q ∧ ic_entries (sc_ctx src) !! Z.to_nat (sc_insert_entry_nr s) = Some (length p) ∧
    entry_wf ni e ∧ e_item ni e = x ∧ size = Z.of_nat (length e) + 8 - e_tail e.

(** [X y] is the entry written over the bytes [y]. *)
Definition filled (n size : Z) (x : list Z * list Z) (X : list Z → list Z) : Prop := ∀ y, Z.of_nat (length y) = size → bytes y →
  leaves_room ni (X y) n ∧ e_item ni (X y) = x ∧ length (X y) = length y ∧ (n = 0 → is_node (X y) = false).

Lemma fill_entry_spec n l s x w :
  item_source (w_ia w) n l s x →
  ∃ g X, fill_entry ni false key data data_ofs l s w = on_node (sc_ctx s) g w ∧ filled n (sc_insert_entry_size s) x X ∧
    ∀ P y Q, length P = ic_entry (sc_ctx s) → Z.of_nat (length y) = sc_insert_entry_size s → g (P ++ y ++ Q) = Ret ((), P ++ X y ++ Q).
Proof.
  intros (Hn & Hlt & Hsrc). unfold fill_entry. destruct (sc_insert_to_add s) eqn:Eadd; cbn [negb].
  - destruct Hsrc as [-> Hfit]. destruct (new_entry_room ni data_ofs _ key data n Hfit Hn Hlt Hdata) as (H1 & H2 & H3 & H4 & H5).
    eexists _, (λ _, _). split; [done|]. split; [by intros y Hy _; split_and!; [exact H1|exact H2|lia|]|].
    intros P y Q HP Hy. rewrite <- HP. rewrite create_entry_part by (try done; lia). done.
  - destruct Hsrc as (-> & j & src & e & p & q & Ej & El & Er & Epage & Eofs & Hwf & <- & Es). rewrite Ej. cbn [from_option].
    pose proof (room_ok _ _ _ Hwf) as Hok. pose proof (entry_header _ Hok).
    assert (0 ≤ e_tail e ≤ 8) as Ht by (unfold e_tail; destruct (is_node e); lia).
    eexists _, (copied e). split; [|split].
    + unfold mbind, io_bind, lift. cbn [mbind outcome_bind]. unfold rd. rewrite El. cbn [from_option mbind outcome_bind get_world].
      unfold node_buf at 1 2. rewrite Er, Epage, Eofs. cbn [from_option mbind outcome_bind]. rewrite le16_part by in_entry. cbn [mbind outcome_bind].
      rewrite (entry_length _ Hok), Nat2Z.id. reflexivity.
    + intros y Hy By. destruct (copied_room ni e y Hwf By ltac:(lia) ltac:(lia)) as (H1 & H2 & H3). by split_and!.
    + intros P y Q HP Hy. rewrite <- HP, <- Hy. apply copy_bytes; [done|lia].
Qed.

(** ** The insertion *)

Lemma item_source_size f n l s x : item_source f n l s x → 16 ≤ sc_insert_entry_size s.
Proof.
  intros (Hn & _ & H). destruct (sc_insert_to_add s).
  - destruct H as (_ & _ & _ & H & _). lia.
  - destruct H as (-> & j & src & e & p & q & _ & _ & _ & _ & _ & He & _ & ->). pose proof (entry_header _ (room_ok _ _ _ He)).
    unfold e_tail. destruct (is_node e); lia.
Qed.

Lemma insert_entry_block f v g flags es fin k l s child x t errors m :
  byte_contents f → block_is f v g flags es fin → (k ≤ length es)%nat → node_context (sc_ctx s) v g es k →
  Z.of_nat (16 + g + length (concat (es ++ [fin]))) + sc_insert_entry_size s ≤ block_size ni - 24 →
  (∀ f', only f f' v → item_source f' (if has flags INDEX_NODE then 8 else 0) l s x) →
  (has flags INDEX_NODE = true → ∃ cs, child = Some cs ∧ is_vcn (ic_vcn (sc_ctx cs)) ∧ is_vcn (sc_right_vcn cs)) →
  ∃ f' es' fin', insert_entry ni false key data data_ofs l s child (mk_world t errors m f) = Ret ((), mk_world t errors m f') ∧
    byte_contents f' ∧ only f f' v ∧ block_is f' v g flags es' fin' ∧ length fin' = length fin ∧
    e_info <$> es' = take k (e_info <$> es) ++ (x, Z.to_nat (sc_insert_entry_size s)) :: drop k (e_info <$> es) ∧
    ∀ cs, has flags INDEX_NODE = true → child = Some cs →
      e_vcn <$> es' ++ [fin'] = take k (e_vcn <$> es ++ [fin]) ++ ic_vcn (sc_ctx cs) :: sc_right_vcn cs :: drop (S k) (e_vcn <$> es ++ [fin]).
Proof.
  intros Hf (Hwf & h & gap & r & Hg & Hh & Hat) Hk [Cr Cp Ci Ce] Hfit Hsrc Hchild.
  pose proof (Hsrc f (λ _ _, eq_refl)) as Hsrc0. pose proof (item_source_size _ _ _ _ _ Hsrc0) as H16.
  set (size := sc_insert_entry_size s) in *. set (es1 := take k es) in *. set (es2 := drop k es).
  assert (es = es1 ++ es2) as E by (symmetry; apply take_drop). set (A := concat es1) in *. set (Y := concat (es2 ++ [fin])).
  assert (concat (es ++ [fin]) = A ++ Y) as EC by (unfold A, Y; by rewrite E, <- (assoc_L (++)), concat_app).
  rewrite EC, length_app, Nat.add_assoc in *. rewrite <- (assoc_L (++)) in Hat. pose proof (at_block_bytes _ _ _ Hf Hat) as Bb. rewrite !bytes_app in Bb.
  destruct Bb as (Bh & Bg & BA & BY & Br). pose proof (proj1 Hat) as Hlen. rewrite !length_app in Hlen. pose proof (head_length _ _ _ _ Hh) as Lh.
  set (y := take (Z.to_nat size) (Y ++ r)). assert (length y = Z.to_nat size) as Ly by (unfold y; rewrite length_take, length_app; lia).
  assert (bytes y) as By by (apply list.Forall_take, bytes_app; done).
  set (h' := splice h ih_index_length (le_bytes 4 (Z.of_nat (16 + g + length A + length Y) + size))).
  assert (head_ok h' g (Z.of_nat (16 + g + length A + length Y) + size) flags) as Hh'.
  { apply (head_resize _ _ _ _ _ Hh). lia. }
  pose proof (head_bytes _ _ _ _ Hh') as Bh'. pose proof (head_length _ _ _ _ Hh') as Lh'.
  assert (bytes (drop (Z.to_nat size) r)) as Br' by by apply list.Forall_drop.
  assert (∀ y, length y = Z.to_nat size → length (h' ++ gap ++ A ++ y ++ Y ++ drop (Z.to_nat size) r) = length (h ++ gap ++ A ++ Y ++ r)) as Hl.
  { intros z Hz. rewrite !length_app, length_drop. lia. }
  (* the space *)
  destruct (on_node_block (sc_ctx s) f v (h ++ gap ++ A ++ Y ++ r) (h' ++ gap ++ A ++ y ++ Y ++ drop (Z.to_nat size) r)
    (λ b, ntfs_index_node_make_space (sc_ctx s) b size) 0 t errors m) as (f1 & E1 & Hf1 & Ho1 & Hat1); [done|done|done|exact Hat| |by apply Hl| |].
  { intros p q Hp. unfold ntfs_index_node_make_space. rewrite Cr, Ci, Ce, <- Hp, <- Hg. rewrite (make_space_bytes _ _ _ _ _ _ _ flags); [|by rewrite ?Hg|lia..].
    by rewrite Hg. }
  { rewrite !bytes_app. done. }
  (* the entry *)
  destruct (fill_entry_spec _ _ _ _ (mk_world t errors m f1) (Hsrc f1 Ho1)) as (gf & X & E2 & HX & Hgf). fold size in HX, Hgf.
  destruct (HX y ltac:(lia) By) as (HX1 & HX2 & HX3 & HX4). pose proof (entry_bytes _ (room_ok _ _ _ HX1)) as BX.
  destruct (on_node_block (sc_ctx s) f1 v (h' ++ gap ++ A ++ y ++ Y ++ drop (Z.to_nat size) r)
    (h' ++ gap ++ A ++ X y ++ Y ++ drop (Z.to_nat size) r) gf () t errors m)
    as (f2 & E3 & Hf2 & Ho2 & Hat2); [done|done|done|exact Hat1| |rewrite !Hl; lia|by rewrite !bytes_app|].
  { intros p q Hp. replace (p ++ (h' ++ gap ++ A ++ y ++ Y ++ drop (Z.to_nat size) r) ++ q) with
      ((p ++ h' ++ gap ++ A) ++ y ++ (Y ++ drop (Z.to_nat size) r ++ q)) by by rewrite <- !(assoc_L (++)).
    rewrite Hgf by (rewrite ?length_app; lia). by rewrite <- !(assoc_L (++)). }
  (* the children *)
  destruct (inserted_entry flags es fin k (X y) child x) as (es' & fin' & B & Hwf' & Hfin' & Hinfo & Hvcn & EB & LB & Hset); try done. fold es1 es2 A Y in EB, LB, Hset.
  assert (bytes B) as BB by (pose proof (concat_bytes _ _ _ Hwf') as BC; rewrite EB, bytes_app in BC; tauto).
  destruct (on_node_block (sc_ctx s) f2 v (h' ++ gap ++ A ++ X y ++ Y ++ drop (Z.to_nat size) r) (h' ++ gap ++ A ++ B ++ drop (Z.to_nat size) r)
    (λ b, b ← set_child_vcns b (ic_index (sc_ctx s)) (ic_entry (sc_ctx s)) size ((λ cs, (ic_vcn (sc_ctx cs), sc_right_vcn cs)) <$> child); Ret ((), b))
    () t errors m) as (f3 & E4 & Hf3 & Ho3 & Hat3); [done|done|done|exact Hat2| |rewrite !length_app, length_drop; lia|by rewrite !bytes_app|].
  { intros p q Hp. specialize (Hset (p ++ h' ++ gap ++ A) (drop (Z.to_nat size) r ++ q) (length p)).
    rewrite Ci, <- Hp. replace (ic_entry (sc_ctx s)) with (length (p ++ h' ++ gap ++ A)) by (rewrite !length_app; lia).
    replace (Z.of_nat (length (X y))) with size in Hset by lia. rewrite <- !(assoc_L (++)) in *. rewrite Hset; [done|].
    rewrite rd_part by in_entry. f_equal. apply (head_flags _ _ _ _ Hh'). }
  exists f3, es', fin'. split.
  { unfold insert_entry. fold size. unfold mbind, io_bind. rewrite E1. cbn. rewrite E2, E3. cbn. exact E4. }
  split; [done|]. split; [by eapply only_trans; [|eapply only_trans]|]. split; [|split; [done|split]].
  - split; [done|]. exists h', gap, (drop (Z.to_nat size) r). split; [done|]. split.
    + rewrite EB, length_app, LB. replace (Z.of_nat _) with (Z.of_nat (16 + g + length A + length Y) + size) by lia. done.
    + by rewrite EB, <- !(assoc_L (++)).
  - rewrite Hinfo. do 4 f_equal. lia.
  - done.
Qed.
End insert.

(** ** The split of a block *)

(** The header of the right half. *)
Definition right_head (h : list Z) (len flags : Z) : list Z := splice (splice h ih_index_length (le_bytes 4 len)) ih_flags (le_bytes 1 flags).

Lemma right_head_ok h g len flags len' flags' :
  head_ok h g len flags → 0 ≤ len' ≤ block_size ni - 24 → 0 ≤ flags' < 256 → head_ok (right_head h len' flags') g len' flags'.
Proof.
  intros H Hl Hf. destruct (head_resize _ _ _ _ _ H Hl) as [B L H1 H2 H3 H4]. unfold right_head. set (h' := splice h _ _) in *. split.
  - apply bytes_splice; [done|apply bytes_le_bytes].
  - by rewrite length_splice by splice_len.
  - rewrite get32_splice_other by splice_len. done.
  - rewrite get32_splice_other by splice_len. done.
  - rewrite get32_splice_other by splice_len. done.
  - rewrite get8_splice by splice_len. rewrite bool_decide_eq_true_2 by splice_len. rewrite Nat.sub_diag. cbn. apply Z.mod_small. lia.
Qed.

Lemma copy_right_block f v rv s h gap A Y fin r flags h2 gap2 X2 t errors m :
  byte_contents f → at_block f v (h ++ gap ++ A ++ (Y ++ fin) ++ r) → at_block f rv (h2 ++ gap2 ++ X2) →
  ic_is_root (sc_ctx s) = false → ic_upl_ofs (sc_ctx s) = block_page v → ic_index (sc_ctx s) = index_at v →
  sc_right_upl_ofs s = block_page rv → (sc_right_ia s + ia_index)%nat = index_at rv →
  length h = 16%nat → get8 h ih_flags = flags → entry_ok fin → (∃ len flags2, head_ok h2 (length gap2) len flags2) → (length (Y ++ fin) ≤ length X2)%nat →
  let from := (index_at v + 16 + length gap + length A)%nat in
  let h2' := right_head h2 (Z.of_nat (16 + length gap2 + length (Y ++ fin))) flags in
  ∃ f', copy_right s from (from + length Y) (mk_world t errors m f) = Ret ((index_at rv + 16 + length gap2)%nat, mk_world t errors m f') ∧
    byte_contents f' ∧ only f f' rv ∧ at_block f' rv (h2' ++ gap2 ++ (Y ++ fin) ++ drop (length (Y ++ fin)) X2).
Proof.
  intros Hf Hat Hat2 Cr Cp Ci Rp Ri Lh Hfl Hfin (len & flags2 & Hh2) Hle from h2'. destruct Hh2 as [B2 L2 O2 I2 A2 _].
  pose proof (at_block_bytes _ _ _ Hf Hat) as Bb. pose proof (at_block_bytes _ _ _ Hf Hat2) as Bb2. rewrite !bytes_app in Bb. rewrite !bytes_app in Bb2.
  pose proof (entry_header _ Hfin) as Hf16. pose proof (proj1 Hat2) as Hlen2. rewrite !length_app in Hlen2. pose proof (get32_range h2 ih_allocated_size B2).
  destruct Hat as [_ (p & q & Hpage & Hp)]. unfold copy_right. rewrite io_world. unfold node_buf. rewrite Cr, Cp, Ci. cbn [w_ia]. rewrite Hpage.
  assert (∀ q0, p ++ (h ++ gap ++ A ++ (Y ++ fin) ++ r) ++ q0 = (p ++ h ++ gap ++ A) ++ (Y ++ fin) ++ (r ++ q0)) as EY by (intros; by rewrite <- !(assoc_L (++))).
  assert (p ++ (h ++ gap ++ A ++ (Y ++ fin) ++ r) ++ q = (p ++ h ++ gap ++ A ++ Y) ++ fin ++ (r ++ q)) as EF by by rewrite <- !(assoc_L (++)).
  assert (length (p ++ h ++ gap ++ A) = from) as Lfrom by (rewrite !length_app; unfold from; lia).
  erewrite lift_bind; [|rewrite <- Hp, <- !(assoc_L (++)); apply rd_part; in_entry]. rewrite Hfl.
  erewrite lift_bind; [|rewrite EF; replace (from + length Y)%nat with (length (p ++ h ++ gap ++ A ++ Y)) by (rewrite !length_app in *; lia); apply le16_part; in_entry].
  rewrite (entry_length _ Hfin), EY. rewrite uwrap_id by (rewrite length_app in *; lia).
  replace (Z.to_nat _) with (length (Y ++ fin)) by (rewrite length_app; lia).
  assert (length h2' = 16%nat) as L2' by (unfold h2', right_head; rewrite !length_splice; splice_len).
  rewrite Rp. apply (on_page_block f rv (h2 ++ gap2 ++ X2)); [done..| | |].
  - intros p2 q2 Hp2. rewrite Ri, <- Hp2. rewrite <- (assoc_L (++) h2). rewrite le32_part by in_entry. cbn [mbind outcome_bind]. rewrite O2.
    replace (p2 ++ h2 ++ (gap2 ++ X2) ++ q2) with ((p2 ++ h2 ++ gap2) ++ take (length (Y ++ fin)) X2 ++ (drop (length (Y ++ fin)) X2 ++ q2))
      by (rewrite (assoc_L (++) (take _ X2)), take_drop; by rewrite <- !(assoc_L (++))).
    rewrite (memcpy_parts (p2 ++ h2 ++ gap2)) by (rewrite ?length_app, ?length_take in *; lia). cbn [mbind outcome_bind].
    rewrite <- !(assoc_L (++) p2), <- !(assoc_L (++) h2). unfold put32, put8. rewrite put_part by splice_len. cbn [mbind outcome_bind].
    rewrite put_part by splice_len. cbn [mbind outcome_bind]. f_equal. f_equal; [lia|].
    unfold h2', right_head. rewrite uwrap_id by (rewrite length_app in *; lia).
    rewrite <- !(assoc_L (++)). repeat f_equal. rewrite length_app. lia.
  - rewrite !length_app, length_drop. rewrite !length_app in *. lia.
  - rewrite !bytes_app. assert (bytes h2') by (unfold h2', right_head; by repeat apply bytes_splice; try apply bytes_le_bytes).
    split_and!; try tauto. apply list.Forall_drop. tauto.
Qed.

Lemma truncate_left_bytes p h gap A Y fin r q flags :
  head_ok h (length gap) (Z.of_nat (16 + length gap + length (A ++ Y ++ fin))) flags → entry_ok fin →
  Z.of_nat (16 + length gap + length (A ++ Y ++ fin)) ≤ block_size ni - 24 →
  let h' := if (length Y =? 0)%nat then h else splice h ih_index_length (le_bytes 4 (Z.of_nat (16 + length gap + length (A ++ fin)))) in
  let entry := (length p + 16 + length gap + length A)%nat in
  truncate_left (length p) entry (entry + length Y) (p ++ (h ++ gap ++ A ++ Y ++ fin ++ r) ++ q) =
    Ret (p ++ (h' ++ gap ++ A ++ fin ++ drop (length fin) (Y ++ fin ++ r)) ++ q) ∧
  head_ok h' (length gap) (Z.of_nat (16 + length gap + length (A ++ fin))) flags.
Proof.
  intros Hh Hfin Hle h' entry. pose proof (entry_header _ Hfin). pose proof (head_length _ _ _ _ Hh) as Lh.
  pose proof (get32_range h ih_allocated_size (head_bytes _ _ _ _ Hh)) as Hr. rewrite (head_allocated _ _ _ _ Hh) in Hr. pose proof (length_app A fin) as LAF. rewrite !length_app in Hle.
  unfold truncate_left, h'. destruct (Nat.eqb_spec (length Y) 0) as [E|E].
  - apply nil_length_inv in E as ->. cbn [length app] in *. rewrite Nat.add_0_r, Nat.eqb_refl. rewrite drop_app_length. done.
  - rewrite (proj2 (Nat.eqb_neq _ _)) by lia.
    split; [|apply (head_resize _ _ _ _ _ Hh); lia].
    set (P := p ++ h ++ gap ++ A). assert (length P = entry) as LP by (unfold P, entry; rewrite !length_app; lia).
    replace (p ++ (h ++ gap ++ A ++ Y ++ fin ++ r) ++ q) with (P ++ (Y ++ fin ++ r) ++ q) by (unfold P; by rewrite <- !(assoc_L (++))).
    assert (le16_at (P ++ (Y ++ fin ++ r) ++ q) (entry + length Y + ie_length) = Ret (Z.of_nat (length fin))) as ->.
    { rewrite <- (entry_length _ Hfin). rewrite <- !(assoc_L (++)), (assoc_L (++) P Y). rewrite <- LP, <- length_app. apply le16_part. in_entry. }
    cbn [mbind outcome_bind]. rewrite Nat2Z.id, <- LP. rewrite <- (Nat.add_0_r (length P)) at 1.
    rewrite memmove_part by (rewrite !length_app; lia). cbn [mbind outcome_bind]. rewrite take_0, <- !(assoc_L (++) Y), drop_app_length, <- !(assoc_L (++) fin), take_app_length.
    rewrite Nat.add_0_l. rewrite uwrap_id by lia. cbn [app]. unfold P, put32. rewrite <- !(assoc_L (++)). rewrite put_part by splice_len. f_equal. f_equal. f_equal; [|do 3 f_equal].
    + repeat f_equal. rewrite !length_app. lia.
    + rewrite <- drop_app_le by (rewrite !length_app; lia). by rewrite <- !(assoc_L (++)).
Qed.

Lemma put_vcn_bytes P e Q v : entry_ok e → put_vcn (P ++ e ++ Q) (length P) v = Ret (P ++ set_vcn e v ++ Q).
Proof.
  intros He. pose proof (entry_header _ He). unfold put_vcn. rewrite le16_part by in_entry. cbn [mbind outcome_bind]. rewrite (entry_length _ He).
  replace (Z.to_nat _) with (length P + (length e - 8))%nat by lia. unfold put64. by rewrite put_part by splice_len.
Qed.

Lemma offsets_take o es (fin : list Z) k : (k ≤ length es)%nat → offsets o (es ++ [fin]) !! k = Some (o + length (concat (take k es)))%nat.
Proof.
  intros Hk. rewrite <- (take_drop k es) at 1. rewrite <- (assoc_L (++)).
  destruct (drop k es ++ [fin]) as [|e l] eqn:E; [by destruct (drop k es)|]. pose proof (offsets_lookup o (take k es) e l) as H.
  by rewrite length_take, Nat.min_l in H by done.
Qed.

(** ** Blocks apart *)

Definition apart (u v : Z) : Prop := ∀ i, block_pos u ≤ i < block_pos u + block_size ni → block_pos v ≤ i < block_pos v + block_size ni → False.

Lemma at_block_frame f f' u b : at_block f u b → (∀ i, block_pos u + 24 ≤ i < block_pos u + block_size ni → f' i = f i) → at_block f' u b.
Proof.
  intros [Hl (p & q & Hpage & Hp)] Hag. split; [done|]. pose proof (length_page_bytes f (block_page u)) as L. pose proof (length_page_bytes f' (block_page u)) as L'.
  rewrite Hpage, !length_app in L. set (B := page_bytes f' (block_page u)) in *.
  exists (take (length p) B), (drop (length p + length b) B). split; [|rewrite length_take; lia].
  rewrite <- (take_drop (length p) B) at 1. f_equal. rewrite <- (take_drop (length b) (drop (length p) B)) at 1. rewrite drop_drop. f_equal.
  replace b with (take (length b) (drop (length p) (p ++ b ++ q))) at 2 by by rewrite drop_app_length, take_app_length.
  rewrite <- Hpage. apply slice_ext. intros j Hj. unfold B. rewrite !lookup_page_bytes by lia. f_equal. apply Hag.
  destruct (block_place ni u) as [E Ho]. unfold index_at, ia_index in Hp. lia.
Qed.

Lemma at_block_only f f' u v b : apart u v → only f f' v → at_block f u b → at_block f' u b.
Proof. intros Ha Ho Hat. apply (at_block_frame f); [done|]. intros i Hi. apply Ho. intros Hv. apply (Ha i); lia. Qed.

Lemma block_is_only f f' u v g flags es fin : apart u v → only f f' v → block_is f u g flags es fin → block_is f' u g flags es fin.
Proof. intros Ha Ho (Hwf & h & gap & r & ? & ? & Hat). split; [done|]. exists h, gap, r. split_and!; try done. by eapply at_block_only. Qed.

(** Only the blocks [vs] are changed, behind their first 24 bytes. *)
Definition changes (f f' : contents) (vs : list Z) : Prop := ∀ i, (∀ v, v ∈ vs → ¬ (block_pos v + 24 ≤ i < block_pos v + block_size ni)) → f' i = f i.

Lemma only_changes f f' v vs : only f f' v → v ∈ vs → changes f f' vs.
Proof. intros H Hv i Hi. apply H. by apply Hi. Qed.
Lemma changes_trans f f' f'' vs : changes f f' vs → changes f' f'' vs → changes f f'' vs.
Proof. intros H1 H2 i Hi. by rewrite H2, H1. Qed.
Lemma changes_refl f vs : changes f f vs.
Proof. done. Qed.
Lemma changes_mono f f' vs vs' : changes f f' vs → vs ⊆ vs' → changes f f' vs'.
Proof. intros H Hs i Hi. apply H. intros v Hv. by apply Hi, Hs. Qed.

Lemma apart_sym u v : apart u v → apart v u.
Proof. intros H i H1 H2. by apply (H i). Qed.

(** Only the blocks [vs] are changed, with their headers. *)
Definition outside (f f' : contents) (vs : list Z) : Prop := ∀ i, (∀ v, v ∈ vs → ¬ (block_pos v ≤ i < block_pos v + block_size ni)) → f' i = f i.

Lemma changes_outside f f' vs : changes f f' vs → outside f f' vs.
Proof. intros H i Hi. apply H. intros v Hv Hi'. apply (Hi v Hv). lia. Qed.
Lemma outside_trans f f' f'' vs : outside f f' vs → outside f' f'' vs → outside f f'' vs.
Proof. intros H1 H2 i Hi. by rewrite H2, H1. Qed.
Lemma outside_mono f f' vs vs' : outside f f' vs → vs ⊆ vs' → outside f f' vs'.
Proof. intros H Hs i Hi. apply H. intros v Hv. by apply Hi, Hs. Qed.
Lemma block_is_outside f f' u vs g flags es fin :
  outside f f' vs → (∀ v, v ∈ vs → apart u v) → block_is f u g flags es fin → block_is f' u g flags es fin.
Proof.
  intros Hc Ha (Hwf & h & gap & r & ? & ? & Hat). split; [done|]. exists h, gap, r. split_and!; try done.
  eapply at_block_frame; [done|]. intros i Hi. apply Hc. intros v Hv Hi'. apply (Ha v Hv i); lia.
Qed.
Lemma block_is_changes f f' u vs g flags es fin :
  changes f f' vs → (∀ v, v ∈ vs → apart u v) → block_is f u g flags es fin → block_is f' u g flags es fin.
Proof. intros Hc. by apply block_is_outside, changes_outside. Qed.

(** The entries after the child of the first one is [rv]. *)
Definition bumped (flags : Z) (rv : Z) (es : list (list Z)) (fin : list Z) : list (list Z) * list Z :=
  if has flags INDEX_NODE then match es with [] => ([], set_vcn fin rv) | e :: l => (set_vcn e rv :: l, fin) end else (es, fin).

Lemma bumped_wf flags rv es fin : let '(es', fin') := bumped flags rv es fin in
  entries_wf flags es fin → (has flags INDEX_NODE = true → is_vcn rv) →
  entries_wf flags es' fin' ∧ length fin' = length fin ∧ e_info <$> es' = e_info <$> es ∧ length (concat (es' ++ [fin'])) = length (concat (es ++ [fin])) ∧
  (has flags INDEX_NODE = true → e_vcn <$> es' ++ [fin'] = rv :: tail (e_vcn <$> es ++ [fin])).
Proof.
  unfold bumped. destruct (has flags INDEX_NODE) eqn:En; [|done]. destruct es as [|e l]; intros [Hes Hfin Hns] Hv; specialize (Hv eq_refl).
  - rewrite En in Hns. apply list.Forall_cons in Hns as [Hn _]. destruct (set_vcn_fin fin rv Hfin Hn Hv) as (F1 & F2 & F3 & F4).
    split_and!; try done.
    + split; [done|done|]. rewrite En. by constructor.
    + cbn [app concat]. by rewrite !app_nil_r.
    + intros _. cbn [app]. by rewrite fmap_cons, F3.
  - rewrite En in Hns. apply list.Forall_cons in Hns as [Hn Hl]. apply list.Forall_cons in Hes as [He Hes].
    destruct (set_vcn_wf ni e rv He Hn Hv) as (F1 & F2 & F3 & F4 & F5). split_and!; try done.
    + split; [by constructor|done|]. rewrite En. by constructor.
    + rewrite !fmap_cons. f_equal. unfold e_info. by rewrite F3, F5.
    + cbn [app concat]. rewrite !length_app. lia.
    + intros _. cbn [app]. by rewrite !fmap_cons, F4.
Qed.

Lemma bumped_bytes flags rv es fin P Q : let '(es', fin') := bumped flags rv es fin in
  entries_wf flags es fin → has flags INDEX_NODE = true →
  put_vcn (P ++ concat (es ++ [fin]) ++ Q) (length P) rv = Ret (P ++ concat (es' ++ [fin']) ++ Q).
Proof.
  unfold bumped. destruct (has flags INDEX_NODE) eqn:En; [|done]. destruct es as [|e l]; intros [Hes Hfin _] _; cbn [app concat].
  - rewrite !app_nil_r. apply put_vcn_bytes, Hfin.
  - rewrite <- !(assoc_L (++)). apply put_vcn_bytes. by apply list.Forall_cons in Hes as [[] _].
Qed.

(** The first entry of the right half. *)
Lemma bump_right f v rv s below vcn h2 gap2 er fr r2 flags (L : list Z) t errors m : let child := default s (snd <$> below) in
  byte_contents f → apart v rv → at_block f v L → at_block f rv (h2 ++ gap2 ++ concat (er ++ [fr]) ++ r2) →
  entries_wf flags er fr → length h2 = 16%nat → has flags INDEX_NODE = true → sc_right_upl_ofs s = block_page rv →
  below = Some (default 0%nat (fst <$> below), child) → is_vcn (sc_right_vcn child) →
  let '(er', fr') := if sc_promote_inserted s then bumped flags (sc_right_vcn child) er fr else (er, fr) in
  ∃ f', (if sc_promote_inserted s then
      match below with
      | None => panic
      | Some (_, child) =>
          _ ← on_page (sc_right_upl_ofs s) (λ rb, rb ← put_vcn rb (index_at rv + 16 + length gap2) (sc_right_vcn child); Ret ((), rb));
          mret (ic_vcn (sc_ctx child))
      end
    else mret vcn) (mk_world t errors m f) = Ret (if sc_promote_inserted s then ic_vcn (sc_ctx child) else vcn, mk_world t errors m f') ∧
    byte_contents f' ∧ changes f f' [v; rv] ∧ at_block f' v L ∧ at_block f' rv (h2 ++ gap2 ++ concat (er' ++ [fr']) ++ r2).
Proof.
  intros child Hf Hap Hat Hat2 Hwf Lh2 Hn Rp Hb Hrv. destruct (sc_promote_inserted s); [|by exists f].
  pose proof (bumped_wf flags (sc_right_vcn child) er fr) as Hw. pose proof (bumped_bytes flags (sc_right_vcn child) er fr) as Hbytes.
  destruct (bumped flags (sc_right_vcn child) er fr) as [er' fr']. destruct Hw as (Hwf' & _ & _ & Hlen & _); [done|done|].
  pose proof (at_block_bytes _ _ _ Hf Hat2) as B. rewrite !bytes_app in B. pose proof (concat_bytes _ _ _ Hwf').
  rewrite Hb. destruct (on_page_block f rv (h2 ++ gap2 ++ concat (er ++ [fr]) ++ r2) (h2 ++ gap2 ++ concat (er' ++ [fr']) ++ r2)
    (λ rb, rb ← put_vcn rb (index_at rv + 16 + length gap2) (sc_right_vcn child); Ret ((), rb)) () t errors m) as (f' & E & Hf' & Ho & Hat').
  - done.
  - done.
  - intros p q Hp. specialize (Hbytes (p ++ h2 ++ gap2) (r2 ++ q) Hwf Hn). rewrite !length_app, Lh2, Hp in Hbytes. rewrite Nat.add_assoc in Hbytes.
    rewrite <- !(assoc_L (++)) in *. rewrite Hbytes. done.
  - rewrite !length_app. lia.
  - rewrite !bytes_app. tauto.
  - exists f'. split; [|split; [done|split; [|split; [|done]]]].
    + rewrite Rp. by erewrite io_step by exact E.
    + apply (only_changes _ _ rv); [done|right; left].
    + by eapply at_block_only.
Qed.

Lemma fix_vcns_block f v rv s below vcn h gap A fin r h2 gap2 er fr r2 flags t errors m :
  byte_contents f → apart v rv → at_block f v (h ++ gap ++ A ++ fin ++ r) → at_block f rv (h2 ++ gap2 ++ concat (er ++ [fr]) ++ r2) →
  length h = 16%nat → get8 h ih_flags = flags → fin_wf fin → is_node fin = has flags INDEX_NODE → entries_wf flags er fr → length h2 = 16%nat →
  ic_is_root (sc_ctx s) = false → ic_upl_ofs (sc_ctx s) = block_page v → ic_index (sc_ctx s) = index_at v →
  sc_right_upl_ofs s = block_page rv →
  (has flags INDEX_NODE = true → ∃ j child, below = Some (j, child) ∧ ic_is_root (sc_ctx child) = false ∧ is_vcn (sc_right_vcn child)) →
  let child := default s (snd <$> below) in
  let '(er', fr') := if sc_promote_inserted s then bumped flags (sc_right_vcn child) er fr else (er, fr) in
  let fin' := if has flags INDEX_NODE then set_vcn fin (if sc_promote_inserted s then ic_vcn (sc_ctx child) else vcn) else fin in
  ∃ f' vcn', fix_vcns s below vcn (index_at v + 16 + length gap + length A) (index_at rv + 16 + length gap2) (mk_world t errors m f) =
      Ret ((if has flags INDEX_NODE then fst <$> below else None, vcn'), mk_world t errors m f') ∧
    byte_contents f' ∧ changes f f' [v; rv] ∧ at_block f' v (h ++ gap ++ A ++ fin' ++ r) ∧ at_block f' rv (h2 ++ gap2 ++ concat (er' ++ [fr']) ++ r2).
Proof.
  intros Hf Hap Hat Hat2 Lh Hfl Hfin Hn Hwf2 Lh2 Cr Cp Ci Rp Hbelow child.
  assert (entry_ok fin ∧ (16 ≤ length fin)%nat) as [Hok H16] by (destruct Hfin as (Hok & _); split; [done|apply (entry_header _ Hok)]).
  assert (∀ f v L, at_block f v (h ++ gap ++ L) → ∀ k, (k < 16)%nat → rd (page_bytes f (block_page v)) (index_at v + k) = Ret (get8 h k)) as Hrd.
  { intros f0 v0 L [_ (p & q & -> & <-)] k Hk. rewrite <- !(assoc_L (++)). apply rd_part. lia. }
  pose proof (bump_right f v rv s below) as Hright. fold child in Hright.
  assert (le16_at (page_bytes f (block_page v)) (index_at v + 16 + length gap + length A + ie_flags) = Ret (e_flags fin)) as Hflags.
  { destruct (proj2 Hat) as (p & q & -> & <-). replace (p ++ (h ++ gap ++ A ++ fin ++ r) ++ q) with ((p ++ h ++ gap ++ A) ++ fin ++ (r ++ q)) by by rewrite <- !(assoc_L (++)).
    replace (length p + 16 + length gap + length A)%nat with (length (p ++ h ++ gap ++ A)) by (rewrite !length_app; lia). apply le16_part. in_entry. }
  unfold fix_vcns. destruct (has flags INDEX_NODE) eqn:En.
  2: { unfold bumped. rewrite En. destruct (sc_promote_inserted s); exists f, vcn; (split; [|done]); rewrite io_world; unfold node_buf; rewrite Cr, Cp; cbn [w_ia];
       erewrite lift_bind by exact Hflags; fold (is_node fin); by rewrite Hn. }
  destruct (Hbelow eq_refl) as (j & cs & Eb & Hcr & Hrv). assert (child = cs) as Ecs by (unfold child; by rewrite Eb).
  specialize (Hright vcn h2 gap2 er fr r2 flags _ t errors m Hf Hap Hat Hat2 Hwf2 Lh2 En Rp).
  rewrite Ecs in *. destruct (if sc_promote_inserted s then _ else (er, fr)) as [er' fr'].
  destruct Hright as (f1 & E1 & Hf1 & Hc1 & Hat1 & Hat21); [by rewrite Eb|done|].
  set (lv := if sc_promote_inserted s then ic_vcn (sc_ctx cs) else vcn) in *.
  pose proof (at_block_bytes _ _ _ Hf1 Hat1) as B. rewrite !bytes_app in B.
  destruct (on_node_block (sc_ctx s) f1 v (h ++ gap ++ A ++ fin ++ r) (h ++ gap ++ A ++ set_vcn fin lv ++ r)
    (λ b, b ← put_vcn b (index_at v + 16 + length gap + length A) lv; Ret ((), b)) () t errors m) as (f2 & E2 & Hf2 & Ho2 & Hat3).
  - done.
  - done.
  - done.
  - done.
  - intros p q Hp. pose proof (put_vcn_bytes (p ++ h ++ gap ++ A) fin (r ++ q) lv Hok) as Hb. rewrite !length_app, Lh, Hp in Hb.
    rewrite !Nat.add_assoc in Hb. rewrite <- !(assoc_L (++)) in *. by rewrite Hb.
  - rewrite !length_app. unfold set_vcn. rewrite length_splice by splice_len. done.
  - rewrite !bytes_app. split_and!; try tauto. unfold set_vcn. apply bytes_splice; [tauto|apply bytes_le_bytes].
  - exists f2, lv. split; [|split_and!; [done| |done|]].
    + rewrite io_world, (node_buf_page _ _ _ _ _ _ Cr Cp). erewrite lift_bind by exact Hflags. fold (is_node fin). rewrite Hn. cbn [negb].
      rewrite Eb. cbn [from_option snd]. rewrite Hcr. erewrite io_step by reflexivity. rewrite Eb in E1. erewrite io_step by exact E1.
      rewrite io_world, (node_buf_page _ _ _ _ _ _ Cr Cp), Ci.
      erewrite lift_bind by (eapply Hrd; [exact Hat1|in_entry]). rewrite Hfl, En. cbn [negb]. by erewrite io_step by exact E2.
    + eapply changes_trans; [exact Hc1|]. apply (only_changes _ _ v); [done|left].
    + eapply at_block_only; [|exact Ho2|done]. intros i H1 H2. by apply (Hap i).
Qed.

Lemma block_is_at f v g flags es fin :
  block_is f v g flags es fin → ∃ h gap r, length gap = g ∧ head_ok h g (Z.of_nat (16 + g + length (concat (es ++ [fin])))) flags ∧
    ∀ k, at_block f v (h ++ gap ++ concat (take k es) ++ (concat (drop k es) ++ fin) ++ r).
Proof.
  intros (_ & h & gap & r & Hg & Hh & Hat). exists h, gap, r. split; [done|]. split; [done|]. intros k.
  replace (concat (take k es) ++ (concat (drop k es) ++ fin) ++ r) with (concat (es ++ [fin]) ++ r); [done|].
  rewrite <- (take_drop k es) at 1. rewrite !concat_app. cbn [concat]. by rewrite app_nil_r, <- !(assoc_L (++)).
Qed.

Lemma concat_take_drop (es : list (list Z)) i k :
  (i ≤ k)%nat → length (concat (take k es)) = (length (concat (take i es)) + length (concat (take (k - i) (drop i es))))%nat.
Proof.
  intros H. rewrite <- length_app, <- concat_app. f_equal. f_equal. rewrite <- (take_drop i (take k es)), take_take, Nat.min_l by lia. f_equal.
  rewrite take_drop_commute. by replace (i + (k - i))%nat with k by lia.
Qed.

(** The context after the split: it describes the half that the entry is inserted into. *)
Definition half_context (s : split_context) (v rv : Z) (g' P k : nat) (es : list (list Z)) : split_context :=
  if negb (sc_promote_inserted s) && (P <? k)%nat then
    set_right v (block_page v) (sc_right_ia s) false
      (set_ctx (move_to_block rv (block_page rv) (index_at rv) (index_at rv + 16 + g' + length (concat (take (k - S P) (drop (S P) es)))) (sc_ctx s)) s)
  else set_right rv (block_page rv) (sc_right_ia s) false s.

Lemma choose_half_block s v rv g g' es fin k P f t errors m X2 : let c := sc_ctx s in
  at_block f rv X2 → (∃ h2 gap2 Y2 len flags, X2 = h2 ++ gap2 ++ Y2 ∧ head_ok h2 g' len flags) →
  node_context c v g es k → ic_entries c = offsets (index_at v + 16 + g) (es ++ [fin]) → ic_entry_nr c = Z.of_nat k → ic_vcn c = v →
  sc_right_vcn s = rv → sc_right_upl_ofs s = block_page rv → (sc_right_ia s + ia_index)%nat = index_at rv →
  sc_promote_entry_nr s = Z.of_nat P → (k ≤ length es)%nat →
  ∃ s', choose_half s (mk_world t errors m f) = Ret (s', mk_world t errors m f) ∧
    set_right (sc_right_vcn s') (sc_right_upl_ofs s') (sc_right_ia s') false s' = half_context s v rv g' P k es.
Proof.
  intros c Hat (h2 & gap2 & Y2 & len & flags & -> & Hh2) [Cr Cp Ci Ce] Een Enr Ev Er Erp Eri EP Hk. unfold choose_half, half_context.
  fold c. rewrite EP, Enr. replace (Z.of_nat P <? Z.of_nat k) with (P <? k)%nat by (destruct (Nat.ltb_spec P k); symmetry; [apply Z.ltb_lt|apply Z.ltb_ge]; lia).
  destruct (negb (sc_promote_inserted s) && (P <? k)%nat) eqn:Ehalf.
  - apply andb_prop in Ehalf as [_ HP]. apply Nat.ltb_lt in HP. rewrite Eri, Erp.
    destruct (proj2 Hat) as (p & q & Hpage & Hp).
    exists (set_right v (block_page v) (sc_right_ia s) (sc_right_is_locked s) (set_ctx (move_to_block rv (block_page rv) (index_at rv)
      (index_at rv + 16 + g' + length (concat (take (k - S P) (drop (S P) es)))) c) s)). split; [|done].
    rewrite io_world. cbn [w_ia]. rewrite Hpage.
    erewrite lift_bind by (rewrite <- Hp, <- !(assoc_L (++)); apply le32_part; rewrite (head_length _ _ _ _ Hh2); in_entry).
    rewrite (head_offset _ _ _ _ Hh2). erewrite lift_bind by (unfold rd; rewrite Een; replace (Z.to_nat (Z.of_nat P + 1)) with (S P) by lia; by rewrite offsets_take by lia).
    unfold mret, io_ret. rewrite Ev, Er, Cp, Ce. do 5 f_equal. rewrite (concat_take_drop es (S P) k) by lia. lia.
  - exists s. by rewrite Er, Erp.
Qed.

Lemma block_entry_at f v g flags es fin i e :
  block_is f v g flags es fin → (es ++ [fin]) !! i = Some e →
  ∃ p q, page_bytes f (block_page v) = p ++ e ++ q ∧ length p = (index_at v + 16 + g + length (concat (take i es)))%nat.
Proof.
  intros (_ & h & gap & r & Hg & Hh & [_ (p & q & -> & Hp)]) Hi. pose proof (lookup_lt_Some _ _ _ Hi) as Hlt. rewrite length_app in Hlt. cbn in Hlt.
  rewrite <- (take_drop_middle _ _ _ Hi), concat_app. cbn [concat]. rewrite take_app_le by lia.
  exists (p ++ h ++ gap ++ concat (take i es)), (concat (drop (S i) (es ++ [fin])) ++ r ++ q).
  rewrite !length_app, (head_length _ _ _ _ Hh), <- !(assoc_L (++)). split; [done|lia].
Qed.

Lemma block_flags_at f v g flags es fin : block_is f v g flags es fin → rd (page_bytes f (block_page v)) (index_at v + ih_flags) = Ret flags.
Proof.
  intros (_ & h & gap & r & Hg & Hh & [_ (p & q & -> & <-)]). rewrite <- !(assoc_L (++)).
  rewrite rd_part by (rewrite (head_length _ _ _ _ Hh); in_entry). f_equal. apply (head_flags _ _ _ _ Hh).
Qed.

Lemma promote_step f v g flags es fin c s P vcn t errors m : let base := (index_at v + 16 + g)%nat in let b := page_bytes f (block_page v) in
  let promote := (base + length (concat (take P es)))%nat in let first := if sc_promote_inserted s then P else S P in
  block_is f v g flags es fin → ic_entries c = offsets base (es ++ [fin]) → ic_index c = index_at v → sc_promote_entry_nr s = Z.of_nat P →
  (first ≤ length es)%nat →
  ∃ vcn1, (if sc_promote_inserted s then mret (vcn, promote) else
    flags ← lift (le16_at b (promote + ie_flags));
    vcn ← (if has flags INDEX_ENTRY_NODE then
             index_flags ← lift (rd b (ic_index c + ih_flags));
             if negb (has index_flags INDEX_NODE) then panic else lift (child_vcn b promote)
           else mret vcn);
    next ← lift (rd (ic_entries c) (Z.to_nat (sc_promote_entry_nr s + 1)));
    mret (vcn, next)) (mk_world t errors m f) = Ret ((vcn1, (base + length (concat (take first es)))%nat), mk_world t errors m f) ∧
    (has flags INDEX_NODE = true → sc_promote_inserted s = false → e_vcn <$> (es !! P) = Some vcn1).
Proof.
  intros base b promote first Hblk Een Ei EP Hfirst. destruct (sc_promote_inserted s) eqn:Ein; [by exists vcn|]. unfold first in *.
  destruct (lookup_lt_is_Some_2 es P ltac:(lia)) as [e He]. pose proof (block_flags_at _ _ _ _ _ _ Hblk) as Hfl.
  destruct (block_entry_at _ _ _ _ _ _ P e Hblk) as (p & q & Hpage & Hp); [by rewrite lookup_app_l by lia|].
  destruct Hblk as ([Hes _ Hns] & _). rewrite Forall_lookup in Hes. pose proof (room_ok _ _ _ (Hes _ _ He)) as Hok. pose proof (entry_header _ Hok).
  rewrite list.Forall_app, Forall_lookup in Hns. pose proof (proj1 Hns _ _ He) as Hn. fold base promote in Hp. rewrite EP.
  assert (∀ vcn : Z, (next ← lift (rd (ic_entries c) (Z.to_nat (Z.of_nat P + 1))); mret (vcn, next) : io (Z * nat)) (mk_world t errors m f) =
    Ret ((vcn, (base + length (concat (take (S P) es)))%nat), mk_world t errors m f)) as Hnext.
  { intros vcn'. replace (Z.to_nat (Z.of_nat P + 1)) with (S P) by lia. unfold rd. rewrite Een, offsets_take by lia. done. }
  assert (le16_at b (promote + ie_flags) = Ret (e_flags e)) as Hflags by (unfold b; rewrite Hpage, <- Hp; apply le16_part; in_entry).
  assert (child_vcn b promote = Ret (e_vcn e)) as Hchild by (unfold b; rewrite Hpage, <- Hp; by apply child_vcn_spec).
  destruct (has flags INDEX_NODE) eqn:En; [exists (e_vcn e)|exists vcn]; (split; [|by rewrite ?He]); erewrite lift_bind by exact Hflags;
    fold (is_node e); rewrite Hn; (erewrite io_step; [apply Hnext|]); [|done].
  rewrite Ei. erewrite lift_bind by exact Hfl. rewrite En. cbn [negb]. unfold lift. by rewrite Hchild.
Qed.

Lemma truncate_left_block f v g flags es fin h gap r P c t errors m : let base := (index_at v + 16 + g)%nat in
  byte_contents f → ic_is_root c = false → ic_upl_ofs c = block_page v → ic_index c = index_at v → length gap = g → entry_ok fin →
  head_ok h g (Z.of_nat (16 + g + length (concat (es ++ [fin])))) flags → Z.of_nat (16 + g + length (concat (es ++ [fin]))) ≤ block_size ni - 24 →
  at_block f v (h ++ gap ++ concat (take P es) ++ (concat (drop P es) ++ fin) ++ r) → (P ≤ length es)%nat →
  ∃ f' h' r', on_node c (λ b, b ← truncate_left (ic_index c) (base + length (concat (take P es))) (base + length (concat es)) b; Ret ((), b))
      (mk_world t errors m f) = Ret ((), mk_world t errors m f') ∧ byte_contents f' ∧ only f f' v ∧
    at_block f' v (h' ++ gap ++ concat (take P es) ++ fin ++ r') ∧ head_ok h' g (Z.of_nat (16 + g + length (concat (take P es ++ [fin])))) flags.
Proof.
  intros base Hf Cr Cp Ci Hg Hok Hh Hlen Hat HP. rewrite <- (assoc_L (++)) in Hat.
  set (A := concat (take P es)) in *. set (Y := concat (drop P es)) in *.
  assert (concat (es ++ [fin]) = A ++ Y ++ fin) as EC.
  { rewrite <- (take_drop P es) at 1. rewrite !concat_app. cbn [concat]. by rewrite app_nil_r, <- (assoc_L (++)). }
  assert (length (concat es) = length A + length Y)%nat as Les by (rewrite <- (take_drop P es) at 1; by rewrite concat_app, length_app).
  assert (concat (take P es ++ [fin]) = A ++ fin) as EA by (rewrite concat_app; cbn [concat]; by rewrite app_nil_r).
  rewrite EC in Hh, Hlen. rewrite EA, <- Hg in *.
  destruct (truncate_left_bytes [] h gap A Y fin r [] flags Hh Hok Hlen) as [_ Hh']. set (h' := if (length Y =? 0)%nat then h else _) in Hh'.
  pose proof (at_block_bytes _ _ _ Hf Hat) as B. rewrite !bytes_app in B. pose proof (head_length _ _ _ _ Hh). pose proof (head_length _ _ _ _ Hh').
  destruct (on_node_block c f v (h ++ gap ++ A ++ Y ++ fin ++ r) (h' ++ gap ++ A ++ fin ++ drop (length fin) (Y ++ fin ++ r))
    (λ b, b ← truncate_left (ic_index c) (base + length A) (base + length (concat es)) b; Ret ((), b)) () t errors m) as (f' & E & Hf' & Ho & Hat').
  - done.
  - done.
  - done.
  - done.
  - intros p q Hp. destruct (truncate_left_bytes p h gap A Y fin r q flags Hh Hok Hlen) as [E _]. fold h' in E.
    rewrite Ci, Les, Nat.add_assoc. unfold base. rewrite <- Hp, <- Hg. by rewrite E.
  - rewrite !length_app, length_drop, !length_app. lia.
  - rewrite !bytes_app. pose proof (head_bytes _ _ _ _ Hh'). split_and!; try tauto. apply list.Forall_drop, bytes_app. rewrite bytes_app. tauto.
  - exists f', h', (drop (length fin) (Y ++ fin ++ r)). done.
Qed.

Lemma entries_wf_part flags es es' fin : entries_wf flags es fin → (∀ Q : list Z → Prop, Forall Q es → Forall Q es') → entries_wf flags es' fin.
Proof.
  intros [H1 H2 H3] Hs. apply list.Forall_app in H3 as [H3 H4]. split; [by apply Hs|done|]. apply list.Forall_app. split; [by apply Hs|done].
Qed.

Lemma entries_wf_fin flags es fin fin' : entries_wf flags es fin → fin_wf fin' → is_node fin' = is_node fin → entries_wf flags es fin'.
Proof.
  intros [H1 H2 H3] Hf Hn. apply list.Forall_app in H3 as [H3 H4]. split; [done|done|]. apply list.Forall_app. split; [done|].
  rewrite list.Forall_singleton in *. by rewrite Hn.
Qed.

Lemma split_node_block f v rv g g' flags es fin fin0 k P s below vcn t errors m : let c := sc_ctx s in
  let first := if sc_promote_inserted s then P else S P in
  let child := default s (snd <$> below) in
  byte_contents f → apart v rv → block_is f v g flags es fin → block_is f rv g' 0 [] fin0 → (k ≤ length es)%nat →
  node_context c v g es k → ic_entries c = offsets (index_at v + 16 + g) (es ++ [fin]) → ic_entry_nr c = Z.of_nat k → ic_vcn c = v →
  sc_right_vcn s = rv → sc_right_upl_ofs s = block_page rv → (sc_right_ia s + ia_index)%nat = index_at rv →
  sc_promote_entry_nr s = Z.of_nat P → (first ≤ length es)%nat →
  Z.of_nat (16 + g' + length (concat (drop first es ++ [fin]))) ≤ block_size ni - 24 →
  (has flags INDEX_NODE = true → ∃ j, below = Some (j, child) ∧ ic_is_root (sc_ctx child) = false ∧ is_vcn (ic_vcn (sc_ctx child)) ∧ is_vcn (sc_right_vcn child)) →
  (has flags INDEX_NODE = true → Forall is_vcn (e_vcn <$> es)) →
  ∃ f' vcn' fl er fr, split_node s below vcn (mk_world t errors m f) =
      Ret ((half_context s v rv g' P k es, if has flags INDEX_NODE then fst <$> below else None, vcn'), mk_world t errors m f') ∧
    byte_contents f' ∧ changes f f' [v; rv] ∧ block_is f' v g flags (take P es) fl ∧ block_is f' rv g' flags er fr ∧
    length fl = length fin ∧ length fr = length fin ∧ e_info <$> er = e_info <$> drop first es ∧ (sc_promote_inserted s = false → er = drop first es) ∧
    (has flags INDEX_NODE = true →
      if sc_promote_inserted s then e_vcn fl = ic_vcn (sc_ctx child) ∧ e_vcn <$> er ++ [fr] = sc_right_vcn child :: tail (e_vcn <$> drop P es ++ [fin])
      else e_vcn <$> (es !! P) = Some (e_vcn fl) ∧ fr = fin).
Proof.
  intros c first child Hf Hap Hblk Hblk2 Hk Hc Een Enr Ev Er Erp Eri EP Hfirst Hfit Hbelow Hvcns.
  assert (P ≤ first)%nat as HPf by (unfold first; destruct (sc_promote_inserted s); lia). pose proof Hc as [Cr Cp Ci Ce].
  destruct (block_is_entries _ _ _ _ _ _ Hblk) as [Hwf Hlen]. pose proof (wf_fin _ _ _ Hwf) as Hfin. pose proof (proj1 Hfin) as Hok.
  destruct (block_is_at _ _ _ _ _ _ Hblk) as (h & gap & r & Hg & Hh & Hat). destruct Hblk2 as (_ & h2 & gap2 & r2 & Hg2 & Hh2 & Hat2).
  set (base := (index_at v + 16 + g)%nat) in *.
  assert (∀ i, (i ≤ length es)%nat → rd (ic_entries c) i = Ret (base + length (concat (take i es)))%nat) as Hrd.
  { intros i Hi. unfold rd. rewrite Een, offsets_take by done. done. }
  destruct (promote_step f v g flags es fin c s P vcn t errors m) as (vcn1 & Hpromote & Hvcn1); [done..|]. fold base first in Hpromote.
  (* the right half *)
  destruct (copy_right_block f v rv s h gap (concat (take first es)) (concat (drop first es)) fin r flags h2 gap2 (concat ([] ++ [fin0]) ++ r2) t errors m)
    as (f1 & E1 & Hf1 & Ho1 & Hat1); [done|done|done|done|done|done|done|done|by apply (head_length _ _ _ _ Hh)|by apply (head_flags _ _ _ _ Hh)|done|by rewrite Hg2; eauto| |].
  { pose proof (proj1 Hat2) as L2. rewrite !length_app, (head_length _ _ _ _ Hh2) in L2. rewrite !length_app. rewrite concat_app, length_app in Hfit. cbn [concat] in Hfit.
    rewrite app_nil_r in Hfit. lia. }
  rewrite Hg in E1. fold base in E1.
  (* the left half *)
  destruct (truncate_left_block f1 v g flags es fin h gap r P c t errors m) as (f2 & h' & r' & E2 & Hf2 & Ho2 & Hat3 & Hh'); try done; [|lia|].
  { eapply at_block_only; [|exact Ho1|done]. done. }
  fold base in E2. assert (at_block f2 rv _) as Hat4 by (eapply (at_block_only f1 f2 rv v); [|done|exact Hat1]; intros i Hi1 Hi2; by apply (Hap i)).
  (* the children *)
  assert (concat (drop first es) ++ fin = concat (drop first es ++ [fin])) as ER by (rewrite concat_app; cbn [concat]; by rewrite app_nil_r).
  rewrite ER, Hg2 in Hat4. set (rr := drop _ (_ ++ r2)) in Hat4. set (hr := right_head _ _ _) in Hat4.
  assert (0 ≤ flags < 256) as Hflags.
  { rewrite <- (head_flags _ _ _ _ Hh). apply get8_range, Hh. }
  assert (head_ok hr g' (Z.of_nat (16 + g' + length (concat (drop first es ++ [fin])))) flags) as Hhr by (eapply right_head_ok; [done|lia|done]).
  assert (entries_wf flags (drop first es) fin) as Hwfr by (apply (entries_wf_part _ es); [done|intros Q; apply list.Forall_drop]).
  assert (is_node fin = has flags INDEX_NODE) as Hnf by (pose proof (wf_nodes _ _ _ Hwf) as H; rewrite list.Forall_app, list.Forall_singleton in H; apply H).
  pose proof (fix_vcns_block f2 v rv s below vcn1 h' gap (concat (take P es)) fin r' hr gap2 (drop first es) fin rr flags t errors m) as Hfix.
  pose proof (bumped_wf flags (sc_right_vcn child) (drop first es) fin) as Hbump. cbv zeta in Hfix. fold child in Hfix.
  assert (has flags INDEX_NODE = true → is_vcn (sc_right_vcn child)) as Hrv by (intros En; destruct (Hbelow En) as (j & _ & _ & _ & H); done).
  set (er := if sc_promote_inserted s then (bumped flags (sc_right_vcn child) (drop first es) fin).1 else drop first es).
  set (fr := if sc_promote_inserted s then (bumped flags (sc_right_vcn child) (drop first es) fin).2 else fin).
  assert ((if sc_promote_inserted s then bumped flags (sc_right_vcn child) (drop first es) fin else (drop first es, fin)) = (er, fr)) as Epair.
  { unfold er, fr. destruct (sc_promote_inserted s); [by destruct (bumped _ _ _ _)|done]. }
  rewrite Epair in Hfix. set (lv := if sc_promote_inserted s then ic_vcn (sc_ctx child) else vcn1) in Hfix.
  destruct Hfix as (f3 & vcn3 & E3 & Hf3 & Hc3 & Hat5 & Hat6); try done.
  { by apply (head_length _ _ _ _ Hh'). }
  { by apply (head_flags _ _ _ _ Hh'). }
  { by apply (head_length _ _ _ _ Hhr). }
  { intros En. destruct (Hbelow En) as (j & Ej & Hr & _ & Hrv'). eauto. }
  rewrite Hg, Hg2 in E3. fold base in E3. set (fl := if has flags INDEX_NODE then set_vcn fin lv else fin) in *.
  destruct (choose_half_block s v rv g g' es fin k P f3 t errors m _ Hat6) as (s1 & E4 & Es1); try done.
  { exists hr, gap2. by eauto. }
  assert (entries_wf flags er fr ∧ length fr = length fin ∧ e_info <$> er = e_info <$> drop first es ∧
    length (concat (er ++ [fr])) = length (concat (drop first es ++ [fin])) ∧ (has flags INDEX_NODE = true → sc_promote_inserted s = true →
      e_vcn <$> er ++ [fr] = sc_right_vcn child :: tail (e_vcn <$> drop first es ++ [fin]))) as (Wr & Lr & Ir & Cr' & Vr).
  { unfold er, fr. destruct (sc_promote_inserted s); [|done]. destruct (bumped _ _ _ _) as [er' fr']. destruct (Hbump Hwfr Hrv) as (? & ? & ? & ? & ?). split_and!; auto. }
  assert (has flags INDEX_NODE = true → is_vcn lv) as Hlv.
  { intros En. unfold lv. destruct (sc_promote_inserted s) eqn:Ein; [by destruct (Hbelow En) as (j & _ & _ & H & _)|].
    specialize (Hvcn1 En eq_refl). specialize (Hvcns En). rewrite <- list_lookup_fmap in Hvcn1. rewrite Forall_lookup in Hvcns. by eapply Hvcns. }
  assert (fin_wf fl ∧ length fl = length fin ∧ is_node fl = is_node fin ∧ (has flags INDEX_NODE = true → e_vcn fl = lv)) as (Wl & Ll & Nl & Vl).
  { unfold fl. destruct (has flags INDEX_NODE); [|done]. destruct (set_vcn_fin fin lv Hfin Hnf (Hlv eq_refl)) as (? & ? & ? & ?). by rewrite Hnf. }
  exists f3, vcn3, fl, er, fr. split.
  { unfold split_node. rewrite io_world, (node_buf_page _ _ _ _ _ _ Cr Cp). fold c. rewrite EP, Nat2Z.id.
    erewrite lift_bind by (apply Hrd; lia). rewrite EP in Hpromote. erewrite io_step by exact Hpromote. cbv beta iota.
    unfold nr_entries. rewrite Een, length_offsets, length_app. cbn [length]. replace (Z.to_nat _) with (length es) by lia. rewrite <- Een.
    erewrite lift_bind by (apply Hrd; lia). rewrite (take_ge es (length es)) by lia.
    destruct (block_entry_at _ _ _ _ _ _ (length es) fin Hblk) as (pp & q & Hpage & Hp); [by rewrite list_lookup_middle|].
    rewrite take_ge in Hp by lia. fold base in Hp. pose proof (entry_header _ Hok).
    erewrite lift_bind by (rewrite Hpage, <- Hp; apply le16_part; in_entry). fold (e_flags fin). fold (is_end fin). rewrite (proj1 (proj2 Hfin)). cbn [negb].
    replace (base + length (concat es))%nat with (base + length (concat (take first es)) + length (concat (drop first es)))%nat at 1
      by (rewrite <- (take_drop first es) at 3; rewrite concat_app, length_app; lia).
    erewrite io_step by exact E1. erewrite io_step by exact E2. rewrite Hg2. erewrite io_step by exact E3. cbv beta iota.
    erewrite io_step by exact E4. unfold mret, io_ret. by rewrite Es1. }
  split; [done|]. split.
  { eapply changes_trans; [|exact Hc3]. eapply changes_trans; [apply (only_changes _ _ rv); [exact Ho1|right; left]|apply (only_changes _ _ v); [done|left]]. }
  split; [|split].
  - split; [apply (entries_wf_fin _ _ fin); [apply (entries_wf_part _ es); [done|intros Q; apply list.Forall_take]|done|done]|].
    exists h', gap, r'. split; [done|]. rewrite !concat_app in *. cbn [concat] in *. rewrite !app_nil_r in *. rewrite length_app, Ll, <- length_app.
    split; [done|]. by rewrite <- (assoc_L (++)).
  - split; [done|]. exists hr, gap2, rr. split; [done|]. by rewrite Cr'.
  - split_and!; try done.
    + unfold er. by intros ->.
    + intros En. rewrite (Vl En). specialize (Vr En). unfold lv, fr, first in *. destruct (sc_promote_inserted s); auto.
Qed.
End block.
