(* ===== verification/IndexRoot.v ===== *)
(** * The index root in its mft record

    The insertion of an entry into the index root ([ntfs_index_root_make_space] and the steps that
    follow it in [ntfs_index_entry_add_or_node_split]) as an operation on the attribute records of
    the mft record and on the entries of the node. *)

From Stdlib Require Import Sorted.
From S2P Require Import Prelude Bytes Unistr Collate PageCache Mst MftRecord AttrFind IndexNode IndexLookup IndexTree IndexModify IndexUpdate IndexEntry IndexSplit IndexBlock.

Ltac root_len := rewrite ?length_splice by root_len; rewrite ?le_bytes_length;
  unfold m_bytes_in_use, m_bytes_allocated, m_attrs_offset, a_type, a_length, a_value_length, a_value_offset, a_name_offset, a_name_length in *; in_entry.

(** ** The record *)

(** The parts of the mft record: its header, the attribute records before the index root, the
    header of the index root up to the index header, the index header, the bytes before the entries,
    the attribute records behind it, the end marker and the free space. *)
Record root_parts := mk_root {
  rt_head : list Z;
  rt_before : list (list Z);
  rt_attr : list Z;
  rt_index : list Z;
  rt_gap : list Z;
  rt_after : list (list Z);
  rt_end : list Z;
  rt_spare : list Z
}.
Definition rt_mft (x : root_parts) (B : list Z) : mft :=
  mk_mft (rt_head x) (rt_before x ++ (rt_attr x ++ rt_index x ++ rt_gap x ++ B) :: rt_after x) (rt_end x) (rt_spare x).
Definition rt_ofs (x : root_parts) : nat := (length (rt_head x) + length (concat (rt_before x)))%nat.
Definition rt_root (x : root_parts) : nat := (rt_ofs x + length (rt_attr x))%nat.

(** The record with [size] more bytes in the index root, or less if [size] is negative, and the free
    space [spare]. *)
Definition rt_resize (x : root_parts) (size len : Z) (spare : list Z) : root_parts :=
  mk_root (splice (rt_head x) m_bytes_in_use (le_bytes 4 (get32 (rt_head x) m_bytes_in_use + size))) (rt_before x)
    (splice (splice (rt_attr x) a_length (le_bytes 4 (get32 (rt_attr x) a_length + size))) a_value_length
      (le_bytes 4 (get32 (rt_attr x) a_value_length + size)))
    (splice (splice (rt_index x) ih_index_length (le_bytes 4 (len + size))) ih_allocated_size (le_bytes 4 (len + size)))
    (rt_gap x) (rt_after x) (rt_end x) spare.
Abbreviation rt_grow x size len := (rt_resize x size len (drop (Z.to_nat size) (rt_spare x))).

Section root.
Context {env : IndexEnv} (ni : index_inode).
Abbreviation root_searchable := (searchable (vol_upcase ni) AT_INDEX_ROOT (some_name (idx_name ni)) None).
Abbreviation root_order := (target_order (vol_case_sensitive ni) (vol_upcase ni) false AT_INDEX_ROOT (some_name (idx_name ni)) None).

Record root_head (h : list Z) (g : nat) (len flags : Z) : Prop := {
  rhead_bytes : bytes h;
  rhead_length : length h = 16%nat;
  rhead_offset : get32 h ih_entries_offset = Z.of_nat (16 + g);
  rhead_index_length : get32 h ih_index_length = len;
  rhead_flags : get8 h ih_flags = flags
}.

(** The index root has the entries [es] and the end entry [fin]. *)
Record root_is (x : root_parts) (flags : Z) (es : list (list Z)) (fin : list Z) : Prop := {
  root_entries : entries_wf ni flags es fin;
  root_mft : mft_ok (rt_mft x (concat (es ++ [fin])));
  root_search : Forall root_searchable (m_attrs (rt_mft x (concat (es ++ [fin]))));
  root_found : list_search root_order (m_attrs (rt_mft x (concat (es ++ [fin])))) = (0, length (rt_before x));
  root_value : Z.of_nat (length (rt_attr x)) = get16 (rt_attr x) a_value_offset + 16 ∧ 24 ≤ get16 (rt_attr x) a_value_offset;
  root_name : 24 ≤ get16 (rt_attr x) a_name_offset ∧ name_ok (rt_attr x);
  root_value_length : get32 (rt_attr x) a_value_length = Z.of_nat (32 + length (rt_gap x) + length (concat (es ++ [fin])));
  root_index_head : root_head (rt_index x) (length (rt_gap x)) (Z.of_nat (16 + length (rt_gap x) + length (concat (es ++ [fin])))) flags
}.

Definition rt_bytes (x : root_parts) (es : list (list Z)) (fin : list Z) : list Z := mft_bytes (rt_mft x (concat (es ++ [fin]))).

Lemma rt_mft_bytes x B :
  mft_bytes (rt_mft x B) = (rt_head x ++ concat (rt_before x) ++ rt_attr x) ++ (rt_index x ++ rt_gap x ++ B) ++ concat (rt_after x) ++ rt_end x ++ rt_spare x.
Proof. unfold mft_bytes, rt_mft. cbn [m_head m_attrs m_fin m_spare]. rewrite concat_app. cbn [concat]. by rewrite <- !(assoc_L (++)). Qed.
Lemma rt_root_length x : rt_root x = length (rt_head x ++ concat (rt_before x) ++ rt_attr x).
Proof. unfold rt_root, rt_ofs. rewrite !length_app. lia. Qed.

(** The fields of the attribute record are those of its header. *)
Lemma root_attr_size x flags es fin : root_is x flags es fin → (40 ≤ length (rt_attr x))%nat.
Proof. intros H. destruct (root_value _ _ _ _ H). lia. Qed.

Lemma rt_field16 x B q k : (k + 2 ≤ length (rt_attr x))%nat →
  le16_at (mft_bytes (rt_mft x B) ++ q) (rt_ofs x + k) = Ret (get16 (rt_attr x) k).
Proof.
  intros H. rewrite rt_mft_bytes, <- !(assoc_L (++)). rewrite (assoc_L (++) (rt_head x)). unfold rt_ofs. rewrite <- length_app. by apply le16_part.
Qed.

(** ** The stored node *)

Lemma root_found_at x flags es fin : root_is x flags es fin →
  find_index_root ni (rt_bytes x es fin) = Ret (0, rt_ofs x, false) ∧ root_index (rt_bytes x es fin) (rt_ofs x) = Ret (rt_root x).
Proof.
  intros H. pose proof (root_attr_size _ _ _ _ H). split.
  - unfold find_index_root, rt_bytes. pose proof (find_first_spec (vol_case_sensitive ni) (vol_upcase ni) AT_INDEX_ROOT (some_name (idx_name ni)) None _
      (root_mft _ _ _ _ H) (root_search _ _ _ _ H)) as Hf. rewrite (root_found _ _ _ _ H) in Hf. rewrite Hf. cbn [mbind outcome_bind ctx_a].
    unfold rt_mft, attr_ofs, rt_ofs. cbn [m_head m_attrs]. by rewrite take_app_length.
  - unfold root_index, rt_bytes. rewrite <- (app_nil_r (mft_bytes _)). rewrite rt_field16 by (unfold a_value_offset; lia). cbn [mbind outcome_bind]. f_equal.
    destruct (root_value _ _ _ _ H). unfold rt_root, ir_index. lia.
Qed.

Lemma root_free x flags es fin : root_is x flags es fin → mft_bytes_free (rt_bytes x es fin) = Ret (Z.of_nat (length (rt_spare x))).
Proof.
  intros H. pose proof (root_mft _ _ _ _ H) as Hr. unfold mft_bytes_free, rt_bytes. rewrite (bytes_allocated _ Hr). cbn [mbind outcome_bind]. rewrite (bytes_in_use _ Hr).
  cbn [mbind outcome_bind]. f_equal. pose proof (mft_size _ Hr). pose proof (ok_fin_size _ Hr) as Hf. unfold mft_bytes in *. rewrite !length_app in *. rewrite uwrap_id by lia. cbn [m_spare rt_mft m_fin] in *. lia.
Qed.

Lemma rt_bytes_range x flags es fin : root_is x flags es fin → bytes (rt_bytes x es fin).
Proof.
  intros H. destruct (root_mft _ _ _ _ H) as [? ? ? Ha ? ? ? ? ? ?]. unfold rt_bytes, mft_bytes. rewrite !bytes_app. split_and!; try done. by apply bytes_concat.
Qed.

Lemma root_stored max_entries x flags es fin kids :
  root_is x flags es fin → has flags INDEX_NODE = bool_decide (kids ≠ []) → (kids = [] ∨ length kids = S (length es)) →
  Z.of_nat (length es + 1) ≤ max_entries → ∃ n, stored_node ni max_entries (rt_bytes x es fin) (rt_root x) n (Node es fin kids).
Proof.
  intros H Hfl Hk Hcount. destruct (root_entries _ _ _ _ H) as [We Wf Wn]. destruct (root_index_head _ _ _ _ H) as [B L H1 H2 H3].
  exists (mk_node (rt_head x ++ concat (rt_before x) ++ rt_attr x) (rt_index x) (rt_gap x) es fin (concat (rt_after x) ++ rt_end x ++ rt_spare x)).
  assert (node_bytes (mk_node (rt_head x ++ concat (rt_before x) ++ rt_attr x) (rt_index x) (rt_gap x) es fin (concat (rt_after x) ++ rt_end x ++ rt_spare x)) = rt_bytes x es fin) as E.
  { unfold rt_bytes, node_bytes, node_all. rewrite rt_mft_bytes. cbn [n_pre n_head n_gap n_entries n_end n_rest]. by rewrite <- !(assoc_L (++)). }
  split; try done.
  - cbn [n_pre]. symmetry. apply rt_root_length.
  - split; cbn [n_head n_gap n_entries n_end]; try done.
    + rewrite E. by eapply rt_bytes_range.
    + eapply list.Forall_impl; [exact We|]. intros e He. pose proof He as [? ? _ _]. split_and!; try done. by apply entry_wf_data.
    + destruct Wf as (? & ? & _). done.
  - unfold node_all. cbn [n_entries n_end]. rewrite length_app. cbn [length]. lia.
  - cbn [n_entries n_end n_head]. split_and!; try done; [by rewrite H3|]. eapply list.Forall_impl; [exact Wn|]. intros e He. cbn in He. by rewrite He.
Qed.

(** ** Space for an entry *)

Lemma list_search_ext (o : list Z → Z) l1 a a' l2 : o a' = o a → list_search o (l1 ++ a' :: l2) = list_search o (l1 ++ a :: l2).
Proof. intros H. induction l1 as [|b l1 IH]; cbn; [by rewrite H|by rewrite IH]. Qed.

(** The type and the name of the attribute record. *)
Lemma attr_name_ext (a a' : list Z) n :
  24 ≤ get16 (take n a) a_name_offset → name_ok (take n a) → (24 ≤ n)%nat → (n ≤ length a)%nat → bytes a → (∀ j, (j < n)%nat → (j < 4 ∨ 8 ≤ j < 16 ∨ 20 ≤ j)%nat → get8 a' j = get8 a j) →
  get32 a' a_type = get32 a a_type ∧ attr_name a' = attr_name a ∧ (n ≤ length a' → name_ok a')%nat.
Proof.
  intros Ho Hn H24 Hle Ha Hj. unfold a_type. assert (get16 a' a_name_offset = get16 a a_name_offset) as E1 by (unfold get16, a_name_offset; by rewrite !Hj by lia).
  assert (get8 a' a_name_length = get8 a a_name_length) as E2 by (apply Hj; unfold a_name_length; lia).
  assert (get16 (take n a) a_name_offset = get16 a a_name_offset) as E3 by (unfold get16, a_name_offset; by rewrite !get8_take by lia).
  assert (get8 (take n a) a_name_length = get8 a a_name_length) as E4 by (apply get8_take; unfold a_name_length; lia).
  unfold name_ok in *. rewrite E1, E2, E3, E4 in *. rewrite length_take, Nat.min_l in Hn by lia.
  pose proof (get16_range a a_name_offset Ha). pose proof (get8_range a a_name_length Ha). split_and!; [|unfold attr_name; rewrite E1, E2|lia].
  - unfold get32, get16. by rewrite !Hj by lia.
  - apply list_fmap_ext. intros i k Hk. apply lookup_seq in Hk as [-> Hk]. unfold get16 at 1 3. by rewrite !Hj by lia.
Qed.

Lemma rt_resize_attr x flags es fin size len spare B :
  root_is x flags es fin →
  let a := rt_attr x ++ rt_index x ++ rt_gap x ++ concat (es ++ [fin]) in let x' := rt_resize x size len spare in
  let a' := rt_attr x' ++ rt_index x' ++ rt_gap x' ++ B in
  (root_searchable a → root_searchable a') ∧ root_order a' = root_order a ∧ get32 a' a_type = get32 a a_type.
Proof.
  intros H a x' a'. pose proof (root_attr_size _ _ _ _ H) as H40. destruct (root_name _ _ _ _ H) as [Ho Hn].
  assert (length (rt_attr x') = length (rt_attr x)) as L by (unfold x', rt_resize; cbn [rt_attr]; by rewrite !length_splice by root_len).
  destruct (attr_name_ext a a' (length (rt_attr x))) as (E1 & E2 & E3); try (unfold a; by rewrite take_app_length); try lia.
  - unfold a. rewrite length_app. lia.
  - pose proof (rt_bytes_range _ _ _ _ H) as B'. unfold rt_bytes in B'. rewrite rt_mft_bytes, <- !(assoc_L (++)), !bytes_app in B'. unfold a. rewrite !bytes_app. tauto.
  - intros j Hj Hj'. unfold a, a'. rewrite !get8_app_l by lia. unfold x', rt_resize. cbn [rt_attr]. rewrite !get8_splice_other by root_len. done.
  - split_and!; [|unfold target_order, key_order, name_arg_order; by rewrite E1, E2|done]. unfold searchable. rewrite E1. intros Hx Ht. destruct (Hx Ht) as [[_ ?] ?].
    split; [|done]. split; [|done]. apply E3. unfold a'. rewrite length_app. lia.
Qed.

Lemma rt_resize_mft x flags es fin size len spare B :
  root_is x flags es fin → Z.of_nat (length spare) + size = Z.of_nat (length (rt_spare x)) → bytes spare → size mod 8 = 0 → bytes B →
  Z.of_nat (length B) = Z.of_nat (length (concat (es ++ [fin]))) + size → mft_ok (rt_mft (rt_resize x size len spare) B).
Proof.
  intros H Hs Hsp H8 HB HL. pose proof (root_attr_size _ _ _ _ H) as H40. pose proof (root_mft _ _ _ _ H) as Hr. pose proof (mft_size _ Hr) as Hm.
  pose proof (rt_resize_attr _ _ _ _ size len spare B H) as (_ & _ & Ety). cbv zeta in Ety.
  set (C := concat (es ++ [fin])) in *. destruct (root_index_head _ _ _ _ H) as [Bh Lh _ _ _]. pose proof (length_mft_bytes (rt_mft x C) Hr) as LM.
  destruct Hr as [R1 R2 R3 R4 R5 R6 R7 R8 R9 R10]. cbn [m_head m_attrs m_fin m_spare rt_mft] in *.
  apply list.Forall_app in R4 as [R4 R4']. apply list.Forall_cons in R4' as [[A1 A2 A3 A4 A5] R4'].
  rewrite !bytes_app in A1. destruct A1 as (Ba & _ & Bg & _). rewrite !length_app in *. rewrite get32_app_l in A3 by root_len.
  rewrite concat_app in *. cbn [concat] in *. rewrite !length_app in *. set (x' := rt_resize x size len spare) in *.
  assert (length (rt_attr x') = length (rt_attr x)) as L1 by (unfold x', rt_resize; cbn [rt_attr]; by rewrite !length_splice by root_len).
  assert (length (rt_index x') = length (rt_index x)) as L2 by (unfold x', rt_resize; cbn [rt_index]; by rewrite !length_splice by root_len).
  assert (length (rt_head x') = length (rt_head x)) as L3 by (unfold x', rt_resize; cbn [rt_head]; by rewrite !length_splice by root_len).
  assert (bytes (rt_attr x') ∧ bytes (rt_index x') ∧ bytes (rt_head x')) as (B1 & B2 & B3).
  { unfold x', rt_resize. cbn [rt_attr rt_index rt_head]. split_and!; repeat apply bytes_splice; try apply bytes_le_bytes; done. }
  split; cbn [m_head m_attrs m_fin m_spare rt_mft]; try done.
  - lia.
  - rewrite L3, <- R3. unfold x', rt_resize. cbn [rt_head]. by rewrite get16_splice_other by root_len.
  - apply list.Forall_app. split; [done|]. constructor; [|done]. split.
    + rewrite !bytes_app. split_and!; try done.
    + rewrite !length_app. lia.
    + rewrite get32_app_l by root_len. rewrite !length_app. unfold x', rt_resize. cbn [rt_attr rt_index rt_gap]. rewrite get32_splice_other by root_len.
      rewrite !length_splice by root_len. rewrite get32_splice; [lia|root_len|lia].
    + rewrite !length_app, L1, L2. change (rt_gap x') with (rt_gap x). rewrite !Nat2Z.inj_add in *. rewrite HL.
      replace (Z.of_nat (length (rt_attr x)) + _) with (Z.of_nat (length (rt_attr x)) + (Z.of_nat (length (rt_index x)) + (Z.of_nat (length (rt_gap x)) + Z.of_nat (length C))) + size) by lia.
      rewrite Z.add_mod, A4, H8 by lia. done.
    + rewrite Ety. done.
  - rewrite concat_app. cbn [concat]. rewrite !length_app, L1, L2, L3. unfold x', rt_resize. cbn [rt_head rt_before rt_gap rt_after].
    rewrite get32_splice; [lia|root_len|]. lia.
  - unfold mft_bytes. cbn [m_head m_attrs m_fin m_spare rt_mft]. rewrite concat_app. cbn [concat]. rewrite !length_app, L1, L2, L3.
    unfold x', rt_resize. cbn [rt_head rt_before rt_gap rt_after rt_end rt_spare]. rewrite get32_splice_other by root_len. lia.
Qed.

Abbreviation used x es fin := (Z.of_nat (16 + length (rt_gap x) + length (concat (es ++ [fin])))).

Lemma rt_resize_is x flags es fin size spare es' fin' :
  root_is x flags es fin → Z.of_nat (length spare) + size = Z.of_nat (length (rt_spare x)) → bytes spare → size mod 8 = 0 → entries_wf ni flags es' fin' →
  Z.of_nat (length (concat (es' ++ [fin']))) = Z.of_nat (length (concat (es ++ [fin]))) + size →
  root_is (rt_resize x size (used x es fin) spare) flags es' fin'.
Proof.
  intros H Hs Hsp H8 Hwf HL. pose proof (root_attr_size _ _ _ _ H) as H40. pose proof (rt_resize_attr _ _ _ _ size (used x es fin) spare (concat (es' ++ [fin'])) H) as (Hse & Hor & _).
  pose proof (rt_resize_mft x flags es fin size (used x es fin) spare _ H Hs Hsp H8 (concat_bytes ni flags es' fin' Hwf) HL) as Hok.
  cbv zeta in Hse, Hor. pose proof (mft_size _ (root_mft _ _ _ _ H)) as Hm. rewrite rt_mft_bytes, !length_app in Hm.
  destruct (root_value _ _ _ _ H) as [V1 V2]. destruct (root_name _ _ _ _ H) as [N1 N2]. pose proof (root_value_length _ _ _ _ H) as V3.
  destruct (root_index_head _ _ _ _ H) as [Bh Lh H1 H2 H3].
  split; try done.
  - pose proof (root_search _ _ _ _ H) as S. cbn [m_attrs rt_mft] in *. apply list.Forall_app in S as [S1 S2]. apply list.Forall_cons in S2 as [S2 S3].
    apply list.Forall_app. split; [done|]. constructor; [by apply Hse|done].
  - pose proof (root_found _ _ _ _ H) as S. cbn [m_attrs rt_mft] in *. rewrite (list_search_ext _ _ _ _ _ Hor). exact S.
  - unfold rt_resize. cbn [rt_attr]. rewrite !length_splice, !get16_splice_other by root_len. done.
  - unfold name_ok, rt_resize in *. cbn [rt_attr]. rewrite !length_splice, !get16_splice_other, !get8_splice_other by root_len. done.
  - unfold rt_resize. cbn [rt_attr rt_gap]. rewrite get32_splice; [lia|root_len|]. lia.
  - unfold rt_resize. cbn [rt_index rt_gap]. split.
    + repeat apply bytes_splice; try apply bytes_le_bytes; done.
    + by rewrite !length_splice by root_len.
    + by rewrite !get32_splice_other by root_len.
    + rewrite get32_splice_other by root_len. rewrite get32_splice; [lia|root_len|lia].
    + by rewrite !get8_splice_other by root_len.
Qed.

Lemma root_resized_bytes hd bf ah h rest use size :
  (48 ≤ length hd)%nat → (40 ≤ length ah)%nat → length h = 16%nat →
  root_resized (hd ++ bf ++ ah ++ h ++ rest) (length hd + length bf) (length hd + length bf + length ah) use size =
    Ret (splice hd m_bytes_in_use (le_bytes 4 (u32 (use + size))) ++ bf ++
      splice (splice ah a_length (le_bytes 4 (u32 (get32 ah a_length + size)))) a_value_length (le_bytes 4 (u32 (get32 ah a_value_length + size))) ++
      splice (splice h ih_index_length (le_bytes 4 (u32 (get32 h ih_index_length + size)))) ih_allocated_size (le_bytes 4 (u32 (get32 h ih_index_length + size))) ++ rest).
Proof.
  intros H1 H2 H3. unfold root_resized, put32. rewrite put_head by root_len. cbn [mbind outcome_bind]. set (hd' := splice hd _ _).
  assert (length hd' = length hd) as L by (unfold hd'; apply length_splice; root_len). rewrite <- L, <- length_app. rewrite (assoc_L (++) hd').
  set (p := hd' ++ bf). rewrite le32_part by root_len. cbn [mbind outcome_bind]. rewrite put_part by root_len. cbn [mbind outcome_bind]. set (ah1 := splice ah a_length _).
  assert (length ah1 = length ah) as La by (unfold ah1; apply length_splice; root_len).
  rewrite le32_part by root_len. cbn [mbind outcome_bind]. rewrite put_part by root_len. cbn [mbind outcome_bind].
  replace (get32 ah1 a_value_length) with (get32 ah a_value_length) by (unfold ah1; symmetry; apply get32_splice_other; root_len). set (ah2 := splice ah1 a_value_length _).
  assert (length ah2 = length ah) as La2 by (unfold ah2; rewrite length_splice by root_len; done). rewrite <- La2, <- length_app, (assoc_L (++) p).
  rewrite le32_part by root_len. cbn [mbind outcome_bind]. rewrite put_part by root_len. cbn [mbind outcome_bind]. rewrite put_part by root_len.
  unfold p. by rewrite <- !(assoc_L (++)).
Qed.

Lemma root_space_bytes x flags es1 es2 fin size : let A := concat es1 in let Y := concat (es2 ++ [fin]) in
  root_is x flags (es1 ++ es2) fin → 0 ≤ size ≤ Z.of_nat (length (rt_spare x)) →
  ∃ y, length y = Z.to_nat size ∧ bytes y ∧
    ntfs_index_root_make_space (rt_bytes x (es1 ++ es2) fin) (rt_ofs x) (rt_root x) (rt_root x + 16 + length (rt_gap x) + length A) size =
      Ret (0, mft_bytes (rt_mft (rt_grow x size (used x (es1 ++ es2) fin)) (A ++ y ++ Y))).
Proof.
  intros A Y H Hs. pose proof (root_attr_size _ _ _ _ H) as H40. pose proof (root_mft _ _ _ _ H) as Hr. pose proof (mft_size _ Hr) as Hm.
  pose proof (rt_bytes_range _ _ _ _ H) as HB. destruct (root_index_head _ _ _ _ H) as [_ Lh _ Hil _]. pose proof (root_value_length _ _ _ _ H) as Hvl.
  unfold rt_bytes in *. pose proof (bytes_in_use _ Hr) as Huse. pose proof (bytes_allocated _ Hr) as Hal. pose proof (ok_fin_size _ Hr) as Lf. pose proof (ok_head_size _ Hr) as Lhd.
  pose proof (ok_in_use _ Hr) as Hu. cbn [m_head m_attrs m_fin rt_mft] in *.
  assert (concat ((es1 ++ es2) ++ [fin]) = A ++ Y) as EC by (unfold A, Y; by rewrite <- (assoc_L (++)), concat_app). rewrite EC in *.
  assert (get32 (rt_attr x) a_length = Z.of_nat (length (rt_attr x ++ rt_index x ++ rt_gap x ++ A ++ Y))) as Hal'.
  { pose proof (attr_ok_in _ _ _ _ Hr eq_refl) as Ha. pose proof (attr_length _ Ha) as E. by rewrite get32_app_l in E by root_len. }
  rewrite concat_app in Huse, Hu. cbn [concat] in Huse, Hu. rewrite !length_app in *.
  rewrite rt_mft_bytes in *. set (pre := rt_head x ++ concat (rt_before x) ++ rt_attr x) in *. set (T := concat (rt_after x) ++ rt_end x).
  assert (rt_root x = length pre) as Eroot by apply rt_root_length.
  set (P := pre ++ rt_index x ++ rt_gap x ++ A). set (X := Y ++ T ++ rt_spare x).
  assert (pre ++ (rt_index x ++ rt_gap x ++ A ++ Y) ++ concat (rt_after x) ++ rt_end x ++ rt_spare x = P ++ X) as EM by (unfold P, X, T; by rewrite <- !(assoc_L (++))).
  assert (length P = rt_root x + 16 + length (rt_gap x) + length A)%nat as LP by (unfold P; rewrite Eroot, !length_app; lia).
  assert (length pre = length (rt_head x) + length (concat (rt_before x)) + length (rt_attr x))%nat as Lpre by (unfold pre; rewrite !length_app; lia).
  rewrite EM in *. rewrite bytes_app in HB. destruct HB as [_ HX]. rewrite length_app in Hm, Hal.
  assert (length X = length Y + length (concat (rt_after x)) + 8 + length (rt_spare x))%nat as LX by (unfold X, T; rewrite !length_app; lia).
  set (sz := Z.to_nat size) in *. exists (take sz X). split; [rewrite length_take; lia|]. split; [by apply list.Forall_take|].
  unfold ntfs_index_root_make_space. rewrite Huse, Hal. cbn [mbind outcome_bind]. set (U := Z.of_nat _) in Hu |- *.
  rewrite uwrap_id, (proj2 (Z.leb_le _ _)) by lia. unfold byte_count. rewrite (proj2 (Z.ltb_ge _ _)) by lia. cbn [mbind outcome_bind].
  rewrite <- LP. rewrite <- (Nat.add_0_r (length P)) at 2. replace (Z.to_nat (U - _)) with (length (Y ++ T)) by (unfold T; rewrite !length_app; lia).
  assert (length (Y ++ T) = length Y + length (concat (rt_after x)) + 8)%nat as LT by (unfold T; rewrite !length_app; lia).
  rewrite memmove_part by lia. cbn [mbind outcome_bind]. rewrite drop_0. unfold X at 2. rewrite (assoc_L (++) Y T), take_app_length.
  replace (drop (Z.to_nat size + length (Y ++ T)) X) with (drop sz (rt_spare x)) by (unfold X; rewrite (assoc_L (++) Y T), drop_app_ge by lia; f_equal; lia). fold sz.
  assert (P ++ take sz X ++ (Y ++ T) ++ drop sz (rt_spare x) = rt_head x ++ concat (rt_before x) ++ rt_attr x ++ rt_index x ++ rt_gap x ++ A ++ take sz X ++ (Y ++ T) ++ drop sz (rt_spare x)) as ->
    by (unfold P, pre; by rewrite <- !(assoc_L (++))).
  unfold rt_root, rt_ofs. rewrite root_resized_bytes by lia. cbn [mbind outcome_bind]. f_equal. f_equal. rewrite rt_mft_bytes. unfold rt_resize. cbn [rt_head rt_before rt_attr rt_index rt_gap rt_after rt_end rt_spare].
  rewrite Hu, Hal', Hvl, Hil. rewrite !uwrap_id by lia. unfold T. by rewrite <- !(assoc_L (++)).
Qed.

(** ** The insertion *)

Record root_context (c : ntfs_index_context) (x : root_parts) (es : list (list Z)) (k : nat) : Prop := {
  rcontext_root : ic_is_root c = true;
  rcontext_attr : ic_actx c = rt_ofs x;
  rcontext_index : ic_index c = rt_root x;
  rcontext_entry : ic_entry c = (rt_root x + 16 + length (rt_gap x) + length (concat (take k es)))%nat
}.

Lemma on_node_root {A} c (g : list Z → outcome (A * list Z)) a m m' t errors f :
  ic_is_root c = true → g m = Ret (a, m') → on_node c g (mk_world t errors m f) = Ret (a, mk_world t errors m' f).
Proof. intros Hr Hg. unfold on_node, node_buf, store_buf. rewrite Hr. cbn [w_mft]. by rewrite Hg. Qed.

Lemma rt_resize_place x flags es fin size len spare : root_is x flags es fin → let x' := rt_resize x size len spare in
  rt_ofs x' = rt_ofs x ∧ rt_root x' = rt_root x ∧ length (rt_index x') = 16%nat ∧ get8 (rt_index x') ih_flags = flags.
Proof.
  intros H x'. pose proof (root_attr_size _ _ _ _ H). pose proof (ok_head_size _ (root_mft _ _ _ _ H)) as Hh. cbn [m_head rt_mft] in Hh. destruct (root_index_head _ _ _ _ H) as [_ Lh _ _ Hf].
  unfold rt_root, rt_ofs, x', rt_resize. cbn [rt_head rt_before rt_attr rt_index]. rewrite !length_splice, !get8_splice_other by root_len. done.
Qed.

Lemma insert_entry_root key data data_ofs x flags es fin k l s child it t errors f :
  (is_view ni = false → length data = 8%nat) →
  root_is x flags es fin → (k ≤ length es)%nat → root_context (sc_ctx s) x es k →
  sc_insert_entry_size s ≤ Z.of_nat (length (rt_spare x)) → sc_insert_entry_size s mod 8 = 0 →
  item_source ni key data data_ofs f (if has flags INDEX_NODE then 8 else 0) l s it →
  (has flags INDEX_NODE = true → ∃ cs, child = Some cs ∧ is_vcn (ic_vcn (sc_ctx cs)) ∧ is_vcn (sc_right_vcn cs)) →
  let x' := rt_grow x (sc_insert_entry_size s) (used x es fin) in
  ∃ es' fin', insert_entry ni false key data data_ofs l s child (mk_world t errors (rt_bytes x es fin) f) = Ret ((), mk_world t errors (rt_bytes x' es' fin') f) ∧
    root_is x' flags es' fin' ∧ length fin' = length fin ∧
    e_info ni <$> es' = take k (e_info ni <$> es) ++ (it, Z.to_nat (sc_insert_entry_size s)) :: drop k (e_info ni <$> es) ∧
    ∀ cs, has flags INDEX_NODE = true → child = Some cs →
      e_vcn <$> es' ++ [fin'] = take k (e_vcn <$> es ++ [fin]) ++ ic_vcn (sc_ctx cs) :: sc_right_vcn cs :: drop (S k) (e_vcn <$> es ++ [fin]).
Proof.
  intros Hdata H Hk [Cr Ca Ci Ce] Hfit H8 Hsrc Hchild x'. pose proof (item_source_size _ _ _ _ Hdata _ _ _ _ _ Hsrc) as H16. set (size := sc_insert_entry_size s) in *.
  set (es1 := take k es) in *. set (es2 := drop k es) in *. assert (es = es1 ++ es2) as E by (symmetry; apply take_drop).
  destruct (rt_resize_place x flags es fin size (used x es fin) (drop (Z.to_nat size) (rt_spare x)) H) as (P1 & P2 & P3 & P4). fold x' in P1, P2, P3, P4.
  destruct (root_space_bytes x flags es1 es2 fin size) as (y & Ly & By & Esp); [by rewrite <- E|lia|]. rewrite <- E in Esp. fold x' in Esp.
  set (A := concat es1) in *. set (Y := concat (es2 ++ [fin])) in *.
  assert (concat (es ++ [fin]) = A ++ Y) as EC by (unfold A, Y; by rewrite E, <- (assoc_L (++)), concat_app).
  destruct (fill_entry_spec ni key data data_ofs Hdata _ _ _ _ (mk_world t errors (mft_bytes (rt_mft x' (A ++ y ++ Y))) f) Hsrc) as (gf & X & E2 & HX & Hgf). fold size in HX, Hgf.
  destruct (HX y ltac:(lia) By) as (HX1 & HX2 & HX3 & HX4).
  destruct (inserted_entry ni flags es fin k (X y) child it) as (es' & fin' & B & Hwf' & Hfin' & Hinfo & Hvcn & EB & LB & Hset); try done; [apply H|]. fold es1 es2 A Y in EB, LB, Hset.
  set (pre := (rt_head x' ++ concat (rt_before x') ++ rt_attr x') ++ rt_index x' ++ rt_gap x' ++ A). set (Q := concat (rt_after x') ++ rt_end x' ++ rt_spare x').
  assert (∀ z, mft_bytes (rt_mft x' (A ++ z)) = pre ++ z ++ Q) as Em by (intros z; rewrite rt_mft_bytes; unfold pre, Q; by rewrite <- !(assoc_L (++))).
  assert (length pre = ic_entry (sc_ctx s)) as Lpre by (unfold pre; rewrite !(length_app (_ ++ _ ++ _)), <- rt_root_length, !length_app, P2, P3, Ce; unfold x', rt_resize; cbn [rt_gap]; lia).
  exists es', fin'. split.
  - unfold insert_entry. fold size. erewrite io_step by (apply (on_node_root _ _ 0); [done|]; unfold ntfs_index_node_make_space; rewrite Cr, Ca, Ci, Ce; exact Esp).
    cbn [negb Z.eqb]. erewrite io_step; [|rewrite E2; apply on_node_root; [done|]; rewrite Em, <- (assoc_L (++)); apply Hgf; [done|lia]].
    apply on_node_root; [done|]. unfold rt_bytes. rewrite EB, Em. rewrite <- Lpre. replace size with (Z.of_nat (length (X y))) by lia. rewrite Hset; [done|].
    replace (pre ++ X y ++ Y ++ Q) with ((rt_head x' ++ concat (rt_before x') ++ rt_attr x') ++ rt_index x' ++ (rt_gap x' ++ A ++ X y ++ Y ++ Q))
      by (unfold pre; by rewrite <- !(assoc_L (++))).
    rewrite Ci, <- P2, rt_root_length, rd_part by in_entry. by rewrite P4.
  - split_and!; try done; [|by rewrite Hinfo; do 4 f_equal; lia].
    eapply rt_resize_is; try done; [rewrite length_drop; lia|apply list.Forall_drop; pose proof (ok_spare _ (root_mft _ _ _ _ H)); done|]. rewrite EB, EC, !length_app, LB. lia.
Qed.
End root.
