(* ===== verification/IndexAlloc.v ===== *)
(** * The allocation of an index block

    [ntfs_index_block_alloc] ([IndexSplit]): the first zero bit of the index bitmap is set, and its
    block is laid out as an empty leaf. *)

From S2P Require Import Prelude Bytes Unistr Collate PageCache Boot Mst Bitmap MftRecord AttrFind IndexNode IndexLookup IndexTree IndexModify IndexUpdate IndexEntry IndexSplit IndexBlock.

Section alloc.
Context {env : IndexEnv}.

(** Setting and clearing bits leaves bytes. *)
Lemma clear_range bit byte : 0 ≤ byte < 256 → 0 ≤ assign_bit 0 bit byte < 256.
Proof.
  intros H. unfold assign_bit. cbn [Z.eqb negb]. set (x := Z.land _ _). assert (0 ≤ x) as H0 by (apply Z.land_nonneg; lia).
  assert (x = x mod 2 ^ 8) as ->; [|apply Z.mod_pos_bound; lia]. apply Z.bits_inj'. intros j Hj. destruct (Z.ltb_spec j 8); [by rewrite Z.mod_pow2_bits_low by lia|].
  rewrite Z.mod_pow2_bits_high by lia. unfold x. rewrite Z.land_spec. replace byte with (byte mod 2 ^ 8) by (apply Z.mod_small; lia). by rewrite Z.mod_pow2_bits_high by lia.
Qed.
Lemma page_put_bytes ofs pos x (bm bm' : bitmap) : page_put ofs pos x bm = Ret bm' → byte_contents bm → 0 ≤ x < 256 → byte_contents bm'.
Proof. unfold page_put. destruct (_ && _); [|done]. intros [= <-] H Hx i. destruct (i =? ofs + pos); [done|apply H]. Qed.
Lemma page_memset_bytes ofs pos x len (bm bm' : bitmap) : page_memset ofs pos x len bm = Ret bm' → byte_contents bm → 0 ≤ x < 256 → byte_contents bm'.
Proof. unfold page_memset. destruct (_ && _); [|done]. intros [= <-] H Hx i. destruct (_ && _); [done|apply H]. Qed.
Lemma page_get_bytes ofs pos (bm : bitmap) x : page_get ofs pos bm = Ret x → byte_contents bm → 0 ≤ x < 256.
Proof. unfold page_get. destruct (_ && _); [|done]. intros [= <-] H. apply H. Qed.

Lemma first_byte_clear fuel : ∀ bit cnt byte, 0 ≤ byte < 256 → 0 ≤ (first_byte fuel 0 bit cnt byte).1 < 256.
Proof. induction fuel as [|fuel IH]; intros bit cnt byte H; cbn [first_byte]; [done|]. destruct (_ && _); [|done]. apply IH. by apply clear_range. Qed.
Lemma last_byte_clear n : ∀ byte, 0 ≤ byte < 256 → 0 ≤ last_byte n 0 byte < 256.
Proof. induction n as [|n IH]; intros byte H; cbn [last_byte]; [done|]. apply IH. by apply clear_range. Qed.

Lemma bm_pages_clear fuel : ∀ ofs end_ofs cnt len bm t r bm' t',
  bm_pages fuel 0 ofs end_ofs cnt len bm t = Ret (r, bm', t') → byte_contents bm → byte_contents bm'.
Proof.
  induction fuel as [|fuel IH]; intros ofs end_ofs cnt len bm t r bm' t'; cbn [bm_pages]; [done|]. destruct (ofs <? end_ofs).
  - destruct (cnt <=? 0); [done|]. destruct (negb _); [by intros [= <- <- <-]|]. intros (bm1 & E1 & E2)%bind_Ret_inv Hb. eapply IH; [exact E2|]. by eapply page_memset_bytes.
  - destruct (negb _); [|by intros [= <- <- <-]]. destruct (7 <? cnt); [done|]. intros (x & E1 & (bm1 & E2 & [= <- <- <-])%bind_Ret_inv)%bind_Ret_inv Hb.
    eapply page_put_bytes; [exact E2|done|]. apply last_byte_clear. by eapply page_get_bytes.
Qed.
Lemma bm_set_clear start count bm t r bm' t' : bm_set start count 0 bm t = Ret (r, bm', t') → byte_contents bm → byte_contents bm'.
Proof.
  unfold bm_set. destruct (start <? 0); [done|]. destruct (count <? 0); [done|]. cbn [Z.ltb Z.compare]. destruct (negb (page_map_errno _ _ =? 0)); [by intros [= <- <- <-]|].
  intros ([[[bm1 cnt] pos] partial] & E1 & E2)%bind_Ret_inv Hb. assert (byte_contents bm1) as Hb1.
  { destruct (negb _); [|by injection E1 as <-]. apply bind_Ret_inv in E1 as (x & Ex & E1). pose proof (first_byte_clear 8 (Z.land start 7) count x (page_get_bytes _ _ _ _ Ex Hb)) as Hx.
    destruct (first_byte _ _ _ _ _) as [y c]. apply bind_Ret_inv in E1 as (bm2 & E2' & [= <- <- <- <-]). by eapply page_put_bytes. }
  destruct (partial && _); [by injection E2 as <- <- <-|]. apply bind_Ret_inv in E2 as (bm2 & E3 & E4). eapply bm_pages_clear; [exact E4|]. by eapply page_memset_bytes.
Qed.

(** Clearing a single bit either works or changes nothing. *)
Lemma clear_bit_spec bit bm t : 0 ≤ bit < 2 ^ 63 - 1 → ∃ err flag bm' t', ntfs_bitmap_clear_bit bit bm t = Ret (err, flag, bm', t') ∧
  (if err =? 0 then set_to false bit 1 bm bm' else ∀ i, 0 ≤ i → bit_of bm' i = bit_of bm i) ∧ (byte_contents bm → byte_contents bm').
Proof.
  intros Hb. unfold ntfs_bitmap_clear_bit, ntfs_bitmap_clear_run, ntfs_bitmap_set_bits_in_run.
  destruct (bm_set_spec bit 1 0 bm t) as (r & bm1 & t1 & E & Hpost); [lia..|by left|]. pose proof (bm_set_clear _ _ _ _ _ _ _ E) as HB. rewrite E. cbn [mbind outcome_bind]. destruct r as [|err|err c]; cbn in Hpost.
  - eexists _, _, _, _. split; [done|]. done.
  - destruct Hpost as [[Herr _] ->]. eexists _, _, _, _. split; [done|]. by rewrite (proj2 (Z.eqb_neq _ _)).
  - destruct Hpost as ([Herr _] & Hc & Hset). assert (c = 1) as -> by lia. cbn [Z.eqb Pos.eqb negb]. eexists _, _, _, _. split; [done|]. rewrite (proj2 (Z.eqb_neq _ _)) by done.
    split; [|done]. intros i Hi. rewrite Hset by done. ztests; done || lia.
Qed.

(** ** The search *)

Lemma zero_in_page_spec n : ∀ ofs pos bm, byte_contents bm → 0 ≤ pos → pos + Z.of_nat n ≤ PAGE_SIZE →
  ∃ r, zero_in_page n ofs pos bm = Ret r ∧
    match r with
    | None => ∀ i, ofs + pos ≤ i < ofs + pos + Z.of_nat n → bm i = 0xff
    | Some (p, b) => pos ≤ p < pos + Z.of_nat n ∧ 0 ≤ b < 8 ∧ Z.testbit (bm (ofs + p)) b = false ∧
        (∀ j, 0 ≤ j < b → Z.testbit (bm (ofs + p)) j = true) ∧ ∀ i, ofs + pos ≤ i < ofs + p → bm i = 0xff
    end.
Proof.
  induction n as [|n IH]; intros ofs pos bm Hbm Hpos Hle; cbn [zero_in_page]; [eexists; split; [done|]; intros i Hi; lia|].
  unfold page_get. rewrite (proj2 (Z.leb_le _ _)), (proj2 (Z.ltb_lt _ _)) by lia. cbn [andb mbind outcome_bind].
  destruct (Z.eqb_spec (bm (ofs + pos)) 0xff) as [E|E].
  - destruct (IH ofs (pos + 1) bm Hbm) as (r & -> & Hr); [lia..|]. eexists. split; [done|]. destruct r as [[p b]|].
    + destruct Hr as (H1 & H2 & H3 & H4 & H5). split_and!; try done; try lia. intros i Hi. destruct (decide (i = ofs + pos)) as [->|]; [done|]. apply H5. lia.
    + intros i Hi. destruct (decide (i = ofs + pos)) as [->|]; [done|]. apply Hr. lia.
  - destruct (first_zero _ (Hbm (ofs + pos)) E) as (H1 & H2 & H3). rewrite (proj2 (Z.ltb_lt _ _)) by lia. eexists. split; [done|]. split_and!; try done; lia.
Qed.

Lemma sio_step {A B} (c : sio A) (k : A → sio B) w a w' : c w = Ret (a, w') → (c ≫= k) w = k a w'.
Proof. intros H. unfold mbind, sio_bind. by rewrite H. Qed.
Lemma check_step {A B} (o : outcome A) (k : A → sio B) w a : o = Ret a → (check o ≫= k) w = k a w.
Proof. intros H. apply sio_step. unfold check. by rewrite H. Qed.

Abbreviation ST t errors m f bm last := (mk_istate (mk_world t errors m f) bm last).

(** The first zero bit from [a] to [e], and none at all. *)
Definition first_bit (bm : bitmap) (a b : Z) : Prop := a ≤ b ∧ bit_of bm b = false ∧ ∀ i, a ≤ i < b → bit_of bm i = true.

Lemma find_zero_bit_spec sizes fuel : ∀ pos t errors m f bm last, let N := bmp_initialized_size sizes in
  0 ≤ pos → (Z.to_nat (N - pos) < fuel)%nat → byte_contents bm →
  ∃ r t' bm', find_zero_bit sizes fuel pos (ST t errors m f bm last) = Ret (r, ST t' errors m f bm' last) ∧
    match r with
    | inl err => err ≠ 0 ∧ bm' = bm
    | inr None => bm' = bm ∧ ∀ i, 8 * pos ≤ i < 8 * N → bit_of bm i = true
    | inr (Some (p, b)) => pos ≤ p < N ∧ 0 ≤ b < 8 ∧ first_bit bm (8 * pos) (8 * p + b) ∧ set_to true (8 * p + b) 1 bm bm' ∧ byte_contents bm'
    end.
Proof.
  induction fuel as [|fuel IH]; intros pos t errors m f bm last N Hpos Hfuel Hbm; [lia|]. cbn [find_zero_bit]. fold N. pose proof PAGE_SIZE_pos as HP.
  destruct (Z.ltb_spec pos N) as [Hlt|Hge]; cbn [negb]; [|eexists _, _, _; split; [done|]; split; [done|lia]].
  erewrite sio_step by reflexivity. cbn [w_clock w_errors w_mft w_ia st_bmp st_last_set_bit st_world].
  destruct (Z.eqb_spec (page_map_errno t pos) 0) as [E|E]; cbn [negb]; [|eexists _, _, _; split; [done|done]].
  erewrite sio_step by reflexivity. cbn [st_bmp]. set (len := if N <? pos + PAGE_SIZE then N - pos else PAGE_SIZE).
  assert (0 < len ≤ PAGE_SIZE ∧ len ≤ N - pos) as [Hl1 Hl2] by (unfold len; ztests; lia).
  destruct (zero_in_page_spec (Z.to_nat len) pos 0 bm Hbm) as (r & Er & Hr); [lia..|]. rewrite (check_step _ _ _ _ Er).
  assert (∀ i e, (∀ i, pos ≤ i < e → bm i = 0xff) → 8 * pos ≤ i < 8 * e → bit_of bm i = true) as Hfull.
  { intros i e He Hi. apply full_byte, He. split; [apply Z.div_le_lower_bound|apply Z.div_lt_upper_bound]; lia. }
  rewrite Z.add_0_r, Z2Nat.id in Hr by lia. destruct r as [[p b]|].
  - destruct Hr as (H1 & H2 & H3 & H4 & H5). unfold page_get, page_put.
    rewrite (proj2 (Z.leb_le 0 p)), (proj2 (Z.ltb_lt p PAGE_SIZE)) by lia. cbn [andb]. erewrite check_step by reflexivity. erewrite check_step by reflexivity. erewrite sio_step by reflexivity.
    eexists _, _, _. split; [done|]. assert (∀ j, 0 ≤ j < 8 → (8 * (pos + p) + j) / 8 = pos + p ∧ (8 * (pos + p) + j) mod 8 = j) as Hd by (intros; split; zdiv).
    split; [lia|]. split; [lia|]. split.
    2: { split; [apply set_bit_byte; lia|]. intros i. cbv beta. destruct (i =? _); [apply set_range; [apply Hbm|lia]|apply Hbm]. }
    split; [lia|]. split.
    + unfold bit_of. destruct (Hd b ltac:(lia)) as [-> ->]. done.
    + intros i Hi. destruct (Z.ltb_spec i (8 * (pos + p))) as [Hi'|Hi']; [apply (Hfull i (pos + p)); [intros k Hk; apply H5; lia|lia]|].
      unfold bit_of. destruct (Hd (i - 8 * (pos + p)) ltac:(lia)) as [Ed Em]. rewrite Zplus_minus in Ed, Em. rewrite Ed, Em. apply H4. lia.
  - destruct (IH (pos + len) (S t) errors m f bm last) as (r & t' & bm' & Er' & Hr'); [lia|fold N; lia|done|]. eexists _, _, _. split; [exact Er'|].
    destruct r as [err|[[p b]|]]; [done| |].
    + destruct Hr' as (H1 & H2 & (H3 & H4 & H5) & H6). split; [lia|]. split; [lia|]. split; [|done]. split; [lia|]. split; [done|]. intros i Hi.
      destruct (Z.ltb_spec i (8 * (pos + len))) as [Hi'|Hi']; [apply (Hfull i (pos + len)); [done|lia]|apply H5; lia].
    + destruct Hr' as [-> H5]. split; [done|]. intros i Hi. fold N in H5. destruct (Z.ltb_spec i (8 * (pos + len))) as [Hi'|Hi']; [apply (Hfull i (pos + len)); [done|lia]|apply H5; lia].
Qed.

(** ** The layout of a block *)

(** The number of bytes between the index header and the entries, which the update sequence array is in. *)
Definition fresh_ofs (bs : Z) : Z := round8 (16 + 2 * (1 + bs / 512)).
Definition fresh_gap (bs : Z) : nat := Z.to_nat (fresh_ofs bs - 16).

Lemma fresh_ofs_range bs : 512 ≤ bs < 2 ^ 16 → 24 ≤ fresh_ofs bs ∧ fresh_ofs bs + 40 + 16 ≤ bs ∧ fresh_ofs bs ≤ 2 ^ 10.
Proof. intros H. unfold fresh_ofs, round8. zdiv. Qed.

Definition laid_out (bs vcn : Z) : list Z :=
  let ofs := fresh_ofs bs in
  let b := splice (replicate (Z.to_nat bs) 0) ia_magic (le_bytes 4 magic_INDX) in
  let b := splice b ia_usa_ofs (le_bytes 2 40) in
  let b := splice b ia_usa_count (le_bytes 2 (1 + bs / 512)) in
  let b := splice b 40 (le_bytes 2 1) in
  let b := splice b ia_index_block_vcn (le_bytes 8 vcn) in
  let b := splice b (ia_index + ih_entries_offset) (le_bytes 4 ofs) in
  let b := splice b (ia_index + ih_index_length) (le_bytes 4 (ofs + 16)) in
  let b := splice b (ia_index + ih_allocated_size) (le_bytes 4 (bs - 24)) in
  let b := splice b (ia_index + ih_flags) (le_bytes 1 0) in
  let b := splice b (ia_index + Z.to_nat ofs + ie_length) (le_bytes 2 16) in
  splice b (ia_index + Z.to_nat ofs + ie_flags) (le_bytes 2 INDEX_ENTRY_END).

Ltac laid_len := rewrite ?length_splice by laid_len; rewrite ?le_bytes_length, ?length_replicate;
  unfold ia_magic, ia_usa_ofs, ia_usa_count, ia_index_block_vcn, ia_index in *; in_entry.

Lemma lay_out_bytes bs vcn p B q :
  512 ≤ bs < 2 ^ 16 → length B = Z.to_nat bs → ntfs_index_block_lay_out bs vcn (p ++ B ++ q) (length p) = Ret (p ++ laid_out bs vcn ++ q).
Proof.
  intros Hbs HB. destruct (fresh_ofs_range bs Hbs) as (Ho1 & Ho2 & Ho3). assert (0 ≤ bs / 512 < 128) as Hd by zdiv. unfold ntfs_index_block_lay_out, put16, put32, put64, put8.
  rewrite <- HB, memset_part, HB. cbn [mbind outcome_bind]. unfold laid_out. set (b0 := replicate (Z.to_nat bs) 0).
  assert (length b0 = Z.to_nat bs) as L0 by apply length_replicate. change (bs / NTFS_BLOCK_SIZE) with (bs / 512). change sizeof_INDEX_BLOCK with 40.
  rewrite put_part by laid_len. cbn [mbind outcome_bind]. rewrite put_part by laid_len. cbn [mbind outcome_bind]. rewrite put_part by laid_len. cbn [mbind outcome_bind].
  set (b1 := splice (splice (splice b0 _ _) _ _) _ _). assert (length b1 = Z.to_nat bs) as L1 by (unfold b1; rewrite !length_splice by laid_len; done).
  assert (get16 b1 ia_usa_ofs = 40 ∧ get16 b1 ia_usa_count = 1 + bs / 512) as [E1 E2].
  { unfold b1. split; [rewrite get16_splice_other by laid_len|]; (rewrite get16_splice; [done|laid_len|lia]). }
  rewrite le16_part by laid_len. cbn [mbind outcome_bind]. rewrite E1. change (length p + Z.to_nat 40)%nat with (length p + 40)%nat.
  rewrite put_part by laid_len. cbn [mbind outcome_bind]. rewrite put_part by laid_len. cbn [mbind outcome_bind].
  rewrite le16_part by laid_len. cbn [mbind outcome_bind]. rewrite !get16_splice_other by laid_len. rewrite E2.
  assert (u32 (Z.land (16 + Z.shiftl (1 + bs / 512) 1 + 7) (Z.lnot 7)) = fresh_ofs bs) as ->.
  { rewrite Z.shiftl_mul_pow2, land_round8 by lia. replace ((1 + bs / 512) * 2 ^ 1) with (2 * (1 + bs / 512)) by lia. fold (fresh_ofs bs). apply uwrap_id. lia. }
  rewrite <- !Nat.add_assoc. change sizeof_INDEX_ENTRY_HEADER with 16. replace (bs - Z.of_nat ia_index) with (bs - 24) by (unfold ia_index; lia).
  do 5 (rewrite put_part by laid_len; cbn [mbind outcome_bind]). rewrite !Nat.add_assoc. rewrite <- !Nat.add_assoc. by rewrite put_part by laid_len.
Qed.

(** The fields of the block, which the update sequence number is not part of. *)
Record is_laid_out (bs vcn : Z) (b : list Z) : Prop := {
  laid_bytes : bytes b;
  laid_length : length b = Z.to_nat bs;
  laid_magic : get32 b ia_magic = magic_INDX;
  laid_usa_ofs : get16 b ia_usa_ofs = 40;
  laid_vcn : get64 b ia_index_block_vcn = vcn;
  laid_offset : get32 b (ia_index + ih_entries_offset) = fresh_ofs bs;
  laid_index_length : get32 b (ia_index + ih_index_length) = fresh_ofs bs + 16;
  laid_allocated : get32 b (ia_index + ih_allocated_size) = bs - 24;
  laid_flags : get8 b (ia_index + ih_flags) = 0;
  laid_end_length : get16 b (ia_index + Z.to_nat (fresh_ofs bs) + ie_length) = 16;
  laid_end_key : get16 b (ia_index + Z.to_nat (fresh_ofs bs) + ie_key_length) = 0;
  laid_end_flags : get16 b (ia_index + Z.to_nat (fresh_ofs bs) + ie_flags) = INDEX_ENTRY_END
}.

Lemma get64_splice_other m i bs j :
  (i + length bs ≤ length m)%nat → (j + 8 ≤ i ∨ i + length bs ≤ j)%nat → get64 (splice m i bs) j = get64 m j.
Proof. intros H Hj. unfold get64. by rewrite !get32_splice_other by lia. Qed.

(** Walk over the writes that do not touch a field. *)
Ltac flat_len := rewrite ?le_bytes_length; unfold ia_magic, ia_usa_ofs, ia_usa_count, ia_index_block_vcn, ia_index in *; in_entry.
Ltac laid_other :=
  match goal with
  | |- get8 ?b _ = _ => unfold b; rewrite get8_splice_other by flat_len
  | |- get16 ?b _ = _ => unfold b; rewrite get16_splice_other by flat_len
  | |- get32 ?b _ = _ => unfold b; rewrite get32_splice_other by flat_len
  | |- get64 ?b _ = _ => unfold b; rewrite get64_splice_other by flat_len
  end.
Ltac laid_here :=
  match goal with
  | |- get8 ?b _ = _ => unfold b; rewrite get8_put; [done|flat_len|lia]
  | |- get16 ?b _ = _ => unfold b; rewrite get16_splice; [done|flat_len|lia]
  | |- get32 ?b _ = _ => unfold b; rewrite get32_splice; [done|flat_len|lia]
  | |- get64 ?b _ = _ => unfold b; rewrite get64_splice; [done|flat_len|lia]
  end.

Lemma laid_out_fields bs vcn : 512 ≤ bs < 2 ^ 16 → is_vcn vcn → is_laid_out bs vcn (laid_out bs vcn).
Proof.
  intros Hbs [Hv1 Hv2]. destruct (fresh_ofs_range bs Hbs) as (Ho1 & Ho2 & Ho3). unfold laid_out. set (b0 := replicate (Z.to_nat bs) 0).
  assert (length b0 = Z.to_nat bs ∧ bytes b0) as [L0 B0] by (split; [apply length_replicate|apply bytes_replicate]).
  assert (∀ b i x, length b = Z.to_nat bs ∧ bytes b → (i + length x ≤ Z.to_nat bs)%nat → bytes x → length (splice b i x) = Z.to_nat bs ∧ bytes (splice b i x)) as Hstep.
  { intros b i x [L B] Hi Bx. split; [rewrite length_splice; lia|by apply bytes_splice]. }
  assert (0 ≤ INDEX_ENTRY_END < 2 ^ 16 ∧ 0 ≤ magic_INDX < 2 ^ 32) as [HE HM] by done. cbv zeta.
  set (b1 := splice b0 _ _). destruct (Hstep b0 ia_magic (le_bytes 4 magic_INDX)) as [L1 B1]; [done|flat_len|apply bytes_le_bytes|]. fold b1 in L1, B1.
  set (b2 := splice b1 _ _). destruct (Hstep b1 ia_usa_ofs (le_bytes 2 40)) as [L2 B2]; [done|flat_len|apply bytes_le_bytes|]. fold b2 in L2, B2.
  set (b3 := splice b2 _ _). destruct (Hstep b2 ia_usa_count (le_bytes 2 (1 + bs / 512))) as [L3 B3]; [done|flat_len|apply bytes_le_bytes|]. fold b3 in L3, B3.
  set (b4 := splice b3 _ _). destruct (Hstep b3 40%nat (le_bytes 2 1)) as [L4 B4]; [done|flat_len|apply bytes_le_bytes|]. fold b4 in L4, B4.
  set (b5 := splice b4 _ _). destruct (Hstep b4 ia_index_block_vcn (le_bytes 8 vcn)) as [L5 B5]; [done|flat_len|apply bytes_le_bytes|]. fold b5 in L5, B5.
  set (b6 := splice b5 _ _). destruct (Hstep b5 (ia_index + ih_entries_offset)%nat (le_bytes 4 (fresh_ofs bs))) as [L6 B6]; [done|flat_len|apply bytes_le_bytes|]. fold b6 in L6, B6.
  set (b7 := splice b6 _ _). destruct (Hstep b6 (ia_index + ih_index_length)%nat (le_bytes 4 (fresh_ofs bs + 16))) as [L7 B7]; [done|flat_len|apply bytes_le_bytes|]. fold b7 in L7, B7.
  set (b8 := splice b7 _ _). destruct (Hstep b7 (ia_index + ih_allocated_size)%nat (le_bytes 4 (bs - 24))) as [L8 B8]; [done|flat_len|apply bytes_le_bytes|]. fold b8 in L8, B8.
  set (b9 := splice b8 _ _). destruct (Hstep b8 (ia_index + ih_flags)%nat (le_bytes 1 0)) as [L9 B9]; [done|flat_len|apply bytes_le_bytes|]. fold b9 in L9, B9.
  set (b10 := splice b9 _ _). destruct (Hstep b9 (ia_index + Z.to_nat (fresh_ofs bs) + ie_length)%nat (le_bytes 2 16)) as [L10 B10]; [done|flat_len|apply bytes_le_bytes|]. fold b10 in L10, B10.
  set (b11 := splice b10 _ _). destruct (Hstep b10 (ia_index + Z.to_nat (fresh_ofs bs) + ie_flags)%nat (le_bytes 2 INDEX_ENTRY_END)) as [L11 B11]; [done|flat_len|apply bytes_le_bytes|]. fold b11 in L11, B11.
  split; [done|done|..].
  - do 10 laid_other. laid_here.
  - do 9 laid_other. laid_here.
  - do 6 laid_other. laid_here.
  - do 5 laid_other. laid_here.
  - do 4 laid_other. laid_here.
  - do 3 laid_other. laid_here.
  - do 2 laid_other. laid_here.
  - laid_other. laid_here.
  - do 11 laid_other. apply get16_replicate.
  - laid_here.
Qed.

Lemma laid_out_usn bs vcn b usn : 512 ≤ bs < 2 ^ 16 → is_laid_out bs vcn b → is_laid_out bs vcn (splice b 40 (le_bytes 2 usn)).
Proof.
  intros Hbs [B L ? ? ? ? ? ? ? ? ? ?]. destruct (fresh_ofs_range bs Hbs) as (Ho1 & Ho2 & Ho3).
  split; rewrite ?length_splice, ?get32_splice_other, ?get16_splice_other, ?get8_splice_other, ?get64_splice_other by laid_len; try done.
  apply bytes_splice; [done|apply bytes_le_bytes].
Qed.

(** A page that holds a block as it was laid out. *)
Lemma laid_out_block ni f v b p q :
  512 ≤ block_size ni < 2 ^ 16 → is_laid_out (block_size ni) v b → is_vcn v →
  page_bytes f (block_page ni v) = p ++ b ++ q → length p = Z.to_nat (block_ofs ni v) →
  block_header ni f v ∧ ∃ fin, block_is ni f v (fresh_gap (block_size ni)) 0 [] fin.
Proof.
  intros Hbs Hl [Hv1 Hv2] Hpage Hp. destruct (fresh_ofs_range _ Hbs) as (Ho1 & Ho2 & Ho3). destruct Hl as [B L H1 _ H2 H3 H4 H5 H6 H7 H8 H9].
  set (bs := block_size ni) in *. set (g := fresh_gap bs). assert (Z.of_nat g = fresh_ofs bs - 16) as Eg by (unfold g, fresh_gap; lia).
  split.
  - split; [by rewrite Hpage, <- Hp, le32_part, H1 by flat_len|]. exists v. rewrite Hpage, <- Hp, le64_part, H2 by flat_len. split; [done|]. apply swrap_id; lia.
  - set (hd := take 24 b). set (h := take 16 (drop 24 b)). set (gap := take g (drop 40 b)). set (fin := take 16 (drop (40 + g) b)). set (r := drop (56 + g) b).
    assert (length hd = 24 ∧ length h = 16 ∧ length gap = g ∧ length fin = 16)%nat as (Lhd & Lh & Lg & Lf).
    { unfold hd, h, gap, fin. rewrite !length_take, !length_drop. lia. }
    assert (b = hd ++ h ++ gap ++ fin ++ r) as E.
    { unfold hd, h, gap, fin, r. rewrite <- (take_drop 24 b) at 1. f_equal. rewrite <- (take_drop 16 (drop 24 b)) at 1. f_equal. rewrite drop_drop.
      change (24 + 16)%nat with 40%nat. rewrite <- (take_drop g (drop 40 b)) at 1. f_equal. rewrite drop_drop. rewrite <- (take_drop 16 (drop (40 + g) b)) at 1. f_equal.
      rewrite drop_drop. f_equal. lia. }
    assert (∀ k, (k + 4 ≤ 16)%nat → get32 h k = get32 b (ia_index + k)) as G32 by (intros k Hk; rewrite E; unfold ia_index; rewrite <- Lhd, get32_app_r, get32_app_l by lia; done).
    assert (get8 h ih_flags = 0) as G8 by (rewrite <- H6, E; unfold ia_index; rewrite <- Lhd, get8_app_r, get8_app_l by in_entry; done).
    assert (∀ k, (k + 2 ≤ 16)%nat → get16 fin k = get16 b (ia_index + Z.to_nat (fresh_ofs bs) + k)) as G16.
    { intros k Hk. rewrite E. replace (ia_index + Z.to_nat (fresh_ofs bs))%nat with (length (hd ++ h ++ gap)) by (rewrite !length_app; unfold ia_index; lia).
      replace (hd ++ h ++ gap ++ fin ++ r) with ((hd ++ h ++ gap) ++ fin ++ r) by by rewrite <- !(assoc_L (++)). by rewrite get16_app_r, get16_app_l by lia. }
    rewrite E, !bytes_app in B. destruct B as (_ & Bh & _ & Bf & _). exists fin.
    assert (is_end fin = true ∧ is_node fin = false) as [He Hn] by (unfold is_end, is_node, e_flags; rewrite G16, H9 by in_entry; done).
    assert (entry_ok fin) as Hok by (split; [done|rewrite G16, H7, Lf by in_entry; done|lia|rewrite G16, H8, Lf by in_entry; done]).
    split; [split; [done| |]|].
    + split_and!; try done. unfold e_tail. rewrite Hn. lia.
    + by constructor.
    + exists h, gap, r. split; [done|]. cbn [app concat]. rewrite app_nil_r, Lf. split.
      * split; try done; rewrite ?G32 by in_entry; [rewrite H3|rewrite H4|rewrite H5]; lia || done.
      * split; [rewrite E, !length_app in L; rewrite !length_app; lia|]. exists (p ++ hd), q. rewrite Hpage, E. split; [by rewrite <- !(assoc_L (++))|].
        rewrite length_app, Lhd, Hp. done.
Qed.

(** ** Bits and blocks *)

(** The sizes of blocks and pages are powers of two, a page holds whole blocks, and a block whole
    clusters or sectors, which VCNs count. *)
Record geometry (ni : index_inode) (sizes : index_sizes) : Prop := {
  geo_block : 512 ≤ block_size ni < 2 ^ 16;
  geo_shift : 0 ≤ block_size_shift sizes ∧ block_size ni = 2 ^ block_size_shift sizes;
  geo_vcn : 0 ≤ vcn_size_shift ni ≤ block_size_shift sizes;
  geo_page : block_size ni ≤ PAGE_SIZE;
  geo_size : idx_data_size sizes < 2 ^ 63
}.

Section geometry.
Context (ni : index_inode) (sizes : index_sizes) (Hgeo : geometry ni sizes).

(** The VCN of the block with the number [b], as the code computes it. *)
Definition vcn_of (b : Z) : Z := Z.shiftr (s64 (Z.shiftl b (block_size_shift sizes))) (vcn_size_shift ni).
Definition block_nr (b : Z) : Prop := 0 ≤ b ∧ b * block_size ni < 2 ^ 63.

Lemma pow2_divide a b : 0 ≤ a ≤ b → (2 ^ a | 2 ^ b).
Proof. intros H. exists (2 ^ (b - a)). rewrite <- Z.pow_add_r by lia. f_equal. lia. Qed.

Lemma block_of_bit b : block_nr b → is_vcn (vcn_of b) ∧ block_pos ni (vcn_of b) = b * block_size ni ∧
  Z.shiftr (s64 (Z.shiftl (vcn_of b) (vcn_size_shift ni))) (block_size_shift sizes) = b.
Proof.
  intros [Hb0 Hb]. destruct Hgeo as [Hbs [Hs Epow] Hv _ _]. unfold vcn_of, block_pos. rewrite (Z.shiftl_mul_pow2 b), <- Epow by lia. rewrite (swrap_id 64) by lia.
  rewrite Z.shiftr_div_pow2, Z.shiftl_mul_pow2 by lia. assert (0 < 2 ^ vcn_size_shift ni) as Hp by (apply Z.pow_pos_nonneg; lia).
  assert (b * block_size ni / 2 ^ vcn_size_shift ni * 2 ^ vcn_size_shift ni = b * block_size ni) as E.
  { destruct (pow2_divide (vcn_size_shift ni) (block_size_shift sizes) ltac:(lia)) as [k Ek]. rewrite Epow, Ek, Z.mul_assoc, Z.div_mul by lia. done. }
  rewrite E, (swrap_id 64) by lia. split_and!; [|done|].
  - split; [apply Z.div_pos; nia|]. apply Z.le_lt_trans with (b * block_size ni); [|done]. apply Z.div_le_upper_bound; nia.
  - rewrite Z.shiftr_div_pow2, <- Epow, Z.div_mul by lia. done.
Qed.

Lemma vcn_of_inj b b' : block_nr b → block_nr b' → vcn_of b = vcn_of b' → b = b'.
Proof. intros H H' E. destruct (block_of_bit b H) as (_ & _ & <-). destruct (block_of_bit b' H') as (_ & _ & <-). by rewrite E. Qed.

Lemma bits_apart b b' : block_nr b → block_nr b' → b ≠ b' → apart ni (vcn_of b) (vcn_of b').
Proof.
  intros Hb Hb' Hne i. destruct (block_of_bit b Hb) as (_ & -> & _). destruct (block_of_bit b' Hb') as (_ & -> & _). pose proof (geo_block _ _ Hgeo).
  destruct (Z.lt_total b b') as [Hlt|[?|Hlt]]; [nia|done|nia].
Qed.

(** Where the block is in its page. *)
Lemma block_in_page b : block_nr b → let v := vcn_of b in let pos := b * block_size ni in
  block_page ni v = Z.land pos (Z.lnot PAGE_MASK) ∧ Z.land (u32 (Z.shiftl (u32 b) (block_size_shift sizes))) PAGE_MASK = block_ofs ni v ∧
  0 ≤ block_ofs ni v ∧ block_ofs ni v + block_size ni ≤ PAGE_SIZE.
Proof.
  intros Hb v pos. destruct (block_of_bit b Hb) as (_ & Epos & _). fold v pos in Epos. destruct Hgeo as [Hbs [Hs Epow] Hv Hpg _]. pose proof PAGE_SIZE_pos as HP.
  unfold block_page, block_ofs. rewrite Epos. split_and!; [done| | |].
  - rewrite !page_pos_u32, Z.shiftl_mul_pow2, <- Epow by lia. unfold pos, uwrap, PAGE_SIZE. pose proof page_shift_range.
    rewrite <- Z.mul_mod_idemp_l by (apply Z.pow_nonzero; lia). rewrite <- (Z.mul_mod_idemp_l b) by (apply Z.pow_nonzero; lia). f_equal. f_equal.
    apply Z.mod_mod_divide. apply pow2_divide. lia.
  - rewrite page_pos_u32. apply Z.mod_pos_bound. done.
  - rewrite page_pos_u32. assert (∃ k, PAGE_SIZE = k * block_size ni) as [k Ek].
    { rewrite Epow in Hpg. rewrite Epow. unfold PAGE_SIZE in Hpg |- *. assert (block_size_shift sizes ≤ page_shift) as Hle.
      { destruct (Z.le_gt_cases (block_size_shift sizes) page_shift) as [H|H]; [done|]. pose proof page_shift_range. assert (2 ^ page_shift < 2 ^ block_size_shift sizes) by (apply Z.pow_lt_mono_r; lia). lia. }
      assert (2 ^ block_size_shift sizes | 2 ^ page_shift) as [k Ek] by (apply pow2_divide; lia). eauto. }
    rewrite Ek. unfold pos. assert (0 < k) as Hk by nia. rewrite Z.mul_mod_distr_r by lia. pose proof (Z.mod_pos_bound b k Hk). nia.
Qed.

(** ** The allocation *)

Lemma lay_out_block_bytes v p B q :
  bytes (p ++ B ++ q) → length B = Z.to_nat (block_size ni) → is_vcn v →
  ∃ b, lay_out_block ni v (length p) (p ++ B ++ q) = Ret (p ++ b ++ q) ∧ is_laid_out (block_size ni) v b.
Proof.
  intros HB HL Hv. pose proof (geo_block _ _ Hgeo) as Hbs. rewrite !bytes_app in HB. destruct HB as (_ & HB & _). pose proof (laid_out_fields _ _ Hbs Hv) as Hl.
  pose proof (laid_length _ _ _ Hl) as Ll. unfold lay_out_block. rewrite le16_part by flat_len. cbn [mbind outcome_bind]. pose proof (get16_range B ia_usa_ofs HB) as Hu. set (u := get16 B ia_usa_ofs) in *.
  assert (∃ usn, (if u <? NTFS_BLOCK_SIZE - 2 then le16_at (p ++ B ++ q) (length p + Z.to_nat u) else Ret 0) = Ret usn) as [usn ->].
  { change (NTFS_BLOCK_SIZE - 2) with 510. destruct (Z.ltb_spec u 510); [|by eexists]. rewrite le16_part by flat_len. by eexists. }
  cbn [mbind outcome_bind]. rewrite lay_out_bytes by done. cbn [mbind outcome_bind]. destruct (_ && _); [|by eexists].
  rewrite le16_part by flat_len. cbn [mbind outcome_bind]. rewrite (laid_usa_ofs _ _ _ Hl). change (Z.to_nat 40) with 40%nat. unfold put16. rewrite put_part by flat_len.
  eexists. split; [done|]. by apply laid_out_usn.
Qed.

Lemma lay_out_page b f t errors m : block_nr b → byte_contents f → let v := vcn_of b in
  ∃ f', on_page (block_page ni v) (λ b, b ← lay_out_block ni v (Z.to_nat (block_ofs ni v)) b; Ret ((), b)) (mk_world t errors m f) = Ret ((), mk_world t errors m f') ∧
    byte_contents f' ∧ outside ni f f' [v] ∧ block_header ni f' v ∧ ∃ fin, block_is ni f' v (fresh_gap (block_size ni)) 0 [] fin.
Proof.
  intros Hb Hf v. destruct (block_of_bit b Hb) as (Hv & Hpos & _). destruct (block_in_page b Hb) as (_ & _ & Ho1 & Ho2). fold v in Hv, Hpos, Ho1, Ho2.
  pose proof (geo_block _ _ Hgeo) as Hbs. set (pg := page_bytes f (block_page ni v)). assert (length pg = Z.to_nat PAGE_SIZE) as Lpg by apply length_page_bytes.
  set (n := Z.to_nat (block_ofs ni v)). set (p := take n pg). set (B := take (Z.to_nat (block_size ni)) (drop n pg)). set (q := drop (n + Z.to_nat (block_size ni)) pg).
  assert (pg = p ++ B ++ q) as E by (unfold p, B, q; rewrite <- drop_drop, !take_drop; done).
  assert (length p = n) as Lp by (unfold p; rewrite length_take; lia). assert (length B = Z.to_nat (block_size ni)) as LB by (unfold B; rewrite length_take, length_drop; lia).
  pose proof (bytes_page f (block_page ni v) Hf) as Bp. fold pg in Bp. destruct (lay_out_block_bytes v p B q) as (b' & El & Hl); [by rewrite <- E|done|done|].
  pose proof (laid_length _ _ _ Hl) as Lb'. rewrite <- E, Lp in El. unfold on_page. cbn [w_ia w_clock w_errors w_mft]. fold pg. rewrite El. cbn [mbind outcome_bind].
  assert (Z.of_nat (length (p ++ b' ++ q)) = PAGE_SIZE) as Hlen by (rewrite E in Lpg; rewrite !length_app in *; pose proof PAGE_SIZE_pos; lia).
  eexists. split; [done|]. split; [|split].
  - apply byte_contents_store; [done|]. rewrite E, !bytes_app in Bp. rewrite !bytes_app. pose proof (laid_bytes _ _ _ Hl). tauto.
  - intros i Hi. eapply page_store_other; [exact E|lia|]. specialize (Hi v ltac:(left)). destruct (block_place ni v) as [Epl _]. lia.
  - apply (laid_out_block ni _ v b' p q); try done. by apply page_bytes_store.
Qed.

Context {inode : BitmapInode}.

(** What a failed allocation leaves. *)
Definition no_block (bm bm' : bitmap) : Prop := byte_contents bm' ∧ ∀ i, 0 ≤ i → bit_of bm i = true → bit_of bm' i = true.

Lemma block_alloc_spec t errors m f bm last :
  byte_contents f → byte_contents bm →
  ∃ r t' errors' f' bm' last', ntfs_index_block_alloc ni sizes (ST t errors m f bm last) = Ret (r, ST t' errors' m f' bm' last') ∧ (errors = true → errors' = true) ∧
    match r with
    | alloc_err err => err ≠ 0 ∧ f' = f ∧ no_block bm bm'
    | alloc_extend => f' = f ∧ no_block bm bm'
    | alloc_ok (v, upl_ofs, ia) => ∃ b, errors' = errors ∧ block_nr b ∧ first_bit bm 0 b ∧ set_to true b 1 bm bm' ∧ byte_contents bm' ∧ v = vcn_of b ∧
        upl_ofs = block_page ni v ∧ ia = Z.to_nat (block_ofs ni v) ∧ byte_contents f' ∧ outside ni f f' [v] ∧
        block_header ni f' v ∧ ∃ fin, block_is ni f' v (fresh_gap (block_size ni)) 0 [] fin
    end.
Proof.
  intros Hf Hbm. unfold ntfs_index_block_alloc. assert (no_block bm bm) as Hsame by done.
  erewrite sio_step by reflexivity. cbn [w_clock w_errors w_mft w_ia st_bmp st_last_set_bit st_world].
  destruct (Z.eqb_spec (attr_inode_errno t) 0) as [Ei|Ei]; cbn [negb]; [|by eexists _, _, _, _, _, _].
  destruct (find_zero_bit_spec sizes (S (Z.to_nat (bmp_initialized_size sizes))) 0 (S t) errors m f bm last) as (r & t1 & bm1 & E1 & Hr); [lia|lia|done|].
  erewrite sio_step by exact E1. destruct r as [err|[[p b]|]]; [destruct Hr as [? ->]; by eexists _, _, _, _, _, _| |destruct Hr as [-> _]; by eexists _, _, _, _, _, _].
  destruct Hr as (Hp & Hb & Hfirst & Hset & Hbm1). rewrite Z.mul_0_r in Hfirst. set (nr := 8 * p + b) in *. replace (Z.shiftl p 3 + b) with nr by (rewrite Z.shiftl_mul_pow2 by lia; unfold nr; lia).
  erewrite sio_step by reflexivity. cbn [st_world st_bmp st_last_set_bit]. set (last' := if _ && _ then _ else _). assert (no_block bm bm1) as Hno1.
  { split; [done|]. intros i Hi E. rewrite Hset, E by done. by destruct ((nr <=? i) && (i <? nr + 1)). }
  destruct (Z.leb_spec (Z.shiftr (idx_data_size sizes) (block_size_shift sizes)) nr) as [Hd|Hd]; [by eexists _, _, _, _, _, _|].
  assert (block_nr nr) as Hnr.
  { split; [lia|]. destruct Hgeo as [Hbs [Hs Epow] _ _ Hsz]. rewrite Z.shiftr_div_pow2, <- Epow in Hd by lia. pose proof (Z.mul_div_le (idx_data_size sizes) (block_size ni) ltac:(lia)). nia. }
  destruct (block_of_bit nr Hnr) as (Hv & Hpos & _). destruct (block_in_page nr Hnr) as (Epg & Eofs & Ho1 & Ho2).
  assert (s64 (Z.shiftl nr (block_size_shift sizes)) = nr * block_size ni) as Epos.
  { destruct Hgeo as [? [? ->] _ _ _]. rewrite Z.shiftl_mul_pow2 by lia. apply swrap_id; [lia|]. destruct Hnr. rewrite <- (proj2 (geo_shift _ _ Hgeo)). nia. }
  rewrite Epos. erewrite sio_step by reflexivity. cbn [w_clock w_errors w_mft w_ia st_bmp st_last_set_bit st_world]. rewrite <- Epg.
  destruct (Z.eqb_spec (page_map_errno t1 (block_page ni (vcn_of nr))) 0) as [Em|Em]; cbn [negb].
  - destruct (_ <=? nr); [by eexists _, _, _, _, _, _|]. rewrite Eofs.
    assert (Z.shiftr (nr * block_size ni) (vcn_size_shift ni) = vcn_of nr) as -> by (unfold vcn_of; by rewrite Epos).
    destruct (lay_out_page nr f (S t1) errors m Hnr Hf) as (f' & El & Hf' & Ho & Hh & Hbl).
    rewrite (sio_step _ _ _ () (ST (S t1) errors m f' bm1 last')); [|unfold in_world; cbn [st_world]; by rewrite El].
    eexists _, _, _, _, _, _. split; [done|]. split; [done|]. by exists nr.
  - assert (nr < 2 ^ 63 - 1) as Hmax. { destruct Hnr. pose proof (geo_block _ _ Hgeo). nia. }
    destruct (clear_bit_spec nr bm1 (S t1)) as (err & flag & bm2 & t2 & Ec & Hc & Hb2); [lia|].
    rewrite (sio_step _ _ _ () (ST t2 (errors || flag || negb (err =? 0)) m f bm2 last')); [|unfold clear_block_bit; cbn [st_world st_bmp w_clock w_errors w_mft w_ia st_last_set_bit]; by rewrite Ec].
    eexists _, _, _, _, _, _. split; [done|]. split; [by intros ->|]. split; [done|]. split; [done|]. split; [by apply Hb2|].
    intros i Hi E. destruct (err =? 0); [|rewrite Hc by done; by apply Hno1]. rewrite Hc by done. destruct Hfirst as (_ & Hz & _).
    destruct (Z.leb_spec nr i), (Z.ltb_spec i (nr + 1)); cbn [andb]; try (by apply Hno1). assert (i = nr) as -> by lia. congruence.
Qed.
End geometry.
End alloc.
