(* ===== verification/IndexGrow.v ===== *)
(** * The splits of a path of index blocks

    The work that [ntfs_index_entry_add_or_node_split] ([IndexSplit], [work_loop]) does after it has
    planned the splits.  The levels of the path are split from the top down to the leaf; for every
    level, the two halves together have the entries of the node and the inserted entry, but for the
    one that goes to the parent. *)

From Stdlib Require Import Sorted.
From S2P Require Import Prelude Bytes Unistr Collate PageCache Mst MftRecord AttrFind IndexNode IndexLookup IndexTree IndexModify IndexUpdate IndexEntry IndexSplit IndexBlock IndexRoot.

(** ** Lists that are cut and joined *)

Lemma cut_left {A} (l : list A) k P x z :
  (k ≤ P)%nat → l !! P = Some z → (take k (take P l) ++ x :: drop k (take P l)) ++ z :: drop (S P) l = take k l ++ x :: drop k l.
Proof.
  intros H Hz. rewrite <- (assoc_L (++)), take_take, Nat.min_l by done. f_equal. cbn [app]. f_equal.
  replace (drop k l) with (drop k (take P l ++ z :: drop (S P) l)) by by rewrite take_drop_middle.
  rewrite drop_app_le; [done|]. rewrite length_take. pose proof (lookup_lt_Some _ _ _ Hz). lia.
Qed.
Lemma cut_right {A} (l : list A) k P x z :
  (P < k)%nat → l !! P = Some z →
  take P l ++ z :: (take (k - S P) (drop (S P) l) ++ x :: drop (k - S P) (drop (S P) l)) = take k l ++ x :: drop k l.
Proof.
  intros H Hz. rewrite drop_drop. replace (S P + (k - S P))%nat with k by lia.
  replace (take k l) with (take k (take P l ++ z :: drop (S P) l)) by by rewrite take_drop_middle.
  assert (length (take P l) = P) as LP by (rewrite length_take; pose proof (lookup_lt_Some _ _ _ Hz); lia).
  rewrite (take_app_ge (take P l)) by lia. rewrite LP. replace (k - P)%nat with (S (k - S P)) by lia. cbn [take]. by rewrite <- (assoc_L (++)).
Qed.
Lemma join_left {A} (l1 l2 : list A) k x y :
  (k < length l1)%nat → (take k l1 ++ x :: y :: drop (S k) l1) ++ l2 = take k (l1 ++ l2) ++ x :: y :: drop (S k) (l1 ++ l2).
Proof. intros H. rewrite take_app_le, drop_app_le by lia. by rewrite <- (assoc_L (++)). Qed.
Lemma join_right {A} (l1 l2 : list A) k x y :
  l1 ++ (take k l2 ++ x :: y :: drop (S k) l2) = take (length l1 + k) (l1 ++ l2) ++ x :: y :: drop (S (length l1 + k)) (l1 ++ l2).
Proof.
  rewrite take_app_ge, drop_app_ge, <- (assoc_L (++)) by lia. replace (length l1 + k - length l1)%nat with k by lia.
  by replace (S (length l1 + k) - length l1)%nat with (S k) by lia.
Qed.

Lemma length_nonempty {A} (l : list A) : (0 < length l)%nat → l ≠ [].
Proof. by destruct l; cbn; [lia|]. Qed.

(** ** Levels *)

(** A level of the path below the top-most node that changes: the block and its right half, the
    number of bytes between header and entries of both, the flags and the entries of the node, the
    number of the entry of the path, and the entry to promote. *)
Record split_level := mk_slevel {
  sl_vcn : Z;
  sl_right : Z;
  sl_gap : nat;
  sl_rgap : nat;
  sl_flags : Z;
  sl_es : list (list Z);
  sl_fin : list Z;
  sl_nr : nat;
  sl_promote : nat;
  sl_inserted : bool
}.
Definition sl_first (L : split_level) : nat := if sl_inserted L then sl_promote L else S (sl_promote L).
Definition sl_vcns (L : split_level) : list Z := e_vcn <$> sl_es L ++ [sl_fin L].

(** The entry to insert at a level: what it says, the level it is copied from, and its size. *)
Record insertion := mk_insertion {
  in_item : list Z * list Z;
  in_src : option nat;
  in_size : Z
}.

Section grow.
Context {env : IndexEnv} (ni : index_inode) (m : list Z).
Hypothesis (Hbs : 64 ≤ block_size ni < 2 ^ 16).
Context (key data : list Z) (data_ofs : Z).
Hypothesis (Hdata : is_view ni = false → length data = 8%nat).
Abbreviation block_is := (block_is ni).
Abbreviation block_page := (block_page ni).
Abbreviation apart := (apart ni).
Abbreviation changes := (changes ni).
Abbreviation e_info := (e_info ni).
Abbreviation node_context := (node_context ni).
Abbreviation used g es fin := (Z.of_nat (16 + g + length (concat (es ++ [fin])))).

(** The entry that the level [j] gives to its parent. *)
Definition promoted (j : nat) (L : split_level) (x : insertion) : insertion :=
  let vcn := if (j =? 0)%nat then 8 else 0 in
  if sl_inserted L then mk_insertion (in_item x) (in_src x) (in_size x + vcn)
  else let e := nth (sl_promote L) (sl_es L) [] in mk_insertion (e_item ni e) (Some j) (Z.of_nat (length e) + vcn).

Context (Ls : list split_level) (ins : nat → insertion).

Record level_ok (f : contents) (j : nat) (L : split_level) : Prop := {
  level_block : block_is f (sl_vcn L) (sl_gap L) (sl_flags L) (sl_es L) (sl_fin L);
  level_fresh : ∃ fin0, block_is f (sl_right L) (sl_rgap L) 0 [] fin0;
  level_leaf : has (sl_flags L) INDEX_NODE = negb (j =? 0)%nat;
  level_nr : (sl_nr L ≤ length (sl_es L))%nat;
  level_first : (sl_first L ≤ length (sl_es L))%nat;
  level_inserted : sl_inserted L = true → sl_promote L = sl_nr L;
  level_right_fits : used (sl_rgap L) (drop (sl_first L) (sl_es L)) (sl_fin L) ≤ block_size ni - 24;
  level_room : sl_inserted L = false →
    (if (sl_promote L <? sl_nr L)%nat then used (sl_rgap L) (drop (sl_first L) (sl_es L)) (sl_fin L)
     else used (sl_gap L) (take (sl_promote L) (sl_es L)) (sl_fin L)) + in_size (ins j) ≤ block_size ni - 24;
  level_vcns : has (sl_flags L) INDEX_NODE = true → Forall is_vcn (e_vcn <$> sl_es L);
  level_vcn : is_vcn (sl_vcn L) ∧ is_vcn (sl_right L);
  level_halves : j = 0%nat → (0 < sl_promote L ∨ sl_inserted L = false ∧ sl_nr L ≤ sl_promote L)%nat ∧
    (sl_first L < length (sl_es L) ∨ sl_inserted L = false ∧ sl_promote L < sl_nr L)%nat
}.

(** The insertion at the level [j] as the context says. *)
Definition ins_ok (j : nat) (s : split_context) : Prop :=
  sc_insert_entry_size s = in_size (ins j) ∧ sc_insert_ictx s = in_src (ins j) ∧
  sc_insert_to_add s = bool_decide (in_src (ins j) = None) ∧
  ∀ i L, in_src (ins j) = Some i → Ls !! i = Some L → sc_insert_entry_nr s = Z.of_nat (sl_promote L).

Record ctx_ok (j : nat) (L : split_level) (s : split_context) : Prop := {
  ctx_node : node_context (sc_ctx s) (sl_vcn L) (sl_gap L) (sl_es L) (sl_nr L);
  ctx_entries : ic_entries (sc_ctx s) = offsets (index_at ni (sl_vcn L) + 16 + sl_gap L) (sl_es L ++ [sl_fin L]);
  ctx_entry_nr : ic_entry_nr (sc_ctx s) = Z.of_nat (sl_nr L);
  ctx_vcn : ic_vcn (sc_ctx s) = sl_vcn L;
  ctx_split : sc_split_node s = true;
  ctx_inserted : sc_promote_inserted s = sl_inserted L;
  ctx_promote : sc_promote_entry_nr s = Z.of_nat (sl_promote L);
  ctx_right : sc_right_vcn s = sl_right L;
  ctx_right_page : sc_right_upl_ofs s = block_page (sl_right L);
  ctx_right_ia : (sc_right_ia s + ia_index)%nat = index_at ni (sl_right L);
  ctx_ins : ins_ok j s
}.

Hypothesis (Hins0 : in_item (ins 0) = (key, data) ∧ in_src (ins 0) = None ∧ entry_fits (is_view ni) data_ofs (in_size (ins 0)) key data ∧ in_size (ins 0) + 8 < 2 ^ 16).
Hypothesis (Hins : ∀ j L, Ls !! j = Some L → ins (S j) = promoted j L (ins j)).
Hypothesis (Hapart : ∀ i j L L', Ls !! i = Some L → Ls !! j = Some L' →
  apart (sl_vcn L) (sl_right L') ∧ (i ≠ j → apart (sl_vcn L) (sl_vcn L') ∧ apart (sl_right L) (sl_right L'))).

(** What is inserted at a level is the new entry or an entry of a lower level. *)
Lemma flow_inv j : (j ≤ length Ls)%nat →
  match in_src (ins j) with
  | None => in_item (ins j) = (key, data) ∧ in_size (ins j) = in_size (ins 0) + (if (j =? 0)%nat then 0 else 8)
  | Some i => (i < j)%nat ∧ ∃ L, Ls !! i = Some L ∧ sl_inserted L = false ∧ in_item (ins j) = e_item ni (nth (sl_promote L) (sl_es L) []) ∧
      in_size (ins j) = Z.of_nat (length (nth (sl_promote L) (sl_es L) [])) + (if (i =? 0)%nat then 8 else 0)
  end.
Proof.
  induction j as [|j IH]; intros Hj.
  - destruct Hins0 as (-> & -> & _). split; [done|cbn; lia].
  - destruct (lookup_lt_is_Some_2 Ls j Hj) as [L HL]. specialize (IH ltac:(lia)). rewrite (Hins _ _ HL). unfold promoted.
    destruct (sl_inserted L) eqn:Ein; cbn [in_src in_item in_size].
    + destruct (in_src (ins j)) as [i|].
      * destruct IH as (Hi & L' & HL' & Hn & -> & ->). split; [lia|]. exists L'. split_and!; try done. destruct (Nat.eqb_spec j 0); lia.
      * destruct IH as (-> & ->). split; [done|]. destruct (Nat.eqb_spec j 0); cbn; lia.
    + split; [lia|]. exists L. done.
Qed.

Lemma flow_source f l j s :
  (j ≤ length Ls)%nat → ins_ok j s → (∀ i L, (i < j)%nat → Ls !! i = Some L → level_ok f i L ∧ ∃ s', l !! i = Some s' ∧ ctx_ok i L s') →
  item_source ni key data data_ofs f (if (j =? 0)%nat then 0 else 8) l s (in_item (ins j)).
Proof.
  intros Hj (Hsize & Hsrc & Hadd & Hnr) Hlow. pose proof (flow_inv j Hj) as Hflow. destruct Hins0 as (_ & _ & Hfit & H16).
  unfold item_source. rewrite Hsize, Hadd, Hsrc. destruct (in_src (ins j)) as [i|] eqn:Ei.
  - destruct Hflow as (Hi & L & HL & Hin & Hitem & Hsz). specialize (Hnr i L eq_refl HL). destruct (Hlow i L Hi HL) as (Hok & s' & Hs' & Hctx).
    pose proof (level_first _ _ _ Hok) as Hf. unfold sl_first in Hf. rewrite Hin in Hf.
    destruct (lookup_lt_is_Some_2 (sl_es L) (sl_promote L) ltac:(lia)) as [e He]. rewrite (nth_lookup_Some _ _ _ _ He) in Hitem, Hsz.
    pose proof (level_block _ _ _ Hok) as Hblk. destruct (block_is_entries ni _ _ _ _ _ _ Hblk) as [Hwf Hused].
    pose proof (wf_entries _ _ _ _ Hwf) as Hes. rewrite Forall_lookup in Hes. specialize (Hes _ _ He).
    pose proof (wf_nodes _ _ _ _ Hwf) as Hns. rewrite list.Forall_app, Forall_lookup in Hns. destruct Hns as [Hns _]. specialize (Hns _ _ He).
    destruct (block_entry_at ni _ _ _ _ _ _ (sl_promote L) e Hblk) as (p & q & Hpage & Hp); [by rewrite lookup_app_l by lia|].
    assert (length e ≤ length (concat (sl_es L ++ [sl_fin L])))%nat as Hle.
    { rewrite <- (take_drop_middle _ _ _ He), !concat_app. cbn [concat]. rewrite !length_app. lia. }
    destruct Hctx as [[Cr Cp _ _] Cen _ _ _ _ _ _ _ _ _].
    rewrite bool_decide_eq_false_2, (proj2 (Nat.eqb_neq j 0)) by (done || lia). split; [lia|]. split; [destruct (i =? 0)%nat; lia|]. split; [done|].
    exists i, s', e, p, q. split_and!; try done; [by rewrite Cp| |].
    + rewrite Hnr, Nat2Z.id, Cen, offsets_take by lia. by rewrite Hp.
    + rewrite Hsz. unfold e_tail. rewrite Hns, (level_leaf _ _ _ Hok). destruct (i =? 0)%nat; cbn; lia.
  - destruct Hflow as [Hitem Hsz]. rewrite bool_decide_eq_true_2 by done. split; [destruct (j =? 0)%nat; lia|].
    split; [destruct (j =? 0)%nat; lia|]. split; [done|]. replace (in_size (ins j) - _) with (in_size (ins 0)); [done|]. destruct (j =? 0)%nat; lia.
Qed.

(** ** The halves of a level *)

Definition child_of (j : nat) : option split_level := match j with O => None | S i => Ls !! i end.

(** The level after its split, and after its entry is inserted too. *)
Definition level_split (f : contents) (j : nat) (L : split_level) (s : split_context) : Prop := ∃ fl er fr,
  block_is f (sl_vcn L) (sl_gap L) (sl_flags L) (take (sl_promote L) (sl_es L)) fl ∧ block_is f (sl_right L) (sl_rgap L) (sl_flags L) er fr ∧
  length fl = length (sl_fin L) ∧ length fr = length (sl_fin L) ∧ e_info <$> er = e_info <$> drop (sl_first L) (sl_es L) ∧
  (∀ C, child_of j = Some C → (e_vcn <$> take (sl_promote L) (sl_es L) ++ [fl]) ++ (e_vcn <$> er ++ [fr]) =
    if sl_inserted L then take (sl_nr L) (sl_vcns L) ++ sl_vcn C :: sl_right C :: drop (S (sl_nr L)) (sl_vcns L) else sl_vcns L) ∧
  sc_promote_inserted s = sl_inserted L ∧ ins_ok j s ∧
  (sl_inserted L = false → er = drop (sl_first L) (sl_es L) ∧
    if (sl_promote L <? sl_nr L)%nat then node_context (sc_ctx s) (sl_right L) (sl_rgap L) er (sl_nr L - S (sl_promote L))
    else node_context (sc_ctx s) (sl_vcn L) (sl_gap L) (take (sl_promote L) (sl_es L)) (sl_nr L)).

Definition level_done (f : contents) (j : nat) (L : split_level) : Prop := ∃ el fl er fr z,
  block_is f (sl_vcn L) (sl_gap L) (sl_flags L) el fl ∧ block_is f (sl_right L) (sl_rgap L) (sl_flags L) er fr ∧
  length fl = length (sl_fin L) ∧ length fr = length (sl_fin L) ∧ (j = 0%nat → el ≠ [] ∧ er ≠ []) ∧ z.1 = in_item (ins (S j)) ∧
  (e_info <$> el) ++ z :: (e_info <$> er) =
    take (sl_nr L) (e_info <$> sl_es L) ++ (in_item (ins j), Z.to_nat (in_size (ins j))) :: drop (sl_nr L) (e_info <$> sl_es L) ∧
  ∀ C, child_of j = Some C → (e_vcn <$> el ++ [fl]) ++ (e_vcn <$> er ++ [fr]) =
    take (sl_nr L) (sl_vcns L) ++ sl_vcn C :: sl_right C :: drop (S (sl_nr L)) (sl_vcns L).

Lemma inserted_done f j L s :
  Ls !! j = Some L → sl_inserted L = true → level_split f j L s → (j = 0%nat → 0 < sl_promote L ∧ sl_first L < length (sl_es L))%nat →
  (sl_nr L ≤ length (sl_es L))%nat → sl_promote L = sl_nr L → level_done f j L.
Proof.
  intros HL Hin (fl & er & fr & Hl & Hr & Lf & Lr & Hinfo & Hvcns & _) Hleaf Hnr HP. unfold sl_first in *. rewrite Hin in *.
  exists (take (sl_promote L) (sl_es L)), fl, er, fr, (in_item (ins j), Z.to_nat (in_size (ins j))). split_and!; try done.
  - intros Hj. destruct (Hleaf Hj) as [H1 H2]. split; apply length_nonempty; [rewrite length_take; lia|].
    apply (f_equal length) in Hinfo. rewrite !length_fmap, length_drop in Hinfo. lia.
  - rewrite (Hins _ _ HL). unfold promoted. by rewrite Hin.
  - rewrite Hinfo, HP, fmap_take, fmap_drop. done.
Qed.

Lemma insert_level f j L l s child t errors :
  byte_contents f → Ls !! j = Some L → sl_inserted L = false → level_split f j L s →
  has (sl_flags L) INDEX_NODE = negb (j =? 0)%nat → (sl_nr L ≤ length (sl_es L))%nat → (sl_first L ≤ length (sl_es L))%nat →
  (if (sl_promote L <? sl_nr L)%nat then used (sl_rgap L) (drop (sl_first L) (sl_es L)) (sl_fin L)
   else used (sl_gap L) (take (sl_promote L) (sl_es L)) (sl_fin L)) + in_size (ins j) ≤ block_size ni - 24 →
  (j = 0%nat → (0 < sl_promote L ∨ sl_nr L ≤ sl_promote L) ∧ (sl_first L < length (sl_es L) ∨ sl_promote L < sl_nr L))%nat →
  (∀ f', changes f f' [sl_vcn L; sl_right L] → item_source ni key data data_ofs f' (if (j =? 0)%nat then 0 else 8) l s (in_item (ins j))) →
  (∀ C, child_of j = Some C → ∃ cs, child = Some cs ∧ ic_vcn (sc_ctx cs) = sl_vcn C ∧ sc_right_vcn cs = sl_right C ∧ is_vcn (sl_vcn C) ∧ is_vcn (sl_right C)) →
  (j ≠ 0%nat → ∃ C, child_of j = Some C) →
  ∃ f', insert_entry ni false key data data_ofs l s child (mk_world t errors m f) = Ret ((), mk_world t errors m f') ∧
    byte_contents f' ∧ changes f f' [sl_vcn L; sl_right L] ∧ level_done f' j L.
Proof.
  intros Hf HL Hin Hsplit Hleaf Hnr Hfirst Hroom Hhalves Hsrc Hchild HC.
  destruct Hsplit as (fl & er & fr & Hl & Hr & Lf & Lr & Hinfo & Hvcns & _ & (Hsz & _) & Her). destruct (Her Hin) as [-> Hctx]. clear Her.
  unfold sl_first in *. rewrite Hin in *. rewrite <- Hsz in Hroom.
  set (P := sl_promote L) in *. set (k := sl_nr L) in *. set (es := sl_es L) in *.
  destruct (lookup_lt_is_Some_2 es P ltac:(lia)) as [e He].
  assert (e_item ni e = in_item (ins (S j))) as Hz.
  { rewrite (Hins _ _ HL). unfold promoted. rewrite Hin. cbn [in_item]. fold P es. by rewrite (nth_lookup_Some _ _ _ _ He). }
  assert ((e_info <$> es) !! P = Some (e_info e)) as HI by by rewrite list_lookup_fmap, He.
  assert (has (sl_flags L) INDEX_NODE = true → ∃ cs, child = Some cs ∧ is_vcn (ic_vcn (sc_ctx cs)) ∧ is_vcn (sc_right_vcn cs)) as Hc'.
  { intros En. rewrite Hleaf in En. destruct HC as [C HC]; [by intros ->|]. destruct (Hchild C HC) as (cs & -> & E1 & E2 & ? & ?). exists cs. by rewrite E1, E2. }
  assert ((if has (sl_flags L) INDEX_NODE then 8 else 0) = (if (j =? 0)%nat then 0 else 8)) as En by (rewrite Hleaf; by destruct (j =? 0)%nat).
  destruct (Nat.ltb_spec P k) as [HPk|HPk].
  - destruct (insert_entry_block ni key data data_ofs Hdata f (sl_right L) (sl_rgap L) (sl_flags L) (drop (S P) es) fr (k - S P) l s child (in_item (ins j)) t errors m)
      as (f' & er' & fr' & E & Hf' & Ho & Hr' & Lr' & Hinfo' & Hvcns').
    + done.
    + done.
    + rewrite length_drop. lia.
    + done.
    + rewrite concat_app, length_app in *. cbn [concat] in *. rewrite app_nil_r, Lr in *. lia.
    + rewrite En. intros f' Ho. apply Hsrc. apply (only_changes _ _ _ (sl_right L)); [done|right; left].
    + done.
    + exists f'. split; [done|]. split; [done|]. split; [apply (only_changes _ _ _ (sl_right L)); [done|right; left]|].
      exists (take P es), fl, er', fr', (e_info e). split_and!; try done.
      * eapply block_is_only; [lia| |exact Ho|done]. by apply (Hapart j j).
      * lia.
      * intros Hj. destruct (Hhalves Hj) as [H1 H2]. split; apply length_nonempty; [rewrite length_take; lia|].
        apply (f_equal length) in Hinfo'. rewrite length_app, !length_fmap in Hinfo'. cbn in Hinfo'. lia.
      * rewrite Hinfo', Hsz, fmap_take, !fmap_drop. by apply cut_right.
      * intros C HjC. destruct (Hchild C HjC) as (cs & Ecs & E1 & E2 & _). rewrite (Hvcns' cs), E1, E2, <- (Hvcns C HjC); [|by rewrite Hleaf; destruct j|done].
        rewrite join_right, length_fmap, length_app, length_take. cbn [length]. rewrite Nat.min_l by lia. replace (P + 1 + (k - S P))%nat with k by lia. done.
  - destruct (insert_entry_block ni key data data_ofs Hdata f (sl_vcn L) (sl_gap L) (sl_flags L) (take P es) fl k l s child (in_item (ins j)) t errors m)
      as (f' & el' & fl' & E & Hf' & Ho & Hl' & Ll' & Hinfo' & Hvcns').
    + done.
    + done.
    + rewrite length_take. lia.
    + done.
    + rewrite concat_app, length_app in *. cbn [concat] in *. rewrite app_nil_r, Lf in *. lia.
    + rewrite En. intros f' Ho. apply Hsrc. apply (only_changes _ _ _ (sl_vcn L)); [done|left].
    + done.
    + exists f'. split; [done|]. split; [done|]. split; [apply (only_changes _ _ _ (sl_vcn L)); [done|left]|].
      exists el', fl', (drop (S P) es), fr, (e_info e). split_and!; try done.
      * eapply block_is_only; [lia| |exact Ho|done]. apply apart_sym. by apply (Hapart j j).
      * lia.
      * intros Hj. destruct (Hhalves Hj) as [H1 H2]. split; apply length_nonempty; [|rewrite length_drop; lia].
        apply (f_equal length) in Hinfo'. rewrite length_app, !length_fmap in Hinfo'. cbn in Hinfo'. lia.
      * rewrite Hinfo', Hsz, !fmap_take, fmap_drop. by apply cut_left.
      * intros C HjC. destruct (Hchild C HjC) as (cs & Ecs & E1 & E2 & _). rewrite (Hvcns' cs), E1, E2, <- (Hvcns C HjC); [|by rewrite Hleaf; destruct j|done].
        apply join_left. rewrite length_fmap, length_app, length_take. cbn. lia.
Qed.

Lemma inserted_vcns es (fin fl : list Z) P v r :
  (P ≤ length es)%nat → e_vcn fl = v →
  (e_vcn <$> take P es ++ [fl]) ++ r :: tail (e_vcn <$> drop P es ++ [fin]) = take P (e_vcn <$> es ++ [fin]) ++ v :: r :: drop (S P) (e_vcn <$> es ++ [fin]).
Proof.
  intros H <-. assert (e_vcn <$> es ++ [fin] = (e_vcn <$> take P es) ++ (e_vcn <$> drop P es ++ [fin])) as -> by (rewrite <- fmap_app, (assoc_L (++)), take_drop; done).
  set (l := e_vcn <$> drop P es ++ [fin]). rewrite fmap_app, <- (assoc_L (++)).
  assert (length (e_vcn <$> take P es) = P) as L by (rewrite length_fmap, length_take; lia). rewrite take_app_length' by done. f_equal. cbn [fmap list_fmap app].
  do 2 f_equal. rewrite <- Nat.add_1_r, <- drop_drop, drop_app_length' by done. by destruct l.
Qed.
Lemma promoted_vcns es (fin fl : list Z) P :
  (P < length es)%nat → e_vcn <$> es !! P = Some (e_vcn fl) → (e_vcn <$> take P es ++ [fl]) ++ (e_vcn <$> drop (S P) es ++ [fin]) = e_vcn <$> es ++ [fin].
Proof.
  intros H Hv. destruct (es !! P) as [e|] eqn:He; [|done]. injection Hv as Hv. rewrite <- (take_drop_middle _ _ _ He) at 3.
  rewrite !fmap_app, !fmap_cons, Hv, <- !(assoc_L (++)). done.
Qed.

Definition below_of (l : list split_context) (j : nat) : option (nat * split_context) :=
  match j with O => None | S i => (λ s, (i, s)) <$> l !! i end.

Lemma split_step f j L l s vcn t errors :
  byte_contents f → Ls !! j = Some L → level_ok f j L → ctx_ok j L s →
  (∀ i, j = S i → ∃ C cs, Ls !! i = Some C ∧ l !! i = Some cs ∧ ctx_ok i C cs ∧ is_vcn (sl_vcn C) ∧ is_vcn (sl_right C)) →
  ∃ f' s' vcn', split_node s (below_of l j) vcn (mk_world t errors m f) =
      Ret ((s', match j with O => None | S i => Some i end, vcn'), mk_world t errors m f') ∧
    byte_contents f' ∧ changes f f' [sl_vcn L; sl_right L] ∧ level_split f' j L s' ∧ ic_is_locked (sc_ctx s') = ic_is_locked (sc_ctx s) ∧
    ic_is_root (sc_ctx s') = false.
Proof.
  intros Hf HL [Hblk [fin0 Hfresh] Hleaf Hnr Hfirst Hinsd Hrf _ Hvs _ _] [Cn Cen Cnr Cv Csp Cin Cpr Crv Crp Cri Cins] Hbelow.
  assert (sl_first L = if sc_promote_inserted s then sl_promote L else S (sl_promote L)) as Efirst by (unfold sl_first; by rewrite Cin).
  assert (child_of j = None ∨ ∃ i C cs, j = S i ∧ child_of j = Some C ∧ below_of l j = Some (i, cs) ∧ ctx_ok i C cs ∧ is_vcn (sl_vcn C) ∧ is_vcn (sl_right C)) as Hc.
  { destruct j as [|i]; [by left|]. right. destruct (Hbelow i eq_refl) as (C & cs & H1 & H2 & H3 & H4 & H5). exists i, C, cs. cbn. rewrite H2. done. }
  destruct (split_node_block ni (proj1 Hbs) f (sl_vcn L) (sl_right L) (sl_gap L) (sl_rgap L) (sl_flags L) (sl_es L) (sl_fin L) fin0 (sl_nr L) (sl_promote L)
    s (below_of l j) vcn t errors m) as (f' & vcn' & fl & er & fr & E & Hf' & Hch & Hl & Hr & Lf & Lr & Hinfo & Her & Hv); try done.
  - by apply (Hapart j j).
  - by rewrite <- Efirst.
  - by rewrite <- Efirst.
  - intros En. rewrite Hleaf in En. destruct j as [|j]; [done|]. destruct Hc as [Hc|(i & C & cs & Ej & HC & -> & Hcs & ? & ?)].
    { destruct (Hbelow j eq_refl) as (C & cs & H1 & _). cbn in Hc. congruence. }
    exists i. cbn. destruct Hcs as [[Hroot _ _ _] _ _ -> _ _ _ -> _ _ _]. done.
  - exists f', (half_context ni s (sl_vcn L) (sl_right L) (sl_rgap L) (sl_promote L) (sl_nr L) (sl_es L)), vcn'. rewrite <- Efirst in *. split_and!; try done.
    + rewrite E. do 4 f_equal. rewrite Hleaf. destruct j as [|j]; [done|]. cbn. by destruct (Hbelow j eq_refl) as (C & cs & _ & -> & _).
    + exists fl, er, fr. split_and!; try done.
      * intros C HC. destruct Hc as [Hc|(i & C' & cs & Ej & HC' & Eb & Hcs & _)]; [congruence|]. rewrite HC' in HC. injection HC as ->.
        rewrite Hleaf, Eb in Hv. cbn [default from_option fmap option_fmap option_map snd id] in Hv. destruct j as [|j]; [done|]. specialize (Hv eq_refl). rewrite Cin in Hv.
        pose proof (ctx_vcn _ _ _ Hcs) as EvC. pose proof (ctx_right _ _ _ Hcs) as ErC. rewrite EvC, ErC in Hv.
        unfold sl_vcns. unfold sl_first in *. rewrite Cin in *. destruct (sl_inserted L) eqn:Ein.
        { destruct Hv as [Hv1 Hv2]. rewrite Hv2, <- (Hinsd eq_refl). apply inserted_vcns; [lia|done]. }
        { destruct Hv as [Hv ->]. rewrite (Her eq_refl). apply promoted_vcns; [lia|done]. }
      * unfold half_context. by destruct (negb _ && _).
      * unfold half_context. destruct Cins as (? & ? & ? & ?). by destruct (negb _ && _).
      * intros Hin. split; [apply Her; by rewrite Cin|]. unfold half_context. rewrite Cin, Hin. cbn [negb andb].
        destruct (Nat.ltb_spec (sl_promote L) (sl_nr L)).
        { split; cbn; [apply Cn|done|done|]. rewrite (Her ltac:(by rewrite Cin)). unfold sl_first. by rewrite Hin. }
        { destruct Cn as [N1 N2 N3 N4]. split; try done. cbn. rewrite N4, take_take, Nat.min_l by lia. done. }
    + unfold half_context. by destruct (negb _ && _).
    + unfold half_context. destruct Cn as [N1 _ _ _]. by destruct (negb _ && _).
Qed.

(** ** Steps that may fail *)

(** The step ends with [Q], or with an error of the environment, which leaves a note on the volume. *)
Definition works {A} (c : io (Z + A)) (t : nat) (errors : bool) (f : contents) (Q : A → contents → Prop) : Prop :=
  ∃ r t' errors' f', c (mk_world t errors m f) = Ret (r, mk_world t' errors' m f') ∧
    match r with inl err => env_err err ∧ errors' = true | inr a => errors' = errors ∧ Q a f' end.

Lemma works_try {A B} (c : io (Z + A)) (k : A → io (Z + B)) t errors f P Q :
  works c t errors f P → (∀ a t' f', P a f' → works (k a) t' errors f' Q) → works (try c k) t errors f Q.
Proof.
  intros (r & t' & errors' & f' & E & Hr) Hk. unfold works, try. destruct r as [err|a].
  - exists (inl err), t', errors', f'. split; [|done]. by erewrite io_step by exact E.
  - destruct Hr as [-> HP]. destruct (Hk a t' f' HP) as (r & t2 & errors2 & f2 & E2 & Hr2). exists r, t2, errors2, f2. split; [|done].
    by erewrite io_step by exact E.
Qed.
Lemma works_step {A B} (c : io A) (k : A → io (Z + B)) a t t' errors f f' Q :
  c (mk_world t errors m f) = Ret (a, mk_world t' errors m f') → works (k a) t' errors f' Q → works (c ≫= k) t errors f Q.
Proof. intros E (r & t2 & errors2 & f2 & E2 & Hr2). exists r, t2, errors2, f2. split; [|done]. by erewrite io_step by exact E. Qed.
Lemma works_request {B} (k : nat → io (Z + B)) t errors f Q : works (k t) (S t) errors f Q → works (request ≫= k) t errors f Q.
Proof. done. Qed.
Lemma works_mono {A} (c : io (Z + A)) t errors f (P Q : A → contents → Prop) :
  works c t errors f P → (∀ a f', P a f' → Q a f') → works c t errors f Q.
Proof. intros (r & t' & errors' & f' & E & Hr) H. exists r, t', errors', f'. split; [done|]. destruct r; [done|]. destruct Hr. auto. Qed.
Lemma works_ret {A} (a : A) t errors f (Q : A → contents → Prop) : Q a f → works (mret (inr a)) t errors f Q.
Proof. intros H. by exists (inr a), t, errors, f. Qed.
Lemma works_relocked {A} (c : io (Z + A)) t errors f P :
  reads errors m f c (λ r, match r with inl err => env_err err | inr a => P a end) → works (relocked c) t errors f (λ a f', f' = f ∧ P a).
Proof.
  intros H. destruct (H t) as ([err|a] & t' & E & HP); unfold works, relocked.
  - exists (inl err), t', true, f. split; [|done]. by erewrite io_step by exact E.
  - exists (inr a), t', errors, f. split; [|done]. by erewrite io_step by exact E.
Qed.

Lemma relock_block errors f c :
  ic_is_root c = false → ic_is_locked c = false →
  reads errors m f (ntfs_index_ctx_relock ni c) (λ r, match r with inl err => env_err err | inr c' => c' = set_locked true c end).
Proof.
  intros Hr Hl. unfold ntfs_index_ctx_relock. rewrite Hl, Hr. apply reads_request. intros t.
  destruct (Z.eqb_spec (page_map_errno t (ic_upl_ofs c)) 0) as [E|E]; cbn [negb]; apply reads_ret; [done|]. exists t. right. left. eauto.
Qed.

Lemma lock_two_blocks errors f a b :
  ic_is_root a = false → ic_is_root b = false → ic_is_locked a = true → ic_is_locked b = false →
  reads errors m f (ntfs_index_ctx_lock_two ni a b) (λ r, match r with inl err => env_err err | inr (a', b') => a' = a ∧ ∃ lk, b' = set_locked lk b end).
Proof.
  intros Ha Hb La Lb. assert (set_locked true (set_locked false a) = a) as Eta by (destruct a; cbn in *; by subst).
  assert (set_locked false b = b) as Etb by (destruct b; cbn in *; by subst).
  unfold ntfs_index_ctx_lock_two. rewrite Ha, Hb, La, Lb.
  destruct (ic_upl_ofs a =? ic_upl_ofs b).
  { apply (reads_try _ _ _ _ _ (λ r, r = inr a)); [by apply reads_ret|done|]. intros a' [= ->]. apply reads_ret. split; [done|]. by exists false. }
  eapply reads_try; [by apply relock_block|done|]. intros b' ->. destruct (ic_upl_ofs b <? ic_upl_ofs a); cbn [ic_is_locked set_locked].
  - eapply reads_try; [by apply relock_block|done|]. intros a' ->. apply reads_ret. rewrite Eta. eauto.
  - rewrite La. apply reads_ret. eauto.
Qed.

(** ** The loop *)

(** The levels below [n] are as planned; at most the context with the number [lock] is locked. *)
Definition lower_ok (f : contents) (l : list split_context) (n : nat) (lock : option nat) : Prop := ∀ i L, (i < n)%nat → Ls !! i = Some L →
  level_ok f i L ∧ ∃ s, l !! i = Some s ∧ ctx_ok i L s ∧ sc_right_is_locked s = false ∧ (ic_is_locked (sc_ctx s) = true → lock = Some i).

Lemma ctx_ok_lock j L s b : ctx_ok j L s → ctx_ok j L (set_ctx (set_locked b (sc_ctx s)) s).
Proof. intros [[? ? ? ?] ? ? ? ? ? ? ? ? ? ?]. by split. Qed.

Lemma lower_insert f l n lock i s : lower_ok f l n lock → (n ≤ i)%nat → lower_ok f (<[i := s]> l) n lock.
Proof. clear Hbs Hdata Hins0 Hins Hapart. intros H Hi j L Hj HL. destruct (H j L Hj HL) as (Hok & s' & Hs' & ?). split; [done|]. exists s'. rewrite list_lookup_insert_ne by lia. done. Qed.

(** Any context may be locked or unlocked. *)
Lemma lower_lock f l n lock j s b lock' :
  lower_ok f l n lock → l !! j = Some s → (b = true → lock' = Some j) → (∀ i, lock = Some i → i ≠ j → lock' = Some i) →
  lower_ok f (<[j := set_ctx (set_locked b (sc_ctx s)) s]> l) n lock'.
Proof.
  clear Hbs Hdata Hins0 Hins Hapart. intros H Hj Hb Hlock i L Hi HL. destruct (H i L Hi HL) as (Hok & s' & Hs' & Hctx & Hr & Hlk). split; [done|]. destruct (decide (i = j)) as [->|Hne].
  - rewrite Hj in Hs'. injection Hs' as <-. eexists. split; [apply list_lookup_insert_eq; by eapply lookup_lt_Some|]. split; [by apply ctx_ok_lock|done].
  - exists s'. rewrite list_lookup_insert_ne by done. split_and!; try done. auto.
Qed.

Definition loop_tail (rec : Z → nat → option nat → list split_context → io (Z + ())) (vcn : Z) (i : nat) (child : option nat) (child_s : option split_context)
    (l : list split_context) : io (Z + ()) :=
  match child, child_s with
  | Some j, Some child_s =>
      if negb (sc_split_node child_s) then panic else
      s ← lift (rd l i);
      l ← lift (unlock_done l i s);
      s ← lift (rd l j);
      s ←! lock_halves ni s;
      below ← lift (match j with O => Ret None | S j => s ← rd l j; Ret (Some (j, s)) end);
      '(s, child, vcn) ← split_node s below vcn;
      let l := <[j := s]> l in
      if match child with None => false | Some _ => false end then mret (inr ())
      else rec vcn j child l
  | _, _ => mret (inr ())
  end.

Lemma work_loop_tail fuel vcn i child l :
  work_loop ni (S fuel) false key data data_ofs vcn i child l =
    (s ← lift (rd l i);
     if negb (ic_is_locked (sc_ctx s)) then panic else
     child_s ← lift (match child with None => Ret None | Some j => s ← rd l j; Ret (Some s) end);
     l ←! (if sc_promote_inserted s then mret (inr l) else
       l ←! lock_insert_ictx ni l i s;
       s ← lift (rd l i);
       _ ← insert_entry ni false key data data_ofs l s child_s;
       mret (inr l));
     loop_tail (work_loop ni fuel false key data data_ofs) vcn i child child_s l).
Proof. done. Qed.

(** The blocks of the levels below [n]. *)
Definition level_blocks (n : nat) : list Z := concat ((λ L, [sl_vcn L; sl_right L]) <$> take n Ls).

Lemma level_blocks_elem n u : u ∈ level_blocks n ↔ ∃ i L, (i < n)%nat ∧ Ls !! i = Some L ∧ (u = sl_vcn L ∨ u = sl_right L).
Proof.
  clear Hbs Hdata Hins0 Hins Hapart ins. unfold level_blocks. rewrite list_elem_of_In, in_concat. split.
  - intros (x & Hx & Hu). apply list_elem_of_In in Hx. apply list_elem_of_In in Hu. apply list_elem_of_fmap in Hx as (L & -> & HL). apply list_elem_of_lookup_1 in HL as [i Hi].
    apply lookup_take_Some in Hi as [Hi Hlt]. exists i, L. split; [done|]. split; [done|]. rewrite !elem_of_cons in Hu. destruct Hu as [->|[->|Hu]]; [by left|by right|by inversion Hu].
  - intros (i & L & Hi & HL & Hu). exists [sl_vcn L; sl_right L]. rewrite <- !list_elem_of_In. split.
    + apply list_elem_of_fmap. exists L. split; [done|]. apply (list_elem_of_lookup_2 _ i). by apply lookup_take_Some.
    + rewrite !elem_of_cons. tauto.
Qed.
Lemma level_blocks_mono n n' : (n ≤ n')%nat → level_blocks n ⊆ level_blocks n'.
Proof. intros H u. rewrite !level_blocks_elem. intros (i & L & ? & ? & ?). exists i, L. split; [lia|done]. Qed.

Lemma level_apart j L i L' : Ls !! j = Some L → Ls !! i = Some L' → i ≠ j → ∀ u, u = sl_vcn L' ∨ u = sl_right L' → apart (sl_vcn L) u ∧ apart (sl_right L) u.
Proof.
  intros HL HL' Hne u Hu. destruct (Hapart j i L L' HL HL') as [H1 H2]. destruct (H2 ltac:(done)) as [H3 H4]. destruct (Hapart i j L' L HL' HL) as [H5 _].
  destruct Hu as [->| ->]; split; try done. by apply apart_sym.
Qed.

Lemma level_ok_changes f f' j L vs :
  level_ok f j L → changes f f' vs → (∀ v, v ∈ vs → apart (sl_vcn L) v ∧ apart (sl_right L) v) → level_ok f' j L.
Proof.
  intros [Hb [fin0 Hfr] ? ? ? ? ? ? ? ? ?] Hc Ha. split; try done.
  - eapply block_is_changes; [lia|done| |done]. intros v Hv. apply (Ha v Hv).
  - exists fin0. eapply block_is_changes; [lia|done| |done]. intros v Hv. apply (Ha v Hv).
Qed.
Lemma level_done_changes f f' j L vs :
  level_done f j L → changes f f' vs → (∀ v, v ∈ vs → apart (sl_vcn L) v ∧ apart (sl_right L) v) → level_done f' j L.
Proof.
  intros (el & fl & er & fr & z & Hl & Hr & ?) Hc Ha. exists el, fl, er, fr, z. split; [|split; [|done]].
  - eapply block_is_changes; [lia|done| |done]. intros v Hv. apply (Ha v Hv).
  - eapply block_is_changes; [lia|done| |done]. intros v Hv. apply (Ha v Hv).
Qed.
Lemma lower_changes f f' l n lock vs :
  lower_ok f l n lock → changes f f' vs → (∀ i L v, (i < n)%nat → Ls !! i = Some L → v ∈ vs → apart (sl_vcn L) v ∧ apart (sl_right L) v) → lower_ok f' l n lock.
Proof. intros H Hc Ha i L Hi HL. destruct (H i L Hi HL) as [Hok ?]. split; [|done]. eapply level_ok_changes; [done|done|]. intros v Hv. by eapply Ha. Qed.

Lemma unlock_done_ok f l i s s1 :
  (i ≤ length Ls)%nat → lower_ok f l i (sc_insert_ictx s) → ins_ok i s → l !! i = Some s1 → ic_is_locked (sc_ctx s1) = true →
  ∃ l', unlock_done l i s = Ret l' ∧ lower_ok f l' i None.
Proof.
  intros Hi Hlow (_ & Hsrc & _) Hl1 Hlk. unfold unlock_done. pose proof (flow_inv i Hi) as Hflow. rewrite Hsrc in *. destruct (in_src (ins i)) as [j|].
  - destruct Hflow as (Hj & L & HL & _). destruct (Hlow j L Hj HL) as (_ & sj & Hsj & _ & _ & _). rewrite (rd_Ret l j sj) by done. cbn [mbind outcome_bind].
    set (l2 := if ic_is_locked (sc_ctx sj) then _ else l).
    assert (l2 !! i = Some s1 ∧ lower_ok f l2 i None) as [H1 H2].
    { unfold l2. destruct (ic_is_locked (sc_ctx sj)) eqn:Elk.
      - rewrite list_lookup_insert_ne by lia. split; [done|]. eapply lower_lock; [done|done|done|congruence].
      - split; [done|]. intros i' L' Hi' HL'. destruct (Hlow i' L' Hi' HL') as (Hok & s' & Hs' & ? & ? & Hlock). split; [done|]. exists s'. split_and!; try done.
        intros E. specialize (Hlock E). injection Hlock as ->. congruence. }
    unfold ntfs_index_ctx_unlock. rewrite (rd_Ret l2 i s1) by done. cbn [mbind outcome_bind]. rewrite Hlk. cbn. eexists. split; [done|]. by apply lower_insert.
  - cbn [mbind outcome_bind]. unfold ntfs_index_ctx_unlock. rewrite (rd_Ret l i s1) by done. cbn [mbind outcome_bind]. rewrite Hlk. cbn. eexists. split; [done|]. by apply lower_insert.
Qed.

Lemma lock_halves_ok t errors f s :
  ic_is_root (sc_ctx s) = false → ic_is_locked (sc_ctx s) = false → sc_right_is_locked s = false →
  works (lock_halves ni s) t errors f (λ s' f', f' = f ∧
    ∃ lk, s' = set_right (sc_right_vcn s) (sc_right_upl_ofs s) (sc_right_ia s) lk (set_ctx (set_locked true (sc_ctx s)) s)).
Proof.
  intros Hr Hl Hrl. unfold lock_halves. rewrite Hl, Hrl. set (c := sc_ctx s) in *.
  assert (works (if ic_upl_ofs c <=? sc_right_upl_ofs s then relocked (ntfs_index_ctx_relock ni c) else mret (inr c)) t errors f
    (λ c' f', f' = f ∧ (c' = set_locked true c ∨ c' = c ∧ (ic_upl_ofs c =? sc_right_upl_ofs s) = false))) as H1.
  { destruct (Z.leb_spec (ic_upl_ofs c) (sc_right_upl_ofs s)).
    - pose proof (works_relocked _ t errors f _ (relock_block errors f c Hr Hl)) as (r & t' & e' & f' & E & Hq). exists r, t', e', f'. split; [done|].
      destruct r; [done|]. tauto.
    - apply works_ret. split; [done|]. right. split; [done|]. apply Z.eqb_neq. lia. }
  eapply works_try; [exact H1|]. clear t H1. intros c' t f' [-> Hc'].
  assert (ic_upl_ofs c' = ic_upl_ofs c) as Hupl by by destruct Hc' as [->|[-> _]].
  eapply (works_try _ _ _ _ _ (λ s' f', f' = f ∧ ∃ lk, s' = set_right (sc_right_vcn s) (sc_right_upl_ofs s) (sc_right_ia s) lk s)).
  { rewrite Hupl. destruct (ic_upl_ofs c =? sc_right_upl_ofs s).
    - apply works_ret. split; [done|]. exists false. destruct s; cbn in *. by subst.
    - apply works_request. cbv zeta. destruct (Z.eqb_spec (page_map_errno t (sc_right_upl_ofs s)) 0) as [E|E]; cbn [negb].
      + apply works_ret. eauto.
      + exists (inl (page_map_errno t (sc_right_upl_ofs s))), (S t), true, f. split; [done|]. split; [|done]. exists t. right. left. eauto. }
  intros s' t' f' [-> [lk ->]].
  assert (set_locked true (set_locked true c) = set_locked true c) as Eid by done.
  eapply (works_try _ _ _ _ _ (λ c' f', f' = f ∧ c' = set_locked true c)).
  { destruct Hc' as [->|[-> _]]; cbn [ic_is_locked set_locked].
    - by apply works_ret.
    - fold c. rewrite Hl. by apply works_relocked, relock_block. }
  intros c2 t2 f' [-> ->]. apply works_ret. split; [done|]. exists lk. by destruct s.
Qed.

Lemma lock_insert_ok f l i s t errors :
  (i ≤ length Ls)%nat → lower_ok f l i None → ins_ok i s → l !! i = Some s → ic_is_root (sc_ctx s) = false → ic_is_locked (sc_ctx s) = true →
  works (lock_insert_ictx ni l i s) t errors f (λ l' f', f' = f ∧ lower_ok f l' i (sc_insert_ictx s) ∧ l' !! i = Some s).
Proof.
  intros Hi Hlow (_ & Hsrc & Hadd & _) Hs Hr Hl. unfold lock_insert_ictx. pose proof (flow_inv i Hi) as Hflow. rewrite Hadd, Hsrc.
  assert (set_ctx (sc_ctx s) s = s) as Es by by destruct s.
  destruct (in_src (ins i)) as [j|]; [rewrite bool_decide_eq_false_2 by done|by apply works_ret].
  destruct Hflow as (Hj & L & HL & _). destruct (Hlow j L Hj HL) as (_ & sj & Hsj & [[Hrj _ _ _] _ _ _ _ _ _ _ _ _ _] & _ & Hlkj).
  eapply works_step; [reflexivity|]. eapply works_step; [by unfold lift; rewrite (rd_Ret l j sj)|]. rewrite Hr.
  assert (ic_is_locked (sc_ctx sj) = false) as Lj by (destruct (ic_is_locked (sc_ctx sj)); [by specialize (Hlkj eq_refl)|done]).
  eapply works_try; [by apply works_relocked, lock_two_blocks|]. intros [c c'] t' f' [-> [-> [lk ->]]]. apply works_ret. split; [done|].
  rewrite Es, (list_insert_id l i s Hs). split.
  - eapply lower_lock; [done|done|by intros ->|congruence].
  - by rewrite list_lookup_insert_ne by lia.
Qed.

(** The insertion at a level that is split. *)
Lemma level_insertion f j L l s child t errors :
  byte_contents f → Ls !! j = Some L → level_split f j L s → (∃ f0, level_ok f0 j L) → lower_ok f l j None → l !! j = Some s →
  ic_is_root (sc_ctx s) = false → ic_is_locked (sc_ctx s) = true → child = match j with O => None | S i => l !! i end →
  works (if sc_promote_inserted s then mret (inr l) else
    l ←! lock_insert_ictx ni l j s; s ← lift (rd l j); _ ← insert_entry ni false key data data_ofs l s child; mret (inr l)) t errors f
    (λ l' f', byte_contents f' ∧ changes f f' [sl_vcn L; sl_right L] ∧ level_done f' j L ∧ lower_ok f' l' j (sc_insert_ictx s) ∧ l' !! j = Some s).
Proof.
  intros Hf HL Hsplit [f0 Hok] Hlow Hs Hr Hl Echild. destruct Hok as [_ _ Hleaf Hnr Hfirst Hinsd Hrf Hroom Hvs _ Hhalves].
  pose proof Hsplit as (fl & er & fr & _ & _ & _ & _ & _ & _ & Hin & Hins' & _). pose proof (lookup_lt_Some _ _ _ HL) as Hj. rewrite Hin.
  destruct (sl_inserted L) eqn:Ein.
  - apply works_ret. split; [done|]. split; [apply changes_refl|]. split; [|split; [|done]].
    + eapply inserted_done; try done; [|by apply Hinsd]. intros E. destruct (Hhalves E) as [H1 H2]. split; [destruct H1 as [?|[? _]]|destruct H2 as [?|[? _]]]; done.
    + intros i L' Hi HL'. destruct (Hlow i L' Hi HL') as (? & s' & ? & ? & ? & Hlk). split; [done|]. exists s'. split_and!; try done. intros E. by specialize (Hlk E).
  - eapply works_try; [by apply lock_insert_ok; [lia|..]|]. intros l' t' f' (-> & Hlow' & Hs').
    eapply works_step; [by unfold lift; rewrite (rd_Ret l' j s)|].
    assert (∀ i C v, (i < j)%nat → Ls !! i = Some C → v ∈ [sl_vcn L; sl_right L] → apart (sl_vcn C) v ∧ apart (sl_right C) v) as Hap.
    { intros i C v Hi HC Hv. apply (level_apart i C j L); try done; [lia|]. rewrite !elem_of_cons in Hv. destruct Hv as [->|[->|Hv]]; [by left|by right|by inversion Hv]. }
    destruct (insert_level f j L l' s child t' errors) as (f' & E & Hf' & Hc & Hdone); try done; [by apply Hroom|..].
    + intros Ej. destruct (Hhalves Ej) as [H1 H2]. tauto.
    + intros f' Hc. apply flow_source; [lia|done|]. intros i C Hi HC. destruct (lower_changes _ _ _ _ _ _ Hlow' Hc Hap i C Hi HC) as (? & s' & ? & ? & _). eauto.
    + intros C HC. destruct j as [|i]; [done|]. cbn in HC. destruct (Hlow i C ltac:(lia) HC) as (HokC & cs & Hcs & HctxC & _). exists cs. rewrite Echild.
      destruct (level_vcn _ _ _ HokC). split_and!; try done; [by apply (ctx_vcn _ _ _ HctxC)|by apply (ctx_right _ _ _ HctxC)].
    + intros Hne. destruct j as [|i]; [done|]. cbn. apply lookup_lt_is_Some_2. lia.
    + eapply works_step; [exact E|]. apply works_ret. split_and!; try done. by eapply lower_changes.
Qed.

(** All levels below the top-most node. *)
Lemma loop_tail_done j : ∀ fuel vcn l s cs f t errors,
  (j < length Ls)%nat → (j < fuel)%nat → byte_contents f → l !! S j = Some s → ic_is_locked (sc_ctx s) = true → ins_ok (S j) s →
  lower_ok f l (S j) (sc_insert_ictx s) → sc_split_node cs = true →
  works (loop_tail (work_loop ni fuel false key data data_ofs) vcn (S j) (Some j) (Some cs) l) t errors f
    (λ _ f', byte_contents f' ∧ changes f f' (level_blocks (S j)) ∧ ∀ i L, (i ≤ j)%nat → Ls !! i = Some L → level_done f' i L).
Proof.
  induction j as [j IH] using lt_wf_ind; intros fuel vcn l s cs f t errors Hj Hfuel Hf Hs Hlk Hins' Hlow Hcs. unfold loop_tail. rewrite Hcs. cbn [negb].
  eapply works_step; [by unfold lift; rewrite (rd_Ret l (S j) s)|]. destruct (unlock_done_ok f l (S j) s s) as (l1 & El1 & Hlow1); [lia|done..|].
  eapply works_step; [by unfold lift; rewrite El1|]. clear l s cs El1 Hs Hlk Hins' Hlow Hcs.
  destruct (lookup_lt_is_Some_2 Ls j Hj) as [L HL]. destruct (Hlow1 j L ltac:(lia) HL) as (Hok & s1 & Hs1 & Hctx & Hrl & Hlk1).
  assert (ic_is_locked (sc_ctx s1) = false) as Hl1 by (destruct (ic_is_locked (sc_ctx s1)); [by specialize (Hlk1 eq_refl)|done]).
  pose proof (context_root _ _ _ _ _ _ (ctx_node _ _ _ Hctx)) as Hr1.
  eapply works_step; [by unfold lift; rewrite (rd_Ret l1 j s1)|]. eapply works_try; [by apply lock_halves_ok|]. clear t. intros s2 t f' [-> [lk Es2]].
  assert (ctx_ok j L s2 ∧ ic_is_locked (sc_ctx s2) = true ∧ ic_is_root (sc_ctx s2) = false) as (Hctx2 & Hlk2 & Hr2).
  { rewrite Es2. split_and!; [|done|done]. destruct (ctx_ok_lock _ _ _ true Hctx) as [? ? ? ? ? ? ? ? ? ? ?]. by split. }
  assert (∀ i, j = S i → ∃ C cs, Ls !! i = Some C ∧ l1 !! i = Some cs ∧ ctx_ok i C cs ∧ is_vcn (sl_vcn C) ∧ is_vcn (sl_right C)) as Hbelow.
  { intros i ->. destruct (lookup_lt_is_Some_2 Ls i ltac:(lia)) as [C HC]. destruct (Hlow1 i C ltac:(lia) HC) as (HokC & cs & Hcs & HctxC & _).
    destruct (level_vcn _ _ _ HokC). eauto 10. }
  destruct (split_step f j L l1 s2 vcn t errors) as (f1 & s3 & vcn3 & E3 & Hf1 & Hc1 & Hsplit & Hlk3 & Hr3); [done..|]. rewrite Hlk2 in Hlk3.
  assert (lift (match j with O => Ret None | S i => s ← rd l1 i; Ret (Some (i, s)) end) (mk_world t errors m f) = Ret (below_of l1 j, mk_world t errors m f)) as Eb.
  { destruct j as [|i]; [done|]. destruct (Hbelow i eq_refl) as (C & cs & _ & Hcs & _). cbn. unfold lift. by rewrite (rd_Ret l1 i cs), Hcs. }
  eapply works_step; [exact Eb|]. eapply works_step; [exact E3|]. cbv beta iota. set (l2 := <[j := s3]> l1).
  assert (l2 !! j = Some s3) as Hl2 by (apply list_lookup_insert_eq; by eapply lookup_lt_Some).
  assert (∀ i C v, (i < j)%nat → Ls !! i = Some C → v ∈ [sl_vcn L; sl_right L] → apart (sl_vcn C) v ∧ apart (sl_right C) v) as Hap.
  { intros i C v Hi HC Hv. apply (level_apart i C j L); try done; [lia|]. rewrite !elem_of_cons in Hv. destruct Hv as [->|[->|Hv]]; [by left|by right|by inversion Hv]. }
  assert (lower_ok f1 l2 j None) as Hlow2.
  { apply lower_insert; [|done]. eapply lower_changes; [|done|done]. intros i C Hi HC. apply (Hlow1 i C); [lia|done]. }
  set (child := match j with O => None | S i => Some i end). replace (match child with Some _ => false | None => false end) with false by by destruct child.
  destruct fuel as [|fuel]; [lia|]. rewrite work_loop_tail. eapply works_step; [by unfold lift; rewrite (rd_Ret l2 j s3)|]. rewrite Hlk3. cbn [negb].
  assert (lift (match child with None => Ret None | Some i => s ← rd l2 i; Ret (Some s) end) (mk_world t errors m f1) =
    Ret (match j with O => None | S i => l2 !! i end, mk_world t errors m f1)) as Ec.
  { unfold child. destruct j as [|i]; [done|]. destruct (Hbelow i eq_refl) as (C & cs & _ & Hcs & _). unfold lift.
    assert (l2 !! i = Some cs) as E by (unfold l2; by rewrite list_lookup_insert_ne by lia). by rewrite (rd_Ret l2 i cs), E. }
  eapply works_step; [exact Ec|]. eapply works_try; [eapply level_insertion; try done; by exists f|].
  clear t E3 Eb Ec. intros l3 t f2 (Hf2 & Hc2 & Hdone & Hlow3 & Hs3).
  assert ([sl_vcn L; sl_right L] ⊆ level_blocks (S j)) as Hsub.
  { intros u Hu. apply level_blocks_elem. exists j, L. rewrite !elem_of_cons in Hu. split_and!; [lia|done|]. destruct Hu as [->|[->|Hu]]; [by left|by right|by inversion Hu]. }
  pose proof (changes_mono _ _ _ _ _ (changes_trans _ _ _ _ _ Hc1 Hc2) Hsub) as Hc12.
  destruct j as [|j].
  - apply works_ret. split_and!; try done. intros i L' Hi HL'. assert (i = 0)%nat as -> by lia. rewrite HL in HL'. by injection HL' as <-.
  - destruct (Hbelow j eq_refl) as (C & cs & HC & Hcs & HctxC & _). unfold child.
    assert (l2 !! j = Some cs) as -> by (unfold l2; by rewrite list_lookup_insert_ne by lia).
    pose proof Hsplit as (_ & _ & _ & _ & _ & _ & _ & _ & _ & _ & Hins3 & _).
    eapply works_mono; [apply (IH j ltac:(lia) fuel vcn3 l3 s3 cs f2 t errors); try done; [lia|lia|by apply (ctx_split _ _ _ HctxC)]|].
    intros _ f3 (Hf3 & Hc3 & Hdone3). split; [done|]. split.
    + eapply changes_trans; [exact Hc12|]. eapply changes_mono; [exact Hc3|]. apply level_blocks_mono. lia.
    + intros i L' Hi HL'. destruct (decide (i = S j)) as [->|Hne]; [|apply Hdone3; [lia|done]]. rewrite HL in HL'. injection HL' as <-.
      eapply level_done_changes; [exact Hdone|exact Hc3|]. intros u Hu. apply level_blocks_elem in Hu as (i & L' & Hi' & HL' & Hu).
      eapply (level_apart (S j) L i L'); try done. lia.
Qed.

(** ** The top-most node *)

(** The node at the top with its new entry. *)
Definition top_done (n k : nat) (es : list (list Z)) (fin : list Z) (es' : list (list Z)) (fin' : list Z) : Prop :=
  length fin' = length fin ∧
  e_info <$> es' = take k (e_info <$> es) ++ (in_item (ins n), Z.to_nat (in_size (ins n))) :: drop k (e_info <$> es) ∧
  ∀ C, child_of n = Some C →
    e_vcn <$> es' ++ [fin'] = take k (e_vcn <$> es ++ [fin]) ++ sl_vcn C :: sl_right C :: drop (S k) (e_vcn <$> es ++ [fin]).

Definition child_nr (n : nat) : option nat := match n with O => None | S j => Some j end.
Definition child_context (l : list split_context) (n : nat) : option split_context := match n with O => None | S j => l !! j end.

Lemma child_context_rd f l n lock t errors :
  (n ≤ length Ls)%nat → lower_ok f l n lock →
  lift (match child_nr n with None => Ret None | Some j => s ← rd l j; Ret (Some s) end) (mk_world t errors m f) = Ret (child_context l n, mk_world t errors m f).
Proof.
  clear Hbs Hdata Hins0 Hins Hapart. intros Hn Hlow. destruct n as [|j]; [done|]. destruct (lookup_lt_is_Some_2 Ls j ltac:(lia)) as [C HC]. destruct (Hlow j C ltac:(lia) HC) as (_ & cs & Hcs & _).
  cbn [child_nr child_context]. unfold lift. by rewrite (rd_Ret l j cs), Hcs.
Qed.
Lemma child_context_ok f l n lock C : lower_ok f l n lock → child_of n = Some C → ∃ cs, child_context l n = Some cs ∧
  ic_vcn (sc_ctx cs) = sl_vcn C ∧ sc_right_vcn cs = sl_right C ∧ is_vcn (sl_vcn C) ∧ is_vcn (sl_right C) ∧ sc_split_node cs = true.
Proof.
  clear Hbs Hdata Hins0 Hins Hapart. intros Hlow HC. destruct n as [|j]; [done|]. cbn in HC. destruct (Hlow j C ltac:(lia) HC) as (Hok & cs & Hcs & Hctx & _). exists cs.
  destruct (level_vcn _ _ _ Hok). by destruct Hctx.
Qed.
Lemma child_of_some n : (n ≤ length Ls)%nat → n ≠ 0%nat → ∃ C, child_of n = Some C.
Proof. clear Hbs Hdata Hins0 Hins Hapart. intros Hn H0. destruct n as [|j]; [done|]. cbn. apply lookup_lt_is_Some_2. lia. Qed.

(** The levels below after the node at the top is done. *)
Lemma below_done fuel vcn n l s cs f t errors :
  n = length Ls → (n ≤ fuel)%nat → byte_contents f → l !! n = Some s → ic_is_locked (sc_ctx s) = true → ins_ok n s →
  lower_ok f l n (sc_insert_ictx s) → (∀ c, cs = Some c → sc_split_node c = true) → (n ≠ 0%nat → cs ≠ None) →
  works (loop_tail (work_loop ni fuel false key data data_ofs) vcn n (child_nr n) cs l) t errors f
    (λ _ f', byte_contents f' ∧ changes f f' (level_blocks n) ∧ ∀ i L, Ls !! i = Some L → level_done f' i L).
Proof.
  intros En Hfuel Hf Hs Hlk Hins' Hlow Hcs Hsome. destruct n as [|j].
  - apply works_ret. split_and!; [done|apply changes_refl|]. intros i L HL. apply lookup_lt_Some in HL. lia.
  - destruct cs as [c|]; [|by destruct (Hsome ltac:(done))]. cbn [child_nr].
    eapply works_mono; [apply (loop_tail_done j fuel vcn l s c f t errors); try done; try lia; by apply Hcs|].
    intros _ f' (? & ? & Hd). split_and!; try done. intros i L HL. apply Hd; [|done]. apply lookup_lt_Some in HL. lia.
Qed.

Lemma work_top_block fuel vcn v g flags es fin k n l s f t errors :
  n = length Ls → (n ≤ fuel)%nat → byte_contents f → block_is f v g flags es fin → (k ≤ length es)%nat → node_context (sc_ctx s) v g es k →
  has flags INDEX_NODE = negb (n =? 0)%nat → used g es fin + in_size (ins n) ≤ block_size ni - 24 →
  l !! n = Some s → ic_is_locked (sc_ctx s) = true → sc_promote_inserted s = false → ins_ok n s → lower_ok f l n None →
  (∀ i L, Ls !! i = Some L → apart (sl_vcn L) v ∧ apart (sl_right L) v) →
  works (work_loop ni (S fuel) false key data data_ofs vcn n (child_nr n) l) t errors f
    (λ _ f', byte_contents f' ∧ changes f f' (v :: level_blocks n) ∧ (∀ i L, Ls !! i = Some L → level_done f' i L) ∧
      ∃ es' fin', block_is f' v g flags es' fin' ∧ top_done n k es fin es' fin').
Proof.
  intros En Hfuel Hf Hb Hk Hctx Hfl Hfit Hs Hlk Hpi Hins' Hlow Hap. rewrite work_loop_tail. pose proof (context_root _ _ _ _ _ _ Hctx) as Hr.
  eapply works_step; [by unfold lift; rewrite (rd_Ret l n s)|]. rewrite Hlk. cbn [negb]. eapply works_step; [apply (child_context_rd f l n None); [lia|done]|].
  rewrite Hpi. eapply (works_try _ _ _ _ _ (λ l' f', byte_contents f' ∧ only ni f f' v ∧ lower_ok f' l' n (sc_insert_ictx s) ∧ l' !! n = Some s ∧
    ∃ es' fin', block_is f' v g flags es' fin' ∧ top_done n k es fin es' fin')).
  - eapply works_try; [by apply lock_insert_ok; [lia|..]|]. clear t. intros l' t f' (-> & Hlow' & Hs').
    eapply works_step; [by unfold lift; rewrite (rd_Ret l' n s)|].
    assert (∀ f', only ni f f' v → lower_ok f' l' n (sc_insert_ictx s)) as Hlow2.
    { intros f' Ho. eapply lower_changes; [done|apply (only_changes _ _ _ v); [done|left]|]. intros i L u Hi HL ->%list_elem_of_singleton. by apply (Hap i). }
    destruct (insert_entry_block ni key data data_ofs Hdata f v g flags es fin k l' s (child_context l n) (in_item (ins n)) t errors m)
      as (f' & es' & fin' & E & Hf' & Ho & Hb' & Lf & Hinfo & Hv); try done.
    + destruct Hins' as [-> _]. done.
    + intros f' Ho. replace (if has flags INDEX_NODE then 8 else 0) with (if (n =? 0)%nat then 0 else 8) by (rewrite Hfl; by destruct (n =? 0)%nat).
      apply flow_source; [lia|done|]. intros i L Hi HL. destruct (Hlow2 f' Ho i L Hi HL) as (? & s' & ? & ? & _). eauto.
    + intros Hn. rewrite Hfl in Hn. destruct (child_of_some n ltac:(lia)) as [C HC]; [by intros ->|].
      destruct (child_context_ok _ _ _ _ _ Hlow HC) as (cs & Hcs & E1 & E2 & ? & ? & _). exists cs. by rewrite E1, E2.
    + eapply works_step; [exact E|]. apply works_ret. split_and!; try done; [by apply Hlow2|]. exists es', fin'. split; [done|]. split; [done|].
      destruct Hins' as [Hsz _]. rewrite Hsz in Hinfo. split; [done|]. intros C HC. destruct (child_context_ok _ _ _ _ _ Hlow HC) as (cs & Hcs & E1 & E2 & _).
      rewrite (Hv cs), E1, E2; [done| |done]. rewrite Hfl. by destruct n.
  - clear t. intros l' t f1 (Hf1 & Ho & Hlow' & Hs' & es' & fin' & Hb' & Htop).
    eapply works_mono; [apply (below_done fuel vcn n l' s); try done|].
    + intros c Hc. destruct n as [|j]; [done|]. destruct (child_of_some (S j) ltac:(lia) ltac:(done)) as [C HC].
      destruct (child_context_ok _ _ _ _ _ Hlow HC) as (cs & Hcs & _ & _ & _ & _ & ?). congruence.
    + intros H0 Hc. destruct (child_of_some n ltac:(lia) H0) as [C HC]. destruct (child_context_ok _ _ _ _ _ Hlow HC) as (cs & Hcs & _). congruence.
    + intros _ f2 (Hf2 & Hc2 & Hdone). split_and!; try done.
      * eapply changes_trans; [apply (only_changes _ _ _ v); [done|left]|]. eapply changes_mono; [exact Hc2|]. by intros u Hu; right.
      * exists es', fin'. split; [|done]. eapply block_is_changes; [lia|exact Hc2| |done]. intros u (i & L & _ & HL & Hu)%level_blocks_elem.
        destruct (Hap i L HL). destruct Hu as [->| ->]; by apply apart_sym.
Qed.
End grow.

(** ** The root as the top-most node *)

Section grow_root.
Context {env : IndexEnv} (ni : index_inode).
Hypothesis (Hbs : 64 ≤ block_size ni < 2 ^ 16).
Context (key data : list Z) (data_ofs : Z).
Hypothesis (Hdata : is_view ni = false → length data = 8%nat).
Context (Ls : list split_level) (ins : nat → insertion).
Hypothesis (Hins0 : in_item (ins 0) = (key, data) ∧ in_src (ins 0) = None ∧ entry_fits (is_view ni) data_ofs (in_size (ins 0)) key data ∧ in_size (ins 0) + 8 < 2 ^ 16).
Hypothesis (Hins : ∀ j L, Ls !! j = Some L → ins (S j) = promoted ni j L (ins j)).
Hypothesis (Hapart : ∀ i j L L', Ls !! i = Some L → Ls !! j = Some L' →
  apart ni (sl_vcn L) (sl_right L') ∧ (i ≠ j → apart ni (sl_vcn L) (sl_vcn L') ∧ apart ni (sl_right L) (sl_right L'))).

Lemma work_top_root fuel vcn x flags es fin k n l s f t errors :
  n = length Ls → (n ≤ fuel)%nat → byte_contents f → root_is ni x flags es fin → (k ≤ length es)%nat → root_context (sc_ctx s) x es k →
  has flags INDEX_NODE = negb (n =? 0)%nat → in_size (ins n) ≤ Z.of_nat (length (rt_spare x)) → in_size (ins n) mod 8 = 0 →
  l !! n = Some s → ic_is_locked (sc_ctx s) = true → sc_promote_inserted s = false → ins_ok Ls ins n s → lower_ok ni Ls ins f l n (sc_insert_ictx s) →
  (∀ j sj, sc_insert_ictx s = Some j → l !! j = Some sj → ic_is_locked (sc_ctx sj) = true) →
  let x' := rt_grow x (in_size (ins n)) (Z.of_nat (16 + length (rt_gap x) + length (concat (es ++ [fin])))) in
  ∃ es' fin', root_is ni x' flags es' fin' ∧ top_done ni Ls ins n k es fin es' fin' ∧
  ∃ r t' errors' f', work_loop ni (S fuel) false key data data_ofs vcn n (child_nr n) l (mk_world t errors (rt_bytes x es fin) f) =
      Ret (r, mk_world t' errors' (rt_bytes x' es' fin') f') ∧
    match r with
    | inl err => env_err err ∧ errors' = true
    | inr _ => errors' = errors ∧ byte_contents f' ∧ changes ni f f' (level_blocks Ls n) ∧ ∀ i L, Ls !! i = Some L → level_done ni Ls ins f' i L
    end.
Proof.
  intros En Hfuel Hf Hx Hk Hctx Hfl Hfit H8 Hs Hlk Hpi Hins' Hlow Hsrc x'. pose proof (rcontext_root _ _ _ _ Hctx) as Hr. pose proof Hins' as (Hsz & Hsr & Hadd & _).
  destruct (insert_entry_root ni key data data_ofs x flags es fin k l s (child_context l n) (in_item (ins n)) t errors f)
    as (es' & fin' & E & Hx' & Lf & Hinfo & Hv); try done; try (by rewrite Hsz).
  - replace (if has flags INDEX_NODE then 8 else 0) with (if (n =? 0)%nat then 0 else 8) by (rewrite Hfl; by destruct (n =? 0)%nat).
    eapply flow_source; try done; [lia|]. intros i L Hi HL. destruct (Hlow i L Hi HL) as (? & s' & ? & ? & _). eauto.
  - intros Hn. rewrite Hfl in Hn. destruct (child_of_some Ls n ltac:(lia)) as [C HC]; [by intros ->|].
    destruct (child_context_ok _ _ _ _ _ _ _ _ Hlow HC) as (cs & Hcs & E1 & E2 & ? & ? & _). exists cs. by rewrite E1, E2.
  - rewrite Hsz in *. fold x' in E, Hx'. exists es', fin'. split; [done|]. split.
    { split; [done|]. split; [done|]. intros C HC. destruct (child_context_ok _ _ _ _ _ _ _ _ Hlow HC) as (cs & Hcs & E1 & E2 & _).
      rewrite (Hv cs), E1, E2; [done| |done]. rewrite Hfl. by destruct n. }
    destruct (below_done ni (rt_bytes x' es' fin') Hbs key data data_ofs Hdata Ls ins Hins0 Hins Hapart fuel vcn n l s (child_context l n) f t errors)
      as (r & t' & errors' & f' & Eb & Hr'); try done.
    { intros c Hc. destruct n as [|j]; [done|]. destruct (child_of_some Ls (S j) ltac:(lia) ltac:(done)) as [C HC].
      destruct (child_context_ok _ _ _ _ _ _ _ _ Hlow HC) as (cs & Hcs & _ & _ & _ & _ & ?). congruence. }
    { intros H0 Hc. destruct (child_of_some Ls n ltac:(lia) H0) as [C HC]. destruct (child_context_ok _ _ _ _ _ _ _ _ Hlow HC) as (cs & Hcs & _). congruence. }
    exists r, t', errors', f'. split; [|done]. rewrite work_loop_tail.
    erewrite io_step by (by unfold lift; rewrite (rd_Ret l n s)). rewrite Hlk. cbn [negb].
    erewrite io_step by (eapply child_context_rd; [|done]; lia). rewrite Hpi. unfold try at 1.
    rewrite (io_step _ _ _ (inr l) (mk_world t errors (rt_bytes x' es' fin') f)); [exact Eb|]. unfold try.
    assert (lock_insert_ictx ni l n s (mk_world t errors (rt_bytes x es fin) f) = Ret (inr l, mk_world t errors (rt_bytes x es fin) f)) as El.
    { unfold lock_insert_ictx. rewrite Hadd, Hsr. destruct (in_src (ins n)) as [j|] eqn:Ej; [rewrite bool_decide_eq_false_2 by done|done].
      pose proof (flow_inv ni key data data_ofs Hdata Ls ins Hins0 Hins n ltac:(lia)) as Hflow. rewrite Ej in Hflow. destruct Hflow as (Hj & L & HL & _).
      destruct (Hlow j L Hj HL) as (_ & sj & Hsj & _). cbn [from_option]. unfold mbind, io_bind, lift. cbn [mbind outcome_bind]. rewrite (rd_Ret l j sj) by done. cbn [mbind outcome_bind].
      by rewrite Hr, (Hsrc j sj Hsr Hsj). }
    erewrite io_step by exact El. cbv beta iota. erewrite io_step by (by unfold lift; rewrite (rd_Ret l n s)). by erewrite io_step by exact E.
Qed.
End grow_root.
