(* ===== verification/IndexInsert.v ===== *)
(** * The index tree after an insertion with splits

    The trees of the index ([IndexTree]) in terms of the blocks of [IndexBlock], and what the splits of
    a path ([IndexGrow]) make of the tree. *)

From Stdlib Require Import Sorted.
From S2P Require Import Prelude Bytes Unistr Collate PageCache Mst MftRecord AttrFind IndexNode IndexLookup IndexTree IndexModify IndexUpdate IndexEntry IndexSplit IndexBlock IndexGrow.

(** ** Lists of entries and of children *)

Lemma interleave_fmap {A B} (f : A → B) (es : list A) (ls : list (list A)) :
  fmap (M:=list) f (interleave es ls) = interleave (fmap (M:=list) f es) (fmap (M:=list) (fmap (M:=list) f) ls).
Proof.
  revert ls. induction es as [|e es IH]; intros ls; cbn [interleave fmap list_fmap]; [by destruct ls|]. rewrite fmap_app. cbn. rewrite IH. by destruct ls.
Qed.
Lemma before_fmap {A B} (f : A → B) k (es : list A) (ls : list (list A)) :
  fmap (M:=list) f (before k es ls) = before k (fmap (M:=list) f es) (fmap (M:=list) (fmap (M:=list) f) ls).
Proof. revert es ls. induction k as [|k IH]; intros [|e es] ls; cbn; try done. rewrite fmap_app. cbn. rewrite IH. by destruct ls. Qed.
Lemma after_fmap {A B} (f : A → B) k (es : list A) (ls : list (list A)) :
  fmap (M:=list) f (after k es ls) = after k (fmap (M:=list) f es) (fmap (M:=list) (fmap (M:=list) f) ls).
Proof.
  revert es ls. induction k as [|k IH]; intros [|e es] ls; cbn; try done.
  - rewrite interleave_fmap. by destruct ls.
  - rewrite IH. by destruct ls.
Qed.

Lemma interleave_cut {A} (el : list A) z er K :
  length K = (length el + length er + 2)%nat →
  interleave el (take (S (length el)) K) ++ z :: interleave er (drop (S (length el)) K) = interleave (el ++ z :: er) K.
Proof.
  revert K. induction el as [|e el IH]; intros [|a K] H; cbn [length] in H; try lia.
  - cbn. done.
  - change (take (S (length (e :: el))) (a :: K)) with (a :: take (S (length el)) K). cbn [interleave hd tl app length]. rewrite <- (assoc_L (++)). cbn [app].
    change (drop (S (S (length el))) (a :: K)) with (drop (S (length el)) K). rewrite IH by lia. done.
Qed.

Lemma interleave_grow {A} (xs : list A) ks k x a b :
  (k ≤ length xs)%nat → length ks = S (length xs) →
  interleave (take k xs ++ x :: drop k xs) (take k ks ++ a :: b :: drop (S k) ks) = before k xs ks ++ a ++ x :: b ++ after k xs ks.
Proof.
  revert xs ks. induction k as [|k IH]; intros [|y xs] [|c ks] H1 H2; cbn [length] in *; try lia.
  - destruct ks; [|done]. cbn. by rewrite app_nil_r.
  - cbn. done.
  - cbn [take drop app interleave hd tl before after]. rewrite (IH xs ks) by lia. by rewrite <- (assoc_L (++)).
Qed.

(** The blocks of the children, by their VCNs. *)
Definition kb (vs : list Z) (kids : list btree) : list Z := concat (zip_with (λ v kid, blocks kid v) vs kids).

Lemma kid_blocks_kb es kids : kid_blocks es kids = kb (e_vcn <$> es) kids.
Proof. revert es. induction kids as [|kid kids IH]; intros [|e es]; cbn; try done. by rewrite IH. Qed.
Lemma kb_app vs1 vs2 kids1 kids2 : length vs1 = length kids1 → kb (vs1 ++ vs2) (kids1 ++ kids2) = kb vs1 kids1 ++ kb vs2 kids2.
Proof. intros H. unfold kb. by rewrite zip_with_app, concat_app. Qed.
Lemma kb_cons v vs kid kids : kb (v :: vs) (kid :: kids) = blocks kid v ++ kb vs kids.
Proof. done. Qed.

Section insert.
Context {env : IndexEnv} (ni : index_inode) (max_entries : Z).
Hypothesis (Hbs : 64 ≤ block_size ni < 2 ^ 16).
Abbreviation block_is := (block_is ni).
Abbreviation block_page := (block_page ni).
Abbreviation block_ofs := (block_ofs ni).
Abbreviation block_pos := (block_pos ni).
Abbreviation apart := (apart ni).
Abbreviation changes := (changes ni).
Abbreviation e_info := (e_info ni).
Abbreviation block_header := (block_header ni).
Abbreviation used g es fin := (Z.of_nat (16 + g + length (concat (es ++ [fin])))).

(** ** Trees of blocks *)

(** The sizes of entries, without the VCN of the child, are between [lo] and [hi]; [G] bounds the
    bytes between header and entries, and [F] the end entries. *)
Context (lo hi : Z) (G F : nat).

Definition tail_size (flags : Z) : Z := if has flags INDEX_NODE then 8 else 0.
Definition size_ok (flags size : Z) : Prop := lo + tail_size flags ≤ size ≤ hi + tail_size flags ∧ size mod 8 = 0.
Definition sizes_ok (flags : Z) (es : list (list Z)) (fin : list Z) : Prop :=
  Forall (λ e, size_ok flags (Z.of_nat (length e))) es ∧ (length fin ≤ F)%nat.

Record full_node (f : contents) (v : Z) (g : nat) (flags : Z) (es : list (list Z)) (fin : list Z) (kids : list btree) : Prop := {
  full_vcn : is_vcn v;
  full_header : block_header f v;
  full_block : block_is f v g flags es fin;
  full_gap : (g ≤ G)%nat;
  full_flags : has flags INDEX_NODE = bool_decide (kids ≠ []);
  full_kids : kids = [] ∨ length kids = S (length es);
  full_leaf : kids = [] → es ≠ [];
  full_sizes : sizes_ok flags es fin
}.

Inductive full_tree (f : contents) : btree → Z → Prop :=
| full_tree_node es fin kids v g flags :
    full_node f v g flags es fin kids →
    (∀ k e kid, (es ++ [fin]) !! k = Some e → kids !! k = Some kid → full_tree f kid (e_vcn e)) →
    full_tree f (Node es fin kids) v.

(** The number of entries that the context arrays have room for is enough. *)
Hypothesis (Hlo : 0 < lo) (Hmax : 1 + (block_size ni - 56) / lo ≤ max_entries).

Lemma entries_length_ge (n : nat) (es : list (list Z)) : Forall (λ e, n ≤ length e)%nat es → (n * length es ≤ length (concat es))%nat.
Proof. induction 1; cbn; [lia|]. rewrite length_app. lia. Qed.
Lemma entries_length_le (n : nat) (es : list (list Z)) : Forall (λ e, length e ≤ n)%nat es → (length (concat es) ≤ n * length es)%nat.
Proof. induction 1; cbn; [lia|]. rewrite length_app. lia. Qed.

Lemma tail_size_range flags : 0 ≤ tail_size flags ≤ 8.
Proof. unfold tail_size. destruct (has flags INDEX_NODE); lia. Qed.

Lemma size_nat flags size : size_ok flags size → size_ok flags (Z.of_nat (Z.to_nat size)).
Proof. intros H. pose proof (tail_size_range flags). rewrite Z2Nat.id; [done|]. destruct H. lia. Qed.

Lemma entries_count f v g flags es fin :
  block_is f v g flags es fin → Forall (λ e, lo ≤ Z.of_nat (length e)) es → Z.of_nat (length es + 1) ≤ max_entries.
Proof.
  intros Hb Hs. destruct (block_is_entries ni _ _ _ _ _ _ Hb) as [Hwf Hu]. pose proof (entry_header _ (proj1 (wf_fin _ _ _ _ Hwf))) as Hf.
  pose proof (entries_length_ge (Z.to_nat lo) es) as Hc. rewrite concat_app, length_app in Hu. cbn [concat] in Hu. rewrite app_nil_r in Hu.
  assert (Z.of_nat (length es) ≤ (block_size ni - 56) / lo); [|lia]. apply Z.div_le_lower_bound; [lia|].
  assert (Forall (λ e, Z.to_nat lo ≤ length e)%nat es) as Hs' by (eapply list.Forall_impl; [exact Hs|]; intros e He; cbn in *; lia). specialize (Hc Hs'). nia.
Qed.

Lemma block_stored f v g flags es fin kids :
  byte_contents f → block_header f v → block_is f v g flags es fin → has flags INDEX_NODE = bool_decide (kids ≠ []) →
  (kids = [] ∨ length kids = S (length es)) → Z.of_nat (length es + 1) ≤ max_entries →
  check_index_block ni (page_bytes f (block_page v)) (block_ofs v) v = Ret true ∧
  ∃ n, stored_node ni max_entries (page_bytes f (block_page v)) (Z.to_nat (block_ofs v) + ia_index) n (Node es fin kids).
Proof.
  intros Hf [Hm Hv] Hb Hfl Hk Hcount. destruct (block_is_entries ni _ _ _ _ _ _ Hb) as [Hwf Hu].
  destruct Hb as (_ & h & gap & r & Hg & Hh & [Hlen (p & q & Hpage & Hp)]). unfold index_at in Hp.
  assert (∀ k, (k + 4 ≤ 16)%nat → le32_at (page_bytes f (block_page v)) (Z.to_nat (block_ofs v) + ia_index + k) = Ret (get32 h k)) as H32.
  { intros k Hk'. rewrite Hpage, <- Hp, <- !(assoc_L (++)). apply le32_part. rewrite (head_length _ _ _ _ _ Hh). lia. }
  split.
  - apply check_index_block_iff; [lia|]. split; try done.
    + destruct (block_place ni v) as [_ Ho]. pose proof (length_page_bytes f (block_page v)) as L. rewrite Hpage, length_app, length_app in L. unfold ia_index in Hp. lia.
    + rewrite H32 by in_entry. f_equal. apply (head_allocated _ _ _ _ _ Hh).
    + eexists. split; [apply H32; in_entry|]. rewrite (head_index_length _ _ _ _ _ Hh). lia.
  - exists (mk_node p h gap es fin (r ++ q)). split; try done.
    + rewrite Hpage. unfold node_bytes, node_all. cbn [n_pre n_head n_gap n_entries n_end n_rest]. by rewrite <- !(assoc_L (++)).
    + split; cbn [n_pre n_head n_gap n_entries n_end n_rest].
      * pose proof (bytes_page f (block_page v) Hf) as B. rewrite Hpage in B. unfold node_bytes, node_all. cbn [n_pre n_head n_gap n_entries n_end n_rest].
        by rewrite <- !(assoc_L (++)) in *.
      * apply (head_length _ _ _ _ _ Hh).
      * rewrite (head_offset _ _ _ _ _ Hh). lia.
      * rewrite (head_index_length _ _ _ _ _ Hh). unfold node_all. cbn [n_entries n_end]. lia.
      * eapply list.Forall_impl; [apply (wf_entries _ _ _ _ Hwf)|]. intros e He. pose proof He as [? ? _ _]. split_and!; try done. by apply entry_wf_data.
      * destruct (wf_fin _ _ _ _ Hwf) as (? & ? & _). done.
    + unfold node_all. cbn [n_entries n_end]. rewrite length_app. cbn [length]. lia.
    + cbn [n_entries n_end n_head]. split_and!; try done.
      * by rewrite (head_flags _ _ _ _ _ Hh).
      * eapply list.Forall_impl; [apply (wf_nodes _ _ _ _ Hwf)|]. intros e He. cbn in He. by rewrite He.
Qed.

Lemma full_stored f t v : byte_contents f → full_tree f t v → stored_block ni max_entries f t v.
Proof.
  intros Hf. induction 1 as [es fin kids v g flags [[Hv _] Hh Hb Hg Hfl Hk Hl [Hs _]] _ IH]. destruct (block_stored f v g flags es fin kids) as [Hc Hn]; try done.
  { eapply entries_count; [done|]. eapply list.Forall_impl; [exact Hs|]. intros e [He _]. cbn in He. pose proof (tail_size_range flags). lia. }
  by apply stored_block_intro.
Qed.

(** ** What is left unchanged *)

Lemma page_ext f f' pg i : f' (pg + Z.of_nat i) = f (pg + Z.of_nat i) → page_bytes f' pg !! i = page_bytes f pg !! i.
Proof. intros H. unfold page_bytes. rewrite !list_lookup_fmap. destruct (seq 0 (Z.to_nat PAGE_SIZE) !! i) as [x|] eqn:E; [|done]. apply lookup_seq in E as [-> _]. cbn. by rewrite H. Qed.

Lemma header_frame f f' v : block_header f v → (∀ i, block_pos v ≤ i < block_pos v + 24 → f' i = f i) → block_header f' v.
Proof.
  intros [Hm (x & Hx & Ex)] H. destruct (block_place ni v) as [E Ho].
  assert (∀ k, (k < 24)%nat → page_bytes f' (block_page v) !! (Z.to_nat (block_ofs v) + k)%nat = page_bytes f (block_page v) !! (Z.to_nat (block_ofs v) + k)%nat) as Hp.
  { intros k Hk. apply page_ext, H. lia. }
  split; [|exists x; split; [|done]].
  - rewrite <- Hm. apply le32_at_ext. intros j Hj. rewrite <- Nat.add_assoc. apply Hp. unfold ia_magic. lia.
  - rewrite <- Hx. apply le64_at_ext. intros j Hj. rewrite <- Nat.add_assoc. apply Hp. unfold ia_index_block_vcn. lia.
Qed.
Lemma header_changes f f' v vs : block_header f v → changes f f' vs → (∀ w, w ∈ vs → w = v ∨ apart v w) → block_header f' v.
Proof.
  intros Hh Hc Ha. apply (header_frame f); [done|]. intros i Hi. apply Hc. intros w Hw Hi'. destruct (Ha w Hw) as [->|Haw]; [lia|]. apply (Haw i); lia.
Qed.

Lemma header_outside f f' v vs : block_header f v → outside ni f f' vs → (∀ w, w ∈ vs → apart v w) → block_header f' v.
Proof. intros Hh Hc Ha. apply (header_frame f); [done|]. intros i Hi. apply Hc. intros w Hw Hi'. apply (Ha w Hw i); lia. Qed.

Lemma full_node_frame f f' v g flags es fin kids vs :
  full_node f v g flags es fin kids → outside ni f f' vs → (∀ w, w ∈ vs → apart v w) → full_node f' v g flags es fin kids.
Proof.
  intros [Hv Hh Hb Hg Hfl Hk Hl Hs] Hc Ha. split; try done; [by eapply header_outside|]. eapply block_is_outside; [lia|exact Hc|done|done].
Qed.

Lemma full_tree_frame f f' t v vs :
  full_tree f t v → outside ni f f' vs → (∀ u w, u ∈ blocks t v → w ∈ vs → apart u w) → full_tree f' t v.
Proof.
  intros Ht Hc. induction Ht as [es fin kids v g flags Hn _ IH]. intros Ha.
  assert (v ∈ blocks (Node es fin kids) v) as Hin by (rewrite blocks_node; left). econstructor; [eapply full_node_frame; [done|done|]; intros w Hw; by apply Ha|].
  intros k e kid He Hkid. apply (IH k e kid He Hkid). intros u w Hu. apply Ha. rewrite blocks_node. right. by eapply kid_blocks_elem.
Qed.

(** ** The two trees of a level *)

Definition items (t : btree) : list (list Z * list Z) := e_item ni <$> inorder t.

(** A node of the path: its block, its entries and children, and the number of the entry of the
    path.  The last node of the path is the root, which is not in a block. *)
Record path_level := mk_plevel {
  pl_vcn : Z;
  pl_gap : nat;
  pl_flags : Z;
  pl_es : list (list Z);
  pl_fin : list Z;
  pl_nr : nat;
  pl_kids : list btree
}.
Definition pl_tree (P : path_level) : btree := Node (pl_es P) (pl_fin P) (pl_kids P).
Definition pl_vcns (P : path_level) : list Z := e_vcn <$> pl_es P ++ [pl_fin P].
Definition plan_level (P : path_level) (right : Z) (rgap promote : nat) (inserted : bool) : split_level :=
  mk_slevel (pl_vcn P) right (pl_gap P) rgap (pl_flags P) (pl_es P) (pl_fin P) (pl_nr P) promote inserted.

Section levels.
Context (Ps : list path_level) (Ls : list split_level) (ins : nat → insertion) (f f' : contents) (vs : list Z).

(** The items of a level before and behind the position of the path. *)
Fixpoint cut (j : nat) : list (list Z * list Z) * list (list Z * list Z) :=
  match Ps !! j with
  | None => ([], [])
  | Some P =>
      let its := e_item ni <$> pl_es P in
      match j with
      | O => (take (pl_nr P) its, drop (pl_nr P) its)
      | S i => (before (pl_nr P) its (items <$> pl_kids P) ++ (cut i).1, (cut i).2 ++ after (pl_nr P) its (items <$> pl_kids P))
      end
  end.

Record path_ok (j : nat) (P : path_level) : Prop := {
  po_shape : pl_kids P = [] ∨ length (pl_kids P) = S (length (pl_es P));
  po_kids : ∀ k e kid, (pl_es P ++ [pl_fin P]) !! k = Some e → pl_kids P !! k = Some kid → full_tree f kid (e_vcn e);
  po_leaf : pl_kids P = [] ↔ j = 0%nat;
  po_nr : (pl_nr P ≤ length (pl_es P))%nat;
  po_link : ∀ i C, j = S i → Ps !! i = Some C → pl_kids P !! pl_nr P = Some (pl_tree C) ∧ pl_vcns P !! pl_nr P = Some (pl_vcn C)
}.
(** The children beside the path are not changed. *)
Definition others (P : path_level) : Prop :=
  ∀ k u kid, k ≠ pl_nr P → pl_vcns P !! k = Some u → pl_kids P !! k = Some kid → ∀ w x, w ∈ blocks kid u → x ∈ vs → apart w x.

Record tree_level (j : nat) (P : path_level) (L : split_level) : Prop := {
  tl_same : L = plan_level P (sl_right L) (sl_rgap L) (sl_promote L) (sl_inserted L);
  tl_right : is_vcn (sl_right L) ∧ (sl_rgap L ≤ G)%nat;
  tl_headers : block_header f' (sl_vcn L) ∧ block_header f' (sl_right L);
  tl_size : size_ok (sl_flags L) (in_size (ins j))
}.
Hypothesis (Hpath : ∀ j P, Ps !! j = Some P → path_ok j P ∧ others P).
Hypothesis (Hnodes : ∀ j P, Ps !! j = Some P → (S j < length Ps)%nat → full_node f (pl_vcn P) (pl_gap P) (pl_flags P) (pl_es P) (pl_fin P) (pl_kids P)).
Hypothesis (Hlevels : ∀ j L, Ls !! j = Some L → (S j < length Ps)%nat ∧ ∃ P, Ps !! j = Some P ∧ tree_level j P L) (Hchanges : changes f f' vs).

Lemma sizes_info flags es fin : sizes_ok flags es fin ↔ Forall (λ i, size_ok flags (Z.of_nat i.2)) (e_info <$> es) ∧ (length fin ≤ F)%nat.
Proof. unfold sizes_ok. by rewrite Forall_fmap. Qed.

(** The halves are nodes. *)
Lemma halves_full j L el fl er fr z K :
  Ls !! j = Some L → block_is f' (sl_vcn L) (sl_gap L) (sl_flags L) el fl → block_is f' (sl_right L) (sl_rgap L) (sl_flags L) er fr →
  length fl = length (sl_fin L) → length fr = length (sl_fin L) → (j = 0%nat → el ≠ [] ∧ er ≠ []) →
  (e_info <$> el) ++ z :: (e_info <$> er) =
    take (sl_nr L) (e_info <$> sl_es L) ++ (in_item (ins j), Z.to_nat (in_size (ins j))) :: drop (sl_nr L) (e_info <$> sl_es L) →
  (if (j =? 0)%nat then K = [] else length K = (length el + length er + 2)%nat) →
  full_node f' (sl_vcn L) (sl_gap L) (sl_flags L) el fl (take (S (length el)) K) ∧
  full_node f' (sl_right L) (sl_rgap L) (sl_flags L) er fr (drop (S (length el)) K).
Proof.
  intros HL Hl Hr Lf Lr Hne Hinfo HK. destruct (Hlevels j L HL) as (Hj & P & HP & [EL [Hv2 Hg2] [Hh1 Hh2] Hsz]).
  destruct (Hnodes j P HP Hj) as [Hv _ _ Hg Hfl Hk _ Hs]. destruct (Hpath j P HP) as [[_ _ Hleaf _ _] _]. rewrite EL in Hl, Hr, Lf, Lr, Hinfo, Hh1, Hsz |- *. cbn in Hl, Hr, Lf, Lr, Hinfo, Hh1, Hsz |- *.
  apply sizes_info in Hs as [Hs HF]. pose proof (tail_size_range (pl_flags P)).
  assert (Forall (λ i, size_ok (pl_flags P) (Z.of_nat i.2)) ((e_info <$> el) ++ z :: (e_info <$> er))) as Hs'.
  { rewrite Hinfo. apply list.Forall_app. split; [by apply list.Forall_take|]. constructor; [by apply size_nat|by apply list.Forall_drop]. }
  apply list.Forall_app in Hs' as [Hs1 Hs2]. apply list.Forall_cons in Hs2 as [_ Hs2].
  assert (bool_decide (pl_kids P ≠ []) = negb (j =? 0)%nat) as Ej.
  { destruct (Nat.eqb_spec j 0) as [E|E]; cbn; [apply bool_decide_eq_false_2|apply bool_decide_eq_true_2]; rewrite Hleaf; tauto. }
  rewrite Ej in Hfl. destruct (Nat.eqb_spec j 0) as [E|E]; cbn [negb] in Hfl.
  - destruct (Hne E) as [Hn1 Hn2]. rewrite HK, take_nil, drop_nil. split; split; try done; auto; apply sizes_info; (split; [done|lia]).
  - split; split; try done; try (apply sizes_info; split; [done|lia]).
    + rewrite Hfl. symmetry. apply bool_decide_eq_true_2. by destruct K; [cbn in HK; lia|].
    + right. rewrite length_take. lia.
    + by destruct K; [cbn in HK; lia|].
    + rewrite Hfl. symmetry. apply bool_decide_eq_true_2. apply length_nonempty. rewrite length_drop. lia.
    + right. rewrite length_drop. lia.
    + intros E0. apply (f_equal length) in E0. rewrite length_drop in E0. cbn in E0. lia.
Qed.

Lemma other_child j P i u kid : Ps !! j = Some P → i ≠ pl_nr P → pl_vcns P !! i = Some u → pl_kids P !! i = Some kid → full_tree f' kid u.
Proof.
  intros HP Hi Hu Hkid. destruct (Hpath _ P HP) as [[_ Hkids _ _ _] Hothers]. pose proof Hu as Hu'. unfold pl_vcns in Hu'. rewrite list_lookup_fmap in Hu'.
  destruct ((pl_es P ++ [pl_fin P]) !! i) as [e|] eqn:He; [|done]. injection Hu' as <-.
  eapply full_tree_frame; [by eapply Hkids|by apply changes_outside|]. intros w x Hw Hx. by eapply Hothers.
Qed.

Definition grown (V : list Z) (K : list btree) : Prop := ∀ k u kid, V !! k = Some u → K !! k = Some kid → full_tree f' kid u.

Lemma lookup_grow {A} (l : list A) k x y m z :
  (k < length l)%nat → (take k l ++ x :: y :: drop (S k) l) !! m = Some z →
  (m < k)%nat ∧ l !! m = Some z ∨ m = k ∧ z = x ∨ m = S k ∧ z = y ∨ (S k < m)%nat ∧ l !! (m - 1)%nat = Some z.
Proof.
  intros Hk. destruct (decide (m < k)%nat) as [Hm|Hm].
  - rewrite lookup_app_l by (rewrite length_take; lia). rewrite lookup_take_lt by done. auto.
  - rewrite lookup_app_r by (rewrite length_take; lia). rewrite length_take, Nat.min_l by lia.
    destruct (m - k)%nat as [|[|n]] eqn:E; cbn; [intros [= ->]; right; left; split; [lia|done]|intros [= ->]; right; right; left; split; [lia|done]|].
    intros H. change (drop (S k) l !! n = Some z) in H. rewrite lookup_drop in H. right. right. right. split; [lia|]. rewrite <- H. f_equal. lia.
Qed.

Lemma grown_children j P C v rv a b :
  Ps !! S j = Some P → Ps !! j = Some C → full_tree f' a v → full_tree f' b rv →
  let k := pl_nr P in grown (take k (pl_vcns P) ++ v :: rv :: drop (S k) (pl_vcns P)) (take k (pl_kids P) ++ a :: b :: drop (S k) (pl_kids P)).
Proof.
  intros HP HC Htl Htr k m u kid Hu Hkid. destruct (Hpath _ P HP) as [[Hnode Hkids Hleaf Hnr Hlink] Hothers].
  destruct (Hlink j C eq_refl HC) as [Hk1 Hk2].
  apply lookup_grow in Hu; [|by eapply lookup_lt_Some]. apply lookup_grow in Hkid; [|by eapply lookup_lt_Some].
  assert (∀ i, i ≠ k → pl_vcns P !! i = Some u → pl_kids P !! i = Some kid → full_tree f' kid u) as Hframe by (intros i Hi Hu' Hkid'; by apply (other_child (S j) P i)).
  destruct Hu as [[H1 Hu]|[[H1 ->]|[[H1 ->]|[H1 Hu]]]], Hkid as [[H2 Hkid]|[[H2 ->]|[[H2 ->]|[H2 Hkid]]]]; try lia; try done.
  - apply (Hframe m); [lia|done|done].
  - apply (Hframe (m - 1)%nat); [lia|done|done].
Qed.

Hypothesis (Hdone : ∀ j L, Ls !! j = Some L → level_done ni Ls ins f' j L).
Definition rights (n : nat) : list Z := sl_right <$> take n Ls.

Lemma rights_S j L : Ls !! j = Some L → rights (S j) = rights j ++ [sl_right L].
Proof. intros H. unfold rights. by rewrite (take_S_r _ _ _ H), fmap_app. Qed.

(** The blocks of the halves of an inner level. *)
Lemma halves_blocks el fl er fr K V v rv :
  length K = (length el + length er + 2)%nat → (e_vcn <$> el ++ [fl]) ++ (e_vcn <$> er ++ [fr]) = V →
  blocks (Node el fl (take (S (length el)) K)) v ++ blocks (Node er fr (drop (S (length el)) K)) rv ≡ₚ v :: rv :: kb V K.
Proof.
  intros HK HV. rewrite !blocks_node, !kid_blocks_kb. cbn [app]. apply perm_skip. rewrite <- Permutation_middle. apply perm_skip.
  rewrite <- HV. rewrite <- (take_drop (S (length el)) K) at 3. rewrite kb_app; [done|]. rewrite length_fmap, length_app, length_take. cbn [length]. lia.
Qed.

Lemma fst_infos (es : list (list Z)) : fst <$> (e_info <$> es) = e_item ni <$> es.
Proof. by rewrite <- list_fmap_compose. Qed.

Lemma tree_grow j : ∀ L, Ls !! j = Some L → ∃ tl tr, full_tree f' tl (sl_vcn L) ∧ full_tree f' tr (sl_right L) ∧
  items tl ++ in_item (ins (S j)) :: items tr = (cut j).1 ++ in_item (ins 0) :: (cut j).2 ∧
  blocks tl (sl_vcn L) ++ blocks tr (sl_right L) ≡ₚ blocks (Node (sl_es L) (sl_fin L) (from_option pl_kids [] (Ps !! j))) (sl_vcn L) ++ rights (S j).
Proof.
  induction j as [|j IH]; intros L HL; destruct (Hdone _ L HL) as (el & fl & er & fr & z & Hl & Hr & Lf & Lr & Hne & Hz & Hinfo & Hvcns).
  - destruct (halves_full 0 L el fl er fr z []) as [Hf1 Hf2]; try done. cbn [take drop] in *.
    exists (Node el fl []), (Node er fr []). split_and!.
    + by econstructor.
    + by econstructor.
    + unfold items. cbn [inorder fmap list_fmap]. rewrite !interleave_leaf. cbn [cut]. destruct (Hlevels _ _ HL) as (_ & P & HP & [EL _ _ _]). rewrite HP.
      replace (pl_es P) with (sl_es L) by (by rewrite EL). replace (pl_nr P) with (sl_nr L) by (by rewrite EL). cbn [fst snd]. rewrite <- !fst_infos, <- Hz.
      rewrite <- fmap_cons, <- fmap_app, Hinfo, fmap_app, fmap_cons, fmap_take, fmap_drop. done.
    + rewrite (rights_S _ _ HL). destruct (Hlevels _ _ HL) as (_ & P & HP & _). destruct (Hpath _ _ HP) as [[_ _ Hleaf _ _] _]. rewrite HP. cbn [from_option].
      by rewrite (proj2 Hleaf eq_refl).
  - destruct (lookup_lt_is_Some_2 Ls j) as [C HC]; [apply lookup_lt_Some in HL; lia|]. destruct (IH C HC) as (a & b & Ha & Hb & Hitems & Hblocks).
    destruct (Hlevels _ _ HL) as (_ & P & HP & [EL _ _ _]). destruct (Hlevels _ _ HC) as (_ & Q & HQ & [EC _ _ _]).
    destruct (Hpath _ _ HP) as [[Hk _ Hleaf Hnr Hlink] _]. destruct (Hlink j Q eq_refl HQ) as [Hk1 Hk2].
    destruct Hk as [Hk|Hk]; [apply Hleaf in Hk; lia|]. rewrite HQ in Hblocks. rewrite HP. cbn [from_option] in *.
    replace (pl_tree Q) with (Node (sl_es C) (sl_fin C) (pl_kids Q)) in Hk1 by (by rewrite EC). replace (pl_vcn Q) with (sl_vcn C) in Hk2 by (by rewrite EC).
    pose proof (grown_children j P Q (sl_vcn C) (sl_right C) a b HP HQ Ha Hb) as HK. cbv zeta in HK.
    replace (pl_vcns P) with (sl_vcns L) in Hk2, HK by (by rewrite EL). replace (pl_es P) with (sl_es L) in Hk, Hnr by (by rewrite EL).
    replace (pl_nr P) with (sl_nr L) in Hk1, Hk2, HK, Hnr by (by rewrite EL).
    set (k := sl_nr L) in *. set (ks := pl_kids P) in *. set (K := take k ks ++ a :: b :: drop (S k) ks) in *.
    specialize (Hvcns C HC). assert (length K = (length el + length er + 2)%nat) as LK.
    { unfold K. rewrite length_app, length_take. cbn. rewrite length_drop. apply (f_equal length) in Hinfo. rewrite !length_app in Hinfo. cbn in Hinfo.
      rewrite length_take, length_drop, !length_fmap in Hinfo. lia. }
    rewrite <- Hvcns in HK.
    destruct (halves_full (S j) L el fl er fr z K) as [Hf1 Hf2]; try done.
    exists (Node el fl (take (S (length el)) K)), (Node er fr (drop (S (length el)) K)). split_and!.
    + econstructor; [done|]. intros i e kid He Hkid. apply lookup_take_Some in Hkid as [Hkid Hi]. apply (HK i); [|done].
      rewrite lookup_app_l by (rewrite length_fmap, length_app; cbn; lia). by rewrite list_lookup_fmap, He.
    + econstructor; [done|]. intros i e kid He Hkid. rewrite lookup_drop in Hkid. apply (HK (S (length el) + i)%nat); [|done].
      rewrite lookup_app_r by (rewrite length_fmap, length_app; cbn; lia). rewrite length_fmap, length_app. cbn [length].
      replace (S (length el) + i - (length el + 1))%nat with i by lia. by rewrite list_lookup_fmap, He.
    + unfold items. cbn [inorder]. rewrite !interleave_fmap, <- !list_fmap_compose.
      change (fmap (M:=list) (e_item ni) ∘ inorder) with items. rewrite !fmap_take, !fmap_drop.
      rewrite <- (length_fmap (e_item ni) el), interleave_cut by (rewrite !length_fmap; lia).
      assert ((e_item ni <$> el) ++ in_item (ins (S (S j))) :: (e_item ni <$> er) =
        take k (e_item ni <$> sl_es L) ++ in_item (ins (S j)) :: drop k (e_item ni <$> sl_es L)) as ->.
      { rewrite <- !fst_infos, <- Hz, <- fmap_cons, <- fmap_app, Hinfo, fmap_app, fmap_cons, fmap_take, fmap_drop. done. }
      unfold K. rewrite fmap_app, !fmap_cons, fmap_take, fmap_drop, interleave_grow by (rewrite ?length_fmap; lia).
      cbn [cut]. rewrite HP. replace (pl_es P) with (sl_es L) by (by rewrite EL). replace (pl_nr P) with k by (unfold k; by rewrite EL). cbn [fst snd]. fold ks. rewrite <- (assoc_L (++) (before _ _ _)). f_equal.
      rewrite (app_comm_cons (items b)), (assoc_L (++) (items a)), Hitems, <- (assoc_L (++)). done.
    + rewrite (halves_blocks el fl er fr K _ _ _ LK Hvcns). rewrite (rights_S _ _ HL). rewrite blocks_node, kid_blocks_kb. fold (sl_vcns L).
      unfold K. assert (length (take k (sl_vcns L)) = length (take k ks)) as Lt by (rewrite !length_take; unfold sl_vcns; rewrite length_fmap, length_app; cbn [length]; lia).
      rewrite kb_app, !kb_cons by done.
      assert (kb (sl_vcns L) ks = kb (take k (sl_vcns L)) (take k ks) ++ blocks (Node (sl_es C) (sl_fin C) (pl_kids Q)) (sl_vcn C) ++ kb (drop (S k) (sl_vcns L)) (drop (S k) ks)) as ->.
      { rewrite <- (take_drop_middle _ _ _ Hk1) at 1. rewrite <- (take_drop_middle _ _ _ Hk2) at 1. by rewrite kb_app, kb_cons. }
      rewrite (assoc_L (++) (blocks a _)), Hblocks. cbn [app]. apply perm_skip.
      rewrite Permutation_cons_append, <- !(assoc_L (++)). do 2 apply Permutation_app_head. by rewrite !(assoc_L (++)), (Permutation_app_comm (rights _)).
Qed.

(** ** The nodes above the splits *)

Lemma kb_split V K k v t :
  V !! k = Some v → K !! k = Some t → kb V K = kb (take k V) (take k K) ++ blocks t v ++ kb (drop (S k) V) (drop (S k) K).
Proof.
  intros Hv Ht. rewrite <- (take_drop_middle _ _ _ Hv) at 1. rewrite <- (take_drop_middle _ _ _ Ht) at 1. rewrite kb_app, kb_cons; [done|].
  rewrite !length_take. pose proof (lookup_lt_Some _ _ _ Hv). pose proof (lookup_lt_Some _ _ _ Ht). lia.
Qed.
Lemma kb_replace V K k v t t' R :
  V !! k = Some v → K !! k = Some t → blocks t' v ≡ₚ blocks t v ++ R → kb V (<[k := t']> K) ≡ₚ kb V K ++ R.
Proof.
  intros Hv Ht Hb. rewrite (kb_split V K k v t), (kb_split V (<[k := t']> K) k v t') by (done || apply list_lookup_insert_eq; by eapply lookup_lt_Some).
  rewrite take_insert_ge, drop_insert_lt, Hb, <- !(assoc_L (++)) by lia. do 2 apply Permutation_app_head. apply Permutation_app_comm.
Qed.
Lemma replace_items es fin K k t :
  (k ≤ length es)%nat → (k < length K)%nat →
  items (Node es fin (<[k := t]> K)) = before k (e_item ni <$> es) (items <$> K) ++ items t ++ after k (e_item ni <$> es) (items <$> K).
Proof.
  intros H1 H2. unfold items at 1. rewrite inorder_insert, !fmap_app, before_fmap, after_fmap, <- !list_fmap_compose by done. done.
Qed.

(** The children of the top-most node that changes, which gets the new entry. *)
Lemma top_children P es' fin' : let n := length Ls in
  Ps !! n = Some P → top_done ni Ls ins n (pl_nr P) (pl_es P) (pl_fin P) es' fin' →
  ∃ K, (K = [] ↔ n = 0%nat) ∧ (K = [] ∨ length K = S (length es')) ∧ grown (e_vcn <$> es' ++ [fin']) K ∧
    items (Node es' fin' K) = (cut n).1 ++ in_item (ins 0) :: (cut n).2 ∧ kb (e_vcn <$> es' ++ [fin']) K ≡ₚ kb (pl_vcns P) (pl_kids P) ++ rights n.
Proof.
  intros n HP (_ & Hinfo & Hvcns). set (k := pl_nr P) in *. destruct (Hpath _ _ HP) as [[Hk _ Hleaf Hnr Hlink] _]. fold k in Hnr, Hlink.
  assert (e_item ni <$> es' = take k (e_item ni <$> pl_es P) ++ in_item (ins n) :: drop k (e_item ni <$> pl_es P)) as Hitems.
  { rewrite <- !fst_infos, Hinfo, fmap_app, fmap_cons, fmap_take, fmap_drop. done. }
  assert (length es' = S (length (pl_es P))) as Les.
  { apply (f_equal length) in Hinfo. rewrite length_app, !length_fmap, length_take in Hinfo. cbn [length] in Hinfo. rewrite length_drop, !length_fmap in Hinfo. lia. }
  destruct n as [|j] eqn:En.
  - exists []. rewrite (proj2 Hleaf eq_refl) in *. split_and!; try done; [by left| |].
    + unfold items. cbn [inorder fmap list_fmap cut]. rewrite interleave_leaf, HP. cbn [fst snd]. done.
    + unfold kb. by destruct (e_vcn <$> es' ++ [fin']), (pl_vcns P).
  - destruct (lookup_lt_is_Some_2 Ls j ltac:(lia)) as [C HC]. destruct (Hlevels _ _ HC) as (_ & Q & HQ & [EC _ _ _]). destruct (Hlink j Q eq_refl HQ) as [Hk1 Hk2].
    destruct (tree_grow j C HC) as (a & b & Ha & Hb' & Hab & Hblocks). destruct Hk as [Hk|Hk]; [apply Hleaf in Hk; lia|]. rewrite HQ in Hblocks. cbn [from_option] in Hblocks.
    pose proof (grown_children j P Q (sl_vcn C) (sl_right C) a b HP HQ Ha Hb') as HK. cbv zeta in HK. fold k in HK. specialize (Hvcns C HC). fold (pl_vcns P) in Hvcns. rewrite <- Hvcns in HK.
    set (K := take k (pl_kids P) ++ a :: b :: drop (S k) (pl_kids P)) in *.
    assert (length K = S (length es')) as LK by (unfold K; rewrite length_app, length_take; cbn [length]; rewrite length_drop; lia).
    exists K. split_and!; try done; [by destruct K|by right| |].
    + unfold items. cbn [inorder]. rewrite interleave_fmap, <- list_fmap_compose. change (fmap (M:=list) (e_item ni) ∘ inorder) with items.
      rewrite Hitems. unfold K. rewrite fmap_app, !fmap_cons, fmap_take, fmap_drop, interleave_grow by (rewrite ?length_fmap; lia).
      cbn [cut]. rewrite HP. cbn [fst snd]. fold k. rewrite <- (assoc_L (++) (before _ _ _)). f_equal.
      rewrite (app_comm_cons (items b)), (assoc_L (++) (items a)), Hab, <- (assoc_L (++)). done.
    + rewrite Hvcns. unfold K.
      rewrite kb_app by (rewrite !length_take; apply lookup_lt_Some in Hk1, Hk2; fold k in Hk1, Hk2; lia). rewrite !kb_cons, (kb_split _ _ _ _ _ Hk2 Hk1). fold k.
      rewrite (assoc_L (++) (blocks a _)), Hblocks. replace (Node (sl_es C) (sl_fin C) (pl_kids Q)) with (pl_tree Q) by (by rewrite EC). replace (sl_vcn C) with (pl_vcn Q) by (by rewrite EC).
      rewrite <- !(assoc_L (++)). do 2 apply Permutation_app_head. apply Permutation_app_comm.
Qed.

(** If its node is in a block, the tree that is stored there. *)
Definition grown_to (j : nat) (P : path_level) (t : btree) : Prop :=
  full_tree f' t (pl_vcn P) ∧ items t = (cut j).1 ++ in_item (ins 0) :: (cut j).2 ∧ blocks t (pl_vcn P) ≡ₚ blocks (pl_tree P) (pl_vcn P) ++ rights (length Ls).

Lemma top_tree P es' fin' : let n := length Ls in
  Ps !! n = Some P → (S n < length Ps)%nat → block_is f' (pl_vcn P) (pl_gap P) (pl_flags P) es' fin' → block_header f' (pl_vcn P) →
  top_done ni Ls ins n (pl_nr P) (pl_es P) (pl_fin P) es' fin' → size_ok (pl_flags P) (in_size (ins n)) → ∃ t, grown_to n P t.
Proof.
  intros n HP Hn Hb Hh Htop Hsz. destruct (Hnodes _ _ HP Hn) as [Hv _ _ Hg Hfl _ _ Hs]. destruct (Hpath _ _ HP) as [[_ _ Hleaf _ _] _].
  destruct (top_children P es' fin' HP Htop) as (K & HK0 & HK & Hgrown & Hitems & Hblocks). destruct Htop as (Lf & Hinfo & _).
  assert (sizes_ok (pl_flags P) es' fin') as Hs'.
  { apply sizes_info. apply sizes_info in Hs as [Hs HF]. split; [|lia]. rewrite Hinfo. apply list.Forall_app.
    split; [by apply list.Forall_take|]. constructor; [by apply size_nat|by apply list.Forall_drop]. }
  exists (Node es' fin' K). split; [|split; [done|]].
  - econstructor; [split; try done|].
    + rewrite Hfl. apply bool_decide_ext. by rewrite HK0, Hleaf.
    + intros _ E. rewrite E in Hinfo. by destruct (take (pl_nr P) _).
    + intros i e kid He Hkid. apply (Hgrown i); [|done]. by rewrite list_lookup_fmap, He.
  - unfold pl_tree. rewrite !blocks_node, !kid_blocks_kb. cbn [app]. apply perm_skip. exact Hblocks.
Qed.

(** The nodes above it. *)
Lemma upper_children j Q C c :
  Ps !! S j = Some Q → Ps !! j = Some C → grown_to j C c → let K := <[pl_nr Q := c]> (pl_kids Q) in
  length K = S (length (pl_es Q)) ∧ grown (pl_vcns Q) K ∧
  items (Node (pl_es Q) (pl_fin Q) K) = (cut (S j)).1 ++ in_item (ins 0) :: (cut (S j)).2 ∧
  kb (pl_vcns Q) K ≡ₚ kb (pl_vcns Q) (pl_kids Q) ++ rights (length Ls).
Proof.
  intros HQ HC (Hc & Hitems & Hblocks) K. destruct (Hpath _ _ HQ) as [[Hk Hkids Hleaf Hnr Hlink] Hoth]. destruct (Hlink _ C eq_refl HC) as [Hk1 Hk2].
  destruct Hk as [Hk|Hk]; [apply Hleaf in Hk; lia|]. pose proof (lookup_lt_Some _ _ _ Hk1) as Hlt. split_and!.
  - unfold K. by rewrite length_insert.
  - intros k u kid Hu Hkid. unfold K in Hkid. destruct (decide (k = pl_nr Q)) as [->|Hne].
    + rewrite list_lookup_insert_eq in Hkid by done. injection Hkid as <-. rewrite Hk2 in Hu. by injection Hu as <-.
    + rewrite list_lookup_insert_ne in Hkid by done. by apply (other_child (S j) Q k).
  - unfold K. rewrite replace_items by done. cbn [cut]. rewrite HQ, Hitems. cbn [fst snd]. by rewrite <- !(assoc_L (++)).
  - by apply (kb_replace _ _ _ (pl_vcn C) (pl_tree C)).
Qed.

Lemma upper_tree n d : ∀ P Q t,
  Ps !! n = Some P → grown_to n P t → (∀ i Q x, (n < i)%nat → (S i < length Ps)%nat → Ps !! i = Some Q → x ∈ vs → apart (pl_vcn Q) x) →
  Ps !! (n + d)%nat = Some Q → (S (n + d) < length Ps)%nat → ∃ t', grown_to (n + d) Q t'.
Proof.
  induction d as [|d IH]; intros P Q t HP Ht Hap HQ Hlen.
  - rewrite Nat.add_0_r in *. rewrite HP in HQ. injection HQ as <-. eauto.
  - destruct (lookup_lt_is_Some_2 Ps (n + d)%nat) as [C HC]; [apply lookup_lt_Some in HQ; lia|]. destruct (IH P C t HP Ht Hap HC) as (c & Hc); [lia|].
    rewrite Nat.add_succ_r in *. destruct (upper_children _ Q C c HQ HC Hc) as (LK & Hgrown & Hitems & Hblocks). destruct (Hnodes _ _ HQ Hlen) as [Hv Hh Hb Hg Hfl Hk Hl Hs].
    assert (pl_kids Q ≠ []) as Hne by (destruct (Hpath _ _ HQ) as [[_ _ Hleaf _ _] _]; rewrite Hleaf; lia).
    exists (Node (pl_es Q) (pl_fin Q) (<[pl_nr Q := c]> (pl_kids Q))). split; [|split; [done|]].
    + assert (<[pl_nr Q := c]> (pl_kids Q) ≠ []) as Hne' by (apply length_nonempty; lia). econstructor; [split; try done|].
      * eapply header_changes; [done|exact Hchanges|]. intros w Hw. right. eapply (Hap (S (n + d))); try done. lia.
      * eapply block_is_changes; [lia|exact Hchanges| |done]. intros w Hw. eapply (Hap (S (n + d))); try done. lia.
      * rewrite Hfl. by rewrite !bool_decide_eq_true_2.
      * by right.
      * intros k e kid He Hkid. apply (Hgrown k); [|done]. unfold pl_vcns. by rewrite list_lookup_fmap, He.
    + unfold pl_tree. rewrite !blocks_node, !kid_blocks_kb. cbn [app]. apply perm_skip. exact Hblocks.
Qed.
End levels.
End insert.
