(* ===== verification/IndexPlan.v ===== *)
(** * The plan of the splits

    The first part of [ntfs_index_entry_add_or_node_split] ([IndexSplit], [plan_loop]): for every
    node without space an entry to promote is chosen and a block is allocated, until there is a node
    with space.  After the splits that are planned, the halves have space too. *)

From Stdlib Require Import Sorted.
From S2P Require Import Prelude Bytes Unistr Collate PageCache Boot Mst Bitmap MftRecord AttrFind IndexNode IndexLookup IndexTree IndexModify IndexUpdate IndexEntry IndexSplit IndexBlock IndexRoot IndexAlloc IndexGrow IndexInsert.

(** ** The entry to promote *)

(** The entry to promote from a node with [n] entries, when an entry is to be inserted before the
    one with the number [k]: its number, and whether it is the inserted one. *)
Definition plan_choice (n k : nat) : nat * bool :=
  let median := (n / 2)%nat in
  if (k =? median)%nat then (median, true) else if (k <? median)%nat then ((median - 1)%nat, false) else (median, false).

Lemma plan_choice_cases n k : (k ≤ n)%nat → let '(p, inserted) := plan_choice n k in let m := (n / 2)%nat in
  (inserted = true ∧ p = m ∧ k = m) ∨ (inserted = false ∧ S p = m ∧ k < m)%nat ∨ (inserted = false ∧ p = m ∧ m < k)%nat.
Proof.
  intros Hk. unfold plan_choice. destruct (Nat.eqb_spec k (n / 2)); [by left|]. destruct (Nat.ltb_spec k (n / 2)); [right; left|right; right]; split_and!; done || lia.
Qed.

(** ** The entries to insert *)

(** The entry to insert at the level [j], when [x0] is the new one. *)
Fixpoint insertion_at (ni : index_inode) (x0 : insertion) (Ls : list split_level) (j : nat) : insertion :=
  match j with
  | O => x0
  | S i => match Ls !! i with Some L => promoted ni i L (insertion_at ni x0 Ls i) | None => x0 end
  end.

Lemma insertion_at_S ni x0 Ls j L : Ls !! j = Some L → insertion_at ni x0 Ls (S j) = promoted ni j L (insertion_at ni x0 Ls j).
Proof. intros H. cbn [insertion_at]. by rewrite H. Qed.
Lemma insertion_at_app ni x0 Ls Ls' j : (j ≤ length Ls)%nat → insertion_at ni x0 (Ls ++ Ls') j = insertion_at ni x0 Ls j.
Proof. induction j as [|j IH]; [done|]. intros H. cbn [insertion_at]. rewrite lookup_app_l, IH by lia. done. Qed.

(** It is the new one or one of a lower level. *)
Lemma insertion_at_source ni x0 Ls j i : in_src x0 = None → in_src (insertion_at ni x0 Ls j) = Some i → (i < j)%nat.
Proof.
  intros H0. induction j as [|j IH]; cbn [insertion_at]; [congruence|]. destruct (Ls !! j) as [L|]; [|congruence]. unfold promoted.
  destruct (sl_inserted L); cbn [in_src]; [intros H; specialize (IH H); lia|intros [= ->]; lia].
Qed.

(** A level more does not change the lower ones. *)
Lemma level_ok_insertion {env : IndexEnv} ni (ins ins' : nat → insertion) f j L : ins' j = ins j → level_ok ni ins f j L → level_ok ni ins' f j L.
Proof. intros E [? ? ? ? ? ? ? ? ? ? ?]. split; try done. by rewrite E. Qed.
Lemma ins_ok_app ni x0 Ls Ls' j s : in_src x0 = None → (j ≤ length Ls)%nat →
  ins_ok Ls (insertion_at ni x0 Ls) j s → ins_ok (Ls ++ Ls') (insertion_at ni x0 (Ls ++ Ls')) j s.
Proof.
  intros H0 Hj (H1 & H2 & H3 & H4). unfold ins_ok. rewrite insertion_at_app by done. split_and!; try done. intros i L Hi HL.
  pose proof (insertion_at_source _ _ _ _ _ H0 Hi). apply (H4 i); [done|]. by rewrite lookup_app_l in HL by lia.
Qed.
Lemma lower_ok_app {env : IndexEnv} ni x0 Ls Ls' f l n lock : in_src x0 = None → (n ≤ length Ls)%nat →
  lower_ok ni Ls (insertion_at ni x0 Ls) f l n lock → lower_ok ni (Ls ++ Ls') (insertion_at ni x0 (Ls ++ Ls')) f l n lock.
Proof.
  intros H0 Hn H j L Hj HL. rewrite lookup_app_l in HL by lia. destruct (H j L Hj HL) as (Hok & s & Hs & [? ? ? ? ? ? ? ? ? ? Hins] & ?). split.
  - eapply level_ok_insertion; [|exact Hok]. apply insertion_at_app. lia.
  - exists s. split; [done|]. split; [|done]. split; try done. apply ins_ok_app; [done|lia|done].
Qed.

(** What is written elsewhere does not change a level. *)
Lemma level_ok_outside {env : IndexEnv} ni (ins : nat → insertion) f f' j L vs : 64 ≤ block_size ni →
  level_ok ni ins f j L → outside ni f f' vs → (∀ w, w ∈ vs → apart ni (sl_vcn L) w ∧ apart ni (sl_right L) w) → level_ok ni ins f' j L.
Proof.
  intros Hbs [Hb [fin0 Hfr] ? ? ? ? ? ? ? ? ?] Ho Ha. split; try done.
  - eapply block_is_outside; [lia|done| |done]. intros w Hw. apply (Ha w Hw).
  - exists fin0. eapply block_is_outside; [lia|done| |done]. intros w Hw. apply (Ha w Hw).
Qed.
Lemma lower_outside {env : IndexEnv} ni Ls (ins : nat → insertion) f f' l n lock vs : 64 ≤ block_size ni →
  lower_ok ni Ls ins f l n lock → outside ni f f' vs →
  (∀ i L w, (i < n)%nat → Ls !! i = Some L → w ∈ vs → apart ni (sl_vcn L) w ∧ apart ni (sl_right L) w) → lower_ok ni Ls ins f' l n lock.
Proof. intros Hbs H Ho Ha i L Hi HL. destruct (H i L Hi HL) as [Hok ?]. split; [|done]. eapply level_ok_outside; [done|done|done|]. intros w Hw. by eapply Ha. Qed.

Section plan.
Context {env : IndexEnv} {inode : BitmapInode} (ni : index_inode) (sizes : index_sizes).
Hypothesis (Hgeo : geometry ni sizes).

(** What the entries may need: two entries fit into a leaf, and the halves of a split node have
    space for another entry. *)
Context (lo hi : Z) (G F : nat).
Definition capacity : Z := block_size ni - 40 - Z.of_nat G - Z.of_nat F.
Record sizes_fit : Prop := {
  fit_lo : 0 < lo ∧ Z.of_nat G ≤ lo ≤ hi;
  fit_gap : (fresh_gap (block_size ni) ≤ G)%nat;
  fit_two : 2 * hi ≤ capacity ∧ hi + 8 ≤ capacity;
  fit_split : ∀ p t, t = 0 ∨ t = 8 → 0 ≤ p → p * (lo + t) < hi + t + Z.of_nat G → p * (hi + t) ≤ capacity
}.
Hypothesis (Hfit : sizes_fit).
Abbreviation size_ok := (size_ok lo hi).
Abbreviation sizes_ok := (sizes_ok lo hi F).
Abbreviation full_node := (full_node ni lo hi G F).
Abbreviation used g es fin := (Z.of_nat (16 + g + length (concat (es ++ [fin])))).

Lemma used_length g (es : list (list Z)) fin : used g es fin = 16 + Z.of_nat g + Z.of_nat (length (concat es)) + Z.of_nat (length fin).
Proof. rewrite concat_app, length_app. cbn [concat]. rewrite app_nil_r. lia. Qed.

(** The bytes of some of the entries. *)
Lemma sizes_sum flags (es : list (list Z)) : Forall (λ e, size_ok flags (Z.of_nat (length e))) es →
  Z.of_nat (length es) * (lo + tail_size flags) ≤ Z.of_nat (length (concat es)) ≤ Z.of_nat (length es) * (hi + tail_size flags).
Proof.
  intros H. pose proof (fit_lo Hfit). pose proof (tail_size_range flags). induction H as [|e es [He _] _ IH]; cbn [concat length]; [lia|]. rewrite length_app. lia.
Qed.
Lemma sizes_cut a (es : list (list Z)) : Z.of_nat (length (concat es)) = Z.of_nat (length (concat (take a es))) + Z.of_nat (length (concat (drop a es))).
Proof. rewrite <- (take_drop a es) at 1. rewrite concat_app, length_app. lia. Qed.

(** The space in the halves. *)
Lemma plan_choice_fits flags g es fin k size : let '(p, inserted) := plan_choice (length es) k in
  let first := if inserted then p else S p in let rgap := fresh_gap (block_size ni) in
  sizes_ok flags es fin → (g ≤ G)%nat → used g es fin ≤ block_size ni - 24 → (k ≤ length es)%nat →
  size_ok flags size → block_size ni - 24 < used g es fin + size →
  (first ≤ length es)%nat ∧ used rgap (drop first es) fin ≤ block_size ni - 24 ∧
  (inserted = false → (if (p <? k)%nat then used rgap (drop first es) fin else used g (take p es) fin) + size ≤ block_size ni - 24) ∧
  (has flags INDEX_NODE = false → (0 < p ∨ inserted = false ∧ k ≤ p)%nat ∧ (first < length es ∨ inserted = false ∧ p < k)%nat).
Proof.
  destruct (plan_choice (length es) k) as [p inserted] eqn:Ec. intros first rgap [Hs HF] Hg Hle Hk [Hsz _] Hfull. pose proof (plan_choice_cases (length es) k Hk) as Hc. rewrite Ec in Hc.
  pose proof (Nat.div_mod_eq (length es) 2) as Hm. pose proof (Nat.mod_upper_bound (length es) 2 ltac:(lia)) as Hm2. set (m := (length es / 2)%nat) in *.
  destruct Hfit as [[Hlo0 Hlo] Hgap [Htwo Hhi] Hsplit]. fold rgap in Hgap. pose proof (tail_size_range flags) as Ht. rewrite !used_length in *.
  assert (tail_size flags = 0 ∨ tail_size flags = 8) as Ht' by (unfold tail_size; destruct (has flags INDEX_NODE); auto).
  set (t := tail_size flags) in *. unfold capacity in *.
  assert (∀ a, Z.of_nat (length (concat (take a es))) + Z.of_nat (length (concat (drop a es))) = Z.of_nat (length (concat es)) ∧
    Z.of_nat (length (take a es)) * (lo + t) ≤ Z.of_nat (length (concat (take a es))) ≤ Z.of_nat (length (take a es)) * (hi + t) ∧
    Z.of_nat (length (drop a es)) * (lo + t) ≤ Z.of_nat (length (concat (drop a es))) ≤ Z.of_nat (length (drop a es)) * (hi + t)) as Hcut.
  { intros a. split; [symmetry; apply sizes_cut|]. split; apply sizes_sum; [by apply list.Forall_take|by apply list.Forall_drop]. }
  pose proof (sizes_sum flags es Hs) as Hall. fold t in Hall.
  assert (first ≤ length es)%nat as Hfirst by (unfold first; destruct Hc as [(-> & -> & ->)|[(-> & <- & ?)|(-> & -> & ?)]]; lia).
  split; [done|]. split; [|split].
  - destruct (Hcut first) as (C1 & C2 & C3). rewrite length_take, length_drop in *. rewrite Nat.min_l in C2 by lia. destruct (decide (first = 0%nat)) as [E0|E0].
    + assert (length es ≤ 1)%nat by (unfold first in E0; destruct Hc as [(-> & -> & ->)|[(-> & <- & ?)|(-> & -> & ?)]]; lia).
      assert (Z.of_nat (length es - first) * (hi + t) ≤ 1 * (hi + t)) by (apply Z.mul_le_mono_nonneg_r; lia). lia.
    + assert (1 * (lo + t) ≤ Z.of_nat first * (lo + t)) by (apply Z.mul_le_mono_nonneg_r; lia). lia.
  - intros Hi. destruct Hc as [(E & _)|[(_ & Ep & Hk')|(_ & Ep & Hk')]]; [congruence|rewrite (proj2 (Nat.ltb_ge p k)) by lia|rewrite (proj2 (Nat.ltb_lt p k)) by lia].
    + destruct (Hcut p) as (C1 & C2 & C3). rewrite length_take, length_drop in *. rewrite Nat.min_l in C2 by lia. set (q := Z.of_nat (length es - p)) in *.
      destruct (Z.lt_ge_cases (q * (lo + t)) (hi + t)) as [Hq|Hq]; [|lia]. specialize (Hsplit q t Ht' ltac:(lia) ltac:(lia)).
      assert ((Z.of_nat p + 1) * (hi + t) ≤ q * (hi + t)) by (apply Z.mul_le_mono_nonneg_r; lia). lia.
    + unfold first. rewrite Hi. destruct (Hcut (S p)) as (C1 & C2 & C3). rewrite length_take, length_drop in *. rewrite Nat.min_l in C2 by lia. set (q := Z.of_nat (S p)) in *.
      destruct (Z.lt_ge_cases (q * (lo + t)) (hi + t + Z.of_nat G)) as [Hq|Hq]; [|lia]. specialize (Hsplit q t Ht' ltac:(lia) Hq).
      assert ((Z.of_nat (length es - S p) + 1) * (hi + t) ≤ q * (hi + t)) by (apply Z.mul_le_mono_nonneg_r; lia). lia.
  - intros Hn. assert (t = 0) as Et by (unfold t, tail_size; by rewrite Hn). assert (2 ≤ length es)%nat as H2.
    { destruct (decide (2 ≤ length es)%nat) as [|Hlt]; [done|]. exfalso. assert (Z.of_nat (length es) * (hi + t) ≤ 1 * (hi + t)) by (apply Z.mul_le_mono_nonneg_r; lia). lia. }
    unfold first. destruct Hc as [(-> & -> & ->)|[(-> & Ep & ?)|(-> & -> & ?)]]; lia.
Qed.

(** What the code computes is this choice. *)
Lemma choose_promotion_spec f i s v g flags es fin k : let c := sc_ctx s in let size := sc_insert_entry_size s in let tail := if (i =? 0)%nat then 8 else 0 in
  let '(p, inserted) := plan_choice (length es) k in
  block_is ni f v g flags es fin → node_context ni c v g es k → ic_entries c = offsets (index_at ni v + 16 + g) (es ++ [fin]) → ic_entry_nr c = Z.of_nat k →
  (k ≤ length es)%nat → has flags INDEX_NODE = negb (i =? 0)%nat → 0 ≤ size → size + 8 < 2 ^ 16 → ((if inserted then p else S p) ≤ length es)%nat →
  choose_promotion false i s (page_bytes f (block_page ni v)) = Ret (Z.of_nat p, inserted,
    if inserted then (sc_insert_to_add s, sc_insert_entry_nr s, size + tail, sc_insert_ictx s)
    else (false, Z.of_nat p, Z.of_nat (length (nth p es [])) + tail, Some i)).
Proof.
  intros c size tail. destruct (plan_choice (length es) k) as [p inserted] eqn:Ec. intros Hb [_ _ Ci _] Ce Cn Hk Hfl Hs0 Hs Hp.
  pose proof (geo_block _ _ Hgeo) as Hbs. destruct (block_is_entries ni _ _ _ _ _ _ Hb) as [Hwf Hu]. rewrite used_length in Hu.
  assert (length es ≤ length (concat es))%nat as Hle.
  { rewrite <- (Nat.mul_1_l (length es)). apply entries_length_ge. eapply list.Forall_impl; [apply (wf_entries _ _ _ _ Hwf)|]. intros e [He _ _ _]. pose proof (entry_header _ He). lia. }
  pose proof (block_flags_at ni _ _ _ _ _ _ Hb) as Efl. rewrite <- Ci in Efl.
  assert (u32 (nr_entries c - 1) / 2 = Z.of_nat (length es / 2)) as Em.
  { unfold nr_entries. rewrite Ce, length_offsets, length_app. cbn [length]. rewrite uwrap_id by lia. rewrite Nat2Z.inj_div. f_equal. lia. }
  assert (∀ x, 0 ≤ x → x + 8 < 2 ^ 32 → (if (i =? 0)%nat && negb (has flags INDEX_NODE) then u32 (x + 8) else x) = x + tail) as Et.
  { intros x H1 H2. unfold tail. rewrite Hfl. destruct (i =? 0)%nat; cbn [negb andb]; [rewrite uwrap_id by lia|]; lia. }
  assert (∀ q, (q < length es)%nat → ∃ entry, rd (ic_entries c) (Z.to_nat (Z.of_nat q)) = Ret entry ∧
    le16_at (page_bytes f (block_page ni v)) (entry + ie_length) = Ret (Z.of_nat (length (nth q es []))) ∧ (length (nth q es []) ≤ length (concat es))%nat) as Hq.
  { intros q Hq. destruct (lookup_lt_is_Some_2 es q Hq) as [e He]. destruct (block_entry_at ni _ _ _ _ _ _ q e Hb) as (p1 & q1 & Hpg & Lp); [by apply lookup_app_l_Some|].
    pose proof (wf_entries _ _ _ _ Hwf) as We. rewrite Forall_lookup in We. destruct (We _ _ He) as [Hok _ _ _]. pose proof (entry_header _ Hok).
    rewrite Ce, Nat2Z.id, (rd_Ret _ _ _ (offsets_take _ es fin q (Nat.lt_le_incl _ _ Hq))), (nth_lookup_Some _ _ _ _ He). eexists. split; [done|]. split.
    - by rewrite Hpg, <- Lp, le16_part, (entry_length _ Hok) by in_entry.
    - rewrite <- (take_drop_middle _ _ _ He), concat_app. cbn [concat]. rewrite !length_app. lia. }
  unfold choose_promotion. fold c size. rewrite Cn, Em, Efl. cbn [negb orb]. rewrite andb_true_r. unfold plan_choice in Ec. set (m := (length es / 2)%nat) in *.
  destruct (Nat.eqb_spec k m) as [Ekm|Ekm].
  - injection Ec as <- <-. rewrite (proj2 (Z.eqb_eq _ _)) by lia. cbn [mbind outcome_bind]. rewrite Et by lia. done.
  - rewrite (proj2 (Z.eqb_neq _ _)) by lia. destruct (Nat.ltb_spec k m) as [Hkm|Hkm]; injection Ec as <- <-.
    + rewrite (proj2 (Z.ltb_lt _ _)) by lia. cbn [mbind outcome_bind]. rewrite uwrap_id by lia. replace (Z.of_nat m - 1) with (Z.of_nat (m - 1)) by lia.
      destruct (Hq (m - 1)%nat ltac:(lia)) as (entry & -> & E2 & ?). cbn [mbind outcome_bind]. rewrite E2. cbn [mbind outcome_bind]. by rewrite Et by lia.
    + rewrite (proj2 (Z.ltb_ge _ _)) by lia. cbn [mbind outcome_bind].
      destruct (Hq m ltac:(lia)) as (entry & -> & E2 & ?). cbn [mbind outcome_bind]. rewrite E2. cbn [mbind outcome_bind]. by rewrite Et by lia.
Qed.

(** ** The path *)

(** A block by its number, and the bit of it. *)
Definition has_bit (bm : bitmap) (u : Z) (used : bool) : Prop := ∃ b, u = vcn_of ni sizes b ∧ block_nr ni b ∧ bit_of bm b = used.

Lemma has_bit_ne bm bm' u u' a a' : has_bit bm u a → has_bit bm' u' a' → u ≠ u' → apart ni u u'.
Proof. intros (b & -> & Hb & _) (b' & -> & Hb' & _) Hne. apply bits_apart; try done. congruence. Qed.
Lemma has_bit_apart bm u u' : has_bit bm u true → has_bit bm u' false → u ≠ u'.
Proof. intros (b & -> & Hb & E) (b' & -> & Hb' & E') Heq. apply vcn_of_inj in Heq; try done. congruence. Qed.

Context (key data : list Z) (size0 : Z) (Ps : list path_level) (R : path_level) (x : root_parts) (f0 : contents) (bm0 : bitmap).
Abbreviation x0 := (mk_insertion (key, data) None size0).
Abbreviation ins Ls := (insertion_at ni x0 Ls).
Abbreviation ROOT := (rt_bytes x (pl_es R) (pl_fin R)).

(** The contexts of the levels. *)
Record block_level (P : path_level) (c : ntfs_index_context) : Prop := {
  bl_node : node_context ni c (pl_vcn P) (pl_gap P) (pl_es P) (pl_nr P);
  bl_entries : ic_entries c = offsets (index_at ni (pl_vcn P) + 16 + pl_gap P) (pl_es P ++ [pl_fin P]);
  bl_nr : ic_entry_nr c = Z.of_nat (pl_nr P);
  bl_vcn : ic_vcn c = pl_vcn P;
  bl_free : ic_bytes_free c = block_size ni - 24 - used (pl_gap P) (pl_es P) (pl_fin P)
}.
Definition root_level (c : ntfs_index_context) : Prop := root_context c x (pl_es R) (pl_nr R) ∧ ic_bytes_free c = Z.of_nat (length (rt_spare x)).
Definition at_level (j : nat) (P : path_level) (c : ntfs_index_context) : Prop := if (S j <? length Ps)%nat then block_level P c else root_level c.

(** The path that the new entry is inserted at: the nodes are in different blocks that are in use. *)
Record path_fits : Prop := {
  pf_root : Ps !! (length Ps - 1)%nat = Some R;
  pf_root_is : root_is ni x (pl_flags R) (pl_es R) (pl_fin R);
  pf_nodes : ∀ j P, Ps !! j = Some P → (S j < length Ps)%nat → full_node f0 (pl_vcn P) (pl_gap P) (pl_flags P) (pl_es P) (pl_fin P) (pl_kids P);
  pf_flags : ∀ j P, Ps !! j = Some P → has (pl_flags P) INDEX_NODE = negb (j =? 0)%nat;
  pf_nr : ∀ j P, Ps !! j = Some P → (pl_nr P ≤ length (pl_es P))%nat;
  pf_vcns : ∀ j P, Ps !! j = Some P → j ≠ 0%nat → Forall is_vcn (e_vcn <$> pl_es P);
  pf_bits : ∀ j P, Ps !! j = Some P → (S j < length Ps)%nat → has_bit bm0 (pl_vcn P) true;
  pf_distinct : ∀ i j P Q, Ps !! i = Some P → Ps !! j = Some Q → (S i < length Ps)%nat → (S j < length Ps)%nat → i ≠ j → pl_vcn P ≠ pl_vcn Q;
  pf_size : ∀ P, Ps !! 0%nat = Some P → size_ok (pl_flags P) size0
}.
Hypothesis (Hpf : path_fits).

(** The levels that are planned; what they allocated was free. *)
Record planned (f : contents) (bm : bitmap) (Ls : list split_level) : Prop := {
  pn_bytes : byte_contents f ∧ byte_contents bm;
  pn_bits : ∀ b, 0 ≤ b → bit_of bm0 b = true → bit_of bm b = true;
  pn_outside : outside ni f0 f (sl_right <$> Ls);
  pn_rights : ∀ j L, Ls !! j = Some L → has_bit bm0 (sl_right L) false ∧ has_bit bm (sl_right L) true;
  pn_distinct : NoDup (sl_right <$> Ls);
  pn_levels : ∀ j L, Ls !! j = Some L → (S j < length Ps)%nat ∧ ∃ P, Ps !! j = Some P ∧ tree_level ni lo hi G (ins Ls) f j P L ∧ level_ok ni (ins Ls) f j L
}.

Lemma has_bit_mono f bm Ls u : planned f bm Ls → has_bit bm0 u true → has_bit bm u true.
Proof. intros H (b & -> & Hb & E). exists b. split_and!; try done. apply (pn_bits _ _ _ H); [apply Hb|done]. Qed.

(** The sizes of the entries to insert. *)
Lemma level_size f bm Ls j P : planned f bm Ls → (j ≤ length Ls)%nat → Ps !! j = Some P → size_ok (pl_flags P) (in_size (ins Ls j)).
Proof.
  intros H Hj HP. destruct j as [|j]; [by apply (pf_size Hpf)|]. destruct (lookup_lt_is_Some_2 Ls j Hj) as [L HL].
  destruct (pn_levels _ _ _ H j L HL) as (Hlen & Q & HQ & [EL _ _ [Hsz H8]] & Hok). rewrite (insertion_at_S _ _ _ _ _ HL).
  pose proof (pf_flags Hpf _ _ HP) as Hf1. pose proof (pf_flags Hpf _ _ HQ) as Hf2. cbn [Nat.eqb negb] in Hf1.
  assert (∀ z, size_ok (pl_flags Q) z → size_ok (pl_flags P) (z + if (j =? 0)%nat then 8 else 0)) as Hz.
  { intros z [Hz Hz8]. unfold IndexInsert.size_ok, tail_size in *. rewrite Hf1. rewrite Hf2 in Hz. destruct (j =? 0)%nat; cbn [negb] in Hz.
    - split; [lia|]. rewrite <- Z.add_mod_idemp_l, Hz8 by lia. done.
    - rewrite Z.add_0_r. done. }
  replace (sl_flags L) with (pl_flags Q) in Hsz by (by rewrite EL). unfold promoted. destruct (sl_inserted L) eqn:Ein; cbn [in_size]; apply Hz; [done|].
  pose proof (level_first _ _ _ _ _ Hok) as Hfirst. unfold sl_first in Hfirst. rewrite Ein in Hfirst. destruct (lookup_lt_is_Some_2 (sl_es L) (sl_promote L) Hfirst) as [e He].
  rewrite (nth_lookup_Some _ _ _ _ He). destruct (full_sizes _ _ _ _ _ _ _ _ _ _ _ _ (pf_nodes Hpf _ _ HQ Hlen)) as [Hs _]. rewrite EL in He. cbn in He. rewrite Forall_lookup in Hs. by apply (Hs _ _ He).
Qed.

(** ** One level more *)

(** The node that does not have space for its entry, with the block [v] for its right half. *)
Lemma new_level (I : nat → insertion) f i P v : let '(p, inserted) := plan_choice (length (pl_es P)) (pl_nr P) in
  Ps !! i = Some P → (S i < length Ps)%nat → block_is ni f (pl_vcn P) (pl_gap P) (pl_flags P) (pl_es P) (pl_fin P) →
  (∃ fin, block_is ni f v (fresh_gap (block_size ni)) 0 [] fin) → is_vcn v → size_ok (pl_flags P) (in_size (I i)) →
  block_size ni - 24 < used (pl_gap P) (pl_es P) (pl_fin P) + in_size (I i) →
  level_ok ni I f i (plan_level P v (fresh_gap (block_size ni)) p inserted).
Proof.
  pose proof (plan_choice_fits (pl_flags P) (pl_gap P) (pl_es P) (pl_fin P) (pl_nr P) (in_size (I i))) as Hch.
  pose proof (plan_choice_cases (length (pl_es P)) (pl_nr P)) as Hcase. destruct (plan_choice (length (pl_es P)) (pl_nr P)) as [p inserted].
  intros HP Hlen Hb Hfr Hv Hsz Hfull. destruct (pf_nodes Hpf _ _ HP Hlen) as [Hvp _ _ Hg _ _ _ Hs]. pose proof (pf_flags Hpf _ _ HP) as Hfl. pose proof (pf_nr Hpf _ _ HP) as Hnr.
  destruct (block_is_entries ni _ _ _ _ _ _ Hb) as [_ Hle]. specialize (Hcase Hnr). destruct (Hch Hs Hg Hle Hnr Hsz Hfull) as (H1 & H2 & H3 & H4). clear Hch.
  split; cbn [plan_level sl_vcn sl_right sl_gap sl_rgap sl_flags sl_es sl_fin sl_nr sl_promote sl_inserted sl_first]; try done.
  - intros ->. destruct Hcase as [(_ & -> & ->)|[(? & _)|(? & _)]]; done.
  - intros Hn. apply (pf_vcns Hpf i); [done|]. intros ->. by rewrite Hfl in Hn.
  - intros ->. by apply H4.
Qed.

(** Its context. *)
Lemma new_context i P s v Ls p inserted : (i = length Ls)%nat → let L := plan_level P v (fresh_gap (block_size ni)) p inserted in
  block_level P (sc_ctx s) → ins_ok Ls (ins Ls) i s →
  ctx_ok ni (Ls ++ [L]) (ins (Ls ++ [L])) i L
    (set_right v (block_page ni v) (Z.to_nat (block_ofs ni v)) false (set_ctx (set_locked false (sc_ctx s)) (set_promotion (Z.of_nat p) inserted s))).
Proof.
  intros Hi L [[Hr Hp Hx He] Hes Hnr Hv Hf] Hins. split; try done. apply (ins_ok_app ni x0 Ls [L]) in Hins; [|done|lia]. done.
Qed.

(** The blocks of the path and of the right halves. *)
Lemma planned_apart f bm Ls b j L : planned f bm Ls → block_nr ni b → bit_of bm b = false → Ls !! j = Some L →
  apart ni (sl_vcn L) (vcn_of ni sizes b) ∧ apart ni (sl_right L) (vcn_of ni sizes b).
Proof.
  intros H Hb Hbit HL. assert (has_bit bm (vcn_of ni sizes b) false) as Hn by by exists b. destruct (pn_levels _ _ _ H j L HL) as (Hlen & P & HP & [EL _ _ _] & _).
  assert (has_bit bm (sl_vcn L) true) as H1 by (rewrite EL; eapply has_bit_mono, (pf_bits Hpf j); done). destruct (pn_rights _ _ _ H j L HL) as [_ H2].
  split; eapply has_bit_ne; try done; by eapply has_bit_apart.
Qed.
Lemma path_block_apart f bm Ls b j P : planned f bm Ls → block_nr ni b → bit_of bm b = false → Ps !! j = Some P → (S j < length Ps)%nat → apart ni (pl_vcn P) (vcn_of ni sizes b).
Proof.
  intros H Hb Hbit HP Hlen. assert (has_bit bm (vcn_of ni sizes b) false) as Hn by by exists b. assert (has_bit bm (pl_vcn P) true) as H1 by (eapply has_bit_mono, (pf_bits Hpf j); done).
  eapply has_bit_ne; try done. by eapply has_bit_apart.
Qed.
Lemma path_right_apart f bm Ls j P i L : planned f bm Ls → Ps !! j = Some P → (S j < length Ps)%nat → Ls !! i = Some L → apart ni (pl_vcn P) (sl_right L).
Proof.
  intros H HP Hlen HL. destruct (pn_rights _ _ _ H i L HL) as [H1 _]. eapply has_bit_ne; [by eapply (pf_bits Hpf j)|done|]. eapply has_bit_apart; [by eapply (pf_bits Hpf j)|done].
Qed.

Lemma planned_levels_apart f bm Ls i j L L' : planned f bm Ls → Ls !! i = Some L → Ls !! j = Some L' →
  apart ni (sl_vcn L) (sl_right L') ∧ (i ≠ j → apart ni (sl_vcn L) (sl_vcn L') ∧ apart ni (sl_right L) (sl_right L')).
Proof.
  intros H HL HL'. destruct (pn_levels _ _ _ H i L HL) as (Hlen & P & HP & [EL _ _ _] & _). destruct (pn_levels _ _ _ H j L' HL') as (Hlen' & P' & HP' & [EL' _ _ _] & _).
  split; [rewrite EL; by eapply path_right_apart|]. intros Hne. rewrite EL, EL'. cbn [plan_level sl_vcn sl_right]. split.
  - eapply has_bit_ne; [by eapply (pf_bits Hpf i)|by eapply (pf_bits Hpf j)|]. by eapply (pf_distinct Hpf i j).
  - destruct (pn_rights _ _ _ H i L HL) as [H1 _]. destruct (pn_rights _ _ _ H j L' HL') as [H2 _]. eapply has_bit_ne; [done|done|]. intros E.
    pose proof (pn_distinct _ _ _ H) as Hnd. apply Hne, (NoDup_lookup _ i j (sl_right L) Hnd); rewrite list_lookup_fmap; [by rewrite HL|by rewrite HL', E].
Qed.

(** The nodes of the path are what they were. *)
Lemma planned_node f bm Ls j P : planned f bm Ls → Ps !! j = Some P → (S j < length Ps)%nat →
  full_node f (pl_vcn P) (pl_gap P) (pl_flags P) (pl_es P) (pl_fin P) (pl_kids P).
Proof.
  intros H HP Hlen. pose proof (geo_block _ _ Hgeo). eapply full_node_frame; [lia|by eapply (pf_nodes Hpf)|by eapply pn_outside|].
  intros w Hw. apply list_elem_of_fmap in Hw as (L & -> & HL). apply list_elem_of_lookup_1 in HL as [i HL]. by eapply path_right_apart.
Qed.

Lemma planned_step f bm Ls P f' bm' b p inserted : let i := length Ls in let v := vcn_of ni sizes b in
  planned f bm Ls → Ps !! i = Some P → (S i < length Ps)%nat → plan_choice (length (pl_es P)) (pl_nr P) = (p, inserted) →
  block_size ni - 24 < used (pl_gap P) (pl_es P) (pl_fin P) + in_size (ins Ls i) →
  block_nr ni b → bit_of bm b = false → set_to true b 1 bm bm' → byte_contents bm' → byte_contents f' → outside ni f f' [v] →
  block_header ni f' v → (∃ fin, block_is ni f' v (fresh_gap (block_size ni)) 0 [] fin) →
  planned f' bm' (Ls ++ [plan_level P v (fresh_gap (block_size ni)) p inserted]).
Proof.
  intros i v H HP Hlen Hc Hfull Hb Hbit Hset Hbm' Hf' Ho Hh Hfr. set (L := plan_level _ _ _ _ _). pose proof (geo_block _ _ Hgeo) as Hbs.
  pose proof (level_size _ _ _ i P H ltac:(lia) HP) as Hsz. pose proof (planned_node _ _ _ _ _ H HP Hlen) as Hnode. pose proof (fit_gap Hfit) as Hgap.
  assert (∀ b', 0 ≤ b' → bit_of bm b' = true → bit_of bm' b' = true) as Hmono by (intros b' H0 E; rewrite Hset, E by done; by destruct ((b <=? b') && (b' <? b + 1))).
  assert (bit_of bm' b = true) as Hbit' by (rewrite Hset by apply Hb; rewrite Z.leb_refl, (proj2 (Z.ltb_lt _ _)) by lia; done).
  assert (is_vcn v) as Hv by apply (block_of_bit ni sizes Hgeo b Hb). assert (apart ni (pl_vcn P) v) as Hap by by eapply path_block_apart.
  assert (outside ni f f' [v] ∧ ∀ w, w ∈ [v] → w = v) as [_ Hone] by (split; [done|]; by intros w ->%list_elem_of_singleton).
  split; try done.
  - intros b' H0 E. apply Hmono; [done|]. by apply (pn_bits _ _ _ H).
  - rewrite fmap_app. cbn [fmap list_fmap]. eapply outside_trans; [eapply outside_mono; [by eapply pn_outside|]|eapply outside_mono; [exact Ho|]]; intros u Hu; apply elem_of_app; tauto.
  - intros j L' [HL|[Hj <-]]%lookup_snoc_Some.
    + destruct HL as [_ HL]. destruct (pn_rights _ _ _ H j L' HL) as [H1 (b' & E & Hb' & Hbit2)]. split; [done|]. exists b'. split_and!; try done. apply Hmono; [apply Hb'|done].
    + split; exists b; split_and!; try done. destruct (bit_of bm0 b) eqn:E; [|done]. pose proof (pn_bits _ _ _ H b (proj1 Hb) E). congruence.
  - rewrite fmap_app. cbn [fmap list_fmap]. apply list.NoDup_app. split_and!; [by eapply pn_distinct| |apply NoDup_singleton].
    intros u Hu Hu'. apply list_elem_of_singleton in Hu' as ->. apply list_elem_of_fmap in Hu as (L' & E & HL'). apply list_elem_of_lookup_1 in HL' as [j HL'].
    destruct (pn_rights _ _ _ H j L' HL') as [_ H1]. eapply (has_bit_apart bm); [exact H1| |symmetry; exact E]. by exists b.
  - intros j L' [HL|[Hj <-]]%lookup_snoc_Some.
    + destruct HL as [Hj HL]. destruct (pn_levels _ _ _ H j L' HL) as (Hlen' & Q & HQ & [EL Hr [Hh1 Hh2] Hs] & Hok). destruct (planned_apart _ _ _ _ _ _ H Hb Hbit HL) as [A1 A2].
      split; [done|]. exists Q. split; [done|]. split.
      * split; try done; [|by rewrite insertion_at_app by lia]. split; (eapply header_outside; [lia|done|exact Ho|]); by intros w ->%Hone.
      * eapply level_ok_insertion; [by apply insertion_at_app; lia|]. eapply level_ok_outside; [lia|exact Hok|exact Ho|]. by intros w ->%Hone.
    + subst j. fold i. split; [done|]. exists P. split; [done|]. unfold i. split.
      * split; try done; [|by rewrite insertion_at_app by lia]. split; [|done]. destruct Hnode as [_ Hhp _ _ _ _ _ _]. eapply header_outside; [lia|exact Hhp|exact Ho|]. by intros w ->%Hone.
      * pose proof (new_level (ins (Ls ++ [L])) f' i P v) as Hnew. rewrite Hc in Hnew. apply Hnew; try done.
        { destruct Hnode as [_ _ Hbp _ _ _ _ _]. eapply block_is_outside; [lia|exact Ho| |exact Hbp]. by intros w ->%Hone. }
        { by rewrite insertion_at_app by lia. }
        { by rewrite insertion_at_app by lia. }
Qed.

(** ** The locks *)

Lemma relock_root errors f c : root_level c → ic_is_locked c = false →
  reads errors ROOT f (ntfs_index_ctx_relock ni c) (λ r, match r with inl err => env_err err | inr c' => root_level c' ∧ ic_is_locked c' = true end).
Proof.
  intros [[Hr Ha Hi He] Hfree] Hl. pose proof (pf_root_is Hpf) as Hx. destruct (root_found_at _ _ _ _ _ Hx) as [Hfind Hroot].
  unfold ntfs_index_ctx_relock. rewrite Hl, Hr. eapply reads_try; [by apply map_root_found|done|]. intros [err a] [-> ->]. cbn [Z.eqb ENOENT negb]. apply reads_world. intros t1.
  eapply reads_lift; [by apply (root_free _ _ _ _ _ Hx)|]. eapply reads_lift; [exact Hroot|]. apply reads_ret. split; [|done]. split; [|done]. split; try done. cbn. lia.
Qed.

(** The contexts from the level [i] on, and the one that is locked together with the root. *)
Definition uppers (i : nat) (l : list split_context) : Prop :=
  ∀ j P, (i ≤ j)%nat → Ps !! j = Some P → ∃ c, l !! j = Some (start_context c) ∧ at_level j P c ∧ ic_is_locked c = false.
Definition lock_of (Ls : list split_level) : option nat := if (S (length Ls) <? length Ps)%nat then None else in_src (ins Ls (length Ls)).
Definition source_locked (Ls : list split_level) (l : list split_context) : Prop :=
  S (length Ls) = length Ps → ∀ j sj, in_src (ins Ls (length Ls)) = Some j → l !! j = Some sj → ic_is_locked (sc_ctx sj) = true.

Lemma uppers_insert i l j s : uppers i l → (j < i)%nat → uppers i (<[j := s]> l).
Proof. intros H Hj k P Hk HP. destruct (H k P Hk HP) as (c & Hc & ?). exists c. rewrite list_lookup_insert_ne by lia. done. Qed.

(** The parent is locked, after the source of its entry if it is the root. *)
Definition parent_locked (f : contents) (Ls : list split_level) (P : path_level) (l : list split_context) : Prop := let i := length Ls in
  ∃ c, l !! i = Some (start_context c) ∧ at_level i P c ∧ ic_is_locked c = true ∧
    lower_ok ni Ls (ins Ls) f l i (lock_of Ls) ∧ source_locked Ls l ∧ uppers (S i) l.

Lemma lock_current f Ls l1 P c c' : let i := length Ls in
  l1 !! i = Some (start_context c) → at_level i P c' → ic_is_locked c' = true → lower_ok ni Ls (ins Ls) f l1 i (lock_of Ls) → source_locked Ls l1 → uppers (S i) l1 →
  parent_locked f Ls P (<[i := set_ctx c' (start_context c)]> l1).
Proof.
  intros i Hc Hat Hlk Hlow Hsrc Hup. exists c'. split; [apply list_lookup_insert_eq; by eapply lookup_lt_Some|]. split; [done|]. split; [done|]. split; [by apply lower_insert|].
  split; [|apply uppers_insert; [done|lia]]. intros Hi j sj Hj Hsj. pose proof (insertion_at_source ni x0 Ls _ _ eq_refl Hj). rewrite list_lookup_insert_ne in Hsj by (unfold i; lia). by apply (Hsrc Hi j).
Qed.

Lemma lock_parent_reads errors f Ls l P : let i := length Ls in
  Ps !! i = Some P → lower_ok ni Ls (ins Ls) f l i None → uppers i l →
  reads errors ROOT f (lock_parent ni l i (in_src (ins Ls i))) (λ r, match r with inl err => env_err err | inr l' => parent_locked f Ls P l' end).
Proof.
  intros i HP Hlow Hup. destruct (Hup i P ltac:(lia) HP) as (c & Hc & Hat & Hlk). unfold lock_parent.
  eapply reads_lift; [by apply rd_Ret|]. cbn [sc_ctx start_context]. rewrite Hlk. cbn [negb].
  assert (uppers (S i) l) as Hup' by (intros j Q Hj; apply Hup; lia). unfold at_level in Hat. destruct (Nat.ltb_spec (S i) (length Ps)) as [Hlt|Hge].
  - pose proof (context_root _ _ _ _ _ _ (bl_node _ _ Hat)) as Hr. rewrite Hr. eapply reads_try; [by apply reads_ret with (Q := λ r, r = inr l)|done|]. intros ? [= ->].
    eapply reads_try; [by apply relock_block|done|]. intros c' ->. apply reads_ret. apply lock_current; try done.
    + unfold at_level. rewrite (proj2 (Nat.ltb_lt _ _)) by lia. destruct Hat as [[? ? ? ?] ? ? ? ?]. done.
    + unfold lock_of. fold i. by rewrite (proj2 (Nat.ltb_lt _ _)) by lia.
    + intros E. unfold i in Hlt. lia.
  - pose proof (rcontext_root _ _ _ _ (proj1 Hat)) as Hr. rewrite Hr.
    eapply (reads_try _ _ _ _ _ (λ r, match r with inl err => env_err err | inr l1 => l1 !! i = Some (start_context c) ∧
      lower_ok ni Ls (ins Ls) f l1 i (lock_of Ls) ∧ source_locked Ls l1 ∧ uppers (S i) l1 end)); [|done|].
    + assert (lock_of Ls = in_src (ins Ls i)) as Elk by (unfold lock_of; fold i; by rewrite (proj2 (Nat.ltb_ge _ _)) by lia). unfold source_locked. fold i. rewrite Elk.
      destruct (in_src (ins Ls i)) as [j|] eqn:Ej; [|by apply reads_ret]. pose proof (insertion_at_source ni x0 Ls _ _ eq_refl Ej) as Hj.
      destruct (lookup_lt_is_Some_2 Ls j Hj) as [L HL]. destruct (Hlow j L Hj HL) as (_ & sj & Hsj & Hctx & _ & Hlkj).
      assert (ic_is_locked (sc_ctx sj) = false) as Lj by (destruct (ic_is_locked (sc_ctx sj)); [by specialize (Hlkj eq_refl)|done]).
      pose proof (context_root _ _ _ _ _ _ (ctx_node _ _ _ _ _ _ Hctx)) as Hrj. eapply reads_lift; [by apply rd_Ret|]. rewrite Hrj, Lj. cbn [orb].
      eapply reads_try; [by apply relock_block|done|]. intros c' ->. apply reads_ret. split; [by rewrite list_lookup_insert_ne by (unfold i; lia)|]. split; [|split].
      * eapply lower_lock; try done.
      * intros _ j' sj' [= <-]. rewrite list_lookup_insert_eq by (by eapply lookup_lt_Some). by intros [= <-].
      * apply uppers_insert; [done|unfold i; lia].
    + intros l1 (Hc1 & Hlow1 & Hsrc1 & Hup1). eapply reads_try; [by apply relock_root|done|]. intros c' [Hat' Hlk']. apply reads_ret. apply lock_current; try done.
      unfold at_level. by rewrite (proj2 (Nat.ltb_ge _ _)) by lia.
Qed.

(** ** The loop *)

(** The contexts when the current level is the one above [Ls]. *)
Definition contexts (f : contents) (Ls : list split_level) (l : list split_context) : Prop := let i := length Ls in
  ∃ P s, Ps !! i = Some P ∧ l !! i = Some s ∧ at_level i P (sc_ctx s) ∧ ic_is_locked (sc_ctx s) = true ∧ sc_promote_inserted s = false ∧
    ins_ok Ls (ins Ls) i s ∧ lower_ok ni Ls (ins Ls) f l i (lock_of Ls) ∧ source_locked Ls l ∧ uppers (S i) l.

Lemma parent_contexts f Ls P l a nr z src : let i := length Ls in
  Ps !! i = Some P → parent_locked f Ls P l → (∀ c, ins_ok Ls (ins Ls) i (set_insertion a nr z src (start_context c))) →
  ∃ s, l !! i = Some s ∧ contexts f Ls (<[i := set_insertion a nr z src s]> l).
Proof.
  intros i HP (c & Hc & Hat & Hlk & Hlow & Hsrc & Hup) Hins. exists (start_context c). split; [done|]. exists P, (set_insertion a nr z src (start_context c)).
  split; [done|]. split; [apply list_lookup_insert_eq; by eapply lookup_lt_Some|]. do 3 (split; [done|]). split; [apply Hins|]. split; [by apply lower_insert|].
  split; [|apply uppers_insert; [done|lia]]. intros Hi j sj Hj Hsj. pose proof (insertion_at_source ni x0 Ls _ _ eq_refl Hj). rewrite list_lookup_insert_ne in Hsj by lia. by apply (Hsrc Hi j).
Qed.

(** The entry to insert into the parent. *)
Lemma next_insertion Ls L s : let i := length Ls in let tail := if (i =? 0)%nat then 8 else 0 in let Ls' := Ls ++ [L] in
  ins_ok Ls (ins Ls) i s →
  let '(a, nr, z, src) := if sl_inserted L then (sc_insert_to_add s, sc_insert_entry_nr s, sc_insert_entry_size s + tail, sc_insert_ictx s)
    else (false, Z.of_nat (sl_promote L), Z.of_nat (length (nth (sl_promote L) (sl_es L) [])) + tail, Some i) in
  src = in_src (ins Ls' (S i)) ∧ ∀ c, ins_ok Ls' (ins Ls') (S i) (set_insertion a nr z src (start_context c)).
Proof.
  intros i tail Ls' Hins. assert (Ls' !! i = Some L) as HL by (unfold Ls', i; by apply list_lookup_middle). pose proof (ins_ok_app ni x0 Ls [L] i s eq_refl ltac:(done) Hins) as (H1 & H2 & H3 & H4).
  fold Ls' in H1, H2, H3, H4. assert (in_src (ins Ls' (S i)) = if sl_inserted L then in_src (ins Ls' i) else Some i) as E1 by (rewrite (insertion_at_S _ _ _ _ _ HL); unfold promoted; by destruct (sl_inserted L)).
  assert (in_size (ins Ls' (S i)) = if sl_inserted L then in_size (ins Ls' i) + tail else Z.of_nat (length (nth (sl_promote L) (sl_es L) [])) + tail) as E2
    by (rewrite (insertion_at_S _ _ _ _ _ HL); unfold promoted; by destruct (sl_inserted L)).
  destruct (sl_inserted L); unfold ins_ok; rewrite E1, E2; cbn [set_insertion sc_insert_entry_size sc_insert_ictx sc_insert_to_add sc_insert_entry_nr].
  - split; [done|]. intros c. split_and!; try done. by rewrite H1.
  - split; [done|]. intros c. split_and!; try done. intros i' L' [= <-] HL'. congruence.
Qed.

(** What is left of a plan that is given up. *)
Record kept (f : contents) (bm : bitmap) (vs : list Z) : Prop := {
  kept_bytes : byte_contents f ∧ byte_contents bm;
  kept_bits : ∀ b, 0 ≤ b → bit_of bm0 b = true → bit_of bm b = true;
  kept_outside : outside ni f0 f vs;
  kept_free : ∀ v, v ∈ vs → has_bit bm0 v false
}.
Lemma planned_kept f bm bm' Ls : planned f bm Ls → no_block bm bm' → kept f bm' (sl_right <$> Ls).
Proof.
  intros [[Hf _] Hbits Ho Hr _ _] [Hb Hmono]. split; try done.
  - intros b H0 E. apply Hmono; [done|]. by apply Hbits.
  - intros v Hv. apply list_elem_of_fmap in Hv as (L & -> & HL). apply list_elem_of_lookup_1 in HL as [j HL]. by apply (Hr j L HL).
Qed.

Definition rights_known (n : nat) (l : list split_context) : Prop := ∀ j, (j < n)%nat → ∃ s, l !! j = Some s ∧ has_bit bm0 (sc_right_vcn s) false.

Lemma lower_rights f bm Ls l lock : planned f bm Ls → lower_ok ni Ls (ins Ls) f l (length Ls) lock → rights_known (length Ls) l.
Proof.
  intros H Hlow j Hj. destruct (lookup_lt_is_Some_2 Ls j Hj) as [L HL]. destruct (Hlow j L Hj HL) as (_ & s & Hs & Hctx & _). exists s. split; [done|].
  rewrite (ctx_right _ _ _ _ _ _ Hctx). by apply (pn_rights _ _ _ H j).
Qed.

Abbreviation ST t errors m f bm last := (mk_istate (mk_world t errors m f) bm last).

(** How the loop ends. *)
Definition plan_result (errors : bool) (r : plan_end) (errors' : bool) (f : contents) (bm : bitmap) : Prop :=
  match r with
  | plan_ready n l => errors' = errors ∧ ∃ Ls, n = length Ls ∧ planned f bm Ls ∧ contexts f Ls l ∧
      ∀ s, l !! n = Some s → sc_insert_entry_size s ≤ ic_bytes_free (sc_ctx s)
  | plan_err err n l => err ≠ 0 ∧ (∃ vs, kept f bm vs) ∧ rights_known n l
  | plan_grow => ∃ vs, kept f bm vs
  end.

Lemma env_err_nonzero err : env_err err → err ≠ 0.
Proof. intros (t & [[_ ->]|[(ofs & _ & ?)|[_ ?]]]); done. Qed.

(** The promotion at a level without space. *)
Lemma promotion_chosen f bm Ls P s : let i := length Ls in let tail := if (i =? 0)%nat then 8 else 0 in
  planned f bm Ls → Ps !! i = Some P → (S i < length Ps)%nat → block_level P (sc_ctx s) → ins_ok Ls (ins Ls) i s → ic_bytes_free (sc_ctx s) < sc_insert_entry_size s →
  let '(p, inserted) := plan_choice (length (pl_es P)) (pl_nr P) in
  choose_promotion false i s (page_bytes f (block_page ni (pl_vcn P))) = Ret (Z.of_nat p, inserted,
    if inserted then (sc_insert_to_add s, sc_insert_entry_nr s, sc_insert_entry_size s + tail, sc_insert_ictx s)
    else (false, Z.of_nat p, Z.of_nat (length (nth p (pl_es P) [])) + tail, Some i)).
Proof.
  intros i tail Hpn HP Hlen [Hctx Hes Hnr _ Hfree] (Hz & _) Hfull. pose proof (level_size _ _ _ i P Hpn ltac:(lia) HP) as Hsz. rewrite <- Hz in Hsz.
  destruct (planned_node _ _ _ _ _ Hpn HP Hlen) as [_ _ Hb Hg _ _ _ Hs]. destruct (block_is_entries ni _ _ _ _ _ _ Hb) as [_ Hle]. pose proof (pf_nr Hpf _ _ HP) as Hk.
  pose proof (plan_choice_fits (pl_flags P) (pl_gap P) (pl_es P) (pl_fin P) (pl_nr P) (sc_insert_entry_size s)) as Hfits.
  pose proof (choose_promotion_spec f i s (pl_vcn P) (pl_gap P) (pl_flags P) (pl_es P) (pl_fin P) (pl_nr P)) as Hch. cbv zeta in Hch.
  destruct (plan_choice (length (pl_es P)) (pl_nr P)) as [p inserted]. destruct Hfits as [Hfirst _]; try done; [lia|].
  pose proof (geo_block _ _ Hgeo). pose proof (tail_size_range (pl_flags P)). destruct (fit_lo Hfit), (fit_two Hfit). destruct Hsz as [Hsz _]. unfold capacity in *.
  apply Hch; try done; [by apply (pf_flags Hpf)|lia|lia].
Qed.

(** The contexts of the planned levels. *)
Lemma lower_step f bm Ls P s f' bm' l b p inserted : let i := length Ls in let v := vcn_of ni sizes b in let L := plan_level P v (fresh_gap (block_size ni)) p inserted in
  planned f bm Ls → planned f' bm' (Ls ++ [L]) → lower_ok ni Ls (ins Ls) f l i None → block_nr ni b → bit_of bm b = false → outside ni f f' [v] →
  l !! i = Some s → block_level P (sc_ctx s) → ins_ok Ls (ins Ls) i s →
  lower_ok ni (Ls ++ [L]) (ins (Ls ++ [L])) f' (<[i := set_right v (block_page ni v) (Z.to_nat (block_ofs ni v)) false
    (set_ctx (set_locked false (sc_ctx s)) (set_promotion (Z.of_nat p) inserted s))]> l) (S i) None.
Proof.
  intros i v L Hpn Hpn' Hlow Hb Hbit Ho Hs Hbl Hins j L' Hj HL'. pose proof (geo_block _ _ Hgeo). destruct (decide (j = i)) as [->|Hne].
  - destruct (pn_levels _ _ _ Hpn' i L' HL') as (_ & Q & _ & _ & Hok). split; [done|]. unfold i in HL'. rewrite list_lookup_middle in HL' by done. injection HL' as <-.
    eexists. split; [apply list_lookup_insert_eq; by eapply lookup_lt_Some|]. split; [by apply new_context|]. done.
  - assert (lower_ok ni (Ls ++ [L]) (ins (Ls ++ [L])) f' (<[i := set_right v (block_page ni v) (Z.to_nat (block_ofs ni v)) false
      (set_ctx (set_locked false (sc_ctx s)) (set_promotion (Z.of_nat p) inserted s))]> l) i None) as Hl; [|apply (Hl j L'); [lia|done]].
    apply lower_insert; [|done]. apply lower_ok_app; [done|done|]. eapply lower_outside; [lia|exact Hlow|exact Ho|]. intros k L2 w Hk HL2 ->%list_elem_of_singleton. by apply (planned_apart f bm Ls b k L2).
Qed.

Lemma plan_loop_spec fuel : ∀ Ls f bm l t errors last, let i := length Ls in
  (length Ps ≤ i + fuel)%nat → planned f bm Ls → contexts f Ls l →
  ∃ r t' errors' f' bm' last', plan_loop ni sizes fuel false i l (ST t errors ROOT f bm last) = Ret (r, ST t' errors' ROOT f' bm' last') ∧
    (errors = true → errors' = true) ∧ plan_result errors r errors' f' bm'.
Proof.
  induction fuel as [|fuel IH]; intros Ls f bm l t errors last i Hfuel Hpn Hcx; pose proof Hcx as (P & s & HP & Hs & Hat & Hlk & Hpi & Hins & Hlow & Hsrc & Hup); fold i in HP, Hs, Hat, Hins, Hlow, Hup.
  { apply lookup_lt_Some in HP. lia. }
  cbn [plan_loop]. erewrite check_step by (by apply rd_Ret). assert (no_block bm bm) as Hsame by (split; [apply (pn_bytes _ _ _ Hpn)|done]).
  destruct (Z.leb_spec (sc_insert_entry_size s) (ic_bytes_free (sc_ctx s))) as [Hfits|Hfull].
  { eexists _, _, _, _, _, _. split; [done|]. split; [done|]. split; [done|]. exists Ls. split_and!; try done. intros s' Hs'. rewrite Hs in Hs'. by injection Hs' as <-. }
  rewrite Hlk. cbn [negb]. unfold at_level in Hat. destruct (Nat.ltb_spec (S i) (length Ps)) as [Hlt|Hge].
  2: { rewrite (rcontext_root _ _ _ _ (proj1 Hat)). eexists _, _, _, _, _, _. split; [done|]. split; [done|]. eexists. by eapply planned_kept. }
  pose proof Hat as [[Hr Hpg _ _] Hes Hnr Hvc Hfree]. rewrite Hr. erewrite sio_step by reflexivity. cbn [st_world].
  pose proof (planned_node _ _ _ _ _ Hpn HP Hlt) as Hnode. pose proof (level_size _ _ _ i P Hpn ltac:(lia) HP) as Hsz.
  pose proof (promotion_chosen _ _ _ _ _ Hpn HP Hlt Hat Hins Hfull) as Hch. destruct (plan_choice (length (pl_es P)) (pl_nr P)) as [p inserted] eqn:Ec. fold i in Hch.
  rewrite (node_buf_page _ _ _ _ _ _ Hr Hpg). erewrite check_step by exact Hch. clear Hch.
  destruct (if inserted then _ else _) as [[[a nr] z] src] eqn:Eq. unfold ntfs_index_ctx_unlock. rewrite Hlk. cbn [negb]. erewrite check_step by reflexivity.
  assert (lock_of Ls = None) as Elk by (unfold lock_of; fold i; by rewrite (proj2 (Nat.ltb_lt _ _)) by lia). rewrite Elk in Hlow.
  destruct (pn_bytes _ _ _ Hpn) as [Hf Hbm]. destruct (block_alloc_spec ni sizes Hgeo t errors ROOT f bm last Hf Hbm) as (r & t1 & errors1 & f1 & bm1 & last1 & Ea & Hmono & Hr1).
  erewrite sio_step by exact Ea. destruct r as [err|[[v upl_ofs] ia]|].
  - destruct Hr1 as (Herr & -> & Hno). eexists _, _, _, _, _, _. split; [done|]. split; [done|]. split; [done|]. split; [eexists; by eapply planned_kept|].
    intros j Hj. rewrite list_lookup_insert_ne by (unfold i; lia). eapply lower_rights; done.
  - destruct Hr1 as (b & -> & Hb & (_ & Hbit & _) & Hset & Hbm1 & -> & -> & -> & Hf1 & Ho & Hh & Hfr). set (v := vcn_of ni sizes b) in *.
    set (L := plan_level P v (fresh_gap (block_size ni)) p inserted). set (Ls' := Ls ++ [L]). assert (length Ls' = S i) as Ei by (unfold Ls', i; rewrite length_app; cbn; lia).
    assert (planned f1 bm1 Ls') as Hpn'.
    { apply (planned_step f bm Ls P f1 bm1 b p inserted); try done. destruct Hins as [Hz _]. fold i. lia. }
    pose proof (lower_step f bm Ls P s f1 bm1 l b p inserted Hpn Hpn' Hlow Hb Hbit Ho Hs Hat Hins) as Hlow'. cbv zeta in Hlow'. fold i v L Ls' in Hlow'. set (l1 := <[i := _]> l) in *.
    pose proof (next_insertion Ls L s Hins) as Hnext. cbv zeta in Hnext. fold i Ls' in Hnext. change (sl_inserted L) with inserted in Hnext. change (sl_promote L) with p in Hnext. change (sl_es L) with (pl_es P) in Hnext.
    rewrite Eq in Hnext. destruct Hnext as [Esrc Hins']. rewrite <- Ei in Esrc, Hins', Hlow'.
    destruct (lookup_lt_is_Some_2 Ps (S i) Hlt) as [Q HQ]. rewrite <- Ei in HQ.
    destruct (lock_parent_reads errors f1 Ls' l1 Q HQ Hlow') with (t := t1) as (r & t2 & El & Hr2); [apply uppers_insert; [by rewrite Ei|lia]|].
    rewrite (sio_step _ _ _ r (ST t2 errors ROOT f1 bm1 last1)); [|unfold in_world; cbn [st_world]; rewrite Esrc, <- Ei, El; done]. destruct r as [err|l2].
    + eexists _, _, _, _, _, _. split; [done|]. split; [done|]. split; [by apply env_err_nonzero|]. split; [eexists; by eapply planned_kept; [done|split]|].
      rewrite <- Ei. by eapply lower_rights.
    + destruct (parent_contexts f1 Ls' Q l2 a nr z src HQ Hr2 Hins') as (s2 & Hs2 & Hcx2). rewrite <- Ei. erewrite check_step by (by apply rd_Ret).
      destruct (IH Ls' f1 bm1 _ t2 errors last1 ltac:(lia) Hpn' Hcx2) as (r & t3 & errors3 & f3 & bm3 & last3 & E3 & ? & ?). eexists _, _, _, _, _, _. split; [exact E3|]. done.
  - destruct Hr1 as [-> Hno]. eexists _, _, _, _, _, _. split; [done|]. split; [done|]. eexists. by eapply planned_kept.
Qed.

(** ** The end of a plan that failed *)

Lemma free_right_halves_spec l f m last n : ∀ t errors bm, rights_known n l → byte_contents bm → (∀ b, 0 ≤ b → bit_of bm0 b = true → bit_of bm b = true) →
  ∃ t' errors' bm', free_right_halves ni sizes n l (ST t errors m f bm last) = Ret ((), ST t' errors' m f bm' last) ∧
    (errors = true → errors' = true) ∧ byte_contents bm' ∧ ∀ b, 0 ≤ b → bit_of bm0 b = true → bit_of bm' b = true.
Proof.
  induction n as [|n IH]; intros t errors bm Hr Hbm Hbits; [by eexists _, _, _|]. destruct (Hr n ltac:(lia)) as (s & Hs & (b & Ev & Hb & Hfree)).
  cbn [free_right_halves]. erewrite check_step by (by apply rd_Ret). destruct (block_of_bit ni sizes Hgeo b Hb) as (Hv & _ & Enr). rewrite Ev, (proj2 (Z.ltb_ge _ _)) by apply Hv. rewrite Enr.
  assert (b < 2 ^ 63 - 1) as Hmax by (destruct Hb; pose proof (geo_block _ _ Hgeo); nia).
  destruct (clear_bit_spec b bm t) as (err & flag & bm2 & t2 & Ec & Hc & Hb2); [destruct Hb; lia|].
  rewrite (sio_step _ _ _ () (ST t2 (errors || flag || negb (err =? 0)) m f bm2 last)); [|unfold clear_block_bit; cbn [st_world st_bmp w_clock w_errors w_mft w_ia st_last_set_bit]; by rewrite Ec].
  destruct (IH t2 (errors || flag || negb (err =? 0)) bm2) as (t' & errors' & bm' & E & Hm & ? & ?).
  - intros j Hj. apply Hr. lia.
  - by apply Hb2.
  - intros i Hi E. specialize (Hbits i Hi E). destruct (err =? 0); rewrite Hc by done; [|done]. destruct (Z.leb_spec b i), (Z.ltb_spec i (b + 1)); try done.
    assert (i = b) as -> by lia. congruence.
  - eexists _, _, _. split; [exact E|]. split; [|done]. intros ->. by apply Hm.
Qed.

Lemma undo_plan_spec err n l f bm vs m t errors last : rights_known n l → kept f bm vs →
  ∃ t' errors' bm', undo_plan ni sizes err n l (ST t errors m f bm last) = Ret (err, ST t' errors' m f bm' last) ∧ (errors = true → errors' = true) ∧ kept f bm' vs.
Proof.
  intros Hr [[Hf Hbm] Hbits Ho Hfree]. unfold undo_plan. destruct (index_alloc_present ni); cbn [negb]; [|by eexists _, _, _].
  erewrite sio_step by reflexivity. cbn [w_clock w_errors w_mft w_ia st_bmp st_last_set_bit st_world]. destruct (negb (attr_inode_errno t =? 0)).
  { erewrite sio_step by reflexivity. by eexists _, _, _. }
  destruct (free_right_halves_spec l f m last n (S t) errors bm Hr Hbm Hbits) as (t' & errors' & bm' & E & Hm & Hbm' & Hbits').
  erewrite sio_step by exact E. by eexists _, _, _.
Qed.

(** ** The start *)

Lemma planned_start : byte_contents f0 → byte_contents bm0 → planned f0 bm0 [].
Proof. intros Hf Hbm. by split; [split|..|constructor|]. Qed.

Lemma contexts_start c up :
  Ps ≠ [] → (∀ j P, Ps !! j = Some P → ∃ c', (c :: up) !! j = Some c' ∧ at_level j P c' ∧ ic_is_locked c' = (j =? 0)%nat) →
  contexts f0 [] (set_insertion true 0 size0 None (start_context c) :: (start_context <$> up)).
Proof.
  intros Hne H. destruct (lookup_lt_is_Some_2 Ps 0) as [P HP]; [by destruct Ps; [|cbn; lia]|]. destruct (H 0%nat P HP) as (c' & [= <-] & Hat & Hlk).
  exists P, (set_insertion true 0 size0 None (start_context c)). split_and!; try done. intros j Q Hj HQ. destruct j as [|j]; [cbn in Hj; lia|].
  destruct (H (S j) Q HQ) as (c' & Hc & Hat' & Hlk'). exists c'. split; [|done]. change ((start_context <$> up) !! j = Some (start_context c')). apply list_lookup_fmap_Some. by exists c'.
Qed.
End plan.

(** Directories with index blocks of 4096 bytes, whose entries have names of 1 to 255 characters. *)
Lemma directory_sizes_fit ni : block_size ni = 4096 → sizes_fit ni 88 592 24 24.
Proof.
  intros E. split; unfold capacity; rewrite ?E; [lia|vm_compute; lia|lia|]. intros p t [->| ->] Hp H; lia.
Qed.
