(* ===== verification/IndexFull.v ===== *)
(** * The whole index

    The invariant of an index that grows: the root in its mft record, the nodes in index blocks whose
    bits are set in the index bitmap.  [ntfs_index_entry_add_or_node_split] ([IndexSplit]) keeps it,
    and inserts the entry where the lookup ended. *)

From Stdlib Require Import Sorted.
From S2P Require Import Prelude Bytes Unistr Collate PageCache Boot Mst Bitmap MftRecord AttrFind IndexNode IndexLookup IndexTree IndexModify IndexUpdate IndexEntry IndexSplit IndexBlock IndexRoot IndexAlloc IndexGrow IndexInsert IndexPlan.

Lemma kb_elem V K k u kid w : V !! k = Some u → K !! k = Some kid → w ∈ blocks kid u → w ∈ kb V K.
Proof. intros Hu Hk Hw. rewrite (kb_split V K k u kid) by done. apply elem_of_app. right. apply elem_of_app. by left. Qed.

Lemma perm_move {A} (a b x y : list A) c : a ++ (c :: x ++ y) ++ b ≡ₚ (x ++ a ++ b) ++ y ++ [c].
Proof.
  cbn [app]. rewrite <- Permutation_middle, (assoc_L (++) _ y), <- (Permutation_cons_append _ c). apply perm_skip. rewrite <- !(assoc_L (++)).
  rewrite (assoc_L (++) a x), (Permutation_app_comm a x), <- (assoc_L (++)). do 2 apply Permutation_app_head. apply Permutation_app_comm.
Qed.

(** Sorted items. *)
Lemma sorted_fmap {A B} (g : A → B) (R : B → B → Prop) l : StronglySorted R (g <$> l) ↔ StronglySorted (λ x y, R (g x) (g y)) l.
Proof.
  induction l as [|y l IH]; cbn; [by split; constructor|]. split; intros H; apply StronglySorted_inv in H as [H1 H2]; constructor; try (by apply IH); by rewrite list.Forall_fmap in *.
Qed.
Definition item_lt (ni : index_inode) (a b : list Z * list Z) : Prop := key_cmp (vol_upcase ni) (collation_rule ni) a.1 b.1 < 0.
Lemma sorted_index_items ni T : sorted_index ni T ↔ Forall (λ i, index_key ni i.1) (items ni T) ∧ StronglySorted (item_lt ni) (items ni T).
Proof. unfold sorted_index, items. by rewrite list.Forall_fmap, sorted_fmap. Qed.

Lemma sorted_index_add ni T T' l1 l2 key data :
  sorted_index ni T → index_key ni key → items ni T = (e_item ni <$> l1) ++ (e_item ni <$> l2) → items ni T' = (e_item ni <$> l1) ++ (key, data) :: (e_item ni <$> l2) →
  Forall (λ e, 0 < entry_cmp ni key e) l1 → Forall (λ e, entry_cmp ni key e < 0) l2 → sorted_index ni T'.
Proof.
  rewrite !sorted_index_items. intros [Hk Hs] Hkey E E' H1 H2. rewrite E in Hk, Hs. rewrite E'. apply list.Forall_app in Hk as [K1 K2]. split.
  - apply list.Forall_app. split; [done|]. by constructor.
  - apply sorted_insert_middle; [done| |].
    + apply list.Forall_fmap. eapply list.Forall_impl; [exact H1|]. intros e He. unfold item_lt, entry_cmp in *. cbn in *.
      pose proof (key_cmp_antisym (vol_upcase ni) (collation_rule ni) (e_key e) key). lia.
    + by apply list.Forall_fmap.
Qed.

(** The blocks of the children beside the path. *)
Definition siblings (P : path_level) : list Z := let k := pl_nr P in
  kb (take k (pl_vcns P)) (take k (pl_kids P)) ++ kb (drop (S k) (pl_vcns P)) (drop (S k) (pl_kids P)).

Lemma siblings_elem P k u kid w : k ≠ pl_nr P → pl_vcns P !! k = Some u → pl_kids P !! k = Some kid → w ∈ blocks kid u → w ∈ siblings P.
Proof.
  intros Hne Hu Hkid Hw. apply elem_of_app. destruct (decide (k < pl_nr P)%nat) as [Hlt|Hge].
  - left. eapply (kb_elem _ _ k); [| |done]; rewrite lookup_take_lt by done; done.
  - right. eapply (kb_elem _ _ (k - S (pl_nr P))); [| |done]; rewrite lookup_drop; replace (S (pl_nr P) + (k - S (pl_nr P)))%nat with k by lia; done.
Qed.

Section full.
Context {env : IndexEnv} {inode : BitmapInode} (ni : index_inode) (sizes : index_sizes) (max_entries : Z) (root : nat).
Hypothesis (Hgeo : geometry ni sizes).
Context (lo hi : Z) (G F : nat).
Hypothesis (Hfit : sizes_fit ni lo hi G F).
Hypothesis (Hmax : 1 + (block_size ni - 56) / lo ≤ max_entries < 2 ^ 31) (Hrule : ntfs_is_collation_rule_supported (collation_rule ni) = true).
Abbreviation full_tree := (full_tree ni lo hi G F).
Abbreviation full_node := (full_node ni lo hi G F).
Abbreviation sizes_ok := (sizes_ok lo hi F).
Abbreviation size_ok := (size_ok lo hi).
Abbreviation has_bit := (has_bit ni sizes).
Abbreviation used g es fin := (Z.of_nat (16 + g + length (concat (es ++ [fin])))).

(** ** The invariant *)

(** The record [m] holds the root of the tree. *)
Record root_of (m : list Z) (x : root_parts) (flags : Z) (es : list (list Z)) (fin : list Z) (kids : list btree) : Prop := {
  ro_bytes : m = rt_bytes x es fin;
  ro_is : root_is ni x flags es fin;
  ro_place : rt_root x = root;
  ro_sizes : sizes_ok flags es fin;
  ro_flags : has flags INDEX_NODE = bool_decide (kids ≠ []);
  ro_kids : kids = [] ∨ length kids = S (length es);
  ro_count : 1 + Z.of_nat (length m) / lo ≤ max_entries
}.

Record full_index (m : list Z) (f : contents) (bm : bitmap) (T : btree) : Prop := {
  fi_bytes : byte_contents f ∧ byte_contents bm;
  fi_root : match T with Node es fin kids => ∃ x flags, root_of m x flags es fin kids end;
  fi_children : match T with Node es fin kids => ∀ k e kid, (es ++ [fin]) !! k = Some e → kids !! k = Some kid → full_tree f kid (e_vcn e) end;
  fi_alloc : match T with Node _ _ kids => kids ≠ [] → index_alloc_present ni = true end;
  fi_dup : NoDup (all_blocks T);
  fi_bits : ∀ u, u ∈ all_blocks T → has_bit bm u true
}.

Lemma root_count m x flags es fin kids : root_of m x flags es fin kids → Z.of_nat (length es + 1) ≤ max_entries.
Proof.
  intros [-> Hx _ [Hs _] _ _ Hc]. pose proof (fit_lo _ _ _ _ _ Hfit) as [Hlo _]. pose proof (tail_size_range flags) as Ht.
  assert (length (concat es) ≤ length (rt_bytes x es fin))%nat as Hle.
  { unfold rt_bytes. rewrite rt_mft_bytes, concat_app, !length_app. lia. }
  assert (Z.to_nat lo * length es ≤ length (concat es))%nat as Hn.
  { apply entries_length_ge. eapply list.Forall_impl; [exact Hs|]. intros e [He _]. cbn in He. lia. }
  assert (Z.of_nat (length es) ≤ Z.of_nat (length (rt_bytes x es fin)) / lo); [|lia]. apply Z.div_le_lower_bound; [lia|nia].
Qed.

(** All that the functions that read the index need. *)
Lemma full_index_stored m f bm T : full_index m f bm T → stored_index ni max_entries root m f T.
Proof.
  destruct T as [es fin kids]. intros [[Hf _] (x & flags & Hr) Hk Ha _ _]. pose proof (root_count _ _ _ _ _ _ Hr) as Hcount. pose proof (geo_block _ _ Hgeo).
  destruct Hr as [-> Hx <- _ Hfl Hkids _]. destruct (root_found_at _ _ _ _ _ Hx) as [Hfind Hroot]. split; try done; [by exists (rt_ofs x)|eexists; by eapply root_free|by eapply root_stored| |lia].
  intros k e kid He Hkid. eapply full_stored; try done; [lia|apply (fit_lo _ _ _ _ _ Hfit)|lia|]. by apply (Hk k).
Qed.
Lemma full_index_blocks m f bm T : full_index m f bm T → blocks_ok ni T.
Proof.
  intros H. split.
  - apply (fi_dup _ _ _ _ H).
  - apply list.Forall_forall. intros u Hu. destruct (fi_bits _ _ _ _ H u Hu) as (b & -> & Hb & _). destruct (block_of_bit ni sizes Hgeo b Hb) as (_ & -> & _).
    apply Z.mod_mul. pose proof (geo_block _ _ Hgeo). lia.
  - intros u v Hu Hv Hne E. destruct (fi_bits _ _ _ _ H u Hu) as (b & -> & Hb & _), (fi_bits _ _ _ _ H v Hv) as (b' & -> & Hb' & _). apply Hne. f_equal.
    destruct (block_of_bit ni sizes Hgeo b Hb) as (_ & E1 & _), (block_of_bit ni sizes Hgeo b' Hb') as (_ & E2 & _). pose proof (geo_block _ _ Hgeo). nia.
Qed.

(** ** The levels of a path *)

Section path.
Context (m : list Z) (f : contents) (bm : bitmap) (T : btree).
Hypothesis (HT : full_index m f bm T).

Record level_shape (P : path_level) : Prop := {
  ls_flags : has (pl_flags P) INDEX_NODE = bool_decide (pl_kids P ≠ []);
  ls_kids : pl_kids P = [] ∨ length (pl_kids P) = S (length (pl_es P));
  ls_children : ∀ k e kid, (pl_es P ++ [pl_fin P]) !! k = Some e → pl_kids P !! k = Some kid → full_tree f kid (e_vcn e);
  ls_nr : (pl_nr P ≤ length (pl_es P))%nat
}.
(** The node of [C] is the child of [P] at its entry. *)
Definition link (P C : path_level) : Prop := pl_kids P !! pl_nr P = Some (pl_tree C) ∧ pl_vcns P !! pl_nr P = Some (pl_vcn C).

(** The path with its levels; [pre] and [post] are the entries before and after those of the lowest
    node. *)
Inductive levels (x : root_parts) (R : path_level) : path → list path_level → list (list Z) → list (list Z) → Prop :=
| levels_root c :
    pl_tree R = T → root_of m x (pl_flags R) (pl_es R) (pl_fin R) (pl_kids R) → level_shape R → root_level R x c → levels x R [c] [R] [] []
| levels_block c c' up P Q Us pre post :
    levels x R (c' :: up) (Q :: Us) pre post → ic_is_locked c' = false → link Q P →
    full_node f (pl_vcn P) (pl_gap P) (pl_flags P) (pl_es P) (pl_fin P) (pl_kids P) → level_shape P → block_level ni P c →
    levels x R (c :: c' :: up) (P :: Q :: Us)
      (pre ++ before (pl_nr Q) (pl_es Q) (inorder <$> pl_kids Q)) (after (pl_nr Q) (pl_es Q) (inorder <$> pl_kids Q) ++ post).

(** The entries of a node are where its header says. *)
Lemma stored_first b index n t g : stored_node ni max_entries b index n t → le32_at b (index + ih_entries_offset) = Ret (Z.of_nat (16 + g)) → node_first n = (index + 16 + g)%nat.
Proof.
  intros Hn Hg. rewrite (node_head32 _ _ _ _ _ _ _ Hn) in Hg by in_entry. injection Hg as Hg. destruct Hn as [_ <- Hok _ _]. rewrite (node_offset _ _ Hok) in Hg.
  unfold node_first. rewrite !length_app, (node_head _ _ Hok). lia.
Qed.
Lemma context_offsets c n es fin kids b index k g :
  stored_node ni max_entries b index n (Node es fin kids) → le32_at b (index + ih_entries_offset) = Ret (Z.of_nat (16 + g)) → ic_entries c = offsets (node_first n) (node_all n) → entry_is c k →
  ic_entries c = offsets (index + 16 + g) (es ++ [fin]) ∧ (k ≤ length es)%nat ∧ ic_entry c = (index + 16 + g + length (concat (take k es)))%nat.
Proof.
  intros Hn Hg He [_ Hk]. rewrite (stored_first _ _ _ _ _ Hn Hg) in He. destruct Hn as [_ _ _ _ (<- & <- & _)]. rewrite He in Hk. split; [done|].
  pose proof (lookup_lt_Some _ _ _ Hk) as Hlt. rewrite length_offsets in Hlt. unfold node_all in *. rewrite length_app in Hlt. cbn in Hlt. split; [lia|].
  rewrite offsets_take in Hk by lia. by injection Hk.
Qed.
Lemma block_head32 v g flags es fin k : block_is ni f v g flags es fin → (k + 4 ≤ 16)%nat → ∃ h,
  head_ok ni h g (used g es fin) flags ∧ le32_at (page_bytes f (block_page ni v)) (index_at ni v + k) = Ret (get32 h k).
Proof.
  intros (_ & h & gap & r & Hg & Hh & [_ (p & q & Hpage & Hp)]) Hk. exists h. split; [done|]. rewrite Hpage, <- Hp, <- !(assoc_L (++)). apply le32_part. rewrite (head_length _ _ _ _ _ Hh). lia.
Qed.

Lemma block_context_level c v g flags es fin kids k :
  full_node f v g flags es fin kids → describes ni max_entries m f c (Node es fin kids) → ic_is_root c = false → block_context ni f c v → entry_is c k →
  block_level ni (mk_plevel v g flags es fin k kids) c ∧ (k ≤ length es)%nat.
Proof.
  intros [_ _ Hb _ _ _ _ _] [(n & Hn & Hes) _ _ _ _] Hr [Hv Hpg Hix (al & len & Hal & Hlen & Hfree)] Hk. rewrite Hr, Hpg, Hix in Hn. fold (index_at ni v) in Hix, Hn.
  pose proof (geo_block _ _ Hgeo). destruct (block_is_entries ni _ _ _ _ _ _ Hb) as [_ Hu]. rewrite Hpg, Hix in Hal, Hlen.
  destruct (block_head32 v g flags es fin ih_entries_offset Hb ltac:(in_entry)) as (h1 & Hh1 & E1). rewrite (head_offset _ _ _ _ _ Hh1) in E1.
  destruct (block_head32 v g flags es fin ih_allocated_size Hb ltac:(in_entry)) as (h2 & Hh2 & E2). rewrite (head_allocated _ _ _ _ _ Hh2), Hal in E2. injection E2 as ->.
  destruct (block_head32 v g flags es fin ih_index_length Hb ltac:(in_entry)) as (h3 & Hh3 & E3). rewrite (head_index_length _ _ _ _ _ Hh3), Hlen in E3. injection E3 as ->.
  destruct (context_offsets c n es fin kids _ _ k g Hn E1 Hes Hk) as (E4 & Hle & E5). split; [|done]. split; cbn [pl_vcn pl_gap pl_es pl_fin pl_nr]; [by split|done|apply Hk|done|].
  rewrite Hfree, uwrap_id by lia. done.
Qed.

Lemma root_context_level c x flags es fin kids k :
  root_of m x flags es fin kids → describes ni max_entries m f c (Node es fin kids) → ic_is_root c = true → ic_index c = root → root_fields ni m c → entry_is c k →
  root_level (mk_plevel 0 0 flags es fin k kids) x c ∧ (k ≤ length es)%nat.
Proof.
  intros [Hm Hx Hroot _ _ _ _] [(n & Hn & Hes) _ _ _ _] Hr Hi [Ha Hfree] Hk. rewrite Hr, Hi in Hn. destruct (root_found_at _ _ _ _ _ Hx) as [Hfind _]. rewrite <- Hm, Ha in Hfind. injection Hfind as Ea.
  pose proof (root_free _ _ _ _ _ Hx) as Hf. rewrite <- Hm, Hfree in Hf. injection Hf as Ef. destruct (root_index_head _ _ _ _ _ Hx) as [_ Lh Ho _ _].
  assert (le32_at m (root + ih_entries_offset) = Ret (Z.of_nat (16 + length (rt_gap x)))) as E1.
  { rewrite Hm, <- Hroot, rt_root_length. unfold rt_bytes. rewrite rt_mft_bytes, <- !(assoc_L (++)). rewrite (assoc_L (++) (rt_head x)), (assoc_L (++) (rt_head x ++ _)), <- (assoc_L (++) (rt_head x)).
    rewrite le32_part by in_entry. by rewrite Ho. }
  destruct (context_offsets c n es fin kids _ _ k _ Hn E1 Hes Hk) as (_ & Hle & E5). split; [|done]. split; [|done]. split; try done; cbn [pl_es pl_nr]; by rewrite Hroot.
Qed.

Lemma path_levels p t pre post : path_to ni max_entries root m f T p t pre post → ∀ c up k, p = c :: up → entry_is c k →
  ∃ x R P Us, levels x R (c :: up) (P :: Us) pre post ∧ pl_tree P = t ∧ pl_nr P = k.
Proof.
  induction 1 as [c Hd Hr Hi Hrf|c c' up k es fin kids kid e pre post Hp IH Hk Hkid Hl Hd Hr He Hbc]; intros c0 up0 k0 [= <- <-] Hk0.
  - pose proof HT as [_ Hroot Hch _ _ _]. destruct T as [es fin kids] eqn:ET. destruct Hroot as (x & flags & Hro). destruct (root_context_level c x flags es fin kids k0) as [Hrl Hle]; try done.
    exists x, (mk_plevel 0 0 flags es fin k0 kids), (mk_plevel 0 0 flags es fin k0 kids), []. split; [|done]. apply levels_root; try done. destruct Hro. by split.
  - destruct (IH c' up k eq_refl Hk) as (x & R & Q & Us & Hlv & HQ & Hnr). assert (level_shape Q) as [_ _ Hch Hle] by by inversion Hlv.
    destruct Q as [qv qg qf qes qfin qnr qkids]. unfold pl_tree in HQ. cbn in HQ, Hnr, Hch. injection HQ as -> -> ->. subst qnr.
    specialize (Hch k e kid He Hkid). inversion Hch as [es' fin' kids' v g flags Hn Hc']; subst. destruct (block_context_level c _ g flags es' fin' kids' k0 Hn) as [Hbl Hle']; try done.
    exists x, R, (mk_plevel (e_vcn e) g flags es' fin' k0 kids'), (mk_plevel qv qg qf es fin k kids :: Us). split; [|done].
    apply (levels_block x R c c' up (mk_plevel (e_vcn e) g flags es' fin' k0 kids') (mk_plevel qv qg qf es fin k kids) Us pre post); try done.
    + split; [done|]. unfold pl_vcns. cbn. by rewrite list_lookup_fmap, He.
    + destruct Hn as [_ _ _ _ ? ? _ _]. by split.
Qed.

(** What the levels are. *)
Lemma levels_lookup x R p Ps pre post : levels x R p Ps pre post → ∀ j P, Ps !! j = Some P →
  level_shape P ∧ (∃ c, p !! j = Some c ∧ at_level ni Ps R x j P c ∧ (j ≠ 0%nat → ic_is_locked c = false)) ∧
  ((S j < length Ps)%nat → full_node f (pl_vcn P) (pl_gap P) (pl_flags P) (pl_es P) (pl_fin P) (pl_kids P)).
Proof.
  induction 1 as [c Ht Hro Hs Hc|c c' up P Q Us pre post Hlv IH Hl Hlink Hn Hs Hc]; intros j P' HP'.
  - destruct j as [|j]; [|done]. injection HP' as <-. split; [done|]. split; [by exists c|cbn; lia].
  - destruct j as [|j]; [injection HP' as <-; split; [done|]; split; [by exists c|done]|]. destruct (IH j P' HP') as (Hs' & (c2 & Hc2 & Hat & Hl2) & Hn'). split; [done|].
    split; [|intros Hlt; apply Hn'; cbn in *; lia]. exists c2. split; [done|]. split; [done|]. intros _. destruct j as [|j]; [|by apply Hl2]. by injection Hc2 as <-.
Qed.
Lemma levels_link x R p Ps pre post : levels x R p Ps pre post → ∀ j Q C, Ps !! S j = Some Q → Ps !! j = Some C → link Q C.
Proof.
  induction 1 as [c Ht Hro Hs Hc|c c' up P Q Us pre post Hlv IH Hl Hlink Hn Hs Hc]; intros j Q' C HQ HC; [done|]. destruct j as [|j]; [|by apply (IH j)].
  injection HQ as <-. by injection HC as <-.
Qed.
Lemma levels_last x R p Ps pre post : levels x R p Ps pre post → Ps !! (length Ps - 1)%nat = Some R ∧ pl_tree R = T ∧ root_of m x (pl_flags R) (pl_es R) (pl_fin R) (pl_kids R) ∧ length p = length Ps.
Proof.
  induction 1 as [c Ht Hro Hs Hc|c c' up P Q Us pre post Hlv (E & ? & ? & L) Hl Hlink Hn Hs Hc]; [done|]. cbn in *. rewrite Nat.sub_0_r in E. split_and!; try done. lia.
Qed.

(** The items before and behind the position of the path. *)
Lemma levels_cut x R p Ps pre post : levels x R p Ps pre post → ∀ Bs b, length Bs = S b → let Qs := Bs ++ tl Ps in
  cut ni Qs (b + length (tl Ps)) = ((e_item ni <$> pre) ++ (cut ni Qs b).1, (cut ni Qs b).2 ++ (e_item ni <$> post)).
Proof.
  induction 1 as [c Ht Hro Hs Hc|c c' up P Q Us pre post Hlv IH Hl Hlink Hn Hs Hc]; intros Bs b Hb Qs; cbn [tl length] in *.
  - rewrite Nat.add_0_r. cbn [fmap list_fmap app]. rewrite app_nil_r. by destruct (cut ni Qs b).
  - specialize (IH (Bs ++ [Q]) (S b)). rewrite <- (assoc_L (++)) in IH. cbn [app] in IH. fold Qs in IH. rewrite length_app in IH. cbn [length] in IH. specialize (IH ltac:(lia)).
    replace (b + S (length Us))%nat with (S b + length Us)%nat by lia. cbv zeta in IH. assert (Qs !! S b = Some Q) as EQ by (unfold Qs; apply list_lookup_middle; lia). rewrite IH. cbn [cut]. rewrite EQ. cbn [fst snd].
    rewrite !fmap_app, before_fmap, after_fmap, <- !list_fmap_compose. by rewrite <- !(assoc_L (++)).
Qed.

(** What a plan that is given up leaves is the same index. *)
Lemma kept_blocks f' bm' vs t v : kept ni sizes f bm f' bm' vs → full_tree f t v → (∀ u, u ∈ blocks t v → u ∈ all_blocks T) → full_tree f' t v.
Proof.
  intros [_ _ Ho Hfree] Ht Hsub. pose proof (geo_block _ _ Hgeo). eapply full_tree_frame; [lia|exact Ht|exact Ho|]. intros u w Hu Hw.
  pose proof (fi_bits _ _ _ _ HT u (Hsub u Hu)) as H1. pose proof (Hfree w Hw) as H2. eapply has_bit_ne; [done|exact H1|exact H2|]. by eapply has_bit_apart.
Qed.
Lemma kept_index f' bm' vs : kept ni sizes f bm f' bm' vs → full_index m f' bm' T.
Proof.
  intros Hk. pose proof Hk as [Hb Hbits _ _]. pose proof HT as [_ Hroot Hch Ha Hd Hu]. pose proof (kept_blocks f' bm' vs) as Hkb. destruct T as [es fin kids]. split; try done.
  - intros k e kid He Hkid. apply Hkb; [exact Hk|by apply (Hch k)|]. intros u Hu'. by eapply kid_blocks_elem.
  - intros u Hu'. destruct (Hu u Hu') as (b & -> & Hb' & Hbit). exists b. split_and!; try done. apply Hbits; [apply Hb'|done].
Qed.

Section leaf.
Context (x : root_parts) (R : path_level) (p : path) (Ps : list path_level) (pre post : list (list Z)).
Hypothesis (Hlv : levels x R p Ps pre post) (Hleaf : ∀ P, Ps !! 0%nat = Some P → pl_kids P = []).

Lemma level_leaf_iff j P : Ps !! j = Some P → pl_kids P = [] ↔ j = 0%nat.
Proof.
  intros HP. split; [|intros ->; by apply Hleaf]. intros E. destruct j as [|j]; [done|]. destruct (lookup_lt_is_Some_2 Ps j) as [C HC]; [apply lookup_lt_Some in HP; lia|].
  destruct (levels_link _ _ _ _ _ _ Hlv j P C HP HC) as [Hk _]. by rewrite E in Hk.
Qed.
Lemma levels_path_ok j P : Ps !! j = Some P → path_ok ni lo hi G F Ps f j P.
Proof.
  intros HP. destruct (levels_lookup _ _ _ _ _ _ Hlv j P HP) as ([Hfl Hk Hch Hnr] & _ & _). split; try done; [by apply level_leaf_iff|].
  intros i C -> HC. by apply (levels_link _ _ _ _ _ _ Hlv i).
Qed.

(** The blocks of the tree are those of the path and those beside it. *)
Lemma levels_blocks j : ∀ P, Ps !! j = Some P → kb (pl_vcns P) (pl_kids P) ≡ₚ concat (siblings <$> take (S j) Ps) ++ (pl_vcn <$> take j Ps).
Proof.
  induction j as [|j IH]; intros P HP; rewrite (take_S_r _ _ _ HP), fmap_app, concat_app; cbn [fmap list_fmap concat].
  - unfold siblings. rewrite (Hleaf P HP), take_nil, drop_nil, !app_nil_r. unfold kb. by destruct (pl_vcns P), (take (pl_nr P) _), (drop (S (pl_nr P)) _).
  - destruct (lookup_lt_is_Some_2 Ps j) as [C HC]; [apply lookup_lt_Some in HP; lia|]. destruct (levels_link _ _ _ _ _ _ Hlv j P C HP HC) as [Hk1 Hk2].
    rewrite (kb_split _ _ _ _ _ Hk2 Hk1). unfold pl_tree. rewrite blocks_node, kid_blocks_kb. fold (pl_vcns C). rewrite (IH C HC).
    rewrite (take_S_r _ _ _ HC), !fmap_app, concat_app, app_nil_r. cbn [fmap list_fmap concat]. rewrite app_nil_r. unfold siblings at 3. apply perm_move.
Qed.

Lemma levels_all_blocks : all_blocks T ≡ₚ concat (siblings <$> Ps) ++ (pl_vcn <$> take (length Ps - 1) Ps).
Proof.
  destruct (levels_last _ _ _ _ _ _ Hlv) as (HR & <- & _ & _). unfold pl_tree, all_blocks. rewrite kid_blocks_kb. fold (pl_vcns R). rewrite (levels_blocks _ _ HR).
  apply lookup_lt_Some in HR. rewrite (take_ge Ps) by lia. done.
Qed.
Lemma level_vcn_elem j P : Ps !! j = Some P → (S j < length Ps)%nat → pl_vcn P ∈ pl_vcn <$> take (length Ps - 1) Ps.
Proof. intros HP Hj. apply list_elem_of_fmap. exists P. split; [done|]. apply (list_elem_of_lookup_2 _ j). rewrite lookup_take_lt by lia. done. Qed.
Lemma level_vcn_block j P : Ps !! j = Some P → (S j < length Ps)%nat → pl_vcn P ∈ all_blocks T.
Proof. intros HP Hj. rewrite levels_all_blocks. apply elem_of_app. right. by eapply level_vcn_elem. Qed.

Lemma sibling_block j P w : Ps !! j = Some P → w ∈ siblings P → w ∈ all_blocks T ∧ ∀ i Q, Ps !! i = Some Q → (S i < length Ps)%nat → w ≠ pl_vcn Q.
Proof.
  intros HP Hw. assert (w ∈ concat (siblings <$> Ps)) as Hc.
  { apply list_elem_of_In, in_concat. exists (siblings P). rewrite <- !list_elem_of_In. split; [|done]. apply list_elem_of_fmap. exists P. split; [done|]. by eapply list_elem_of_lookup_2. }
  split; [rewrite levels_all_blocks; apply elem_of_app; by left|]. intros i Q HQ Hi ->. pose proof (fi_dup _ _ _ _ HT) as Hnd. rewrite levels_all_blocks in Hnd.
  apply list.NoDup_app in Hnd as (_ & Hd & _). apply (Hd _ Hc). by eapply level_vcn_elem.
Qed.
Lemma level_vcns_distinct i j P Q : Ps !! i = Some P → Ps !! j = Some Q → (S i < length Ps)%nat → (S j < length Ps)%nat → i ≠ j → pl_vcn P ≠ pl_vcn Q.
Proof.
  intros HP HQ Hi Hj Hne E. pose proof (fi_dup _ _ _ _ HT) as Hnd. rewrite levels_all_blocks in Hnd. apply list.NoDup_app in Hnd as (_ & _ & Hnd).
  apply Hne. apply (NoDup_lookup _ i j (pl_vcn P) Hnd); rewrite list_lookup_fmap, lookup_take_lt by lia; [by rewrite HP|by rewrite HQ, E].
Qed.

Lemma levels_fits size0 : (∀ P, Ps !! 0%nat = Some P → size_ok (pl_flags P) size0) → path_fits ni sizes lo hi G F size0 Ps R x f bm.
Proof.
  intros Hsz. destruct (levels_last _ _ _ _ _ _ Hlv) as (HR & _ & Hro & _). split; try done.
  - by destruct Hro.
  - intros j P HP. by apply (levels_lookup _ _ _ _ _ _ Hlv j P HP).
  - intros j P HP. destruct (levels_lookup _ _ _ _ _ _ Hlv j P HP) as ([-> _ _ _] & _ & _). pose proof (level_leaf_iff j P HP) as Hl.
    destruct (Nat.eqb_spec j 0) as [E|E]; cbn [negb]; [apply bool_decide_eq_false_2|apply bool_decide_eq_true_2]; rewrite Hl; tauto.
  - intros j P HP. by destruct (levels_lookup _ _ _ _ _ _ Hlv j P HP) as ([_ _ _ Hnr] & _ & _).
  - intros j P HP Hj. destruct (levels_lookup _ _ _ _ _ _ Hlv j P HP) as ([_ Hk Hch _] & _ & _). destruct Hk as [Hk|Hk]; [apply (level_leaf_iff j P HP) in Hk; lia|].
    apply Forall_fmap, Forall_lookup. intros k e He. destruct (lookup_lt_is_Some_2 (pl_kids P) k) as [kid Hkid]; [apply lookup_lt_Some in He; lia|].
    specialize (Hch k e kid ltac:(by apply lookup_app_l_Some) Hkid). by inversion Hch as [? ? ? ? ? ? [Hv _ _ _ _ _ _ _] _].
  - intros j P HP Hlt. apply (fi_bits _ _ _ _ HT). by eapply level_vcn_block.
  - intros i j P Q. by apply level_vcns_distinct.
Qed.

(** ** The index after the work *)

Section grown.
Context (key data : list Z) (size0 : Z) (f1 : contents) (bm1 : bitmap) (Ls : list split_level) (f2 : contents) (vs : list Z).
Abbreviation ins := (insertion_at ni (mk_insertion (key, data) None size0) Ls).
Hypothesis (Hpf : path_fits ni sizes lo hi G F size0 Ps R x f bm) (Hpn : planned ni sizes lo hi G key data size0 Ps f bm f1 bm1 Ls).
Hypothesis (Hvs : ∀ v, v ∈ vs → (∃ j P, (j ≤ length Ls)%nat ∧ Ps !! j = Some P ∧ (S j < length Ps)%nat ∧ v = pl_vcn P) ∨ ∃ j L, Ls !! j = Some L ∧ v = sl_right L).
Hypothesis (Hch : changes ni f1 f2 vs) (Hf2 : byte_contents f2).

Lemma planned_index : full_index m f1 bm1 T.
Proof. eapply kept_index, planned_kept; [exact Hpn|]. split; [apply (pn_bytes _ _ _ _ _ _ _ _ _ _ _ _ _ _ Hpn)|done]. Qed.

Lemma planned_bit v : v ∈ vs → has_bit bm1 v true.
Proof.
  intros Hv. destruct (Hvs v Hv) as [(j & P & _ & HP & Hj & ->)|(j & L & HL & ->)].
  - eapply has_bit_mono; [exact Hpn|]. by apply (pf_bits _ _ _ _ _ _ _ _ _ _ _ _ Hpf j).
  - by apply (pn_rights _ _ _ _ _ _ _ _ _ _ _ _ _ _ Hpn j).
Qed.

(** The blocks of the path that are not changed, and those beside it. *)
Lemma sibling_apart j P w v : Ps !! j = Some P → w ∈ siblings P → v ∈ vs → apart ni w v.
Proof.
  intros HP Hw Hv. destruct (sibling_block j P w HP Hw) as [Hw1 Hw2]. pose proof (fi_bits _ _ _ _ HT w Hw1) as Hb. pose proof (planned_bit v Hv) as Hb'.
  eapply has_bit_ne; [done|exact Hb|exact Hb'|]. destruct (Hvs v Hv) as [(i & Q & _ & HQ & Hi & ->)|(i & L & HL & ->)]; [by apply (Hw2 i)|].
  eapply has_bit_apart; [done|exact Hb|]. by apply (pn_rights _ _ _ _ _ _ _ _ _ _ _ _ _ _ Hpn i).
Qed.
Lemma upper_apart i Q v : (length Ls < i)%nat → (S i < length Ps)%nat → Ps !! i = Some Q → v ∈ vs → apart ni (pl_vcn Q) v.
Proof.
  intros Hn Hi HQ Hv. pose proof (pf_bits _ _ _ _ _ _ _ _ _ _ _ _ Hpf i Q HQ Hi) as Hb. pose proof (planned_bit v Hv) as Hb'.
  eapply has_bit_ne; [done|exact Hb|exact Hb'|]. destruct (Hvs v Hv) as [(j & P & Hj & HP & Hjl & ->)|(j & L & HL & ->)].
  - apply (level_vcns_distinct i j); try done. lia.
  - eapply has_bit_apart; [done|exact Hb|]. by apply (pn_rights _ _ _ _ _ _ _ _ _ _ _ _ _ _ Hpn j).
Qed.

Lemma grown_path j P : Ps !! j = Some P → path_ok ni lo hi G F Ps f1 j P ∧ others ni vs P.
Proof.
  intros HP. split; [|intros k u kid Hk Hu Hkid w v Hw Hv; eapply sibling_apart; [exact HP|by eapply siblings_elem|done]].
  destruct (levels_path_ok j P HP) as [Hs Hkids Hl Hnr Hlink]. split; try done. intros k e kid He Hkid.
  assert (kept ni sizes f bm f1 bm1 (sl_right <$> Ls)) as Hkept by (eapply planned_kept; [exact Hpn|]; split; [apply (pn_bytes _ _ _ _ _ _ _ _ _ _ _ _ _ _ Hpn)|done]).
  eapply kept_blocks; [exact Hkept|by apply (Hkids k)|]. intros u Hu.
  assert (u ∈ kb (pl_vcns P) (pl_kids P)) as Hkb by (eapply (kb_elem _ _ k); [|done|done]; unfold pl_vcns; by rewrite list_lookup_fmap, He).
  rewrite (levels_blocks j P HP) in Hkb. rewrite levels_all_blocks. apply lookup_lt_Some in HP. apply elem_of_app in Hkb. apply elem_of_app. destruct Hkb as [Hkb|Hkb]; [left|right].
  - rewrite <- (take_drop (S j) Ps), fmap_app, concat_app. apply elem_of_app. by left.
  - replace (take (length Ps - 1) Ps) with (take j (take (length Ps - 1) Ps) ++ drop j (take (length Ps - 1) Ps)) by apply take_drop.
    rewrite take_take, Nat.min_l, fmap_app by lia. apply elem_of_app. by left.
Qed.

Lemma grown_header u : has_bit bm1 u true → block_header ni f1 u → block_header ni f2 u.
Proof.
  intros Hu Hh. pose proof (geo_block _ _ Hgeo). eapply header_changes; [lia|exact Hh|exact Hch|]. intros w Hw. destruct (decide (w = u)) as [->|Hne]; [by left|right].
  eapply has_bit_ne; [done|exact Hu|by apply planned_bit|done].
Qed.
Lemma path_bit j P : Ps !! j = Some P → (S j < length Ps)%nat → has_bit bm1 (pl_vcn P) true.
Proof. intros HP Hj. eapply has_bit_mono; [exact Hpn|]. by apply (pf_bits _ _ _ _ _ _ _ _ _ _ _ _ Hpf j). Qed.

Lemma grown_levels j L : Ls !! j = Some L → (S j < length Ps)%nat ∧ ∃ P, Ps !! j = Some P ∧ tree_level ni lo hi G ins f2 j P L.
Proof.
  intros HL. destruct (pn_levels _ _ _ _ _ _ _ _ _ _ _ _ _ _ Hpn j L HL) as (Hj & P & HP & [EL Hr [Hh1 Hh2] Hs] & _). split; [done|]. exists P. split; [done|]. split; try done. split.
  - apply grown_header; [|done]. rewrite EL. by eapply path_bit.
  - apply grown_header; [|done]. by apply (pn_rights _ _ _ _ _ _ _ _ _ _ _ _ _ _ Hpn j).
Qed.

(** The new tree. *)
Lemma grown_index m' x' es' fin' K :
  root_of m' x' (pl_flags R) es' fin' K → (K = [] ↔ pl_kids R = []) → grown ni lo hi G F f2 (e_vcn <$> es' ++ [fin']) K →
  kb (e_vcn <$> es' ++ [fin']) K ≡ₚ kb (pl_vcns R) (pl_kids R) ++ (sl_right <$> Ls) → full_index m' f2 bm1 (Node es' fin' K).
Proof.
  intros Hro HK Hg Hkb. destruct (levels_last _ _ _ _ _ _ Hlv) as (HR & ET & _ & _). destruct (pn_bytes _ _ _ _ _ _ _ _ _ _ _ _ _ _ Hpn) as [_ Hbm1].
  assert (all_blocks T = kb (pl_vcns R) (pl_kids R)) as Eall by (rewrite <- ET; unfold pl_tree, all_blocks; by rewrite kid_blocks_kb).
  pose proof (fi_dup _ _ _ _ HT) as Hd. pose proof (fi_bits _ _ _ _ HT) as Hb. pose proof (fi_alloc _ _ _ _ HT) as Ha. rewrite <- ET in Ha. rewrite <- Eall in Hkb.
  split; cbn [all_blocks]; rewrite ?kid_blocks_kb; try done.
  - by exists x', (pl_flags R).
  - intros k e kid He Hkid. apply (Hg k); [|done]. by rewrite list_lookup_fmap, He.
  - intros HKne. apply Ha. intros E. apply HKne. by apply HK.
  - rewrite Hkb. apply list.NoDup_app. split_and!; [done| |apply (pn_distinct _ _ _ _ _ _ _ _ _ _ _ _ _ _ Hpn)].
    intros u Hu Hu'. apply list_elem_of_fmap in Hu' as (L & -> & HL). apply list_elem_of_lookup_1 in HL as [j HL].
    destruct (pn_rights _ _ _ _ _ _ _ _ _ _ _ _ _ _ Hpn j L HL) as [H0 _]. by apply (has_bit_apart ni sizes Hgeo bm (sl_right L) (sl_right L) (Hb _ Hu) H0).
  - intros u. rewrite Hkb. intros [Hu|Hu]%elem_of_app; [eapply has_bit_mono; [exact Hpn|by apply Hb]|].
    apply list_elem_of_fmap in Hu as (L & -> & HL). apply list_elem_of_lookup_1 in HL as [j HL]. by apply (pn_rights _ _ _ _ _ _ _ _ _ _ _ _ _ _ Hpn j).
Qed.

Hypothesis (Hdone : ∀ j L, Ls !! j = Some L → level_done ni Ls ins f2 j L).
Abbreviation at_root := (cut ni Ps (length Ps - 1)).

Lemma all_rights : rights Ls (length Ls) = sl_right <$> Ls.
Proof. unfold rights. by rewrite firstn_all. Qed.

(** The top-most node is in a block. *)
Lemma block_done P es' fin' : let n := length Ls in
  Ps !! n = Some P → (S n < length Ps)%nat → block_is ni f2 (pl_vcn P) (pl_gap P) (pl_flags P) es' fin' → top_done ni Ls ins n (pl_nr P) (pl_es P) (pl_fin P) es' fin' →
  ∃ T', full_index m f2 bm1 T' ∧ items ni T' = at_root.1 ++ (key, data) :: at_root.2.
Proof.
  intros n HP Hn Hb Htop. pose proof (geo_block _ _ Hgeo) as Hbs. assert (64 ≤ block_size ni < 2 ^ 16) as Hbs' by lia. pose proof (fit_lo _ _ _ _ _ Hfit) as [Hlo _].
  pose proof (planned_node ni sizes Hgeo lo hi G F key data size0 Ps R x f bm Hpf f1 bm1 Ls) as Hnodes.
  destruct (top_tree ni Hbs' lo hi G F Hlo Ps Ls ins f1 f2 vs grown_path (λ j P, Hnodes j P Hpn) grown_levels Hch Hdone P es' fin' HP Hn Hb) as [t Ht]; try done.
  { apply grown_header; [by eapply path_bit|]. by destruct (Hnodes n P Hpn HP Hn). }
  { by eapply level_size. }
  set (d := (length Ps - 2 - n)%nat). destruct (lookup_lt_is_Some_2 Ps (n + d)%nat) as [Q HQ]; [lia|]. destruct (levels_last _ _ _ _ _ _ Hlv) as (HR & _ & Hro & _).
  destruct (upper_tree ni Hbs' lo hi G F Ps Ls ins f1 f2 vs grown_path (λ j P, Hnodes j P Hpn) Hch n d P Q t HP Ht) as [c Hc]; [by apply upper_apart|done|lia|].
  replace (length Ps - 1)%nat with (S (n + d)) in * by lia.
  destruct (upper_children ni Hbs' lo hi G F Ps Ls ins f1 f2 vs grown_path Hch (n + d) R Q c HR HQ Hc) as (LK & Hg & Hitems & Hkb). rewrite all_rights in Hkb.
  set (K := <[pl_nr R := c]> (pl_kids R)) in *. exists (Node (pl_es R) (pl_fin R) K). split; [|exact Hitems].
  assert (pl_kids R ≠ []) as Hne by (rewrite (level_leaf_iff _ _ HR); lia). assert (K ≠ []) as HK by (apply length_nonempty; lia).
  apply (grown_index m x); try done. destruct Hro as [? ? ? ? Hfl _ ?]. split; try done; [|by right]. rewrite Hfl. by rewrite !bool_decide_eq_true_2.
Qed.

(** The top-most node is the root. *)
Lemma root_done es' fin' : let n := length Ls in
  let x' := rt_grow x (in_size (ins n)) (Z.of_nat (16 + length (rt_gap x) + length (concat (pl_es R ++ [pl_fin R])))) in
  S n = length Ps → root_is ni x' (pl_flags R) es' fin' → top_done ni Ls ins n (pl_nr R) (pl_es R) (pl_fin R) es' fin' →
  ∃ T', full_index (rt_bytes x' es' fin') f2 bm1 T' ∧ items ni T' = at_root.1 ++ (key, data) :: at_root.2.
Proof.
  intros n x' Hn Hx' Htop. pose proof (geo_block _ _ Hgeo) as Hbs. assert (64 ≤ block_size ni < 2 ^ 16) as Hbs' by lia. pose proof (fit_lo _ _ _ _ _ Hfit) as [Hlo _].
  pose proof (planned_node ni sizes Hgeo lo hi G F key data size0 Ps R x f bm Hpf f1 bm1 Ls) as Hnodes. destruct (levels_last _ _ _ _ _ _ Hlv) as (HR & _ & Hro & _).
  replace (length Ps - 1)%nat with n in * by lia.
  destruct (top_children ni Hbs' lo hi G F Hlo Ps Ls ins f1 f2 vs grown_path (λ j P, Hnodes j P Hpn) grown_levels Hch Hdone R es' fin' HR Htop) as (K & HK0 & HK & Hg & Hitems & Hkb).
  rewrite all_rights in Hkb. exists (Node es' fin' K). split; [|exact Hitems]. pose proof (level_leaf_iff n R HR) as Hl.
  assert (K = [] ↔ pl_kids R = []) as HKR by by rewrite HK0, Hl.
  apply (grown_index _ x'); try done. destruct Hro as [-> Hx Hp Hs Hfl _ Hc]. split; try done.
  - unfold x'. destruct (rt_resize_place ni x (pl_flags R) (pl_es R) (pl_fin R) (in_size (ins n)) (Z.of_nat (16 + length (rt_gap x) + length (concat (pl_es R ++ [pl_fin R]))))
      (drop (Z.to_nat (in_size (ins n))) (rt_spare x)) Hx) as (_ & -> & _). done.
  - destruct Htop as (Lf & Hinfo & _). apply (sizes_info ni) in Hs as [Hs HF]. apply (sizes_info ni). split; [|lia]. rewrite Hinfo. apply list.Forall_app.
    split; [by apply list.Forall_take|]. constructor; [|by apply list.Forall_drop]. eapply size_nat; [done|]. by eapply level_size.
  - rewrite Hfl. apply bool_decide_ext. by rewrite HKR.
  - replace (length (rt_bytes x' es' fin')) with (length (rt_bytes x (pl_es R) (pl_fin R))); [done|]. apply Nat2Z.inj.
    unfold rt_bytes. rewrite <- (ok_allocated _ (root_mft _ _ _ _ _ Hx)), <- (ok_allocated _ (root_mft _ _ _ _ _ Hx')). cbn [m_head rt_mft]. pose proof (ok_head_size _ (root_mft _ _ _ _ _ Hx)) as Lh. cbn [m_head rt_mft] in Lh.
    unfold x', rt_resize. cbn [rt_head]. rewrite get32_splice_other by root_len. done.
Qed.
End grown.

(** ** The work after the plan *)

Section work.
Context (key data : list Z) (size0 data_ofs : Z).
Hypothesis (Hdata : is_view ni = false → length data = 8%nat) (Hentry : entry_fits (is_view ni) data_ofs size0 key data) (H16 : size0 + 8 < 2 ^ 16).
Hypothesis (Hpf : path_fits ni sizes lo hi G F size0 Ps R x f bm).
Context (f1 : contents) (bm1 : bitmap) (Ls : list split_level) (l : list split_context).
Hypothesis (Hpn : planned ni sizes lo hi G key data size0 Ps f bm f1 bm1 Ls) (Hcx : contexts ni key data size0 Ps R x f1 Ls l).
Hypothesis (Hroom : ∀ s, l !! length Ls = Some s → sc_insert_entry_size s ≤ ic_bytes_free (sc_ctx s)).
Abbreviation ins := (insertion_at ni (mk_insertion (key, data) None size0) Ls).
Abbreviation at_root := (cut ni Ps (length Ps - 1)).

Definition grows (r : Z + ()) (errors errors' : bool) (m' : list Z) (f2 : contents) : Prop :=
  match r with
  | inl err => err ≠ 0 ∧ errors' = true
  | inr _ => errors' = errors ∧ ∃ T', full_index m' f2 bm1 T' ∧ items ni T' = at_root.1 ++ (key, data) :: at_root.2
  end.

Lemma level_blocks_path v : v ∈ level_blocks Ls (length Ls) →
  (∃ j P, (j ≤ length Ls)%nat ∧ Ps !! j = Some P ∧ (S j < length Ps)%nat ∧ v = pl_vcn P) ∨ ∃ j L, Ls !! j = Some L ∧ v = sl_right L.
Proof.
  intros (j & L & Hj & HL & [->| ->])%level_blocks_elem; [left|right; by exists j, L]. destruct (pn_levels _ _ _ _ _ _ _ _ _ _ _ _ _ _ Hpn j L HL) as (Hlen & P & HP & [EL _ _ _] & _).
  exists j, P. split_and!; try done; [lia|by rewrite EL].
Qed.

Lemma work_block P s t errors : let n := length Ls in
  Ps !! n = Some P → l !! n = Some s → (S n < length Ps)%nat → block_level ni P (sc_ctx s) → ic_is_locked (sc_ctx s) = true → sc_promote_inserted s = false →
  ins_ok Ls ins n s → lower_ok ni Ls ins f1 l n None →
  ∃ r t' errors' f2, work_loop ni (S n) false key data data_ofs 0 n (child_nr n) l (mk_world t errors m f1) = Ret (r, mk_world t' errors' m f2) ∧ grows r errors errors' m f2.
Proof.
  intros n HP Hs Hn [Hctx _ _ _ Hfree] Hlk Hpi Hins Hlow. pose proof (geo_block _ _ Hgeo) as Hbs. assert (64 ≤ block_size ni < 2 ^ 16) as Hbs' by lia.
  pose proof (planned_node ni sizes Hgeo lo hi G F key data size0 Ps R x f bm Hpf f1 bm1 Ls n P Hpn HP Hn) as [_ _ Hb _ _ _ _ _]. pose proof (Hroom s Hs) as Hr. pose proof Hins as [Hz _].
  destruct (work_top_block ni m Hbs' key data data_ofs Hdata Ls ins ltac:(done) (insertion_at_S ni _ Ls)
    (λ i j L L', planned_levels_apart ni sizes Hgeo lo hi G F key data size0 Ps R x f bm Hpf f1 bm1 Ls i j L L' Hpn)
    n 0 (pl_vcn P) (pl_gap P) (pl_flags P) (pl_es P) (pl_fin P) (pl_nr P) n l s f1 t errors) as (r & t' & errors' & f2 & E & Hq); try done.
  - apply (pn_bytes _ _ _ _ _ _ _ _ _ _ _ _ _ _ Hpn).
  - by apply (pf_nr _ _ _ _ _ _ _ _ _ _ _ _ Hpf n).
  - by apply (pf_flags _ _ _ _ _ _ _ _ _ _ _ _ Hpf n).
  - lia.
  - intros i L HL. destruct (pn_levels _ _ _ _ _ _ _ _ _ _ _ _ _ _ Hpn i L HL) as (Hlen & Q & HQ & [EL _ _ _] & _). split.
    + rewrite EL. eapply has_bit_ne; [done|by apply (pf_bits _ _ _ _ _ _ _ _ _ _ _ _ Hpf i Q)|by apply (pf_bits _ _ _ _ _ _ _ _ _ _ _ _ Hpf n P)|].
      apply (pf_distinct _ _ _ _ _ _ _ _ _ _ _ _ Hpf i n); try done. apply lookup_lt_Some in HL. lia.
    + apply apart_sym. by eapply path_right_apart.
  - exists r, t', errors', f2. split; [exact E|]. destruct r as [err|]; [destruct Hq; split; [by apply env_err_nonzero|done]|]. destruct Hq as (-> & Hf2 & Hch & Hdone & es' & fin' & Hb' & Htop).
    split; [done|]. eapply block_done; try done. intros v [->|Hv]%elem_of_cons; [left; exists n, P; split_and!; done || lia|by apply level_blocks_path].
Qed.

Lemma work_root s t errors : let n := length Ls in
  l !! n = Some s → S n = length Ps → root_level R x (sc_ctx s) → ic_is_locked (sc_ctx s) = true → sc_promote_inserted s = false →
  ins_ok Ls ins n s → lower_ok ni Ls ins f1 l n (in_src (ins n)) → source_locked ni key data size0 Ps Ls l →
  ∃ r t' errors' m' f2, work_loop ni (S n) false key data data_ofs 0 n (child_nr n) l (mk_world t errors m f1) = Ret (r, mk_world t' errors' m' f2) ∧ grows r errors errors' m' f2.
Proof.
  intros n Hs Hn [Hctx Hfree] Hlk Hpi Hins Hlow Hsrc. pose proof (geo_block _ _ Hgeo) as Hbs. assert (64 ≤ block_size ni < 2 ^ 16) as Hbs' by lia.
  destruct (levels_last _ _ _ _ _ _ Hlv) as (HR & _ & Hro & _). replace (length Ps - 1)%nat with n in HR by lia. pose proof (Hroom s Hs) as Hr. pose proof Hins as (Hz & Hsr & _).
  pose proof (level_size ni sizes lo hi G F key data size0 Ps R x f bm Hpf f1 bm1 Ls n R Hpn ltac:(done) HR) as [_ H8].
  destruct (work_top_root ni Hbs' key data data_ofs Hdata Ls ins ltac:(done) (insertion_at_S ni _ Ls)
    (λ i j L L', planned_levels_apart ni sizes Hgeo lo hi G F key data size0 Ps R x f bm Hpf f1 bm1 Ls i j L L' Hpn)
    n 0 x (pl_flags R) (pl_es R) (pl_fin R) (pl_nr R) n l s f1 t errors) as (es' & fin' & Hx' & Htop & r & t' & errors' & f2 & E & Hq); try done.
  - apply (pn_bytes _ _ _ _ _ _ _ _ _ _ _ _ _ _ Hpn).
  - apply Hro.
  - by apply (pf_nr _ _ _ _ _ _ _ _ _ _ _ _ Hpf n).
  - by apply (pf_flags _ _ _ _ _ _ _ _ _ _ _ _ Hpf n).
  - lia.
  - by rewrite Hsr.
  - intros j sj Hj Hsj. rewrite Hsr in Hj. by apply (Hsrc Hn j).
  - rewrite (ro_bytes _ _ _ _ _ _ Hro). eexists r, t', errors', _, f2. split; [exact E|]. destruct r as [err|]; [destruct Hq; split; [by apply env_err_nonzero|done]|].
    destruct Hq as (-> & Hf2 & Hch & Hdone). split; [done|]. eapply root_done; try done. by apply level_blocks_path.
Qed.

Lemma work_ready t errors : let n := length Ls in
  ∃ r t' errors' m' f2, work_loop ni (S n) false key data data_ofs 0 n (child_nr n) l (mk_world t errors m f1) = Ret (r, mk_world t' errors' m' f2) ∧ grows r errors errors' m' f2.
Proof.
  intros n. destruct Hcx as (P & s & HP & Hs & Hat & Hlk & Hpi & Hins & Hlow & Hsrc & _). unfold at_level, lock_of in *. destruct (Nat.ltb_spec (S (length Ls)) (length Ps)) as [Hlt|Hge].
  - destruct (work_block P s t errors HP Hs Hlt Hat Hlk Hpi Hins Hlow) as (r & t' & errors' & f2 & E & Hq). by exists r, t', errors', m, f2.
  - apply (work_root s); try done. apply lookup_lt_Some in HP. lia.
Qed.

Abbreviation ST t errors m f bm last := (mk_istate (mk_world t errors m f) bm last).

(** The rest of the function when the plan is ready. *)
Lemma ready_end t errors last : let n := length Ls in
  ∃ err t' errors' m' f2, (_ ← check (match child_nr n with None => Ret () | Some j => s ← rd l j; if ic_is_root (sc_ctx s) then Panic else Ret () end);
      r ← in_world (work_loop ni (S n) false key data data_ofs 0 n (child_nr n) l);
      mret (Some (match r with inl err => err | inr _ => 0 end))) (ST t errors m f1 bm1 last) = Ret (Some err, ST t' errors' m' f2 bm1 last) ∧
    if err =? 0 then errors' = errors ∧ ∃ T', full_index m' f2 bm1 T' ∧ items ni T' = at_root.1 ++ (key, data) :: at_root.2 else errors' = true.
Proof.
  intros n. pose proof Hcx as (P & s & _ & _ & _ & _ & _ & _ & Hlow & _). assert ((match child_nr n with None => Ret () | Some j => s ← rd l j; if ic_is_root (sc_ctx s) then Panic else Ret () end) = Ret ()) as Ec.
  { unfold n, child_nr. destruct (length Ls) as [|j] eqn:En; [done|]. destruct (lookup_lt_is_Some_2 Ls j ltac:(lia)) as [L HL]. destruct (Hlow j L ltac:(lia) HL) as (_ & sj & Hsj & Hctx & _).
    rewrite (rd_Ret _ _ _ Hsj). cbn [mbind outcome_bind]. by rewrite (context_root _ _ _ _ _ _ (ctx_node _ _ _ _ _ _ Hctx)). }
  erewrite check_step by exact Ec. destruct (work_ready t errors) as (r & t' & errors' & m' & f2 & E & Hq). fold n in E.
  rewrite (sio_step _ _ _ r (ST t' errors' m' f2 bm1 last)); [|unfold in_world; cbn [st_world st_bmp st_last_set_bit]; by rewrite E].
  eexists _, t', errors', m', f2. split; [done|]. destruct r as [err|u]; [|done]. destruct Hq as [Hne ->]. by rewrite (proj2 (Z.eqb_neq _ _) Hne).
Qed.
End work.

(** The position of the path in the whole tree. *)
Lemma levels_position P : Ps !! 0%nat = Some P → let k := pl_nr P in
  cut ni Ps (length Ps - 1) = (e_item ni <$> pre ++ take k (pl_es P), e_item ni <$> drop k (pl_es P) ++ post).
Proof.
  intros HP k. destruct Ps as [|P' Us] eqn:EP; [done|]. injection HP as ->. rewrite <- EP in Hlv. pose proof (levels_cut _ _ _ _ _ _ Hlv [P] 0%nat eq_refl) as H. cbv zeta in H. rewrite EP in H.
  cbn [tl app Nat.add length] in *. replace (S (length Us) - 1)%nat with (length Us) by lia. rewrite H. cbn [cut lookup list_lookup]. cbn [fst snd]. rewrite !fmap_app, fmap_take, fmap_drop. done.
Qed.

(** The plan and the work together. *)
Abbreviation ST t errors m f bm last := (mk_istate (mk_world t errors m f) bm last).
Definition add_result (key data : list Z) (r : option Z) (errors errors' : bool) (m' : list Z) (f' : contents) (bm' : bitmap) : Prop :=
  match r with
  | None => m' = m ∧ full_index m f' bm' T
  | Some err => if err =? 0 then errors' = errors ∧ ∃ T', full_index m' f' bm' T' ∧ items ni T' = (cut ni Ps (length Ps - 1)).1 ++ (key, data) :: (cut ni Ps (length Ps - 1)).2
      else errors' = true ∨ m' = m ∧ full_index m f' bm' T
  end.

Lemma plan_and_work c up P key data size0 data_ofs t errors last :
  p = c :: up → Ps !! 0%nat = Some P → ic_is_locked c = true → (is_view ni = false → length data = 8%nat) → entry_fits (is_view ni) data_ofs size0 key data → size_ok (pl_flags P) size0 →
  ∃ r t' errors' m' f' bm' last', (r ← plan_loop ni sizes (S (length up)) false 0 (set_insertion true 0 size0 None (start_context c) :: (start_context <$> up));
      match r with
      | plan_grow => mret None
      | plan_err err i l => err ← undo_plan ni sizes err i l; mret (Some err)
      | plan_ready i l =>
          if (i =? 0)%nat && false then mret (Some 0) else
          let child := match i with O => None | S j => Some j end in
          _ ← check (match child with None => Ret () | Some j => s ← rd l j; if ic_is_root (sc_ctx s) then Panic else Ret () end);
          r ← in_world (work_loop ni (S i) false key data data_ofs 0 i child l);
          mret (Some (match r with inl err => err | inr _ => 0 end))
      end) (ST t errors m f bm last) = Ret (r, ST t' errors' m' f' bm' last') ∧ (errors = true → errors' = true) ∧ add_result key data r errors errors' m' f' bm'.
Proof.
  intros Ep HP Hlk Hdata Hentry Hsz. destruct (levels_last _ _ _ _ _ _ Hlv) as (HR & _ & Hro & HL). assert (path_fits ni sizes lo hi G F size0 Ps R x f bm) as Hpf.
  { apply levels_fits. intros P' HP'. rewrite HP in HP'. by injection HP' as <-. }
  assert (size0 + 8 < 2 ^ 16) as H16.
  { destruct Hsz as [Hsz _]. pose proof (geo_block _ _ Hgeo). destruct (fit_two _ _ _ _ _ Hfit). unfold capacity, tail_size in *. destruct (has (pl_flags P) INDEX_NODE); lia. }
  destruct (fi_bytes _ _ _ _ HT) as [Hf Hbm].
  destruct (plan_loop_spec ni sizes Hgeo lo hi G F Hfit key data size0 Ps R x f bm Hpf (S (length up)) [] f bm
    (set_insertion true 0 size0 None (start_context c) :: (start_context <$> up)) t errors last) as (r & t1 & errors1 & f1 & bm1 & last1 & E & Hmono & Hr).
  { rewrite Ep in HL. cbn in HL |- *. lia. }
  { by apply planned_start. }
  { apply contexts_start; [by intros E; rewrite E in HP|]. intros j Q HQ. destruct (levels_lookup _ _ _ _ _ _ Hlv j Q HQ) as (_ & (c' & Hc' & Hat & Hun) & _). rewrite Ep in Hc'. exists c'. split; [done|]. split; [done|].
    destruct j as [|j]; [by injection Hc' as <-|]. by apply Hun. }
  rewrite <- (ro_bytes _ _ _ _ _ _ Hro) in E. cbn [length] in E. erewrite sio_step by exact E. destruct r as [n l|err n l|].
  - destruct Hr as (-> & Ls & -> & Hpn & Hcx & Hroom). rewrite andb_false_r.
    destruct (ready_end key data size0 data_ofs Hdata Hentry H16 Hpf f1 bm1 Ls l Hpn Hcx Hroom t1 errors last1) as (err & t2 & errors2 & m2 & f2 & E2 & Hq).
    unfold child_nr in E2. eexists _, _, _, _, _, _, _. split; [exact E2|]. unfold add_result. destruct (err =? 0).
    + destruct Hq as [-> ?]. done.
    + split; [done|]. by left.
  - destruct Hr as (Hne & [vs Hkept] & Hknown). destruct (undo_plan_spec ni sizes Hgeo f bm err n l f1 bm1 vs m t1 errors1 last1 Hknown Hkept) as (t2 & errors2 & bm2 & E2 & Hm2 & Hkept2).
    erewrite sio_step by exact E2. eexists _, _, _, _, _, _, _. split; [done|]. split; [auto|]. unfold add_result. rewrite (proj2 (Z.eqb_neq _ _) Hne). right. split; [done|]. by eapply kept_index.
  - destruct Hr as [vs Hkept]. eexists _, _, _, _, _, _, _. split; [done|]. split; [done|]. split; [done|]. by eapply kept_index.
Qed.
End leaf.
End path.

(** ** The insertion *)

(** C4: adding an entry after a lookup that did not find its key, in an index whose blocks are large
    enough for the sizes of its entries ([sizes_fit]; true of directories with index blocks of 4096
    bytes, [directory_sizes_fit]).  The function terminates without a panic, whatever the kernel does.  When it returns 0, the index has exactly the entries it had and
    the new one, in the order of the keys, in nodes that were split where they had no space: the
    invariant of the index holds for the new tree, the new record of the root, the new blocks and
    the new bitmap.  When it returns another errno, either errors were noted on the volume, or the
    index is as before, with the bits of all its blocks still set.  [None] stands for the cases that
    are not modelled: there is no free index block, or the entry that belongs into the root does
    not fit there; until then the index is as before too. *)
Theorem ntfs_index_entry_add_or_node_split_correct m f bm T p sdh key data t errors last :
  full_index m f bm T → sorted_index ni T → index_key ni key → lookup_end ni max_entries root m f T key false p →
  bytes data → Z.of_nat (length key + length data) < 2 ^ 15 → (is_view ni = false → length data = 8%nat) →
  lo ≤ snd (new_entry_size (is_view ni) sdh 0 (Z.of_nat (length key)) (if is_view ni then Z.of_nat (length data) else 0)) ≤ hi →
  ∃ r t' errors' m' f' bm' last',
    ntfs_index_entry_add_or_node_split ni sizes sdh false 0 key data p (mk_istate (mk_world t errors m f) bm last) = Ret (r, mk_istate (mk_world t' errors' m' f') bm' last') ∧
    (errors = true → errors' = true) ∧
    match r with
    | Some err => if err =? 0 then errors' = errors ∧ ∃ T' l1 l2, full_index m' f' bm' T' ∧ sorted_index ni T' ∧
          items ni T = l1 ++ l2 ∧ items ni T' = l1 ++ (key, data) :: l2
        else errors' = true ∨ m' = m ∧ full_index m f' bm' T
    | None => m' = m ∧ full_index m f' bm' T
    end.
Proof.
  intros HT Hsorted Hkey (l1 & o & l2 & Hat & H1 & H2 & H3 & c & up & es0 & fin0 & -> & Hd0) Bd Hlen Hdata Hsz.
  pose proof (at_entry_inorder _ _ _ _ _ _ _ _ _ _ Hat) as Hin. destruct Hat as (c0 & up0 & k & es & fin & kids & pre & post & [= <- <-] & Hp & Hk & Hlk & E1 & Eo & E2).
  pose proof (path_to_describes _ _ _ _ _ _ _ _ _ _ _ Hp) as Hd. rewrite (describes_leaf_only _ _ _ _ _ _ _ _ _ _ Hd Hd0) in *.
  destruct (path_levels m f bm T HT _ _ _ _ Hp c up k eq_refl Hk) as (x & R & P & Us & Hlv & HP & Hnr).
  assert (has (pl_flags P) INDEX_NODE = false) as Hfl.
  { destruct (levels_lookup _ _ _ _ _ _ _ _ _ Hlv 0%nat P eq_refl) as ([-> _ _ _] & _ & _). unfold pl_tree in HP. by injection HP as _ _ ->. }
  destruct P as [v g flags es' fin' k' kids']. unfold pl_tree in HP. cbn in HP, Hnr, Hfl. injection HP as -> -> ->. subst k'.
  pose proof (new_entry_size_fits (is_view ni) sdh 0 key data (proj1 Hkey) Bd eq_refl Hlen Hdata) as Hfits.
  assert (∀ w, node_buf (mk_world t errors m f) c = w → ∃ fl, rd w (ic_index c + ih_flags) = Ret fl ∧ has fl INDEX_NODE = false) as Hflags.
  { intros w <-. destruct Hd0 as [(n & Hn & _) _ _ _ _]. eexists. split; [by eapply node_flags|]. by destruct Hn as [_ _ _ _ (_ & _ & _ & -> & _)]. }
  destruct (Hflags _ eq_refl) as (fl & Erd & Efl). unfold ntfs_index_entry_add_or_node_split. rewrite Hlk. cbn [negb].
  set (sz := new_entry_size (is_view ni) sdh 0 (Z.of_nat (length key)) (if is_view ni then Z.of_nat (length data) else 0)) in *.
  rewrite (sio_step _ _ _ sz (mk_istate (mk_world t errors m f) bm last)).
  2: { erewrite sio_step by reflexivity. cbn [st_world]. erewrite check_step by exact Erd. unfold sz, new_entry_size. by rewrite Efl. }
  destruct sz as [data_ofs size0]. cbn [snd] in Hsz. destruct Hfits as [Hfits H8].
  assert (size_ok flags size0) as Hsok by (split; [unfold tail_size; rewrite Hfl; lia|done]).
  assert (∀ Q, (mk_plevel v g flags es fin k [] :: Us) !! 0%nat = Some Q → pl_kids Q = []) as Hleaf by by intros Q [= <-].
  destruct (plan_and_work m f bm T HT x R (c :: up) _ pre post Hlv Hleaf c up _ key data size0 data_ofs t errors last eq_refl eq_refl Hlk Hdata Hfits Hsok)
    as (r & t' & errors' & m' & f' & bm' & last' & E & Hmono & Hr).
  exists r, t', errors', m', f', bm', last'. split; [exact E|]. split; [done|]. unfold add_result in Hr.
  destruct r as [err|]; [|done]. destruct (err =? 0); [|done]. destruct Hr as (-> & T' & HT' & Hitems). split; [done|].
  rewrite (levels_position _ _ _ _ _ _ _ _ _ Hlv Hleaf _ eq_refl) in Hitems. cbn [pl_nr pl_es fst snd] in Hitems.
  assert (l1 = pre ++ take k es) as El1 by (rewrite E1; cbn [fmap list_fmap]; rewrite before_leaf; replace (nth k [] []) with (@nil (list Z)) by (by destruct k); by rewrite app_nil_r).
  assert (option_list o ++ l2 = drop k es ++ post) as El2 by (rewrite E2, Eo; cbn [fmap list_fmap]; rewrite (assoc_L (++)), <- after_option; by rewrite after_leaf).
  rewrite <- El1, <- El2 in Hitems. assert (items ni T = (e_item ni <$> l1) ++ (e_item ni <$> option_list o ++ l2)) as Hold by (unfold items; by rewrite Hin, fmap_app).
  exists T', (e_item ni <$> l1), (e_item ni <$> option_list o ++ l2). split_and!; try done. eapply (sorted_index_add ni T T'); try done. by apply list.Forall_app.
Qed.
End full.

(** ** An index with a full leaf *)

#[local] Existing Instance quiet_env.
Definition quiet_inode : BitmapInode := {| attr_inode_errno _ := 0 |}.
#[local] Existing Instance quiet_inode.

(** The second leaf of the sample index has 19 entries, so that its block has no space left. *)
Definition full_keys : list Z := (λ i, 0x200 + 16 * Z.of_nat i) <$> seq 0 19.
Definition full_leaf : list (list Z) := sample_entry <$> full_keys.
Definition full_blocks : list Z := leaf_block 0 leaf0 ++ leaf_block 1 full_leaf.
Definition full_ia : contents := λ i, nth (Z.to_nat i) full_blocks 0.
Definition full_bitmap : bitmap := λ i, if i =? 0 then 3 else 0.
Definition full_sizes : index_sizes := mk_isizes 8 4096 4096 9.
Definition full_sample : btree := Node IndexTree.root_entries root_end [Node leaf0 sample_end []; Node full_leaf sample_end []].

Definition full_page : list Z := Eval vm_compute in page_bytes full_ia 0.
Lemma full_page_bytes : page_bytes full_ia 0 = full_page.
Proof. vm_compute. reflexivity. Qed.

Lemma full_geometry : geometry quota_index full_sizes.
Proof. split; cbn; try lia; done. Qed.
Lemma full_sizes_fit : sizes_fit quota_index 24 64 8 24.
Proof.
  split; [cbn; lia|vm_compute; lia|vm_compute; split; discriminate|]. intros p t [->| ->] Hp H; unfold capacity; cbn [block_size quota_index] in *; lia.
Qed.

Lemma sample_entry_wf k : entry_wf quota_index (sample_entry k).
Proof. split; [apply sample_entry_ok|reflexivity|vm_compute; discriminate|]. intros _. split; vm_compute; discriminate. Qed.
Lemma sample_entries_wf ks : entries_wf quota_index 0 (sample_entry <$> ks) sample_end.
Proof.
  split.
  - apply list.Forall_fmap, list.Forall_true. exact sample_entry_wf.
  - split; [exact sample_end_ok|]. split; [reflexivity|vm_compute; discriminate].
  - apply list.Forall_app. split; [|by constructor]. apply list.Forall_fmap, list.Forall_true. reflexivity.
Qed.

(** A leaf in the first page. *)
Lemma sample_block v ks : let es := sample_entry <$> ks in let ofs := (Z.to_nat (512 * v) + 24)%nat in let h := take 16 (drop ofs full_page) in
  let used := (16 + length (concat (es ++ [sample_end])))%nat in
  (v = 0 ∨ v = 1) → head_ok quota_index h 0 (Z.of_nat used) 0 → concat (es ++ [sample_end]) = take (used - 16) (drop (ofs + 16) full_page) → (used ≤ 488)%nat →
  block_is quota_index full_ia v 0 0 es sample_end.
Proof.
  intros es ofs h used Hv Hh He Hu. split; [apply sample_entries_wf|]. exists h, [], (take (488 - used) (drop (ofs + used) full_page)). split; [reflexivity|]. split; [exact Hh|].
  assert (block_page quota_index v = 0 ∧ index_at quota_index v = ofs) as [E1 E2] by (destruct Hv as [-> | ->]; split; vm_compute; reflexivity).
  assert (length full_page = 4096)%nat as L by (vm_compute; reflexivity). assert (ofs ≤ 536)%nat as Ho by (unfold ofs; destruct Hv as [-> | ->]; lia).
  assert (h ++ [] ++ concat (es ++ [sample_end]) ++ take (488 - used) (drop (ofs + used) full_page) = take 488 (drop ofs full_page)) as E.
  { rewrite He. cbn [app]. unfold h. replace 488%nat with (16 + (used - 16 + (488 - used)))%nat at 2 by (unfold used; lia). rewrite <- (take_take_drop _ 16), <- (take_take_drop _ (used - 16)), !drop_drop.
    replace (ofs + 16 + (used - 16))%nat with (ofs + used)%nat by (unfold used; lia). done. }
  rewrite E. split; [rewrite length_take, length_drop, L; cbn [block_size quota_index]; lia|]. exists (take ofs full_page), (drop (ofs + 488) full_page). rewrite E1, full_page_bytes. split.
  - rewrite <- drop_drop, take_drop. by rewrite take_drop.
  - rewrite length_take. lia.
Qed.

Lemma sample_full_tree v ks : (v = 0 ∧ ks = [1; 2]) ∨ (v = 1 ∧ ks = full_keys) → full_tree quota_index 24 64 8 24 full_ia (Node (sample_entry <$> ks) sample_end []) v.
Proof.
  intros Hv. apply (full_tree_node _ _ _ _ _ _ _ _ _ v 0 0); [|done]. split.
  - destruct Hv as [[-> _]|[-> _]]; split; done.
  - assert (block_page quota_index v = 0 ∧ Z.to_nat (block_ofs quota_index v) = Z.to_nat (512 * v)) as [E1 E2] by (destruct Hv as [[-> _]|[-> _]]; split; vm_compute; reflexivity).
    split; rewrite E1, E2, full_page_bytes; destruct Hv as [[-> _]|[-> _]]; [vm_compute; reflexivity..|exists 0|exists 1]; split; vm_compute; reflexivity.
  - apply sample_block; [tauto|..]; destruct Hv as [[-> ->]|[-> ->]]; try (vm_compute; reflexivity); try (vm_compute; lia);
      (split; [apply bytes_decide; vm_compute; reflexivity|vm_compute; reflexivity..]).
  - lia.
  - reflexivity.
  - by left.
  - destruct Hv as [[_ ->]|[_ ->]]; done.
  - split; [|cbn; lia]. apply list.Forall_fmap, list.Forall_true. intros k. split; [vm_compute; split; discriminate|reflexivity].
Qed.

Definition sample_parts : root_parts :=
  mk_root (set_use sample_head 256) [resident_attr 0x10 0 [] 48] (take 48 root_attr) (take 16 (drop 48 root_attr)) [] [] (le_bytes 4 AT_END ++ replicate 4 0) (replicate 256 0).

Lemma sample_root_entries_wf : entries_wf quota_index 1 IndexTree.root_entries root_end.
Proof.
  split.
  - constructor; [|constructor]. split; [exact root_entry_ok|reflexivity|vm_compute; discriminate|]. intros _. split; vm_compute; discriminate.
  - split; [exact root_end_ok|]. split; [reflexivity|vm_compute; discriminate].
  - repeat (constructor; [reflexivity|]). constructor.
Qed.
Lemma root_record_ok : mft_ok (rt_mft sample_parts (concat (IndexTree.root_entries ++ [root_end]))).
Proof.
  split; try (by vm_compute); try (apply bytes_decide; by vm_compute); [vm_compute; lia|].
  repeat constructor; try (by vm_compute); try (apply bytes_decide; by vm_compute); vm_compute; lia.
Qed.
Lemma sample_root_of kids : length kids = 2%nat → root_of quota_index 45 176 24 64 24 index_mft sample_parts 1 IndexTree.root_entries root_end kids.
Proof.
  intros Hk. split.
  - vm_compute. reflexivity.
  - split.
    + exact sample_root_entries_wf.
    + exact root_record_ok.
    + assert (search_name (vol_upcase quota_index) (idx_name quota_index)) as Hn by (split; repeat constructor; by vm_compute).
      repeat (constructor; [intros _; split; [split; [by vm_compute|exact Hn]|done]|]). constructor.
    + vm_compute. reflexivity.
    + vm_compute. split; [reflexivity|discriminate].
    + split; vm_compute; discriminate.
    + vm_compute. reflexivity.
    + split; [apply bytes_decide; vm_compute; reflexivity|vm_compute; reflexivity..].
  - vm_compute. reflexivity.
  - split; [|vm_compute; lia]. constructor; [|constructor]. split; [vm_compute; split; discriminate|reflexivity].
  - by destruct kids.
  - by right.
  - vm_compute. discriminate.
Qed.

Lemma full_sample_index : full_index quota_index full_sizes 45 176 24 64 8 24 index_mft full_ia full_bitmap full_sample.
Proof.
  assert (all_blocks full_sample = [0; 1]) as Eb by (vm_compute; reflexivity). split.
  - split; intros i.
    + unfold full_ia. rewrite nth_lookup. destruct (full_blocks !! Z.to_nat i) as [y|] eqn:E; cbn; [|lia].
      assert (bytes full_blocks) as H by (apply bytes_decide; vm_compute; reflexivity). by apply (Forall_lookup_1 _ _ _ _ H E).
    + unfold full_bitmap. destruct (i =? 0); lia.
  - exists sample_parts, 1. by apply sample_root_of.
  - intros k e kid He Hk. destruct k as [|[|k]]; [| |discriminate He]; injection He as <-; injection Hk as <-; apply sample_full_tree; [left|right]; (split; [vm_compute; reflexivity|reflexivity]).
  - intros _. reflexivity.
  - rewrite Eb. by apply (bool_decide_eq_true_1 (NoDup [0; 1])).
  - rewrite Eb. intros u [->|[->|[]%elem_of_nil]%elem_of_cons]%elem_of_cons; [exists 0|exists 1]; split_and!; try done.
Qed.

(** The lookup of the key 0x245 ends in the second leaf, before 0x250. *)
Definition full_leaf_context : ntfs_index_context := mk_ictx false true false 1 0 0 536 0 672 5 ((λ i, 552 + 24 * i)%nat <$> seq 0 20) 45.

Lemma full_leaf_describes : describes quota_index 45 index_mft full_ia full_leaf_context (Node full_leaf sample_end []).
Proof.
  split; [|reflexivity|done|done|done]. exists (node_in full_page 536 full_leaf sample_end). split; [|vm_compute; reflexivity].
  cbn [ic_is_root full_leaf_context ic_upl_ofs]. rewrite full_page_bytes. split; [vm_compute; reflexivity..| | |].
  - apply node_decide_ok; [vm_compute; reflexivity|apply sample_leaf_entries|]. split; [exact sample_end_ok|reflexivity].
  - vm_compute. intros H. discriminate H.
  - split; [reflexivity|]. split; [reflexivity|]. split; [left; reflexivity|]. split; [vm_compute; reflexivity|]. apply list.Forall_app. split; [apply sample_leaf_entries|by constructor].
Qed.

Lemma full_leaf_path :
  path_to quota_index 45 176 index_mft full_ia full_sample [full_leaf_context; sample_root_context] (Node full_leaf sample_end []) (leaf0 ++ IndexTree.root_entries) [].
Proof.
  apply (path_down quota_index 45 176 index_mft full_ia full_sample full_leaf_context sample_root_context [] 1
    IndexTree.root_entries root_end [Node leaf0 sample_end []; Node full_leaf sample_end []] (Node full_leaf sample_end []) root_end [] []); try reflexivity.
  - apply path_root; [|reflexivity|reflexivity|split; vm_compute; reflexivity]. split; [|reflexivity|reflexivity|done|].
    + exists (node_in index_mft sample_root IndexTree.root_entries root_end). split; [|vm_compute; reflexivity]. pose proof sample_root_stored as [H1 H2 H3 H4 _].
      split; [exact H1|exact H2|exact H3|exact H4|]. split; [reflexivity|]. split; [reflexivity|]. split; [right; reflexivity|]. split; [vm_compute; reflexivity|].
      repeat (constructor; [reflexivity|]). constructor.
    + refine (index_children _ _ _ _ _ _ (full_index_stored quota_index full_sizes 45 176 full_geometry 24 64 8 24 full_sizes_fit _ _ _ _ _ _ full_sample_index)); [vm_compute; split; [discriminate|reflexivity]|reflexivity].
  - split; reflexivity.
  - exact full_leaf_describes.
  - split; [vm_compute; reflexivity..|]. exists 488, 488. cbn [ic_upl_ofs full_leaf_context]. rewrite full_page_bytes. split; [vm_compute; reflexivity|]. split; vm_compute; reflexivity.
Qed.

Lemma full_sample_sorted : sorted_index quota_index full_sample.
Proof.
  unfold sorted_index. change (inorder full_sample) with (leaf0 ++ inner_entry 0x100 0 :: full_leaf). split.
  - apply list.Forall_app. split; [|apply list.Forall_cons; split; [exact (sample_entry_key 0x100)|]]; apply list.Forall_fmap, list.Forall_true; exact sample_entry_key.
  - repeat constructor.
Qed.

Lemma ntfs_index_entry_add_or_node_split_correct_witness : let key := le_bytes 4 0x245 in let data := [1; 2; 3; 4] in
  ∃ r t' errors' m' f' bm' last',
    ntfs_index_entry_add_or_node_split quota_index full_sizes false false 0 key data [full_leaf_context; sample_root_context] (mk_istate (mk_world 0 false index_mft full_ia) full_bitmap 1) =
      Ret (r, mk_istate (mk_world t' errors' m' f') bm' last') ∧ (false = true → errors' = true) ∧
    match r with
    | Some err => if err =? 0 then errors' = false ∧ ∃ T' l1 l2, full_index quota_index full_sizes 45 176 24 64 8 24 m' f' bm' T' ∧ sorted_index quota_index T' ∧
          items quota_index full_sample = l1 ++ l2 ∧ items quota_index T' = l1 ++ (key, data) :: l2
        else errors' = true ∨ m' = index_mft ∧ full_index quota_index full_sizes 45 176 24 64 8 24 index_mft f' bm' full_sample
    | None => m' = index_mft ∧ full_index quota_index full_sizes 45 176 24 64 8 24 index_mft f' bm' full_sample
    end.
Proof.
  apply (ntfs_index_entry_add_or_node_split_correct quota_index full_sizes 45 176 full_geometry 24 64 8 24 full_sizes_fit).
  - vm_compute. split; [discriminate|reflexivity].
  - exact full_sample_index.
  - exact full_sample_sorted.
  - exact (sample_entry_key 0x245).
  - eexists _, _, _. split; [|split; [|split]].
    + eexists _, _, 5%nat, full_leaf, sample_end, [], (leaf0 ++ IndexTree.root_entries), []. split; [reflexivity|]. split; [exact full_leaf_path|]. split; [split; reflexivity|]. split_and!; reflexivity.
    + repeat constructor.
    + repeat constructor.
    + split; [repeat constructor|]. eexists _, _, _, _. split; [reflexivity|exact full_leaf_describes].
  - by apply bytes_decide.
  - vm_compute. reflexivity.
  - discriminate.
  - vm_compute. split; discriminate.
Defined.
