(* ===== verification/IndexDelete.v ===== *)
(** * Deleting an entry of a leaf

    [kext/ntfs_index.c]: [ntfs_index_entry_delete] for an entry of a leaf that can simply be removed
    ([entry_delete_in_leaf] of [IndexModify]).  The leaf is an index block with other entries, or the
    index root in its mft record.  The deletion keeps the invariant [full_index] of the whole index. *)

From Stdlib Require Import Sorted.
From S2P Require Import Prelude Bytes Unistr Collate PageCache Boot Mst Bitmap MftRecord AttrFind IndexNode IndexLookup IndexTree IndexModify IndexUpdate IndexEntry IndexSplit IndexBlock IndexRoot IndexAlloc IndexGrow IndexInsert IndexPlan IndexFull.

Section delete.
Context {env : IndexEnv} {inode : BitmapInode} (ni : index_inode).
Hypothesis (Hbs : 64 ≤ block_size ni < 2 ^ 16).

(** ** The entries without one of them *)

Lemma wf_remove flags es1 e es2 fin : entries_wf ni flags (es1 ++ e :: es2) fin → entries_wf ni flags (es1 ++ es2) fin ∧ entry_wf ni e.
Proof.
  intros [We Wf Wn]. apply list.Forall_app in We as [W1 [He W2]%list.Forall_cons]. split; [|done]. split; [by apply list.Forall_app|done|].
  rewrite <- (assoc_L (++)) in *. apply list.Forall_app in Wn as [N1 N2]. cbn [app] in N2. apply list.Forall_cons in N2 as [_ N2]. by apply list.Forall_app.
Qed.

(** ** In an index block *)

Lemma delete_block_bytes p h gap A e Y r q flags : let len := Z.of_nat (16 + length gap + length A + length e + length Y) in
  head_ok ni h (length gap) len flags → len ≤ block_size ni - 24 → entry_ok e →
  simple_delete_block (p ++ (h ++ gap ++ A ++ e ++ Y ++ r) ++ q) (length p) (length p + 16 + length gap + length A) =
    Ret (p ++ (splice h ih_index_length (le_bytes 4 (len - Z.of_nat (length e))) ++ gap ++ A ++ Y ++ drop (length Y) (e ++ Y) ++ r) ++ q).
Proof.
  intros len [B L H1 H2 H3 H4] Hlen He. pose proof (entry_header _ He) as Hhe. unfold simple_delete_block.
  set (P := p ++ h ++ gap ++ A). assert (length P = length p + 16 + length gap + length A)%nat as LP by (unfold P; rewrite !length_app; lia).
  assert (le32_at (p ++ (h ++ gap ++ A ++ e ++ Y ++ r) ++ q) (length p + ih_index_length) = Ret len) as ->.
  { rewrite <- !(assoc_L (++)), le32_part by in_entry. by rewrite H2. }
  replace (p ++ (h ++ gap ++ A ++ e ++ Y ++ r) ++ q) with (P ++ e ++ Y ++ r ++ q) by (unfold P; by rewrite <- !(assoc_L (++))). rewrite <- LP.
  rewrite le16_part by in_entry. rewrite (entry_length _ He). cbn [mbind outcome_bind]. rewrite uwrap_id by lia.
  unfold byte_count. rewrite (proj2 (Z.ltb_ge _ _)) by lia. cbn [mbind outcome_bind]. replace (Z.to_nat (len - _ - _)) with (length Y) by lia.
  rewrite Nat2Z.id. rewrite <- (Nat.add_0_r (length P)) at 1. rewrite memmove_part by (rewrite !length_app; lia). cbn [mbind outcome_bind take app].
  rewrite drop_app_length, take_app_length. cbn [Nat.add]. rewrite (assoc_L (++) e Y), drop_app_le by (rewrite length_app; lia).
  unfold P, put32. rewrite <- !(assoc_L (++)). by rewrite put_part by splice_len.
Qed.

Lemma delete_in_block c f v g flags es1 e es2 fin t errors m :
  byte_contents f → block_is ni f v g flags (es1 ++ e :: es2) fin → ic_is_root c = false → ic_upl_ofs c = block_page ni v → ic_index c = index_at ni v →
  ic_entry c = (index_at ni v + 16 + g + length (concat es1))%nat →
  ∃ f', on_node c (λ b, b ← simple_delete_block b (ic_index c) (ic_entry c); Ret ((), b)) (mk_world t errors m f) = Ret ((), mk_world t errors m f') ∧
    byte_contents f' ∧ only ni f f' v ∧ block_is ni f' v g flags (es1 ++ es2) fin.
Proof.
  intros Hf Hb Hr Hpg Hix Hie. destruct (block_is_entries ni _ _ _ _ _ _ Hb) as [_ Hu]. destruct Hb as (Hwf & h & gap & r & <- & Hh & Hat).
  destruct (wf_remove _ _ _ _ _ Hwf) as [Hwf' [He _ _ _]]. set (A := concat es1) in *. set (Y := concat (es2 ++ [fin])).
  assert (concat ((es1 ++ e :: es2) ++ [fin]) = A ++ e ++ Y) as E1 by (unfold A, Y; by rewrite <- (assoc_L (++)), concat_app).
  assert (concat ((es1 ++ es2) ++ [fin]) = A ++ Y) as E2 by (unfold A, Y; by rewrite <- (assoc_L (++)), concat_app).
  rewrite E1, !length_app in *. replace (16 + length gap + (length A + (length e + length Y)))%nat with (16 + length gap + length A + length e + length Y)%nat in * by lia.
  set (len := Z.of_nat (16 + length gap + length A + length e + length Y)) in *.
  set (h' := splice h ih_index_length (le_bytes 4 (len - Z.of_nat (length e)))).
  assert (head_ok ni h' (length gap) (len - Z.of_nat (length e)) flags) as Hh' by (eapply head_resize; [done|]; lia).
  rewrite on_node_page by done. rewrite Hpg. rewrite <- !(assoc_L (++)) in Hat.
  pose proof (at_block_bytes ni _ _ _ Hf Hat) as HB. rewrite !bytes_app in HB. destruct HB as (_ & Bg & BA & Be & BY & Br).
  edestruct (on_page_block ni f v _ (h' ++ gap ++ A ++ Y ++ drop (length Y) (e ++ Y) ++ r)
    (λ b, b ← simple_delete_block b (ic_index c) (ic_entry c); Ret ((), b)) () t errors m Hf Hat) as (f' & E & Hf' & Ho & Hat').
  - intros p q Hp. rewrite Hix, Hie, <- Hp. erewrite delete_block_bytes by (done || lia). done.
  - rewrite !length_app, length_drop, (head_length _ _ _ _ _ Hh'), (head_length _ _ _ _ _ Hh), length_app. lia.
  - rewrite !bytes_app. split_and!; try done; [apply Hh'|]. apply list.Forall_drop. by apply bytes_app.
  - exists f'. do 3 (split; [done|]). split; [done|]. exists h', gap, (drop (length Y) (e ++ Y) ++ r). split; [done|]. rewrite E2, <- (assoc_L (++)). split; [|done].
    rewrite length_app. replace (Z.of_nat (16 + length gap + (length A + length Y))) with (len - Z.of_nat (length e)) by lia. done.
Qed.

(** ** In the index root *)

Lemma delete_root_bytes x flags es1 e es2 fin :
  root_is ni x flags (es1 ++ e :: es2) fin → let len := Z.of_nat (16 + length (rt_gap x) + length (concat ((es1 ++ e :: es2) ++ [fin]))) in
  ∃ y, length y = length e ∧ bytes y ∧
    simple_delete_root (rt_bytes x (es1 ++ e :: es2) fin) (rt_ofs x) (rt_root x) (rt_root x + 16 + length (rt_gap x) + length (concat es1)) =
      Ret (rt_bytes (rt_resize x (- Z.of_nat (length e)) len (y ++ rt_spare x)) (es1 ++ es2) fin).
Proof.
  intros H len. destruct (wf_remove _ _ _ _ _ (root_entries _ _ _ _ _ H)) as [_ [He _ _ _]]. pose proof (entry_header _ He) as Hhe.
  pose proof (root_attr_size _ _ _ _ _ H) as H40. pose proof (root_mft _ _ _ _ _ H) as Hr. pose proof (mft_size _ Hr) as Hm.
  pose proof (rt_bytes_range _ _ _ _ _ H) as HB. destruct (root_index_head _ _ _ _ _ H) as [_ Lh _ Hil _]. pose proof (root_value_length _ _ _ _ _ H) as Hvl.
  unfold rt_bytes in *. pose proof (bytes_in_use _ Hr) as Huse. pose proof (ok_fin_size _ Hr) as Lf. pose proof (ok_head_size _ Hr) as Lhd.
  pose proof (ok_in_use _ Hr) as Hu. cbn [m_head m_attrs m_fin rt_mft] in *. set (A := concat es1) in *. set (Y := concat (es2 ++ [fin])).
  assert (concat ((es1 ++ e :: es2) ++ [fin]) = A ++ e ++ Y) as EC by (unfold A, Y; by rewrite <- (assoc_L (++)), concat_app).
  assert (concat ((es1 ++ es2) ++ [fin]) = A ++ Y) as EC' by (unfold A, Y; by rewrite <- (assoc_L (++)), concat_app). rewrite EC, EC' in *.
  assert (get32 (rt_attr x) a_length = Z.of_nat (length (rt_attr x ++ rt_index x ++ rt_gap x ++ A ++ e ++ Y))) as Hal.
  { pose proof (attr_ok_in _ _ _ _ Hr eq_refl) as Ha. pose proof (attr_length _ Ha) as E. by rewrite get32_app_l in E by root_len. }
  rewrite concat_app in Huse, Hu. cbn [concat] in Huse, Hu. rewrite !length_app in *.
  rewrite !rt_mft_bytes in *. set (pre := rt_head x ++ concat (rt_before x) ++ rt_attr x) in *. set (T := concat (rt_after x) ++ rt_end x).
  assert (rt_root x = length pre) as Eroot by apply rt_root_length.
  set (P := pre ++ rt_index x ++ rt_gap x ++ A).
  assert (pre ++ (rt_index x ++ rt_gap x ++ A ++ e ++ Y) ++ concat (rt_after x) ++ rt_end x ++ rt_spare x = P ++ e ++ (Y ++ T) ++ rt_spare x) as EM by (unfold P, T; by rewrite <- !(assoc_L (++))).
  assert (length P = rt_root x + 16 + length (rt_gap x) + length A)%nat as LP by (unfold P; rewrite Eroot, !length_app; lia).
  assert (length pre = length (rt_head x) + length (concat (rt_before x)) + length (rt_attr x))%nat as Lpre by (unfold pre; rewrite !length_app; lia).
  rewrite EM in *. rewrite !bytes_app in HB. destruct HB as (_ & Be & [BY BT] & _). rewrite !length_app in Hm.
  assert (length T = length (concat (rt_after x)) + 8)%nat as LT0 by (unfold T; rewrite !length_app; lia).
  assert (length (Y ++ T) = length Y + length T)%nat as LT by apply length_app.
  exists (drop (length (Y ++ T)) (e ++ Y ++ T)). split; [rewrite length_drop, (length_app e); lia|]. split; [apply list.Forall_drop; by rewrite !bytes_app|].
  unfold simple_delete_root. rewrite <- LP, le16_part by in_entry. rewrite (entry_length _ He), Huse. cbn [mbind outcome_bind]. set (U := Z.of_nat _) in Hu |- *.
  unfold byte_count. rewrite (proj2 (Z.ltb_ge _ _)) by lia. cbn [mbind outcome_bind]. replace (Z.to_nat (U - _)) with (length (Y ++ T)) by lia.
  rewrite Nat2Z.id. rewrite <- (Nat.add_0_r (length P)) at 1. rewrite memmove_part by (rewrite !length_app; unfold T; rewrite !length_app; lia). cbn [mbind outcome_bind take app].
  rewrite drop_app_length, take_app_length. cbn [Nat.add]. rewrite (assoc_L (++) e (Y ++ T)), drop_app_le by (rewrite !length_app; lia).
  rewrite take_0. cbn [app]. set (y := drop _ _). assert (P ++ (Y ++ T) ++ y ++ rt_spare x = rt_head x ++ concat (rt_before x) ++ rt_attr x ++ rt_index x ++ rt_gap x ++ A ++ (Y ++ T) ++ y ++ rt_spare x) as ->
    by (unfold P, pre; by rewrite <- !(assoc_L (++))).
  unfold rt_root, rt_ofs. rewrite root_resized_bytes by lia. f_equal. rewrite rt_mft_bytes. unfold rt_resize. cbn [rt_head rt_before rt_attr rt_index rt_gap rt_after rt_end rt_spare].
  rewrite Hu, Hal, Hvl, Hil. rewrite !uwrap_id by lia. unfold len, T. rewrite EC, !length_app. by rewrite <- !(assoc_L (++)).
Qed.

Lemma delete_in_root c x flags es1 e es2 fin t errors f :
  root_is ni x flags (es1 ++ e :: es2) fin → Z.of_nat (length e) mod 8 = 0 → ic_is_root c = true → ic_actx c = rt_ofs x → ic_index c = rt_root x →
  ic_entry c = (rt_root x + 16 + length (rt_gap x) + length (concat es1))%nat →
  ∃ x', on_node c (λ b, b ← simple_delete_root b (ic_actx c) (ic_index c) (ic_entry c); Ret ((), b)) (mk_world t errors (rt_bytes x (es1 ++ e :: es2) fin) f) =
      Ret ((), mk_world t errors (rt_bytes x' (es1 ++ es2) fin) f) ∧
    root_is ni x' flags (es1 ++ es2) fin ∧ rt_root x' = rt_root x ∧ length (rt_bytes x' (es1 ++ es2) fin) = length (rt_bytes x (es1 ++ e :: es2) fin).
Proof.
  intros H H8 Hr Ha Hi Hie. destruct (wf_remove _ _ _ _ _ (root_entries _ _ _ _ _ H)) as [Hwf _]. destruct (delete_root_bytes _ _ _ _ _ _ H) as (y & Ly & By & E). cbv zeta in E.
  set (len := Z.of_nat _) in E. set (x' := rt_resize _ _ _ _) in E. exists x'.
  assert (root_is ni x' flags (es1 ++ es2) fin) as Hx'.
  { eapply rt_resize_is; try done.
    - rewrite length_app. lia.
    - apply bytes_app. split; [done|]. apply (ok_spare _ (root_mft _ _ _ _ _ H)).
    - by rewrite Z.mod_opp_l_z.
    - rewrite <- !(assoc_L (++)), !concat_app. cbn [app concat]. rewrite !length_app. lia. }
  split; [apply on_node_root; [done|]; by rewrite Ha, Hi, Hie, E|]. split; [done|]. split; [by eapply rt_resize_place|]. apply Nat2Z.inj.
  unfold rt_bytes. rewrite <- (ok_allocated _ (root_mft _ _ _ _ _ H)), <- (ok_allocated _ (root_mft _ _ _ _ _ Hx')). cbn [m_head rt_mft].
  pose proof (ok_head_size _ (root_mft _ _ _ _ _ H)) as Lh. cbn [m_head rt_mft] in Lh. unfold x', rt_resize. cbn [rt_head]. by rewrite get32_splice_other by root_len.
Qed.
End delete.

(** ** The index with another leaf *)

Section tree.
Context {env : IndexEnv} {inode : BitmapInode} (ni : index_inode) (sizes : index_sizes) (max_entries : Z) (root : nat).
Hypothesis (Hgeo : geometry ni sizes).
Context (lo hi : Z) (G F : nat).
Abbreviation full_index := (full_index ni sizes max_entries root lo hi G F).
Abbreviation full_tree := (full_tree ni lo hi G F).
Abbreviation full_node := (full_node ni lo hi G F).
Abbreviation levels := (levels ni max_entries root lo hi G F).
Abbreviation root_of := (root_of ni max_entries root lo hi F).

Lemma block_size_range : 64 ≤ block_size ni < 2 ^ 16.
Proof. pose proof (geo_block _ _ Hgeo). lia. Qed.

(** The node [Q] with the child [t'] in the place of the child of the path. *)
Definition with_child (Q : path_level) (t' : btree) : btree := Node (pl_es Q) (pl_fin Q) (<[pl_nr Q := t']> (pl_kids Q)).

Lemma levels_inv m f T x R p Q Us pre post : levels m f T x R p (Q :: Us) pre post →
  (Us = [] ∧ pre = [] ∧ post = [] ∧ pl_tree Q = T ∧ root_of m x (pl_flags Q) (pl_es Q) (pl_fin Q) (pl_kids Q)) ∨
  (∃ Q1 Us1, Us = Q1 :: Us1 ∧ full_node f (pl_vcn Q) (pl_gap Q) (pl_flags Q) (pl_es Q) (pl_fin Q) (pl_kids Q)).
Proof. inversion 1; subst; [left|right]; eauto. Qed.

Section replace.
Context (m : list Z) (f f' : contents) (bm : bitmap) (T : btree) (v0 : Z).
Hypothesis (HT : full_index m f bm T) (Hf' : byte_contents f') (Hout : outside ni f f' [v0]).

Record child_fits (Q P : path_level) (t' : btree) : Prop := {
  cf_link : link Q P;
  cf_shape : level_shape ni lo hi G F f Q;
  cf_siblings : ∀ w, w ∈ siblings Q → apart ni w v0;
  cf_tree : full_tree f' t' (pl_vcn P);
  cf_blocks : blocks t' (pl_vcn P) = blocks (pl_tree P) (pl_vcn P)
}.

Lemma with_child_children Q P t' : child_fits Q P t' →
  ∀ k e kid, (pl_es Q ++ [pl_fin Q]) !! k = Some e → <[pl_nr Q := t']> (pl_kids Q) !! k = Some kid → full_tree f' kid (e_vcn e).
Proof.
  intros [[L1 L2] [_ _ Hch _] Hs Ht _] k e kid He Hk. pose proof (lookup_lt_Some _ _ _ L1) as Hlt. destruct (decide (k = pl_nr Q)) as [->|Hne].
  - rewrite list_lookup_insert_eq in Hk by done. injection Hk as <-. unfold pl_vcns in L2. rewrite list_lookup_fmap, He in L2. by injection L2 as ->.
  - rewrite list_lookup_insert_ne in Hk by done. eapply full_tree_frame; [apply block_size_range|by eapply Hch|exact Hout|].
    intros u w Hu ->%list_elem_of_singleton. apply Hs. eapply (siblings_elem Q k); try done. unfold pl_vcns. by rewrite list_lookup_fmap, He.
Qed.

Lemma with_child_blocks Q P t' : child_fits Q P t' → all_blocks (with_child Q t') = all_blocks (pl_tree Q).
Proof.
  intros [[L1 L2] _ _ _ Hb]. unfold all_blocks, with_child, pl_tree. rewrite !kid_blocks_kb. fold (pl_vcns Q). pose proof (lookup_lt_Some _ _ _ L1) as Hlt.
  rewrite (kb_split _ _ _ _ _ L2 L1), (kb_split (pl_vcns Q) (<[pl_nr Q := t']> (pl_kids Q)) _ _ t' L2) by (by apply list_lookup_insert_eq).
  rewrite take_insert_ge, drop_insert_lt, Hb by lia. done.
Qed.

Lemma with_child_kids Q P t' : child_fits Q P t' → pl_kids Q ≠ [] ∧ <[pl_nr Q := t']> (pl_kids Q) ≠ [] ∧ length (<[pl_nr Q := t']> (pl_kids Q)) = S (length (pl_es Q)).
Proof.
  intros [[L1 _] [_ Hk _ _] _ _ _]. apply lookup_lt_Some in L1. destruct Hk as [Hk|Hk]; [rewrite Hk in L1; cbn in L1; lia|].
  rewrite length_insert. split_and!; [| |done]; intros E; apply (f_equal length) in E; rewrite ?length_insert in E; cbn in E; lia.
Qed.

Lemma with_child_index x Q P t' : child_fits Q P t' → pl_tree Q = T → root_of m x (pl_flags Q) (pl_es Q) (pl_fin Q) (pl_kids Q) → full_index m f' bm (with_child Q t').
Proof.
  intros Hc ET [R1 R2 R3 R4 R5 R6 R7]. destruct (with_child_kids _ _ _ Hc) as (K1 & K2 & K3). pose proof HT as [[_ Hbm] _ _ Ha Hd Hb]. split.
  - done.
  - exists x, (pl_flags Q). split; try done; [|by right]. by rewrite R5, !bool_decide_eq_true_2.
  - unfold with_child. by eapply with_child_children.
  - unfold with_child. intros _. rewrite <- ET in Ha. by apply Ha.
  - rewrite (with_child_blocks _ _ _ Hc), ET. done.
  - intros u. rewrite (with_child_blocks _ _ _ Hc), ET. apply Hb.
Qed.

Lemma with_child_node Q P t' : child_fits Q P t' → apart ni (pl_vcn Q) v0 →
  full_node f (pl_vcn Q) (pl_gap Q) (pl_flags Q) (pl_es Q) (pl_fin Q) (pl_kids Q) → full_tree f' (with_child Q t') (pl_vcn Q).
Proof.
  intros Hc Hap Hn. destruct (with_child_kids _ _ _ Hc) as (K1 & K2 & K3).
  assert (full_node f' (pl_vcn Q) (pl_gap Q) (pl_flags Q) (pl_es Q) (pl_fin Q) (pl_kids Q)) as [N1 N2 N3 N4 N5 N6 N7 N8].
  { eapply full_node_frame; [apply block_size_range|done|exact Hout|]. by intros w ->%list_elem_of_singleton. }
  econstructor; [|by eapply with_child_children]. split; try done; [|by right]. by rewrite N5, !bool_decide_eq_true_2.
Qed.

Lemma levels_replace x R p Ps pre post : levels m f T x R p Ps pre post → ∀ P Q Us t', Ps = P :: Q :: Us →
  (∀ j Q', (Q :: Us) !! j = Some Q' → (S j < length (Q :: Us))%nat → apart ni (pl_vcn Q') v0) →
  (∀ j Q' w, (Q :: Us) !! j = Some Q' → w ∈ siblings Q' → apart ni w v0) →
  full_tree f' t' (pl_vcn P) → blocks t' (pl_vcn P) = blocks (pl_tree P) (pl_vcn P) →
  ∃ T', full_index m f' bm T' ∧ inorder T' = pre ++ inorder t' ++ post.
Proof.
  induction 1 as [c Ht Hro Hs Hc|c c' up P Q Us pre post Hlv IH Hl Hlink Hn Hs Hc]; intros P0 Q0 Us0 t' E Hup Hsib Ht' Hb; [done|]. injection E as <- <- <-.
  assert (child_fits Q P t') as Hfit.
  { split; try done; [|intros w; by apply (Hsib 0%nat)]. by apply (levels_lookup _ _ _ _ _ _ _ _ _ _ _ _ _ _ _ _ Hlv 0%nat). }
  assert (inorder (with_child Q t') = before (pl_nr Q) (pl_es Q) (inorder <$> pl_kids Q) ++ inorder t' ++ after (pl_nr Q) (pl_es Q) (inorder <$> pl_kids Q)) as Hin.
  { destruct Hfit as [[L1 _] [_ _ _ Hnr] _ _ _]. apply inorder_insert; [done|]. by eapply lookup_lt_Some. }
  destruct (levels_inv _ _ _ _ _ _ _ _ _ _ Hlv) as [(-> & -> & -> & ET & Hro)|(Q1 & Us1 & -> & Hn1)].
  - exists (with_child Q t'). split; [by eapply with_child_index|]. by rewrite Hin, app_nil_r.
  - destruct (IH Q Q1 Us1 (with_child Q t') eq_refl) as (T' & HT' & Hin').
    + intros j Q' HQ' Hj. apply (Hup (S j)); [done|cbn in *; lia].
    + intros j Q' w HQ'. by apply (Hsib (S j)).
    + eapply with_child_node; [done| |done]. apply (Hup 0%nat); [done|cbn; lia].
    + pose proof (with_child_blocks _ _ _ Hfit) as E. unfold all_blocks, with_child, pl_tree in E. unfold with_child, pl_tree. by rewrite !blocks_node, E.
    + exists T'. split; [done|]. rewrite Hin', Hin. by rewrite <- !(assoc_L (++)).
Qed.
End replace.

(** ** The deletion *)

Definition simple_delete (c : ntfs_index_context) (b : list Z) : outcome (() * list Z) :=
  b ← (if ic_is_root c then simple_delete_root b (ic_actx c) (ic_index c) (ic_entry c) else simple_delete_block b (ic_index c) (ic_entry c)); Ret ((), b).

Lemma delete_run m f T c up l1 e l2 w' t errors :
  at_entry ni max_entries root m f T (c :: up) l1 (Some e) l2 → is_node e = false → 2 < nr_entries c ∨ ic_is_root c = true →
  on_node c (simple_delete c) (mk_world t errors m f) = Ret ((), w') → entry_delete_in_leaf c (mk_world t errors m f) = Ret (Some (), w').
Proof.
  intros (c0 & up0 & k & es & fin & kids & pre & post & [= <- <-] & Hp & Hk & Hlock & _ & Ho & _) Hnode Hnr Hrun.
  pose proof (path_to_describes _ _ _ _ _ _ _ _ _ _ _ Hp) as Hd. destruct (positioned_entry _ _ _ _ _ _ _ _ _ Hd Hk) as (_ & e' & He & Hok & _ & p & q & Hb & Hie).
  rewrite (lookup_app_l_Some _ _ _ e (eq_sym Ho)) in He. injection He as <-. pose proof (entry_header _ Hok).
  assert (is_end e = false) as Hend.
  { destruct Hd as [(n & [_ _ Hokn _ (El & _)] & _) _ _ _ _]. pose proof (node_entries _ _ Hokn) as H1. rewrite El, list.Forall_forall in H1. by apply H1, (list_elem_of_lookup_2 _ k). }
  assert (le16_at (node_buf (mk_world t errors m f) c) (ic_entry c + ie_flags) = Ret (e_flags e)) as Hfl.
  { unfold node_buf. cbn [w_mft w_ia]. rewrite Hb, Hie. apply le16_part. in_entry. }
  unfold entry_delete_in_leaf. rewrite Hlock. cbn [negb]. rewrite io_world. unfold mbind, io_bind, lift. rewrite Hfl. cbn [mbind outcome_bind].
  fold (is_end e) (is_node e). rewrite Hend, Hnode.
  assert ((2 <? nr_entries c) || ic_is_root c = true) as -> by (destruct Hnr as [Hnr|Hnr]; [by rewrite (proj2 (Z.ltb_lt _ _))|by rewrite Hnr, orb_true_r]).
  unfold on_node, simple_delete in Hrun. destruct (if ic_is_root c then _ else _) as [b| |]; cbn [mbind outcome_bind] in *; try done.
  destruct (store_buf c b _) as [[[] w1]| |]; cbn [mbind outcome_bind] in *; try done. by injection Hrun as ->.
Qed.

(** The entries of a leaf and of the node without one of them. *)
Lemma leaf_no_kids flags es fin (kids : list btree) k e :
  entries_wf ni flags es fin → has flags INDEX_NODE = bool_decide (kids ≠ []) → es !! k = Some e → is_node e = false → kids = [].
Proof.
  intros Hwf Hfl He Hn. pose proof (wf_nodes _ _ _ _ Hwf) as H. rewrite list.Forall_forall in H. specialize (H e). rewrite H, Hfl in Hn; [|apply elem_of_app; left; by eapply list_elem_of_lookup_2].
  apply bool_decide_eq_false in Hn. by apply dec_stable in Hn.
Qed.
Lemma sizes_remove flags es1 e es2 fin : sizes_ok lo hi F flags (es1 ++ e :: es2) fin → sizes_ok lo hi F flags (es1 ++ es2) fin ∧ Z.of_nat (length e) mod 8 = 0.
Proof. intros [Hs Hf]. apply list.Forall_app in Hs as [S1 [[_ S2] S3]%list.Forall_cons]. split; [|done]. split; [by apply list.Forall_app|done]. Qed.

Lemma delete_root m f bm T x P c k e t errors : full_index m f bm T →
  pl_tree P = T → root_of m x (pl_flags P) (pl_es P) (pl_fin P) (pl_kids P) → root_context c x (pl_es P) k → pl_es P !! k = Some e → is_node e = false →
  ∃ m', on_node c (simple_delete c) (mk_world t errors m f) = Ret ((), mk_world t errors m' f) ∧
    full_index m' f bm (Node (take k (pl_es P) ++ drop (S k) (pl_es P)) (pl_fin P) []).
Proof.
  intros HT ET [Hm Hx Hp Hs Hfl Hk Hc] [C1 C2 C3 C4] He Hn. pose proof (leaf_no_kids _ _ _ _ _ _ (root_entries _ _ _ _ _ Hx) Hfl He Hn) as Ek.
  set (es1 := take k (pl_es P)) in *. set (es2 := drop (S k) (pl_es P)). assert (pl_es P = es1 ++ e :: es2) as Es by (symmetry; by apply take_drop_middle). rewrite Es in Hx, Hs, Hm.
  destruct (sizes_remove _ _ _ _ _ Hs) as [Hs' H8]. destruct (delete_in_root ni c x (pl_flags P) es1 e es2 (pl_fin P) t errors f Hx H8 C1 C2 C3 C4) as (x' & E & Hx' & Hp' & HL).
  exists (rt_bytes x' (es1 ++ es2) (pl_fin P)). split; [unfold simple_delete; rewrite C1, Hm; exact E|]. pose proof HT as [Hb _ _ _ _ _]. split; try done.
  - exists x', (pl_flags P). split; try done; [by rewrite Hp'|by rewrite Hfl, Ek|by left|]. by rewrite HL, <- Hm.
  - constructor.
  - by intros u []%elem_of_nil.
Qed.

Lemma delete_block m f bm T x R c c' up P Q Us pre post k e t errors : full_index m f bm T →
  levels m f T x R (c :: c' :: up) (P :: Q :: Us) pre post → pl_nr P = k → pl_es P !! k = Some e → is_node e = false → 2 < nr_entries c →
  ∃ f' T', on_node c (simple_delete c) (mk_world t errors m f) = Ret ((), mk_world t errors m f') ∧
    full_index m f' bm T' ∧ inorder T' = pre ++ (take k (pl_es P) ++ drop (S k) (pl_es P)) ++ post.
Proof.
  intros HT Hlv Ek He Hn Hnr. destruct (levels_lookup _ _ _ _ _ _ _ _ _ _ _ _ _ _ _ _ Hlv 0%nat P eq_refl) as (_ & (c0 & [= <-] & Hat & _) & Hnode).
  specialize (Hnode ltac:(cbn; lia)). destruct Hat as [[C1 C2 C3 C4] Hes _ _ _]. pose proof Hnode as [N1 N2 N3 N4 N5 N6 N7 N8].
  destruct (block_is_entries ni _ _ _ _ _ _ N3) as [Hwf _]. pose proof (leaf_no_kids _ _ _ _ _ _ Hwf N5 He Hn) as Hk0. rewrite Ek in *.
  set (es1 := take k (pl_es P)) in *. set (es2 := drop (S k) (pl_es P)). assert (pl_es P = es1 ++ e :: es2) as Es by (symmetry; by apply take_drop_middle). rewrite Es in N3, N8.
  pose proof HT as [[Hf Hbm] _ _ _ _ Hbits]. destruct (sizes_remove _ _ _ _ _ N8) as [N8' _].
  destruct (delete_in_block ni block_size_range c f (pl_vcn P) (pl_gap P) (pl_flags P) es1 e es2 (pl_fin P) t errors m Hf N3 C1 C2 C3 C4) as (f' & E & Hf' & Ho & N3').
  assert (changes ni f f' [pl_vcn P]) as Hch by (eapply only_changes; [done|by left]).
  assert (∀ P', (P :: Q :: Us) !! 0%nat = Some P' → pl_kids P' = []) as Hleaf by by intros P' [= <-].
  assert (∀ u, u ∈ all_blocks T → u ≠ pl_vcn P → apart ni u (pl_vcn P)) as Hap.
  { intros u Hu Hne. eapply (has_bit_ne ni sizes Hgeo bm bm); [by apply Hbits| |done]. apply Hbits. eapply (level_vcn_block _ _ _ _ _ _ _ _ _ _ _ _ HT _ _ _ _ _ _ Hlv Hleaf 0%nat); [done|cbn; lia]. }
  destruct (levels_replace m f f' bm T (pl_vcn P) HT Hf' (changes_outside ni _ _ _ Hch) x R _ _ pre post Hlv P Q Us (Node (es1 ++ es2) (pl_fin P) []) eq_refl) as (T' & HT' & Hin).
  - intros j Q' HQ' Hj. apply Hap; [eapply (level_vcn_block _ _ _ _ _ _ _ _ _ _ _ _ HT _ _ _ _ _ _ Hlv Hleaf (S j)); [done|cbn in *; lia]|].
    eapply (level_vcns_distinct _ _ _ _ _ _ _ _ _ _ _ _ HT _ _ _ _ _ _ Hlv Hleaf (S j) 0); try done; cbn in *; lia.
  - intros j Q' w HQ' Hw. destruct (sibling_block _ _ _ _ _ _ _ _ _ _ _ _ HT _ _ _ _ _ _ Hlv Hleaf (S j) Q' w HQ' Hw) as [Hw1 Hw2]. apply Hap; [done|]. apply (Hw2 0%nat); [done|cbn; lia].
  - econstructor; [|done]. split; try done.
    + eapply header_changes; [apply block_size_range|done|done|]. intros w ->%list_elem_of_singleton. by left.
    + by rewrite N5, Hk0.
    + by left.
    + intros _ E0. unfold nr_entries in Hnr. rewrite Hes, length_offsets, Es, !length_app in Hnr. apply (f_equal length) in E0. rewrite length_app in E0. cbn [length] in *. lia.
  - unfold pl_tree. by rewrite Hk0.
  - exists f', T'. split; [unfold simple_delete; rewrite C1; exact E|]. split; [done|]. rewrite Hin. cbn [inorder fmap list_fmap]. by rewrite interleave_leaf.
Qed.

Lemma sorted_index_remove T T' l1 e l2 : sorted_index ni T → inorder T = l1 ++ e :: l2 → inorder T' = l1 ++ l2 → sorted_index ni T'.
Proof.
  intros [Hk Hs] E E'. unfold sorted_index. rewrite E in Hk, Hs. rewrite E'. split; [|by apply (sorted_remove_middle (entry_lt ni) _ e)].
  apply list.Forall_app in Hk as [K1 [_ K2]%list.Forall_cons]. by apply list.Forall_app.
Qed.

(** C9: deleting an entry of a leaf to which a path leads, where the leaf is an index block with at
    least one other entry, or the index root.  The deletion succeeds, and the index has exactly the other
    entries, in the same order: the invariant of the index (root record, blocks and bitmap) holds for
    the new tree, so that lookups, walks, insertions and further deletions are correct on it.  The other
    cases, in which the code replaces the entry by its predecessor or merges nodes, are not covered. *)
Theorem entry_delete_in_leaf_correct m f bm T c up l1 e l2 t errors :
  full_index m f bm T → sorted_index ni T → at_entry ni max_entries root m f T (c :: up) l1 (Some e) l2 →
  is_node e = false → 2 < nr_entries c ∨ up = [] →
  ∃ m' f' T', entry_delete_in_leaf c (mk_world t errors m f) = Ret (Some (), mk_world t errors m' f') ∧
    full_index m' f' bm T' ∧ sorted_index ni T' ∧ inorder T = l1 ++ e :: l2 ∧ inorder T' = l1 ++ l2.
Proof.
  intros HT Hsorted Hat Hnode Hcase. pose proof (at_entry_inorder _ _ _ _ _ _ _ _ _ _ Hat) as Hin. cbn [option_list app] in Hin.
  assert (∀ m' f' T', on_node c (simple_delete c) (mk_world t errors m f) = Ret ((), mk_world t errors m' f') → full_index m' f' bm T' → inorder T' = l1 ++ l2 → 2 < nr_entries c ∨ ic_is_root c = true →
    ∃ m' f' T', entry_delete_in_leaf c (mk_world t errors m f) = Ret (Some (), mk_world t errors m' f') ∧
      full_index m' f' bm T' ∧ sorted_index ni T' ∧ inorder T = l1 ++ e :: l2 ∧ inorder T' = l1 ++ l2) as Hend.
  { intros m' f' T' E HT' Hin' Hc. exists m', f', T'. split; [by eapply delete_run|]. split; [done|]. split; [by apply (sorted_index_remove T T' l1 e l2)|done]. }
  pose proof Hat as (c0 & up0 & k & es & fin & kids & pre & post & [= <- <-] & Hp & Hk & _ & E1 & Eo & E2).
  destruct (at_entry_no_child _ _ _ _ _ _ _ _ _ _ _ Hat Hnode) as (es0 & fin0 & Hd0). pose proof (path_to_describes _ _ _ _ _ _ _ _ _ _ _ Hp) as Hd.
  rewrite (describes_leaf_only _ _ _ _ _ _ _ _ _ _ Hd Hd0) in *. cbn [fmap list_fmap] in E1, E2. rewrite before_leaf in E1. rewrite after_leaf, (drop_S _ _ _ (eq_sym Eo)) in E2. cbn [tl] in E2.
  replace (nth k [] []) with (@nil (list Z)) in E1 by (by destruct k). rewrite app_nil_r in E1.
  destruct (path_levels ni sizes max_entries root Hgeo lo hi G F m f bm T HT _ _ _ _ Hp c up k eq_refl Hk) as (x & R & P & Us & Hlv & HP & Hnr).
  destruct P as [v g fl es' fin' k' kids']. unfold pl_tree in HP. cbn in HP, Hnr. injection HP as -> -> ->. subst k'.
  inversion Hlv as [c0 ET Hro _ Hc0|c0 c1 up1 P1 Q1 Us1 pre1 post1 Hlv1 _ _ _ _ _].
  - destruct Hc0 as [Hc0 _]. subst R. destruct (delete_root m f bm T x _ c k e t errors HT ET Hro Hc0 (eq_sym Eo) Hnode) as (m' & E & HT'). cbn [pl_es pl_fin] in *.
    eapply Hend; [exact E|exact HT'| |right; apply Hc0]. cbn [inorder fmap list_fmap]. rewrite interleave_leaf. subst. by rewrite app_nil_r.
  - subst. destruct Hcase as [Hcase|Hcase]; [|done]. destruct (delete_block m f bm T x R c c1 up1 _ Q1 Us1 _ _ k e t errors HT Hlv eq_refl (eq_sym Eo) Hnode Hcase) as (f' & T' & E & HT' & Hin').
    eapply Hend; [exact E|exact HT'| |by left]. rewrite Hin'. cbn [pl_es]. by rewrite <- !(assoc_L (++)).
Qed.
End tree.

(** ** The entry 0x250 of the sample index *)

#[local] Existing Instance quiet_env.

Lemma entry_delete_in_leaf_correct_witness :
  ∃ m' f' T', entry_delete_in_leaf full_leaf_context (mk_world 0 false index_mft full_ia) = Ret (Some (), mk_world 0 false m' f') ∧
    full_index quota_index full_sizes 45 176 24 64 8 24 m' f' full_bitmap T' ∧ sorted_index quota_index T' ∧
    inorder full_sample = ((leaf0 ++ IndexTree.root_entries) ++ take 5 full_leaf) ++ sample_entry 0x250 :: drop 6 full_leaf ∧
    inorder T' = ((leaf0 ++ IndexTree.root_entries) ++ take 5 full_leaf) ++ drop 6 full_leaf.
Proof.
  apply (entry_delete_in_leaf_correct quota_index full_sizes 45 176 full_geometry 24 64 8 24 index_mft full_ia full_bitmap full_sample full_leaf_context [sample_root_context]).
  - exact full_sample_index.
  - exact full_sample_sorted.
  - eexists _, _, 5%nat, full_leaf, sample_end, [], (leaf0 ++ IndexTree.root_entries), []. split; [reflexivity|]. split; [exact full_leaf_path|]. split; [split; reflexivity|].
    split_and!; reflexivity.
  - reflexivity.
  - left. reflexivity.
Defined.
