(* ===== verification/Compress.v ===== *)
(** * Decompression

    [ntfs_decompress] of [kext/ntfs_compress.c]: the decoder for the compression
    blocks (cb) of compressed attributes.  A compression block is a sequence of
    sub-blocks (sb), each of which holds 4096 bytes of data. *)

From S2P Require Import Prelude Bytes.

(** ** Constants *)

Definition NTFS_SB_SIZE_MASK : Z := 0x0fff.
Definition NTFS_SB_SIZE : nat := Z.to_nat 0x1000.
#[local] Opaque NTFS_SB_SIZE.
Definition NTFS_SB_IS_COMPRESSED : Z := 0x8000.
Definition NTFS_TOKEN_MASK : Z := 1.
Definition NTFS_SYMBOL_TOKEN : Z := 0.

(** ** Operations *)

(** [for (u = ...; u >= 0x10; u >>= 1) lg++], for [u < 2 ^ fuel]. *)
Fixpoint lg_loop (fuel : nat) (u lg : Z) : Z :=
  match fuel with
  | O => lg
  | S fuel => if 0x10 <=? u then lg_loop fuel (Z.shiftr u 1) (lg + 1) else lg
  end.

(** [while (length--) *dst++ = *dst_back_addr++]. *)
Fixpoint slow_copy (n : nat) (d : list Z) (dst back : nat) : outcome (list Z) :=
  match n with
  | O => Ret d
  | S n =>
      x ← rd d back;
      d ← wr d dst x;
      slow_copy n d (dst + 1) (back + 1)
  end.

(** The copy of [length] bytes from [back] to [dst]. *)
Definition phrase_copy (d : list Z) (dst back length : nat) : outcome (list Z) :=
  let max_non_overlap := (dst - back)%nat in
  if (length <=? max_non_overlap)%nat then memcpy d dst d back length
  else
    d ← memcpy d dst d back max_non_overlap;
    slow_copy (length - max_non_overlap) d (dst + max_non_overlap) (back + max_non_overlap).

(** A phrase token at [cb]; [None] is the label [err], and nothing was written. *)
Definition phrase_token (m d : list Z) (cb dst dst_sb_start dst_sb_end : nat)
    : outcome (option (list Z * nat)) :=
  if (dst =? dst_sb_start)%nat then Ret None else
  let lg := lg_loop 32 (Z.of_nat (dst - dst_sb_start - 1)) 0 in
  pt ← le16_at m cb;
  let p := Z.shiftr pt (12 - lg) in
  if Z.of_nat dst - p - 1 <? Z.of_nat dst_sb_start then Ret None else
  let back := Z.to_nat (Z.of_nat dst - p - 1) in
  let length := Z.to_nat (Z.land pt (Z.shiftr 0xfff lg) + 3) in
  if (dst_sb_end <? dst + length)%nat then Ret None else
  d ← phrase_copy d dst back length;
  Ret (Some (d, (dst + length)%nat)).

(** The tokens of one tag; [n] tokens are left.  [inl] is the label [err]. *)
Fixpoint token_loop (n : nat) (tag : Z) (m d : list Z) (cb cb_sb_end dst dst_sb_start dst_sb_end : nat)
    : outcome (list Z + list Z * nat * nat) :=
  match n with
  | O => Ret (inr (d, cb, dst))
  | S n =>
      if (cb_sb_end <=? cb)%nat || (dst_sb_end <? dst)%nat then Ret (inr (d, cb, dst)) else
      if Z.land tag NTFS_TOKEN_MASK =? NTFS_SYMBOL_TOKEN then
        x ← rd m cb;
        d ← wr d dst x;
        token_loop n (Z.shiftr tag 1) m d (cb + 1) cb_sb_end (dst + 1) dst_sb_start dst_sb_end
      else
        r ← phrase_token m d cb dst dst_sb_start dst_sb_end;
        match r with
        | None => Ret (inl d)
        | Some (d, dst) =>
            token_loop n (Z.shiftr tag 1) m d (cb + 2) cb_sb_end dst dst_sb_start dst_sb_end
        end
  end.

(** [next_tag].  Every tag takes at least one byte. *)
Fixpoint tag_loop (fuel : nat) (m d : list Z) (cb cb_sb_end dst dst_sb_start dst_sb_end : nat)
    : outcome (list Z + list Z * nat) :=
  match fuel with
  | O => Oob
  | S fuel =>
      if (cb =? cb_sb_end)%nat then
        if (dst <? dst_sb_end)%nat then
          d ← memset d dst 0 (dst_sb_end - dst);
          Ret (inr (d, dst_sb_end))
        else Ret (inr (d, dst))
      else
      if (cb_sb_end <? cb)%nat || (dst_sb_end <? dst)%nat then Ret (inl d) else
      tag ← rd m cb;
      r ← token_loop 8 tag m d (cb + 1) cb_sb_end dst dst_sb_start dst_sb_end;
      match r with
      | inl d => Ret (inl d)
      | inr (d, cb, dst) => tag_loop fuel m d cb cb_sb_end dst dst_sb_start dst_sb_end
      end
  end.

Section decompress.
(** [PAGE_MASK], and which pages of the destination are valid. *)
Context (page_mask : Z) (upl_valid_page : nat → bool).

(** [next_sb].  Every sub-block takes at least three bytes.  [inl] is the
    label [err]. *)
Fixpoint sb_loop (fuel : nat) (m : list Z) (cb_end dst_end : nat) (skip_valid_pages : bool)
    (d : list Z) (cb dst skip_sbs cur_pg : nat) : outcome (list Z + list Z) :=
  match fuel with
  | O => Oob
  | S fuel =>
      stop ← (if (cb =? cb_end)%nat then Ret true else
              h ← le16_at m cb; Ret ((h =? 0) || (dst =? dst_end)%nat));
      if (stop : bool) then
        d ← (if (dst <? dst_end)%nat then memset d dst 0 (dst_end - dst) else Ret d);
        Ret (inr d)
      else
      let dst_sb_end := (dst + NTFS_SB_SIZE)%nat in
      if (dst_end <? dst_sb_end)%nat then Ret (inl d) else
      if (cb_end <? cb + 6)%nat then Ret (inl d) else
      h ← le16_at m cb;
      let cb_sb_end := (cb + Z.to_nat (Z.land h NTFS_SB_SIZE_MASK) + 3)%nat in
      if (cb_end <? cb_sb_end)%nat then Ret (inl d) else
      if negb (skip_sbs =? 0)%nat then
        sb_loop fuel m cb_end dst_end skip_valid_pages d cb_sb_end dst (skip_sbs - 1) cur_pg
      else
      let skip_sb := skip_valid_pages && upl_valid_page cur_pg in
      let cur_pg := if skip_valid_pages &&
                       (Z.land (Z.of_nat dst_sb_end) page_mask =? 0)
                    then S cur_pg else cur_pg in
      if skip_sb then
        sb_loop fuel m cb_end dst_end skip_valid_pages d cb_sb_end dst_sb_end 0 cur_pg
      else
      if Z.land h NTFS_SB_IS_COMPRESSED =? 0 then
        if negb (cb_sb_end - (cb + 2) =? NTFS_SB_SIZE)%nat then Ret (inl d) else
        d ← memcpy d dst m (cb + 2) NTFS_SB_SIZE;
        sb_loop fuel m cb_end dst_end skip_valid_pages d cb_sb_end dst_sb_end 0 cur_pg
      else
        r ← tag_loop (cb_sb_end - cb) m d (cb + 2) cb_sb_end dst dst dst_sb_end;
        match r with
        | inl d => Ret (inl d)
        | inr (d, dst) =>
            sb_loop fuel m cb_end dst_end skip_valid_pages d cb_sb_end dst 0 cur_pg
        end
  end.

(** [m] is the memory from [cb_start] on, [d] that from [dst_start] on; [pl] tells
    whether there is a page list.  The result is the errno and the destination; the
    volume is marked with [NVolSetErrors] when it is EOVERFLOW. *)
Definition ntfs_decompress (d : list Z) (dst_ofs_in_cb dst_size : nat) (m : list Z) (cb_size : nat)
    (pl : bool) (cur_pg pages_per_cb : nat) : outcome (Z * list Z) :=
  let skip_valid_pages := pl && (1 <? pages_per_cb)%nat in
  let skip_sbs := (dst_ofs_in_cb / NTFS_SB_SIZE)%nat in
  r ← sb_loop (S cb_size) m cb_size dst_size skip_valid_pages d 0 0 skip_sbs cur_pg;
  match r with
  | inl d => Ret (EOVERFLOW, d)
  | inr d => Ret (0, d)
  end.
End decompress.

(** ** Phrase tokens *)

(** The algorithm of the comment for the mask of the length and the shift of the back
    pointer. *)
Fixpoint doc_masks (fuel : nat) (i l_mask p_shift : Z) : Z * Z :=
  match fuel with
  | O => (l_mask, p_shift)
  | S fuel =>
      if 0x10 <=? i then doc_masks fuel (Z.shiftr i 1) (Z.shiftr l_mask 1) (p_shift - 1)
      else (l_mask, p_shift)
  end.

Lemma lg_loop_acc fuel u lg : lg_loop fuel u lg = lg + lg_loop fuel u 0.
Proof.
  revert u lg. induction fuel as [|fuel IH]; intros u lg; cbn [lg_loop]; [lia|].
  case_match; [|lia]. rewrite IH, (IH _ (0 + 1)). lia.
Qed.

Lemma lg_loop_nonneg fuel u : 0 ≤ lg_loop fuel u 0.
Proof.
  revert u. induction fuel as [|fuel IH]; intros u; cbn [lg_loop]; [lia|].
  case_match; [|lia]. rewrite lg_loop_acc. specialize (IH (Z.shiftr u 1)). lia.
Qed.

Lemma doc_masks_eq fuel i l_mask p_shift :
  doc_masks fuel i l_mask p_shift =
    (Z.shiftr l_mask (lg_loop fuel i 0), p_shift - lg_loop fuel i 0).
Proof.
  revert i l_mask p_shift. induction fuel as [|fuel IH]; intros i l_mask p_shift; cbn [doc_masks lg_loop].
  { rewrite Z.shiftr_0_r. f_equal. lia. }
  case_match; [|rewrite Z.shiftr_0_r; f_equal; lia]. rewrite IH, (lg_loop_acc _ _ (0 + 1)).
  pose proof (lg_loop_nonneg fuel (Z.shiftr i 1)). rewrite Z.shiftr_shiftr by lia. f_equal; lia.
Qed.

(** Inside a sub-block the back pointer has at least 4 bits. *)
Lemma lg_loop_max u : 0 ≤ u < 4096 → 0 ≤ lg_loop 32 u 0 ≤ 8.
Proof.
  intros Hu. split; [apply lg_loop_nonneg|].
  assert (∀ fuel k v, 0 ≤ v < 16 * 2 ^ Z.of_nat k → lg_loop fuel v 0 ≤ Z.of_nat k) as H.
  { induction fuel as [|fuel IH]; intros k v Hv; cbn [lg_loop]; [lia|].
    destruct (Z.leb_spec 16 v); [|lia]. destruct k as [|k]; [simpl in Hv; lia|].
    rewrite lg_loop_acc. rewrite Nat2Z.inj_succ, Z.pow_succ_r in Hv by lia.
    specialize (IH k (Z.shiftr v 1)). rewrite Z.shiftr_div_pow2 in * by lia. change (2 ^ 1) with 2 in *.
    specialize (IH ltac:(zdiv)). lia. }
  by apply (H 32%nat 8%nat).
Qed.

(** The copy byte by byte, in terms of the output of the sub-block so far. *)
Fixpoint lz_copy (n back : nat) (out : list Z) : list Z :=
  match n with
  | O => out
  | S n =>
      match out !! (length out - back)%nat with
      | Some x => lz_copy n back (out ++ [x])
      | None => out
      end
  end.

Lemma slow_copy_lz n back p out rest :
  (1 ≤ back ≤ length out)%nat → (n ≤ length rest)%nat →
  slow_copy n (p ++ out ++ rest) (length p + length out) (length p + length out - back) =
    Ret (p ++ lz_copy n back out ++ drop n rest).
Proof.
  revert out rest. induction n as [|n IH]; intros out rest Hb Hn; cbn [slow_copy lz_copy]; [by rewrite drop_0|].
  destruct rest as [|y rest]; [simpl in Hn; lia|].
  destruct (lookup_lt_is_Some_2 out (length out - back)) as [x Hx]; [lia|]. rewrite Hx.
  assert (rd (p ++ out ++ y :: rest) (length p + length out - back) = Ret x) as ->.
  { apply (rd_at _ _ (length out - back)); [lia|]. apply rd_Ret. by rewrite lookup_app_l by lia. }
  cbn [mbind outcome_bind]. rewrite (assoc_L (++)), <- length_app, wr_middle. cbn [mbind outcome_bind].
  replace ((p ++ out) ++ x :: rest) with (p ++ (out ++ [x]) ++ rest) by (by app_norm).
  specialize (IH (out ++ [x]) rest). rewrite !length_app in *. cbn [length] in *.
  replace (length p + length out + 1)%nat with (length p + (length out + 1))%nat by lia.
  replace (length p + length out - back + 1)%nat with (length p + (length out + 1) - back)%nat by lia.
  apply IH; lia.
Qed.

Lemma length_lz_copy n back out :
  (1 ≤ back ≤ length out)%nat → length (lz_copy n back out) = (length out + n)%nat.
Proof.
  revert out. induction n as [|n IH]; intros out Hb; cbn [lz_copy]; [lia|].
  destruct (lookup_lt_is_Some_2 out (length out - back)) as [x ->]; [lia|].
  rewrite IH; rewrite length_app; simpl; lia.
Qed.

Lemma lz_copy_add n1 n2 back out :
  (1 ≤ back ≤ length out)%nat → lz_copy (n1 + n2) back out = lz_copy n2 back (lz_copy n1 back out).
Proof.
  revert out. induction n1 as [|n1 IH]; intros out Hb; [done|]. cbn [Nat.add lz_copy].
  destruct (lookup_lt_is_Some_2 out (length out - back)) as [x ->]; [lia|].
  apply IH. rewrite length_app. simpl. lia.
Qed.

(** Without overlap all bytes are there already. *)
Lemma lz_copy_short n back out :
  (n ≤ back ≤ length out)%nat → lz_copy n back out = out ++ take n (drop (length out - back) out).
Proof.
  revert out. induction n as [|n IH]; intros out Hb; cbn [lz_copy]; [by rewrite app_nil_r|].
  destruct (lookup_lt_is_Some_2 out (length out - back)) as [x Hx]; [lia|]. rewrite Hx.
  rewrite (drop_S _ _ _ Hx). cbn [take]. rewrite IH by (rewrite length_app; simpl; lia).
  rewrite length_app. cbn [length]. rewrite <- (assoc_L (++)). f_equal. cbn [app]. f_equal.
  replace (length out + 1 - back)%nat with (S (length out - back)) by lia.
  rewrite drop_app_le, take_app_le by (rewrite ?length_drop; lia). done.
Qed.

Lemma phrase_copy_lz n back p out rest :
  (1 ≤ back ≤ length out)%nat → (n ≤ length rest)%nat →
  phrase_copy (p ++ out ++ rest) (length p + length out) (length p + length out - back) n =
    Ret (p ++ lz_copy n back out ++ drop n rest).
Proof.
  intros Hb Hn. unfold phrase_copy.
  replace (length p + length out - (length p + length out - back))%nat with back by lia.
  assert (∀ k, (k ≤ back)%nat → (k ≤ length rest)%nat →
    memcpy (p ++ out ++ rest) (length p + length out) (p ++ out ++ rest)
      (length p + length out - back) k = Ret (p ++ lz_copy k back out ++ drop k rest)) as Hm.
  { intros k Hk Hr. rewrite memcpy_Ret by (rewrite !length_app; lia). rewrite lz_copy_short by lia.
    rewrite (assoc_L (++) p out rest), take_app_length' by (rewrite length_app; lia).
    rewrite (drop_app_ge _ _ (length p + length out + k)) by (rewrite length_app; lia).
    rewrite drop_app_le by (rewrite length_app; lia). rewrite drop_app_ge by lia.
    replace (length p + length out - back - length p)%nat with (length out - back)%nat by lia.
    rewrite take_app_le by (rewrite length_drop; lia). rewrite length_app. app_norm. do 4 f_equal. f_equal. lia. }
  destruct (Nat.leb_spec n back) as [Hle|Hgt]; [by apply Hm|].
  rewrite Hm by lia. cbn [mbind outcome_bind].
  pose proof (slow_copy_lz (n - back) back p (lz_copy back back out) (drop back rest)) as Hs.
  rewrite length_lz_copy in Hs by done. rewrite length_drop in Hs.
  replace (length p + length out + back)%nat with (length p + (length out + back))%nat by lia.
  replace (length p + length out - back + back)%nat with (length p + (length out + back) - back)%nat by lia.
  rewrite Hs by lia. rewrite <- lz_copy_add, drop_drop by done.
  replace (back + (n - back))%nat with n by lia. done.
Qed.

(** ** The reference decoder *)

(** Back pointer and length of a phrase token, when [n] bytes of the sub-block have been
    decoded. *)
Definition ref_phrase (pt : Z) (n : nat) : nat * nat :=
  let '(l_mask, p_shift) := doc_masks 32 (Z.of_nat n - 1) 0xfff 12 in
  (Z.to_nat (Z.shiftr pt p_shift + 1), Z.to_nat (Z.land pt l_mask + 3)).

(** Up to [n] tokens of [data], behind the output [out].  The sub-block must not become
    longer than [NTFS_SB_SIZE]. *)
Fixpoint ref_tokens (n : nat) (tag : Z) (data out : list Z) : option (list Z * list Z) :=
  match n with
  | O => Some (data, out)
  | S n =>
      match data with
      | [] => Some ([], out)
      | x :: data' =>
          if Z.testbit tag 0 then
            match data' with
            | [] => None
            | y :: data' =>
                let '(back, len) := ref_phrase (x + 256 * y) (length out) in
                if (length out =? 0)%nat || (length out <? back)%nat ||
                   (NTFS_SB_SIZE <? length out + len)%nat
                then None else ref_tokens n (Z.div2 tag) data' (lz_copy len back out)
            end
          else if (NTFS_SB_SIZE <=? length out)%nat then None
          else ref_tokens n (Z.div2 tag) data' (out ++ [x])
      end
  end.

Fixpoint ref_sb (fuel : nat) (data out : list Z) : option (list Z) :=
  match fuel with
  | O => None
  | S fuel =>
      match data with
      | [] => Some out
      | tag :: data =>
          match ref_tokens 8 tag data out with
          | None => None
          | Some (data, out) => ref_sb fuel data out
          end
      end
  end.

(** ** The token loops agree with the reference decoder *)

Lemma ref_phrase_eq pt n :
  (1 ≤ n)%nat → 0 ≤ pt →
  let lg := lg_loop 32 (Z.of_nat (n - 1)) 0 in
  let p := Z.shiftr pt (12 - lg) in
  ref_phrase pt n = (Z.to_nat (p + 1), Z.to_nat (Z.land pt (Z.shiftr 0xfff lg) + 3)) ∧ 0 ≤ p.
Proof.
  intros Hn Hpt lg p. unfold ref_phrase. rewrite doc_masks_eq.
  replace (Z.of_nat n - 1) with (Z.of_nat (n - 1)) by lia. fold lg. split; [done|].
  by apply Z.shiftr_nonneg.
Qed.

Lemma phrase_token_spec x y pm qm p out rest back len :
  0 ≤ x < 256 → 0 ≤ y < 256 → (1 ≤ length out)%nat →
  ref_phrase (x + 256 * y) (length out) = (back, len) → (back ≤ length out)%nat →
  (length out + len ≤ NTFS_SB_SIZE)%nat → (NTFS_SB_SIZE ≤ length out + length rest)%nat →
  phrase_token (pm ++ x :: y :: qm) (p ++ out ++ rest) (length pm) (length p + length out) (length p)
    (length p + NTFS_SB_SIZE) =
    Ret (Some (p ++ lz_copy len back out ++ drop len rest, (length p + (length out + len))%nat)) ∧
  (1 ≤ back)%nat.
Proof.
  intros Hx Hy Ho Href Hback Hlen Hrest.
  destruct (ref_phrase_eq (x + 256 * y) (length out) Ho ltac:(lia)) as [E Hp]. cbv zeta in E, Hp.
  rewrite E in Href. unfold phrase_token. rewrite (proj2 (Nat.eqb_neq _ _)) by lia.
  rewrite le16_at_middle. cbn [mbind outcome_bind].
  replace (length p + length out - length p - 1)%nat with (length out - 1)%nat by lia.
  set (lg := lg_loop 32 _ 0) in *. set (q := Z.shiftr (x + 256 * y) (12 - lg)) in *.
  injection Href as Hb Hl. rewrite (proj2 (Z.ltb_ge _ _)) by lia. rewrite Hl.
  rewrite (proj2 (Nat.ltb_ge _ _)) by lia.
  replace (Z.to_nat (Z.of_nat (length p + length out) - q - 1)) with (length p + length out - back)%nat by lia.
  rewrite phrase_copy_lz by lia. cbn [mbind outcome_bind]. split; [do 3 f_equal; lia|lia].
Qed.

Lemma token_loop_spec n tag data pm qm p out rest data' out' :
  ref_tokens n tag data out = Some (data', out') → bytes data →
  (length out ≤ NTFS_SB_SIZE)%nat → (NTFS_SB_SIZE ≤ length out + length rest)%nat →
  ∃ read, data = read ++ data' ∧ (length out ≤ length out' ≤ NTFS_SB_SIZE)%nat ∧
    token_loop n tag (pm ++ data ++ qm) (p ++ out ++ rest) (length pm) (length (pm ++ data))
      (length p + length out) (length p) (length p + NTFS_SB_SIZE) =
      Ret (inr (p ++ out' ++ drop (length out' - length out) rest,
                length (pm ++ read), (length p + length out')%nat)).
Proof.
  revert tag data pm out rest. induction n as [|n IH];
    intros tag data pm out rest Href Hb Ho Hrest; cbn [ref_tokens token_loop] in *.
  { injection Href as -> ->. exists []. rewrite Nat.sub_diag, drop_0, !app_nil_r. split_and!; done || lia. }
  destruct data as [|x data].
  { injection Href as <- <-. exists [].
    rewrite (proj2 (Nat.leb_le (length (pm ++ [])) _)) by (rewrite app_nil_r; lia). cbn [orb].
    rewrite Nat.sub_diag, drop_0, !app_nil_r. split_and!; done || lia. }
  apply Forall_cons_1 in Hb as [Hx Hb].
  rewrite (proj2 (Nat.leb_gt (length (pm ++ x :: data)) _)), (proj2 (Nat.ltb_ge _ _)) by (rewrite ?length_app; simpl; lia).
  cbn [orb]. unfold NTFS_TOKEN_MASK, NTFS_SYMBOL_TOKEN. change 1 with (Z.ones 1) at 1.
  rewrite Z.land_ones, <- Z.bit0_mod by lia. rewrite <- Z.div2_spec. destruct (Z.testbit tag 0); cbn [Z.b2z Z.eqb].
  - destruct data as [|y data]; [done|]. apply Forall_cons_1 in Hb as [Hy Hb].
    destruct (ref_phrase (x + 256 * y) (length out)) as [back len] eqn:Ep.
    destruct (Nat.eqb_spec (length out) 0), (Nat.ltb_spec (length out) back),
      (Nat.ltb_spec NTFS_SB_SIZE (length out + len)); try done. cbn [orb] in Href.
    destruct (phrase_token_spec x y pm (data ++ qm) p out rest back len) as [E Hb1]; [done|done|lia|done|lia|done|done|].
    cbn [app]. rewrite E. cbn [mbind outcome_bind].
    destruct (IH (Z.div2 tag) data (pm ++ [x; y]) (lz_copy len back out) (drop len rest) Href Hb)
      as (read & -> & Ho' & E'); rewrite ?length_lz_copy, ?length_drop in * by lia; [lia|lia|].
    exists (x :: y :: read). split; [done|]. split; [lia|]. app_norm_in E'.
    replace (length (pm ++ [x; y])) with (length pm + 2)%nat in E' by (rewrite length_app; done).
    app_norm. rewrite E'. rewrite drop_drop. repeat f_equal. lia.
  - destruct (Nat.leb_spec NTFS_SB_SIZE (length out)); [done|]. cbn [app]. rewrite rd_middle.
    cbn [mbind outcome_bind]. destruct rest as [|z rest]; [simpl in Hrest; lia|].
    rewrite (assoc_L (++) p), <- length_app, wr_middle. cbn [mbind outcome_bind].
    simpl in Hrest.
    destruct (IH (Z.div2 tag) data (pm ++ [x]) (out ++ [x]) rest Href Hb) as (read & -> & Ho' & E');
      rewrite ?length_app in *; cbn [length] in *; [lia|lia|].
    exists (x :: read). split; [done|]. split; [lia|]. app_norm_in E'. app_norm.
    rewrite ?length_app in *. cbn [length] in *. rewrite ?length_app in *.
    replace (length p + (length out + 1))%nat with (length p + length out + 1)%nat in E' by lia.
    replace (length pm + S (length read + length data'))%nat with
      (length pm + 1 + (length read + length data'))%nat by lia.
    rewrite E'. replace (length out' - length out)%nat with (S (length out' - (length out + 1))) by lia. cbn [drop].
    by replace (length pm + S (length read))%nat with (length pm + 1 + length read)%nat by lia.
Qed.

Lemma tag_loop_spec fuel fuel' data pm qm p out rest out' :
  ref_sb fuel data out = Some out' → bytes data → (length data < fuel')%nat →
  (length out ≤ NTFS_SB_SIZE)%nat → (NTFS_SB_SIZE ≤ length out + length rest)%nat →
  (length out' ≤ NTFS_SB_SIZE)%nat ∧
  tag_loop fuel' (pm ++ data ++ qm) (p ++ out ++ rest) (length pm) (length (pm ++ data))
    (length p + length out) (length p) (length p + NTFS_SB_SIZE) =
    Ret (inr (p ++ (out' ++ replicate (NTFS_SB_SIZE - length out') 0) ++
                drop (NTFS_SB_SIZE - length out) rest, (length p + NTFS_SB_SIZE)%nat)).
Proof.
  revert fuel' data pm out rest. induction fuel as [|fuel IH];
    intros fuel' data pm out rest Href Hb Hf Ho Hrest; [done|].
  destruct fuel' as [|fuel']; [lia|]. cbn [ref_sb tag_loop] in *. destruct data as [|tag data].
  - injection Href as <-. split; [done|]. rewrite app_nil_r, Nat.eqb_refl.
    destruct (Nat.ltb_spec (length p + length out) (length p + NTFS_SB_SIZE)).
    + rewrite memset_Ret by (rewrite !length_app; lia). cbn [mbind outcome_bind].
      rewrite (assoc_L (++) p), take_app_length', drop_app_ge by (rewrite length_app; lia).
      rewrite length_app. app_norm.
      replace (length p + NTFS_SB_SIZE - (length p + length out))%nat with (NTFS_SB_SIZE - length out)%nat by lia.
      by replace (length p + length out + (NTFS_SB_SIZE - length out) - (length p + length out))%nat
        with (NTFS_SB_SIZE - length out)%nat by lia.
    + replace (NTFS_SB_SIZE - length out)%nat with 0%nat by lia. cbn [replicate].
      rewrite app_nil_r, drop_0. by replace (length out) with NTFS_SB_SIZE by lia.
  - apply Forall_cons_1 in Hb as [_ Hb].
    rewrite (proj2 (Nat.eqb_neq _ _)), (proj2 (Nat.ltb_ge (length (pm ++ _)) _)), (proj2 (Nat.ltb_ge _ _))
      by (rewrite ?length_app; simpl; lia). cbn [orb app]. rewrite rd_middle. cbn [mbind outcome_bind].
    destruct (ref_tokens 8 tag data out) as [[data1 out1]|] eqn:Et; [|done].
    destruct (token_loop_spec 8 tag data (pm ++ [tag]) qm p out rest data1 out1 Et Hb Ho Hrest)
      as (read & -> & Ho1 & E).
    app_norm_in E. app_norm.
    replace (length (pm ++ [tag])) with (length pm + 1)%nat in E by (rewrite length_app; done).
    rewrite E. cbn [mbind outcome_bind].
    destruct (IH fuel' data1 (pm ++ tag :: read) out1 (drop (length out1 - length out) rest) Href) as [Ho2 E2].
    { by apply Forall_app in Hb as [_ ?]. }
    { simpl in Hf. rewrite length_app in Hf. lia. }
    { lia. } { rewrite length_drop. lia. }
    split; [done|]. app_norm_in E2. app_norm. rewrite E2, drop_drop.
    by replace (length out1 - length out + (NTFS_SB_SIZE - length out1))%nat
      with (NTFS_SB_SIZE - length out)%nat by lia.
Qed.

(** ** Sub-blocks *)

(** A sub-block: header, payload, and the data it stands for. *)
Record sub_block := mk_sb { sb_head : Z; sb_payload : list Z; sb_data : list Z }.

Definition sb_bytes (b : sub_block) : list Z :=
  (sb_head b mod 256) :: (sb_head b / 256) :: sb_payload b.

(** A correct sub-block: either stored, or decoded by the reference decoder and filled up
    with zeroes.  The shortest payload is a tag, a symbol and a phrase. *)
Definition sb_ok (b : sub_block) : Prop :=
  0 ≤ sb_head b < 65536 ∧ sb_head b ≠ 0 ∧ bytes (sb_payload b) ∧
  length (sb_payload b) = S (Z.to_nat (Z.land (sb_head b) NTFS_SB_SIZE_MASK)) ∧
  (4 ≤ length (sb_payload b))%nat ∧
  if Z.land (sb_head b) NTFS_SB_IS_COMPRESSED =? 0
  then length (sb_payload b) = NTFS_SB_SIZE ∧ sb_data b = sb_payload b
  else ∃ out, ref_sb (S (length (sb_payload b))) (sb_payload b) [] = Some out ∧
    sb_data b = out ++ replicate (NTFS_SB_SIZE - length out) 0.

Section blocks.
Context (page_mask : Z) (upl_valid_page : nat → bool) (cur_pg0 q : nat) (skip_valid_pages : bool).

(** A page has [q] sub-blocks. *)
Hypothesis Hq : (0 < q)%nat.
Hypothesis Hmask : ∀ j : nat,
  (Z.land (Z.of_nat (j * NTFS_SB_SIZE)) page_mask =? 0) = (j `mod` q =? 0)%nat.

(** The page of the sub-block [j] of the destination is valid. *)
Definition sb_valid (j : nat) : bool := skip_valid_pages && upl_valid_page (cur_pg0 + j / q)%nat.

(** What is in the [n] sub-blocks of the destination from [j] on after the sub-blocks
    [sbs] have been decoded; [old] is what was there before. *)
Fixpoint dc_out (n j : nat) (sbs : list sub_block) (old : list Z) : list Z :=
  match n with
  | O => []
  | S n =>
      match sbs with
      | [] => replicate (S n * NTFS_SB_SIZE) 0
      | b :: sbs =>
          (if sb_valid j then take NTFS_SB_SIZE old else sb_data b) ++
          dc_out n (S j) sbs (drop NTFS_SB_SIZE old)
      end
  end.

Lemma sb_step n : (S n * NTFS_SB_SIZE = NTFS_SB_SIZE + n * NTFS_SB_SIZE)%nat.
Proof. lia. Qed.

(** The page number at the sub-block [j]. *)
Definition sb_page (j : nat) : nat := if skip_valid_pages then (cur_pg0 + j / q)%nat else cur_pg0.

Lemma next_page j :
  (if skip_valid_pages && (Z.land (Z.of_nat (S j * NTFS_SB_SIZE)) page_mask =? 0)
   then S (sb_page j) else sb_page j) = sb_page (S j).
Proof.
  unfold sb_page. destruct skip_valid_pages; cbn [andb]; [|done]. rewrite Hmask.
  pose proof (Nat.div_mod_eq j q). pose proof (Nat.div_mod_eq (S j) q).
  pose proof (Nat.mod_upper_bound j q). pose proof (Nat.mod_upper_bound (S j) q).
  destruct (Nat.eqb_spec (S j `mod` q) 0); nia.
Qed.

(** How the compression block ends: at its last byte, or with an empty header. *)
Definition cb_tail (tail : list Z) (extra : nat) : Prop :=
  extra = 0%nat ∨ ((2 ≤ extra)%nat ∧ ∃ rest, tail = 0 :: 0 :: rest).

Lemma length_sb_data b : sb_ok b → length (sb_data b) = NTFS_SB_SIZE.
Proof.
  intros (_ & _ & Hb & _ & _ & Hc). case_match; [destruct Hc as [? ->]; done|].
  destruct Hc as (out & Href & ->).
  destruct (tag_loop_spec _ (S (length (sb_payload b))) (sb_payload b) [] [] [] []
    (replicate NTFS_SB_SIZE 0) out Href Hb) as [Hl _]; [lia|simpl; lia|by rewrite length_replicate|].
  rewrite length_app, length_replicate. lia.
Qed.

Lemma NTFS_SB_SIZE_pos : (0 < NTFS_SB_SIZE)%nat.
Proof. by apply Nat.ltb_lt. Qed.

(** The header of a sub-block, and the end of the sub-block it gives. *)
Lemma sb_header b pm qm :
  sb_ok b →
  le16_at (pm ++ sb_bytes b ++ qm) (length pm) = Ret (sb_head b) ∧
  (length pm + Z.to_nat (Z.land (sb_head b) NTFS_SB_SIZE_MASK) + 3 = length (pm ++ sb_bytes b))%nat ∧
  (length pm + 6 ≤ length (pm ++ sb_bytes b))%nat ∧ (sb_head b =? 0) = false.
Proof.
  intros (Hh & Hz & _ & Hl & H4 & _). unfold sb_bytes. cbn [app]. rewrite le16_head by done.
  rewrite length_app. cbn [length]. split_and!; [done|lia|lia|]. by apply Z.eqb_neq.
Qed.

(** One sub-block is decoded. *)
Lemma sb_decode b pm qm done rest :
  sb_ok b → (NTFS_SB_SIZE ≤ length rest)%nat →
  let d := done ++ rest in
  let d' := done ++ sb_data b ++ drop NTFS_SB_SIZE rest in
  let cb_sb_end := length (pm ++ sb_bytes b) in
  let m := pm ++ sb_bytes b ++ qm in
  if Z.land (sb_head b) NTFS_SB_IS_COMPRESSED =? 0
  then (cb_sb_end - (length pm + 2) = NTFS_SB_SIZE)%nat ∧
    memcpy d (length done) m (length pm + 2) NTFS_SB_SIZE = Ret d'
  else tag_loop (cb_sb_end - length pm) m d (length pm + 2) cb_sb_end (length done) (length done)
         (length done + NTFS_SB_SIZE) = Ret (inr (d', (length done + NTFS_SB_SIZE)%nat)).
Proof.
  intros (_ & _ & Hb & Hl & H4 & Hc) Hr. cbv zeta. unfold sb_bytes. rewrite !length_app. cbn [length app].
  set (h0 := _ mod 256). set (h1 := _ / 256). case_match.
  - destruct Hc as [Hlen ->]. split; [lia|].
    rewrite memcpy_Ret by (rewrite !length_app; cbn [length]; rewrite ?length_app; lia).
    rewrite take_app_length, !drop_app_ge by lia.
    replace (length done + NTFS_SB_SIZE - length done)%nat with NTFS_SB_SIZE by lia.
    replace (length pm + 2 - length pm)%nat with 2%nat by lia. cbn [drop]. rewrite drop_0.
    by rewrite take_app_length'.
  - destruct Hc as (out & Href & ->).
    destruct (tag_loop_spec _ (S (S (length (sb_payload b)))) (sb_payload b) (pm ++ [h0; h1]) qm done [] rest out Href Hb)
      as [_ E]; [lia|simpl; lia|simpl; lia|]. cbn [app length] in E. rewrite Nat.add_0_r, Nat.sub_0_r in E.
    rewrite !length_app in E. cbn [length] in E. app_norm_in E. app_norm.
    replace (length pm + S (S (length (sb_payload b))) - length pm)%nat with (S (S (length (sb_payload b)))) by lia.
    by replace (length pm + S (S (length (sb_payload b))))%nat with (length pm + 2 + length (sb_payload b))%nat by lia.
Qed.

(** The main loop, when no sub-block is to be skipped any more. *)
Lemma sb_loop_spec fuel sbs pm tail extra done rest j n :
  Forall sb_ok sbs → cb_tail tail extra → (length sbs < fuel)%nat →
  length done = (j * NTFS_SB_SIZE)%nat → (n * NTFS_SB_SIZE ≤ length rest)%nat →
  sb_loop page_mask upl_valid_page fuel (pm ++ mjoin (sb_bytes <$> sbs) ++ tail)
    (length (pm ++ mjoin (sb_bytes <$> sbs)) + extra) (length done + n * NTFS_SB_SIZE)
    skip_valid_pages (done ++ rest) (length pm) (length done) 0 (sb_page j) =
    Ret (inr (done ++ dc_out n j sbs rest ++ drop (n * NTFS_SB_SIZE) rest)).
Proof.
  intros Hok. revert fuel pm done rest j n. induction Hok as [|b sbs Hb Hok IH];
    intros fuel pm done rest j n Htail Hf Hd Hr; (destruct fuel as [|fuel]; [simpl in Hf; lia|]); cbn [sb_loop].
  - replace (mjoin (sb_bytes <$> [])) with (@nil Z) by done. rewrite app_nil_r. cbn [app].
    assert ((if (length pm =? length pm + extra)%nat then Ret true
             else h ← le16_at (pm ++ tail) (length pm);
                  Ret ((h =? 0) || (length done =? length done + n * NTFS_SB_SIZE)%nat)) = Ret true) as ->.
    { destruct Htail as [-> |(He & rest' & ->)]; [by rewrite Nat.add_0_r, Nat.eqb_refl|].
      rewrite (proj2 (Nat.eqb_neq _ _)), le16_at_middle by lia. done. }
    cbn [mbind outcome_bind]. destruct n as [|n].
    + rewrite Nat.add_0_r, Nat.ltb_irrefl. cbn. by rewrite drop_0.
    + destruct (Nat.ltb_spec (length done) (length done + S n * NTFS_SB_SIZE)) as [|Hz].
      * rewrite memset_Ret by (rewrite length_app; lia). cbn [mbind outcome_bind dc_out].
        rewrite take_app_length, drop_app_ge by lia.
        by replace (length done + S n * NTFS_SB_SIZE - length done)%nat with (S n * NTFS_SB_SIZE)%nat by lia;
          replace (length done + S n * NTFS_SB_SIZE - length done)%nat with (S n * NTFS_SB_SIZE)%nat by lia.
      * cbn [mbind outcome_bind dc_out]. replace (S n * NTFS_SB_SIZE)%nat with 0%nat by lia. by rewrite drop_0.
  - pose proof NTFS_SB_SIZE_pos as Hsz. set (rs := mjoin (sb_bytes <$> sbs)).
    replace (mjoin (sb_bytes <$> b :: sbs)) with (sb_bytes b ++ rs) by done. app_norm.
    destruct (sb_header b pm (rs ++ tail) Hb) as (Hh & Hend & H6 & Hhz).
    rewrite (assoc_L (++) pm (sb_bytes b) rs), length_app.
    rewrite (proj2 (Nat.eqb_neq (length pm) _)), Hh by lia. cbn [mbind outcome_bind]. rewrite Hhz. cbn [orb].
    destruct n as [|n].
    { rewrite Nat.add_0_r, Nat.eqb_refl, Nat.ltb_irrefl. cbn. by rewrite drop_0. }
    rewrite (proj2 (Nat.eqb_neq (length done) _)), (proj2 (Nat.ltb_ge _ (length done + NTFS_SB_SIZE))),
      (proj2 (Nat.ltb_ge _ (length pm + 6))) by lia. cbn [mbind outcome_bind].
    rewrite Hend, (proj2 (Nat.ltb_ge _ (length (pm ++ sb_bytes b)))) by lia. cbn [Nat.eqb negb].
    set (chunk := if sb_valid j then take NTFS_SB_SIZE rest else sb_data b).
    assert (length chunk = NTFS_SB_SIZE) as Hchunk
      by (unfold chunk; case_match; [rewrite length_take; lia|by apply length_sb_data]).
    specialize (IH fuel (pm ++ sb_bytes b) (done ++ chunk) (drop NTFS_SB_SIZE rest) (S j) n Htail).
    fold rs in IH. rewrite !(length_app done), Hchunk, Hd, drop_drop, (length_app _ rs) in IH. app_norm_in IH.
    specialize (IH ltac:(simpl in Hf; lia) ltac:(lia) ltac:(rewrite length_drop; lia)).
    cbn [dc_out]. fold chunk. app_norm. rewrite Hd.
    replace (j * NTFS_SB_SIZE + NTFS_SB_SIZE)%nat with (S j * NTFS_SB_SIZE)%nat in * by lia.
    rewrite next_page. rewrite (sb_step n) in *.
    replace (S j * NTFS_SB_SIZE + n * NTFS_SB_SIZE)%nat
      with (j * NTFS_SB_SIZE + (NTFS_SB_SIZE + n * NTFS_SB_SIZE))%nat in IH by lia.
    assert (skip_valid_pages && upl_valid_page (sb_page j) = sb_valid j) as ->
      by (unfold sb_valid, sb_page; by destruct skip_valid_pages).
    pose proof (sb_decode b pm (rs ++ tail) done rest Hb ltac:(lia)) as Hdec. cbv zeta in Hdec. rewrite Hd in Hdec.
    unfold chunk in *. destruct (sb_valid j).
    { by rewrite take_drop in IH. }
    replace (j * NTFS_SB_SIZE + NTFS_SB_SIZE)%nat with (S j * NTFS_SB_SIZE)%nat in Hdec by lia.
    case_match.
    + destruct Hdec as [El Em]. rewrite El, Nat.eqb_refl, Em. cbn [negb mbind outcome_bind]. exact IH.
    + rewrite Hdec. cbn [mbind outcome_bind]. exact IH.
Qed.

(** The sub-blocks in front of the destination are skipped. *)
Lemma sb_loop_skip s fuel sbs pm tail extra d n :
  Forall sb_ok sbs → cb_tail tail extra → (length sbs < fuel)%nat → (s ≤ length sbs)%nat →
  (0 < n)%nat → (n * NTFS_SB_SIZE ≤ length d)%nat →
  sb_loop page_mask upl_valid_page fuel (pm ++ mjoin (sb_bytes <$> sbs) ++ tail)
    (length (pm ++ mjoin (sb_bytes <$> sbs)) + extra) (n * NTFS_SB_SIZE)
    skip_valid_pages d (length pm) 0 s cur_pg0 =
    Ret (inr (dc_out n 0 (drop s sbs) d ++ drop (n * NTFS_SB_SIZE) d)).
Proof.
  revert fuel sbs pm. induction s as [|s IH]; intros fuel sbs pm Hok Htail Hf Hs Hn Hd.
  { pose proof (sb_loop_spec fuel sbs pm tail extra [] d 0 n Hok Htail Hf eq_refl Hd) as E.
    replace (sb_page 0) with cur_pg0 in E by (unfold sb_page; case_match; [rewrite Nat.Div0.div_0_l; lia|done]).
    exact E. }
  destruct sbs as [|b sbs]; [simpl in Hs; lia|]. apply Forall_cons_1 in Hok as [Hb Hok].
  destruct fuel as [|fuel]; [simpl in Hf; lia|]. cbn [sb_loop].
  pose proof NTFS_SB_SIZE_pos as Hsz. set (rs := mjoin (sb_bytes <$> sbs)).
  replace (mjoin (sb_bytes <$> b :: sbs)) with (sb_bytes b ++ rs) by done. app_norm.
  destruct (sb_header b pm (rs ++ tail) Hb) as (Hh & Hend & H6 & Hhz).
  rewrite (assoc_L (++) pm (sb_bytes b) rs), length_app.
  rewrite (proj2 (Nat.eqb_neq (length pm) _)), Hh by lia. cbn [mbind outcome_bind]. rewrite Hhz. cbn [orb].
  destruct n as [|n]; [lia|]. rewrite sb_step in *.
  rewrite (proj2 (Nat.eqb_neq 0 _)), (proj2 (Nat.ltb_ge _ (0 + NTFS_SB_SIZE))),
    (proj2 (Nat.ltb_ge _ (length pm + 6))) by lia. cbn [mbind outcome_bind].
  rewrite Hend, (proj2 (Nat.ltb_ge _ (length (pm ++ sb_bytes b)))) by lia. cbn [Nat.eqb negb].
  rewrite Nat.sub_succ, Nat.sub_0_r.
  specialize (IH fuel sbs (pm ++ sb_bytes b) Hok Htail ltac:(simpl in Hf; lia) ltac:(simpl in Hs; lia) Hn Hd).
  fold rs in IH. rewrite (length_app _ rs) in IH. app_norm_in IH. exact IH.
Qed.
End blocks.

(** [PAGE_MASK] for pages of [2 ^ e] sub-blocks. *)
Definition page_mask_of (e : nat) : Z := 2 ^ (12 + Z.of_nat e) - 1.

Lemma page_mask_of_spec e j :
  (Z.land (Z.of_nat (j * NTFS_SB_SIZE)) (page_mask_of e) =? 0) = (j `mod` (2 ^ e) =? 0)%nat.
Proof.
  unfold page_mask_of. rewrite Z.sub_1_r, <- Z.ones_equiv, Z.land_ones by lia.
  rewrite Nat2Z.inj_mul, Z.pow_add_r by lia. change (Z.of_nat NTFS_SB_SIZE) with (2 ^ 12).
  rewrite (Z.mul_comm (2 ^ 12)), Z.mul_mod_distr_r by (apply Z.pow_nonzero || done; lia).
  replace (2 ^ Z.of_nat e) with (Z.of_nat (2 ^ e)) by (by rewrite Nat2Z.inj_pow).
  rewrite <- Nat2Z.inj_mod. destruct (Nat.eqb_spec (j `mod` 2 ^ e) 0) as [->|Hne]; [done|].
  apply Z.eqb_neq. lia.
Qed.

Lemma length_mjoin_sb sbs : (length sbs ≤ length (mjoin (sb_bytes <$> sbs)))%nat.
Proof.
  induction sbs as [|b sbs IH]; [done|]. cbn. rewrite length_app.
  apply le_n_S. etransitivity; [exact IH|]. apply le_S, Nat.le_add_l.
Qed.

(** C18: decompression of a correct compression block.  The destination receives the sub-blocks from
    the requested one on, each as the reference decoder of the documented format decodes it and
    filled up with zeroes, and zeroes when the block has no more; sub-blocks in pages that are
    already valid, and everything behind the destination, keep their contents. *)
Theorem ntfs_decompress_spec e valid cur_pg pages_per_cb pl sbs tail extra s n d :
  Forall sb_ok sbs → cb_tail tail extra → (s ≤ length sbs)%nat → (0 < n)%nat →
  (n * NTFS_SB_SIZE ≤ length d)%nat →
  let cb := mjoin (sb_bytes <$> sbs) in
  ntfs_decompress (page_mask_of e) valid d (s * NTFS_SB_SIZE) (n * NTFS_SB_SIZE) (cb ++ tail)
    (length cb + extra) pl cur_pg pages_per_cb =
    Ret (0, dc_out valid cur_pg (2 ^ e) (pl && (1 <? pages_per_cb)%nat) n 0 (drop s sbs) d ++
            drop (n * NTFS_SB_SIZE) d).
Proof.
  intros Hok Htail Hs Hn Hd cb. unfold ntfs_decompress. pose proof NTFS_SB_SIZE_pos as Hsz.
  rewrite Nat.div_mul by lia. pose proof (length_mjoin_sb sbs) as Hl. fold cb in Hl.
  assert (0 < 2 ^ e)%nat as He by (apply Nat.neq_0_lt_0, Nat.pow_nonzero; done).
  pose proof (sb_loop_skip (page_mask_of e) valid cur_pg (2 ^ e) (pl && (1 <? pages_per_cb)%nat) He
    (page_mask_of_spec e) s (S (length cb + extra)) sbs [] tail extra d n Hok Htail) as E.
  cbn [app length] in E. fold cb in E. rewrite E by lia. done.
Qed.

Lemma ntfs_decompress_spec_witness :
  let sbs := [mk_sb 0x8003 [0x02; 0x41; 0xfc; 0x0f] (replicate NTFS_SB_SIZE 0x41)] in
  let d := replicate (2 * NTFS_SB_SIZE) 7 in
  let cb := mjoin (sb_bytes <$> sbs) in
  ntfs_decompress (page_mask_of 0) (λ _, false) d (0 * NTFS_SB_SIZE) (2 * NTFS_SB_SIZE) (cb ++ [0; 0])
    (length cb + 2) true 0 2 =
    Ret (0, dc_out (λ _, false) 0 (2 ^ 0) (true && (1 <? 2)%nat) 2 0 (drop 0 sbs) d ++
            drop (2 * NTFS_SB_SIZE) d).
Proof.
  intros sbs d cb. apply ntfs_decompress_spec;
    [|right; split; [lia|by exists []]|simpl; lia|lia|unfold d; rewrite length_replicate; lia].
  apply list.Forall_cons. split; [|done]. split_and!; [done..|by repeat (apply list.Forall_cons; split)|by vm_compute|done|].
  cbn. exists (replicate NTFS_SB_SIZE 0x41). split; [vm_compute; reflexivity|].
  by rewrite length_replicate, Nat.sub_diag, app_nil_r.
Defined.

(** ** Safety

    The decoder stays inside buffers that have one byte to spare. *)

Lemma slow_copy_runs n k d dst back :
  (back ≤ dst)%nat → (dst + k ≤ n)%nat → (n ≤ length d)%nat → runs (slow_copy k d dst back) (kept n d).
Proof.
  revert d dst back. induction k as [|k IH]; intros d dst back Hb Hk Hn; cbn [slow_copy]; [by apply runs_Ret|].
  destruct (lookup_lt_is_Some_2 d back) as [x Hx]; [lia|]. rewrite (rd_Ret _ _ _ Hx). cbn [mbind outcome_bind].
  eapply runs_bind; [apply (wr_runs n); lia|]. intros d' [Hl Hd].
  eapply runs_mono; [apply IH; lia|]. intros d2 H2. by transitivity d'.
Qed.

Lemma phrase_copy_runs n k d dst back :
  (back ≤ dst)%nat → (dst + k ≤ n)%nat → (n ≤ length d)%nat → runs (phrase_copy d dst back k) (kept n d).
Proof.
  intros Hb Hk Hn. unfold phrase_copy. destruct (Nat.leb_spec k (dst - back)); [apply memcpy_runs; lia|].
  eapply runs_bind; [apply (memcpy_runs n); lia|]. intros d' [Hl Hd].
  eapply runs_mono; [apply (slow_copy_runs n); lia|]. intros d2 H2. by transitivity d'.
Qed.

Lemma phrase_token_runs n m d cb dst dst_sb_start dst_sb_end :
  bytes m → (S cb < length m)%nat → (dst_sb_end ≤ n)%nat → (n ≤ length d)%nat →
  runs (phrase_token m d cb dst dst_sb_start dst_sb_end)
    (λ r, ∀ d' dst', r = Some (d', dst') → kept n d d' ∧ (dst ≤ dst' ≤ dst_sb_end)%nat).
Proof.
  intros Hm Hcb He Hn. unfold phrase_token. case_match; [by apply runs_Ret|].
  eapply runs_bind; [apply le16_runs; [done|lia]|]. intros pt [Hpt _].
  assert (0 ≤ Z.shiftr pt (12 - lg_loop 32 (Z.of_nat (dst - dst_sb_start - 1)) 0)) by (by apply Z.shiftr_nonneg).
  destruct (Z.ltb_spec (Z.of_nat dst - Z.shiftr pt (12 - lg_loop 32 (Z.of_nat (dst - dst_sb_start - 1)) 0) - 1)
    (Z.of_nat dst_sb_start)); [by apply runs_Ret|].
  generalize (Z.to_nat (Z.land pt (Z.shiftr 0xfff (lg_loop 32 (Z.of_nat (dst - dst_sb_start - 1)) 0)) + 3)) as len.
  intros len. destruct (Nat.ltb_spec dst_sb_end (dst + len)); [by apply runs_Ret|].
  eapply runs_bind; [apply (phrase_copy_runs n); lia|]. intros d' Hd'. apply runs_Ret.
  intros ? ? [= <- <-]. split; [done|lia].
Qed.

(** What the token and the tag loop return. *)
Definition tokens_post (n : nat) (d : list Z) (cb dst dst_sb_end : nat)
    (r : list Z + list Z * nat * nat) : Prop :=
  match r with
  | inl d' => kept n d d'
  | inr (d', cb', dst') => kept n d d' ∧ (cb ≤ cb')%nat ∧ (dst ≤ dst' ≤ S dst_sb_end)%nat
  end.

Lemma token_loop_runs n k tag m d cb cb_sb_end dst dst_sb_start dst_sb_end :
  bytes m → (cb_sb_end < length m)%nat → (S dst_sb_end ≤ n)%nat → (n ≤ length d)%nat →
  (dst ≤ S dst_sb_end)%nat →
  runs (token_loop k tag m d cb cb_sb_end dst dst_sb_start dst_sb_end) (tokens_post n d cb dst dst_sb_end).
Proof.
  intros Hm Hcb He. revert tag d cb dst.
  induction k as [|k IH]; intros tag d cb dst Hn Hd; cbn [token_loop]; [by apply runs_Ret|].
  destruct (Nat.leb_spec cb_sb_end cb); [by apply runs_Ret|].
  destruct (Nat.ltb_spec dst_sb_end dst); [by apply runs_Ret|]. cbn [orb].
  assert (∀ d' cb' dst', kept n d d' → (cb ≤ cb')%nat → (dst ≤ dst' ≤ S dst_sb_end)%nat →
    runs (token_loop k (Z.shiftr tag 1) m d' cb' cb_sb_end dst' dst_sb_start dst_sb_end)
      (tokens_post n d cb dst dst_sb_end)) as Hnext.
  { intros d' cb' dst' Hk Hc Hs. pose proof Hk as [Hl _].
    eapply runs_mono; [apply IH; lia|]. intros [d2|[[d2 cb2] dst2]]; cbn; [by transitivity d'|].
    intros (? & ? & ?). split; [by transitivity d'|lia]. }
  case_match.
  - destruct (lookup_lt_is_Some_2 m cb) as [x Hx]; [lia|]. rewrite (rd_Ret _ _ _ Hx). cbn [mbind outcome_bind].
    eapply runs_bind; [apply (wr_runs n); lia|]. intros d' Hk. apply Hnext; [done|lia..].
  - eapply runs_bind; [apply (phrase_token_runs n); [done|lia..]|].
    intros [[d' dst']|] Hr; [|by apply runs_Ret]. destruct (Hr _ _ eq_refl). apply Hnext; [done|lia..].
Qed.

Definition sb_post (n : nat) (d : list Z) (dst_sb_end : nat) (r : list Z + list Z * nat) : Prop :=
  match r with
  | inl d' => kept n d d'
  | inr (d', dst') => kept n d d' ∧ (dst_sb_end ≤ dst' ≤ S dst_sb_end)%nat
  end.

Lemma tag_loop_runs n fuel m d cb cb_sb_end dst dst_sb_start dst_sb_end :
  bytes m → (cb_sb_end < length m)%nat → (S dst_sb_end ≤ n)%nat → (n ≤ length d)%nat →
  (dst ≤ S dst_sb_end)%nat → (cb_sb_end - cb < fuel)%nat →
  runs (tag_loop fuel m d cb cb_sb_end dst dst_sb_start dst_sb_end) (sb_post n d dst_sb_end).
Proof.
  intros Hm Hcb He. revert d cb dst.
  induction fuel as [|fuel IH]; intros d cb dst Hn Hd Hf; [lia|]. cbn [tag_loop].
  destruct (Nat.eqb_spec cb cb_sb_end).
  { destruct (Nat.ltb_spec dst dst_sb_end); [|apply runs_Ret; split; [done|lia]].
    eapply runs_bind; [apply (memset_runs n); lia|]. intros d' Hk. apply runs_Ret. split; [done|lia]. }
  destruct (Nat.ltb_spec cb_sb_end cb); [by apply runs_Ret|].
  destruct (Nat.ltb_spec dst_sb_end dst); [by apply runs_Ret|]. cbn [orb].
  destruct (lookup_lt_is_Some_2 m cb) as [x Hx]; [lia|]. rewrite (rd_Ret _ _ _ Hx). cbn [mbind outcome_bind].
  eapply runs_bind; [apply (token_loop_runs n); [done|lia..]|].
  intros [d'|[[d' cb'] dst']]; [intros ?; by apply runs_Ret|]. intros (Hk & Hc & Hs). pose proof Hk as [Hl _].
  eapply runs_mono; [apply IH; lia|]. intros [d2|[d2 dst2]]; cbn; [by transitivity d'|].
  intros [? ?]. split; [by transitivity d'|lia].
Qed.

Lemma sb_loop_runs page_mask valid n fuel m cb_end dst_end sv d cb dst skip cur_pg :
  bytes m → (cb ≤ cb_end < length m)%nat → (S dst_end ≤ n)%nat → (n ≤ length d)%nat →
  (dst ≤ S dst_end)%nat → (cb_end - cb < fuel)%nat →
  runs (sb_loop page_mask valid fuel m cb_end dst_end sv d cb dst skip cur_pg)
    (λ r, match r with inl d' | inr d' => kept n d d' end).
Proof.
  intros Hm Hcb He. revert d cb dst skip cur_pg Hcb.
  induction fuel as [|fuel IH]; intros d cb dst skip cur_pg Hcb Hn Hd Hf; [lia|]. cbn [sb_loop].
  assert (∀ d' cb' dst' skip' cur_pg', kept n d d' → (cb < cb' ≤ cb_end)%nat → (dst' ≤ S dst_end)%nat →
    runs (sb_loop page_mask valid fuel m cb_end dst_end sv d' cb' dst' skip' cur_pg')
      (λ r, match r with inl d' | inr d' => kept n d d' end)) as Hnext.
  { intros d' cb' dst' skip' cur_pg' Hk Hc Hs. pose proof Hk as [Hl _].
    eapply runs_mono; [apply IH; lia|]. intros [d2|d2] ?; by transitivity d'. }
  clear IH. eapply runs_bind with (P := λ stop, stop = false → (cb < cb_end)%nat).
  { destruct (Nat.eqb_spec cb cb_end); [by apply runs_Ret|].
    eapply runs_bind; [apply le16_runs; [done|lia]|]. intros. apply runs_Ret. lia. }
  intros [|] Hstop.
  { eapply runs_bind with (P := kept n d); [|intros; by apply runs_Ret].
    destruct (Nat.ltb_spec dst dst_end); [apply memset_runs; lia|by apply runs_Ret]. }
  specialize (Hstop eq_refl). destruct (Nat.ltb_spec dst_end (dst + NTFS_SB_SIZE)); [by apply runs_Ret|].
  destruct (Nat.ltb_spec cb_end (cb + 6)); [by apply runs_Ret|].
  eapply runs_bind; [apply le16_runs; [done|lia]|]. intros h _.
  match goal with |- context [(cb_end <? ?x)%nat] => destruct (Nat.ltb_spec cb_end x) end; [by apply runs_Ret|].
  case_match; [apply Hnext; [done|lia..]|]. case_match; [apply Hnext; [done|lia..]|]. case_match.
  - case_match; [by apply runs_Ret|].
    match goal with H : negb (?a =? ?b)%nat = false |- _ => destruct (Nat.eqb_spec a b); [clear H|done] end.
    eapply runs_bind; [apply (memcpy_runs n); lia|]. intros d' Hk. apply Hnext; [done|lia..].
  - eapply runs_bind; [apply (tag_loop_runs n); [done|lia..]|].
    intros [d'|[d' dst']]; [intros ?; by apply runs_Ret|]. intros [Hk ?]. apply Hnext; [done|lia..].
Qed.

(** C37: on any data, however corrupt, the decoder terminates with 0 or EOVERFLOW, reads at most one
    byte behind the compression block, and changes at most one byte behind the destination. *)
Theorem ntfs_decompress_safe page_mask valid d dst_ofs_in_cb dst_size m cb_size pl cur_pg pages_per_cb :
  Forall (λ x, 0 ≤ x < 256) m → (cb_size < length m)%nat → (dst_size < length d)%nat →
  runs (ntfs_decompress page_mask valid d dst_ofs_in_cb dst_size m cb_size pl cur_pg pages_per_cb)
    (λ '(e, d'), (e = 0 ∨ e = EOVERFLOW) ∧ length d' = length d ∧
                 drop (S dst_size) d' = drop (S dst_size) d).
Proof.
  intros Hm Hc Hd. unfold ntfs_decompress.
  eapply runs_bind; [apply (sb_loop_runs _ _ (S dst_size)); [done|lia..]|].
  intros [d'|d'] [? ?]; apply runs_Ret; auto.
Qed.

Lemma ntfs_decompress_safe_witness :
  runs (ntfs_decompress (page_mask_of 0) (λ _, false) (replicate 4097 0) 0 4096
          [0x04; 0x80; 0xff; 0xff; 0xff; 0xff; 0xff; 0xff; 0xff] 8 false 0 1)
    (λ '(e, d'), (e = 0 ∨ e = EOVERFLOW) ∧ length d' = length (replicate 4097 0) ∧
                 drop 4097 d' = drop 4097 (replicate 4097 0)).
Proof.
  apply (ntfs_decompress_safe _ _ _ 0 4096);
    [by repeat (apply list.Forall_cons; split)|simpl; lia|rewrite length_replicate; lia].
Defined.

(** A symbol token behind a full sub-block is stored one byte behind the destination:
    the tag below announces the symbol A, a phrase of 4095 bytes and the symbol B. *)
Example ntfs_decompress_writes_past_end :
  let cb := [0x04; 0x80; 0x02; 0x41; 0xfc; 0x0f; 0x42; 0x00; 0x00] in
  ntfs_decompress (page_mask_of 0) (λ _, false) (replicate 4096 0) 0 4096 cb 9 false 0 1 = Oob ∧
  ntfs_decompress (page_mask_of 0) (λ _, false) (replicate 4097 0) 0 4096 cb 9 false 0 1 =
    Ret (0, replicate 4096 0x41 ++ [0x42]).
Proof. split; vm_compute; reflexivity. Qed.
